(* ===== verification/_CoqProject ===== *)
-Q . S2P
Prelude.v
Text.v
TimeVal.v
DaryHeap.v
CpBuffer.v
LogBuffer.v
ServiceData.v
Service.v
Simple.v
ServiceInv.v
ServiceInvOps.v
ServiceGraph.v
LinkedList.v
ServiceFuel.v
ServiceLinks.v
ServiceReach.v
ServiceStop.v
ServiceStart.v
SimpleLaws.v
SettingValue.v
HashSet.v
Env.v
Process.v
ProcessRun.v
ProcessEvents.v
ProcessLaws.v
ServiceExamples.v
ProcessLaunch.v
ProcessPolicy.v
SettingProps.v
VarSubst.v
VarSubstProps.v
ServiceFile.v
ServiceFileProps.v
Settings.v
SettingsLaws.v
Loader.v
LoaderLaws.v
LoaderProps.v
LoaderUnload.v
ProcessMemory.v
HashSetLaws.v
EnvLaws.v
EnvProps.v
ControlConn.v
Control.v
ControlLaws.v
ControlInput.v
ControlQueue.v
ControlHandles.v
ControlChain.v
ControlProps.v
LoadService.v
LoadFrame.v
LoadErrors.v
LoadProps.v
Log.v
LogLaws.v
LogProps.v
ChildProc.v
ChildLaws.v
ChildProps.v
IoStream.v
IoLaws.v
IoProps.v
Client.v
ClientLaws.v
ClientProps.v
Monitor.v
MonitorProps.v
