(* ===== verification/Prelude.v ===== *)
(** * Verification library for the dinit service manager (cdinit fork)

    The program is the service manager under src/cdinit/dinit/src.  It keeps a set of
    services with dependencies, starts and stops them in order, runs and supervises
    their processes, reads their descriptions from files and obeys the commands that clients
    send over a socket.  File names below are those of that directory; a definition has the
    name of the function, method or type that it models wherever the name is free.

    ** The parts of the program and the files that model them

    - Data.  [ServiceData] has the enumerations of service-constants.h, the dependency
      records, the service records (every field that the modelled code uses) and the service
      set of service.h.  A service and a dependency record are numbers that stand for their
      addresses; the set maps them to records, so that pointers and aliasing are explicit.
      The actions that leave the set (notifications, log lines, system calls) are in a trace.
    - The state machine.  [Service] has each method of service.cc and service.h, in explicit
      state passing with [let!]: starting, stopping, the propagation of acquisitions and
      releases, the queues and [process_queues], pins, the console queue, dependencies.  The
      virtual methods are the class [ServiceVirtual]; theorems on the state machine are proved
      against [ServiceVirtualLaws].  [Simple] implements the interface for internal and
      triggered services, [Process] for the three kinds of process services
      (baseproc-service.cc, proc-service.cc), with [ProcessRun] for launching and
      [ProcessEvents] for every event handler.  [LogBuffer] is the output buffer of a
      process.
    - Containers and time.  [LinkedList] (dinit-ll.h), [CpBuffer] (cpbuffer.h), [HashSet]
      (dinit-util.h), [DaryHeap] (daryheap.h, stableheap.h of the event loop) and [TimeVal]
      (timerbase.h).  The service model uses lists and maps; [slist_refines], [dlist_refines],
      [cpbuffer_is_queue] and [hash_set_refines] say that the real containers implement them.
    - Descriptions.  [Text] has characters, strings and numbers, [SettingValue] the values of
      settings, [VarSubst] the substitution of variables, [ServiceFile] the lines of a
      description with its includes, [Settings] the settings themselves and their
      [finalise] (load-service.h, settings.cc, the callback of load-service.cc).
    - Loading.  [LoadService] is [load_reload_service] of load-service.cc: it finds the
      description of a service, reads it, loads what it depends on by recursion, and makes or
      changes the record.  Files, directories, user names and the real environment come from a
      [host], the options of the program from a [config].  [Loader] has what it does to
      the dependency graph, and unloading; [ProcessMemory] the destructors and the hand-over of
      the descriptors of processes.  [LoadFrame] and [LoadErrors] are the lemmas on what a load
      leaves alone and how it fails, [LoadProps] has the properties.
    - Environments.  [Env] is class [environment] of dinit-env.h with its files.
    - The control server.  [ControlConn] has the packets, the output queue and the handles of
      a connection, [Control] every request of control.cc, the loop over the input and the
      events of a connection.  Where descriptions are loaded from is the class
      [ServiceLoading], of which nothing is assumed; [no_loader] is an instance.
    - Logging.  [Log] is dinit-log.cc: the two streams with their buffers and events, the
      hand-over of the console, and the messages, at once and in parts.  [LogLaws] and
      [LogProps] have what the streams write.
    - Streams.  [IoStream] has the classes [ostream] and [istream] of dinit-iostream.cc over
      the buffer of [CpBuffer]; [IoLaws] has what their loops write and read.  The other files take a
      file as the list of its lines, which [input_files_are_lines] of [IoProps] justifies.
    - Clients.  [Client] is the client library (dinit-client.h, dinit-client.cc): an operation
      is a function on the connection, its buffer and the states that were observed, which
      returns a value or throws; the system is that of [IoStream].  [ClientLaws] has triples
      [wp] for the operations, over the stream of the bytes that were received or are to come,
      and [ClientProps] what the client makes of the packets of [Control].  [Monitor] is
      dinit-monitor.cc over it, with the commands that it runs, [MonitorProps] its properties.
    - The child process.  [ChildProc] is [run_child_proc] of run-child-proc.cc, what the child
      does between [fork] and [exec], on a record with the table of its descriptors.
      [ChildLaws] has rules for its steps and the arrangement of the descriptors,
      [ChildProps] the properties.

    ** State and operations

    An operation of the service set is a function on [sys X], where [X] is the state of the
    derived classes; one that fails returns a boolean, an [option] or a [result] with the
    exceptions of the program.  [set_step] ([ServiceReach]) is the step relation whose
    steps are all public operations, the turns of the queues and what derived classes do;
    [reachable] is its closure.  [process_event] ([ProcessEvents]) and [server_step]
    ([ControlProps]) are the events of processes and of clients.  A connection is a record
    with the results of the calls of [write] to come; the results of other system calls are
    a list in the state.  Integers have their width written out ([u32], [u64]) where they can
    wrap around.

    ** The groups of theorems

    - Invariants of the service set: [required_by_bound], [pending_is_queued],
      [graph_well_formed], [recursion_terminates], and, for single operations,
      [operations_exact] and [require_propagation_exact].  They rest on [ServiceInv],
      [ServiceInvOps], [ServiceGraph] and [ServiceFuel].
    - What the state machine does: [stop_transitions], [do_stop_stops],
      [initiate_start_order], [start_check_dependencies_spec], [started_wakes_dependents],
      [start_service_internal], [stop_service_internal].
    - Processes: [start_ps_process_descriptors] (which descriptors a launch leaves open),
      [process_events_safe], [restart_rate_limited], [parse_pid_roundtrip],
      [log_buffer_correct].
    - Containers: the refinements named above, [fill_correct], [heap_is_priority_queue],
      [divide_timespec_correct].
    - Descriptions: [setting_value_roundtrip], [value_var_subst_correct],
      [parse_timespec_correct], [service_file_settings], [settings_well_formed].
    - Loading: [check_cycle_correct], [update_dependencies_correct], [unload_service_safe];
      [loading_preserves_services] (what is loaded stays as it is), [load_errors],
      [reload_settings_accepted].
    - Environments: [environment_correct].
    - The control server: [requests_safe], [requests_framed], [input_ends],
      [output_in_order], [handles_agree], [dependency_requests_acyclic].
    - Logging: [log_output_in_order] (whole lines in order, and notices on lost messages),
      [log_messages_whole], [log_parts_as_one], [log_flushes].
    - Streams: [ostream_in_order], [input_files_are_lines].
    - Clients: [client_waits_for_reply] (information packets are skipped or observed, and no
      others), [client_reads_replies] (the client reads what the server sends),
      [monitor_reports_events], [monitor_commands].
    - The child process: [child_descriptors] (which descriptors and which environment the
      program gets), [child_reports] (every error is reported), [child_identity] (the program
      runs as the user that was asked for, or not at all).
    - What does not hold, on concrete states: [double_acquisition], [stop_keeps_require],
      [active_count_leaks], [heap_order_lost], [divide_timespec_subsecond],
      [launch_failure_defects], [loader_defects], [load_defects], [environment_defects],
      [control_defects], [log_defects], [io_defects],
      [child_defects], [client_defects], [monitor_defects].

    ** Bounds and fuel

    - [do_stop] and [pull_console_queue] take as many turns as there are explicit activations
      and services in the console queue; [recursion_terminates] proves that the flag that is
      set when the fuel is used up is never set.
    - [process_queues n] takes at most [n] turns and sets a flag when that was not enough.
      The program does not bound its turns; every theorem holds for all [n].
    - [check_cycle] and [has_chain] take as many turns as there are dependency records, which
      [check_cycle_correct] and [has_chain_spec] prove to be enough; the loops over lines,
      characters and packets take the length of what they read ([service_file_settings],
      [input_ends]).  [divide_timespec] takes its fuel as an argument, and
      [divide_timespec_correct] says how much is enough.
    - The loops of a client that try again after an interruption go along the results of the
      calls to come, and those over packets and strings take the number of bytes that were
      received or are to come ([client_waits_for_reply], [client_reads_replies]); only a packet
      of length 0 uses that up ([client_defects]).
    - [load_reload_service] takes the depth of its recursion as fuel and reports [Overrun]
      beyond it, as the program has no bound: [load_defects] has descriptions that it
      loads without end.  The theorems on loading hold for every fuel.

    ** What is not modelled

    - The memory of the program can hold whatever it needs: [std::bad_alloc] is not modelled,
      nor are the paths that handle it.
    - Errors of [read] while a description is read: a file is the list of its lines.
    - The main program and shutdown (dinit.cc, shutdown.cc), the clients dinitctl.cc and
      dinit-check.cc, and the options and messages of dinit-monitor.cc: sequences of system
      calls and output for the user.
    - The system itself: the effects of system calls on the process ([syscall], [dup2],
      [fcntl_dup] of [ChildProc]) are the documented ones, and which of them fail is arbitrary.
    - The event loop (dasynq), apart from its heap and its arithmetic of time.  Its callbacks
      are the events of the model.
    - Loading from within an operation: when a service stops, the one that its [chain_to]
      names is looked up among the loaded services ([proc_virtual]), as [service_set] of
      service.h does; the set with directories would load it first.
    - Settings of optional features: cgroups, capabilities, I/O priority, OOM adjustment.

    ** This file

    Notation for record update and for state passing, the tactics that traverse an operation
    one statement at a time, the hint databases, and lemmas on lists that the parts share. *)

From Stdlib Require Export ZArith Lia.
From stdpp Require Export base gmap list strings option.

#[global] Set Default Goal Selector "!".
#[global] Open Scope Z_scope.
#[export] Set Warnings "-clear-no-such-hyp".

(** ** Record update

    [r <| field := v |>] is the record [r] with [field] replaced by [v].  The
    update function of a field is computed from the eta-expansion of the record
    type, which every record type of the development declares as an instance of
    [Eta]. *)

Class Setter {R T : Type} (proj : R → T) := set : (T → T) → R → R.
Arguments set {R T} proj {_} f r : simpl never.

Class Eta (R : Type) := eta_expand : R → R.

Ltac build_setter :=
  lazymatch goal with
  | |- Setter ?proj =>
      lazymatch type of proj with
      | ?R → ?T =>
          let inst := constr:(_ : Eta R) in
          let e := eval hnf in inst in
          let p := eval pattern proj in e in
          lazymatch p with
          | ?F _ =>
              let s := eval cbv beta in
                (λ (f : T → T) (r : R), F (λ r', f (proj r')) r) in
              exact s
          end
      end
  end.
#[export] Hint Extern 1 (Setter _) => build_setter : typeclass_instances.

Declare Scope dinit_scope.
Delimit Scope dinit_scope with dinit.
Notation "r <| p := v |>" := (set p (λ _, v) r)
  (at level 1, left associativity, p at level 99,
   format "r  <| p  :=  v |>") : dinit_scope.
Notation "r <| p ::= f |>" := (set p f r)
  (at level 1, left associativity, p at level 99,
   format "r  <| p  ::=  f |>") : dinit_scope.
#[global] Open Scope dinit_scope.

(** [rsimpl] reduces every projection of an updated record, and nothing else.
    The equation is stated for a variable record, so that the kernel never
    compares two nested updates field by field. *)
Ltac rsimpl_eq R T p q i f tac :=
  first
    [ unify p q;
      let ty := eval cbv beta in (∀ r0 : R, p (@set R T q i f r0) = f (p r0)) in
      tac constr:((λ r0 : R, eq_refl) : ty)
    | tac constr:((λ r0 : R, eq_refl) : (∀ r0 : R, p (@set R T q i f r0) = p r0)) ].
Ltac is_proj p :=
  first
    [ is_const p
    | lazymatch p with
      | ?h ?Y => is_const h; lazymatch type of Y with Type => idtac | Set => idtac end
      end ].
Ltac rsimpl :=
  repeat match goal with
    | |- context [?p (@set ?R ?T ?q ?i ?f ?r)] =>
        is_proj p; rsimpl_eq R T p q i f ltac:(fun e => rewrite (e r))
    end.
Ltac rsimpl_in H :=
  repeat match type of H with
    | context [?p (@set ?R ?T ?q ?i ?f ?r)] =>
        is_proj p; rsimpl_eq R T p q i f ltac:(fun e => rewrite (e r) in H)
    end.

(** ** Control structures of the source *)

(** A C++ [if] without [else] whose body only changes the state. *)
Definition when {S : Type} (b : bool) (f : S → S) (s : S) : S :=
  if b then f s else s.

(** A statement followed by the rest of the body: the rest sees the new state
    under the name of the old one.  It is a function and not a [let], so that
    the proofs can go through an operation statement by statement. *)
Definition seq {A B : Type} (a : A) (rest : A → B) : B := rest a.
Notation "'let!' x := a 'in' b" := (seq a (λ x, b))
  (at level 10, x name, a at level 200, b at level 200,
   format "'[v' 'let!'  x  :=  a  'in' '/' b ']'") : dinit_scope.
Notation "'let!' ' x := a 'in' b" := (seq a (λ x, b))
  (at level 10, x pattern, a at level 200, b at level 200,
   format "'[v' 'let!'  ' x  :=  a  'in' '/' b ']'") : dinit_scope.

(** A C++ range [for] over a container that the body does not change. *)
Definition for_each {A S : Type} (l : list A) (body : A → S → S) (s : S) : S :=
  foldl (λ s a, body a s) s l.

Definition b2z (b : bool) : Z := if b then 1 else 0.

Lemma b2z_bounds b : 0 ≤ b2z b ≤ 1.
Proof. destruct b; simpl; lia. Qed.

(** [unsigned] arithmetic, on 32 bits. *)
Definition u32 (z : Z) : Z := z mod 2 ^ 32.

Lemma u32_small z : 0 ≤ z < 2 ^ 32 → u32 z = z.
Proof. apply Z.mod_small. Qed.

Section control.
Context {A S : Type}.
Implicit Types (l : list A) (P : S → Prop).

Lemma when_inv P b (f : S → S) s : P s → (b = true → P s → P (f s)) → P (when b f s).
Proof. destruct b; simpl; auto. Qed.

Lemma for_each_nil (body : A → S → S) s : for_each [] body s = s.
Proof. done. Qed.

Lemma for_each_cons a l (body : A → S → S) s :
  for_each (a :: l) body s = for_each l body (body a s).
Proof. done. Qed.

(** A predicate that every turn of the loop preserves holds after it. *)
Lemma for_each_inv P l (body : A → S → S) s :
  P s → (∀ a s, a ∈ l → P s → P (body a s)) → P (for_each l body s).
Proof.
  revert s. induction l as [|a l IH]; intros s Hs Hbody; [done|].
  rewrite for_each_cons. apply IH.
  - apply Hbody; [set_solver|done].
  - intros a' s' Hin. apply Hbody. set_solver.
Qed.

Lemma for_each_app l1 l2 (body : A → S → S) s :
  for_each (l1 ++ l2) body s = for_each l2 body (for_each l1 body s).
Proof. apply foldl_app. Qed.
End control.

Section sequence.
Context {A B C : Type}.

Lemma seq_inv (P : A → Prop) (Q : B → Prop) (a : A) (f : A → B) :
  P a → (∀ s, P s → Q (f s)) → Q (seq a f).
Proof. intros Ha Hf. by apply Hf. Qed.

(** The statement also returns a value: the property is of the state. *)
Lemma seq_pair_inv (P : A → Prop) (Q : B → Prop) (a : A * C) (f : A * C → B) :
  P a.1 → (∀ s c, P s → Q (f (s, c))) → Q (seq a f).
Proof. destruct a as [s c]. intros Ha Hf. by apply Hf. Qed.
End sequence.

(** ** Automation

    The database [dinit] holds the side conditions of the step lemmas and the
    preservation lemmas of the acquisition invariant, [fuel] those of the fuel
    bounds.  [gstep] takes one statement of an operation for any predicate on
    states: it opens a [let!], a [when], an [if], a [match] or a loop.
    [sassumption] is [assumption] up to syntactic equality: it never unfolds an
    operation to compare two states. *)
Create HintDb dinit.
Create HintDb fuel.

Ltac sassumption :=
  match goal with H : ?T |- ?G => constr_eq T G; exact H end.

Ltac gstep :=
  cbv zeta;
  lazymatch goal with
  | |- ?P (seq ?a ?f) =>
      lazymatch type of a with
      | prod _ _ => apply (seq_pair_inv P P a f); [|intros ? ? ?]
      | _ => apply (seq_inv P P a f); [|intros ? ?]
      end
  | |- ?P (when _ _ _) => apply (when_inv P); [|intros ? _]
  | |- ?P (for_each _ _ _) => apply (for_each_inv P); [|intros ? ? _ ?]
  | |- ?P (match ?b with _ => _ end) => destruct b eqn:?
  | |- ?P (fst (match ?b with _ => _ end)) => destruct b eqn:?
  | |- ?P (fst (seq ?a ?f)) =>
      lazymatch type of a with
      | prod _ _ => apply (seq_pair_inv P (λ p, P (fst p)) a f); [|intros ? ? ?; cbv beta]
      | _ => apply (seq_inv P (λ p, P (fst p)) a f); [|intros ? ?; cbv beta]
      end
  | |- ?P (fst (?s, _)) => change (P s)
  end.
