(* ===== verification/Text.v ===== *)
(** * Characters, strings and numbers

    A string is a list of character codes, as the program's strings are sequences
    of bytes.  This file has the character classes of the classic locale, the
    numeric conversions of the C and C++ libraries that the program uses, the
    small scanning functions of [load-service.h], and the errors that reading a
    service description can end with. *)

From S2P Require Import Prelude.

Abbreviation text := (list Z).

(** The characters of a literal. *)
Fixpoint chars (s : string) : text :=
  match s with
  | EmptyString => []
  | String c s => Z.of_N (Ascii.N_of_ascii c) :: chars s
  end.

(** ** Character classes *)

Definition is_space (c : Z) : bool := (c =? 32) || ((9 <=? c) && (c <=? 13)).
Definition is_digit (c : Z) : bool := (48 <=? c) && (c <=? 57).
Definition is_cntrl (c : Z) : bool := ((0 <=? c) && (c <=? 31)) || (c =? 127).
Definition is_punct (c : Z) : bool :=
  ((33 <=? c) && (c <=? 47)) || ((58 <=? c) && (c <=? 64))
  || ((91 <=? c) && (c <=? 96)) || ((123 <=? c) && (c <=? 126)).

Definition NEWLINE : Z := 10.
Definition SPACE : Z := 32.
Definition QUOTE : Z := 34.
Definition HASH : Z := 35.
Definition DOLLAR : Z := 36.
Definition PLUS : Z := 43.
Definition MINUS : Z := 45.
Definition DOT : Z := 46.
Definition SLASH : Z := 47.
Definition COLON : Z := 58.
Definition EQUALS : Z := 61.
Definition AT : Z := 64.
Definition BACKSLASH : Z := 92.
Definition UNDERSCORE : Z := 95.
Definition LBRACE : Z := 123.
Definition RBRACE : Z := 125.

(** The character that an iterator points to; the one at the end of a string is
    its terminating nul. *)
Definition deref (s : text) : Z := default 0 (head s).

Definition text_eqb (s t : text) : bool := bool_decide (s = t).
Fixpoint starts_with (s prefix : text) : bool :=
  match prefix, s with
  | [], _ => true
  | c :: prefix, d :: s => (c =? d) && starts_with s prefix
  | _ :: _, [] => false
  end.

(** ** Scanning

    An iterator is the rest of the string from its position on. *)

(** [skip_ws] and [find_ws] *)
Fixpoint skip_ws (s : text) : text :=
  match s with
  | c :: s' => if is_space c then skip_ws s' else s
  | [] => []
  end.
Fixpoint find_ws (s : text) : text :=
  match s with
  | c :: s' => if is_space c then s else find_ws s'
  | [] => []
  end.

(** [skip_ws_ln]; the second result is the line number. *)
Fixpoint skip_ws_ln (s : text) (line : Z) : text * Z :=
  match s with
  | c :: s' =>
      let line := if c =? NEWLINE then u32 (line + 1) else line in
      if is_space c then skip_ws_ln s' line else (s, line)
  | [] => ([], line)
  end.

(** [skip_comment] *)
Fixpoint skip_comment_from (comment : bool) (s : text) (line : Z) : text * Z :=
  match s with
  | c :: s' =>
      let '(comment, line) :=
        if c =? HASH then (true, line)
        else if c =? NEWLINE then (false, u32 (line + 1))
        else (comment, line) in
      if negb comment && negb (is_space c) then (s, line)
      else skip_comment_from comment s' line
  | [] => ([], line)
  end.
Definition skip_comment (s : text) (line : Z) : text * Z := skip_comment_from false s line.

(** ** Decimal numbers

    [to_dec_digits]: the digits are made in reverse; 20 are enough for 64 bits. *)
Fixpoint dec_digits_rev (fuel : nat) (uval : Z) : text :=
  match fuel with
  | O => []
  | S fuel => (48 + uval mod 10)
              :: (if uval / 10 =? 0 then [] else dec_digits_rev fuel (uval / 10))
  end.
Definition to_dec_digits (val : Z) : text :=
  if val <? 0 then MINUS :: rev (dec_digits_rev 20 (- val))
  else rev (dec_digits_rev 20 val).

(** ** Numbers: [strtoull] and [strtoll]

    The result is the value, whether it is out of range, and the rest of the
    string; [None] when there is no number. *)

Definition digit (base c : Z) : option Z :=
  let v :=
    if (48 <=? c) && (c <=? 57) then c - 48
    else if (97 <=? c) && (c <=? 122) then c - 87
    else if (65 <=? c) && (c <=? 90) then c - 55 else 36 in
  if v <? base then Some v else None.
Fixpoint digits (base : Z) (s : text) (acc : option Z) : option (Z * text) :=
  match s with
  | c :: s' =>
      match digit base c with
      | Some d => digits base s' (Some (default 0 acc * base + d))
      | None => (λ v, (v, s)) <$> acc
      end
  | [] => (λ v, (v, [])) <$> acc
  end.

(** A number without sign; base 0 takes the base from the prefix. *)
Definition unsigned_number (base : Z) (s : text) : option (Z * text) :=
  let hex :=
    ((base =? 0) || (base =? 16)) && (deref s =? 48)
    && ((deref (tail s) =? 120) || (deref (tail s) =? 88))
    && bool_decide (is_Some (digit 16 (deref (tail (tail s))))) in
  if hex then digits 16 (tail (tail s)) None
  else
    let base := if base =? 0 then (if deref s =? 48 then 8 else 10) else base in
    digits base s None.

Definition split_sign (s : text) : bool * text :=
  if deref s =? MINUS then (true, tail s)
  else if deref s =? PLUS then (false, tail s) else (false, s).

Definition ULLONG_MAX : Z := 2 ^ 64 - 1.
Definition LLONG_MAX : Z := 2 ^ 63 - 1.
Definition LLONG_MIN : Z := - 2 ^ 63.
Definition INT_MAX : Z := 2 ^ 31 - 1.
Definition INT_MIN : Z := - 2 ^ 31.
Definition UINT_MAX : Z := 2 ^ 32 - 1.

Definition strtoull (base : Z) (s : text) : option (Z * bool * text) :=
  let '(negative, s) := split_sign (skip_ws s) in
  match unsigned_number base s with
  | None => None
  | Some (v, rest) =>
      if ULLONG_MAX <? v then Some (ULLONG_MAX, true, rest)
      else Some (if negative then (- v) mod 2 ^ 64 else v, false, rest)
  end.
Definition strtoll (base : Z) (s : text) : option (Z * bool * text) :=
  let '(negative, s) := split_sign (skip_ws s) in
  match unsigned_number base s with
  | None => None
  | Some (v, rest) =>
      let v := if negative then - v else v in
      if v <? LLONG_MIN then Some (LLONG_MIN, true, rest)
      else if LLONG_MAX <? v then Some (LLONG_MAX, true, rest)
      else Some (v, false, rest)
  end.

(** The characters up to the terminating nul. *)
Fixpoint c_string (s : text) : text :=
  match s with
  | c :: s => if c =? 0 then [] else c :: c_string s
  | [] => []
  end.

(** [std::stoull], [std::stoll] and [std::stoi]: the value and the number of
    characters, or the exception. *)
Variant conversion := Value (v ind : Z) | Invalid_argument | Out_of_range.
Definition converted (low high : Z) (s : text) (r : option (Z * bool * text)) : conversion :=
  match r with
  | None => Invalid_argument
  | Some (v, range, rest) =>
      if range || (v <? low) || (high <? v) then Out_of_range
      else Value v (Z.of_nat (length s) - Z.of_nat (length rest))
  end.
Definition stoull (s : text) (base : Z) : conversion :=
  let s := c_string s in converted 0 ULLONG_MAX s (strtoull base s).
Definition stoll (s : text) (base : Z) : conversion :=
  let s := c_string s in converted LLONG_MIN LLONG_MAX s (strtoll base s).
Definition stoi (s : text) (base : Z) : conversion :=
  let s := c_string s in converted INT_MIN INT_MAX s (strtoll base s).

(** ** Errors *)

(** [file_pos] *)
Record file_pos := File_pos { file_name : text; line_num : Z }.

(** The exceptions of the loader.  [Named] is one whose service name has been filled in.
    [Overrun] is not one of the program: the program reads outside a string there, or
    recurses without end, and what happens is undefined. *)
Inductive load_exc :=
  | Description_exc (pos : file_pos) (setting : option text) (msg : text)
  | Setting_exc (setting msg : text)       (* without a position *)
  | Service_load_exc (msg : text)
  | Cyclic_dependency (service : text)
  | Not_found (service : text)
  | Load_error (service path : text) (errno : Z)
  | Named (service : text) (e : load_exc)
  | Length_error
  | System_error (what : text)
  | Overrun.

Variant result (A : Type) := Ok (a : A) | Throw (e : load_exc).
Arguments Ok {A} a.
Arguments Throw {A} e.

Definition rbind {A B : Type} (r : result A) (f : A → result B) : result B :=
  match r with Ok a => f a | Throw e => Throw e end.
Notation "'try!' x := r 'in' b" := (rbind r (λ x, b))
  (at level 10, x name, r at level 200, b at level 200,
   format "'[v' 'try!'  x  :=  r  'in' '/' b ']'") : dinit_scope.
Notation "'try!' ' x := r 'in' b" := (rbind r (λ x, b))
  (at level 10, x pattern, r at level 200, b at level 200,
   format "'[v' 'try!'  ' x  :=  r  'in' '/' b ']'") : dinit_scope.

(** ** Lemmas *)

(** A number in decimal notation; [k] bounds the number of digits. *)
Fixpoint decimal (k : nat) (n : Z) : text :=
  match k with
  | O => []
  | S k => (if n <? 10 then [] else decimal k (n / 10)) ++ [48 + n mod 10]
  end.

Lemma ten_digits d :
  0 ≤ d < 10 →
  d = 0 ∨ d = 1 ∨ d = 2 ∨ d = 3 ∨ d = 4 ∨ d = 5 ∨ d = 6 ∨ d = 7 ∨ d = 8 ∨ d = 9.
Proof. lia. Qed.

Lemma digit_decimal d : 0 ≤ d < 10 → digit 10 (48 + d) = Some d.
Proof.
  intros Hd. pose proof (ten_digits d Hd) as H.
  by repeat destruct H as [->|H]; [..|subst].
Qed.

Lemma digits_decimal k n acc rest :
  0 ≤ n < 10 ^ Z.of_nat k → (0 < k)%nat → acc = None ∨ acc = Some 0 →
  digits 10 (decimal k n ++ rest) acc = digits 10 rest (Some n).
Proof.
  revert n rest. induction k as [|k IH]; intros n rest Hn Hk Hacc; [lia|].
  cbn [decimal]. pose proof (Z.mod_pos_bound n 10 ltac:(lia)) as Hm.
  rewrite <- app_assoc. destruct (Z.ltb_spec n 10) as [H10|H10].
  - cbn [app digits]. rewrite digit_decimal by lia. rewrite Z.mod_small by lia.
    by destruct Hacc as [->| ->].
  - assert (0 < k)%nat as Hk' by (destruct k; [change (10 ^ Z.of_nat 1) with 10 in Hn; lia|lia]).
    rewrite IH; [|..|done|done].
    + cbn [app digits]. rewrite digit_decimal by lia.
      change (default 0 (Some (n / 10))) with (n / 10).
      by replace (n / 10 * 10 + n mod 10) with n by (pose proof (Z.div_mod n 10); lia).
    + rewrite Nat2Z.inj_succ, Z.pow_succ_r in Hn by lia.
      split; [apply Z.div_pos; lia|apply Z.div_lt_upper_bound; lia].
Qed.

(** The first character of a decimal number without leading zeros. *)
Lemma decimal_head k n :
  (0 < k)%nat → 0 < n < 10 ^ Z.of_nat k → ∃ d s, decimal k n = (48 + d) :: s ∧ 0 < d < 10.
Proof.
  revert n. induction k as [|k IH]; intros n Hk Hn; [lia|]. cbn [decimal].
  destruct (Z.ltb_spec n 10) as [H10|H10].
  - exists n, []. rewrite Z.mod_small by lia. split; [done|lia].
  - assert (0 < k)%nat as Hk' by (destruct k; [change (10 ^ Z.of_nat 1) with 10 in Hn; lia|lia]).
    rewrite Nat2Z.inj_succ, Z.pow_succ_r in Hn by lia.
    destruct (IH (n / 10) Hk') as (d & s & -> & Hd); [|by exists d, (s ++ [48 + n mod 10])].
    split; [apply Z.div_str_pos; lia|apply Z.div_lt_upper_bound; lia].
Qed.

Lemma decimal_nonzero k n : 0 ≤ n → Forall (λ c, c ≠ 0) (decimal k n).
Proof.
  revert n. induction k as [|k IH]; intros n Hn; [constructor|]. cbn [decimal].
  apply Forall_app. split.
  - destruct (n <? 10); [constructor|apply IH, Z.div_pos; lia].
  - constructor; [|constructor]. pose proof (Z.mod_pos_bound n 10). lia.
Qed.
Lemma c_string_app s rest : Forall (λ c, c ≠ 0) s → c_string (s ++ rest) = s ++ c_string rest.
Proof.
  induction 1 as [|c s Hc _ IH]; [done|]. cbn [app c_string].
  by rewrite (proj2 (Z.eqb_neq c 0) Hc), IH.
Qed.

Lemma digit_bound base c d : digit base c = Some d → 0 ≤ d.
Proof.
  unfold digit. cbv zeta.
  destruct ((48 <=? c) && (c <=? 57)) eqn:H1; [|destruct ((97 <=? c) && (c <=? 122)) eqn:H2;
    [|destruct ((65 <=? c) && (c <=? 90)) eqn:H3]];
    destruct (_ <? base); intros [= <-]; lia.
Qed.
Lemma digits_nonneg base s acc v rest :
  (∀ a, acc = Some a → 0 ≤ a) → 0 ≤ base → digits base s acc = Some (v, rest) → 0 ≤ v.
Proof.
  intros Ha Hb. revert acc Ha. induction s as [|c s IH]; intros acc Ha; cbn [digits].
  - destruct acc as [a|]; intros [= <- <-]. by apply Ha.
  - destruct (digit base c) as [d|] eqn:Hd.
    + apply IH. intros a [= <-]. apply digit_bound in Hd.
      destruct acc as [a|]; cbn [default from_option id]; [|lia].
      specialize (Ha a eq_refl). nia.
    + destruct acc as [a|]; intros [= <- <-]. by apply Ha.
Qed.
Lemma unsigned_nonneg base s v rest :
  0 ≤ base → unsigned_number base s = Some (v, rest) → 0 ≤ v.
Proof.
  intros Hb. unfold unsigned_number. cbv zeta. destruct (_ && _);
    apply digits_nonneg; try done. repeat case_match; lia.
Qed.
Lemma strtoull_bounds base s v range rest :
  0 ≤ base → strtoull base s = Some (v, range, rest) → 0 ≤ v ≤ ULLONG_MAX.
Proof.
  intros Hb. unfold strtoull. destruct (split_sign _) as [negative s1].
  destruct (unsigned_number base s1) as [[w r]|] eqn:Hw; [|done].
  apply unsigned_nonneg in Hw; [|done]. unfold ULLONG_MAX.
  destruct (Z.ltb_spec (2 ^ 64 - 1) w); intros [= <- _ _]; [lia|].
  destruct negative; [|lia]. pose proof (Z.mod_pos_bound (- w) (2 ^ 64)). lia.
Qed.

(** What may follow a number: nothing, white space, a colon or a nul. *)
Definition ends_number (rest : text) : Prop :=
  match rest with [] => True | c :: _ => c = 0 ∨ c = COLON ∨ is_space c = true end.

Lemma ends_digits rest base n :
  base ≤ 16 → ends_number rest → digits base rest (Some n) = Some (n, rest).
Proof.
  intros Hb Hr. destruct rest as [|c s]; [done|].
  cbn [digits]. assert (digit base c = None) as ->; [|done].
  unfold ends_number, is_space, COLON in Hr. unfold digit. cbv zeta.
  assert (c = 0 ∨ c = 58 ∨ c = 32 ∨ 9 ≤ c ≤ 13) as Hc'
    by (destruct Hr as [?|[?|?]]; [lia|lia|]; lia).
  replace ((48 <=? c) && (c <=? 57)) with false by lia.
  replace ((97 <=? c) && (c <=? 122)) with false by lia.
  replace ((65 <=? c) && (c <=? 90)) with false by lia.
  by replace (36 <? base) with false by lia.
Qed.

Lemma unsigned_decimal n rest :
  0 ≤ n < 10 ^ 20 → ends_number rest →
  unsigned_number 0 (decimal 20 n ++ rest) = Some (n, rest).
Proof.
  intros Hn Hr. unfold unsigned_number.
  destruct (decide (n = 0)) as [->|Hn0].
  - change (decimal 20 0 ++ rest) with (48 :: rest). cbv zeta.
    cbn [deref head default from_option id tail].
    assert ((deref rest =? 120) || (deref rest =? 88) = false) as ->.
    { destruct rest as [|c s]; [done|]. unfold deref. cbn.
      unfold ends_number, is_space, COLON in Hr. destruct Hr as [?|[?|?]]; lia. }
    change (digits 8 (48 :: rest) None) with (digits 8 rest (Some 0)).
    by apply ends_digits.
  - destruct (decimal_head 20 n) as (d & s & Hd & Hb); [lia|cbn [Z.of_nat]; lia|].
    rewrite Hd. cbn [app]. cbv zeta. change (deref ((48 + d) :: s ++ rest)) with (48 + d).
    replace (48 + d =? 48) with false by lia. cbn [Z.eqb orb andb].
    change ((48 + d) :: s ++ rest) with (((48 + d) :: s) ++ rest).
    rewrite <- Hd, digits_decimal; [|cbn [Z.of_nat]; lia|lia|by left]. by apply ends_digits.
Qed.

(** A decimal number is read back, whatever follows it. *)
Lemma strtoull_decimal n rest :
  0 ≤ n ≤ ULLONG_MAX → ends_number rest →
  strtoull 0 (decimal 20 n ++ rest) = Some (n, false, rest).
Proof.
  intros Hn Hr. unfold ULLONG_MAX in Hn. unfold strtoull.
  assert (∃ d s, decimal 20 n = (48 + d) :: s ∧ 0 ≤ d < 10) as (d & s & Hd & Hb).
  { destruct (decide (n = 0)) as [->|Hn0]; [by exists 0, []|].
    destruct (decimal_head 20 n) as (d & s & Hd & Hb); [lia|cbn [Z.of_nat]; lia|].
    exists d, s. split; [done|lia]. }
  assert (skip_ws (decimal 20 n ++ rest) = decimal 20 n ++ rest) as ->.
  { rewrite Hd. cbn [app skip_ws]. unfold is_space. by replace (_ || _) with false by lia. }
  assert (split_sign (decimal 20 n ++ rest) = (false, decimal 20 n ++ rest)) as ->.
  { rewrite Hd. unfold split_sign, MINUS, PLUS. cbn [app].
    change (deref ((48 + d) :: s ++ rest)) with (48 + d).
    replace (48 + d =? 45) with false by lia. by replace (48 + d =? 43) with false by lia. }
  rewrite unsigned_decimal by (done || lia). by replace (ULLONG_MAX <? n) with false by (unfold ULLONG_MAX; lia).
Qed.
