(* ===== verification/TimeVal.v ===== *)
(** * Time values of the event loop

    Class [time_val] of [timerbase.h] and [divide_timespec].  A value is a number
    of seconds and of nanoseconds; it is normal when the nanoseconds are between
    0 and 999999999, and then stands for [total] nanoseconds.  The 64-bit fields
    are integers here: the operations add, subtract and double values that clocks
    and configured intervals give, far from the bounds. *)

From S2P Require Import Prelude.

Record time_val := Time_val { seconds : Z; nseconds : Z }.
#[export] Instance eta_time_val : Eta time_val := λ t, Time_val (seconds t) (nseconds t).
#[export] Instance time_val_eq_dec : EqDecision time_val.
Proof. solve_decision. Defined.

Definition NS : Z := 1000000000.

(** [operator-] and [operator-=]. *)
Definition tv_sub (t1 t2 : time_val) : time_val :=
  if nseconds t2 <=? nseconds t1
  then Time_val (seconds t1 - seconds t2) (nseconds t1 - nseconds t2)
  else Time_val (seconds t1 - seconds t2 - 1) (NS - nseconds t2 + nseconds t1).

(** [operator+] and [operator+=]. *)
Definition tv_add (t1 t2 : time_val) : time_val :=
  let ns := nseconds t1 + nseconds t2 in
  let s := seconds t1 + seconds t2 in
  if NS <=? ns then Time_val (s + 1) (ns - NS) else Time_val s ns.

(** [operator<], [==] and [<=]; [!=], [>] and [>=] are defined from them. *)
Definition tv_ltb (t1 t2 : time_val) : bool :=
  (seconds t1 <? seconds t2)
  || ((seconds t1 =? seconds t2) && (nseconds t1 <? nseconds t2)).
Definition tv_eqb (t1 t2 : time_val) : bool :=
  (seconds t1 =? seconds t2) && (nseconds t1 =? nseconds t2).
Definition tv_leb (t1 t2 : time_val) : bool :=
  (seconds t1 <? seconds t2)
  || ((seconds t1 =? seconds t2) && (nseconds t1 <=? nseconds t2)).

(** One turn of the loop of [operator<<=], and of that of [operator>>=]. *)
Definition tv_double (t : time_val) : time_val :=
  let s := seconds t * 2 in
  let ns := nseconds t * 2 in
  if NS <=? ns then Time_val (s + 1) (ns - NS) else Time_val s ns.
Definition tv_halve (t : time_val) : time_val :=
  let low := Z.odd (seconds t) in
  Time_val (Z.quot (seconds t) 2) (Z.quot (nseconds t) 2 + if low then 500000000 else 0).

Definition tv_shl (t : time_val) (n : nat) : time_val := Nat.iter n tv_double t.
Definition tv_shr (t : time_val) (n : nat) : time_val := Nat.iter n tv_halve t.

(** The loops of [divide_timespec].  The first one doubles the denominator until
    its seconds reach those of the remainder; the second one ends with
    [nval = 0]. *)
Fixpoint scale_up (fuel : nat) (d r : time_val) (nval : Z) : option (time_val * Z) :=
  if seconds d <? seconds r then
    match fuel with
    | O => None
    | S fuel => scale_up fuel (tv_double d) r (nval * 2)
    end
  else Some (d, nval).

Fixpoint subtract_down (fuel : nat) (d r : time_val) (nval rval : Z) : option (time_val * Z) :=
  if 0 <? nval then
    match fuel with
    | O => None
    | S fuel =>
        if tv_leb d r
        then subtract_down fuel (tv_halve d) (tv_sub r d) (Z.quot nval 2) (rval + nval)
        else subtract_down fuel (tv_halve d) r (Z.quot nval 2) rval
    end
  else Some (r, rval).

(** [divide_timespec]: the quotient and the remainder; [None] when the fuel of
    the loops is used up. *)
Definition divide_timespec (fuel : nat) (num den : time_val) : option (Z * time_val) :=
  if seconds num <? seconds den then Some (0, num)
  else if (seconds num =? seconds den) && (nseconds num <? nseconds den) then Some (0, num)
  else if (seconds num =? seconds den) && (seconds num =? 0) then
    Some (Z.quot (nseconds num) (nseconds den), Time_val 0 (Z.rem (nseconds num) (nseconds den)))
  else if seconds num =? seconds den then Some (1, Time_val 0 (nseconds num - nseconds den))
  else
    let r := tv_sub num den in
    if tv_ltb r den then Some (1, r)
    else
      match scale_up fuel den r 1 with
      | None => None
      | Some (d, nval) =>
          match subtract_down fuel d r nval 1 with
          | None => None
          | Some (r, rval) => Some (rval, r)
          end
      end.

(** ** Properties *)

Definition normal (t : time_val) : Prop := 0 ≤ nseconds t < NS.
Definition total (t : time_val) : Z := seconds t * NS + nseconds t.

Ltac tv := unfold normal, total, tv_sub, tv_add, tv_double, tv_halve, NS in *; simpl in *.

Lemma tv_ltb_total t1 t2 : normal t1 → normal t2 → tv_ltb t1 t2 = (total t1 <? total t2).
Proof. intros H1 H2. unfold tv_ltb. tv. apply eq_true_iff_eq. lia. Qed.
Lemma tv_leb_total t1 t2 : normal t1 → normal t2 → tv_leb t1 t2 = (total t1 <=? total t2).
Proof. intros H1 H2. unfold tv_leb. tv. apply eq_true_iff_eq. lia. Qed.
Lemma tv_sub_total t1 t2 :
  normal t1 → normal t2 → normal (tv_sub t1 t2) ∧ total (tv_sub t1 t2) = total t1 - total t2.
Proof. intros H1 H2. tv. destruct (_ <=? _) eqn:H; simpl; lia. Qed.
Lemma tv_add_total t1 t2 :
  normal t1 → normal t2 → normal (tv_add t1 t2) ∧ total (tv_add t1 t2) = total t1 + total t2.
Proof. intros H1 H2. tv. destruct (_ <=? _) eqn:H; simpl; lia. Qed.
Lemma tv_double_total t : normal t → normal (tv_double t) ∧ total (tv_double t) = 2 * total t.
Proof. intros H. tv. destruct (_ <=? _) eqn:H'; simpl; lia. Qed.
(** Halving a doubled value gives it back. *)
Lemma tv_halve_total t :
  normal t → 0 ≤ seconds t → Z.even (total t) = true →
  normal (tv_halve t) ∧ 2 * total (tv_halve t) = total t ∧ 0 ≤ seconds (tv_halve t).
Proof.
  intros H Hs He. apply Z.even_spec in He as [k Hk].
  tv.
  destruct (Z.odd (seconds t)) eqn:Hodd.
  - apply Z.odd_spec in Hodd as [j Hj]. rewrite !Z.quot_div_nonneg by lia.
    pose proof (Z.div_mod (seconds t) 2). pose proof (Z.div_mod (nseconds t) 2).
    pose proof (Z.mod_pos_bound (seconds t) 2). pose proof (Z.mod_pos_bound (nseconds t) 2). lia.
  - rewrite <- Z.negb_even in Hodd. apply negb_false_iff, Z.even_spec in Hodd as [j Hj].
    rewrite !Z.quot_div_nonneg by lia.
    pose proof (Z.div_mod (seconds t) 2). pose proof (Z.div_mod (nseconds t) 2).
    pose proof (Z.mod_pos_bound (seconds t) 2). pose proof (Z.mod_pos_bound (nseconds t) 2). lia.
Qed.

Lemma scale_up_spec fuel : ∀ d r j,
  normal d → normal r → 1 ≤ seconds d → seconds r - seconds d ≤ Z.of_nat fuel → 0 ≤ j →
  ∃ k d', scale_up fuel d r (2 ^ j) = Some (d', 2 ^ (j + Z.of_nat k))
    ∧ Z.of_nat k ≤ Z.max 0 (seconds r - seconds d) ∧ normal d' ∧ seconds r ≤ seconds d' ∧ total d' = 2 ^ Z.of_nat k * total d.
Proof.
  induction fuel as [|fuel IH]; intros d r j Hd Hr Hs Hf Hj; simpl.
  - destruct (_ <? _) eqn:H; [lia|]. exists 0%nat, d. change (Z.of_nat 0) with 0. rewrite Z.add_0_r, Z.pow_0_r.
    repeat split; try done; try apply Hd; lia.
  - destruct (_ <? _) eqn:H.
    + destruct (tv_double_total d Hd) as [Hn Ht].
      assert (seconds d < seconds (tv_double d)) by (tv; destruct (_ <=? _); simpl; lia).
      destruct (IH (tv_double d) r (j + 1)) as (k & d' & H1 & H2 & H3 & H4 & H5);
        [done|done|lia|lia|lia|].
      exists (S k), d'. replace (2 ^ j * 2) with (2 ^ (j + 1)) by (rewrite Z.pow_add_r; lia).
      rewrite H1. split; [f_equal; f_equal; f_equal; lia|].
      split; [lia|]. split; [done|]. split; [done|]. rewrite H5, Ht.
      rewrite Nat2Z.inj_succ, Z.pow_succ_r; lia.
    + exists 0%nat, d. change (Z.of_nat 0) with 0. rewrite Z.add_0_r, Z.pow_0_r.
    repeat split; try done; try apply Hd; lia.
Qed.

Lemma subtract_down_spec D k : ∀ fuel d r rval,
  (k < fuel)%nat → normal d → normal r → 0 ≤ seconds d → 0 < D →
  total d = 2 ^ Z.of_nat k * D → 0 ≤ total r < 2 * total d →
  ∃ r' q, subtract_down fuel d r (2 ^ Z.of_nat k) rval = Some (r', rval + q)
    ∧ normal r' ∧ total r = q * D + total r' ∧ 0 ≤ total r' < D.
Proof.
  induction k as [|k IH]; intros [|fuel] d r rval Hf Hd Hr Hs HD Ht Hb; try lia; cbn [subtract_down].
  - change (2 ^ Z.of_nat 0) with 1 in *. change (0 <? 1) with true.
    rewrite tv_leb_total by done. change (Z.quot 1 2) with 0.
    destruct (tv_sub_total r d Hr Hd) as [Hn Htot].
    assert (∀ f d' r' v, subtract_down f d' r' 0 v = Some (r', v)) as Hend by (by intros []).
    destruct (total d <=? total r) eqn:Hle; rewrite Hend.
    + exists (tv_sub r d), 1. split; [done|]. split; [done|]. lia.
    + exists r, 0. rewrite Z.add_0_r. split; [done|]. split; [done|]. lia.
  - assert (0 < 2 ^ Z.of_nat k) as Hpow by lia.
    rewrite Nat2Z.inj_succ, Z.pow_succ_r in * by lia.
    assert ((0 <? 2 * 2 ^ Z.of_nat k) = true) as -> by lia.
    rewrite tv_leb_total by done.
    assert (Z.quot (2 * 2 ^ Z.of_nat k) 2 = 2 ^ Z.of_nat k) as ->.
    { rewrite Z.mul_comm. by rewrite Z.quot_mul. }
    destruct (tv_halve_total d Hd Hs) as (Hn & Htd & Hsd).
    { rewrite Ht, <- Z.mul_assoc, Z.even_mul. done. }
    destruct (total d <=? total r) eqn:Hle.
    + destruct (tv_sub_total r d Hr Hd) as [Hn' Htot].
      destruct (IH fuel (tv_halve d) (tv_sub r d) (rval + 2 * 2 ^ Z.of_nat k))
        as (r' & q & H1 & H2 & H3 & H4); [lia|done..|lia|lia|].
      exists r', (2 * 2 ^ Z.of_nat k + q). rewrite H1.
      split; [f_equal; f_equal; lia|]. split; [done|]. split; [|done]. lia.
    + destruct (IH fuel (tv_halve d) r rval) as (r' & q & H1 & H2 & H3 & H4);
        [lia|done..|lia|lia|].
      exists r', q. by rewrite H1.
Qed.

(** [divide_timespec] divides: for a denominator of at least one second its
    loops terminate and it returns the quotient and the remainder of the two
    durations, the remainder normal and less than the denominator. *)
Theorem divide_timespec_correct fuel num den :
  normal num → normal den → 0 ≤ seconds num → 1 ≤ seconds den →
  seconds num < Z.of_nat fuel →
  ∃ q r, divide_timespec fuel num den = Some (q, r)
    ∧ normal r ∧ total num = q * total den + total r ∧ 0 ≤ total r < total den.
Proof.
  intros Hn Hd Hs Hsd Hf. unfold divide_timespec.
  destruct (seconds num <? seconds den) eqn:H1.
  { exists 0, num. tv. repeat split; try done; lia. }
  destruct (seconds num =? seconds den) eqn:H2; cbn [andb].
  { destruct (nseconds num <? nseconds den) eqn:H3.
    - exists 0, num. tv. repeat split; try done; lia.
    - assert ((seconds num =? 0) = false) as -> by lia.
      exists 1, (Time_val 0 (nseconds num - nseconds den)). tv. repeat split; try done; lia. }
  destruct (tv_sub_total num den Hn Hd) as [Hr Ht]. set (r := tv_sub num den) in *.
  rewrite tv_ltb_total by done.
  assert (0 ≤ total r) by (tv; lia).
  destruct (total r <? total den) eqn:H3.
  { exists 1, r. repeat split; try done; try apply Hr; lia. }
  change 1 with (2 ^ 0) at 1.
  destruct (scale_up_spec fuel den r 0) as (k & d' & -> & Hk & Hd' & Hle & Htd);
    [done|done|done|unfold r; tv; destruct (_ <=? _); simpl; lia|lia|].
  change (0 + Z.of_nat k) with (Z.of_nat k).
  assert (seconds r < seconds num) by (unfold r, tv_sub; destruct (_ <=? _); simpl; lia).
  assert (NS ≤ total den) by (unfold normal, total, NS in *; lia).
  assert (total den ≤ total d').
  { rewrite Htd. pose proof (Z.pow_pos_nonneg 2 (Z.of_nat k)). unfold NS in *. nia. }
  assert (1 ≤ seconds d') by (unfold normal, total, NS in *; lia).
  destruct (subtract_down_spec (total den) k fuel d' r 1) as (r' & q & -> & Hr' & Hq & Hb);
    [lia|done|done|lia|unfold NS in *; lia|done| |].
  - split; [done|]. unfold normal, total, NS in *. lia.
  - exists (1 + q), r'. split; [done|]. split; [done|]. lia.
Qed.

(** [divide_timespec] does not divide by a denominator of less than one
    second when the remainder after the first subtraction is less than a second
    too: 1 s divided by 0.1 s gives 2 with a remainder of 0.8 s. *)
Theorem divide_timespec_subsecond fuel :
  divide_timespec (S (S fuel)) (Time_val 1 0) (Time_val 0 100000000)
  = Some (2, Time_val 0 800000000).
Proof. reflexivity. Qed.

Lemma divide_timespec_correct_witness :
  ∃ q r, divide_timespec 10 (Time_val 7 500000000) (Time_val 2 0) = Some (q, r)
    ∧ normal r ∧ total (Time_val 7 500000000) = q * total (Time_val 2 0) + total r
    ∧ 0 ≤ total r < total (Time_val 2 0).
Proof.
  apply (divide_timespec_correct 10 (Time_val 7 500000000) (Time_val 2 0));
    unfold normal, NS; simpl; lia.
Defined.
