(* ===== verification/DaryHeap.v ===== *)
(** * The timer queue's heap

    Class [dary_heap] of [daryheap.h], a heap with fan-out [N] in a vector, and
    the generation counter of [stableheap.h].  A handle is a number; [heap_index]
    of a handle that is not in the map is -1.  The comparison is a strict weak
    order.  The storage management ([allocate], [deallocate]) only reserves
    capacity and is not modelled. *)

From S2P Require Import Prelude.

#[local] Open Scope nat_scope.

(** A strict weak order, as a comparison function. *)
Class StrictWeakOrder {P : Type} (lt : P → P → bool) : Prop := {
  lt_asym a b : lt a b = true → lt b a = false;
  lt_trans a b c : lt a b = true → lt b c = true → lt a c = true;
  lt_ge_trans a b c : lt a b = false → lt b c = false → lt a c = false
}.

Section heap.
Context {P : Type} `{!Inhabited P} (lt : P → P → bool) (N : nat).

Definition heap_node : Type := P * nat.
Record dary_heap := Heap { hvec : list heap_node; heap_index : gmap nat nat }.

Definition node (v : list heap_node) (i : nat) : heap_node :=
  default ((inhabitant, 0) : heap_node) (v !! i).

Definition parent (pos : nat) : nat := (pos - 1) / N.

(** Storing a node also records its position in the handle. *)
Definition store (pos : nat) (n : heap_node) (h : dary_heap) : dary_heap :=
  Heap (<[pos := n]> (hvec h)) (<[n.2 := pos]> (heap_index h)).

(** [bubble_down(pos, ohndl, op)]; also whether the node becomes the root.  The
    position decreases, so that its value is enough fuel. *)
Fixpoint bubble_down_loop (fuel : nat) (pos : nat) (n : heap_node) (h : dary_heap)
    : dary_heap * bool :=
  match fuel with
  | O => (store pos n h, bool_decide (pos = 0))
  | S fuel =>
      if bool_decide (pos = 0) then (store pos n h, true)
      else if negb (lt n.1 (node (hvec h) (parent pos)).1) then (store pos n h, false)
      else bubble_down_loop fuel (parent pos) n
             (store pos (node (hvec h) (parent pos)) h)
  end.
Definition bubble_down (pos : nat) (n : heap_node) (h : dary_heap) : dary_heap * bool :=
  bubble_down_loop pos pos n h.

(** The loop that selects the smallest child, over the positions from [i] to
    before [rchild]. *)
Fixpoint select_child (v : list heap_node) (count i sel : nat) : nat :=
  match count with
  | O => sel
  | S count =>
      select_child v count (S i) (if lt (node v i).1 (node v sel).1 then i else sel)
  end.

(** [bubble_up(pos, h, p)]; [rmax] is the last position of the vector. *)
Fixpoint bubble_up_loop (fuel rmax : nat) (pos : nat) (n : heap_node) (h : dary_heap)
    : dary_heap :=
  match fuel with
  | O => store pos n h
  | S fuel =>
      if (rmax - 1) / N <? pos then store pos n h
      else
        let lchild := pos * N + 1 in
        let rchild := Nat.min (lchild + N) rmax in
        let selchild := select_child (hvec h) (rchild - (lchild + 1)) (lchild + 1) lchild in
        if negb (lt (node (hvec h) selchild).1 n.1) then store pos n h
        else bubble_up_loop fuel rmax selchild n (store pos (node (hvec h) selchild) h)
  end.
(** The position increases, so that the size is enough fuel. *)
Definition bubble_up (pos : nat) (n : heap_node) (h : dary_heap) : dary_heap :=
  let rmax := length (hvec h) - 1 in
  if bool_decide (rmax = 0) then h else bubble_up_loop (length (hvec h)) rmax pos n h.

Definition pop_back (h : dary_heap) : dary_heap :=
  Heap (removelast (hvec h)) (heap_index h).

Definition remove_h (hidx : nat) (h : dary_heap) : dary_heap :=
  let h := Heap (hvec h) (delete (node (hvec h) hidx).2 (heap_index h)) in
  if bool_decide (length (hvec h) ≠ hidx + 1)
  then pop_back (bubble_up hidx (node (hvec h) (length (hvec h) - 1)) h)
  else pop_back h.

Definition insert (hnd : nat) (pval : P) (h : dary_heap) : dary_heap * bool :=
  let h := Heap (hvec h ++ [(inhabitant, 0)]) (<[hnd := length (hvec h)]> (heap_index h)) in
  bubble_down (length (hvec h) - 1) (pval, hnd) h.

Definition get_root (h : dary_heap) : nat := (node (hvec h) 0).2.
Definition get_root_priority (h : dary_heap) : P := (node (hvec h) 0).1.
Definition pull_root (h : dary_heap) : dary_heap := remove_h 0 h.

Definition is_queued (hnd : nat) (h : dary_heap) : bool :=
  negb (bool_decide (heap_index h !! hnd = None)).
Definition empty (h : dary_heap) : bool := bool_decide (hvec h = []).

(** A handle that is not queued has the index -1, which is no position of the
    vector. *)
Definition remove (hnd : nat) (h : dary_heap) : dary_heap :=
  remove_h (default (length (hvec h)) (heap_index h !! hnd)) h.

Definition set_priority (hnd : nat) (p : P) (h : dary_heap) : dary_heap * bool :=
  let i := default (length (hvec h)) (heap_index h !! hnd) in
  let n := (p, (node (hvec h) i).2) in
  let h' := Heap (<[i := n]> (hvec h)) (heap_index h) in
  if lt (node (hvec h) i).1 p then (bubble_up i n h', false)
  else bubble_down i n h'.

(** ** The heap order *)

Definition ordered (v : list heap_node) (i : nat) : Prop :=
  lt (node v i).1 (node v (parent i)).1 = false.
Definition heap_ok (v : list heap_node) : Prop := ∀ i, 0 < i < length v → ordered v i.

(** The handles know their positions. *)
Definition index_ok (v : list heap_node) (idx : gmap nat nat) : Prop :=
  ∀ i, i < length v → idx !! (node v i).2 = Some i.
Definition distinct (v : list heap_node) : Prop :=
  ∀ i j, i < length v → j < length v → (node v i).2 = (node v j).2 → i = j.

Context `{!StrictWeakOrder lt} (N_pos : 0 < N).

Lemma lt_irrefl a : lt a a = false.
Proof. destruct (lt a a) eqn:H; [|done]. by rewrite (lt_asym a a H) in H. Qed.

Lemma parent_lt i : 0 < i → parent i < i.
Proof.
  intros. unfold parent. assert ((i - 1) / N ≤ i - 1); [|lia].
  apply Nat.Div0.div_le_upper_bound. destruct N; [lia|nia].
Qed.
Lemma parent_child i pos : 0 < i → parent i = pos ↔ pos * N + 1 ≤ i ≤ pos * N + N.
Proof.
  intros. unfold parent. split.
  - intros <-. pose proof (Nat.div_mod_eq (i - 1) N). pose proof (Nat.mod_upper_bound (i - 1) N). nia.
  - intros Hi. symmetry. apply (Nat.div_unique _ _ _ (i - 1 - pos * N)); nia.
Qed.

Lemma node_insert v pos n i :
  pos < length v → node (<[pos := n]> v) i = if decide (i = pos) then n else node v i.
Proof.
  intros Hp. unfold node. case_decide; subst; [by rewrite list_lookup_insert_eq|].
  by rewrite list_lookup_insert_ne.
Qed.
Lemma lookup_node v i : i < length v → v !! i = Some (node v i).
Proof.
  intros Hi. unfold node. destruct (lookup_lt_is_Some_2 v i Hi) as [n Hn].
  rewrite Hn. reflexivity.
Qed.

(** Moving the node at [j] to the hole at [i] makes [j] the hole. *)
Lemma hole_move v i j n :
  i < length v → j < length v → i ≠ j →
  <[j := n]> (<[i := node v j]> v) ≡ₚ <[i := n]> v.
Proof.
  intros Hi Hj Hne.
  rewrite <- (Permutation_insert_swap (<[i := n]> v) i j n (node v j)).
  - by rewrite list_insert_insert_eq.
  - by rewrite list_lookup_insert_eq.
  - rewrite list_lookup_insert_ne by done. by apply lookup_node.
Qed.

Lemma distinct_move v i j n :
  i < length v → j < length v → i ≠ j →
  distinct (<[i := n]> v) → distinct (<[j := n]> (<[i := node v j]> v)).
Proof.
  intros Hi Hj Hne Hd a b. rewrite !length_insert. intros Ha Hb.
  pose (f := λ k, if decide (k = j) then i else if decide (k = i) then j else k).
  assert (∀ k, k < length v →
    node (<[j := n]> (<[i := node v j]> v)) k = node (<[i := n]> v) (f k)) as Hf.
  { intros k Hk. rewrite !node_insert by (rewrite ?length_insert; done). unfold f.
    repeat case_decide; subst; done. }
  assert (∀ k, k < length v → f k < length v) as Hfl.
  { intros k Hk. unfold f. repeat case_decide; lia. }
  rewrite !Hf by done. intros H.
  apply Hd in H; [|by rewrite length_insert; apply Hfl..].
  revert H. unfold f. repeat case_decide; subst; try done; lia.
Qed.

(** The state of a loop: a vector with a hole at [pos] that the node [n] is to
    fill.  All nodes but that of the hole know their positions. *)
Record hole (pos : nat) (n : heap_node) (h : dary_heap) (w : list heap_node) : Prop := {
  hole_pos : pos < length (hvec h);
  hole_perm : <[pos := n]> (hvec h) ≡ₚ w;
  hole_distinct : distinct (<[pos := n]> (hvec h));
  hole_index i : i < length (hvec h) → i ≠ pos →
    heap_index h !! (node (hvec h) i).2 = Some i
}.

Lemma hole_store pos n h w :
  hole pos n h w →
  hvec (store pos n h) ≡ₚ w ∧ index_ok (hvec (store pos n h)) (heap_index (store pos n h))
  ∧ distinct (hvec (store pos n h)).
Proof.
  intros [Hp Hw Hd Hi]. split; [done|]. split; [|done]. intros i Hl. simpl in *.
  rewrite length_insert in Hl. rewrite node_insert by done. case_decide as He; subst.
  - by rewrite lookup_insert_eq.
  - rewrite lookup_insert_ne; [by apply Hi|]. intros Heq. apply He, Hd; rewrite ?length_insert; try done.
    rewrite !node_insert, decide_False, decide_True by done. done.
Qed.

Lemma hole_step pos q n h w :
  hole pos n h w → q < length (hvec h) → q ≠ pos →
  hole q n (store pos (node (hvec h) q) h) w.
Proof.
  intros [Hp Hw Hd Hi] Hq Hne. split; simpl.
  - by rewrite length_insert.
  - by rewrite hole_move.
  - by apply distinct_move.
  - intros i Hl Hiq. rewrite length_insert in Hl. rewrite node_insert by done. case_decide as He; subst.
    + by rewrite lookup_insert_eq.
    + rewrite lookup_insert_ne; [by apply Hi|]. intros Heq. apply Hiq, Hd; rewrite ?length_insert; try done.
      rewrite !node_insert, !decide_False by done. done.
Qed.

(** Bubbling towards the root: only the node in the hole can be out of order
    with its parent. *)
Definition down_inv pos n v : Prop :=
  (∀ i, 0 < i < length v → i ≠ pos → ordered (<[pos := n]> v) i)
  ∧ (0 < pos → ∀ i, 0 < i < length v → parent i = pos →
       lt (node v i).1 (node v (parent pos)).1 = false).

Lemma down_step pos n v :
  pos < length v → 0 < pos → down_inv pos n v → lt n.1 (node v (parent pos)).1 = true →
  down_inv (parent pos) n (<[pos := node v (parent pos)]> v).
Proof.
  intros Hp H0 [H1 H2] Hlt. set (q := parent pos) in *. pose proof (parent_lt pos H0) as Hq.
  fold q in Hq. specialize (H2 H0).
  assert (∀ i, i < length v → i ≠ pos → node (<[pos := node v q]> v) i = node v i) as Hsame.
  { intros i Hi Hne. by rewrite node_insert, decide_False. }
  assert (∀ i, 0 < i < length v → i ≠ pos → parent i ≠ pos → ordered v i) as Hold.
  { intros i Hi Hne Hpar. specialize (H1 i Hi Hne). unfold ordered in *.
    by rewrite !node_insert, !decide_False in H1 by done. }
  split.
  - intros i Hi Hne. rewrite length_insert in Hi. unfold ordered.
    rewrite (node_insert _ q) by (rewrite length_insert; lia). rewrite decide_False by done.
    rewrite (node_insert _ q) by (rewrite length_insert; lia).
    destruct (decide (i = pos)) as [->|Hip].
    + rewrite node_insert, !decide_True by done. by apply lt_asym.
    + rewrite Hsame by (lia || done). destruct (decide (parent i = q)) as [Hpq|Hpq].
      * destruct (lt (node v i).1 n.1) eqn:Hb; [|done].
        assert (ordered v i) as Ho by (apply Hold; [done|done|lia]). unfold ordered in Ho.
        rewrite Hpq in Ho. by rewrite (lt_trans _ _ _ Hb Hlt) in Ho.
      * rewrite node_insert by done. case_decide as Hpp; [by apply H2|]. by apply Hold.
  - intros H0q i Hi Hpi. rewrite length_insert in Hi. pose proof (parent_lt q H0q).
    rewrite (Hsame (parent q)) by lia.
    assert (ordered v q) as Hoq by (apply Hold; lia).
    rewrite node_insert by done. case_decide as Hip; [done|].
    assert (ordered v i) as Ho by (apply Hold; [done|done|lia]). unfold ordered in Ho.
    rewrite Hpi in Ho. exact (lt_ge_trans _ _ _ Ho Hoq).
Qed.

Lemma down_done pos n v :
  pos < length v → down_inv pos n v →
  pos = 0 ∨ lt n.1 (node v (parent pos)).1 = false → heap_ok (<[pos := n]> v).
Proof.
  intros Hp [H1 _] Hc i Hi. rewrite length_insert in Hi.
  destruct (decide (i = pos)) as [->|]; [|by apply H1].
  destruct Hc as [|Hc]; [lia|]. unfold ordered. pose proof (parent_lt pos).
  rewrite !node_insert, decide_True, decide_False by lia. done.
Qed.

(** The heap that an operation leaves, with the nodes [w]. *)
Definition good (h : dary_heap) (w : list heap_node) : Prop :=
  heap_ok (hvec h) ∧ hvec h ≡ₚ w ∧ index_ok (hvec h) (heap_index h) ∧ distinct (hvec h).

Lemma bubble_down_loop_ok fuel : ∀ pos n h w,
  pos ≤ fuel → hole pos n h w → down_inv pos n (hvec h) →
  good (bubble_down_loop fuel pos n h).1 w.
Proof.
  assert (∀ pos n h w, hole pos n h w → down_inv pos n (hvec h) →
    pos = 0 ∨ lt n.1 (node (hvec h) (parent pos)).1 = false →
    good (store pos n h) w) as Hstop.
  { intros pos n h w Hh Hd Hc. split; [|by apply hole_store].
    by apply down_done; [apply Hh| |]. }
  induction fuel as [|fuel IH]; intros pos n h w Hf Hh Hd; simpl.
  { apply Hstop; [done|done|left; lia]. }
  destruct (decide (pos = 0)) as [->|H0].
  { rewrite bool_decide_eq_true_2 by done. apply Hstop; [done|done|by left]. }
  rewrite bool_decide_eq_false_2 by done. pose proof (parent_lt pos ltac:(lia)).
  pose proof (hole_pos _ _ _ _ Hh).
  destruct (lt n.1 _) eqn:Hlt; simpl.
  - apply IH; [lia| |].
    + apply hole_step; [done|lia|lia].
    + simpl. apply down_step; [done|lia|done|done].
  - apply Hstop; [done|done|by right].
Qed.

(** *** Bubbling away from the root *)

Lemma select_child_spec v count : ∀ i sel,
  let s := select_child v count i sel in
  (s = sel ∨ i ≤ s < i + count)
  ∧ lt (node v sel).1 (node v s).1 = false
  ∧ ∀ j, i ≤ j < i + count → lt (node v j).1 (node v s).1 = false.
Proof.
  induction count as [|count IH]; intros i sel; simpl.
  { split; [by left|]. split; [apply lt_irrefl|]. lia. }
  destruct (lt (node v i).1 (node v sel).1) eqn:Hlt.
  - destruct (IH (S i) i) as (H1 & H2 & H3). split; [right; lia|]. split.
    + apply (lt_ge_trans _ (node v i).1); [by apply lt_asym|done].
    + intros j Hj. destruct (decide (j = i)) as [->|]; [done|]. apply H3. lia.
  - destruct (IH (S i) sel) as (H1 & H2 & H3). split; [destruct H1; [by left|right; lia]|].
    split; [done|]. intros j Hj. destruct (decide (j = i)) as [->|]; [|apply H3; lia].
    by apply (lt_ge_trans _ (node v sel).1).
Qed.

(** Only the node in the hole can be out of order with its children. *)
Definition up_inv pos n u : Prop :=
  (∀ i, 0 < i < length u → parent i ≠ pos → ordered (<[pos := n]> u) i)
  ∧ (0 < pos → ∀ i, 0 < i < length u → parent i = pos →
       lt (node u i).1 (node u (parent pos)).1 = false).

Lemma up_done pos n u :
  pos < length u → up_inv pos n u →
  (∀ i, 0 < i < length u → parent i = pos → lt (node u i).1 n.1 = false) →
  heap_ok (<[pos := n]> u).
Proof.
  intros Hp [H1 _] Hc i Hi. rewrite length_insert in Hi.
  destruct (decide (parent i = pos)) as [He|]; [|by apply H1].
  pose proof (parent_lt i ltac:(lia)). unfold ordered.
  rewrite !node_insert, decide_False, decide_True by lia. by apply Hc.
Qed.

Lemma up_step pos s n u :
  s < length u → 0 < s → parent s = pos → up_inv pos n u →
  lt (node u s).1 n.1 = true →
  (∀ i, 0 < i < length u → parent i = pos → lt (node u i).1 (node u s).1 = false) →
  up_inv s n (<[pos := node u s]> u).
Proof.
  intros Hs H0 Hpar [H1 H2] Hlt Hmin. pose proof (parent_lt s H0) as Hps.
  assert (∀ i, 0 < i < length u → i ≠ pos → parent i ≠ pos → ordered u i) as Hold.
  { intros i Hi Hne Hp. specialize (H1 i Hi Hp). unfold ordered in *.
    by rewrite !node_insert, !decide_False in H1 by lia. }
  split.
  - intros i Hi Hne. rewrite length_insert in Hi. unfold ordered.
    pose proof (parent_lt i ltac:(lia)).
    rewrite (node_insert _ s _ (parent i)) by (rewrite length_insert; lia).
    rewrite (decide_False (P:=parent i = s)) by done.
    rewrite (node_insert _ s) by (rewrite length_insert; lia).
    rewrite !(node_insert u pos) by lia.
    destruct (decide (i = s)) as [->|His].
    + rewrite decide_True by done. by apply lt_asym.
    + destruct (decide (i = pos)) as [->|Hip].
      * rewrite decide_False by lia. apply H2; lia.
      * destruct (decide (parent i = pos)); [by apply Hmin|]. by apply Hold.
  - intros _ i Hi Hpi. rewrite length_insert in Hi. pose proof (parent_lt i ltac:(lia)).
    rewrite !(node_insert u pos), Hpar by lia. rewrite (decide_True (P:=pos = pos)) by done.
    rewrite decide_False by lia.
    assert (ordered u i) as Ho by (apply Hold; lia). unfold ordered in Ho. by rewrite Hpi in Ho.
Qed.

Lemma node_snoc u l i : i < length u → node (u ++ [l]) i = node u i.
Proof. intros Hi. unfold node. by rewrite lookup_app_l. Qed.
Lemma node_last u l : node (u ++ [l]) (length u) = l.
Proof. unfold node. by rewrite list_lookup_middle. Qed.

Lemma store_snoc pos n u l idx :
  pos < length u → store pos n (Heap (u ++ [l]) idx) = Heap (<[pos := n]> u ++ [l]) (<[n.2 := pos]> idx).
Proof. intros Hp. unfold store. simpl. by rewrite insert_app_l. Qed.

(** The loop never moves the last node of the vector, whose priority is the one
    that is being placed. *)
Lemma bubble_up_loop_ok fuel : ∀ pos n u l idx w,
  length u ≤ pos + fuel → n.1 = l.1 → hole pos n (Heap u idx) w → up_inv pos n u →
  good (pop_back (bubble_up_loop fuel (length u) pos n (Heap (u ++ [l]) idx))) w.
Proof.
  assert (∀ pos n u l idx w, hole pos n (Heap u idx) w → up_inv pos n u →
    (∀ i, 0 < i < length u → parent i = pos → lt (node u i).1 n.1 = false) →
    good (pop_back (store pos n (Heap (u ++ [l]) idx))) w) as Hstop.
  { intros pos n u l idx w Hh Hu Hc. pose proof (hole_pos _ _ _ _ Hh) as Hp. simpl in Hp.
    rewrite store_snoc by done. unfold pop_back; simpl. rewrite removelast_last.
    split; [by apply up_done|]. apply (hole_store _ _ _ _ Hh). }
  induction fuel as [|fuel IH]; intros pos n u l idx w Hf Hnl Hh Hu.
  { pose proof (hole_pos _ _ _ _ Hh) as Hp. simpl in Hp. lia. }
  pose proof (hole_pos _ _ _ _ Hh) as Hp. simpl in Hp. cbn [bubble_up_loop hvec].
  destruct (Nat.ltb_spec ((length u - 1) / N) pos) as [Hlt|Hge].
  { apply Hstop; [done|done|]. intros i Hi Hpi. apply parent_child in Hpi; [|lia].
    assert (pos ≤ (length u - 1) / N); [|lia]. apply Nat.div_le_lower_bound; lia. }
  assert (pos * N + 1 ≤ length u) as Hl.
  { pose proof (Nat.Div0.mul_div_le (length u - 1) N). nia. }
  set (lc := pos * N + 1) in *. set (cnt := Nat.min (lc + N) (length u) - (lc + 1)).
  destruct (select_child_spec (u ++ [l]) cnt (lc + 1) lc) as (Hs1 & Hs2 & Hs3).
  set (s := select_child _ _ _ _) in *.
  destruct (decide (lc = length u)) as [He|Hne].
  { assert (s = length u) as -> by (destruct Hs1; lia). rewrite node_last, <- Hnl, lt_irrefl.
    apply Hstop; [done|done|]. intros i Hi Hpi. apply parent_child in Hpi; lia. }
  assert (lc ≤ s < length u ∧ s < lc + N) as [Hsl HsN] by (destruct Hs1; lia).
  assert (parent s = pos) as Hpar by (apply parent_child; lia).
  assert (pos < s) as Hps by (rewrite <- Hpar; apply parent_lt; lia).
  assert (∀ i, 0 < i < length u → parent i = pos → lt (node u i).1 (node u s).1 = false) as Hmin.
  { intros i Hi Hpi. apply parent_child in Hpi; [|lia].
    rewrite <- (node_snoc u l i), <- (node_snoc u l s) by lia.
    destruct (decide (i = lc)) as [->|]; [done|]. apply Hs3. lia. }
  rewrite node_snoc by lia. destruct (lt (node u s).1 n.1) eqn:Hlt; cbn [negb].
  - rewrite store_snoc by done.
    pose proof (hole_step pos s n _ _ Hh ltac:(simpl; lia) ltac:(lia)) as Hh'.
    replace (length u) with (length (<[pos := node u s]> u)) by apply length_insert.
    apply IH; [rewrite length_insert; lia|done|exact Hh'|].
    apply up_step; [lia|lia|done|done|done|done].
  - apply Hstop; [done|done|]. intros i Hi Hpi.
    apply (lt_ge_trans _ (node u s).1); [by apply Hmin|done].
Qed.

(** *** The operations *)

Definition wf (h : dary_heap) : Prop :=
  heap_ok (hvec h) ∧ index_ok (hvec h) (heap_index h) ∧ distinct (hvec h).

Lemma insert_snoc (v : list heap_node) x n : <[length v := n]> (v ++ [x]) = v ++ [n].
Proof.
  rewrite insert_app_r_alt by done. by rewrite Nat.sub_diag.
Qed.

Lemma distinct_snoc v n :
  distinct v → (∀ i, i < length v → (node v i).2 ≠ n.2) → distinct (v ++ [n]).
Proof.
  intros Hd Hn i j. rewrite length_app. simpl. intros Hi Hj.
  destruct (decide (i = length v)) as [->|], (decide (j = length v)) as [->|];
    rewrite ?node_last, ?node_snoc by lia; try done.
  - intros H. destruct (Hn j ltac:(lia)). done.
  - intros H. by destruct (Hn i ltac:(lia)).
  - apply Hd; lia.
Qed.

(** Inserting a handle that is not queued. *)
Lemma insert_correct hnd p h :
  wf h → (∀ i, i < length (hvec h) → (node (hvec h) i).2 ≠ hnd) →
  wf (insert hnd p h).1 ∧ hvec (insert hnd p h).1 ≡ₚ (p, hnd) :: hvec h.
Proof.
  destruct h as [v idx]. intros (Ho & Hi & Hd) Hn. simpl in *.
  unfold insert, bubble_down; simpl. rewrite length_app; simpl.
  replace (length v + 1 - 1) with (length v) by lia.
  set (h0 := Heap (v ++ [(inhabitant, 0)]) (<[hnd:=length v]> idx)).
  assert (good (bubble_down_loop (length v) (length v) (p, hnd) h0).1 ((p, hnd) :: v)) as Hg.
  { apply bubble_down_loop_ok; [done| |].
    - split; simpl.
      + rewrite length_app. simpl. lia.
      + rewrite insert_snoc. by rewrite Permutation_app_comm.
      + rewrite insert_snoc. by apply distinct_snoc.
      + intros i Hl Hne. rewrite length_app in Hl. simpl in Hl.
        rewrite node_snoc by lia. rewrite lookup_insert_ne; [apply Hi; lia|].
        intros He. apply (Hn i); [lia|done].
    - split; simpl; rewrite length_app; simpl.
      + intros i Hl Hne. rewrite insert_snoc. unfold ordered.
        pose proof (parent_lt i ltac:(lia)). rewrite !node_snoc by lia. apply Ho. lia.
      + intros _ i Hl Hp. pose proof (parent_lt i ltac:(lia)). lia. }
  destruct Hg as (H1 & H2 & H3 & H4). by repeat split.
Qed.

(** The root of a heap has the smallest priority. *)
Lemma root_minimal h i :
  wf h → i < length (hvec h) → lt (node (hvec h) i).1 (get_root_priority h) = false.
Proof.
  intros (Ho & _ & _). unfold get_root_priority.
  induction i as [i IH] using lt_wf_ind. intros Hi.
  destruct (decide (i = 0)) as [->|H0]; [apply lt_irrefl|].
  pose proof (parent_lt i ltac:(lia)).
  apply (lt_ge_trans _ (node (hvec h) (parent i)).1); [apply Ho; lia|]. apply IH; lia.
Qed.

(** Pulling the root of a heap that is not empty. *)
Lemma pull_root_correct h :
  wf h → hvec h ≠ [] →
  wf (pull_root h) ∧ hvec h ≡ₚ (get_root_priority h, get_root h) :: hvec (pull_root h).
Proof.
  destruct h as [v idx]. intros (Ho & Hi & Hd) Hv. unfold pull_root, remove_h; simpl in *.
  destruct (exists_last Hv) as (u & l & ->). clear Hv.
  unfold get_root_priority, get_root; cbn [hvec]. rewrite <- surjective_pairing.
  rewrite length_app; cbn [length]. replace (length u + 1 - 1) with (length u) by lia.
  destruct u as [|r u].
  { simpl. repeat split; try done; intros i; simpl; try lia. }
  rewrite bool_decide_eq_true_2 by (simpl; lia). rewrite node_last.
  change (node ((r :: u) ++ [l]) 0) with r.
  unfold bubble_up; cbn [hvec]. rewrite length_app; cbn [length]. rewrite bool_decide_eq_false_2 by lia.
  replace (S (length u) + 1 - 1) with (length (r :: u)) by (simpl; lia).
  assert (∀ i, i < length (r :: u) → node ((r :: u) ++ [l]) i = node (r :: u) i) as Hs
    by (intros; by apply node_snoc).
  assert (good (pop_back (bubble_up_loop (S (length u) + 1) (length (r :: u)) 0 l
            (Heap ((r :: u) ++ [l]) (delete r.2 idx)))) (l :: u)) as (H1 & H2 & H3 & H4).
  { apply bubble_up_loop_ok; [simpl; lia|done| |].
    - assert (∀ i, i < length (r :: u) → node (l :: u) i = if decide (i = 0) then l else node (r :: u) i) as Hl.
      { intros [|i] _; done. }
      split; simpl.
      + lia.
      + done.
      + intros i j Hi' Hj. rewrite !Hl by done. pose proof (Hd i j) as Hij. pose proof (Hd i (length (r :: u))) as Hil.
        pose proof (Hd j (length (r :: u))) as Hjl. rewrite length_app, node_last in Hil, Hjl.
        rewrite length_app in Hij. cbn [length] in *. rewrite !Hs in Hij by done. rewrite Hs in Hil, Hjl by done.
        repeat case_decide; subst; intros He; try done.
        * symmetry in He. specialize (Hjl ltac:(lia) ltac:(lia) He). lia.
        * specialize (Hil ltac:(lia) ltac:(lia) He). lia.
        * apply Hij; [lia|lia|done].
      + intros i Hl' Hne. rewrite lookup_delete_ne.
        * specialize (Hi i). rewrite length_app, Hs in Hi by done. apply Hi. simpl. lia.
        * intros He. pose proof (Hd 0 i) as H0. rewrite length_app, !Hs in H0 by (simpl; lia).
          specialize (H0 ltac:(simpl; lia) ltac:(simpl; lia) He). lia.
    - split; [|lia]. intros i Hi' Hne. specialize (Ho i). rewrite length_app in Ho.
      pose proof (parent_lt i ltac:(lia)). unfold ordered in *. rewrite (Hs i), (Hs (parent i)) in Ho by lia.
      rewrite !node_insert, !decide_False by (simpl; lia). apply Ho. simpl in *. lia. }
  split; [by repeat split|]. rewrite H2.
  change ((r :: u) ++ [l]) with (r :: u ++ [l]). by rewrite (Permutation_app_comm u [l]).
Qed.

(** C11: The d-ary heap is a priority queue.  Inserting a handle that is not
    queued adds exactly the new node; the root has the smallest priority; pulling
    the root removes exactly the root; and both keep the heap order and the
    positions that the handles record. *)
Theorem heap_is_priority_queue h :
  wf h →
  (∀ hnd p, (∀ i, i < length (hvec h) → (node (hvec h) i).2 ≠ hnd) →
     wf (insert hnd p h).1 ∧ hvec (insert hnd p h).1 ≡ₚ (p, hnd) :: hvec h)
  ∧ (∀ i, i < length (hvec h) → lt (node (hvec h) i).1 (get_root_priority h) = false)
  ∧ (hvec h ≠ [] →
     wf (pull_root h) ∧ hvec h ≡ₚ (get_root_priority h, get_root h) :: hvec (pull_root h)).
Proof.
  intros H. split; [|split].
  - intros hnd p. by apply insert_correct.
  - intros i. by apply root_minimal.
  - by apply pull_root_correct.
Qed.
End heap.

(** ** Stable order

    [stable_prio] and [compare_stable_prio]: priorities with a sequence number as
    second key.  [stable_heap] numbers the insertions. *)
Section stable.
Context {P : Type} (lt : P → P → bool).

Definition compare_stable_prio (a b : P * nat) : bool :=
  if lt a.1 b.1 then true
  else if lt b.1 a.1 then false
  else a.2 <? b.2.

(** The stable comparison is again a strict weak order, and of two
    insertions with equivalent priorities the earlier one is before the later
    one. *)
Theorem stable_order_correct :
  StrictWeakOrder lt →
  StrictWeakOrder compare_stable_prio
  ∧ ∀ p q o1 o2, lt p q = false → lt q p = false → o1 < o2 →
      compare_stable_prio (p, o1) (q, o2) = true.
Proof.
  intros H. split; [|intros p q o1 o2 H1 H2 Ho; unfold compare_stable_prio; simpl;
                     rewrite H1, H2; by apply Nat.ltb_lt].
  assert (∀ a b c, lt a b = true → lt b c = false → lt c b = false → lt a c = true) as Hr.
  { intros a b c H1 H2 H3. destruct (lt a c) eqn:H4; [done|].
    by rewrite (lt_ge_trans a c b H4 H3) in H1. }
  assert (∀ a b c, lt a b = false → lt b a = false → lt b c = true → lt a c = true) as Hl.
  { intros a b c H1 H2 H3. destruct (lt a c) eqn:H4; [done|].
    by rewrite (lt_ge_trans b a c H2 H4) in H3. }
  split; intros [a oa] [b ob]; [|intros [c oc]|intros [c oc]]; unfold compare_stable_prio; simpl.
  - destruct (lt a b) eqn:H1; [by rewrite (lt_asym a b H1)|].
    destruct (lt b a) eqn:H2; [done|]. rewrite Nat.ltb_lt, Nat.ltb_ge. lia.
  - destruct (lt a b) eqn:H1.
    + intros _. destruct (lt b c) eqn:H2; [by rewrite (lt_trans a b c H1 H2)|].
      destruct (lt c b) eqn:H3; [done|]. intros _. by rewrite (Hr a b c).
    + destruct (lt b a) eqn:H2; [done|]. intros Ho. destruct (lt b c) eqn:H3.
      * intros _. by rewrite (Hl a b c).
      * destruct (lt c b) eqn:H4; [done|]. rewrite (lt_ge_trans a b c H1 H3), (lt_ge_trans c b a H4 H2).
        revert Ho. rewrite !Nat.ltb_lt. lia.
  - destruct (lt a b) eqn:H1; [done|]. destruct (lt b a) eqn:H2.
    + intros _. destruct (lt b c) eqn:H3; [done|]. intros _.
      rewrite (lt_ge_trans a b c H1 H3). destruct (lt c b) eqn:H4.
      * by rewrite (lt_trans c b a H4 H2).
      * by rewrite (Hl c b a H4 H3 H2).
    + intros Ho. destruct (lt b c) eqn:H3; [done|]. rewrite (lt_ge_trans a b c H1 H3).
      destruct (lt c b) eqn:H4.
      * intros _. by rewrite (Hr c b a H4 H2 H1).
      * rewrite (lt_ge_trans c b a H4 H2). revert Ho. rewrite !Nat.ltb_ge. lia.
Qed.
End stable.

(** ** Where the heap order is lost

    With the fan-out 4 of the class and numbers as priorities, ordered by [<]. *)
#[export] Instance ltb_order : StrictWeakOrder Nat.ltb.
Proof. split; intros; rewrite ?Nat.ltb_lt, ?Nat.ltb_ge in *; lia. Qed.

(** The handles [0], [1], ... with the given priorities, inserted in order. *)
Definition heap_of (ps : list nat) : dary_heap :=
  foldl (λ h p, (insert Nat.ltb 4 (length (hvec h)) p h).1) (Heap [] ∅) ps.

(** The priorities in the order in which the roots are pulled. *)
Fixpoint pull_all (n : nat) (h : dary_heap) : list nat :=
  match n with
  | O => []
  | S n => if empty h then [] else get_root_priority h :: pull_all n (pull_root Nat.ltb 4 h)
  end.

(** Two operations of the heap can lose the heap order.  [remove] of a node
    that is not the root only moves the node that takes its place away from the
    root: when the handle 5 leaves the first heap the priority 10 is pulled before
    5.  [set_priority] with a larger priority never looks at the last node: after
    the root of the heap of 1, 5 and 2 gets the priority 10 the root is 5 and
    not 2. *)
Theorem heap_order_lost :
  (let h := heap_of [1; 10; 2; 3; 4; 11; 12; 13; 14; 20; 21; 22; 5] in
   pull_all 20 h = [1; 2; 3; 4; 5; 10; 11; 12; 13; 14; 20; 21; 22]
   ∧ pull_all 20 (remove Nat.ltb 4 5 h) = [1; 2; 3; 4; 10; 5; 12; 13; 14; 20; 21; 22])
  ∧ (let h := heap_of [1; 5; 2] in
     pull_all 20 h = [1; 2; 5]
     ∧ pull_all 20 (set_priority Nat.ltb 4 0 10 h).1 = [5; 2; 10]).
Proof. by vm_compute. Qed.

(** ** Concrete heaps *)

Lemma empty_wf : wf Nat.ltb 4 (Heap [] ∅).
Proof. repeat split; intros i; simpl; lia. Qed.

Lemma heap_is_priority_queue_witness :
  let h := (insert Nat.ltb 4 7 3 (Heap [] ∅)).1 in
  wf Nat.ltb 4 h ∧ hvec h ≡ₚ [(3, 7)].
Proof.
  apply (heap_is_priority_queue Nat.ltb 4 ltac:(lia) (Heap [] ∅) empty_wf).
  intros i Hi. simpl in Hi. lia.
Defined.

Lemma stable_order_correct_witness :
  StrictWeakOrder (compare_stable_prio Nat.ltb)
  ∧ compare_stable_prio Nat.ltb (3, 1) (3, 2) = true.
Proof.
  destruct (stable_order_correct Nat.ltb ltb_order) as [H1 H2].
  split; [exact H1|]. apply H2; [reflexivity|reflexivity|lia].
Defined.
