(* ===== verification/CpBuffer.v ===== *)
(** * The control protocol buffer

    Class [cpbuffer] of [cpbuffer.h]: a circular byte buffer of [SIZE] bytes.  An
    [unsigned] is an integer modulo 2^32; a pointer into [buf] is its index.  The
    theorems show that the buffer is a queue of bytes: [contents] are the bytes
    in it, in order. *)

From S2P Require Import Prelude.

Record cpbuffer := Cpbuffer { buf : list Z; cur_idx : Z; length_ : Z }.
#[export] Instance eta_cpbuffer : Eta cpbuffer := λ c,
  Cpbuffer (buf c) (cur_idx c) (length_ c).

(** [memcpy] into the buffer, and out of it. *)
Definition copy_in (index : Z) (s : list Z) (b : list Z) : list Z :=
  list_inserts (Z.to_nat index) s b.
Definition copy_out (index len : Z) (b : list Z) : list Z :=
  take (Z.to_nat len) (drop (Z.to_nat index) b).

Section buffer.
Context (SIZE : Z).
Implicit Types (c : cpbuffer).

Definition cpbuffer_new : cpbuffer := Cpbuffer (replicate (Z.to_nat SIZE) 0) 0 0.

Definition get_size : Z := SIZE.
Definition get_length c : Z := length_ c.
Definition get_free c : Z := SIZE - length_ c.

(** [if (pos >= SIZE) pos -= SIZE;] *)
Definition wrap (pos : Z) : Z := if SIZE <=? pos then u32 (pos - SIZE) else pos.

Definition get_ptr (index : Z) c : Z := wrap (u32 (cur_idx c + index)).

Definition get_contiguous_length (ptr : Z) c : Z :=
  if length_ c =? 0 then 0
  else
    let eidx := wrap (u32 (cur_idx c + length_ c)) in
    if ptr <? eidx then eidx - ptr else SIZE - ptr.

(** [fill] with and without a limit; [read] is [bp_sys::read] on a file in the
    state [f]: the new state, the result and the bytes read. *)
Section fill.
Context {F : Type} (read : F → Z → F * Z * list Z).

Definition fill_count (max_count : Z) (f : F) c : F * Z * cpbuffer :=
  let pos := wrap (u32 (cur_idx c + length_ c)) in
  let '(f, r, bytes) := read f max_count in
  let c := c <| buf ::= copy_in pos bytes |> in
  (f, r, if 0 <=? r then c <| length_ ::= (λ n, u32 (n + r)) |> else c).

Definition fill (f : F) c : F * Z * cpbuffer :=
  let pos := wrap (u32 (cur_idx c + length_ c)) in
  fill_count (Z.min (SIZE - pos) (u32 (SIZE - length_ c))) f c.

Definition fill_limit (limit : Z) (f : F) c : F * Z * cpbuffer :=
  let pos := wrap (u32 (cur_idx c + length_ c)) in
  fill_count (Z.min (Z.min (SIZE - pos) (u32 (SIZE - length_ c))) limit) f c.

(** [fill_to]; each turn adds at least one byte, so that [rlength] is enough
    fuel.  [None]: the fuel is used up. *)
Fixpoint fill_to_loop (fuel : nat) (rlength : Z) (f : F) c : option (F * Z * cpbuffer) :=
  if length_ c <? rlength then
    match fuel with
    | O => None
    | S fuel =>
        let '(f, r, c) := fill f c in
        if r <=? 0 then Some (f, r, c) else fill_to_loop fuel rlength f c
    end
  else Some (f, 1, c).
Definition fill_to (rlength : Z) (f : F) c : option (F * Z * cpbuffer) :=
  fill_to_loop (Z.to_nat rlength) rlength f c.
End fill.

Definition trim_to (new_length : Z) c : cpbuffer := c <| length_ := new_length |>.

Definition at_ (idx : Z) c : Z :=
  default 0 (buf c !! Z.to_nat (wrap (u32 (cur_idx c + idx)))).

Definition consume (amount : Z) c : cpbuffer :=
  c <| cur_idx := wrap (u32 (cur_idx c + amount)) |>
    <| length_ := u32 (length_ c - amount) |>.

(** [extract], and [extract_string], which copies in the same way. *)
Definition extract (index len : Z) c : list Z :=
  let index := wrap (u32 (index + cur_idx c)) in
  if SIZE <? u32 (index + len) then
    let half := u32 (SIZE - index) in
    copy_out index half (buf c) ++ copy_out 0 (u32 (len - half)) (buf c)
  else copy_out index len (buf c).
Definition extract_string (index len : Z) c : list Z :=
  let index := wrap (u32 (index + cur_idx c)) in
  if SIZE <? u32 (index + len) then
    copy_out index (u32 (SIZE - index)) (buf c)
    ++ copy_out 0 (u32 (len - u32 (SIZE - index))) (buf c)
  else copy_out index len (buf c).

Definition append (s : list Z) (len : Z) c : cpbuffer :=
  let index := wrap (u32 (cur_idx c + length_ c)) in
  let c := c <| length_ := u32 (length_ c + len) |> in
  let max := u32 (SIZE - index) in
  let c := c <| buf ::= copy_in index (take (Z.to_nat (Z.min max len)) s) |> in
  if max <? len
  then c <| buf ::= copy_in 0 (take (Z.to_nat (u32 (len - max))) (drop (Z.to_nat max) s)) |>
  else c.

Definition reset c : cpbuffer := c <| cur_idx := 0 |> <| length_ := 0 |>.

(** ** The buffer as a queue *)

Context (SIZE_ok : 0 < SIZE ≤ 2 ^ 30).

Record buffer_ok c : Prop := {
  ok_buf : Z.of_nat (length (buf c)) = SIZE;
  ok_idx : 0 ≤ cur_idx c < SIZE;
  ok_len : 0 ≤ length_ c ≤ SIZE
}.

Definition addr c (i : Z) : Z :=
  if SIZE <=? cur_idx c + i then cur_idx c + i - SIZE else cur_idx c + i.
Definition byte_at c (i : Z) : Z := default 0 (buf c !! Z.to_nat (addr c i)).
Definition contents c : list Z := byte_at c <$> seqZ 0 (length_ c).

Lemma wrap_addr c i : buffer_ok c → 0 ≤ i ≤ SIZE → wrap (u32 (cur_idx c + i)) = addr c i.
Proof.
  intros [Hb Hc Hl] Hi. unfold wrap, addr, u32.
  rewrite (Z.mod_small (cur_idx c + i)) by lia. destruct (_ <=? _) eqn:H; [|done].
  rewrite Z.mod_small; lia.
Qed.

Lemma addr_bounds c i : buffer_ok c → 0 ≤ i ≤ SIZE → 0 ≤ addr c i < SIZE.
Proof. intros [Hb Hc Hl] Hi. unfold addr. destruct (_ <=? _) eqn:H; lia. Qed.

Lemma addr_cases c i :
  (SIZE ≤ cur_idx c + i ∧ addr c i = cur_idx c + i - SIZE)
  ∨ (cur_idx c + i < SIZE ∧ addr c i = cur_idx c + i).
Proof. unfold addr. destruct (_ <=? _) eqn:H; lia. Qed.

Lemma length_contents c : buffer_ok c → Z.of_nat (length (contents c)) = length_ c.
Proof. intros [Hb Hc Hl]. unfold contents. rewrite length_fmap, length_seqZ. lia. Qed.

Lemma lookup_contents c i :
  contents c !! i = if decide (Z.of_nat i < length_ c) then Some (byte_at c (Z.of_nat i)) else None.
Proof.
  unfold contents. rewrite list_lookup_fmap. case_decide as H.
  - rewrite lookup_seqZ_lt by lia. done.
  - rewrite lookup_seqZ_ge by lia. done.
Qed.

Lemma copy_in_lookup index s b i :
  0 ≤ index → index + Z.of_nat (length s) ≤ Z.of_nat (length b) → 0 ≤ i →
  copy_in index s b !! Z.to_nat i
  = if decide (index ≤ i < index + Z.of_nat (length s))
    then s !! Z.to_nat (i - index) else b !! Z.to_nat i.
Proof.
  intros H1 H2 H3. unfold copy_in. case_decide as Hd.
  - rewrite list_lookup_inserts by lia. f_equal. lia.
  - destruct (decide (i < index)).
    + rewrite list_lookup_inserts_lt by lia. done.
    + rewrite list_lookup_inserts_ge by lia. done.
Qed.

(** Writing bytes behind the contents, without passing the end of the array. *)
Definition write (s : list Z) c : cpbuffer :=
  c <| buf ::= copy_in (addr c (length_ c)) s |>
    <| length_ := length_ c + Z.of_nat (length s) |>.

Lemma write_ok s c :
  buffer_ok c → length_ c + Z.of_nat (length s) ≤ SIZE →
  addr c (length_ c) + Z.of_nat (length s) ≤ SIZE →
  buffer_ok (write s c) ∧ contents (write s c) = contents c ++ s.
Proof.
  intros Hok Hl Ha. pose proof Hok as [Hb Hc Hlen].
  pose proof (addr_bounds c (length_ c) Hok Hlen) as Hab.
  assert (buffer_ok (write s c)) as Hok'.
  { split; unfold write; rsimpl; [|done|lia]. unfold copy_in. by rewrite length_inserts. }
  split; [done|]. apply list_eq. intros i. rewrite lookup_contents.
  assert (length_ (write s c) = length_ c + Z.of_nat (length s)) as -> by done.
  pose proof (length_contents c Hok) as Hlc.
  assert (∀ k, 0 ≤ k < length_ c + Z.of_nat (length s) →
    byte_at (write s c) k
    = if decide (length_ c ≤ k) then default 0 (s !! Z.to_nat (k - length_ c)) else byte_at c k) as Hbyte.
  { intros k Hk. unfold byte_at, write, addr. rsimpl. fold (addr c k).
    fold (addr c (length_ c)).
    pose proof (addr_bounds c k Hok ltac:(lia)) as Hak.
    rewrite copy_in_lookup by lia. unfold addr in *.
    destruct (SIZE <=? cur_idx c + k) eqn:E1, (SIZE <=? cur_idx c + length_ c) eqn:E2;
      repeat case_decide; try lia; try done; do 2 f_equal; lia. }
  case_decide as Hi.
  - rewrite Hbyte by lia. case_decide as Hk.
    + rewrite lookup_app_r by lia.
      replace (Z.to_nat (Z.of_nat i - length_ c)) with (i - length (contents c))%nat by lia.
      destruct (lookup_lt_is_Some_2 s (i - length (contents c))) as [b Hs]; [lia|]. by rewrite Hs.
    + rewrite lookup_app_l by lia. rewrite lookup_contents, decide_True by lia. done.
  - symmetry. apply lookup_ge_None_2. rewrite length_app. lia.
Qed.

(** Adding bytes for which there is space, also across the end of the array. *)
Lemma append_correct s c :
  buffer_ok c → Z.of_nat (length s) ≤ get_free c →
  buffer_ok (append s (Z.of_nat (length s)) c)
  ∧ contents (append s (Z.of_nat (length s)) c) = contents c ++ s.
Proof.
  intros Hok Hf. pose proof Hok as [Hb Hc Hl]. unfold get_free in Hf.
  pose proof (addr_bounds c (length_ c) Hok Hl) as Ha.
  set (max := SIZE - addr c (length_ c)).
  set (s1 := take (Z.to_nat max) s). set (s2 := drop (Z.to_nat max) s).
  assert (s = s1 ++ s2) as Hs by (symmetry; apply take_drop).
  assert (length s1 = Nat.min (Z.to_nat max) (length s)) as Hl1 by apply length_take.
  assert (length s2 = length s - Z.to_nat max)%nat as Hl2 by apply length_drop.
  destruct (write_ok s1 c Hok) as [Hok1 Hc1]; [lia|lia|].
  assert (append s (Z.of_nat (length s)) c
          = if max <? Z.of_nat (length s) then write s2 (write s1 c) else write s c) as ->.
  { unfold append. cbv zeta. rewrite wrap_addr by done. fold max.
    rewrite (u32_small max) by lia.
    rewrite (u32_small (length_ c + _)) by lia.
    destruct (max <? Z.of_nat (length s)) eqn:Hm.
    - rewrite (u32_small (_ - max)) by lia.
      replace (Z.min max (Z.of_nat (length s))) with max by lia. fold s1 s2.
      rewrite (take_ge s2) by lia.
      assert (addr (write s1 c) (length_ (write s1 c)) = 0) as Ha0.
      { destruct (addr_cases (write s1 c) (length_ (write s1 c))) as [[H1 ->]|[H1 ->]];
          revert H1; unfold write; rsimpl; destruct (addr_cases c (length_ c)); lia. }
      unfold write at 1. rewrite Ha0. unfold write. rsimpl. unfold set; simpl. f_equal. lia.
    - replace (Z.min max (Z.of_nat (length s))) with (Z.of_nat (length s)) by lia.
      rewrite take_ge by lia. done. }
  destruct (max <? Z.of_nat (length s)) eqn:Hm.
  - destruct (write_ok s2 (write s1 c) Hok1) as [Hok2 Hc2].
    + unfold write. rsimpl. lia.
    + destruct (addr_cases (write s1 c) (length_ (write s1 c))) as [[H1 ->]|[H1 ->]];
        revert H1; unfold write; rsimpl; destruct (addr_cases c (length_ c)); lia.
    + split; [done|]. by rewrite Hc2, Hc1, <- app_assoc, <- Hs.
  - apply write_ok; [done|lia|lia].
Qed.

Lemma copy_out_lookup index len b i :
  0 ≤ index → 0 ≤ len →
  copy_out index len b !! i
  = if decide (Z.of_nat i < len) then b !! (Z.to_nat index + i)%nat else None.
Proof.
  intros H1 H2. unfold copy_out. case_decide as Hd.
  - rewrite lookup_take_lt by lia. by rewrite lookup_drop.
  - by rewrite lookup_take_ge by lia.
Qed.

Lemma length_copy_out index len b :
  0 ≤ index → 0 ≤ len → index + len ≤ Z.of_nat (length b) →
  Z.of_nat (length (copy_out index len b)) = len.
Proof. intros. unfold copy_out. rewrite length_take, length_drop. lia. Qed.

(** The bytes of the queue at an address. *)
Lemma buf_lookup c k i :
  buffer_ok c → 0 ≤ k → Z.of_nat i = addr c k → k < length_ c →
  buf c !! i = contents c !! Z.to_nat k.
Proof.
  intros Hok Hk Hi Hl. pose proof Hok as [Hb Hc Hlen].
  pose proof (addr_bounds c k Hok ltac:(lia)) as Ha.
  rewrite lookup_contents, decide_True by lia. unfold byte_at.
  replace (Z.to_nat (addr c (Z.of_nat (Z.to_nat k)))) with i by (rewrite Z2Nat.id; lia).
  destruct (lookup_lt_is_Some_2 (buf c) i) as [b Hbi]; [lia|]. by rewrite Hbi.
Qed.

(** Reading bytes of the queue, also across the end of the array. *)
Lemma extract_correct index len c :
  buffer_ok c → 0 ≤ index → 0 ≤ len → index + len ≤ length_ c →
  extract index len c = take (Z.to_nat len) (drop (Z.to_nat index) (contents c))
  ∧ extract_string index len c = extract index len c
  ∧ (index < length_ c → contents c !! Z.to_nat index = Some (at_ index c)).
Proof.
  intros Hok Hi Hl Hb. pose proof Hok as [Hbuf Hc Hlen].
  split; [|split; [done|]].
  2: { intros Hlt. rewrite lookup_contents, decide_True by lia.
       unfold at_. rewrite wrap_addr by (done || lia). by rewrite Z2Nat.id by lia. }
  apply list_eq. intros i.
  transitivity (if decide (Z.of_nat i < len) then contents c !! (Z.to_nat index + i)%nat else None).
  2: { case_decide.
       - by rewrite lookup_take_lt, lookup_drop by lia.
       - by rewrite lookup_take_ge by lia. }
  unfold extract. cbv zeta. rewrite (Z.add_comm index), wrap_addr by (done || lia).
  pose proof (addr_bounds c index Hok ltac:(lia)) as Ha.
  rewrite (u32_small (_ + len)) by lia. rewrite (u32_small (SIZE - _)) by lia.
  assert (∀ k, (k < Z.to_nat len)%nat →
    (addr c index + Z.of_nat k < SIZE ∧ addr c (index + Z.of_nat k) = addr c index + Z.of_nat k)
    ∨ (SIZE ≤ addr c index + Z.of_nat k
       ∧ addr c (index + Z.of_nat k) = addr c index + Z.of_nat k - SIZE)) as Hadd.
  { intros k Hk. destruct (addr_cases c index), (addr_cases c (index + Z.of_nat k)); lia. }
  assert (∀ j, (i < Z.to_nat len)%nat → Z.of_nat j = addr c (index + Z.of_nat i) →
    buf c !! j = contents c !! (Z.to_nat index + i)%nat) as Hget.
  { intros j Hj Hja. rewrite (buf_lookup c (index + Z.of_nat i)) by (done || lia). f_equal. lia. }
  destruct (SIZE <? addr c index + len) eqn:Hw.
  - rewrite (u32_small (len - _)) by lia.
    pose proof (length_copy_out (addr c index) (SIZE - addr c index) (buf c)) as Hlc.
    destruct (decide (Z.of_nat i < SIZE - addr c index)) as [Hlt|Hge].
    + rewrite lookup_app_l by lia. rewrite copy_out_lookup, decide_True, decide_True by lia.
      apply Hget; [lia|]. destruct (Hadd i); lia.
    + rewrite lookup_app_r by lia. rewrite copy_out_lookup by lia. case_decide.
      * rewrite decide_True by lia.
        apply Hget; [lia|]. destruct (Hadd i); lia.
      * by rewrite decide_False by lia.
  - rewrite copy_out_lookup by lia. case_decide; [|done].
    apply Hget; [lia|]. destruct (Hadd i); lia.
Qed.

(** The contents in the parts in which they are written out: up to the end of the array,
    and from its beginning. *)
Lemma spans c : buffer_ok c →
  let ptr := get_ptr 0 c in
  let len := get_contiguous_length ptr c in
  0 ≤ len ≤ length_ c ∧ length (copy_out ptr len (buf c)) = Z.to_nat len
  ∧ contents c = copy_out ptr len (buf c) ++ copy_out 0 (length_ c - len) (buf c)
  ∧ (0 < length_ c → 0 < len).
Proof.
  intros Hok. pose proof Hok as [Hb Hc Hl]. cbv zeta.
  unfold get_ptr. rewrite (wrap_addr c 0) by (done || lia).
  destruct (extract_correct 0 (length_ c) c Hok) as [He _]; [lia..|].
  rewrite drop_0 in He. rewrite take_ge in He
    by (rewrite <- (length_contents c Hok); lia). rewrite <- He.
  unfold get_contiguous_length, extract. cbn [Z.add]. rewrite Z.add_0_l.
  assert (wrap (u32 (cur_idx c)) = cur_idx c) as Hw.
  { rewrite u32_small by lia. unfold wrap.
    by rewrite (proj2 (Z.leb_gt _ _)) by lia. }
  destruct (addr_cases c 0) as [[? _]|[_ Ha]]; [lia|]. rewrite Z.add_0_r in Ha. rewrite Ha.
  rewrite Hw. destruct (length_ c =? 0) eqn:H0.
  { apply Z.eqb_eq in H0. rewrite H0. split; [lia|].
    rewrite u32_small by lia.
    rewrite (proj2 (Z.ltb_ge SIZE _)) by lia. split; [done|]. by split; [|lia]. }
  assert (wrap (u32 (cur_idx c + length_ c)) = addr c (length_ c)) as ->
    by (apply wrap_addr; done || lia).
  rewrite (u32_small (cur_idx c + length_ c)) by lia.
  assert (∀ n, 0 ≤ n ≤ SIZE - cur_idx c →
    length (copy_out (cur_idx c) n (buf c)) = Z.to_nat n) as Hlen.
  { intros n Hn. unfold copy_out. rewrite length_take, length_drop. lia. }
  destruct (addr_cases c (length_ c)) as [[Hi ->]|[Hi ->]].
  - rewrite (proj2 (Z.ltb_ge (cur_idx c) _)) by lia. split; [lia|]. split; [apply Hlen; lia|].
    destruct (Z.ltb_spec SIZE (cur_idx c + length_ c)).
    + rewrite !u32_small by lia. split; [done|lia].
    + replace (length_ c) with (SIZE - cur_idx c) at 1 by lia.
      replace (length_ c - (SIZE - cur_idx c)) with 0 by lia. unfold copy_out at 3. cbn.
      rewrite app_nil_r. split; [done|lia].
  - rewrite (proj2 (Z.ltb_lt (cur_idx c) _)), (proj2 (Z.ltb_ge SIZE _)) by lia.
    replace (cur_idx c + length_ c - cur_idx c) with (length_ c) by lia.
    split; [lia|]. split; [apply Hlen; lia|]. rewrite Z.sub_diag. unfold copy_out at 3. cbn.
    rewrite app_nil_r. split; [done|lia].
Qed.

(** Removing bytes from the front and from the end. *)
Lemma consume_correct amount c :
  buffer_ok c → 0 ≤ amount ≤ length_ c →
  (buffer_ok (consume amount c) ∧ contents (consume amount c) = drop (Z.to_nat amount) (contents c))
  ∧ (buffer_ok (trim_to amount c) ∧ contents (trim_to amount c) = take (Z.to_nat amount) (contents c))
  ∧ (buffer_ok (reset c) ∧ contents (reset c) = []).
Proof.
  intros Hok Ha. pose proof Hok as [Hb Hc Hl]. split; [|split].
  - unfold consume. rewrite wrap_addr by (done || lia). rewrite u32_small by lia.
    pose proof (addr_bounds c amount Hok ltac:(lia)).
    split; [split; rsimpl; [done|lia|lia]|]. apply list_eq. intros i.
    rewrite lookup_drop, !lookup_contents. rsimpl.
    destruct (decide (Z.of_nat i < length_ c - amount)); [|by rewrite decide_False by lia].
    rewrite decide_True by lia. f_equal.
    set (c' := c <| cur_idx := addr c amount |>).
    assert (addr c' (Z.of_nat i) = addr c (Z.of_nat (Z.to_nat amount + i))) as Hx.
    { destruct (addr_cases c amount), (addr_cases c (Z.of_nat (Z.to_nat amount + i)));
        destruct (addr_cases c' (Z.of_nat i)) as [[Hi ->]|[Hi ->]];
        revert Hi; unfold c'; rsimpl; lia. }
    unfold byte_at. rewrite Hx. done.
  - split; [split; unfold trim_to; rsimpl; [done|done|lia]|]. apply list_eq. intros i.
    unfold trim_to. rewrite lookup_contents. rsimpl. case_decide.
    + rewrite lookup_take_lt, lookup_contents, decide_True by lia. done.
    + by rewrite lookup_take_ge by lia.
  - split; [split; unfold reset; rsimpl; [done|lia|lia]|]. done.
Qed.

(** C9: The circular buffer is a queue of bytes.  [append] of bytes for which
    there is space adds them at the end; [extract] and [extract_string] return
    the requested bytes and [operator[]] a single one, also across the end of the
    array; [consume] removes bytes from the front and [trim_to] from the end, and
    [reset] empties the queue; each keeps the buffer well formed. *)
Theorem cpbuffer_is_queue c :
  buffer_ok c →
  (∀ s, Z.of_nat (length s) ≤ get_free c →
     buffer_ok (append s (Z.of_nat (length s)) c)
     ∧ contents (append s (Z.of_nat (length s)) c) = contents c ++ s)
  ∧ (∀ index len, 0 ≤ index → 0 ≤ len → index + len ≤ length_ c →
       extract index len c = take (Z.to_nat len) (drop (Z.to_nat index) (contents c))
       ∧ extract_string index len c = extract index len c
       ∧ (index < length_ c → contents c !! Z.to_nat index = Some (at_ index c)))
  ∧ (∀ amount, 0 ≤ amount ≤ length_ c →
       (buffer_ok (consume amount c)
        ∧ contents (consume amount c) = drop (Z.to_nat amount) (contents c))
       ∧ (buffer_ok (trim_to amount c)
          ∧ contents (trim_to amount c) = take (Z.to_nat amount) (contents c))
       ∧ (buffer_ok (reset c) ∧ contents (reset c) = [])).
Proof.
  intros H. split; [|split].
  - intros s. by apply append_correct.
  - intros index len. by apply extract_correct.
  - intros amount. by apply consume_correct.
Qed.

Section read.
Context {F : Type} (read : F → Z → F * Z * list Z).

(** The contract of [read]: at most the requested number of bytes, and the
    result is their number, or negative with no bytes. *)
Definition read_ok : Prop :=
  ∀ f n, 0 ≤ n →
    let '(_, r, bytes) := read f n in
    Z.of_nat (length bytes) ≤ n ∧ (r = Z.of_nat (length bytes) ∨ (r < 0 ∧ bytes = [])).
Context (Hread : read_ok).

Lemma fill_count_ok n f c :
  buffer_ok c → 0 ≤ n ≤ SIZE - length_ c → n ≤ SIZE - addr c (length_ c) →
  let '(f', r, c') := fill_count read n f c in
  ∃ bytes, buffer_ok c' ∧ contents c' = contents c ++ bytes
    ∧ length_ c' = length_ c + Z.of_nat (length bytes)
    ∧ (r = Z.of_nat (length bytes) ∨ (r < 0 ∧ bytes = [])).
Proof.
  intros Hok Hn Ha. pose proof Hok as [Hb Hc Hl]. unfold fill_count. rewrite wrap_addr by (done || lia).
  pose proof (Hread f n ltac:(lia)) as Hr. destruct (read f n) as [[f' r] bytes].
  destruct Hr as [Hlen Hr]. exists bytes.
  destruct (write_ok bytes c Hok) as [Hw1 Hw2]; [lia|lia|].
  assert ((if 0 <=? r
     then (c <| buf ::= copy_in (addr c (length_ c)) bytes |>) <| length_ ::= (λ k, u32 (k + r)) |>
     else c <| buf ::= copy_in (addr c (length_ c)) bytes |>) = write bytes c) as ->.
  { destruct Hr as [-> | [Hneg ->]].
    - rewrite (proj2 (Z.leb_le 0 _)) by lia. unfold write. unfold set; simpl. f_equal.
      apply u32_small. lia.
    - rewrite (proj2 (Z.leb_gt 0 _)) by lia. unfold write. unfold set; simpl. f_equal. lia. }
  done.
Qed.

(** [fill], and [fill] with a limit. *)
Lemma fill_once limit f c :
  buffer_ok c → 0 ≤ limit →
  (let '(f', r, c') := fill read f c in
   ∃ bytes, buffer_ok c' ∧ contents c' = contents c ++ bytes
     ∧ (r = Z.of_nat (length bytes) ∨ (r < 0 ∧ bytes = [])))
  ∧ (let '(f', r, c') := fill_limit read limit f c in
     ∃ bytes, buffer_ok c' ∧ contents c' = contents c ++ bytes ∧ r ≤ limit
       ∧ (r = Z.of_nat (length bytes) ∨ (r < 0 ∧ bytes = []))).
Proof.
  intros Hok Hlim. pose proof Hok as [Hb Hc Hl].
  pose proof (addr_bounds c (length_ c) Hok Hl) as Ha.
  unfold fill, fill_limit. cbv zeta. rewrite wrap_addr by (done || lia).
  rewrite u32_small by lia. split.
  - pose proof (fill_count_ok (Z.min (SIZE - addr c (length_ c)) (SIZE - length_ c)) f c Hok
      ltac:(lia) ltac:(lia)) as Hf.
    destruct (fill_count _ _ _ _) as [[f' r] c']. destruct Hf as (bytes & ? & ? & ? & ?).
    by exists bytes.
  - remember (Z.min (Z.min (SIZE - addr c (length_ c)) (SIZE - length_ c)) limit) as n eqn:Hn.
    pose proof (fill_count_ok n f c Hok ltac:(lia) ltac:(lia)) as Hf.
    assert ((fill_count read n f c).1.2 ≤ n) as Hrn.
    { unfold fill_count. pose proof (Hread f n ltac:(lia)) as Hr.
      destruct (read f n) as [[f' r] bytes]. simpl. lia. }
    destruct (fill_count _ _ _ _) as [[f' r] c']. destruct Hf as (bytes & ? & ? & ? & ?).
    exists bytes. simpl in Hrn. split; [done|]. split; [done|]. split; [lia|done].
Qed.

Lemma fill_to_loop_ok fuel : ∀ rlength f c,
  buffer_ok c → rlength - length_ c ≤ Z.of_nat fuel →
  ∃ f' r c' bytes, fill_to_loop read fuel rlength f c = Some (f', r, c')
    ∧ buffer_ok c' ∧ contents c' = contents c ++ bytes
    ∧ ((r = 1 ∧ rlength ≤ length_ c') ∨ (r ≤ 0 ∧ length_ c' < rlength)).
Proof.
  induction fuel as [|fuel IH]; intros rlength f c Hok Hf; simpl.
  { destruct (_ <? _) eqn:H; [lia|]. exists f, 1, c, []. rewrite app_nil_r.
    split; [done|]. split; [done|]. split; [done|]. left. lia. }
  destruct (_ <? _) eqn:H.
  2: { exists f, 1, c, []. rewrite app_nil_r. split; [done|]. split; [done|]. split; [done|]. left. lia. }
  pose proof Hok as [Hb Hc Hl]. pose proof (addr_bounds c (length_ c) Hok Hl) as Ha.
  unfold fill. cbv zeta. rewrite wrap_addr by (done || lia). rewrite u32_small by lia.
  pose proof (fill_count_ok (Z.min (SIZE - addr c (length_ c)) (SIZE - length_ c)) f c Hok
    ltac:(lia) ltac:(lia)) as Hfill.
  destruct (fill_count _ _ _ _) as [[f1 r1] c1].
  destruct Hfill as (bytes & Hok1 & Hc1 & Hl1 & Hr1). destruct (r1 <=? 0) eqn:Hr.
  - exists f1, r1, c1, bytes. split; [done|]. split; [done|]. split; [done|]. right.
    destruct Hr1 as [-> | [? ->]]; simpl in *; lia.
  - destruct (IH rlength f1 c1 Hok1) as (f' & r & c' & bytes' & H1 & H2 & H3 & H4); [lia|].
    exists f', r, c', (bytes ++ bytes'). rewrite H1, H3, Hc1, <- app_assoc. done.
Qed.

(** [fill] and [fill] with a limit add the bytes that were read at the
    end of the queue and keep the buffer well formed; on an error or at the end
    of the file they add none.  [fill_to] terminates: it returns 1 when the
    queue has at least the requested number of bytes, and otherwise the result
    of the read that failed or was at the end of the file; either way it has
    only added bytes at the end of the queue. *)
Theorem fill_correct limit rlength f c :
  buffer_ok c → 0 ≤ limit →
  (let '(f', r, c') := fill read f c in
   ∃ bytes, buffer_ok c' ∧ contents c' = contents c ++ bytes
     ∧ (r = Z.of_nat (length bytes) ∨ (r < 0 ∧ bytes = [])))
  ∧ (let '(f', r, c') := fill_limit read limit f c in
     ∃ bytes, buffer_ok c' ∧ contents c' = contents c ++ bytes ∧ r ≤ limit
       ∧ (r = Z.of_nat (length bytes) ∨ (r < 0 ∧ bytes = [])))
  ∧ ∃ f' r c' bytes, fill_to read rlength f c = Some (f', r, c')
      ∧ buffer_ok c' ∧ contents c' = contents c ++ bytes
      ∧ ((r = 1 ∧ rlength ≤ length_ c') ∨ (r ≤ 0 ∧ length_ c' < rlength)).
Proof.
  intros Hok Hl. destruct (fill_once limit f c Hok Hl) as [H1 H2].
  split; [done|]. split; [done|].
  apply fill_to_loop_ok; [done|]. pose proof (ok_len _ Hok). lia.
Qed.
End read.
End buffer.

(** ** Concrete buffers *)

(** A buffer of 8 bytes whose 6 bytes go across the end of the array. *)
Definition wrapped : cpbuffer := Cpbuffer [3; 4; 5; 6; 9; 9; 1; 2] 6 6.

Lemma wrapped_ok : buffer_ok 8 wrapped.
Proof. split; simpl; lia. Qed.

Lemma cpbuffer_is_queue_witness :
  contents 8 wrapped = [1; 2; 3; 4; 5; 6]
  ∧ buffer_ok 8 (append 8 [7; 8] 2 wrapped)
  ∧ contents 8 (append 8 [7; 8] 2 wrapped) = contents 8 wrapped ++ [7; 8]
  ∧ extract 8 1 3 wrapped = take 3 (drop 1 (contents 8 wrapped))
  ∧ contents 8 (consume 8 3 wrapped) = drop 3 (contents 8 wrapped).
Proof.
  destruct (cpbuffer_is_queue 8 ltac:(lia) wrapped wrapped_ok) as (H1 & H2 & H3).
  split; [reflexivity|].
  split; [apply (H1 [7; 8]); by vm_compute|]. split; [apply (H1 [7; 8]); by vm_compute|].
  split; [apply (H2 1 3); simpl; lia|]. apply (H3 3); simpl; lia.
Defined.

(** A file that gives one byte at each read. *)
Definition one_byte (f : list Z) (n : Z) : list Z * Z * list Z :=
  match f with
  | [] => ([], 0, [])
  | b :: f' => if n <=? 0 then (f, 0, []) else (f', 1, [b])
  end.

Lemma one_byte_ok : read_ok one_byte.
Proof.
  intros f n Hn. unfold one_byte. destruct f as [|b f]; [split; simpl; [lia|by left]|].
  destruct (n <=? 0) eqn:H; split; simpl; [lia|by left|lia|by left].
Qed.

Lemma fill_correct_witness :
  ∃ f' r c' bytes, fill_to 8 one_byte 8 [7; 8; 9] wrapped = Some (f', r, c')
    ∧ buffer_ok 8 c' ∧ contents 8 c' = contents 8 wrapped ++ bytes
    ∧ ((r = 1 ∧ 8 ≤ length_ c') ∨ (r ≤ 0 ∧ length_ c' < 8)).
Proof.
  apply (fill_correct 8 ltac:(lia) one_byte one_byte_ok 1 8 [7; 8; 9] wrapped wrapped_ok).
  lia.
Defined.
