(* ===== verification/LogBuffer.v ===== *)
(** * The output buffer of a process service

    [ensure_log_buffer_backing] of [baseproc-service.cc], the reading of a
    service's output by [log_output_watcher] of [proc-service.cc], and the note
    that [start_ps_process] adds when the service is started again.  The buffer is
    a vector whose size is managed by hand: its first [log_buf_size] bytes are the
    output, the rest is space. *)

From S2P Require Import Prelude.

Record log_buffer := Log_buffer {
  log_buf_max : Z;
  log_buf_size : Z;
  vec : list Z;         (* the elements of the vector *)
  capacity : Z
}.
#[export] Instance eta_log_buffer : Eta log_buffer := λ b,
  Log_buffer (log_buf_max b) (log_buf_size b) (vec b) (capacity b).

Definition log_buffer_new : log_buffer := Log_buffer 0 0 [] 0.

Definition vec_size (b : log_buffer) : Z := Z.of_nat (length (vec b)).

(** [resize]: the new elements are not initialised. *)
Definition resize (n : Z) (b : log_buffer) : log_buffer :=
  b <| vec ::= (λ v, take (Z.to_nat n) v ++ replicate (Z.to_nat n - length v) 0) |>.
Definition reserve (n : Z) (b : log_buffer) : log_buffer :=
  b <| capacity ::= Z.max n |>.

(** [memory]: whether the allocation, if one is needed, succeeds. *)
Definition ensure_log_buffer_backing (memory : bool) (new_size : Z) (b : log_buffer)
    : log_buffer * bool :=
  if vec_size b <? new_size then
    if capacity b <? new_size then
      let new_capacity := Z.max (u32 (capacity b * 2)) new_size in
      let new_capacity := Z.min new_capacity (log_buf_max b) in
      if memory then (resize new_capacity (reserve new_capacity b), true) else (b, false)
    else (resize new_size b, true)
  else (b, true).

(** Writing bytes at a position of the vector. *)
Definition write_at (pos : Z) (s : list Z) (b : log_buffer) : log_buffer :=
  b <| vec ::= list_inserts (Z.to_nat pos) s |>.

Definition set_log_buf_max (max_size : Z) (b : log_buffer) : log_buffer :=
  b <| log_buf_max := max_size |>.
Definition clear_log_buffer (b : log_buffer) : log_buffer :=
  b <| vec := [] |> <| capacity := 0 |> <| log_buf_size := 0 |>.

(** "\n(dinit: note: service restarted)\n" *)
Definition restarting_msg : list Z :=
  (λ a, Z.of_nat (Ascii.nat_of_ascii a)) <$>
    (Ascii.ascii_of_nat 10 :: String.list_ascii_of_string "(dinit: note: service restarted)"
     ++ [Ascii.ascii_of_nat 10]).

(** The note in [start_ps_process]; also whether the watcher is to be enabled. *)
Definition append_restart_note (memory : bool) (b : log_buffer) : log_buffer * bool :=
  if 0 <? log_buf_size b then
    let trailing_nl := bool_decide (vec b !! Z.to_nat (log_buf_size b - 1) = Some 10) in
    let msg := if trailing_nl then tail restarting_msg else restarting_msg in
    let len := Z.of_nat (length msg) in
    if log_buf_max b <=? u32 (log_buf_size b + len) then (b, false)
    else
      let '(b, ok) := ensure_log_buffer_backing memory (u32 (log_buf_size b + len)) b in
      if negb ok then (b, false)
      else ((write_at (log_buf_size b) msg b) <| log_buf_size ::= (λ n, u32 (n + len)) |>, true)
  else (b, true).

Variant read_result := Read (bytes : list Z) | Again | Error | Eof.
Variant rearm := REARM | DISARM | REMOVED.

(** [log_output_watcher::fd_event]; on [REMOVED] the caller closes the
    descriptors. *)
Definition log_fd_event (memory : bool) (input : Z → read_result) (b : log_buffer)
    : log_buffer * rearm :=
  if log_buf_max b <=? log_buf_size b then
    match input 1024 with
    | Again => (b, REARM)
    | Error | Eof => (b, REMOVED)
    | Read _ => (b, REARM)
    end
  else
    let max_read := Z.max (Z.quot (log_buf_max b) 8) 256 in
    let max_read := Z.min max_read (u32 (log_buf_max b - log_buf_size b)) in
    let new_size := u32 (log_buf_size b + max_read) in
    let '(b, ok) := ensure_log_buffer_backing memory new_size b in
    if negb ok then (b, DISARM)
    else
      let max_read := vec_size b - log_buf_size b in
      match input max_read with
      | Again => (b, REARM)
      | Error | Eof => (b, REMOVED)
      | Read bytes =>
          ((write_at (log_buf_size b) bytes b)
             <| log_buf_size ::= (λ n, u32 (n + Z.of_nat (length bytes))) |>, REARM)
      end.

(** ** Properties *)

Definition output (b : log_buffer) : list Z := take (Z.to_nat (log_buf_size b)) (vec b).

(** The output is in the vector and the vector in its capacity, within the limit that
    [set_log_buf_max] documents.  The vector may be larger than the maximum, which may
    have been decreased. *)
Record log_ok (b : log_buffer) : Prop := {
  log_size : 0 ≤ log_buf_size b ≤ vec_size b;
  log_cap : vec_size b ≤ capacity b < 2 ^ 31;
  log_max : 0 ≤ log_buf_max b < 2 ^ 31
}.

(** How far the output can get. *)
Definition limit (b : log_buffer) : Z := Z.max (vec_size b) (log_buf_max b).

(** Only the vector has changed, behind the output. *)
Record grown (b b' : log_buffer) : Prop := {
  gr_ok : log_ok b';
  gr_output : output b' = output b;
  gr_size : log_buf_size b' = log_buf_size b;
  gr_max : log_buf_max b' = log_buf_max b;
  gr_limit : vec_size b' ≤ limit b
}.

Lemma grown_refl b : log_ok b → grown b b.
Proof. intros. split; [done..|]. unfold limit. lia. Qed.

Lemma resize_grown n c b :
  log_ok b → vec_size b ≤ n ≤ log_buf_max b → n ≤ capacity (reserve c b) < 2 ^ 31 →
  grown b (resize n (reserve c b)) ∧ vec_size (resize n (reserve c b)) = n.
Proof.
  intros [H1 H2 H3] Hn Hc.
  assert (vec_size (resize n (reserve c b)) = n) as Hs.
  { unfold vec_size, resize, reserve in *. rsimpl. rewrite length_app, length_take, length_replicate. lia. }
  split; [|done]. split; rewrite ?Hs; [split; rewrite ?Hs| |..].
  all: unfold limit, output, resize, reserve, vec_size in *; rsimpl; try done; try lia.
  rewrite (take_ge (vec b)) by lia. rewrite take_app_le by lia. done.
Qed.

Lemma ensure_grown memory n b :
  log_ok b → 0 ≤ n ≤ log_buf_max b →
  let '(b', ok) := ensure_log_buffer_backing memory n b in
  grown b b' ∧ (if ok then n ≤ vec_size b' else memory = false).
Proof.
  intros Hok Hn. pose proof Hok as [H1 H2 H3]. unfold ensure_log_buffer_backing.
  destruct (Z.ltb_spec (vec_size b) n) as [Hv|Hv]; [|split; [by apply grown_refl|done]].
  destruct (Z.ltb_spec (capacity b) n) as [Hc|Hc].
  - destruct memory; [|split; [by apply grown_refl|done]].
    set (nc := Z.min (Z.max (u32 (capacity b * 2)) n) (log_buf_max b)).
    destruct (resize_grown nc nc b Hok) as [H ->]; [lia| |split; [done|lia]].
    unfold reserve. rsimpl. lia.
  - destruct (resize_grown n 0 b Hok) as [H Hs]; [lia|unfold reserve; rsimpl; lia|].
    assert (reserve 0 b = b) as Hr.
    { assert (Z.max 0 (capacity b) = capacity b) as Hm by lia.
      clear -Hm. destruct b. unfold reserve. rsimpl. cbn in *. unfold set. cbn. by rewrite Hm. }
    rewrite Hr in *. split; [done|]. lia.
Qed.

Lemma write_at_ok s b :
  log_ok b → log_buf_size b + Z.of_nat (length s) ≤ vec_size b →
  let b' := (write_at (log_buf_size b) s b)
              <| log_buf_size ::= (λ n, u32 (n + Z.of_nat (length s))) |> in
  log_ok b' ∧ output b' = output b ++ s ∧ vec_size b' = vec_size b ∧ log_buf_max b' = log_buf_max b.
Proof.
  intros [H1 H2 H3] Hs b'.
  assert (log_buf_size b' = log_buf_size b + Z.of_nat (length s)) as Hsize.
  { unfold b'. rsimpl. unfold write_at. rsimpl. apply u32_small. lia. }
  assert (vec_size b' = vec_size b) as Hv.
  { unfold vec_size, b'. rsimpl. unfold write_at. rsimpl. by rewrite length_inserts. }
  split_and!; [|..|done|done].
  - split; rewrite ?Hv, ?Hsize; unfold b'; rsimpl; unfold write_at; rsimpl; lia.
  - unfold output. rewrite Hsize. unfold b'. rsimpl. unfold write_at. rsimpl.
    unfold vec_size in *. apply list_eq. intros i.
    destruct (decide (Z.of_nat i < log_buf_size b)).
    + rewrite lookup_take_lt, list_lookup_inserts_lt by lia.
      rewrite lookup_app_l by (rewrite length_take; lia). by rewrite lookup_take_lt by lia.
    + rewrite lookup_app_r by (rewrite length_take; lia). rewrite length_take.
      destruct (decide (Z.of_nat i < log_buf_size b + Z.of_nat (length s))).
      * rewrite lookup_take_lt, list_lookup_inserts by lia. f_equal. lia.
      * rewrite lookup_take_ge by lia. symmetry. apply lookup_ge_None_2. lia.
Qed.

(** What a read of at most [k] bytes that returned [r] makes of the buffer. *)
Definition after_read (r : read_result) (b b' : log_buffer) (o : rearm) : Prop :=
  match r with
  | Read bytes => output b' = output b ++ bytes ∧ o = REARM
  | Again => output b' = output b ∧ o = REARM
  | Error | Eof => output b' = output b ∧ o = REMOVED
  end.

Definition returns_at_most (input : Z → read_result) : Prop :=
  ∀ n bytes, 0 ≤ n → input n = Read bytes → Z.of_nat (length bytes) ≤ n.

Lemma log_fd_event_spec memory input b :
  log_ok b → returns_at_most input →
  let '(b', o) := log_fd_event memory input b in
  log_ok b' ∧ log_buf_max b' = log_buf_max b ∧ vec_size b' ≤ limit b
  ∧ (log_buf_max b ≤ log_buf_size b → after_read (match input 1024 with Read _ => Again | r => r end) b b' o)
  ∧ (log_buf_size b < log_buf_max b →
     (memory = false ∧ output b' = output b ∧ o = DISARM)
     ∨ ∃ k, Z.min (Z.max (log_buf_max b ÷ 8) 256) (log_buf_max b - log_buf_size b) ≤ k
         ≤ limit b - log_buf_size b
         ∧ 0 < k ∧ after_read (input k) b b' o).
Proof.
  intros Hok Hin. pose proof Hok as [H1 H2 H3]. unfold log_fd_event.
  destruct (Z.leb_spec (log_buf_max b) (log_buf_size b)) as [Hf|Hf].
  { assert (vec_size b ≤ limit b) by (unfold limit; lia).
    destruct (input 1024); cbn; (split_and!; [done..|lia]). }
  rewrite (u32_small (log_buf_max b - log_buf_size b)) by lia. cbv zeta.
  set (mr := Z.min _ _).
  assert (0 < mr ≤ log_buf_max b - log_buf_size b) as Hmr.
  { assert (256 ≤ Z.max (log_buf_max b ÷ 8) 256) by lia. unfold mr. lia. }
  rewrite u32_small by lia.
  pose proof (ensure_grown memory (log_buf_size b + mr) b Hok ltac:(lia)) as He.
  destruct (ensure_log_buffer_backing _ _ b) as [b' ok]. destruct He as [[G1 G2 G3 G4 G5] He].
  destruct ok; cbn [negb]; [|split_and!; [done..|lia|by left]].
  pose proof (log_size _ G1) as Hs.
  assert (mr ≤ vec_size b' - log_buf_size b' ≤ limit b - log_buf_size b) as Hk by lia.
  set (k := vec_size b' - log_buf_size b') in *.
  destruct (input k) as [bytes| | |] eqn:Ei;
    try (split_and!; [done..|lia|]; intros _; right; exists k; rewrite Ei; by split_and!; [lia..|]).
  specialize (Hin k bytes ltac:(lia) Ei).
  destruct (write_at_ok bytes b' G1 ltac:(lia)) as (W1 & W2 & W3 & W4).
  split_and!; [done|by rewrite W4|by rewrite W3|lia|]. intros _. right. exists k. rewrite Ei.
  split_and!; [lia..|]. split; [by rewrite W2, G2|done].
Qed.

Definition note_after (out : list Z) : list Z :=
  if bool_decide (list.last out = Some 10) then tail restarting_msg else restarting_msg.

Lemma append_restart_note_spec memory b :
  log_ok b →
  let '(b', ok) := append_restart_note memory b in
  log_ok b' ∧ log_buf_max b' = log_buf_max b ∧ vec_size b' ≤ limit b
  ∧ (output b = [] → b' = b ∧ ok = true)
  ∧ (output b ≠ [] →
     (ok = true ∧ output b' = output b ++ note_after (output b))
     ∨ (ok = false ∧ output b' = output b
        ∧ (memory = false ∨ log_buf_max b ≤ log_buf_size b + Z.of_nat (length (note_after (output b)))))).
Proof.
  intros Hok. pose proof Hok as [H1 H2 H3]. unfold append_restart_note.
  assert (length (output b) = Z.to_nat (log_buf_size b)) as Hlen
    by (unfold output, vec_size in *; rewrite length_take; lia).
  assert (vec_size b ≤ limit b) by (unfold limit; lia).
  destruct (Z.ltb_spec 0 (log_buf_size b)) as [Hpos|Hpos].
  2: { split_and!; [done..|]. intros []. apply length_zero_iff_nil. lia. }
  assert (output b ≠ []) as Hne by (intros E; rewrite E in Hlen; cbn in Hlen; lia).
  assert ((if bool_decide (vec b !! Z.to_nat (log_buf_size b - 1) = Some 10)
    then tail restarting_msg else restarting_msg) = note_after (output b)) as ->.
  { unfold note_after. rewrite last_lookup, Hlen. unfold output. rewrite lookup_take_lt by lia.
    by replace (pred (Z.to_nat (log_buf_size b))) with (Z.to_nat (log_buf_size b - 1)) by lia. }
  set (msg := note_after _).
  assert (Z.of_nat (length msg) ≤ 64) as Hmsg
    by (unfold msg, note_after; destruct (bool_decide _); vm_compute; congruence).
  rewrite u32_small by lia. cbv zeta.
  destruct (Z.leb_spec (log_buf_max b) (log_buf_size b + Z.of_nat (length msg))) as [Hfull|Hfull];
    [by split_and!; auto|].
  pose proof (ensure_grown memory (log_buf_size b + Z.of_nat (length msg)) b Hok ltac:(lia)) as He.
  destruct (ensure_log_buffer_backing _ _ b) as [b' ok]. destruct He as [[G1 G2 G3 G4 G5] He].
  destruct ok; cbn [negb]; [|by split_and!; auto].
  destruct (write_at_ok msg b' G1 ltac:(lia)) as (W1 & W2 & W3 & W4).
  split_and!; [done|by rewrite W4|by rewrite W3|done|]. left. by rewrite W2, G2.
Qed.

(** C10: Reading a service's output, with the maximum and the vector below 2^31 and reads
    that return no more than asked for. At the maximum, what is read is discarded and the
    buffer unchanged. Below it, either there is no memory and the watcher is disarmed with
    the output unchanged; or the code asks for some k bytes, at least min(max(maximum/8,
    256), space left), and appends exactly the bytes that this read returned; after an error
    or the end of the stream the output is unchanged and the watcher removed. The vector and
    the output stay within the maximum, or within the vector's size where that was larger
    since the maximum has been decreased (shrunk_buffer_exceeds_maximum). The note at a
    restart is appended whole to output that is there (without its first newline after a
    newline), or nothing is if it does not fit or there is no memory. *)
Theorem log_buffer_correct memory input b :
  log_ok b → returns_at_most input →
  (let '(b', o) := log_fd_event memory input b in
   log_ok b' ∧ log_buf_max b' = log_buf_max b ∧ vec_size b' ≤ limit b
   ∧ (log_buf_max b ≤ log_buf_size b → after_read (match input 1024 with Read _ => Again | r => r end) b b' o)
   ∧ (log_buf_size b < log_buf_max b →
      (memory = false ∧ output b' = output b ∧ o = DISARM)
      ∨ ∃ k, Z.min (Z.max (log_buf_max b ÷ 8) 256) (log_buf_max b - log_buf_size b) ≤ k
          ≤ limit b - log_buf_size b
          ∧ 0 < k ∧ after_read (input k) b b' o))
  ∧ (let '(b', ok) := append_restart_note memory b in
     log_ok b' ∧ log_buf_max b' = log_buf_max b ∧ vec_size b' ≤ limit b
     ∧ (output b = [] → b' = b ∧ ok = true)
     ∧ (output b ≠ [] →
        (ok = true ∧ output b' = output b ++ note_after (output b))
        ∨ (ok = false ∧ output b' = output b
           ∧ (memory = false ∨ log_buf_max b ≤ log_buf_size b + Z.of_nat (length (note_after (output b))))))).
Proof.
  intros Hok Hin. split; [by apply log_fd_event_spec|by apply append_restart_note_spec].
Qed.

(** A buffer of 64 bytes with the output "ab", and input of one byte. *)
Definition two_bytes : log_buffer := Log_buffer 64 2 [97; 98; 0; 0] 4.
Definition one_byte (n : Z) : read_result := if n <=? 0 then Again else Read [99].

Lemma log_buffer_correct_witness :
  output (log_fd_event true one_byte two_bytes).1 = [97; 98; 99]
  ∧ output (append_restart_note true two_bytes).1 = [97; 98] ++ restarting_msg
  ∧ log_ok (log_fd_event true one_byte two_bytes).1.
Proof.
  destruct (log_buffer_correct true one_byte two_bytes) as (H1 & _).
  - split; unfold vec_size; simpl; lia.
  - intros n bytes Hn. unfold one_byte. destruct (Z.leb_spec n 0); [done|]. intros [= <-]. cbn. lia.
  - split; [vm_compute; reflexivity|]. split; [vm_compute; reflexivity|].
    destruct (log_fd_event true one_byte two_bytes) as [b' o]. exact (proj1 H1).
Defined.

(** When the maximum is decreased below the size of the vector, the vector is still filled. *)
Theorem shrunk_buffer_exceeds_maximum :
  let b := set_log_buf_max 3 two_bytes in
  let b' := (log_fd_event true (λ n, Read (replicate (Z.to_nat n) 99)) b).1 in
  log_buf_max b' = 3 ∧ log_buf_size b' = 4 ∧ output b' = [97; 98; 99; 99].
Proof. vm_compute. split_and!; reflexivity. Qed.
