(* ===== verification/ServiceData.v ===== *)
(** * Service records and the service set: data

    The data of [service-constants.h], [load-service.h] (service flags),
    [service.h] (class [service_dep], class [service_record], class
    [service_set]) and [childproc.h] (class [proc_status]).

    A [service_record *] is a [sid], a [service_dep *] is a [did]; the records
    live in two stores, so that the aliasing of the C++ program (the same
    [service_dep] is reached from the [depends_on] list of one service and from
    the [dependents] list of another) is the aliasing of the model.  Reading a
    pointer that no record lives at gives a default record; the well-formedness
    invariant of [ServiceInv] shows that it does not happen. *)

From S2P Require Import Prelude.

Abbreviation sid := nat (only parsing).
Abbreviation did := nat (only parsing).

(** ** Enumerations *)

Module service_state_t.
Variant t := STOPPED | STARTING | STARTED | STOPPING.
#[export] Instance t_eq_dec : EqDecision t.
Proof. solve_decision. Defined.
End service_state_t.
Abbreviation service_state_t := service_state_t.t.
Export (hints) service_state_t.

Module service_type_t.
Variant t := PLACEHOLDER | PROCESS | BGPROCESS | SCRIPTED | INTERNAL | TRIGGERED.
#[export] Instance t_eq_dec : EqDecision t.
Proof. solve_decision. Defined.
End service_type_t.
Abbreviation service_type_t := service_type_t.t.
Export (hints) service_type_t.

Module service_event_t.
Variant t := STARTED | STOPPED | FAILEDSTART | STARTCANCELLED | STOPCANCELLED.
#[export] Instance t_eq_dec : EqDecision t.
Proof. solve_decision. Defined.
End service_event_t.
Abbreviation service_event_t := service_event_t.t.
Export (hints) service_event_t.

Module shutdown_type_t.
Variant t := NONE | REMAIN | HALT | POWEROFF | REBOOT | SOFTREBOOT | KEXEC.
#[export] Instance t_eq_dec : EqDecision t.
Proof. solve_decision. Defined.
End shutdown_type_t.
Abbreviation shutdown_type_t := shutdown_type_t.t.
Export (hints) shutdown_type_t.

Module stopped_reason_t.
Variant t := NORMAL | DEPRESTART | DEPFAILED | FAILED | EXECFAILED | TIMEDOUT | TERMINATED.
#[export] Instance t_eq_dec : EqDecision t.
Proof. solve_decision. Defined.
End stopped_reason_t.
Abbreviation stopped_reason_t := stopped_reason_t.t.
Export (hints) stopped_reason_t.

Definition did_finish (reason : stopped_reason_t) : bool :=
  bool_decide (reason = stopped_reason_t.TERMINATED).

(** [Unnamed] is a value of the type that is no enumerator, which the control protocol makes
    with a cast of the number that it is sent. *)
Module dependency_type.
Variant t := REGULAR | SOFT | WAITS_FOR | MILESTONE | BEFORE | AFTER | Unnamed (value : Z).
#[export] Instance t_eq_dec : EqDecision t.
Proof. solve_decision. Defined.
End dependency_type.
Abbreviation dependency_type := dependency_type.t.
Export (hints) dependency_type.

Module auto_restart_mode.
Variant t := NEVER | ALWAYS | ON_FAILURE.
#[export] Instance t_eq_dec : EqDecision t.
Proof. solve_decision. Defined.
End auto_restart_mode.
Abbreviation auto_restart_mode := auto_restart_mode.t.
Export (hints) auto_restart_mode.

(** ** Process status (class [proc_status])

    The constants are those of the system headers on Linux. *)

Definition CLD_EXITED : Z := 1.
Definition SIGHUP : Z := 1.
Definition SIGINT : Z := 2.
Definition SIGKILL : Z := 9.
Definition SIGUSR1 : Z := 10.
Definition SIGUSR2 : Z := 12.
Definition SIGTERM : Z := 15.

Record proc_status_t := Proc_status { wait_si_code : Z; wait_si_status : Z }.
Definition proc_status_empty : proc_status_t := Proc_status 0 0.

Definition did_exit (s : proc_status_t) : bool := wait_si_code s =? CLD_EXITED.
Definition did_exit_clean (s : proc_status_t) : bool := wait_si_status s =? 0.
Definition was_signalled (s : proc_status_t) : bool := negb (did_exit s).
Definition get_status (s : proc_status_t) : Z := wait_si_status s.
Definition get_signal (s : proc_status_t) : Z := wait_si_status s.

(** Struct [run_proc_err]: the stage at which a process could not be executed. *)
Record run_proc_err := Run_proc_err { stage : Z; st_errno : Z }.

(** ** Service flags (struct [service_flags_t]) *)

Record service_flags_t := Service_flags {
  rw_ready : bool; log_ready : bool; runs_on_console : bool;
  starts_on_console : bool; shares_console : bool; unmask_intr : bool;
  pass_cs_fd : bool; start_interruptible : bool; skippable : bool;
  signal_process_only : bool; always_chain : bool; kill_all_on_stop : bool;
  no_new_privs : bool
}.
#[export] Instance eta_service_flags : Eta service_flags_t := λ r,
  Service_flags (rw_ready r) (log_ready r) (runs_on_console r)
    (starts_on_console r) (shares_console r) (unmask_intr r) (pass_cs_fd r)
    (start_interruptible r) (skippable r) (signal_process_only r)
    (always_chain r) (kill_all_on_stop r) (no_new_privs r).
Definition service_flags_new : service_flags_t :=
  Service_flags false false false false false false false false false false
    false false false.

(** ** Dependency records (class [service_dep]) *)

Record service_dep := Service_dep {
  dep_from : sid;
  dep_to : sid;
  waiting_on : bool;
  holding_acq : bool;
  dep_type : dependency_type
}.
#[export] Instance eta_service_dep : Eta service_dep := λ d,
  Service_dep (dep_from d) (dep_to d) (waiting_on d) (holding_acq d) (dep_type d).

Definition service_dep_new (from to : sid) (ty : dependency_type) : service_dep :=
  Service_dep from to false false ty.

Definition is_hard (d : service_dep) : bool :=
  bool_decide (dep_type d = dependency_type.REGULAR)
  || (bool_decide (dep_type d = dependency_type.MILESTONE) && waiting_on d).

Definition is_only_ordering (d : service_dep) : bool :=
  bool_decide (dep_type d = dependency_type.BEFORE)
  || bool_decide (dep_type d = dependency_type.AFTER).

(** ** Service records (class [service_record])

    The fields of the class that the state machine reads or writes.  The fields
    that only process services use are in the extension state of [Process]. *)

Record service_record := Service_record {
  service_name : string;
  record_type : service_type_t;
  service_state : service_state_t;
  desired_state : service_state_t;
  onstart_flags : service_flags_t;
  auto_restart : auto_restart_mode;
  smooth_recovery : bool;
  pinned_stopped : bool;
  pinned_started : bool;
  dept_pinned_started : bool;
  waiting_for_deps : bool;
  waiting_for_console : bool;
  have_console : bool;
  start_explicit : bool;
  prop_require : bool;
  prop_release : bool;
  prop_failure : bool;
  prop_start : bool;
  prop_stop : bool;
  prop_pin_dpt : bool;
  start_failed : bool;
  start_skipped : bool;
  in_auto_restart : bool;
  in_user_restart : bool;
  is_loading : bool;
  required_by : Z;
  depends_on : list did;
  dependents : list did;
  listeners : list nat;
  log_consumer : option sid;
  force_stop : bool;
  stop_reason : stopped_reason_t;
  start_on_completion : string;
  service_dsc_dir : string
}.
#[export] Instance eta_service_record : Eta service_record := λ r,
  Service_record (service_name r) (record_type r) (service_state r)
    (desired_state r) (onstart_flags r) (auto_restart r) (smooth_recovery r)
    (pinned_stopped r) (pinned_started r) (dept_pinned_started r)
    (waiting_for_deps r) (waiting_for_console r) (have_console r)
    (start_explicit r) (prop_require r) (prop_release r) (prop_failure r)
    (prop_start r) (prop_stop r) (prop_pin_dpt r) (start_failed r)
    (start_skipped r) (in_auto_restart r) (in_user_restart r) (is_loading r)
    (required_by r) (depends_on r) (dependents r) (listeners r)
    (log_consumer r) (force_stop r) (stop_reason r) (start_on_completion r)
    (service_dsc_dir r).

(** The constructor of [service_record] without the dependency list, which
    [Service.new_service] adds. *)
Definition service_record_new (name : string) (ty : service_type_t) : service_record :=
  {| service_name := name; record_type := ty;
     service_state := service_state_t.STOPPED;
     desired_state := service_state_t.STOPPED;
     onstart_flags := service_flags_new; auto_restart := auto_restart_mode.NEVER;
     smooth_recovery := false; pinned_stopped := false; pinned_started := false;
     dept_pinned_started := false; waiting_for_deps := false;
     waiting_for_console := false; have_console := false; start_explicit := false;
     prop_require := false; prop_release := false; prop_failure := false;
     prop_start := false; prop_stop := false; prop_pin_dpt := false;
     start_failed := false; start_skipped := false; in_auto_restart := false;
     in_user_restart := false; is_loading := false; required_by := 0;
     depends_on := []; dependents := []; listeners := []; log_consumer := None;
     force_stop := false; stop_reason := stopped_reason_t.NORMAL;
     start_on_completion := ""; service_dsc_dir := "" |}.

Definition is_start_pinned (r : service_record) : bool :=
  pinned_started r || dept_pinned_started r.

Definition is_fundamentally_stopped (r : service_record) : bool :=
  bool_decide (service_state r = service_state_t.STOPPED)
  || (bool_decide (service_state r = service_state_t.STARTING) && waiting_for_deps r).

Definition can_interrupt_stop (r : service_record) : bool :=
  waiting_for_deps r && negb (force_stop r).

(** [is_unrefd]: no dependencies, dependents or log consumer. *)
Definition is_unrefd (r : service_record) : bool :=
  bool_decide (depends_on r = []) && bool_decide (dependents r = [])
  && bool_decide (log_consumer r = None).

(** What a listener can ask a service for when it is called. *)
Record service_status := Service_status {
  st_state : service_state_t;
  st_target_state : service_state_t;
  st_pid : Z;
  st_waiting_for_console : bool;
  st_has_console : bool;
  st_start_skipped : bool;
  st_marked_active : bool;
  st_stop_reason : stopped_reason_t;
  st_exec_err : run_proc_err;
  st_exit_status : proc_status_t
}.

(** ** Observable actions

    What an operation does besides changing the service set, in order. *)

Variant action :=
  | Notify (svc : sid) (ev : service_event_t) (status : service_status)
                                                (* listeners' service_event *)
  | Log_started (svc : sid)
  | Log_failed (svc : sid) (depfailed : bool)
  | Log_stopped (svc : sid)
  | Log_chain_error (svc : sid)                 (* "Couldn't chain to service" *)
  | Reset_foreground_pgrp                       (* tcsetpgrp(0, getpgrp()) *)
  | Rootfs_is_rw
  | Setup_external_log
  | Kill_all_processes                          (* kill(-1, TERM); sleep; kill(-1, KILL) *)
  | Discard_console_log_buffer
  | Enable_console_log (enable : bool)
  | Kill (pid signo : Z)
  | Arm_timer (svc : sid)
  | Stop_timer (svc : sid)
  | Forked (svc : sid) (pid : Z)
  | Log_misc (svc : sid)                        (* any other message *)
  | Log_load (msg : list Z)                     (* a message of the loader *)
  | Bad_close (fd : Z)                          (* close of a descriptor that is not open *)
  | Bad_deregister (svc : sid)                  (* deregistration of a watcher that is not registered *)
  | Unlink (path : string).                     (* a file is removed *)

(** ** The service set (class [service_set]) and the stores

    [ext] is the state of the derived classes.  [fault] and [unfinished] are
    bookkeeping of the model.  [fault] is set when a recursion of the model whose
    depth the model computes runs out of fuel; [ServiceFuel] proves that it never
    is.  [unfinished] is set when the loop of [process_queues] has used up the
    number of turns its caller allows. *)

Record sys {X : Type} := Sys {
  svcs : gmap sid service_record;
  deps : gmap did service_dep;
  active_services : Z;
  records : list sid;
  restart_enabled : bool;
  shutdown_type : shutdown_type_t;
  console_queue : list sid;
  prop_queue : list sid;
  stop_queue : list sid;
  trace : list action;
  fault : bool;
  unfinished : bool;
  ext : X
}.
Arguments sys : clear implicits.
#[export] Instance eta_sys X : Eta (sys X) := λ st,
  Sys X (svcs st) (deps st) (active_services st) (records st) (restart_enabled st)
    (shutdown_type st) (console_queue st) (prop_queue st) (stop_queue st)
    (trace st) (fault st) (unfinished st) (ext st).

Definition service_set_new {X} (x : X) : sys X :=
  {| svcs := ∅; deps := ∅; active_services := 0; records := [];
     restart_enabled := true; shutdown_type := shutdown_type_t.NONE;
     console_queue := []; prop_queue := []; stop_queue := []; trace := [];
     fault := false; unfinished := false; ext := x |}.

Section access.
Context {X : Type}.
Implicit Types (st : sys X) (x y : sid) (d : did).

Definition svc st x : service_record :=
  default (service_record_new "" service_type_t.PLACEHOLDER) (svcs st !! x).
Definition upd x (f : service_record → service_record) st : sys X :=
  st <| svcs := <[x := f (svc st x)]> (svcs st) |>.

Definition dep st d : service_dep :=
  default (service_dep_new 0 0 dependency_type.REGULAR) (deps st !! d).
Definition upd_dep d (f : service_dep → service_dep) st : sys X :=
  st <| deps := <[d := f (dep st d)]> (deps st) |>.

Definition emit (a : action) st : sys X := st <| trace ::= cons a |>.
Definition set_fault st : sys X := st <| fault := true |>.
Definition set_unfinished st : sys X := st <| unfinished := true |>.

Lemma svc_upd x y f st :
  svc (upd y f st) x = if decide (x = y) then f (svc st x) else svc st x.
Proof.
  unfold svc, upd; rsimpl. case_decide as Hxy.
  - subst. by rewrite lookup_insert_eq.
  - by rewrite lookup_insert_ne.
Qed.
Lemma svc_upd_eq x f st : svc (upd x f st) x = f (svc st x).
Proof. rewrite svc_upd. by rewrite decide_True. Qed.
Lemma svc_upd_ne x y f st : x ≠ y → svc (upd y f st) x = svc st x.
Proof. intros. rewrite svc_upd. by rewrite decide_False. Qed.

Lemma upd_upd_dep x d f g st : upd_dep d g (upd x f st) = upd x f (upd_dep d g st).
Proof. done. Qed.

Lemma dep_upd_dep d e f st :
  dep (upd_dep e f st) d = if decide (d = e) then f (dep st d) else dep st d.
Proof.
  unfold dep, upd_dep; rsimpl. case_decide as Hde.
  - subst. by rewrite lookup_insert_eq.
  - by rewrite lookup_insert_ne.
Qed.
End access.

(** Two services that differ only in fields that [p] does not read agree on
    [p]: the way the lemmas of the invariants state what an update keeps. *)
Definition keeps {A B} (f : A → A) (p : A → B) : Prop := ∀ r, p (f r) = p r.
#[export] Hint Extern 1 (keeps _ _) => (intros ?; rsimpl; reflexivity) : dinit.
