(* ===== verification/Service.v ===== *)
(** * The service state machine

    [service.cc] and the operations of [service.h]: one definition per method of
    [service_record] and of [service_set], in the order in which the code's
    calls need them.  A method of a [service_record *] takes the [sid] and the
    state; a method that returns a value returns the state and the value.

    The virtual methods of the class hierarchy are the two classes
    [ServiceVirtual] (methods that do not call back into the state machine) and
    [ServiceBring] ([bring_up] and [bring_down], which do). *)

From S2P Require Import Prelude ServiceData.

(** ** Virtual methods that do not call back *)

Class ServiceVirtual (X : Type) := {
  can_interrupt_start : sys X → sid → bool;
  interrupt_start : sid → sys X → sys X * bool;
  becoming_inactive : sid → sys X → sys X;
  check_restart : sid → sys X → sys X * bool;
  get_exit_status : sys X → sid → proc_status_t;
  get_pid : sys X → sid → Z;
  (** [base_process_service::get_exec_err_info] *)
  get_exec_err_info : sys X → sid → run_proc_err;
  (** [service_set::load_service]; [None] is an exception. *)
  load_service : string → sys X → sys X * option sid;
  (** [enable_console_log] of [dinit-log.cc]; its first argument is
      [pull_console_queue], which the log may call. *)
  enable_console_log : (sys X → sys X) → bool → sys X → sys X
}.

(** The implementations of the base class [service_record]. *)
Section base_class.
Context {X : Type}.
Implicit Types (st : sys X) (x : sid).

Definition base_can_interrupt_start st x : bool := waiting_for_deps (svc st x).
Definition base_interrupt_start x st : sys X * bool := (st, true).
Definition base_becoming_inactive x st : sys X := st.
Definition base_check_restart x st : sys X * bool := (st, true).
Definition base_get_exit_status st x : proc_status_t := proc_status_empty.
Definition base_get_pid st x : Z := -1.
End base_class.

Section queues.
Context {X : Type}.
Implicit Types (st : sys X) (x : sid).

(** [find_service]: the first record of the list with the name. *)
Definition find_record st (rs : list sid) (name : string) : option sid :=
  List.find (λ x, String.eqb (service_name (svc st x)) name) rs.

Definition find_service (name : string) (find_placeholders : bool) st : option sid :=
  match find_record st (records st) name with
  | Some r =>
      if negb find_placeholders
         && bool_decide (record_type (svc st r) = service_type_t.PLACEHOLDER)
      then None else Some r
  | None => None
  end.

(** [service_set::load_service] of the base class: no loading. *)
Definition base_load_service (name : string) st : sys X * option sid :=
  (st, find_service name false st).

Definition add_service x st : sys X := st <| records ::= (λ l, l ++ [x]) |>.

(** [records.erase(std::find(...))]: the first occurrence. *)
Fixpoint erase_first (x : nat) (l : list nat) : list nat :=
  match l with
  | [] => []
  | y :: l' => if decide (y = x) then l' else y :: erase_first x l'
  end.
Definition remove_service x st : sys X := st <| records ::= erase_first x |>.

(** The intrusive lists [prop_queue] and [stop_queue] (class [slist]): [insert]
    is at the front, and [is_queued] tests that the node has a successor or is
    the first one, which the last node of a longer list fails.  [LinkedList]
    proves that the pointer structure implements these two functions, also when
    a node is inserted again. *)
Definition slist_is_queued (x : sid) (q : list sid) : bool :=
  bool_decide (x ∈ removelast q) || bool_decide (head q = Some x).

Definition add_prop_queue x st : sys X :=
  if slist_is_queued x (prop_queue st) then st else st <| prop_queue ::= cons x |>.

Definition add_transition_queue x st : sys X :=
  if slist_is_queued x (stop_queue st) then st else st <| stop_queue ::= cons x |>.

Definition unqueue_console x st : sys X :=
  if bool_decide (x ∈ console_queue st)
  then st <| console_queue ::= erase_first x |> else st.

Definition service_active x st : sys X := st <| active_services ::= Z.add 1 |>.
Definition service_inactive x st : sys X :=
  st <| active_services ::= (λ n, n - 1) |>.
Definition count_active_services st : Z := active_services st.

Definition is_shutting_down st : bool := negb (restart_enabled st).
End queues.

(** ** Stopping: [release], [do_stop], [stop_dependents]

    The three methods call each other: stopping a service can remove the
    explicit activation of a dependent, whose release can stop it in turn.
    [release_body] and [do_stop_body] are the bodies with the recursive call to
    [do_stop] as an argument, [do_stop_fuel] ties the knot. *)
Section stopping.
Context {X : Type} `{!ServiceVirtual X}.
Implicit Types (st : sys X) (x : sid) (d : did).

Definition status_of st x : service_status :=
  let r := svc st x in
  {| st_state := service_state r; st_target_state := desired_state r; st_pid := get_pid st x;
     st_waiting_for_console := waiting_for_console r; st_has_console := have_console r;
     st_start_skipped := start_skipped r; st_marked_active := start_explicit r;
     st_stop_reason := stop_reason r; st_exec_err := get_exec_err_info st x;
     st_exit_status := get_exit_status st x |}.

(** Every listener of the service is called with the event. *)
Definition notify_listeners x (ev : service_event_t) st : sys X :=
  emit (Notify x ev (status_of st x)) st.

Definition dependency_started x st : sys X :=
  let r := svc st x in
  when ((bool_decide (service_state r = service_state_t.STARTING)
         || bool_decide (service_state r = service_state_t.STARTED))
        && waiting_for_deps r)
    (add_transition_queue x) st.

Definition dependent_stopped x st : sys X :=
  let r := svc st x in
  when (bool_decide (service_state r = service_state_t.STOPPING) && waiting_for_deps r)
    (add_transition_queue x) st.

Definition forced_stop x st : sys X :=
  when (bool_decide (service_state (svc st x) ≠ service_state_t.STOPPED))
    (λ st,
      let! st := upd x (λ r, r <| force_stop := true |>) st in
      when (negb (is_start_pinned (svc st x)))
        (λ st, add_prop_queue x (upd x (λ r, r <| prop_stop := true |>) st)) st)
    st.

Definition unrecoverable_stop x st : sys X :=
  forced_stop x (upd x (λ r, r <| desired_state := service_state_t.STOPPED |>) st).

Definition require x st : sys X :=
  let was := required_by (svc st x) in
  let! st := upd x (λ r, r <| required_by ::= Z.add 1 |>) st in
  when ((was =? 0)
        && bool_decide (service_state (svc st x) ≠ service_state_t.STARTING)
        && bool_decide (service_state (svc st x) ≠ service_state_t.STARTED))
    (λ st, add_prop_queue x (upd x (λ r, r <| prop_start := true |>) st))
    st.

Definition release_body (do_stop : sid → bool → sys X → sys X)
    x (issue_stop : bool) st : sys X :=
  let! st := upd x (λ r, r <| required_by ::= (λ n, n - 1) |>) st in
  if required_by (svc st x) =? 0 then
    let! st :=
      when (bool_decide (service_state (svc st x) = service_state_t.STOPPING)
            && bool_decide (desired_state (svc st x) = service_state_t.STARTED)
            && negb (is_start_pinned (svc st x)))
        (notify_listeners x service_event_t.STARTCANCELLED) st in
    let! st := upd x (λ r, r <| desired_state := service_state_t.STOPPED |>) st in
    if is_start_pinned (svc st x) then st
    else
      let! st := upd x (λ r, r <| prop_release := negb (prop_require r) |>) st in
      let! st := upd x (λ r, r <| prop_require := false |>) st in
      let! st := when (prop_release (svc st x)) (add_prop_queue x) st in
      when (bool_decide (service_state (svc st x) ≠ service_state_t.STOPPED)
            && bool_decide (service_state (svc st x) ≠ service_state_t.STOPPING)
            && issue_stop)
        (λ st, do_stop x false
           (upd x (λ r, r <| stop_reason := stopped_reason_t.NORMAL |>) st))
        st
  else st.

(** One turn of the loop of [stop_dependents]; the accumulator is the state
    and [all_deps_stopped]. *)
Definition stop_dependents_turn (do_stop : sid → bool → sys X → sys X)
    x (for_restart restart_deps : bool) d (acc : sys X * bool) : sys X * bool :=
  let '(st, all_deps_stopped) := acc in
  if is_hard (dep st d) then
    let y := dep_from (dep st d) in
    let all_deps_stopped :=
      if is_fundamentally_stopped (svc st y) then all_deps_stopped else false in
    let! st :=
      if force_stop (svc st x) then
        if bool_decide (desired_state (svc st x) = service_state_t.STOPPED)
        then unrecoverable_stop y
               (upd y (λ r, r <| stop_reason := stopped_reason_t.DEPFAILED |>) st)
        else forced_stop y st
      else st in
    let! st :=
      if bool_decide (service_state (svc st y) ≠ service_state_t.STOPPED) then
        if bool_decide (desired_state (svc st x) = service_state_t.STOPPED) then
          if bool_decide (desired_state (svc st y) ≠ service_state_t.STOPPED) then
            let! st := upd y (λ r, r <| desired_state := service_state_t.STOPPED |>) st in
            let! st :=
              when (start_explicit (svc st y))
                (λ st, release_body do_stop y true
                   (upd y (λ r, r <| start_explicit := false |>) st)) st in
            add_prop_queue y (upd y (λ r, r <| prop_stop := true |>) st)
          else st
        else if restart_deps
                && bool_decide (service_state (svc st y) ≠ service_state_t.STOPPING) then
          let! st := upd y (λ r, r <| stop_reason := stopped_reason_t.DEPRESTART |>) st in
          let! st := upd y (λ r, r <| in_user_restart := true |>) st in
          add_prop_queue y (upd y (λ r, r <| prop_stop := true |>) st)
        else st
      else st in
    (st, all_deps_stopped)
  else if negb for_restart then
    let! st :=
      when (waiting_on (dep st d))
        (λ st,
          let! st := upd_dep d (λ r, r <| waiting_on := false |>) st in
          dependency_started (dep_from (dep st d)) st) st in
    let! st :=
      when (holding_acq (dep st d))
        (λ st, release_body do_stop x false
           (upd_dep d (λ r, r <| holding_acq := false |>) st)) st in
    (st, all_deps_stopped)
  else (st, all_deps_stopped).

Definition stop_dependents_body (do_stop : sid → bool → sys X → sys X)
    x (for_restart restart_deps : bool) st : sys X * bool :=
  for_each (dependents (svc st x))
    (stop_dependents_turn do_stop x for_restart restart_deps) (st, true).

(** Whether the configuration asks for an automatic restart. *)
Definition wants_auto_restart st x : bool :=
  match auto_restart (svc st x) with
  | auto_restart_mode.ALWAYS => true
  | auto_restart_mode.ON_FAILURE =>
      if bool_decide (record_type (svc st x) = service_type_t.PROCESS)
         || bool_decide (record_type (svc st x) = service_type_t.BGPROCESS)
      then
        let exit_status := get_exit_status st x in
        if was_signalled exit_status
        then negb (bool_decide (get_signal exit_status
                     ∈ [SIGHUP; SIGINT; SIGUSR1; SIGUSR2; SIGTERM]))
        else negb (get_status exit_status =? 0)
      else false
  | auto_restart_mode.NEVER => false
  end.

(** The part of [do_stop] that follows [stop_dependents]: begin to stop if the
    current state allows it. *)
Definition begin_stop x (all_deps_stopped : bool) st : sys X :=
  let! st := upd x (λ r, r <| service_state := service_state_t.STOPPING |>) st in
  let! st := upd x (λ r, r <| waiting_for_deps := negb all_deps_stopped |>) st in
  when all_deps_stopped (add_transition_queue x) st.

Definition do_stop_tail x (all_deps_stopped : bool) st : sys X :=
  match service_state (svc st x) with
  | service_state_t.STARTED => begin_stop x all_deps_stopped st
  | service_state_t.STARTING =>
      if negb (waiting_for_deps (svc st x)) && negb (waiting_for_console (svc st x)) then
        if can_interrupt_start st x then
          let! '(st, interrupted) := interrupt_start x st in
          let! st := notify_listeners x service_event_t.STARTCANCELLED st in
          if interrupted then begin_stop x all_deps_stopped st else st
        else st
      else
        let! st :=
          when (waiting_for_console (svc st x))
            (λ st, upd x (λ r, r <| waiting_for_console := false |>)
                     (unqueue_console x st)) st in
        let! st := notify_listeners x service_event_t.STARTCANCELLED st in
        begin_stop x all_deps_stopped st
  | _ => st
  end.

Definition do_stop_body (do_stop : sid → bool → sys X → sys X)
    x (with_restart : bool) st : sys X :=
  if is_start_pinned (svc st x) then st
  else
    let! st := upd x (λ r, r <| in_auto_restart := false |>) st in
    let! st := upd x (λ r, r <| in_user_restart := false |>) st in
    let do_auto_restart := wants_auto_restart st x in
    let for_restart :=
      with_restart
      || (do_auto_restart
          && bool_decide (desired_state (svc st x) = service_state_t.STARTED)) in
    let restart_deps := with_restart in
    let! '(st, for_restart) :=
      if negb with_restart && for_restart then
        let! '(st, for_restart) := check_restart x st in
        (upd x (λ r, r <| in_auto_restart := for_restart |>) st, for_restart)
      else (st, for_restart) in
    let! st :=
      when (negb for_restart && start_explicit (svc st x))
        (λ st, release_body do_stop x false
           (upd x (λ r, r <| start_explicit := false |>) st)) st in
    let! '(st, all_deps_stopped) :=
      stop_dependents_body do_stop x for_restart restart_deps st in
    do_stop_tail x all_deps_stopped st.

Fixpoint do_stop_fuel (n : nat) x (with_restart : bool) st : sys X :=
  match n with
  | O => set_fault st
  | S n => do_stop_body (do_stop_fuel n) x with_restart st
  end.

(** A nested call has removed an explicit activation, so that the number of
    explicitly activated services bounds the depth. *)
Definition explicit_count st : nat :=
  size (filter (λ p, start_explicit p.2 = true) (svcs st)).

Definition do_stop x (with_restart : bool) st : sys X :=
  do_stop_fuel (S (explicit_count st)) x with_restart st.

Definition release x (issue_stop : bool) st : sys X :=
  release_body do_stop x issue_stop st.

Definition release_dependencies x st : sys X :=
  for_each (depends_on (svc st x))
    (λ d st,
      when (holding_acq (dep st d))
        (λ st,
          let! st := upd_dep d (λ r, r <| holding_acq := false |>) st in
          release (dep_to (dep st d)) true st) st)
    st.

Definition stop x (bring_down : bool) st : sys X :=
  let! st :=
    when (start_explicit (svc st x))
      (λ st,
        let! st := upd x (λ r, r <| start_explicit := false |>) st in
        upd x (λ r, r <| required_by ::= (λ n, n - 1) |>) st) st in
  let! st :=
    when (bring_down || (required_by (svc st x) =? 0))
      (upd x (λ r, r <| desired_state := service_state_t.STOPPED |>)) st in
  if is_start_pinned (svc st x) then st
  else
    let! '(bring_down, st) :=
      if required_by (svc st x) =? 0 then
        let! st := upd x (λ r, r <| prop_release := negb (prop_require r) |>) st in
        (true, when (prop_release (svc st x)) (add_prop_queue x) st)
      else (bring_down, st) in
    when (bring_down
          && bool_decide (service_state (svc st x) ≠ service_state_t.STOPPED))
      (λ st, do_stop x false
         (upd x (λ r, r <| stop_reason := stopped_reason_t.NORMAL |>) st)) st.

Definition restart x st : sys X * bool :=
  if bool_decide (service_state (svc st x) = service_state_t.STARTED) then
    let! st := upd x (λ r, r <| stop_reason := stopped_reason_t.NORMAL |>) st in
    let! st := upd x (λ r, r <| force_stop := true |>) st in
    (do_stop x true st, true)
  else (st, false).

Definition stop_check_dependents st x : bool :=
  negb (existsb (λ d, is_hard (dep st d) && holding_acq (dep st d)
                      && negb (waiting_on (dep st d)))
          (dependents (svc st x))).
End stopping.

(** ** Starting and stopping: the transitions

    [stopped] and [started] release the console, which hands it to the next
    service in the queue, which may start.  Below, [pull] is
    [service_set::pull_console_queue], tied in [pull_console_queue_fuel]. *)
Section transitions.
Context {X : Type} `{!ServiceVirtual X}.
Implicit Types (st : sys X) (x : sid) (d : did) (pull : sys X → sys X).

(** The loops of [start_check_dependencies]: over the dependencies, with the
    state and [all_deps_started] as accumulator, and over the dependents. *)
Definition start_check_turn d (acc : sys X * bool) : sys X * bool :=
  let '(st, all_deps_started) := acc in
  let to := dep_to (dep st d) in
  if is_only_ordering (dep st d)
     && bool_decide (service_state (svc st to) ≠ service_state_t.STARTING)
  then (st, all_deps_started)
  else if bool_decide (service_state (svc st to) ≠ service_state_t.STARTED)
  then (upd_dep d (λ r, r <| waiting_on := true |>) st, false)
  else (st, all_deps_started).

Definition hold_back_turn d st : sys X :=
  when (negb (waiting_on (dep st d)) && is_only_ordering (dep st d)
        && bool_decide (service_state (svc st (dep_from (dep st d)))
                        = service_state_t.STARTING))
    (upd_dep d (λ r, r <| waiting_on := true |>)) st.

Definition start_check_dependencies x st : sys X * bool :=
  let! '(st, all_deps_started) :=
    for_each (depends_on (svc st x)) start_check_turn (st, true) in
  let! st := for_each (dependents (svc st x)) hold_back_turn st in
  (st, all_deps_started).

Definition initiate_start x st : sys X :=
  let! st := upd x (λ r, r <| start_failed := false |>) st in
  let! st := upd x (λ r, r <| start_skipped := false |>) st in
  let! st := upd x (λ r, r <| service_state := service_state_t.STARTING |>) st in
  let! st := upd x (λ r, r <| waiting_for_deps := true |>) st in
  let! '(st, ready) := start_check_dependencies x st in
  when ready (add_transition_queue x) st.

Definition check_deps_started st x : bool :=
  negb (existsb (λ d, waiting_on (dep st d)) (depends_on (svc st x))).

(** One turn of the loop of [failed_to_start] over the dependents. *)
Definition fail_dependent x d st : sys X :=
  let y := dep_from (dep st d) in
  let! st :=
    match dep_type (dep st d) with
    | dependency_type.REGULAR | dependency_type.MILESTONE =>
        when (bool_decide (service_state (svc st y) = service_state_t.STARTING))
          (λ st, add_prop_queue y (upd y (λ r, r <| prop_failure := true |>) st)) st
    | dependency_type.WAITS_FOR | dependency_type.SOFT
    | dependency_type.BEFORE | dependency_type.AFTER =>
        when (waiting_on (dep st d))
          (λ st, dependency_started y
             (upd_dep d (λ r, r <| waiting_on := false |>) st)) st
    | dependency_type.Unnamed _ => st
    end in
  when (holding_acq (dep st d))
    (λ st, release x false (upd_dep d (λ r, r <| holding_acq := false |>) st)) st.

(** [failed_to_start] up to the final [stopped()]; this is the whole method
    when [immediate_stop] is false. *)
Definition fail_start x (depfailed : bool) st : sys X :=
  let! st := upd x (λ r, r <| desired_state := service_state_t.STOPPED |>) st in
  let! st :=
    when (waiting_for_console (svc st x))
      (λ st, upd x (λ r, r <| waiting_for_console := false |>)
               (unqueue_console x st)) st in
  let! st :=
    when (start_explicit (svc st x))
      (λ st, release x false (upd x (λ r, r <| start_explicit := false |>) st)) st in
  let! st := for_each (dependents (svc st x)) (fail_dependent x) st in
  let! st := upd x (λ r, r <| start_failed := true |>) st in
  let! st := emit (Log_failed x depfailed) st in
  let! st := notify_listeners x service_event_t.FAILEDSTART st in
  upd x (λ r, r <| pinned_started := false |>) st.

(** The re-attachment of a soft dependent in [do_start]. *)
Definition reattach_dependent x d st : sys X :=
  if is_hard (dep st d) then st
  else
    let dept_state := service_state (svc st (dep_from (dep st d))) in
    when (negb (holding_acq (dep st d))
          && (bool_decide (dept_state = service_state_t.STARTED)
              || bool_decide (dept_state = service_state_t.STARTING)))
      (λ st, upd x (λ r, r <| required_by ::= Z.add 1 |>)
               (upd_dep d (λ r, r <| holding_acq := true |>) st)) st.

Definition do_start x st : sys X :=
  let was_active := bool_decide (service_state (svc st x) ≠ service_state_t.STOPPED) in
  let! st := upd x (λ r, r <| desired_state := service_state_t.STARTED |>) st in
  if pinned_stopped (svc st x) then when (negb was_active) (fail_start x false) st
  else
    let! st :=
      when (negb was_active)
        (λ st, for_each (dependents (svc st x)) (reattach_dependent x) st) st in
    if was_active then
      if bool_decide (service_state (svc st x) ≠ service_state_t.STOPPING) then st
      else if negb (can_interrupt_stop (svc st x)) then st
      else initiate_start x (notify_listeners x service_event_t.STOPCANCELLED st)
    else
      let! st := service_active x st in
      let! st := upd x (λ r, r <| prop_require := negb (prop_release r) |>) st in
      let! st := upd x (λ r, r <| prop_release := false |>) st in
      let! st := when (prop_require (svc st x)) (add_prop_queue x) st in
      initiate_start x st.

Definition start x st : sys X :=
  if pinned_stopped (svc st x) then st
  else
    let! st :=
      when (negb (start_explicit (svc st x)))
        (λ st,
          let! st := upd x (λ r, r <| required_by ::= Z.add 1 |>) st in
          upd x (λ r, r <| start_explicit := true |>) st) st in
    do_start x st.

Definition release_console pull x st : sys X :=
  pull (upd x (λ r, r <| have_console := false |>) st).

(** The break of a soft dependency link in [stopped]. *)
Definition break_soft_link x d st : sys X :=
  if is_hard (dep st d) then st
  else
    let! st :=
      when (waiting_on (dep st d))
        (λ st,
          let! st := upd_dep d (λ r, r <| waiting_on := false |>) st in
          dependency_started (dep_from (dep st d)) st) st in
    when (holding_acq (dep st d))
      (λ st, release x false (upd_dep d (λ r, r <| holding_acq := false |>) st)) st.

(** The start of the service that this one chains to. *)
Definition chain_to x (will_restart : bool) st : sys X :=
  when ((always_chain (onstart_flags (svc st x))
         || (did_finish (stop_reason (svc st x))
             && did_exit_clean (get_exit_status st x) && negb will_restart))
        && negb (String.eqb (start_on_completion (svc st x)) "")
        && negb (is_shutting_down st))
    (λ st,
      match load_service (start_on_completion (svc st x)) st with
      | (st, Some y) => start y st
      | (st, None) => emit (Log_chain_error x) st
      end) st.

Definition stopped pull x st : sys X :=
  let! st :=
    when (have_console (svc st x))
      (λ st, release_console pull x (emit Reset_foreground_pgrp st)) st in
  let! st := upd x (λ r, r <| force_stop := false |>) st in
  let will_restart :=
    bool_decide (desired_state (svc st x) = service_state_t.STARTED)
    && negb (pinned_stopped (svc st x)) in
  let! st :=
    when (negb will_restart)
      (λ st, for_each (dependents (svc st x)) (break_soft_link x) st) st in
  let! st :=
    for_each (depends_on (svc st x))
      (λ d st, dependent_stopped (dep_to (dep st d)) st) st in
  let! st := upd x (λ r, r <| service_state := service_state_t.STOPPED |>) st in
  let! st :=
    if will_restart then initiate_start x st
    else
      let! st := becoming_inactive x st in
      if start_explicit (svc st x)
      then release x false (upd x (λ r, r <| start_explicit := false |>) st)
      else when (required_by (svc st x) =? 0) (service_inactive x) st in
  let! st :=
    when (negb (start_failed (svc st x)))
      (λ st, chain_to x will_restart (emit (Log_stopped x) st)) st in
  notify_listeners x service_event_t.STOPPED st.

Definition failed_to_start pull x (depfailed immediate_stop : bool) st : sys X :=
  when immediate_stop (stopped pull x) (fail_start x depfailed st).

Definition started pull x st : sys X :=
  let! st :=
    when (have_console (svc st x) && negb (runs_on_console (onstart_flags (svc st x))))
      (λ st, release_console pull x (emit Reset_foreground_pgrp st)) st in
  let! st := emit (Log_started x) st in
  let! st := upd x (λ r, r <| service_state := service_state_t.STARTED |>) st in
  let! st := notify_listeners x service_event_t.STARTED st in
  let! st := when (rw_ready (onstart_flags (svc st x))) (emit Rootfs_is_rw) st in
  let! st := when (log_ready (onstart_flags (svc st x))) (emit Setup_external_log) st in
  if force_stop (svc st x)
     || bool_decide (desired_state (svc st x) = service_state_t.STOPPED)
  then do_stop x false st
  else
    for_each (dependents (svc st x))
      (λ d st,
        when (waiting_on (dep st d))
          (λ st,
            let! st := dependency_started (dep_from (dep st d)) st in
            upd_dep d (λ r, r <| waiting_on := false |>) st) st)
      st.

(** [bring_up] and [bring_down] of the base class. *)
Definition base_bring_up pull x st : sys X * bool := (started pull x st, true).
Definition base_bring_down pull x st : sys X := stopped pull x st.
End transitions.

(** ** Virtual methods that call back into the state machine *)

(** [bring_up] can pull the console queue and, when a restart fails, processes
    the queues: its first two arguments are [pull_console_queue] and
    [process_queues]. *)
Class ServiceBring (X : Type) := {
  bring_up : (sys X → sys X) → (sys X → sys X) → sid → sys X → sys X * bool;
  bring_down : (sys X → sys X) → sid → sys X → sys X
}.

Section driver.
Context {X : Type} `{!ServiceVirtual X} `{!ServiceBring X}.
Implicit Types (st : sys X) (x : sid) (d : did) (pull pq : sys X → sys X).

Definition append_console_queue pull x st : sys X :=
  let was_empty := bool_decide (console_queue st = []) in
  let! st := st <| console_queue ::= (λ q, q ++ [x]) |> in
  when was_empty (enable_console_log pull false) st.

Definition queue_for_console pull x st : sys X :=
  append_console_queue pull x
    (upd x (λ r, r <| waiting_for_console := true |>) st).

Definition all_deps_started pull pq x st : sys X :=
  if starts_on_console (onstart_flags (svc st x)) && negb (have_console (svc st x))
  then queue_for_console pull x st
  else
    let! st := upd x (λ r, r <| waiting_for_deps := false |>) st in
    let! '(st, ok) := bring_up pull pq x st in
    if ok then st
    else failed_to_start pull x false true
           (upd x (λ r, r <| service_state := service_state_t.STOPPING |>) st).

Definition acquired_console pull pq x st : sys X :=
  let! st := upd x (λ r, r <| waiting_for_console := false |>) st in
  let! st := upd x (λ r, r <| have_console := true |>) st in
  if bool_decide (service_state (svc st x) ≠ service_state_t.STARTING)
  then release_console pull x st
  else if check_deps_started st x then all_deps_started pull pq x st
  else release_console pull x st.

Definition pull_console_queue_body pull pq st : sys X :=
  match console_queue st with
  | [] => enable_console_log pull true (emit Discard_console_log_buffer st)
  | front :: rest => acquired_console pull pq front (st <| console_queue := rest |>)
  end.

Fixpoint pull_console_queue_fuel pq (n : nat) st : sys X :=
  match n with
  | O => set_fault st
  | S n => pull_console_queue_body (pull_console_queue_fuel pq n) pq st
  end.

(** Each nested call has taken a service from the queue. *)
Definition pull_console_queue pq st : sys X :=
  pull_console_queue_fuel pq (S (length (console_queue st))) st.

Definition execute_transition pq x st : sys X :=
  match service_state (svc st x) with
  | service_state_t.STARTING =>
      when (check_deps_started st x)
        (λ st, all_deps_started (pull_console_queue pq) pq x
           (upd x (λ r, r <| waiting_for_deps := false |>) st)) st
  | service_state_t.STOPPING =>
      when (stop_check_dependents st x)
        (λ st,
          let! st := upd x (λ r, r <| waiting_for_deps := false |>) st in
          let! st :=
            when (kill_all_on_stop (onstart_flags (svc st x)))
              (emit Kill_all_processes) st in
          bring_down (pull_console_queue pq) x st) st
  | _ => st
  end.

(** The five steps of [do_propagation]. *)
Definition propagate_require x st : sys X :=
  when (prop_require (svc st x))
    (λ st,
      let! st :=
        for_each (depends_on (svc st x))
          (λ d st,
            when (negb (is_only_ordering (dep st d)))
              (λ st,
                let! st := require (dep_to (dep st d)) st in
                upd_dep d (λ r, r <| holding_acq := true |>) st) st) st in
      upd x (λ r, r <| prop_require := false |>) st) st.

Definition propagate_release x st : sys X :=
  when (prop_release (svc st x))
    (λ st, upd x (λ r, r <| prop_release := false |>) (release_dependencies x st)) st.

Definition propagate_failure pq x st : sys X :=
  when (prop_failure (svc st x))
    (λ st,
      let! st := upd x (λ r, r <| prop_failure := false |>) st in
      let! st := upd x (λ r, r <| stop_reason := stopped_reason_t.DEPFAILED |>) st in
      let! st := upd x (λ r, r <| service_state := service_state_t.STOPPED |>) st in
      failed_to_start (pull_console_queue pq) x true true st) st.

Definition propagate_start x st : sys X :=
  when (prop_start (svc st x))
    (λ st, do_start x (upd x (λ r, r <| prop_start := false |>) st)) st.

Definition propagate_stop x st : sys X :=
  when (prop_stop (svc st x))
    (λ st,
      let! st := upd x (λ r, r <| prop_stop := false |>) st in
      do_stop x (in_user_restart (svc st x)) st) st.

Definition queue_pin_update x d (dept_pin : bool) st : sys X :=
  let to := dep_to (dep st d) in
  when (is_hard (dep st d)
        && negb (Bool.eqb (dept_pinned_started (svc st to)) dept_pin))
    (λ st, add_prop_queue to (upd to (λ r, r <| prop_pin_dpt := true |>) st)) st.

Definition propagate_pin x st : sys X :=
  when (prop_pin_dpt (svc st x))
    (λ st,
      let dept_pin :=
        existsb (λ d, is_hard (dep st d)
                      && is_start_pinned (svc st (dep_from (dep st d))))
          (dependents (svc st x)) in
      when (negb (Bool.eqb dept_pin (dept_pinned_started (svc st x))))
        (λ st,
          let! st := upd x (λ r, r <| dept_pinned_started := dept_pin |>) st in
          let! st :=
            for_each (depends_on (svc st x))
              (λ d, queue_pin_update x d dept_pin) st in
          when (negb (dept_pinned_started (svc st x)) && negb (pinned_started (svc st x))
                && (bool_decide (desired_state (svc st x) = service_state_t.STOPPED)
                    || force_stop (svc st x))
                && bool_decide (service_state (svc st x) = service_state_t.STARTED))
            (do_stop x false) st) st) st.

Definition do_propagation pq x st : sys X :=
  let! st := propagate_require x st in
  let! st := propagate_release x st in
  let! st := propagate_failure pq x st in
  let! st := propagate_start x st in
  let! st := propagate_stop x st in
  propagate_pin x st.

(** One turn of the loops of [process_queues]: the propagation queue is
    emptied before each transition.  [None]: both queues are empty. *)
Definition process_queues_turn pq st : option (sys X) :=
  match prop_queue st with
  | x :: rest => Some (do_propagation pq x (st <| prop_queue := rest |>))
  | [] =>
      match stop_queue st with
      | x :: rest => Some (execute_transition pq x (st <| stop_queue := rest |>))
      | [] => None
      end
  end.

(** [process_queues] with a bound on the number of turns, nested calls
    included. *)
Fixpoint process_queues (n : nat) st : sys X :=
  match n with
  | O =>
      if bool_decide (prop_queue st = []) && bool_decide (stop_queue st = [])
      then st else set_unfinished st
  | S n =>
      match process_queues_turn (process_queues n) st with
      | None => st
      | Some st => process_queues n st
      end
  end.

Definition pin_start x st : sys X :=
  when (negb (pinned_started (svc st x)))
    (λ st,
      let! st :=
        when (negb (dept_pinned_started (svc st x)))
          (λ st, for_each (depends_on (svc st x))
                   (λ d, queue_pin_update x d true) st) st in
      upd x (λ r, r <| pinned_started := true |>) st) st.

Definition pin_stop x st : sys X := upd x (λ r, r <| pinned_stopped := true |>) st.

Definition unpin_stop x st : sys X :=
  when (pinned_stopped (svc st x)) (upd x (λ r, r <| pinned_stopped := false |>)) st.

(** [unpin] processes the queues itself when it stops the service; [n] is the
    bound for that.  When the service remains pinned by a dependent the method
    returns early. *)
Definition unpin (n : nat) x st : sys X :=
  if pinned_started (svc st x) then
    let! st := upd x (λ r, r <| pinned_started := false |>) st in
    if dept_pinned_started (svc st x) then st
    else
      let! st :=
        for_each (depends_on (svc st x)) (λ d, queue_pin_update x d false) st in
      let! st :=
        when (bool_decide (service_state (svc st x) = service_state_t.STARTED))
          (λ st,
            let! st :=
              when (required_by (svc st x) =? 0)
                (λ st, add_prop_queue x (upd x (λ r, r <| prop_release := true |>) st)) st in
            when (bool_decide (desired_state (svc st x) = service_state_t.STOPPED)
                  || force_stop (svc st x))
              (λ st, process_queues n (do_stop x false st)) st) st in
      unpin_stop x st
  else unpin_stop x st.

(** *** The dependency graph *)

Definition insert_at {A} (i : nat) (a : A) (l : list A) : list A :=
  take i l ++ a :: drop i l.

(** [add_dep(to, dep_type, i)]: allocates the record, inserts it at position
    [i] of [depends_on] and appends it to the dependents of [to]; also returns
    the record.  Allocation does not fail. *)
Definition add_dep x to (ty : dependency_type) (i : nat) st : sys X * did :=
  let d := fresh (dom (deps st)) in
  let! st := st <| deps := <[d := service_dep_new x to ty]> (deps st) |> in
  let! st := upd x (λ r, r <| depends_on ::= insert_at i d |>) st in
  let! st := upd to (λ r, r <| dependents ::= (λ l, l ++ [d]) |>) st in
  let! st :=
    when (negb (bool_decide (ty = dependency_type.BEFORE))
          && negb (bool_decide (ty = dependency_type.AFTER))
          && (bool_decide (ty = dependency_type.REGULAR)
              || bool_decide (service_state (svc st to) = service_state_t.STARTED)
              || bool_decide (service_state (svc st to) = service_state_t.STARTING))
          && (bool_decide (service_state (svc st x) = service_state_t.STARTING)
              || bool_decide (service_state (svc st x) = service_state_t.STARTED)))
      (λ st, upd_dep d (λ r, r <| holding_acq := true |>) (require to st)) st in
  (st, d).

(** The constructor of a service record with its dependency list, in memory
    that no record uses: the dependencies are entered in order. *)
Definition construct x (name : string) (ty : service_type_t)
    (deplist : list (sid * dependency_type)) st : sys X :=
  let! st := upd x (λ _, service_record_new name ty) st in
  for_each deplist
    (λ p st, (add_dep x p.1 p.2 (length (depends_on (svc st x))) st).1) st.

(** The setters that the loader uses on a new record. *)
Definition set_auto_restart x (m : auto_restart_mode) st : sys X :=
  upd x (λ r, r <| auto_restart := m |>) st.
Definition set_smooth_recovery x (b : bool) st : sys X :=
  upd x (λ r, r <| smooth_recovery := b |>) st.
Definition set_flags x (f : service_flags_t) st : sys X :=
  upd x (λ r, r <| onstart_flags := f |>) st.
Definition set_service_dsc_dir x (dir : string) st : sys X :=
  upd x (λ r, r <| service_dsc_dir := dir |>) st.
Definition set_chain_to x (name : string) st : sys X :=
  upd x (λ r, r <| start_on_completion := name |>) st.

(** [rm_dep(iterator)]: the record is freed last. *)
Definition rm_dep_it x d st : sys X :=
  let to := dep_to (dep st d) in
  let! st := upd to (λ r, r <| dependents ::= erase_first d |>) st in
  let! st := when (holding_acq (dep st d)) (release to true) st in
  let! st := upd x (λ r, r <| depends_on ::= erase_first d |>) st in
  st <| deps ::= delete d |>.

(** [rm_dep(to, dep_type)]: the first matching dependency. *)
Definition rm_dep x to (ty : dependency_type) st : sys X * bool :=
  match List.find (λ d, bool_decide (dep_to (dep st d) = to)
                   && bool_decide (dep_type (dep st d) = ty)) (depends_on (svc st x)) with
  | Some d => (rm_dep_it x d st, true)
  | None => (st, false)
  end.

Definition start_dep d st : sys X :=
  when (negb (holding_acq (dep st d)))
    (λ st, upd_dep d (λ r, r <| holding_acq := true |>)
             (require (dep_to (dep st d)) st)) st.

(** The number of references other than the control connection's: dependents
    through links that are not only orderings, and other listeners. *)
Definition has_lone_ref st x (check_deps : bool) : bool :=
  if check_deps
     && existsb (λ d, negb (is_only_ordering (dep st d))) (dependents (svc st x))
  then false
  else bool_decide (length (listeners (svc st x)) = 1%nat).

(** *** Operations of the service set *)

Definition start_service (n : nat) x st : sys X := process_queues n (start x st).

Definition stop_service (n : nat) x st : sys X := process_queues n (stop x true st).

Definition stop_all_services (n : nat) (type : shutdown_type_t) st : sys X :=
  let! st := st <| restart_enabled := false |> in
  let! st := st <| shutdown_type := type |> in
  let! st :=
    for_each (records st)
      (λ x st, let! st := stop x false st in unpin n x st) st in
  process_queues n st.
End driver.
