(* ===== verification/Simple.v ===== *)
(** * Services without a process

    Internal services, which are the base class [service_record] as it is, and
    externally triggered services (class [triggered_service] of [service.h]).
    The extension state is the set of services whose trigger is set. *)

From S2P Require Import Prelude ServiceData Service.

Record simple_ext := Simple_ext {
  is_triggered : gset sid;      (* triggered_service::is_triggered *)
  console_logging : bool        (* the log stream owns the console *)
}.
#[export] Instance eta_simple_ext : Eta simple_ext := λ e,
  Simple_ext (is_triggered e) (console_logging e).

Definition simple_sys := sys simple_ext.

(** [can_interrupt_start]: [triggered_service] overrides it. *)
Definition simple_can_interrupt_start (st : simple_sys) (x : sid) : bool :=
  if bool_decide (record_type (svc st x) = service_type_t.TRIGGERED) then true
  else base_can_interrupt_start st x.

(** The console log with nothing left to print: disabling it gives the console
    away at once, enabling it takes the console back. *)
Definition simple_enable_console_log (pull : simple_sys → simple_sys) (enable : bool)
    (st : simple_sys) : simple_sys :=
  let! st := emit (Enable_console_log enable) st in
  if enable then st <| ext ::= (λ e, e <| console_logging := true |>) |>
  else if console_logging (ext st)
  then pull (st <| ext ::= (λ e, e <| console_logging := false |>) |>)
  else st.

#[export] Instance simple_virtual : ServiceVirtual simple_ext := {
  can_interrupt_start := simple_can_interrupt_start;
  interrupt_start := base_interrupt_start;
  becoming_inactive := base_becoming_inactive;
  check_restart := base_check_restart;
  get_exit_status := base_get_exit_status;
  get_pid := base_get_pid;
  get_exec_err_info _ _ := Run_proc_err 0 0;
  load_service := base_load_service;
  enable_console_log := simple_enable_console_log
}.

(** [triggered_service::bring_up]. *)
Definition triggered_bring_up (pull : simple_sys → simple_sys) (x : sid)
    (st : simple_sys) : simple_sys * bool :=
  (when (bool_decide (x ∈ is_triggered (ext st))) (started pull x) st, true).

#[export] Instance simple_bring : ServiceBring simple_ext := {
  bring_up pull _ x st :=
    if bool_decide (record_type (svc st x) = service_type_t.TRIGGERED)
    then triggered_bring_up pull x st else base_bring_up pull x st;
  bring_down := base_bring_down
}.

(** [triggered_service::set_trigger]. *)
Definition set_trigger (n : nat) (x : sid) (new_trigger : bool) (st : simple_sys) : simple_sys :=
  let! st :=
    st <| ext ::= (λ e, e <| is_triggered ::= (λ s,
      if new_trigger then {[x]} ∪ s else s ∖ {[x]}) |>) |> in
  when (bool_decide (x ∈ is_triggered (ext st))
        && bool_decide (service_state (svc st x) = service_state_t.STARTING)
        && negb (waiting_for_deps (svc st x)))
    (started (pull_console_queue (process_queues n)) x) st.

Definition simple_init : simple_sys := service_set_new (Simple_ext ∅ true).

(** A new record joins the set. *)
Definition new_service (x : sid) (name : string) (ty : service_type_t)
    (deplist : list (sid * dependency_type)) (st : simple_sys) : simple_sys :=
  add_service x (construct x name ty deplist st).
