(* ===== verification/ServiceInv.v ===== *)
(** * The acquisition and propagation invariant of the service state machine

    [service.h] documents [required_by] as "starts at 0, adds 1 if the service
    has explicitly been started, and adds 1 for each dependent service" that
    holds an acquisition.  The invariant states this count for every service,
    together with the discipline of the propagation queue (a service with a
    pending propagation flag is queued) and the shape of the dependency graph,
    and this file proves that every operation of [Service] keeps it.

    The count is stated with credits: [c x] is the number of acquisitions of
    [x] that an operation has taken out of the books and not yet released, or
    has counted and not yet entered, so that each step of an operation keeps
    the statement.  With [exact] the count is an equation, without it the
    sum is a lower bound. *)

From S2P Require Import Prelude ServiceData Service.

(** ** The dependency graph *)

Record graph := Graph {
  g_deps : sid → list did;
  g_dpts : sid → list did;
  g_from : did → sid;
  g_to : did → sid;
  g_type : did → dependency_type
}.

(** Each dependency record is in the list of dependents of its target, once. *)
Definition dpts_ok (G : graph) : Prop :=
  ∀ x, NoDup (g_dpts G x) ∧ ∀ d, d ∈ g_dpts G x → g_to G d = x.

(** Each dependency of a service comes from it and is known to its target. *)
Definition links_ok (G : graph) : Prop :=
  ∀ x, NoDup (g_deps G x)
    ∧ ∀ d, d ∈ g_deps G x → g_from G d = x ∧ d ∈ g_dpts G (g_to G d).

(** The flags that [do_propagation] takes up and resets ([prop_pin_dpt] is never reset). *)
Variant prop_flag := F_require | F_release | F_failure | F_start | F_stop.
#[export] Instance prop_flag_eq_dec : EqDecision prop_flag.
Proof. solve_decision. Defined.

Definition flag (f : prop_flag) (r : service_record) : bool :=
  match f with
  | F_require => prop_require r
  | F_release => prop_release r
  | F_failure => prop_failure r
  | F_start => prop_start r
  | F_stop => prop_stop r
  end.

(** An update that sets no flag, or no flag but [fl]. *)
Definition sets_no_flag (f : service_record → service_record) : Prop :=
  ∀ fl r, flag fl (f r) = true → flag fl r = true.
Definition sets_only_flag (fl : prop_flag) (f : service_record → service_record) : Prop :=
  ∀ fl' r, fl' ≠ fl → flag fl' (f r) = true → flag fl' r = true.

Definition acq_rel (exact : bool) (a b : Z) : Prop :=
  if exact then a = b else a ≤ b.

Definition no_credit (x : sid) : Z := 0.
Definition credit (x : sid) (c : sid → Z) (y : sid) : Z :=
  c y + (if decide (y = x) then 1 else 0).

(** [exempt x fl ex] also exempts the flag [fl] of [x]. *)
Definition exempt (x : sid) (fl : prop_flag) (ex : sid → prop_flag → bool)
    (y : sid) (g : prop_flag) : bool :=
  ex y g || (bool_decide (y = x) && bool_decide (g = fl)).

Definition none_exempt (x : sid) (f : prop_flag) : bool := false.

Section invariant.
Context {X : Type}.
Implicit Types (st : sys X) (x y : sid) (d : did) (c : sid → Z)
  (ex : sid → prop_flag → bool) (G : graph).

Definition graph_is G st : Prop :=
  (∀ x, depends_on (svc st x) = g_deps G x)
  ∧ (∀ x, dependents (svc st x) = g_dpts G x)
  ∧ (∀ d, dep_from (dep st d) = g_from G d)
  ∧ (∀ d, dep_to (dep st d) = g_to G d)
  ∧ (∀ d, dep_type (dep st d) = g_type G d).

(** The number of links of [ds] that hold an acquisition. *)
Fixpoint held_in st (ds : list did) : Z :=
  match ds with
  | [] => 0
  | d :: ds => b2z (holding_acq (dep st d)) + held_in st ds
  end.

Definition acq_ok (exact : bool) G c st : Prop :=
  ∀ x, acq_rel exact
    (b2z (start_explicit (svc st x)) + held_in st (g_dpts G x) + c x)
    (required_by (svc st x)).

(** The records of the lists are allocated. *)
Definition alloc_ok G st : Prop :=
  ∀ x d, d ∈ g_deps G x ∨ d ∈ g_dpts G x → d ∈ dom (deps st).

(** A pending flag that is not exempted is queued for propagation. *)
Definition pending_ok ex st : Prop :=
  ∀ x f, ex x f = false → flag f (svc st x) = true → x ∈ prop_queue st.

Record InvG (exact : bool) G c ex st : Prop := {
  inv_graph : graph_is G st;
  inv_dpts : dpts_ok G;
  inv_alloc : alloc_ok G st;
  inv_acq : acq_ok exact G c st;
  inv_pending : pending_ok ex st
}.

(** The invariant of the service set between operations. *)
Definition Inv st : Prop :=
  ∃ G, links_ok G ∧ InvG false G no_credit none_exempt st.
End invariant.

(** A node that the test finds is in the list. *)
Lemma in_removelast {A} (x : A) q : x ∈ removelast q → x ∈ q.
Proof.
  induction q as [|y [|z q] IH]; simpl; [done|by intros ?%not_elem_of_nil|].
  rewrite elem_of_cons. intros [->|Hx%IH]; [by left|by right].
Qed.

Lemma slist_is_queued_in x q : slist_is_queued x q = true → x ∈ q.
Proof.
  unfold slist_is_queued. rewrite orb_true_iff, !bool_decide_eq_true.
  intros [H|H]; [by apply in_removelast|]. destruct q; [done|]. simplify_eq/=. by left.
Qed.

Section steps.
Context {X : Type} (exact : bool).
Implicit Types (st : sys X) (x y : sid) (d : did) (c : sid → Z)
  (ex : sid → prop_flag → bool) (G : graph).

(** *** Counting held links *)

Lemma held_in_ext st st' ds :
  (∀ d, d ∈ ds → holding_acq (dep st' d) = holding_acq (dep st d)) →
  held_in st' ds = held_in st ds.
Proof.
  induction ds as [|d ds IH]; intros H; [done|]. simpl.
  rewrite H by set_solver. rewrite IH; [done|set_solver].
Qed.

Lemma held_in_upd_dep st d f ds :
  NoDup ds →
  held_in (upd_dep d f st) ds
  = held_in st ds
    + (if decide (d ∈ ds)
       then b2z (holding_acq (f (dep st d))) - b2z (holding_acq (dep st d)) else 0).
Proof.
  induction 1 as [|e ds He Hds IH]; simpl.
  { lia. }
  rewrite dep_upd_dep, IH. destruct (decide (e = d)) as [->|Hne].
  - rewrite (decide_False (P:=d ∈ ds)) by done.
    rewrite decide_True by (by left). lia.
  - destruct (decide (d ∈ ds)).
    + rewrite decide_True by (by right). lia.
    + rewrite decide_False; [lia|]. intros [?|?]%elem_of_cons; by subst.
Qed.

Lemma held_in_nonneg st ds : 0 ≤ held_in st ds.
Proof.
  induction ds as [|d ds IH]; simpl; [lia|].
  pose proof (b2z_bounds (holding_acq (dep st d))). lia.
Qed.

(** *** Steps that the invariant does not see *)

Lemma inv_same G c ex st st' :
  InvG exact G c ex st → svcs st' = svcs st → deps st' = deps st →
  prop_queue st ⊆ prop_queue st' → InvG exact G c ex st'.
Proof.
  intros [Hg Hd Hal Ha Hp] Hs He Hq.
  assert (∀ x, svc st' x = svc st x) as Hsvc by (intros; unfold svc; by rewrite Hs).
  assert (∀ d, dep st' d = dep st d) as Hdep by (intros; unfold dep; by rewrite He).
  split; [| done | by unfold alloc_ok; rewrite He | |].
  - unfold graph_is. setoid_rewrite Hsvc. setoid_rewrite Hdep. apply Hg.
  - intros x. rewrite Hsvc, (held_in_ext st) by (intros; by rewrite Hdep). apply Ha.
  - intros x f. rewrite Hsvc. intros Hex Hfl. apply Hq. eauto.
Qed.

Lemma graph_is_upd G x f st :
  keeps f depends_on → keeps f dependents → graph_is G st → graph_is G (upd x f st).
Proof.
  intros Hk1 Hk2 (H1 & H2 & H3).
  split; [|split; [|exact H3]]; intros y; rewrite svc_upd; case_decide; subst;
    rewrite ?Hk1, ?Hk2; done.
Qed.

Lemma graph_is_upd_dep G d f st :
  keeps f dep_from → keeps f dep_to → keeps f dep_type →
  graph_is G st → graph_is G (upd_dep d f st).
Proof.
  intros Hk1 Hk2 Hk3 (H1 & H2 & H3 & H4 & H5).
  split; [exact H1|split; [exact H2|]].
  split; [|split]; intros e; rewrite dep_upd_dep; case_decide; subst;
    rewrite ?Hk1, ?Hk2, ?Hk3; done.
Qed.

Lemma alloc_ok_upd_dep G d f st : alloc_ok G st → alloc_ok G (upd_dep d f st).
Proof.
  intros H x e He%H. unfold upd_dep; rsimpl. rewrite dom_insert_L. set_solver.
Qed.

Lemma held_in_upd x f st ds : held_in (upd x f st) ds = held_in st ds.
Proof. by apply held_in_ext. Qed.

(** An update that keeps the count and sets no propagation flag. *)
Lemma inv_upd G c ex x f st :
  keeps f depends_on → keeps f dependents → keeps f start_explicit →
  keeps f required_by → sets_no_flag f →
  InvG exact G c ex st → InvG exact G c ex (upd x f st).
Proof.
  intros Hk1 Hk2 Hk3 Hk4 Hfl [Hg Hd Hal Ha Hp].
  split; [by apply graph_is_upd | done | exact Hal | |].
  - intros y. specialize (Ha y). rewrite held_in_upd, svc_upd.
    case_decide; [|done]. by rewrite Hk3, Hk4.
  - intros y fl Hex. rewrite svc_upd. case_decide; [|by eauto].
    intros Hf%Hfl. subst. by eapply Hp.
Qed.

Lemma inv_upd_dep G c ex d f st :
  keeps f dep_from → keeps f dep_to → keeps f dep_type → keeps f holding_acq →
  InvG exact G c ex st → InvG exact G c ex (upd_dep d f st).
Proof.
  intros Hk1 Hk2 Hk3 Hk4 [Hg Hd Hal Ha Hp].
  split; [by apply graph_is_upd_dep | done | by apply alloc_ok_upd_dep | | done].
  intros y. specialize (Ha y). rewrite (held_in_ext st); [done|].
  intros e _. rewrite dep_upd_dep. by case_decide; subst; rewrite ?Hk4.
Qed.

(** Setting flags and queueing the service for propagation. *)
Lemma inv_add_prop_queue G c ex x st :
  InvG exact G c ex st → InvG exact G c ex (add_prop_queue x st).
Proof.
  intros H. unfold add_prop_queue. destruct (slist_is_queued _ _); [done|].
  eapply inv_same; eauto. rsimpl. set_solver.
Qed.

Lemma elem_of_add_prop_queue x y st :
  y ∈ prop_queue (add_prop_queue x st) ↔ y = x ∨ y ∈ prop_queue st.
Proof.
  unfold add_prop_queue. destruct (slist_is_queued _ _) eqn:Hq; rsimpl; [|set_solver].
  apply slist_is_queued_in in Hq. split; [auto|]. by intros [->|].
Qed.

Lemma svc_add_prop_queue x y st : svc (add_prop_queue x st) y = svc st y.
Proof. unfold add_prop_queue. by destruct (slist_is_queued _ _). Qed.

Lemma dep_add_prop_queue x d st : dep (add_prop_queue x st) d = dep st d.
Proof. unfold add_prop_queue. by destruct (slist_is_queued _ _). Qed.

Lemma inv_flag G c ex x f st :
  keeps f depends_on → keeps f dependents → keeps f start_explicit →
  keeps f required_by →
  InvG exact G c ex st → InvG exact G c ex (add_prop_queue x (upd x f st)).
Proof.
  intros Hk1 Hk2 Hk3 Hk4 [Hg Hd Hal Ha Hp].
  assert (∀ y, svc (add_prop_queue x (upd x f st)) y
               = if decide (y = x) then f (svc st y) else svc st y) as Hs.
  { intros. by rewrite svc_add_prop_queue, svc_upd. }
  split; [| done | | |].
  - pose proof (graph_is_upd G x f st Hk1 Hk2 Hg) as (H1 & H2 & H3).
    split; [|split]; intros; rewrite ?svc_add_prop_queue, ?dep_add_prop_queue; auto.
    setoid_rewrite dep_add_prop_queue. apply H3.
  - unfold alloc_ok, add_prop_queue. by destruct (slist_is_queued _ _).
  - intros y. specialize (Ha y).
    rewrite (held_in_ext st) by (intros; by rewrite dep_add_prop_queue).
    rewrite Hs. case_decide; [|done]. by rewrite Hk3, Hk4.
  - intros y fl Hex. rewrite Hs, elem_of_add_prop_queue.
    case_decide; [by left|]. right; eauto.
Qed.

(** *** Steps that move a credit *)

Lemma inv_dec G c ex x st :
  InvG exact G (credit x c) ex st →
  InvG exact G c ex (upd x (λ r, r <| required_by ::= (λ n, n - 1) |>) st).
Proof.
  intros [Hg Hd Hal Ha Hp].
  split; [apply graph_is_upd; auto with dinit | done | exact Hal | |].
  - intros y. specialize (Ha y). rewrite held_in_upd, svc_upd. revert Ha.
    unfold credit, acq_rel. case_decide; rsimpl; destruct exact; lia.
  - intros y fl Hex. rewrite svc_upd. case_decide; [|by apply Hp].
    intros Hf. apply (Hp y fl Hex). by destruct fl.
Qed.

Lemma inv_inc G c ex x st :
  InvG exact G c ex st →
  InvG exact G (credit x c) ex (upd x (λ r, r <| required_by ::= Z.add 1 |>) st).
Proof.
  intros [Hg Hd Hal Ha Hp].
  split; [apply graph_is_upd; auto with dinit | done | exact Hal | |].
  - intros y. specialize (Ha y). rewrite held_in_upd, svc_upd. revert Ha.
    unfold credit, acq_rel. case_decide; rsimpl; destruct exact; lia.
  - intros y fl Hex. rewrite svc_upd. case_decide; [|by apply Hp].
    intros Hf. apply (Hp y fl Hex). by destruct fl.
Qed.

Lemma inv_drop_explicit G c ex x st :
  start_explicit (svc st x) = true →
  InvG exact G c ex st →
  InvG exact G (credit x c) ex (upd x (λ r, r <| start_explicit := false |>) st).
Proof.
  intros He [Hg Hd Hal Ha Hp].
  split; [apply graph_is_upd; auto with dinit | done | exact Hal | |].
  - intros y. specialize (Ha y). rewrite held_in_upd, svc_upd. revert Ha.
    unfold credit, acq_rel. case_decide; subst; rsimpl; rewrite ?He; simpl;
      destruct exact; lia.
  - intros y fl Hex. rewrite svc_upd. case_decide; [|by apply Hp].
    intros Hf. apply (Hp y fl Hex). by destruct fl.
Qed.

Lemma inv_take_explicit G c ex x st :
  start_explicit (svc st x) = false →
  InvG exact G (credit x c) ex st →
  InvG exact G c ex (upd x (λ r, r <| start_explicit := true |>) st).
Proof.
  intros He [Hg Hd Hal Ha Hp].
  split; [apply graph_is_upd; auto with dinit | done | exact Hal | |].
  - intros y. specialize (Ha y). rewrite held_in_upd, svc_upd. revert Ha.
    unfold credit, acq_rel. case_decide; subst; rsimpl; rewrite ?He; simpl;
      destruct exact; lia.
  - intros y fl Hex. rewrite svc_upd. case_decide; [|by apply Hp].
    intros Hf. apply (Hp y fl Hex). by destruct fl.
Qed.

(** The change of [holding_acq] of a link of [x] changes the count of [x] and
    of no other service. *)
Lemma held_in_set_holding G x d b st y :
  dpts_ok G → d ∈ g_dpts G x →
  held_in (upd_dep d (λ r, r <| holding_acq := b |>) st) (g_dpts G y)
  = held_in st (g_dpts G y)
    + (if decide (y = x) then b2z b - b2z (holding_acq (dep st d)) else 0).
Proof.
  intros Hd Hin. rewrite held_in_upd_dep by apply Hd. rsimpl.
  destruct (decide (y = x)) as [->|Hne].
  - by rewrite decide_True.
  - rewrite decide_False; [done|].
    intros Hin'. destruct Hne.
    rewrite <- (proj2 (Hd x) d Hin). symmetry. by apply (proj2 (Hd y)).
Qed.

Lemma inv_drop_link G c ex x d st :
  d ∈ g_dpts G x → holding_acq (dep st d) = true →
  InvG exact G c ex st →
  InvG exact G (credit x c) ex (upd_dep d (λ r, r <| holding_acq := false |>) st).
Proof.
  intros Hin Hh [Hg Hd Hal Ha Hp].
  split; [apply graph_is_upd_dep; auto with dinit | done | by apply alloc_ok_upd_dep | | done].
  intros y. specialize (Ha y). revert Ha.
  rewrite (held_in_set_holding G x) by done. rewrite Hh.
  change (svc (upd_dep d _ st) y) with (svc st y).
  unfold credit, acq_rel. case_decide; simpl; destruct exact; lia.
Qed.

(** Entering a link in the books: exactly when it was not held before; a link
    that was already held loses a credit, which only the lower bound allows. *)
Lemma inv_take_link G c ex x d st :
  d ∈ g_dpts G x → exact = false ∨ holding_acq (dep st d) = false →
  InvG exact G (credit x c) ex st →
  InvG exact G c ex (upd_dep d (λ r, r <| holding_acq := true |>) st).
Proof.
  intros Hin Hh [Hg Hd Hal Ha Hp].
  split; [apply graph_is_upd_dep; auto with dinit | done | by apply alloc_ok_upd_dep | | done].
  intros y. specialize (Ha y). revert Ha.
  rewrite (held_in_set_holding G x) by done.
  change (svc (upd_dep d _ st) y) with (svc st y).
  unfold credit, acq_rel.
  pose proof (b2z_bounds (holding_acq (dep st d))).
  destruct Hh as [->| ->]; case_decide; simpl; try destruct exact; lia.
Qed.

(** *** Opening and closing the propagation obligation of one flag *)

Lemma inv_flag_open G c ex x fl f st :
  keeps f depends_on → keeps f dependents → keeps f start_explicit →
  keeps f required_by →
  sets_only_flag fl f →
  InvG exact G c ex st → InvG exact G c (exempt x fl ex) (upd x f st).
Proof.
  intros Hk1 Hk2 Hk3 Hk4 Hfl [Hg Hd Hal Ha Hp].
  split; [by apply graph_is_upd | done | exact Hal | |].
  - intros y. specialize (Ha y). rewrite held_in_upd, svc_upd.
    case_decide; [|done]. by rewrite Hk3, Hk4.
  - intros y fl'. unfold exempt. rewrite svc_upd. intros [Hex Hne]%orb_false_iff.
    case_decide; [|by eauto]. subst.
    rewrite bool_decide_eq_true_2 in Hne by done.
    apply bool_decide_eq_false in Hne. intros Hf%Hfl; [|done]. by eapply Hp.
Qed.

Lemma inv_exempt G c ex x fl st :
  InvG exact G c ex st → InvG exact G c (exempt x fl ex) st.
Proof.
  intros [Hg Hd Hal Ha Hp]. split; [done..|].
  intros y fl' [Hex _]%orb_false_iff. by apply Hp.
Qed.

Lemma inv_exempt_clear G c ex x fl st :
  flag fl (svc st x) = false →
  InvG exact G c (exempt x fl ex) st → InvG exact G c ex st.
Proof.
  intros Hfl [Hg Hd Hal Ha Hp]. split; [done..|].
  intros y fl' Hex Hf. apply (Hp y fl'); [|done].
  unfold exempt. rewrite Hex. simpl.
  destruct (decide (y = x)) as [->|]; [|by rewrite bool_decide_eq_false_2].
  destruct (decide (fl' = fl)) as [->|]; [congruence|].
  by rewrite (bool_decide_eq_false_2 (fl' = fl)), andb_false_r.
Qed.

Lemma inv_exempt_queued G c ex x fl st :
  x ∈ prop_queue st →
  InvG exact G c (exempt x fl ex) st → InvG exact G c ex st.
Proof.
  intros Hq [Hg Hd Hal Ha Hp]. split; [done..|].
  intros y fl' Hex Hf. destruct (decide (y = x)) as [->|Hne]; [done|].
  apply (Hp y fl'); [|done]. unfold exempt. rewrite Hex. simpl.
  by rewrite bool_decide_eq_false_2.
Qed.

Lemma inv_flag_close G c ex x fl st :
  InvG exact G c (exempt x fl ex) st →
  InvG exact G c ex (when (flag fl (svc st x)) (add_prop_queue x) st).
Proof.
  intros H. destruct (flag fl (svc st x)) eqn:Hf; simpl.
  - apply (inv_exempt_queued _ _ _ x fl).
    + apply elem_of_add_prop_queue. by left.
    + by apply inv_add_prop_queue.
  - by eapply inv_exempt_clear.
Qed.
End steps.

(** ** The automation of the traversal

    [istep] takes one statement of an operation: it opens a [let!], a [when], an
    [if] or a loop, and closes an update with the step lemma that fits. *)

#[export] Hint Extern 1 (sets_no_flag _) =>
  (intros [] ?; unfold flag; rsimpl; intros; solve [done | assumption]) : dinit.
#[export] Hint Extern 1 (sets_only_flag _ _) =>
  (intros [] ?; unfold flag; rsimpl; intros; solve [done | assumption]) : dinit.

Ltac ikeeps := solve [auto with dinit nocore].

#[export] Hint Extern 5 (InvG _ _ _ _ (upd _ _ _)) =>
  (apply inv_upd; [ikeeps..|]) : dinit.
#[export] Hint Extern 5 (InvG _ _ _ _ (upd_dep _ _ _)) =>
  (apply inv_upd_dep; [ikeeps..|]) : dinit.
#[export] Hint Extern 4 (InvG _ _ _ _ (add_prop_queue ?x (upd ?x _ _))) =>
  (apply inv_flag; [ikeeps..|]) : dinit.
#[export] Hint Extern 6 (InvG _ _ _ _ (add_prop_queue _ _)) =>
  (apply inv_add_prop_queue) : dinit.

Ltac istep :=
  cbv zeta;
  lazymatch goal with
  | |- InvG ?e ?G ?c ?ex (seq ?a _) =>
      lazymatch type of a with
      | prod _ _ => apply (seq_pair_inv (InvG e G c ex)); [|intros ? ? ?]
      | _ => apply (seq_inv (InvG e G c ex)); [|intros ? ?]
      end
  | |- InvG _ _ _ _ (when _ _ _) => apply when_inv; [|intros ? _]
  | |- InvG _ _ _ _ (for_each _ _ _) => apply for_each_inv; [|intros ? ? ? ?]
  | |- InvG _ _ _ _ (add_prop_queue ?x (upd ?x _ _)) => apply inv_flag; [ikeeps..|]
  | |- InvG _ _ _ _ (add_prop_queue _ _) => apply inv_add_prop_queue
  | |- InvG _ _ _ _ (upd _ _ _) => apply inv_upd; [ikeeps..|]
  | |- InvG _ _ _ _ (upd_dep _ _ _) => apply inv_upd_dep; [ikeeps..|]
  | |- InvG _ _ _ _ (match ?b with _ => _ end) => destruct b eqn:?
  | |- InvG _ _ _ _ (fst (match ?b with _ => _ end)) => destruct b eqn:?
  end.

(** [isolve] goes through a whole operation; what is left are the steps that
    move a credit. *)
Ltac isolve := repeat first [assumption | solve [eauto 8 with dinit nocore] | istep].

(** ** What the derived classes promise

    A virtual method that does not call back changes only the state and desired
    state of the service, the extension state and the trace. *)
Record leaf_step {X} (x : sid) (st st' : sys X) : Prop := {
  ls_other : ∀ y, y ≠ x → svc st' y = svc st y;
  ls_same : svc st' x = (svc st x) <| service_state := service_state (svc st' x) |>
                                 <| desired_state := desired_state (svc st' x) |>;
  ls_deps : deps st' = deps st;
  ls_active : active_services st' = active_services st;
  ls_records : records st' = records st;
  ls_enabled : restart_enabled st' = restart_enabled st;
  ls_console : console_queue st' = console_queue st;
  ls_prop : prop_queue st' = prop_queue st;
  ls_stop : stop_queue st' = stop_queue st;
  ls_fault : fault st' = fault st
}.

(** The invariant with the graph hidden, for operations that can load services
    and so extend the graph. *)
Definition InvE {X} (exact : bool) (c : sid → Z) (ex : sid → prop_flag → bool)
    (st : sys X) : Prop :=
  ∃ G, links_ok G ∧ InvG exact G c ex st.

(** Closed under changes of the trace and of the extension state. *)
Definition ext_closed {X} (P : sys X → Prop) : Prop :=
  ∀ st tr e, P st → P (st <| trace := tr |> <| ext := e |>).

Class ServiceVirtualLaws (X : Type) `{!ServiceVirtual X} := {
  interrupt_start_leaf x (st : sys X) : leaf_step x st (interrupt_start x st).1;
  becoming_inactive_leaf x (st : sys X) : leaf_step x st (becoming_inactive x st);
  check_restart_leaf x (st : sys X) : leaf_step x st (check_restart x st).1;
  load_service_inv exact c ex name (st : sys X) :
    InvE exact c ex st → InvE exact c ex (load_service name st).1;
  load_service_fault name (st : sys X) : fault (load_service name st).1 = fault st;
  load_service_console name (st : sys X) :
    console_queue (load_service name st).1 = console_queue st;
  (** Enabling the console log only talks to the log; disabling it may also
      hand the console to a waiting service. *)
  enable_console_log_true (P : sys X → Prop) pull st :
    ext_closed P → P st → P (enable_console_log pull true st);
  enable_console_log_false (P : sys X → Prop) pull st :
    ext_closed P → (∀ s, P s → P (pull s)) → P st → P (enable_console_log pull false st)
}.

Section nest.
Context {X : Type} `{!ServiceVirtual X} `{!ServiceVirtualLaws X} (exact : bool).
Implicit Types (st : sys X) (x y : sid) (d : did) (c : sid → Z)
  (ex : sid → prop_flag → bool) (G : graph).

Lemma inv_leaf G c ex x st st' :
  leaf_step x st st' → InvG exact G c ex st → InvG exact G c ex st'.
Proof.
  intros Hl H.
  pose (f := λ r : service_record, r <| service_state := service_state (svc st' x) |>
                  <| desired_state := desired_state (svc st' x) |>).
  assert (InvG exact G c ex (upd x f st)) as Hu by (apply inv_upd; auto with dinit).
  assert (∀ y, svc st' y = svc (upd x f st) y) as Hsvc.
  { intros y. rewrite svc_upd. case_decide as Hy; subst.
    - apply (ls_same _ _ _ Hl).
    - by apply (ls_other _ _ _ Hl). }
  assert (∀ d, dep st' d = dep (upd x f st) d) as Hdep
    by (intros; unfold dep; by rewrite (ls_deps _ _ _ Hl)).
  destruct Hu as [Hg Hd Hal Ha Hp]. split; [| done | by unfold alloc_ok; rewrite (ls_deps _ _ _ Hl) | |].
  - unfold graph_is. setoid_rewrite Hsvc. setoid_rewrite Hdep. apply Hg.
  - intros y. rewrite Hsvc, (held_in_ext (upd x f st)) by (intros; by rewrite Hdep).
    apply Ha.
  - intros y fl Hex Hf. rewrite Hsvc in Hf. rewrite (ls_prop _ _ _ Hl).
    by apply (Hp y fl).
Qed.

Lemma inv_interrupt_start G c ex x st :
  InvG exact G c ex st → InvG exact G c ex (interrupt_start x st).1.
Proof. eapply inv_leaf, interrupt_start_leaf. Qed.
Lemma inv_check_restart G c ex x st :
  InvG exact G c ex st → InvG exact G c ex (check_restart x st).1.
Proof. eapply inv_leaf, check_restart_leaf. Qed.
Lemma inv_becoming_inactive G c ex x st :
  InvG exact G c ex st → InvG exact G c ex (becoming_inactive x st).
Proof. eapply inv_leaf, becoming_inactive_leaf. Qed.

Lemma inv_emit G c ex a st : InvG exact G c ex st → InvG exact G c ex (emit a st).
Proof. intros H. by eapply inv_same. Qed.
Lemma inv_notify G c ex x ev st :
  InvG exact G c ex st → InvG exact G c ex (notify_listeners x ev st).
Proof. apply inv_emit. Qed.
Lemma inv_set_fault G c ex st :
  InvG exact G c ex st → InvG exact G c ex (set_fault st).
Proof. intros H. by eapply inv_same. Qed.
Lemma inv_add_transition_queue G c ex x st :
  InvG exact G c ex st → InvG exact G c ex (add_transition_queue x st).
Proof.
  intros H. unfold add_transition_queue. destruct (slist_is_queued _ _); [done|]. by eapply inv_same.
Qed.
Lemma inv_unqueue_console G c ex x st :
  InvG exact G c ex st → InvG exact G c ex (unqueue_console x st).
Proof.
  intros H. unfold unqueue_console. case_bool_decide; [|done]. by eapply inv_same.
Qed.
Lemma inv_service_active G c ex x st :
  InvG exact G c ex st → InvG exact G c ex (service_active x st).
Proof. intros H. by eapply inv_same. Qed.
Lemma inv_service_inactive G c ex x st :
  InvG exact G c ex st → InvG exact G c ex (service_inactive x st).
Proof. intros H. by eapply inv_same. Qed.
Lemma inv_ext G c ex : ext_closed (InvG (X:=X) exact G c ex).
Proof. intros st tr e H. by eapply inv_same. Qed.

#[local] Hint Resolve inv_emit inv_notify inv_set_fault inv_add_transition_queue
  inv_unqueue_console inv_service_active inv_service_inactive inv_interrupt_start
  inv_check_restart inv_becoming_inactive : dinit.

Lemma inv_dependency_started G c ex x st :
  InvG exact G c ex st → InvG exact G c ex (dependency_started x st).
Proof. intros H. unfold dependency_started. isolve. Qed.
Lemma inv_dependent_stopped G c ex x st :
  InvG exact G c ex st → InvG exact G c ex (dependent_stopped x st).
Proof. intros H. unfold dependent_stopped. isolve. Qed.
Lemma inv_forced_stop G c ex x st :
  InvG exact G c ex st → InvG exact G c ex (forced_stop x st).
Proof. intros H. unfold forced_stop. isolve. Qed.
#[local] Hint Resolve inv_dependency_started inv_dependent_stopped inv_forced_stop : dinit.
Lemma inv_unrecoverable_stop G c ex x st :
  InvG exact G c ex st → InvG exact G c ex (unrecoverable_stop x st).
Proof. intros H. unfold unrecoverable_stop. isolve. Qed.
#[local] Hint Resolve inv_unrecoverable_stop : dinit.

(** [require] counts an acquisition that its caller enters in the link. *)
Lemma inv_require G c ex x st :
  InvG exact G c ex st → InvG exact G (credit x c) ex (require x st).
Proof.
  intros H. unfold require. cbv zeta.
  apply (seq_inv (InvG exact G (credit x c) ex)); [by apply inv_inc|].
  intros s Hs. isolve.
Qed.

Section with_do_stop.
Context (rec : sid → bool → sys X → sys X) (G : graph).
Context (rec_inv : ∀ c ex y w st, InvG exact G c ex st → InvG exact G c ex (rec y w st)).
#[local] Hint Resolve rec_inv : dinit.

(** [release] gives back one acquisition. *)
Lemma inv_release_body c ex x b st :
  InvG exact G (credit x c) ex st → InvG exact G c ex (release_body rec x b st).
Proof.
  intros H. unfold release_body.
  apply (seq_inv (InvG exact G c ex)); [by apply inv_dec|]. intros s1 H1.
  destruct (_ =? 0); [|done].
  istep; [isolve|]. istep; [isolve|]. istep; [done|].
  apply (seq_inv (InvG exact G c (exempt x F_release ex))).
  { apply inv_flag_open; auto with dinit. }
  intros s3 H3.
  apply (seq_inv (InvG exact G c (exempt x F_release ex))); [isolve|]. intros s4 H4.
  apply (seq_inv (InvG exact G c ex)).
  { by apply (inv_flag_close _ _ _ _ _ F_release). }
  intros s5 H5. isolve.
Qed.

Lemma inv_release_explicit c ex x b st :
  start_explicit (svc st x) = true →
  InvG exact G c ex st →
  InvG exact G c ex (release_body rec x b
    (upd x (λ r, r <| start_explicit := false |>) st)).
Proof. intros He H. by apply inv_release_body, inv_drop_explicit. Qed.

Lemma inv_release_link c ex x d b st :
  d ∈ g_dpts G x → holding_acq (dep st d) = true →
  InvG exact G c ex st →
  InvG exact G c ex (release_body rec x b
    (upd_dep d (λ r, r <| holding_acq := false |>) st)).
Proof. intros Hd Hh H. by apply inv_release_body, (inv_drop_link _ _ _ _ x). Qed.

Lemma inv_stop_dependents_turn c ex x fr rd d st b :
  d ∈ g_dpts G x → InvG exact G c ex st →
  InvG exact G c ex (stop_dependents_turn rec x fr rd d (st, b)).1.
Proof.
  intros Hd H. unfold stop_dependents_turn.
  assert (Hfst : ∀ (s : sys X) (b : bool), InvG exact G c ex s → InvG exact G c ex (s, b).1)
    by done.
  destruct (is_hard _); [|destruct (negb fr); [|done]]; cbv zeta.
  - apply (seq_inv (InvG exact G c ex)); [isolve|]. intros s1 H1.
    apply (seq_inv (InvG exact G c ex) (λ p, InvG exact G c ex p.1)); [|by intros; apply Hfst].
    destruct (bool_decide _); [|done]. destruct (bool_decide _); [|isolve].
    destruct (bool_decide _); [|done].
    istep; [isolve|]. istep; [|isolve].
    apply when_inv; [done|]. intros He _. by apply inv_release_explicit.
  - apply (seq_inv (InvG exact G c ex) (λ p, InvG exact G c ex p.1)); [isolve|]. intros s1 H1.
    apply (seq_inv (InvG exact G c ex) (λ p, InvG exact G c ex p.1)); [|done].
    apply when_inv; [done|]. intros He _. by apply inv_release_link.
Qed.

Lemma inv_stop_dependents_body c ex x fr rd st :
  InvG exact G c ex st → InvG exact G c ex (stop_dependents_body rec x fr rd st).1.
Proof.
  intros H. unfold stop_dependents_body.
  apply (for_each_inv (λ p, InvG exact G c ex p.1)); [done|].
  intros d [s b] Hin Hs. apply inv_stop_dependents_turn; [|done].
  by rewrite (proj1 (proj2 (inv_graph _ _ _ _ _ H))) in Hin.
Qed.

Lemma inv_do_stop_tail c ex x b st :
  InvG exact G c ex st → InvG exact G c ex (do_stop_tail x b st).
Proof. intros H. unfold do_stop_tail, begin_stop. isolve. Qed.

Lemma inv_do_stop_body c ex x w st :
  InvG exact G c ex st → InvG exact G c ex (do_stop_body rec x w st).
Proof.
  intros H. unfold do_stop_body. destruct (is_start_pinned _); [done|].
  istep; [isolve|]. istep; [isolve|]. cbv zeta.
  apply (seq_pair_inv (InvG exact G c ex)).
  { istep; [|done]. unfold seq.
    pose proof (inv_check_restart G c ex x s0 H1) as Hc.
    destruct (check_restart x s0) as [s2 b2]. simpl in *. isolve. }
  intros s2 fr H2. istep.
  { apply when_inv; [done|]. intros [_ He]%andb_prop _. by apply inv_release_explicit. }
  apply (seq_pair_inv (InvG exact G c ex)); [by apply inv_stop_dependents_body|].
  intros s4 b4 H4. by apply inv_do_stop_tail.
Qed.
End with_do_stop.

Lemma inv_do_stop_fuel G n : ∀ c ex x w st,
  InvG exact G c ex st → InvG exact G c ex (do_stop_fuel n x w st).
Proof.
  induction n as [|n IH]; intros c ex x w st H; simpl; [auto with dinit|].
  by apply inv_do_stop_body.
Qed.
End nest.

#[export] Hint Resolve inv_emit inv_notify inv_set_fault inv_add_transition_queue
  inv_unqueue_console inv_service_active inv_service_inactive inv_interrupt_start
  inv_check_restart inv_becoming_inactive inv_dependency_started
  inv_dependent_stopped inv_forced_stop inv_unrecoverable_stop : dinit.
