(* ===== verification/ServiceInvOps.v ===== *)
(** * Every operation of the service set keeps the invariant

    The traversal of [ServiceInv] continued: starting, the transitions, the
    propagation phase, the graph operations and the operations of the set. *)

From S2P Require Import Prelude ServiceData Service ServiceInv.

Section operations.
Context {X : Type} `{!ServiceVirtual X} `{!ServiceVirtualLaws X} (exact : bool).
Implicit Types (st : sys X) (x y : sid) (d : did) (c : sid → Z)
  (ex : sid → prop_flag → bool) (G : graph).

Lemma inv_do_stop G c ex x w st :
  InvG exact G c ex st → InvG exact G c ex (do_stop x w st).
Proof. apply inv_do_stop_fuel. Qed.
#[local] Hint Resolve inv_do_stop : dinit.

Lemma inv_release G c ex x b st :
  InvG exact G (credit x c) ex st → InvG exact G c ex (release x b st).
Proof. apply inv_release_body. intros. by apply inv_do_stop. Qed.

Lemma inv_release_link' G c ex x d b st :
  d ∈ g_dpts G x → holding_acq (dep st d) = true →
  InvG exact G c ex st →
  InvG exact G c ex (release x b (upd_dep d (λ r, r <| holding_acq := false |>) st)).
Proof. intros. apply inv_release. by apply (inv_drop_link _ _ _ _ x). Qed.

Lemma inv_release_explicit' G c ex x b st :
  start_explicit (svc st x) = true → InvG exact G c ex st →
  InvG exact G c ex (release x b (upd x (λ r, r <| start_explicit := false |>) st)).
Proof. intros. by apply inv_release, inv_drop_explicit. Qed.

(** Membership in the lists of the state and of the graph. *)
Lemma inv_dpts_in G c ex st x d :
  d ∈ dependents (svc st x) → InvG exact G c ex st → d ∈ g_dpts G x.
Proof. intros Hd H. revert Hd. by rewrite (proj1 (proj2 (inv_graph _ _ _ _ _ H))). Qed.
Lemma inv_deps_in G c ex st x d :
  d ∈ depends_on (svc st x) → InvG exact G c ex st → d ∈ g_deps G x.
Proof. intros Hd H. revert Hd. by rewrite (proj1 (inv_graph _ _ _ _ _ H)). Qed.
Lemma inv_dep_to G c ex st d :
  InvG exact G c ex st → dep_to (dep st d) = g_to G d.
Proof. intros H. by apply (inv_graph _ _ _ _ _ H). Qed.

Lemma inv_release_dependencies G c ex x st :
  links_ok G → InvG exact G c ex st → InvG exact G c ex (release_dependencies x st).
Proof.
  intros Hl H. unfold release_dependencies. apply for_each_inv; [done|].
  intros d s Hin Hs. apply (inv_deps_in G c ex) in Hin; [|done].
  apply when_inv; [done|]. intros Hh _. unfold seq.
  rewrite dep_upd_dep, decide_True by done. rsimpl.
  apply inv_release_link'; [|done..].
  rewrite (inv_dep_to _ _ _ _ _ Hs). by apply (proj2 (Hl x) d).
Qed.

Lemma inv_stop G c ex x b st :
  InvG exact G c ex st → InvG exact G c ex (stop x b st).
Proof.
  intros H. unfold stop. istep.
  { apply when_inv; [done|]. intros He _. unfold seq.
    by apply inv_dec, inv_drop_explicit. }
  istep; [isolve|]. destruct (is_start_pinned _); [done|].
  apply (seq_inv (λ p, InvG exact G c ex p.2)).
  - destruct (_ =? 0); [|done].
    apply (seq_inv (InvG exact G c (exempt x F_release ex))).
    { apply inv_flag_open; auto with dinit. }
    intros s2 H2. by apply (inv_flag_close _ _ _ _ _ F_release).
  - intros [b' s2] H2. simpl in *. isolve.
Qed.

Lemma inv_restart G c ex x st :
  InvG exact G c ex st → InvG exact G c ex (restart x st).1.
Proof.
  intros H. unfold restart. destruct (bool_decide _); [|done].
  unfold seq; simpl. isolve.
Qed.

Lemma inv_start_check_dependencies G c ex x st :
  InvG exact G c ex st → InvG exact G c ex (start_check_dependencies x st).1.
Proof.
  intros H. unfold start_check_dependencies.
  apply (seq_inv (λ p, InvG exact G c ex p.1)).
  - apply (for_each_inv (λ p, InvG exact G c ex p.1)); [done|].
    intros d [s b] _ Hs. unfold start_check_turn.
    destruct (_ && _); [done|]. destruct (bool_decide _); [|done]. simpl in *. isolve.
  - intros [s b] Hs. simpl in Hs.
    apply (seq_inv (InvG exact G c ex) (λ p, InvG exact G c ex p.1)); [|done].
    unfold hold_back_turn. isolve.
Qed.
#[local] Hint Resolve inv_start_check_dependencies : dinit.

Lemma inv_initiate_start G c ex x st :
  InvG exact G c ex st → InvG exact G c ex (initiate_start x st).
Proof. intros H. unfold initiate_start. isolve. Qed.
#[local] Hint Resolve inv_initiate_start : dinit.

Lemma inv_fail_dependent G c ex x d st :
  d ∈ g_dpts G x → InvG exact G c ex st → InvG exact G c ex (fail_dependent x d st).
Proof.
  intros Hd H. unfold fail_dependent. istep; [isolve|].
  apply when_inv; [done|]. intros Hh _. by apply inv_release_link'.
Qed.

Lemma inv_fail_start G c ex x b st :
  InvG exact G c ex st → InvG exact G c ex (fail_start x b st).
Proof.
  intros H. unfold fail_start. istep; [isolve|]. istep; [isolve|]. istep.
  { apply when_inv; [done|]. intros He _. by apply inv_release_explicit'. }
  istep; [|isolve]. apply for_each_inv; [done|].
  intros d s' Hin Hs'. apply inv_fail_dependent; [|done]. eapply inv_dpts_in; eassumption.
Qed.
#[local] Hint Resolve inv_fail_start : dinit.

Lemma inv_reattach_dependent G c ex x d st :
  d ∈ g_dpts G x → InvG exact G c ex st →
  InvG exact G c ex (reattach_dependent x d st).
Proof.
  intros Hd H. unfold reattach_dependent. destruct (is_hard _); [done|].
  apply when_inv; [done|]. intros [Hh%negb_true_iff _]%andb_prop _.
  rewrite <- (upd_upd_dep x d). apply (inv_take_link _ _ _ _ x); [done| by right|].
  by apply inv_inc.
Qed.

Lemma inv_do_start G c ex x st :
  InvG exact G c ex st → InvG exact G c ex (do_start x st).
Proof.
  intros H. unfold do_start. istep; [isolve|].
  destruct (pinned_stopped _); [isolve|].
  istep.
  { apply when_inv; [done|]. intros _ _. apply for_each_inv; [done|].
    intros d s' Hin Hs'. apply inv_reattach_dependent; [|done]. eapply inv_dpts_in; eassumption. }
  destruct (bool_decide _); [isolve|]. istep; [isolve|].
  apply (seq_inv (InvG exact G c (exempt x F_require ex))).
  { apply inv_flag_open; auto with dinit. }
  intros s3 H3.
  apply (seq_inv (InvG exact G c (exempt x F_require ex))); [isolve|]. intros s4 H4.
  apply (seq_inv (InvG exact G c ex)); [|isolve].
  by apply (inv_flag_close _ _ _ _ _ F_require).
Qed.
#[local] Hint Resolve inv_do_start : dinit.

Lemma inv_start G c ex x st :
  InvG exact G c ex st → InvG exact G c ex (start x st).
Proof.
  intros H. unfold start. destruct (pinned_stopped _); [done|].
  istep; [|isolve].
  apply when_inv; [done|]. intros He%negb_true_iff _. unfold seq.
  apply inv_take_explicit; [by rewrite svc_upd_eq|]. by apply inv_inc.
Qed.

Lemma inv_break_soft_link G c ex x d st :
  d ∈ g_dpts G x → InvG exact G c ex st → InvG exact G c ex (break_soft_link x d st).
Proof.
  intros Hd H. unfold break_soft_link. destruct (is_hard _); [done|].
  istep; [isolve|]. apply when_inv; [done|]. intros Hh _. by apply inv_release_link'.
Qed.
End operations.

#[export] Hint Resolve inv_do_stop inv_start_check_dependencies inv_initiate_start
  inv_fail_start inv_do_start inv_start inv_stop : dinit.

(** ** Virtual methods that call back

    [bring_up] and [bring_down] act on the service set only through its
    operations.  The two predicates of [core_closed] are what holds before the
    console is handed on ([P]) and what holds afterwards ([Q]): a method that
    releases the console takes a state of [P] to one of [Q], everything else
    keeps both. *)

Definition core_update (f : service_record → service_record) : Prop :=
  ∀ r, f r = r <| service_state := service_state (f r) |>
               <| desired_state := desired_state (f r) |>
               <| force_stop := force_stop (f r) |>
               <| stop_reason := stop_reason (f r) |>
               <| start_skipped := start_skipped (f r) |>.

Record core_steps {X} `{!ServiceVirtual X} (P : sys X → Prop) : Prop := {
  cs_ext : ext_closed P;
  cs_upd x f st : core_update f → P st → P (upd x f st);
  cs_unrecoverable x st : P st → P (unrecoverable_stop x st);
  cs_initiate x st : P st → P (initiate_start x st);
  cs_do_stop x w st : P st → P (do_stop x w st);
  cs_unfinished st : P st → P (set_unfinished st)
}.

Record core_closed {X} `{!ServiceVirtual X} (P Q : sys X → Prop) (pull pq : sys X → sys X)
    : Prop := {
  cc_sub st : P st → Q st;
  cc_before : core_steps P;
  cc_after : core_steps Q;
  cc_pull st : P st → Q (pull st);
  cc_pq st : Q st → Q (pq st);
  cc_started x st : P st → Q (started pull x st);
  cc_failed x b b' st : P st → Q (failed_to_start pull x b b' st);
  cc_stopped x st : P st → Q (stopped pull x st)
}.

(** A [bring_up] that reports failure has not handed the console on. *)
Class ServiceBringLaws (X : Type) `{!ServiceVirtual X} `{!ServiceBring X} := {
  bring_up_closed (P Q : sys X → Prop) pull pq x st :
    core_closed P Q pull pq → P st →
    Q (bring_up pull pq x st).1
    ∧ ((bring_up pull pq x st).2 = false → P (bring_up pull pq x st).1);
  bring_down_closed (P Q : sys X → Prop) pull pq x st :
    core_closed P Q pull pq → P st → Q (bring_down pull x st)
}.

Section lifted.
Context {X : Type} `{!ServiceVirtual X} `{!ServiceVirtualLaws X} (exact : bool).
Implicit Types (st : sys X) (x y : sid) (d : did).
Context (c : sid → Z) (ex : sid → prop_flag → bool).
Abbreviation IE := (InvE exact c ex).

Lemma inve_lift (f : sys X → sys X) st :
  (∀ G, links_ok G → InvG exact G c ex st → InvG exact G c ex (f st)) → IE st → IE (f st).
Proof. intros Hf (G & Hl & H). exists G. eauto. Qed.

Lemma inve_ext : ext_closed (InvE (X:=X) exact c ex).
Proof. intros st tr e. apply (inve_lift (λ st, st <| trace := tr |> <| ext := e |>)).
  intros. by apply inv_ext. Qed.

Lemma core_update_keeps f : core_update f →
  keeps f depends_on ∧ keeps f dependents ∧ keeps f start_explicit
  ∧ keeps f required_by ∧ sets_no_flag f.
Proof.
  intros Hf. repeat split; [intros r; rewrite Hf; by rsimpl..|].
  intros fl r. rewrite Hf. by destruct fl; unfold flag; rsimpl.
Qed.

Lemma inve_upd x f st : core_update f → IE st → IE (upd x f st).
Proof.
  intros Hf%core_update_keeps. destruct Hf as (?&?&?&?&?).
  apply (inve_lift (upd x f)). intros. by apply inv_upd.
Qed.

Lemma inve_unrecoverable x st : IE st → IE (unrecoverable_stop x st).
Proof. apply inve_lift. intros. isolve. Qed.

Lemma inve_chain_to x b st : IE st → IE (chain_to x b st).
Proof.
  intros H. unfold chain_to. apply when_inv; [done|]. intros _ _.
  pose proof (load_service_inv exact c ex (start_on_completion (svc st x)) st H) as Hld.
  destruct (load_service _ st) as [s [y|]]; simpl in Hld.
  - revert Hld. apply inve_lift. intros. isolve.
  - revert Hld. apply (inve_lift (emit _)). intros. isolve.
Qed.

Context (pull : sys X → sys X) (pull_inv : ∀ st, IE st → IE (pull st)).

Lemma inve_release_console x st : IE st → IE (release_console pull x st).
Proof.
  intros H. unfold release_console. apply pull_inv. revert H.
  apply (inve_lift (upd x _)). intros. isolve.
Qed.

Lemma inve_release_fg x b st :
  IE st → IE (when b (λ st, release_console pull x (emit Reset_foreground_pgrp st)) st).
Proof.
  intros H. apply when_inv; [done|]. intros _ _. apply inve_release_console.
  revert H. apply (inve_lift (emit _)). intros. isolve.
Qed.

Lemma inve_stopped x st : IE st → IE (stopped pull x st).
Proof.
  intros H. unfold stopped. apply (seq_inv IE); [by apply inve_release_fg|].
  clear st H. intros st H.
  apply (seq_inv IE).
  { revert H. apply (inve_lift (upd x _)). intros. isolve. }
  clear st H. intros st H. cbv zeta. generalize (bool_decide (desired_state (svc st x) = service_state_t.STARTED) && negb (pinned_stopped (svc st x))). intros wr.
  apply (seq_inv IE).
  { revert H. apply inve_lift. intros G Hl H. apply when_inv; [done|]. intros _ _.
    apply for_each_inv; [done|]. intros d s Hin Hs.
    apply inv_break_soft_link; [|done]. eapply inv_dpts_in; eassumption. }
  clear st H. intros st H.
  apply (seq_inv IE).
  { revert H. apply inve_lift. intros. isolve. }
  clear st H. intros st H.
  apply (seq_inv IE).
  { revert H. apply (inve_lift (upd x _)). intros. isolve. }
  clear st H. intros st H.
  apply (seq_inv IE).
  { destruct H as (G & Hl & H). exists G. split; [done|].
    destruct wr; [isolve|]. istep; [isolve|].
    destruct (start_explicit _) eqn:He; [|isolve]. by apply inv_release_explicit'. }
  clear st H. intros st H.
  apply (seq_inv IE).
  { apply when_inv; [done|]. intros _ _. apply inve_chain_to. revert H.
    apply (inve_lift (emit _)). intros. isolve. }
  intros s. apply (inve_lift (notify_listeners x _)). intros. isolve.
Qed.

Lemma inve_failed_to_start x b b' st : IE st → IE (failed_to_start pull x b b' st).
Proof.
  intros H. unfold failed_to_start.
  assert (IE (fail_start x b st)) as H1.
  { revert H. apply inve_lift. intros. isolve. }
  apply when_inv; [done|]. intros _ _. by apply inve_stopped.
Qed.

Lemma inve_started x st : IE st → IE (started pull x st).
Proof.
  intros H. unfold started. apply (seq_inv IE); [by apply inve_release_fg|].
  clear st H. intros st (G & Hl & H). exists G. split; [done|]. isolve.
Qed.

Context (pq : sys X → sys X) (pq_inv : ∀ st, IE st → IE (pq st)).

Lemma inve_core_steps : core_steps IE.
Proof.
  split; intros; auto using inve_upd, inve_unrecoverable; [by apply inve_ext| | |].
  - revert H. apply inve_lift. intros. isolve.
  - revert H. apply inve_lift. intros. isolve.
  - revert H. apply (inve_lift set_unfinished). intros G _ H. by eapply inv_same.
Qed.

Lemma inve_core_closed : core_closed IE IE pull pq.
Proof.
  split; intros; auto using inve_core_steps, inve_started, inve_failed_to_start,
    inve_stopped.
Qed.
End lifted.

Section driver.
Context {X : Type} `{!ServiceVirtual X} `{!ServiceVirtualLaws X}.
Context `{!ServiceBring X} `{!ServiceBringLaws X}.
Implicit Types (st : sys X) (x y : sid) (d : did) (ex : sid → prop_flag → bool).

Abbreviation IE ex := (InvE (X:=X) false no_credit ex).

Section with_callbacks.
Context (pull pq : sys X → sys X).
Context (pull_inv : ∀ ex st, IE ex st → IE ex (pull st)).
Context (pq_inv : ∀ ex st, IE ex st → IE ex (pq st)).

Lemma inve_bring_up ex x st : IE ex st → IE ex (bring_up pull pq x st).1.
Proof.
  intros H. eapply (proj1 (bring_up_closed (IE ex) (IE ex) _ _ _ _ _ H)).
  Unshelve. apply inve_core_closed; auto.
Qed.

Lemma inve_queue_for_console ex x st : IE ex st → IE ex (queue_for_console pull x st).
Proof.
  intros H. unfold queue_for_console, append_console_queue. cbv zeta.
  apply (seq_inv (IE ex)).
  - destruct H as (G & Hl & H). exists G. split; [done|].
    apply (inv_same _ _ _ _ (upd x (λ r, r <| waiting_for_console := true |>) st)); [|done..].
    isolve.
  - intros s Hs. apply when_inv; [done|]. intros _ _.
    apply enable_console_log_false; [apply inve_ext|auto|done].
Qed.

Lemma inve_all_deps_started ex x st :
  IE ex st → IE ex (all_deps_started pull pq x st).
Proof.
  intros H. unfold all_deps_started. destruct (_ && _); [by apply inve_queue_for_console|].
  apply (seq_inv (IE ex)).
  { revert H. apply (inve_lift false _ _ (upd x _)). intros. isolve. }
  intros s Hs. apply (seq_pair_inv (IE ex)); [by apply inve_bring_up|].
  intros s1 [] H1; [done|]. apply inve_failed_to_start; [auto|].
  revert H1. apply (inve_lift false _ _ (upd x _)). intros. isolve.
Qed.

Lemma inve_pull_console_queue_body ex st :
  IE ex st → IE ex (pull_console_queue_body pull pq st).
Proof.
  intros H. unfold pull_console_queue_body. destruct (console_queue st) as [|x rest].
  - apply enable_console_log_true; [apply inve_ext|].
    revert H. apply (inve_lift false _ _ (emit _)). intros. isolve.
  - unfold acquired_console.
    apply (seq_inv (IE ex)).
    { destruct H as (G & Hl & H). exists G. split; [done|].
      apply inv_upd; [auto with dinit..|]. by eapply inv_same. }
    clear H. intros s H. apply (seq_inv (IE ex)).
    { revert H. apply (inve_lift false _ _ (upd x _)). intros. isolve. }
    clear H s. intros s H.
    destruct (bool_decide _); [by apply inve_release_console; auto|].
    destruct (check_deps_started _ _); [by apply inve_all_deps_started|].
    apply inve_release_console; auto.
Qed.
End with_callbacks.

Lemma inve_pull_fuel pq n :
  (∀ ex st, IE ex st → IE ex (pq st)) →
  ∀ ex st, IE ex st → IE ex (pull_console_queue_fuel pq n st).
Proof.
  intros Hpq. induction n as [|n IH]; intros ex st H; simpl.
  - revert H. apply (inve_lift false _ _ set_fault). intros. isolve.
  - by apply inve_pull_console_queue_body.
Qed.

Section with_pq.
Context (pq : sys X → sys X) (pq_inv : ∀ ex st, IE ex st → IE ex (pq st)).

Lemma inve_pull ex st : IE ex st → IE ex (pull_console_queue pq st).
Proof. by apply inve_pull_fuel. Qed.

Lemma inve_execute_transition ex x st :
  IE ex st → IE ex (execute_transition pq x st).
Proof.
  intros H. unfold execute_transition. destruct (service_state _); try done.
  - apply when_inv; [done|]. intros _ _.
    apply inve_all_deps_started; [by apply inve_pull|done|].
    revert H. apply (inve_lift false _ _ (upd x _)). intros. isolve.
  - apply when_inv; [done|]. intros _ _.
    apply (seq_inv (IE ex)).
    { revert H. apply (inve_lift false _ _ (upd x _)). intros. isolve. }
    intros s Hs. apply (seq_inv (IE ex)).
    { apply when_inv; [done|]. intros _ _.
      revert Hs. apply (inve_lift false _ _ (emit _)). intros. isolve. }
    intros s1 H1. apply (bring_down_closed (IE ex) (IE ex) _ pq); [|done].
    apply inve_core_closed; [intros; by apply inve_pull|apply pq_inv].
Qed.

Lemma inve_propagate_require ex x st :
  IE (exempt x F_require ex) st → IE ex (propagate_require x st).
Proof.
  intros H. unfold propagate_require; unfold when at 1. destruct (prop_require _) eqn:Hr.
  2: { destruct H as (G & Hl & H). exists G. split; [done|].
       by apply (inv_exempt_clear _ _ _ _ x F_require). }
  destruct H as (G & Hl & H). exists G. split; [done|].
  apply (seq_inv (InvG false G no_credit (exempt x F_require ex))).
  - apply for_each_inv; [done|]. intros d s Hin Hs.
    apply (inv_deps_in false G no_credit (exempt x F_require ex)) in Hin; [|done].
    apply when_inv; [done|]. intros _ _. unfold seq.
    apply (inv_take_link _ _ _ _ (g_to G d)); [by apply (proj2 (Hl x)) | by left|].
    rewrite (inv_dep_to _ _ _ _ _ _ Hs). by apply inv_require.
  - intros s Hs. apply (inv_exempt_clear _ _ _ _ x F_require).
    { unfold flag. rewrite svc_upd_eq. done. }
    isolve.
Qed.

Lemma inve_propagate_release ex x st :
  IE (exempt x F_release ex) st → IE ex (propagate_release x st).
Proof.
  intros (G & Hl & H). exists G. split; [done|].
  unfold propagate_release; unfold when at 1. destruct (prop_release _) eqn:Hr.
  - apply (inv_exempt_clear _ _ _ _ x F_release).
    { unfold flag. rewrite svc_upd_eq. done. }
    apply inv_upd; [auto with dinit..|]. by apply inv_release_dependencies.
  - by apply (inv_exempt_clear _ _ _ _ x F_release).
Qed.

Lemma inve_propagate_failure ex x st :
  IE (exempt x F_failure ex) st → IE ex (propagate_failure pq x st).
Proof.
  intros H. unfold propagate_failure; unfold when at 1. destruct (prop_failure _) eqn:Hr.
  2: { destruct H as (G & Hl & H). exists G. split; [done|].
       by apply (inv_exempt_clear _ _ _ _ x F_failure). }
  apply (seq_inv (IE ex)).
  { destruct H as (G & Hl & H). exists G. split; [done|].
    apply (inv_exempt_clear _ _ _ _ x F_failure).
    { unfold flag. rewrite svc_upd_eq. done. }
    isolve. }
  clear H. intros s H. unfold seq.
  apply inve_failed_to_start; [intros; by apply inve_pull|].
  destruct H as (G & Hl & H). exists G. split; [done|]. isolve.
Qed.

Lemma inve_propagate_start ex x st :
  IE (exempt x F_start ex) st → IE ex (propagate_start x st).
Proof.
  intros (G & Hl & H). exists G. split; [done|].
  unfold propagate_start; unfold when at 1. destruct (prop_start _) eqn:Hr.
  - apply inv_do_start. apply (inv_exempt_clear _ _ _ _ x F_start).
    { unfold flag. rewrite svc_upd_eq. done. }
    isolve.
  - by apply (inv_exempt_clear _ _ _ _ x F_start).
Qed.

Lemma inve_propagate_stop ex x st :
  IE (exempt x F_stop ex) st → IE ex (propagate_stop x st).
Proof.
  intros (G & Hl & H). exists G. split; [done|].
  unfold propagate_stop; unfold when at 1. destruct (prop_stop _) eqn:Hr.
  - unfold seq. apply inv_do_stop. apply (inv_exempt_clear _ _ _ _ x F_stop).
    { unfold flag. rewrite svc_upd_eq. done. }
    isolve.
  - by apply (inv_exempt_clear _ _ _ _ x F_stop).
Qed.
End with_pq.

Lemma inv_queue_pin_update exact G c ex x d b st :
  InvG exact G c ex st → InvG exact G c ex (queue_pin_update x d b st).
Proof. intros H. unfold queue_pin_update. isolve. Qed.

Lemma inve_propagate_pin ex x st : IE ex st → IE ex (propagate_pin x st).
Proof.
  intros (G & Hl & H). exists G. split; [done|].
  unfold propagate_pin. apply when_inv; [done|]. intros _ _. cbv zeta.
  apply when_inv; [done|]. intros _ _. istep; [isolve|]. istep; [|isolve].
  apply for_each_inv; [done|]. intros. by apply inv_queue_pin_update.
Qed.
End driver.
