(* ===== verification/ServiceGraph.v ===== *)
(** * The invariant under changes of the dependency graph

    [add_dep], [rm_dep], [start_dep] and the constructor of [service.h]. *)

From S2P Require Import Prelude ServiceData Service ServiceInv ServiceInvOps.

(** ** Lists *)

Lemma elem_of_erase_first x y l : NoDup l → y ∈ erase_first x l ↔ y ∈ l ∧ y ≠ x.
Proof.
  induction 1 as [|z l Hz Hl IH]; simpl; [set_solver|].
  case_decide; subst; [set_solver|]. rewrite !elem_of_cons, IH. set_solver.
Qed.

Lemma NoDup_erase_first x l : NoDup l → NoDup (erase_first x l).
Proof.
  induction 1 as [|z l Hz Hl IH]; simpl; [constructor|].
  case_decide; [done|]. constructor; [|done]. rewrite elem_of_erase_first by done. set_solver.
Qed.

Lemma elem_of_insert_at {A} i (x y : A) l : y ∈ insert_at i x l ↔ y = x ∨ y ∈ l.
Proof.
  unfold insert_at. rewrite elem_of_app, elem_of_cons.
  rewrite <- (take_drop i l) at 3. rewrite elem_of_app. tauto.
Qed.

Lemma NoDup_insert_at {A} i (x : A) l : NoDup l → x ∉ l → NoDup (insert_at i x l).
Proof.
  intros Hl Hx. unfold insert_at. rewrite <- (take_drop i l) in Hl, Hx.
  apply list.NoDup_app in Hl as (H1 & H2 & H3). apply list.NoDup_app.
  split; [done|]. split; [|constructor; [set_solver|done]]. set_solver.
Qed.

(** ** Graphs *)

(** The graph with a new record [d]. *)
Definition graph_add (G : graph) (d : did) (x to : sid) (ty : dependency_type) (i : nat)
    : graph := {|
  g_deps := λ y, if decide (y = x) then insert_at i d (g_deps G y) else g_deps G y;
  g_dpts := λ y, if decide (y = to) then g_dpts G y ++ [d] else g_dpts G y;
  g_from := λ e, if decide (e = d) then x else g_from G e;
  g_to := λ e, if decide (e = d) then to else g_to G e;
  g_type := λ e, if decide (e = d) then ty else g_type G e
|}.

(** The graph after the record [d] has left the list of its target, after it has
    left the list of its source, and after it is freed. *)
Definition graph_cut (G : graph) (d : did) (to : sid) : graph := {|
  g_deps := g_deps G;
  g_dpts := λ y, if decide (y = to) then erase_first d (g_dpts G y) else g_dpts G y;
  g_from := g_from G; g_to := g_to G; g_type := g_type G
|}.
Definition graph_forget (G : graph) (d : did) (x : sid) : graph := {|
  g_deps := λ y, if decide (y = x) then erase_first d (g_deps G y) else g_deps G y;
  g_dpts := g_dpts G;
  g_from := λ e, if decide (e = d) then 0%nat else g_from G e;
  g_to := λ e, if decide (e = d) then 0%nat else g_to G e;
  g_type := λ e, if decide (e = d) then dependency_type.REGULAR else g_type G e
|}.

Section graph_lemmas.
Implicit Types (G : graph) (d : did) (x y to : sid).

Lemma dpts_ok_add G d x to ty i :
  dpts_ok G → (∀ y, d ∉ g_dpts G y) → dpts_ok (graph_add G d x to ty i).
Proof.
  intros H Hd y. destruct (H y) as [H1 H2]. simpl. split.
  - destruct (decide (y = to)) as [Hy|]; [|done]. apply list.NoDup_app. split; [done|]. split; [|apply NoDup_singleton].
    intros e He ->%list_elem_of_singleton. by destruct (Hd y).
  - intros e. destruct (decide (y = to)), (decide (e = d)) as [->|];
      rewrite ?elem_of_app, ?list_elem_of_singleton; intros; subst;
      try (by destruct (Hd y)); intuition auto.
Qed.

Lemma links_ok_add G d x to ty i :
  links_ok G → (∀ y, d ∉ g_deps G y) → links_ok (graph_add G d x to ty i).
Proof.
  intros H Hd y. destruct (H y) as [H1 H2]. simpl. split.
  - case_decide; [|done]. by apply NoDup_insert_at.
  - intros e He.
    assert (e = d ∧ y = x ∨ e ≠ d ∧ e ∈ g_deps G y) as [[-> ->]|[Hne He']].
    { revert He. destruct (decide (e = d)) as [->|], (decide (y = x)) as [->|];
        rewrite ?elem_of_insert_at; intros; [by left| by destruct (Hd y) | |]; right;
        intuition congruence. }
    + rewrite !(decide_True (P:=d = d)), (decide_True (P:=to = to)) by done.
      split; [done|]. apply elem_of_app. right. by apply list_elem_of_singleton.
    + destruct (H2 e He') as [Hf Hin]. rewrite !(decide_False (P:=e = d)) by done.
      split; [done|]. destruct (decide (g_to G e = to)); [|done].
      apply elem_of_app. by left.
Qed.

Lemma dpts_ok_cut G d to : dpts_ok G → dpts_ok (graph_cut G d to).
Proof.
  intros H y. destruct (H y) as [H1 H2]. simpl.
  destruct (decide (y = to)) as [Hy|]; [|done].
  split; [by apply NoDup_erase_first|]. intros e. rewrite elem_of_erase_first by done.
  intros [? _]. auto.
Qed.

(** After the cut no list of dependents has the record. *)
Lemma graph_cut_gone G d y : dpts_ok G → d ∉ g_dpts (graph_cut G d (g_to G d)) y.
Proof.
  intros H. simpl. destruct (decide (y = g_to G d)) as [|Hy].
  - rewrite elem_of_erase_first by apply H. tauto.
  - intros Hin. apply Hy. symmetry. by apply (proj2 (H y)).
Qed.

Lemma dpts_ok_forget G d x :
  dpts_ok G → (∀ y, d ∉ g_dpts G y) → dpts_ok (graph_forget G d x).
Proof.
  intros H Hd y. destruct (H y) as [H1 H2]. simpl. split; [done|].
  intros e He. destruct (decide (e = d)); subst; [by destruct (Hd y)|]. auto.
Qed.

Lemma links_ok_remove G d x :
  dpts_ok G → links_ok G → d ∈ g_deps G x →
  links_ok (graph_forget (graph_cut G d (g_to G d)) d x).
Proof.
  intros HG H Hdx y. destruct (H y) as [H1 H2]. simpl. split.
  - destruct (decide (y = x)); [by apply NoDup_erase_first|done].
  - intros e He.
    assert (e ≠ d ∧ e ∈ g_deps G y) as [Hne He'].
    { revert He. destruct (decide (y = x)) as [->|Hy].
      - rewrite elem_of_erase_first by done. tauto.
      - intros He. split; [|done]. intros ->. destruct Hy.
        rewrite <- (proj1 (H2 d He)). by apply (proj2 (H x)). }
    destruct (H2 e He') as [Hf Hin]. rewrite !(decide_False (P:=e = d)) by done.
    split; [done|]. destruct (decide (g_to G e = g_to G d)) as [Ht|]; [|done].
    by rewrite elem_of_erase_first by apply HG.
Qed.
End graph_lemmas.

Section graph_operations.
Context {X : Type} `{!ServiceVirtual X} `{!ServiceVirtualLaws X} (exact : bool).
Implicit Types (st : sys X) (x y to : sid) (d : did) (c : sid → Z)
  (ex : sid → prop_flag → bool) (G : graph).

(** The record of a new dependency, entered in both lists. *)
Definition link_record (d : did) x to (ty : dependency_type) (i : nat) st : sys X :=
  upd to (λ r, r <| dependents ::= (λ l, l ++ [d]) |>)
    (upd x (λ r, r <| depends_on ::= insert_at i d |>)
      (st <| deps := <[d := service_dep_new x to ty]> (deps st) |>)).

Lemma held_in_app st l1 l2 : held_in st (l1 ++ l2) = held_in st l1 + held_in st l2.
Proof. induction l1 as [|d l1 IH]; simpl; [lia|]. rewrite IH. lia. Qed.

Lemma dep_insert st d e r :
  dep (st <| deps := <[d := r]> (deps st) |>) e = if decide (e = d) then r else dep st e.
Proof.
  unfold dep; rsimpl. case_decide; subst; [by rewrite lookup_insert_eq|].
  by rewrite lookup_insert_ne.
Qed.

Lemma svc_link_record d x to ty i st y :
  svc (link_record d x to ty i st) y
  = let r := svc st y in
    let r := if decide (y = x) then r <| depends_on ::= insert_at i d |> else r in
    if decide (y = to) then r <| dependents ::= (λ l, l ++ [d]) |> else r.
Proof. unfold link_record. by rewrite !svc_upd. Qed.

Lemma dep_link_record d x to ty i st e :
  dep (link_record d x to ty i st) e
  = if decide (e = d) then service_dep_new x to ty else dep st e.
Proof. unfold link_record. apply dep_insert. Qed.

Lemma inv_link_record G c ex d x to ty i st :
  d ∉ dom (deps st) → InvG exact G c ex st →
  InvG exact (graph_add G d x to ty i) c ex (link_record d x to ty i st).
Proof.
  intros Hd [(Hg1 & Hg2 & Hg3 & Hg4 & Hg5) Hdp Hal Ha Hp].
  assert (∀ y, d ∉ g_dpts G y) as Hnew by (intros y Hin; destruct Hd; eauto).
  split.
  - split; [|split; [|split; [|split]]]; intros e; simpl;
      rewrite ?dep_link_record, ?svc_link_record; simpl.
    + rewrite <- Hg1. by case_decide; case_decide; rsimpl.
    + rewrite <- Hg2. by case_decide; case_decide; rsimpl.
    + rewrite <- Hg3. by case_decide.
    + rewrite <- Hg4. by case_decide.
    + rewrite <- Hg5. by case_decide.
  - by apply dpts_ok_add.
  - intros y e He. unfold link_record, upd; rsimpl. rewrite dom_insert_L.
    destruct (decide (e = d)) as [|Hne]; [set_solver|]. apply elem_of_union_r.
    apply (Hal y). revert He. simpl.
    repeat case_decide; rewrite ?elem_of_insert_at; set_solver.
  - intros y. specialize (Ha y). revert Ha. simpl. rewrite svc_link_record; cbv zeta.
    assert (held_in (link_record d x to ty i st) (g_dpts G y) = held_in st (g_dpts G y)) as Hh.
    { apply held_in_ext. intros e He. rewrite dep_link_record, decide_False; [done|].
      intros ->. by destruct (Hnew y). }
    destruct (decide (y = to)).
    + rewrite held_in_app, Hh. simpl.
      rewrite dep_link_record, (decide_True (P:=d = d)) by done. simpl.
      rewrite Z.add_0_r. destruct (decide (y = x)); by rsimpl.
    + rewrite Hh. destruct (decide (y = x)); by rsimpl.
  - intros y fl Hex Hf. apply (Hp y fl Hex). revert Hf. rewrite svc_link_record; cbv zeta.
    repeat case_decide; destruct fl; unfold flag; by rsimpl.
Qed.

(** [add_dep], with the graph that it leads to. *)
Lemma inv_add_dep G c ex x to ty i st :
  InvG exact G c ex st →
  InvG exact (graph_add G (add_dep x to ty i st).2 x to ty i) c ex (add_dep x to ty i st).1.
Proof.
  intros H. set (d := fresh (dom (deps st))).
  assert (d ∉ dom (deps st)) as Hd by apply is_fresh.
  pose proof (inv_link_record G c ex d x to ty i st Hd H) as Hlink.
  unfold add_dep. fold d. unfold seq at 1 2 3 5 6 7. fold (link_record d x to ty i st).
  change (snd _) with d.
  apply (seq_inv (InvG exact (graph_add G d x to ty i) c ex) (λ p, InvG _ _ _ _ p.1));
    [|done].
  apply when_inv; [done|]. intros _ _.
  apply (inv_take_link _ _ _ _ to).
  - simpl. rewrite decide_True by done. apply elem_of_app. right.
    by apply list_elem_of_singleton.
  - right. unfold require, seq, when, add_prop_queue.
    assert (∀ s : sys X, deps s = deps (link_record d x to ty i st) →
              holding_acq (dep s d) = false) as Hhold.
    { intros s Hs. unfold dep at 1. rewrite Hs. fold (dep (link_record d x to ty i st) d).
      by rewrite dep_link_record, decide_True. }
    apply Hhold. repeat case_match; reflexivity.
  - by apply inv_require.
Qed.

Lemma add_dep_fresh x to ty i st : (add_dep x to ty i st).2 ∉ dom (deps st).
Proof. apply is_fresh. Qed.

Lemma links_ok_add_dep G c ex x to ty i st :
  links_ok G → InvG exact G c ex st →
  links_ok (graph_add G (add_dep x to ty i st).2 x to ty i).
Proof.
  intros Hl H. apply links_ok_add; [done|]. intros y Hin.
  apply (add_dep_fresh x to ty i st). apply (inv_alloc _ _ _ _ _ H y). by left.
Qed.

Lemma inve_add_dep c ex x to ty i st :
  InvE exact c ex st → InvE exact c ex (add_dep x to ty i st).1.
Proof.
  intros (G & Hl & H). eexists.
  split; [by eapply links_ok_add_dep|by apply inv_add_dep].
Qed.

(** [start_dep] on a dependency or on a dependent of a service. *)
Lemma inve_start_dep c ex x d st :
  d ∈ depends_on (svc st x) ∨ d ∈ dependents (svc st x) →
  InvE exact c ex st → InvE exact c ex (start_dep d st).
Proof.
  intros Hin (G & Hl & H). exists G. split; [done|].
  assert (d ∈ g_dpts G (g_to G d)) as Hd.
  { destruct Hin as [Hin|Hin].
    - apply (inv_deps_in exact G c ex) in Hin; [|done]. by apply (proj2 (Hl x)).
    - rewrite (proj1 (proj2 (inv_graph _ _ _ _ _ H)) x) in Hin.
      destruct (inv_dpts _ _ _ _ _ H x) as [_ Ht]. by rewrite (Ht d Hin). }
  unfold start_dep. apply when_inv; [done|]. intros Hh%negb_true_iff _.
  apply (inv_take_link _ _ _ _ (g_to G d)); [done| |].
  - right. rewrite <- Hh. f_equal. unfold require, seq, when, add_prop_queue.
    by repeat case_match.
  - rewrite (inv_dep_to _ _ _ _ _ _ H). by apply inv_require.
Qed.

Lemma held_in_erase st d ds :
  NoDup ds → d ∈ ds →
  held_in st (erase_first d ds) = held_in st ds - b2z (holding_acq (dep st d)).
Proof.
  induction 1 as [|e ds He Hds IH]; intros Hin; [by apply not_elem_of_nil in Hin|].
  simpl. case_decide; subst; [lia|]. simpl. rewrite IH; [lia|].
  by apply elem_of_cons in Hin as [|].
Qed.

Lemma svc_set_deps f st y : svc (st <| deps ::= f |>) y = svc st y.
Proof. done. Qed.

(** The record has left the list of its target; if it held an acquisition,
    the release is due. *)
Lemma inv_cut G c ex d st :
  d ∈ g_dpts G (g_to G d) → InvG exact G c ex st →
  InvG exact (graph_cut G d (g_to G d))
    (if holding_acq (dep st d) then credit (g_to G d) c else c) ex
    (upd (g_to G d) (λ r, r <| dependents ::= erase_first d |>) st).
Proof.
  intros Hin [(Hg1 & Hg2 & Hg3 & Hg4 & Hg5) Hdp Hal Ha Hp]. split.
  - split; [|split; [|done]]; intros y; rewrite svc_upd; simpl.
    + by destruct (decide (y = g_to G d)); rsimpl.
    + rewrite <- Hg2. by destruct (decide (y = g_to G d)); rsimpl.
  - by apply dpts_ok_cut.
  - intros y e He. apply (Hal y). destruct He as [He|He]; [by left|right].
    revert He. simpl. destruct (decide (y = g_to G d)); [|done].
    rewrite elem_of_erase_first by apply Hdp. tauto.
  - intros y. specialize (Ha y). revert Ha. rewrite held_in_upd, svc_upd. simpl.
    destruct (decide (y = g_to G d)) as [->|Hy]; rsimpl.
    + rewrite (held_in_erase _ d) by (done || apply Hdp).
      destruct (holding_acq (dep st d)); unfold credit, acq_rel; simpl;
        rewrite ?decide_True by done; destruct exact; lia.
    + destruct (holding_acq (dep st d)); unfold credit, acq_rel; simpl;
        rewrite ?decide_False by done; destruct exact; lia.
  - intros y fl Hex. rewrite svc_upd. case_decide; [|by apply Hp].
    intros Hf. apply (Hp y fl Hex). destruct fl; revert Hf; unfold flag; by rsimpl.
Qed.

Lemma inv_forget G c ex d x st :
  (∀ y, d ∉ g_dpts G y) → (∀ y, y ≠ x → d ∉ g_deps G y) → NoDup (g_deps G x) →
  InvG exact G c ex st →
  InvG exact (graph_forget G d x) c ex
    ((upd x (λ r, r <| depends_on ::= erase_first d |>) st) <| deps ::= delete d |>).
Proof.
  intros Hnd Hns Hdup [(Hg1 & Hg2 & Hg3 & Hg4 & Hg5) Hdp Hal Ha Hp].
  assert (∀ e, dep ((upd x (λ r, r <| depends_on ::= erase_first d |>) st)
                    <| deps ::= delete d |>) e
               = if decide (e = d) then service_dep_new 0 0 dependency_type.REGULAR
                 else dep st e) as Hdep.
  { intros e. unfold dep, upd; rsimpl. case_decide as He; subst.
    - by rewrite lookup_delete_eq.
    - by rewrite lookup_delete_ne. }
  split.
  - split; [|split; [|split; [|split]]]; intros e; simpl; rewrite ?Hdep, ?(svc_set_deps (delete d)), ?svc_upd.
    + rewrite <- Hg1. by destruct (decide (e = x)); rsimpl.
    + rewrite <- Hg2. by destruct (decide (e = x)); rsimpl.
    + rewrite <- Hg3. by destruct (decide (e = d)).
    + rewrite <- Hg4. by destruct (decide (e = d)).
    + rewrite <- Hg5. by destruct (decide (e = d)).
  - by apply dpts_ok_forget.
  - intros y e He.
    assert (e ≠ d ∧ (e ∈ g_deps G y ∨ e ∈ g_dpts G y)) as [Hne He'].
    { revert He. simpl. destruct (decide (y = x)) as [->|Hy].
      - rewrite elem_of_erase_first by done. intros [[]|]; [tauto|].
        split; [|tauto]. intros ->. by apply (Hnd x).
      - intros He. split; [|done]. intros ->. destruct He as [|He]; [by apply (Hns y)|].
        by apply (Hnd y). }
    unfold upd; rsimpl. rewrite dom_delete_L. apply elem_of_difference.
    split; [by apply (Hal y)|]. by rewrite elem_of_singleton.
  - intros y. specialize (Ha y). simpl.
    rewrite (held_in_ext st), (svc_set_deps (delete d)), svc_upd.
    + by destruct (decide (y = x)); rsimpl.
    + intros e He. rewrite Hdep, decide_False; [done|]. intros ->. by apply (Hnd y).
  - intros y fl Hex. rewrite (svc_set_deps (delete d)), svc_upd. case_decide; [|by apply Hp].
    intros Hf. apply (Hp y fl Hex). destruct fl; revert Hf; unfold flag; by rsimpl.
Qed.

(** The graph without the record [d] of [x]. *)
Definition graph_remove (G : graph) d x : graph := graph_forget (graph_cut G d (g_to G d)) d x.

(** [rm_dep], with the graph that it leads to. *)
Lemma inv_rm_dep_it G c ex x d st :
  d ∈ g_deps G x → links_ok G → InvG exact G c ex st →
  InvG exact (graph_remove G d x) c ex (rm_dep_it x d st).
Proof.
  intros Hin Hl H. pose proof (inv_dpts _ _ _ _ _ H) as Hdp.
  destruct (proj2 (Hl x) d Hin) as [Hfrom Hdpt].
  unfold rm_dep_it. cbv zeta. rewrite (inv_dep_to _ _ _ _ _ _ H).
  apply (seq_inv (λ s, InvG exact (graph_cut G d (g_to G d))
           (if holding_acq (dep s d) then credit (g_to G d) c else c) ex s));
    [exact (inv_cut G c ex d st Hdpt H)|].
  intros s Hs. apply (seq_inv (InvG exact (graph_cut G d (g_to G d)) c ex)).
  { unfold when. destruct (holding_acq _); [|done]. by apply inv_release. }
  clear s Hs. intros s Hs. unfold seq. apply inv_forget; [| | apply Hl |done].
  - intros y. by apply graph_cut_gone.
  - intros y Hy Hin'. apply Hy. rewrite <- Hfrom. symmetry. by apply (proj2 (Hl y)).
Qed.

Lemma inve_rm_dep_it c ex x d st :
  d ∈ depends_on (svc st x) → InvE exact c ex st → InvE exact c ex (rm_dep_it x d st).
Proof.
  intros Hin (G & Hl & H). apply (inv_deps_in exact G c ex) in Hin; [|done].
  exists (graph_remove G d x).
  split; [by apply links_ok_remove; [apply (inv_dpts _ _ _ _ _ H)|..]|by apply inv_rm_dep_it].
Qed.

Lemma inve_rm_dep c ex x to ty st :
  InvE exact c ex st → InvE exact c ex (rm_dep x to ty st).1.
Proof.
  intros H. unfold rm_dep. destruct (List.find _ _) as [d|] eqn:Hf; [|done].
  apply find_some in Hf as [Hin _]. apply inve_rm_dep_it; [|done].
  by apply list_elem_of_In.
Qed.
End graph_operations.
