(* ===== verification/LinkedList.v ===== *)
(** * The intrusive linked lists

    [dinit-ll.h]: the singly-linked list [slist] of the propagation and transition
    queues and the circular doubly-linked list [dlist] of the console queue.  The
    links are in the elements themselves; a list is its [first] pointer and the
    [next] and [prev] fields of every element, as maps from elements, where an
    element that is not in the map has a null pointer.  [Service] uses plain lists
    of services in their place; the theorems show that the pointer operations
    implement the functions on lists that [Service] uses. *)

From S2P Require Import Prelude ServiceData Service ServiceInv ServiceGraph.

Implicit Types (e x y : nat) (l : list nat) (m : gmap nat nat).

(** Storing a pointer, null or not. *)
Definition set_ptr (m : gmap nat nat) (e : nat) (p : option nat) : gmap nat nat :=
  match p with Some q => <[e := q]> m | None => delete e m end.

Arguments set_ptr : simpl never.

Lemma lookup_set_ptr m e p x : set_ptr m e p !! x = if decide (x = e) then p else m !! x.
Proof.
  unfold set_ptr. destruct p; case_decide; subst;
    by rewrite ?lookup_insert_eq, ?lookup_delete_eq, ?lookup_insert_ne, ?lookup_delete_ne.
Qed.

Module slist.
Record t := Slist { first : option nat; next : gmap nat nat }.

Definition new : t := Slist None ∅.

Definition is_queued (s : t) (e : nat) : bool :=
  negb (bool_decide (next s !! e = None)) || bool_decide (first s = Some e).

Definition insert (e : nat) (s : t) : t :=
  Slist (Some e) (set_ptr (next s) e (first s)).

Definition is_empty (s : t) : bool := bool_decide (first s = None).

(** [None]: the list is empty, and the code would dereference a null pointer. *)
Definition pop_front (s : t) : option (nat * t) :=
  match first s with
  | None => None
  | Some r => Some (r, Slist (next s !! r) (set_ptr (next s) r None))
  end.

(** The elements that [pop_front] returns, in order.  After the last one no
    element is linked. *)
Fixpoint rep (s : t) (l : list nat) : Prop :=
  match l with
  | [] => first s = None ∧ ∀ e, next s !! e = None
  | x :: l => first s = Some x ∧ rep (Slist (next s !! x) (set_ptr (next s) x None)) l
  end.

(** Exactly the elements before the last position have a successor. *)
Lemma rep_next s l e : rep s l → (next s !! e ≠ None ↔ e ∈ removelast l).
Proof.
  revert s. induction l as [|x l IH]; intros s; simpl.
  { intros [_ H]. rewrite H. split; [done|by intros ?%not_elem_of_nil]. }
  intros [_ H]. pose proof (IH _ H) as Hl. simpl in Hl. rewrite lookup_set_ptr in Hl.
  destruct l as [|y l].
  - simpl in H. destruct H as [Hx _]. split; [|by intros ?%not_elem_of_nil].
    case_decide; [congruence|]. tauto.
  - simpl in H. destruct H as [Hx _]. rewrite elem_of_cons.
    case_decide as He; [|tauto]. subst. rewrite Hx. split; [by left|done].
Qed.

Lemma rep_first s l : rep s l → first s = head l.
Proof. destruct l; simpl; tauto. Qed.

(** The singly-linked list of [dinit-ll.h] implements the queue of services
    of the model, elements that are queued twice included: [is_queued] is the
    function [slist_is_queued] of the list, an insertion of an element that the
    test does not find puts it in front, [is_empty] tests for the empty list,
    and [pop_front] returns the elements in order. *)
Theorem slist_refines s l e :
  rep s l →
  is_queued s e = slist_is_queued e l
  ∧ is_empty s = bool_decide (l = [])
  ∧ (is_queued s e = false → rep (insert e s) (e :: l))
  ∧ match l with
    | [] => pop_front s = None
    | x :: l => ∃ s', pop_front s = Some (x, s') ∧ rep s' l
    end.
Proof.
  intros H. pose proof (rep_next s l e H) as Hn. pose proof (rep_first s l H) as Hf.
  assert (is_queued s e = slist_is_queued e l) as Hq.
  { unfold is_queued, slist_is_queued. rewrite Hf. f_equal.
    apply eq_bool_prop_intro. rewrite negb_True, !bool_decide_spec. tauto. }
  split; [done|]. split; [|split].
  - unfold is_empty. rewrite Hf. apply bool_decide_ext. by destruct l.
  - intros He. unfold is_queued in He. apply orb_false_iff in He as [He _].
    apply negb_false_iff, bool_decide_eq_true in He.
    simpl. split; [done|]. rewrite lookup_set_ptr, decide_True by done.
    assert (set_ptr (set_ptr (next s) e (first s)) e None = next s) as ->.
    { apply map_eq. intros x. rewrite !lookup_set_ptr. case_decide; by subst. }
    by destruct s.
  - destruct l as [|x l]; simpl in *.
    + unfold pop_front. by rewrite Hf.
    + unfold pop_front. rewrite Hf. eexists. split; [done|]. tauto.
Qed.
End slist.

Module dlist.
Record t := Dlist { first : option nat; next : gmap nat nat; prev : gmap nat nat }.

Definition new : t := Dlist None ∅ ∅.

Definition is_queued (d : t) (e : nat) : bool := negb (bool_decide (next d !! e = None)).
Definition is_empty (d : t) : bool := bool_decide (first d = None).

Definition tail (d : t) : option nat :=
  match first d with None => None | Some f => prev d !! f end.

(** A null pointer where the code dereferences one gives the number 0; the
    representation invariant excludes it. *)
Definition ptr (m : gmap nat nat) (e : nat) : nat := default 0%nat (m !! e).

Lemma ptr_Some m e b : m !! e = Some b → ptr m e = b.
Proof. unfold ptr. by intros ->. Qed.

Definition append (e : nat) (d : t) : t :=
  match first d with
  | None => Dlist (Some e) (<[e := e]> (next d)) (<[e := e]> (prev d))
  | Some f =>
      let nx := <[e := f]> (next d) in
      let pv := <[e := ptr (prev d) f]> (prev d) in
      let nx := <[ptr pv f := e]> nx in
      let pv := <[f := e]> pv in
      Dlist (Some f) nx pv
  end.

Definition unlink (e : nat) (d : t) : t :=
  let f :=
    if bool_decide (first d = Some e) then
      let f := next d !! e in
      if bool_decide (f = Some e) then None else f
    else first d in
  let pv := <[ptr (next d) e := ptr (prev d) e]> (prev d) in
  let nx := <[ptr pv e := ptr (next d) e]> (next d) in
  Dlist f (delete e nx) (delete e pv).

Definition pop_front (d : t) : option (nat * t) :=
  match first d with
  | None => None
  | Some f =>
      if bool_decide (next d !! f = Some f)
      then Some (f, Dlist None (delete f (next d)) (delete f (prev d)))
      else
        let n := ptr (next d) f in
        let pv := <[n := ptr (prev d) f]> (prev d) in
        let nx := <[ptr pv n := n]> (next d) in
        Some (f, Dlist (Some n) (delete f nx) (delete f pv))
  end.

(** Consecutive elements of [l] are linked in both directions. *)
Fixpoint links (nx pv : gmap nat nat) (l : list nat) : Prop :=
  match l with
  | a :: l' =>
      match l' with
      | b :: _ => nx !! a = Some b ∧ pv !! b = Some a ∧ links nx pv l'
      | [] => True
      end
  | [] => True
  end.

(** The elements in order; the list is circular. *)
Definition cyclic nx pv l : Prop :=
  match l with [] => True | x :: l' => links nx pv (x :: l' ++ [x]) end.

Definition rep (d : t) (l : list nat) : Prop :=
  first d = head l ∧ NoDup l ∧ cyclic (next d) (prev d) l
  ∧ ∀ e, e ∉ l → next d !! e = None ∧ prev d !! e = None.

Lemma links_app nx pv l1 a l2 :
  links nx pv (l1 ++ a :: l2) ↔ links nx pv (l1 ++ [a]) ∧ links nx pv (a :: l2).
Proof.
  induction l1 as [|b l1 IH]; [simpl; tauto|].
  destruct l1 as [|c l1]; [simpl; tauto|]. simpl in *. tauto.
Qed.

(** Only the links out of all but the last and into all but the first matter. *)
Lemma links_frame nx pv nx' pv' l :
  (∀ e, e ∈ removelast l → nx' !! e = nx !! e) → (∀ e, e ∈ List.tl l → pv' !! e = pv !! e) →
  links nx pv l → links nx' pv' l.
Proof.
  induction l as [|a [|b l] IH]; [done..|]. intros Hn Hp (H1 & H2 & H3).
  split; [rewrite Hn; [done|simpl; by left]|].
  split; [rewrite Hp; [done|simpl; by left]|].
  apply IH; [| |done].
  - intros e He. apply Hn. simpl. by right.
  - intros e He. apply Hp. simpl in *. by right.
Qed.

Lemma removelast_snoc l a : removelast (l ++ [a]) = l.
Proof. by rewrite removelast_last. Qed.

Lemma cyclic_rotate nx pv x l : cyclic nx pv (x :: l) ↔ cyclic nx pv (l ++ [x]).
Proof.
  destruct l as [|y l]; [done|]. simpl.
  change (y :: (l ++ [x]) ++ [y]) with ((y :: l ++ [x]) ++ [y]).
  rewrite <- app_assoc. simpl.
  pose proof (links_app nx pv (y :: l) x [y]) as H. simpl in H. rewrite H. tauto.
Qed.

Lemma cyclic_swap nx pv l1 l2 : cyclic nx pv (l1 ++ l2) ↔ cyclic nx pv (l2 ++ l1).
Proof.
  revert l2. induction l1 as [|x l1 IH]; intros l2; [by rewrite app_nil_r|].
  change ((x :: l1) ++ l2) with (x :: l1 ++ l2).
  rewrite cyclic_rotate, <- app_assoc, IH, <- app_assoc. done.
Qed.

(** The successor and the predecessor of an element. *)
Lemma cyclic_split nx pv e a l :
  cyclic nx pv (e :: a :: l) →
  ∃ b l0, a :: l = l0 ++ [b] ∧ nx !! e = Some a ∧ pv !! e = Some b ∧ nx !! b = Some e
    ∧ links nx pv (a :: l).
Proof.
  intros (H1 & H2 & H3).
  destruct (exists_last (l:=a :: l) ltac:(done)) as (l0 & b & Hb). exists b, l0.
  change (links nx pv ((a :: l) ++ [e])) in H3. rewrite Hb, <- app_assoc in H3.
  apply links_app in H3 as [H4 H5]. simpl in H5. rewrite Hb. tauto.
Qed.

(** Removing the first element of a longer cycle. *)
Lemma cyclic_remove nx pv e a l :
  NoDup (e :: a :: l) → cyclic nx pv (e :: a :: l) →
  cyclic (delete e (<[ptr pv e := a]> nx)) (delete e (<[a := ptr pv e]> pv)) (a :: l).
Proof.
  intros Hd H. destruct (cyclic_split _ _ _ _ _ H) as (b & l0 & Hb & H1 & H2 & H3 & H4).
  rewrite (ptr_Some _ _ _ H2).
  apply list.NoDup_cons in Hd as [He Hd].
  change (cyclic (delete e (<[b:=a]> nx)) (delete e (<[a:=b]> pv)) (a :: l))
    with (links (delete e (<[b:=a]> nx)) (delete e (<[a:=b]> pv)) ((a :: l) ++ [a])).
  assert (b ≠ e) as Hbe by (intros ->; apply He; rewrite Hb; set_solver).
  assert (a ≠ e) as Hae by (intros ->; apply He; set_solver).
  rewrite Hb, <- app_assoc. apply links_app. split.
  - rewrite <- Hb. revert H4. apply links_frame.
    + rewrite Hb, removelast_snoc. intros x Hx. rewrite Hb in Hd.
      apply list.NoDup_app in Hd as (_ & Hd & _).
      rewrite lookup_delete_ne, lookup_insert_ne; [done| |].
      * intros ->. apply (Hd x Hx). set_solver.
      * intros ->. apply He. rewrite Hb. set_solver.
    + simpl. intros x Hx. apply list.NoDup_cons in Hd as [Ha _].
      rewrite lookup_delete_ne, lookup_insert_ne; [done| |]; intros ->; set_solver.
  - simpl. rewrite !lookup_delete_ne, !lookup_insert_eq by done. done.
Qed.

(** Adding an element before the first one of a cycle. *)
Lemma cyclic_insert nx pv e x l :
  e ∉ x :: l → NoDup (x :: l) → cyclic nx pv (x :: l) →
  cyclic (<[ptr pv x := e]> (<[e := x]> nx)) (<[x := e]> (<[e := ptr pv x]> pv)) (x :: l ++ [e]).
Proof.
  intros He Hd H.
  destruct (exists_last (l:=x :: l) ltac:(done)) as (l0 & b & Hb).
  change (links nx pv ((x :: l) ++ [x])) in H. rewrite Hb, <- app_assoc in H.
  apply links_app in H as [H1 [H2 [H3 _]]]. rewrite (ptr_Some _ _ _ H3).
  match goal with |- cyclic ?nx' ?pv' _ =>
    change (links nx' pv' ((x :: l) ++ [e] ++ [x])) || change (links nx' pv' (((x :: l) ++ [e]) ++ [x]))
  end.
  rewrite <- ?app_assoc. rewrite Hb, <- app_assoc. apply links_app.
  assert (b ≠ e) as Hbe by (intros ->; apply He; rewrite Hb; set_solver).
  assert (x ≠ e) as Hxe by (intros ->; apply He; set_solver).
  split.
  - revert H1. apply links_frame; rewrite <- Hb.
    + rewrite Hb, removelast_snoc. intros y Hy. rewrite Hb in Hd, He.
      apply list.NoDup_app in Hd as (_ & Hd & _).
      rewrite !lookup_insert_ne; [done| |]; intros ->; [set_solver|]. apply (Hd y Hy). set_solver.
    + simpl. intros y Hy. apply list.NoDup_cons in Hd as [Hx _].
      rewrite !lookup_insert_ne; [done| |]; intros ->; set_solver.
  - simpl. rewrite lookup_insert_eq.
    rewrite (lookup_insert_ne _ x e), lookup_insert_eq by done.
    rewrite (lookup_insert_ne _ b e), !lookup_insert_eq by done. done.
Qed.

(** The cycle seen from one of its elements. *)
Lemma cyclic_from nx pv l1 e l2 : cyclic nx pv (l1 ++ e :: l2) ↔ cyclic nx pv (e :: l2 ++ l1).
Proof. rewrite cyclic_swap. done. Qed.

Lemma rep_queued d l e : rep d l → is_queued d e = bool_decide (e ∈ l).
Proof.
  intros (_ & _ & Hc & Ho). unfold is_queued. destruct (decide (e ∈ l)) as [He|He].
  - rewrite (bool_decide_eq_true_2 (e ∈ l)) by done.
    rewrite bool_decide_eq_false_2; [done|].
    apply list_elem_of_split in He as (l1 & l2 & ->). apply cyclic_from in Hc.
    destruct (l2 ++ l1) as [|a l]; destruct Hc as [Hc _]; by rewrite Hc.
  - destruct (Ho e He) as [H _]. by rewrite H, (bool_decide_eq_false_2 (e ∈ l)).
Qed.

Lemma rep_append d l e : rep d l → e ∉ l → rep (append e d) (l ++ [e]).
Proof.
  intros (Hf & Hd & Hc & Ho) He. unfold append. rewrite Hf. destruct l as [|x l]; simpl.
  - split; [done|]. split; [apply NoDup_singleton|]. split.
    + simpl. by rewrite !lookup_insert_eq.
    + simpl. intros y Hy. rewrite !lookup_insert_ne by set_solver. apply Ho, not_elem_of_nil.
  - split; [done|]. split.
    { change (NoDup ((x :: l) ++ [e])). apply list.NoDup_app. split; [done|].
      split; [set_solver|apply NoDup_singleton]. }
    assert (x ≠ e) as Hxe by set_solver.
    assert (ptr (<[e:=ptr (prev d) x]> (prev d)) x = ptr (prev d) x) as ->.
    { unfold ptr. by rewrite lookup_insert_ne. }
    split; [by apply cyclic_insert|]. simpl. intros y Hy.
    assert (y ∉ x :: l) as Hyl by set_solver. assert (y ≠ e) as Hye by set_solver.
    assert (ptr (prev d) x ≠ y) as Hb.
    { intros <-. apply Hyl. simpl in Hc.
      destruct (exists_last (l:=x :: l) ltac:(done)) as (l0 & b & Hb).
      change (links (next d) (prev d) ((x :: l) ++ [x])) in Hc.
      rewrite Hb, <- app_assoc in Hc. apply links_app in Hc as [_ [_ [Hp _]]].
      rewrite (ptr_Some _ _ _ Hp), Hb. set_solver. }
    rewrite !lookup_insert_ne by set_solver. by apply Ho.
Qed.

(** Unlinking the first element of the cycle. *)
Lemma rep_unlink d l1 e l2 : rep d (l1 ++ e :: l2) → rep (unlink e d) (l1 ++ l2).
Proof.
  intros (Hf & Hd & Hc & Ho). apply cyclic_from in Hc.
  assert (Permutation (l1 ++ e :: l2) (e :: l2 ++ l1)) as Hp by (rewrite app_comm_cons; apply Permutation_app_comm).
  pose proof Hd as Hd'. rewrite Hp in Hd'. unfold unlink.
  destruct (l2 ++ l1) as [|a l] eqn:Hl.
  - apply app_eq_nil in Hl as [-> ->]. simpl in *. destruct Hc as (H1 & H2 & _).
    rewrite Hf, H1. rewrite !bool_decide_eq_true_2 by done.
    split; [done|]. split; [constructor|]. split; [done|]. simpl. intros y _.
    rewrite (ptr_Some _ _ _ H1), (ptr_Some _ _ _ H2).
    assert (ptr (<[e:=e]> (prev d)) e = e) as ->.
    { apply ptr_Some, lookup_insert_eq. }
    destruct (decide (y = e)) as [->|]; [by rewrite !lookup_delete_eq|].
    rewrite !lookup_delete_ne, !lookup_insert_ne by done. apply Ho. set_solver.
  - destruct (cyclic_split _ _ _ _ _ Hc) as (b & l0 & Hb & H1 & H2 & H3 & _).
    assert (a ≠ e) as Hae.
    { intros ->. apply list.NoDup_cons in Hd' as [He _]. apply He. by left. }
    rewrite (ptr_Some _ _ _ H1), H1.
    assert (ptr (<[a:=ptr (prev d) e]> (prev d)) e = ptr (prev d) e) as ->.
    { unfold ptr. by rewrite lookup_insert_ne. }
    split; [|split; [|split]]; simpl.
    + rewrite Hf. rewrite (bool_decide_eq_false_2 (Some a = Some e)) by congruence.
      destruct l1 as [|x l1]; simpl.
      * rewrite bool_decide_eq_true_2 by done. rewrite app_nil_r in Hl. by rewrite Hl.
      * rewrite bool_decide_eq_false_2; [done|]. intros [= ->].
        apply list.NoDup_cons in Hd as [He _]. apply He. set_solver.
    + rewrite (Permutation_app_comm l1 l2), Hl. by apply list.NoDup_cons in Hd' as [_ ?].
    + rewrite cyclic_swap, Hl. by apply cyclic_remove.
    + intros y Hy.
      assert (y ∉ l2 ++ l1) as Hyl by set_solver. rewrite Hl in Hyl.
      rewrite (ptr_Some _ _ _ H2).
      destruct (decide (y = e)) as [->|Hye]; [by rewrite !lookup_delete_eq|].
      rewrite !lookup_delete_ne, !lookup_insert_ne; try done.
      * apply Ho. rewrite elem_of_app, elem_of_cons. rewrite <- Hl, elem_of_app in Hyl. tauto.
      * intros ->. apply Hyl. by left.
      * intros ->. apply Hyl. rewrite Hb. set_solver.
Qed.

Lemma pop_front_unlink d x l :
  rep d (x :: l) → pop_front d = Some (x, unlink x d).
Proof.
  intros (Hf & Hd & Hc & _). unfold pop_front, unlink. rewrite Hf. simpl in Hf.
  cbn [head]. rewrite (bool_decide_eq_true_2 (Some x = Some x)) by done.
  destruct l as [|a l].
  - destruct Hc as (H1 & H2 & _). rewrite H1. rewrite !bool_decide_eq_true_2 by done.
    rewrite (ptr_Some _ _ _ H1), (ptr_Some _ _ _ H2).
    rewrite (ptr_Some _ x x) by apply lookup_insert_eq.
    by rewrite !delete_insert_eq.
  - destruct (cyclic_split _ _ _ _ _ Hc) as (b & l0 & Hb & H1 & H2 & _).
    assert (a ≠ x) as Hax.
    { intros ->. apply list.NoDup_cons in Hd as [He _]. apply He. by left. }
    rewrite H1. rewrite !(bool_decide_eq_false_2 (Some a = Some x)) by congruence.
    rewrite (ptr_Some _ _ _ H1), (ptr_Some _ _ _ H2).
    rewrite (ptr_Some _ a b) by apply lookup_insert_eq.
    rewrite (ptr_Some _ x b); [done|]. by rewrite lookup_insert_ne.
Qed.

Lemma erase_first_split l1 e l2 : e ∉ l1 → erase_first e (l1 ++ e :: l2) = l1 ++ l2.
Proof.
  induction l1 as [|x l1 IH]; intros He; simpl; [by rewrite decide_True|].
  rewrite decide_False by (intros ->; set_solver). rewrite IH; [done|set_solver].
Qed.

(** The circular doubly-linked list of [dinit-ll.h] implements the console
    queue of the model: [is_queued] tests membership, [append] adds an element
    that is not queued at the end, [unlink] erases a queued element wherever it
    is, [tail] is the last element and [pop_front] takes the first one; each
    keeps the pointers of the other elements a cycle. *)
Theorem dlist_refines d l e :
  rep d l →
  is_queued d e = bool_decide (e ∈ l)
  ∧ is_empty d = bool_decide (l = [])
  ∧ tail d = list.last l
  ∧ (is_queued d e = false → rep (append e d) (l ++ [e]))
  ∧ (is_queued d e = true → rep (unlink e d) (erase_first e l))
  ∧ match l with
    | [] => pop_front d = None
    | x :: l => ∃ d', pop_front d = Some (x, d') ∧ rep d' l
    end.
Proof.
  intros H. pose proof (rep_queued d l e H) as Hq. split; [done|]. split; [|split; [|split; [|split]]].
  - unfold is_empty. rewrite (proj1 H). apply bool_decide_ext. by destruct l.
  - destruct H as (Hf & _ & Hc & _). unfold tail. rewrite Hf. destruct l as [|x l]; [done|].
    destruct (exists_last (l:=x :: l) ltac:(done)) as (l0 & b & Hb).
    change (links (next d) (prev d) ((x :: l) ++ [x])) in Hc.
    cbn [head]. rewrite Hb, last_snoc.
    rewrite Hb, <- app_assoc in Hc. by apply links_app in Hc as [_ [_ [Hp _]]].
  - rewrite Hq. intros He%bool_decide_eq_false. by apply rep_append.
  - rewrite Hq. intros He%bool_decide_eq_true.
    apply list_elem_of_split in He as (l1 & l2 & ->).
    rewrite erase_first_split; [by apply rep_unlink|].
    destruct H as (_ & Hd & _). apply list.NoDup_app in Hd as (_ & Hd & _).
    intros He. apply (Hd e He). by left.
  - destruct l as [|x l].
    + unfold pop_front. by rewrite (proj1 H).
    + exists (unlink x d). split; [by apply (pop_front_unlink d x l)|].
      apply (rep_unlink d [] x l H).
Qed.
End dlist.

(** ** Concrete lists *)

Lemma slist_refines_witness :
  slist.is_queued slist.new 5 = false ∧ slist.rep (slist.insert 5 slist.new) [5%nat].
Proof.
  destruct (slist.slist_refines slist.new [] 5) as (H1 & _ & H2 & _).
  - split; [reflexivity|]. intros e. apply lookup_empty.
  - split; [exact H1|]. apply H2. exact H1.
Defined.

Lemma dlist_refines_witness :
  dlist.is_queued dlist.new 5 = false ∧ dlist.rep (dlist.append 5 dlist.new) [5%nat].
Proof.
  destruct (dlist.dlist_refines dlist.new [] 5) as (H1 & _ & _ & H2 & _).
  - split; [reflexivity|]. split; [constructor|]. split; [exact I|].
    intros e _. split; apply lookup_empty.
  - split; [exact H1|]. apply H2. exact H1.
Defined.
