(* ===== verification/ServiceFuel.v ===== *)
(** * The recursions of the state machine are bounded

    [do_stop] recurses only after it has removed an explicit activation, and
    pulling the console queue recurses only after it has taken a service from
    the queue.  So the fuel that [do_stop] and [pull_console_queue] compute from
    the state is enough, and the flag [fault] is never set. *)

From S2P Require Import Prelude ServiceData Service ServiceInv ServiceInvOps.

Section bounds.
Context {X : Type}.
Implicit Types (st : sys X) (x y : sid) (d : did) (k m : nat).

(** The set of explicitly activated services. *)
Definition explicit_set st : gset sid :=
  dom (filter (λ p, start_explicit p.2 = true) (svcs st)).

Lemma elem_of_explicit_set st x : x ∈ explicit_set st ↔ start_explicit (svc st x) = true.
Proof.
  unfold explicit_set. rewrite elem_of_dom. unfold is_Some.
  setoid_rewrite map_lookup_filter_Some. unfold svc. simpl.
  destruct (svcs st !! x) as [r|] eqn:Hr; simpl; [naive_solver|].
  split; [by intros (? & ? & _)|done].
Qed.

Lemma explicit_count_size st : explicit_count st = size (explicit_set st).
Proof. unfold explicit_count, explicit_set. by rewrite size_dom. Qed.

Definition explicit_le st' st : Prop :=
  ∀ x, start_explicit (svc st' x) = true → start_explicit (svc st x) = true.

Lemma explicit_count_le st st' : explicit_le st' st → (explicit_count st' ≤ explicit_count st)%nat.
Proof.
  intros H. rewrite !explicit_count_size. apply subseteq_size.
  intros x. rewrite !elem_of_explicit_set. apply H.
Qed.

Lemma explicit_count_clear st x :
  start_explicit (svc st x) = true →
  (explicit_count (upd x (λ r, r <| start_explicit := false |>) st) < explicit_count st)%nat.
Proof.
  intros H. rewrite !explicit_count_size. apply subset_size. split.
  - intros y. rewrite !elem_of_explicit_set, svc_upd. by case_decide; rsimpl.
  - intros Hs. specialize (Hs x). rewrite !elem_of_explicit_set, svc_upd_eq in Hs.
    specialize (Hs H). by rsimpl_in Hs.
Qed.

(** No fault; at most [k] explicit activations; at most [m] services wait for
    the console. *)
Definition bounded k m st : Prop :=
  fault st = false ∧ (explicit_count st ≤ k)%nat ∧ (length (console_queue st) ≤ m)%nat.

Definition quiet_fault m st : Prop :=
  fault st = false ∧ (length (console_queue st) ≤ m)%nat.

Lemma bounded_step k m st st' :
  bounded k m st → explicit_le st' st → fault st' = fault st →
  (length (console_queue st') ≤ length (console_queue st))%nat → bounded k m st'.
Proof.
  intros (Hf & Hk & Hm) He Hf' Hl. split; [congruence|]. split; [|lia].
  apply explicit_count_le in He. lia.
Qed.

Definition no_new_explicit (f : service_record → service_record) : Prop :=
  ∀ r, start_explicit (f r) = true → start_explicit r = true.

Lemma bounded_upd k m x f st : no_new_explicit f → bounded k m st → bounded k m (upd x f st).
Proof.
  intros Hf H. eapply bounded_step; [done| |done..].
  intros y. rewrite svc_upd. case_decide; [apply Hf|done].
Qed.
Lemma bounded_upd_dep k m d f st : bounded k m st → bounded k m (upd_dep d f st).
Proof. intros H. by eapply bounded_step; [|intros ?|..]. Qed.
Lemma bounded_emit k m a st : bounded k m st → bounded k m (emit a st).
Proof. intros H. by eapply bounded_step; [|intros ?|..]. Qed.
Lemma bounded_notify `{!ServiceVirtual X} k m x e st : bounded k m st → bounded k m (notify_listeners x e st).
Proof. apply bounded_emit. Qed.
Lemma bounded_add_prop_queue k m x st : bounded k m st → bounded k m (add_prop_queue x st).
Proof.
  intros H. unfold add_prop_queue. destruct (slist_is_queued _ _); [done|].
  by eapply bounded_step; [|intros ?|..].
Qed.
Lemma bounded_add_transition_queue k m x st :
  bounded k m st → bounded k m (add_transition_queue x st).
Proof.
  intros H. unfold add_transition_queue. destruct (slist_is_queued _ _); [done|].
  by eapply bounded_step; [|intros ?|..].
Qed.
Lemma length_erase_first x l : (length (erase_first x l) ≤ length l)%nat.
Proof. induction l as [|y l IH]; simpl; [lia|]. case_decide; simpl; lia. Qed.
Lemma bounded_unqueue_console k m x st : bounded k m st → bounded k m (unqueue_console x st).
Proof.
  intros H. unfold unqueue_console. case_bool_decide; [|done].
  eapply bounded_step; [done|by intros ?|done|]. apply length_erase_first.
Qed.
Lemma bounded_weaken k k' m st : (k ≤ k')%nat → bounded k m st → bounded k' m st.
Proof. intros Hk (? & ? & ?). split; [done|]. split; [lia|done]. Qed.
Lemma bounded_leaf k m x st st' : leaf_step x st st' → bounded k m st → bounded k m st'.
Proof.
  intros Hl H. eapply bounded_step; [done| |apply (ls_fault _ _ _ Hl)|].
  - intros y. destruct (decide (y = x)) as [->|Hne].
    + rewrite (ls_same _ _ _ Hl). by rsimpl.
    + by rewrite (ls_other _ _ _ Hl).
  - by rewrite (ls_console _ _ _ Hl).
Qed.
End bounds.

#[export] Hint Extern 1 (no_new_explicit _) => (intros ?; rsimpl; solve [auto | done]) : fuel.
#[export] Hint Resolve bounded_upd bounded_upd_dep bounded_emit bounded_notify
  bounded_add_prop_queue bounded_add_transition_queue bounded_unqueue_console : fuel.

#[export] Hint Extern 1 (keeps _ _) => (intros ?; rsimpl; reflexivity) : fuel.

Ltac fsolve := repeat first [assumption | solve [eauto 8 with fuel nocore] | gstep].

Section nest.
Context {X : Type} `{!ServiceVirtual X} `{!ServiceVirtualLaws X}.
Implicit Types (st : sys X) (x y : sid) (d : did) (k m : nat).

Lemma bounded_interrupt_start k m x st :
  bounded k m st → bounded k m (interrupt_start x st).1.
Proof. eapply bounded_leaf, interrupt_start_leaf. Qed.
Lemma bounded_check_restart k m x st :
  bounded k m st → bounded k m (check_restart x st).1.
Proof. eapply bounded_leaf, check_restart_leaf. Qed.
#[local] Hint Resolve bounded_interrupt_start bounded_check_restart : fuel.

Lemma bounded_dependency_started k m x st :
  bounded k m st → bounded k m (dependency_started x st).
Proof. intros H. unfold dependency_started. fsolve. Qed.
Lemma bounded_forced_stop k m x st : bounded k m st → bounded k m (forced_stop x st).
Proof. intros H. unfold forced_stop. fsolve. Qed.
#[local] Hint Resolve bounded_dependency_started bounded_forced_stop : fuel.
Lemma bounded_unrecoverable_stop k m x st :
  bounded k m st → bounded k m (unrecoverable_stop x st).
Proof. intros H. unfold unrecoverable_stop. fsolve. Qed.
#[local] Hint Resolve bounded_unrecoverable_stop : fuel.

Section with_do_stop.
Context (rec : sid → bool → sys X → sys X) (k m : nat).

Lemma bounded_release_body k' x b st :
  (b = true → ∀ y w s, bounded k' m s → bounded k' m (rec y w s)) →
  bounded k' m st → bounded k' m (release_body rec x b st).
Proof.
  intros Hrec H. unfold release_body. gstep; [fsolve|].
  destruct (_ =? 0); [|done]. gstep; [fsolve|]. gstep; [fsolve|].
  destruct (is_start_pinned _); [done|].
  gstep; [fsolve|]. gstep; [fsolve|]. gstep; [fsolve|].
  apply when_inv; [done|]. intros [_ Hb]%andb_prop _. apply Hrec; [done|]. fsolve.
Qed.

(** The recursive call is made with fewer explicit activations. *)
Context (rec_bounded : ∀ k' y w s, (k' < k)%nat → bounded k' m s → bounded k' m (rec y w s)).

Lemma bounded_release_explicit x b st :
  start_explicit (svc st x) = true → bounded k m st →
  bounded k m (release_body rec x b (upd x (λ r, r <| start_explicit := false |>) st)).
Proof.
  intros He (Hf & Hk & Hm). pose proof (explicit_count_clear st x He).
  apply (bounded_weaken (explicit_count (upd x (λ r, r <| start_explicit := false |>) st)));
    [lia|].
  apply bounded_release_body; [|by split].
  intros _ y w s. apply rec_bounded. lia.
Qed.

Lemma bounded_release_quiet x st : bounded k m st → bounded k m (release_body rec x false st).
Proof. by apply bounded_release_body. Qed.
#[local] Hint Resolve bounded_release_quiet : fuel.

Lemma bounded_stop_dependents_turn x fr rd d st b :
  bounded k m st → bounded k m (stop_dependents_turn rec x fr rd d (st, b)).1.
Proof.
  intros H. unfold stop_dependents_turn. destruct (is_hard _); [|destruct (negb fr); [|done]];
    cbv zeta.
  - apply (seq_inv (bounded k m)); [fsolve|]. intros s1 H1.
    apply (seq_inv (bounded k m) (λ p, bounded k m p.1)); [|done].
    destruct (bool_decide _); [|done]. destruct (bool_decide _); [|fsolve].
    destruct (bool_decide _); [|done].
    gstep; [fsolve|]. gstep; [|fsolve].
    apply when_inv; [done|]. intros He _. by apply bounded_release_explicit.
  - apply (seq_inv (bounded k m) (λ p, bounded k m p.1)); [fsolve|]. intros s1 H1.
    apply (seq_inv (bounded k m) (λ p, bounded k m p.1)); [|done]. fsolve.
Qed.

Lemma bounded_do_stop_body x w st : bounded k m st → bounded k m (do_stop_body rec x w st).
Proof.
  intros H. unfold do_stop_body. destruct (is_start_pinned _); [done|].
  gstep; [fsolve|]. gstep; [fsolve|]. cbv zeta.
  apply (seq_pair_inv (bounded k m)).
  { gstep; [|done]. unfold seq.
    pose proof (bounded_check_restart k m x s0 H1) as Hc.
    destruct (check_restart x s0) as [s2 b2]. simpl in *. fsolve. }
  intros s2 fr H2. gstep.
  { apply when_inv; [done|]. intros _ _. fsolve. }
  apply (seq_pair_inv (bounded k m)).
  { unfold stop_dependents_body. apply (for_each_inv (λ p, bounded k m p.1)); [done|].
    intros d [s' b] _ Hs'. by apply bounded_stop_dependents_turn. }
  intros s4 b4 H4. unfold do_stop_tail, begin_stop. fsolve.
Qed.
End with_do_stop.

Lemma bounded_do_stop_fuel n : ∀ k m x w st,
  (k < n)%nat → bounded k m st → bounded k m (do_stop_fuel n x w st).
Proof.
  induction n as [|n IH]; intros k m x w st Hn H; simpl; [lia|].
  apply bounded_do_stop_body; [|done]. intros k' y w' s Hk'. apply IH. lia.
Qed.

Lemma bounded_do_stop k m x w st : bounded k m st → bounded k m (do_stop x w st).
Proof.
  intros H. unfold do_stop. destruct H as (Hf & Hk & Hm).
  apply (bounded_weaken (explicit_count st)); [done|].
  apply bounded_do_stop_fuel; [lia|by split].
Qed.
End nest.

(** ** Above [do_stop]

    The operations above [do_stop] keep every predicate that the elementary
    steps keep; [stopped], [started] and [failed_to_start], which hand the
    console on, take a predicate on the state before to one on the state after
    that. *)

Record step_closed {X} `{!ServiceVirtual X} (P : sys X → Prop) : Prop := {
  sc_ext : ext_closed P;
  sc_upd x f st : keeps f depends_on → keeps f dependents → P st → P (upd x f st);
  sc_upd_dep d f st :
    keeps f dep_from → keeps f dep_to → keeps f dep_type → P st → P (upd_dep d f st);
  sc_emit a st : P st → P (emit a st);
  sc_prop x st : P st → P (add_prop_queue x st);
  sc_transition x st : P st → P (add_transition_queue x st);
  sc_unqueue x st : P st → P (unqueue_console x st);
  sc_active x st : P st → P (service_active x st);
  sc_inactive x st : P st → P (service_inactive x st);
  sc_do_stop x w st : P st → P (do_stop x w st);
  sc_becoming x st : P st → P (becoming_inactive x st);
  sc_load name st : P st → P (load_service name st).1;
  sc_unfinished st : P st → P (set_unfinished st)
}.

Section closed.
Context {X : Type} `{!ServiceVirtual X} (P : sys X → Prop) (HP : step_closed P).
Implicit Types (st : sys X) (x y : sid) (d : did).

Let c_upd := sc_upd P HP.
Let c_upd_dep := sc_upd_dep P HP.
Let c_emit := sc_emit P HP.
Let c_prop := sc_prop P HP.
Let c_transition := sc_transition P HP.
Let c_unqueue := sc_unqueue P HP.
Let c_active := sc_active P HP.
Let c_inactive := sc_inactive P HP.
Let c_do_stop := sc_do_stop P HP.
Let c_becoming := sc_becoming P HP.
#[local] Hint Resolve c_upd c_upd_dep c_emit c_prop c_transition c_unqueue
  c_active c_inactive c_do_stop c_becoming : fuel.

Lemma closed_notify x e st : P st → P (notify_listeners x e st).
Proof. apply (sc_emit P HP). Qed.
#[local] Hint Resolve closed_notify : fuel.

Lemma closed_forced_stop x st : P st → P (forced_stop x st).
Proof. intros H. unfold forced_stop. fsolve. Qed.
#[local] Hint Resolve closed_forced_stop : fuel.
Lemma closed_unrecoverable_stop x st : P st → P (unrecoverable_stop x st).
Proof. intros H. unfold unrecoverable_stop. fsolve. Qed.
Lemma closed_dependency_started x st : P st → P (dependency_started x st).
Proof. intros H. unfold dependency_started. fsolve. Qed.
Lemma closed_dependent_stopped x st : P st → P (dependent_stopped x st).
Proof. intros H. unfold dependent_stopped. fsolve. Qed.
Lemma closed_require x st : P st → P (require x st).
Proof. intros H. unfold require. fsolve. Qed.
Lemma closed_release x b st : P st → P (release x b st).
Proof. intros H. unfold release, release_body. fsolve. Qed.
#[local] Hint Resolve closed_dependency_started closed_dependent_stopped closed_require
  closed_release : fuel.
Lemma closed_release_dependencies x st : P st → P (release_dependencies x st).
Proof. intros H. unfold release_dependencies. fsolve. Qed.
Lemma closed_stop x b st : P st → P (stop x b st).
Proof.
  intros H. unfold stop. gstep; [fsolve|]. gstep; [fsolve|]. gstep; [done|].
  apply (seq_inv (λ p, P p.2)).
  - destruct (_ =? 0); [|done]. apply (seq_inv P (λ p, P p.2)); [fsolve|].
    intros s1 Hs. simpl. fsolve.
  - intros [b' s1] Hs. simpl in *. fsolve.
Qed.
Lemma closed_restart x st : P st → P (restart x st).1.
Proof. intros H. unfold restart. destruct (bool_decide _); [|done]. unfold seq; simpl. fsolve. Qed.
Lemma closed_start_check x st : P st → P (start_check_dependencies x st).1.
Proof.
  intros H. unfold start_check_dependencies. apply (seq_inv (λ p, P p.1)).
  - apply (for_each_inv (λ p, P p.1)); [done|]. intros d [s b] _ Hs. unfold start_check_turn.
    destruct (_ && _); [done|]. destruct (bool_decide _); [|done]. simpl in *. fsolve.
  - intros [s b] Hs. simpl in Hs. apply (seq_inv P (λ p, P p.1)); [|done].
    unfold hold_back_turn. fsolve.
Qed.
#[local] Hint Resolve closed_release_dependencies closed_start_check : fuel.
Lemma closed_initiate_start x st : P st → P (initiate_start x st).
Proof. intros H. unfold initiate_start. fsolve. Qed.
Lemma closed_fail_start x b st : P st → P (fail_start x b st).
Proof. intros H. unfold fail_start, fail_dependent. fsolve. Qed.
#[local] Hint Resolve closed_initiate_start closed_fail_start : fuel.
Lemma closed_do_start x st : P st → P (do_start x st).
Proof.
  intros H. unfold do_start. gstep; [fsolve|]. gstep; [fsolve|]. gstep; [|fsolve].
  apply when_inv; [done|]. intros _ _. apply for_each_inv; [done|].
  intros d s' _ Hs'. unfold reattach_dependent. fsolve.
Qed.
#[local] Hint Resolve closed_do_start : fuel.
Lemma closed_start x st : P st → P (start x st).
Proof. intros H. unfold start. fsolve. Qed.
#[local] Hint Resolve closed_start : fuel.
Lemma closed_break_soft_link x d st : P st → P (break_soft_link x d st).
Proof. intros H. unfold break_soft_link. fsolve. Qed.
#[local] Hint Resolve closed_break_soft_link : fuel.
Lemma closed_chain_to x b st : P st → P (chain_to x b st).
Proof.
  intros H. unfold chain_to. apply when_inv; [done|]. intros _ _.
  pose proof (sc_load P HP (start_on_completion (svc st x)) st H) as Hld.
  destruct (load_service _ st) as [s [y|]]; simpl in Hld; fsolve.
Qed.
#[local] Hint Resolve closed_chain_to : fuel.
Lemma closed_core_steps : core_steps P.
Proof.
  split; [apply (sc_ext P HP)| | | | |].
  - intros x f st Hf. apply (sc_upd P HP); intros r; rewrite Hf; by rsimpl.
  - apply closed_unrecoverable_stop.
  - apply closed_initiate_start.
  - apply (sc_do_stop P HP).
  - apply (sc_unfinished P HP).
Qed.

(** The propagation steps that do not hand the console on. *)
Lemma closed_propagate_require x st : P st → P (propagate_require x st).
Proof. intros H. unfold propagate_require. fsolve. Qed.
Lemma closed_propagate_release x st : P st → P (propagate_release x st).
Proof. intros H. unfold propagate_release. fsolve. Qed.
Lemma closed_propagate_start x st : P st → P (propagate_start x st).
Proof. intros H. unfold propagate_start. fsolve. Qed.
Lemma closed_propagate_stop x st : P st → P (propagate_stop x st).
Proof. intros H. unfold propagate_stop. fsolve. Qed.
Lemma closed_queue_pin_update x d b st : P st → P (queue_pin_update x d b st).
Proof. intros H. unfold queue_pin_update. fsolve. Qed.
#[local] Hint Resolve closed_queue_pin_update : fuel.
Lemma closed_propagate_pin x st : P st → P (propagate_pin x st).
Proof. intros H. unfold propagate_pin. fsolve. Qed.
Lemma closed_pin_start x st : P st → P (pin_start x st).
Proof. intros H. unfold pin_start. fsolve. Qed.
Lemma closed_unpin_stop x st : P st → P (unpin_stop x st).
Proof. intros H. unfold unpin_stop. fsolve. Qed.
End closed.

Section handing_on.
Context {X : Type} `{!ServiceVirtual X} `{!ServiceBring X} `{!ServiceBringLaws X}.
Context (P Q : sys X → Prop) (HP : step_closed P) (HQ : step_closed Q).
Context (PQ : ∀ st, P st → Q st) (pull : sys X → sys X).
Context (pull_PQ : ∀ st, P st → Q (pull st)).
Implicit Types (st : sys X) (x y : sid) (d : did).

Let p_upd := sc_upd P HP.
Let p_emit := sc_emit P HP.
Let q_upd := sc_upd Q HQ.
Let q_upd_dep := sc_upd_dep Q HQ.
Let q_emit := sc_emit Q HQ.
Let q_inactive := sc_inactive Q HQ.
Let q_do_stop := sc_do_stop Q HQ.
Let q_becoming := sc_becoming Q HQ.
Let q_notify := closed_notify Q HQ.
Let q_initiate := closed_initiate_start Q HQ.
Let q_release := closed_release Q HQ.
Let q_chain := closed_chain_to Q HQ.
Let q_break := closed_break_soft_link Q HQ.
Let q_dependent := closed_dependent_stopped Q HQ.
Let q_dependency := closed_dependency_started Q HQ.
Let p_fail := closed_fail_start P HP.
#[local] Hint Resolve PQ pull_PQ p_upd p_emit q_upd q_upd_dep q_emit q_inactive q_do_stop
  q_becoming q_notify q_initiate q_release q_chain q_break q_dependent q_dependency
  p_fail : fuel.

Lemma handed_release_console x st : P st → Q (release_console pull x st).
Proof. intros H. unfold release_console. fsolve. Qed.
#[local] Hint Resolve handed_release_console : fuel.

Lemma handed_release_fg x b st :
  P st → Q (when b (λ st, release_console pull x (emit Reset_foreground_pgrp st)) st).
Proof. intros H. destruct b; simpl; auto. by apply handed_release_console, p_emit. Qed.

Lemma handed_stopped x st : P st → Q (stopped pull x st).
Proof.
  intros H. unfold stopped. apply (seq_inv Q); [by apply handed_release_fg|].
  intros s Hs. fsolve.
Qed.
Lemma handed_started x st : P st → Q (started pull x st).
Proof.
  intros H. unfold started. apply (seq_inv Q); [by apply handed_release_fg|].
  intros s Hs. fsolve.
Qed.
Lemma handed_failed_to_start x b b' st : P st → Q (failed_to_start pull x b b' st).
Proof.
  intros H. unfold failed_to_start.
  destruct b'; simpl; [|auto with fuel]. by apply handed_stopped, p_fail.
Qed.

Context (pq : sys X → sys X) (pq_Q : ∀ st, Q st → Q (pq st)).

Lemma handed_core_closed : core_closed P Q pull pq.
Proof.
  split; auto using closed_core_steps, handed_started, handed_failed_to_start, handed_stopped.
Qed.

(** The console is there, or is not needed. *)
Lemma handed_all_deps_started x st :
  starts_on_console (onstart_flags (svc st x)) && negb (have_console (svc st x)) = false →
  P st → Q (all_deps_started pull pq x st).
Proof.
  intros Hc H. unfold all_deps_started. rewrite Hc.
  apply (seq_inv P); [by apply p_upd; auto with fuel|]. intros s Hs. unfold seq.
  pose proof (bring_up_closed P Q pull pq x s handed_core_closed Hs) as [H1 H2].
  destruct (bring_up pull pq x s) as [s1 []]; cbn in H1, H2; [done|].
  apply handed_failed_to_start. apply p_upd; auto with fuel.
Qed.
End handing_on.

Section fault.
Context {X : Type} `{!ServiceVirtual X} `{!ServiceVirtualLaws X}.
Context `{!ServiceBring X} `{!ServiceBringLaws X}.
Implicit Types (st : sys X) (x y : sid) (d : did) (m : nat).

Definition no_fault st : Prop := fault st = false.

Lemma quiet_bounded m st : quiet_fault m st ↔ bounded (explicit_count st) m st.
Proof. unfold quiet_fault, bounded. naive_solver. Qed.

Lemma quiet_do_stop m x w st : quiet_fault m st → quiet_fault m (do_stop x w st).
Proof.
  intros H%quiet_bounded.
  apply (bounded_do_stop (explicit_count st) m x w) in H as (?&_&?). by split.
Qed.

Lemma quiet_same m st st' :
  fault st' = fault st → (length (console_queue st') ≤ length (console_queue st))%nat →
  quiet_fault m st → quiet_fault m st'.
Proof. intros Hf Hl [H1 H2]. split; [congruence|lia]. Qed.

Lemma quiet_step_closed m : step_closed (quiet_fault (X:=X) m).
Proof.
  assert (∀ (f : sys X → sys X),
    (∀ st, fault (f st) = fault st
      ∧ (length (console_queue (f st)) ≤ length (console_queue st))%nat) →
    ∀ st, quiet_fault m st → quiet_fault m (f st)) as Hs.
  { intros f Hf st. destruct (Hf st). by apply quiet_same. }
  split.
  - intros st tr e. by apply (Hs (λ st, st <| trace := tr |> <| ext := e |>)).
  - intros x f st _ _. by apply (Hs (upd x f)).
  - intros d f st _ _ _. by apply (Hs (upd_dep d f)).
  - intros a. by apply Hs.
  - intros x. apply Hs. intros. unfold add_prop_queue. by destruct (slist_is_queued _ _).
  - intros x. apply Hs. intros. unfold add_transition_queue. by destruct (slist_is_queued _ _).
  - intros x. apply Hs. intros. unfold unqueue_console. case_bool_decide; [|done].
    split; [done|]. apply length_erase_first.
  - intros x. by apply Hs.
  - intros x. by apply Hs.
  - intros x w st. apply quiet_do_stop.
  - intros x. apply Hs. intros st.
    by rewrite (ls_fault _ _ _ (becoming_inactive_leaf x st)),
      (ls_console _ _ _ (becoming_inactive_leaf x st)).
  - intros name. apply (Hs (λ st, (load_service name st).1)). intros st.
    by rewrite load_service_fault, load_service_console.
  - by apply (Hs set_unfinished).
Qed.

Lemma no_fault_step_closed : step_closed no_fault.
Proof.
  assert (∀ st, no_fault st ↔ quiet_fault (length (console_queue st)) st) as Hq.
  { unfold no_fault, quiet_fault. naive_solver. }
  assert (∀ (f : sys X → sys X), (∀ m st, quiet_fault m st → quiet_fault m (f st)) →
    ∀ st, no_fault st → no_fault (f st)) as Hlift.
  { intros f Hf st [H _]%Hq%Hf. done. }
  split.
  - intros st tr e. by apply (Hlift (λ st, st <| trace := tr |> <| ext := e |>)).
  - intros x f st H1 H2. apply Hlift. intros m st'. by apply (sc_upd _ (quiet_step_closed m)).
  - intros x f st H1 H2 H3. apply Hlift. intros m st'. by apply (sc_upd_dep _ (quiet_step_closed m)).
  - intros a st. by apply Hlift.
  - intros x st. apply Hlift. intros m. apply (sc_prop _ (quiet_step_closed m)).
  - intros x st. apply Hlift. intros m. apply (sc_transition _ (quiet_step_closed m)).
  - intros x st. apply Hlift. intros m. apply (sc_unqueue _ (quiet_step_closed m)).
  - intros x st. by apply Hlift.
  - intros x st. by apply Hlift.
  - intros x w st. apply Hlift. intros m. apply quiet_do_stop.
  - intros x st. apply Hlift. intros m. apply (sc_becoming _ (quiet_step_closed m)).
  - intros x st. apply (Hlift (λ st, (load_service x st).1)).
    intros m. apply (sc_load _ (quiet_step_closed m)).
  - intros st. apply Hlift. intros m. apply (sc_unfinished _ (quiet_step_closed m)).
Qed.

Section with_pq.
Context (pq : sys X → sys X) (pq_no_fault : ∀ st, no_fault st → no_fault (pq st)).

Lemma no_fault_pull_fuel m : ∀ st,
  quiet_fault m st → no_fault (pull_console_queue_fuel pq (S m) st).
Proof.
  induction m as [|m IH]; intros st [Hf Hl].
  - simpl. unfold pull_console_queue_body.
    destruct (console_queue st) as [|x rest]; [|simpl in Hl; lia].
    by apply enable_console_log_true; [apply no_fault_step_closed|].
  - change (pull_console_queue_fuel pq (S (S m)) st)
      with (pull_console_queue_body (pull_console_queue_fuel pq (S m)) pq st).
    unfold pull_console_queue_body.
    destruct (console_queue st) as [|x rest] eqn:Hc.
    { by apply enable_console_log_true; [apply no_fault_step_closed|]. }
    simpl in Hl. unfold acquired_console, seq.
    assert (quiet_fault m (upd x (λ r, r <| have_console := true |>)
      (upd x (λ r, r <| waiting_for_console := false |>)
         (st <| console_queue := rest |>)))) as Hq.
    { split; [done|]. unfold upd; rsimpl. lia. }
    assert (no_fault (release_console (pull_console_queue_fuel pq (S m)) x
      (upd x (λ r, r <| have_console := true |>)
      (upd x (λ r, r <| waiting_for_console := false |>)
         (st <| console_queue := rest |>))))) as Hrel.
    { unfold release_console. apply IH, (sc_upd _ (quiet_step_closed m)); auto with fuel. }
    destruct (bool_decide _); [done|]. destruct (check_deps_started _ _); [|done].
    apply (handed_all_deps_started (quiet_fault m)); auto using quiet_step_closed,
      no_fault_step_closed.
    + by intros ? [].
    + rewrite svc_upd_eq. rsimpl. apply andb_false_r.
Qed.

Lemma no_fault_pull st : no_fault st → no_fault (pull_console_queue pq st).
Proof. intros H. by apply no_fault_pull_fuel. Qed.
#[local] Hint Resolve no_fault_step_closed no_fault_pull pq_no_fault : fuel.

Lemma no_fault_all_deps_started x st :
  no_fault st → no_fault (all_deps_started (pull_console_queue pq) pq x st).
Proof.
  intros H.
  destruct (starts_on_console (onstart_flags (svc st x)) && negb (have_console (svc st x)))
    eqn:Hc; [|by apply (handed_all_deps_started no_fault); auto with fuel].
  unfold all_deps_started. rewrite Hc. unfold queue_for_console, append_console_queue. cbv zeta.
  apply (seq_inv no_fault); [done|]. intros s Hs. apply when_inv; [done|]. intros _ _.
  apply enable_console_log_false; auto with fuel. apply no_fault_step_closed.
Qed.

Lemma no_fault_failed_to_start x b b' st :
  no_fault st → no_fault (failed_to_start (pull_console_queue pq) x b b' st).
Proof. apply handed_failed_to_start; auto with fuel. Qed.

Lemma no_fault_core_closed :
  core_closed no_fault no_fault (pull_console_queue pq) pq.
Proof. apply handed_core_closed; auto with fuel. Qed.

Lemma no_fault_execute_transition x st :
  no_fault st → no_fault (execute_transition pq x st).
Proof.
  intros H. unfold execute_transition. destruct (service_state _); try done.
  - apply when_inv; [done|]. intros _ _. by apply no_fault_all_deps_started.
  - apply when_inv; [done|]. intros _ _. gstep; [done|]. gstep; [by gstep|].
    by eapply bring_down_closed; [apply no_fault_core_closed|].
Qed.

Lemma no_fault_do_propagation x st : no_fault st → no_fault (do_propagation pq x st).
Proof.
  intros H. unfold do_propagation.
  gstep; [by apply closed_propagate_require; auto with fuel|].
  gstep; [by apply closed_propagate_release; auto with fuel|].
  gstep.
  { unfold propagate_failure. gstep; [done|]. unfold seq.
    by apply no_fault_failed_to_start. }
  gstep; [by apply closed_propagate_start; auto with fuel|].
  gstep; [by apply closed_propagate_stop; auto with fuel|].
  by apply closed_propagate_pin; auto with fuel.
Qed.

Lemma no_fault_turn st st' :
  process_queues_turn pq st = Some st' → no_fault st → no_fault st'.
Proof.
  unfold process_queues_turn. intros Ht H.
  destruct (prop_queue st) as [|x rest]; [|simplify_eq; by apply no_fault_do_propagation].
  destruct (stop_queue st) as [|x rest]; [done|].
  simplify_eq. by apply no_fault_execute_transition.
Qed.
End with_pq.

Lemma no_fault_process_queues n : ∀ st, no_fault st → no_fault (process_queues n st).
Proof.
  induction n as [|n IH]; intros st H; simpl.
  - by destruct (_ && _).
  - destruct (process_queues_turn (process_queues n) st) as [st'|] eqn:Ht; [|done].
    apply IH. by eapply no_fault_turn.
Qed.
End fault.
