(* ===== verification/ServiceLinks.v ===== *)
(** * The dependency graph and the driver

    Nothing that [process_queues] does changes which service depends on which: the lists of
    dependencies and dependents and the ends of the records stay what they are. *)

From S2P Require Import Prelude ServiceData Service ServiceInv ServiceInvOps ServiceFuel.

(** The two service sets have the same dependency graph. *)
Record same_links {X} (st0 st : sys X) : Prop := {
  sl_depends y : depends_on (svc st y) = depends_on (svc st0 y);
  sl_dependents y : dependents (svc st y) = dependents (svc st0 y);
  sl_from d : dep_from (dep st d) = dep_from (dep st0 d);
  sl_to d : dep_to (dep st d) = dep_to (dep st0 d);
  sl_type d : dep_type (dep st d) = dep_type (dep st0 d)
}.

Class ServiceLinkLaws (X : Type) `{!ServiceVirtual X} := {
  load_service_links name (st : sys X) : same_links st (load_service name st).1
}.

Section links.
Context {X : Type} `{!ServiceVirtual X} `{!ServiceVirtualLaws X} (st0 : sys X).
Implicit Types (st : sys X) (x y : sid) (d : did).

Abbreviation L := (same_links st0).

Lemma links_same st st' :
  (∀ y, svc st' y = svc st y) → (∀ d, dep st' d = dep st d) → L st → L st'.
Proof. intros Hs Hd [H1 H2 H3 H4 H5]. split; intros; by rewrite ?Hs, ?Hd. Qed.

Lemma links_trans st st' : L st → same_links st st' → L st'.
Proof. intros [H1 H2 H3 H4 H5] [J1 J2 J3 J4 J5]. split; intros; congruence. Qed.

Lemma links_upd x f st :
  keeps f depends_on → keeps f dependents → L st → L (upd x f st).
Proof.
  intros K1 K2 [H1 H2 H3 H4 H5]. split; [| |done..]; intros y; rewrite svc_upd; case_decide;
    rewrite ?K1, ?K2; done.
Qed.
Lemma links_upd_dep e f st :
  keeps f dep_from → keeps f dep_to → keeps f dep_type → L st → L (upd_dep e f st).
Proof.
  intros K1 K2 K3 [H1 H2 H3 H4 H5]. split; [done|done|..]; intros d; rewrite dep_upd_dep; case_decide;
    rewrite ?K1, ?K2, ?K3; done.
Qed.
Lemma links_emit a st : L st → L (emit a st).
Proof. by apply links_same. Qed.
Lemma links_fault st : L st → L (set_fault st).
Proof. by apply links_same. Qed.
Lemma links_notify x e st : L st → L (notify_listeners x e st).
Proof. by apply links_same. Qed.
Lemma links_add_prop_queue x st : L st → L (add_prop_queue x st).
Proof. unfold add_prop_queue. destruct (slist_is_queued _ _); by apply links_same. Qed.
Lemma links_add_transition_queue x st : L st → L (add_transition_queue x st).
Proof. unfold add_transition_queue. destruct (slist_is_queued _ _); by apply links_same. Qed.
Lemma links_unqueue x st : L st → L (unqueue_console x st).
Proof. unfold unqueue_console. destruct (bool_decide _); by apply links_same. Qed.

Lemma links_leaf x st st' : leaf_step x st st' → L st → L st'.
Proof.
  intros [Ho Hs Hd _ _ _ _ _ _ _] H.
  assert (∀ y, depends_on (svc st' y) = depends_on (svc st y)
               ∧ dependents (svc st' y) = dependents (svc st y)) as Hl.
  { intros y. destruct (decide (y = x)) as [->|Hy]; [|by rewrite Ho].
    rewrite Hs. by rsimpl. }
  destruct H as [H1 H2 H3 H4 H5]. split; intros; unfold dep in *; rewrite ?Hd; auto.
  - by rewrite (proj1 (Hl y)).
  - by rewrite (proj2 (Hl y)).
Qed.
Lemma links_interrupt_start x st : L st → L (interrupt_start x st).1.
Proof. eapply links_leaf, interrupt_start_leaf. Qed.
Lemma links_check_restart x st : L st → L (check_restart x st).1.
Proof. eapply links_leaf, check_restart_leaf. Qed.
Lemma links_becoming x st : L st → L (becoming_inactive x st).
Proof. eapply links_leaf, becoming_inactive_leaf. Qed.
#[local] Hint Resolve links_upd links_upd_dep links_emit links_notify links_add_prop_queue
  links_add_transition_queue links_unqueue links_interrupt_start links_check_restart
  links_becoming links_fault : fuel.

(** *** [do_stop] *)

Lemma links_dependency_started x st : L st → L (dependency_started x st).
Proof. intros H. unfold dependency_started. fsolve. Qed.
Lemma links_forced_stop x st : L st → L (forced_stop x st).
Proof. intros H. unfold forced_stop. fsolve. Qed.
#[local] Hint Resolve links_dependency_started links_forced_stop : fuel.
Lemma links_unrecoverable_stop x st : L st → L (unrecoverable_stop x st).
Proof. intros H. unfold unrecoverable_stop. fsolve. Qed.
#[local] Hint Resolve links_unrecoverable_stop : fuel.

Lemma links_do_stop_fuel n : ∀ x w st, L st → L (do_stop_fuel n x w st).
Proof.
  induction n as [|n IH]; intros x w st H; [by apply links_fault|]. cbn [do_stop_fuel].
  assert (∀ x b st, L st → L (release_body (do_stop_fuel n) x b st)) as Hrel.
  { intros y b s Hs. unfold release_body. fsolve. }
  unfold do_stop_body. destruct (is_start_pinned _); [done|].
  gstep; [fsolve|]. gstep; [fsolve|]. cbv zeta. apply (seq_pair_inv L).
  { gstep; [|done]. unfold seq. pose proof (links_check_restart x s0 H1) as Hc.
    destruct (check_restart x s0) as [s2 b2]. simpl in *. fsolve. }
  intros s2 fr H2. gstep; [gstep; [done|]; apply Hrel; fsolve|].
  apply (seq_pair_inv L).
  { unfold stop_dependents_body. apply (for_each_inv (λ p, L p.1)); [done|].
    intros d [s' b] _ Hs'. cbn [fst] in Hs'. unfold stop_dependents_turn.
    destruct (is_hard _); [|destruct (negb fr); [|done]]; cbv zeta.
    - apply (seq_inv L); [fsolve|]. intros s4 H4.
      apply (seq_inv L (λ p, L p.1)); [|done]. fsolve.
    - apply (seq_inv L (λ p, L p.1)); [fsolve|]. intros s4 H4.
      apply (seq_inv L (λ p, L p.1)); [|done]. fsolve. }
  intros s4 b4 H4. unfold do_stop_tail, begin_stop. fsolve.
Qed.
Lemma links_do_stop x w st : L st → L (do_stop x w st).
Proof. apply links_do_stop_fuel. Qed.

Context `{!ServiceLinkLaws X}.

Lemma links_step_closed : step_closed L.
Proof.
  split; auto with fuel.
  - intros st tr e. by apply links_same.
  - intros x st. by apply links_same.
  - intros x st. by apply links_same.
  - apply links_do_stop.
  - intros name st H. eapply links_trans; [done|]. apply load_service_links.
  - intros st. by apply links_same.
Qed.

(** *** The queues *)

Context `{!ServiceBring X} `{!ServiceBringLaws X}.

Section with_pq.
Context (pq : sys X → sys X) (pq_links : ∀ st, L st → L (pq st)).

Lemma links_all_deps_started pull x st :
  (∀ st, L st → L (pull st)) → L st → L (all_deps_started pull pq x st).
Proof.
  intros Hpull H.
  destruct (starts_on_console (onstart_flags (svc st x)) && negb (have_console (svc st x)))
    eqn:Hc; [|by apply (handed_all_deps_started L); auto using links_step_closed].
  unfold all_deps_started. rewrite Hc. unfold queue_for_console, append_console_queue. cbv zeta.
  apply (seq_inv L).
  { apply (links_same (upd x (λ r, r <| waiting_for_console := true |>) st)); [done..|fsolve]. }
  intros s Hs. apply when_inv; [done|]. intros _ _.
  by apply enable_console_log_false; [apply (sc_ext _ links_step_closed)|..].
Qed.

Lemma links_pull_fuel m : ∀ st, L st → L (pull_console_queue_fuel pq m st).
Proof.
  induction m as [|m IH]; intros st H; [by apply links_fault|]. cbn [pull_console_queue_fuel].
  unfold pull_console_queue_body. destruct (console_queue st) as [|x rest].
  { apply enable_console_log_true; [apply (sc_ext _ links_step_closed)|by apply links_emit]. }
  unfold acquired_console. gstep.
  { apply links_upd; [auto with fuel..|]. by apply (links_same st). }
  gstep; [fsolve|].
  assert (L (release_console (pull_console_queue_fuel pq m) x s0)) as Hrel.
  { unfold release_console. apply IH. fsolve. }
  gstep; [done|]. gstep; [|done]. by apply links_all_deps_started.
Qed.
Lemma links_pull st : L st → L (pull_console_queue pq st).
Proof. apply links_pull_fuel. Qed.

Lemma links_core_closed : core_closed L L (pull_console_queue pq) pq.
Proof. apply handed_core_closed; auto using links_step_closed, links_pull. Qed.

Lemma links_turn st st' : process_queues_turn pq st = Some st' → L st → L st'.
Proof.
  unfold process_queues_turn. intros Ht H. pose proof links_step_closed as HC.
  destruct (prop_queue st) as [|x rest].
  - destruct (stop_queue st) as [|x rest]; [done|]. simplify_eq.
    unfold execute_transition.
    assert (L (st <| stop_queue := rest |>)) as H1 by (by apply (links_same st)).
    destruct (service_state _); try done.
    + apply when_inv; [done|]. intros _ _.
      apply links_all_deps_started; [apply links_pull|]. by apply links_upd; auto with fuel.
    + apply when_inv; [done|]. intros _ _. gstep; [fsolve|].
      gstep; [gstep; [done|]; by apply links_emit|].
      by eapply bring_down_closed; [apply links_core_closed|].
  - simplify_eq. unfold do_propagation.
    assert (L (st <| prop_queue := rest |>)) as H1 by (by apply (links_same st)).
    gstep; [by apply closed_propagate_require|].
    gstep; [by apply closed_propagate_release|].
    gstep.
    { unfold propagate_failure. gstep; [done|]. gstep; [fsolve|].
      apply (handed_failed_to_start L L HC HC (λ _ H, H) _ links_pull). fsolve. }
    gstep; [by apply closed_propagate_start|].
    gstep; [by apply closed_propagate_stop|].
    by apply closed_propagate_pin.
Qed.
End with_pq.

Lemma links_process_queues n : ∀ st, L st → L (process_queues n st).
Proof.
  induction n as [|n IH]; intros st H; simpl.
  - destruct (_ && _); [done|]. by apply (links_same st).
  - destruct (process_queues_turn (process_queues n) st) as [st'|] eqn:Ht; [|done].
    apply IH. by eapply links_turn.
Qed.

Lemma links_start_dep d st : L st → L (start_dep d st).
Proof.
  intros H. unfold start_dep. gstep; [done|]. apply links_upd_dep; [auto with fuel..|].
  by apply closed_require; [apply links_step_closed|].
Qed.
End links.

Lemma same_links_refl {X} (st : sys X) : same_links st st.
Proof. done. Qed.
