(* ===== verification/ServiceReach.v ===== *)
(** * Reachable states of the service set

    The events of the service set as a step relation: every public operation of
    [service_record] and [service_set], the setters that the loader uses, a turn
    of the queues, and whatever a derived class does through the operations it
    inherits.  Every state that a sequence of events reaches from the empty set
    satisfies the acquisition and propagation invariant, and no bounded
    recursion of the model has run out of fuel in it. *)

From S2P Require Import Prelude ServiceData Service ServiceInv ServiceInvOps ServiceGraph ServiceFuel.

Section steps.
Context {X : Type} `{!ServiceVirtual X} `{!ServiceBring X}.
Implicit Types (st : sys X) (x y : sid) (d : did).

(** The part of the record that the loader sets and the state machine reads. *)
Definition config_update (f : service_record → service_record) : Prop :=
  ∀ r, f r = r <| auto_restart := auto_restart (f r) |>
               <| smooth_recovery := smooth_recovery (f r) |>
               <| onstart_flags := onstart_flags (f r) |>
               <| start_on_completion := start_on_completion (f r) |>
               <| listeners := listeners (f r) |>
               <| is_loading := is_loading (f r) |>
               <| log_consumer := log_consumer (f r) |>
               <| service_dsc_dir := service_dsc_dir (f r) |>.

(** What the handler of an event of a derived class does: it keeps every
    predicate that the operations of the base class keep. *)
Definition derived_event (n : nat) st st' : Prop :=
  ∀ P : sys X → Prop,
    core_closed P P (pull_console_queue (process_queues n)) (process_queues n) →
    P st → P st'.

Inductive set_step : sys X → sys X → Prop :=
| step_start x st : set_step st (start x st)
| step_stop x b st : set_step st (stop x b st)
| step_restart x st : set_step st (restart x st).1
| step_forced_stop x st : set_step st (forced_stop x st)
| step_pin_start x st : set_step st (pin_start x st)
| step_pin_stop x st : set_step st (pin_stop x st)
| step_unpin n x st : set_step st (unpin n x st)
| step_add_dep x to ty i st : set_step st (add_dep x to ty i st).1
| step_rm_dep x to ty st : set_step st (rm_dep x to ty st).1
| step_start_dep x d st :
    d ∈ depends_on (svc st x) ∨ d ∈ dependents (svc st x) → set_step st (start_dep d st)
| step_construct x name ty deplist st :
    x ∉ dom (svcs st) → set_step st (construct x name ty deplist st)
| step_configure x f st : config_update f → set_step st (upd x f st)
| step_add_service x st : set_step st (add_service x st)
| step_remove_service x st : set_step st (remove_service x st)
| step_load name st : set_step st (load_service name st).1
| step_process n st : set_step st (process_queues n st)
| step_turn n st st' :
    process_queues_turn (process_queues n) st = Some st' → set_step st st'
| step_stop_all n type st : set_step st (stop_all_services n type st)
| step_derived n st st' : derived_event n st st' → set_step st st'.

Definition reachable st : Prop := ∃ e, rtc set_step (service_set_new e) st.
End steps.

Section invariant.
Context {X : Type} `{!ServiceVirtual X} `{!ServiceVirtualLaws X}.
Context `{!ServiceBring X} `{!ServiceBringLaws X}.
Implicit Types (st : sys X) (x y : sid) (d : did) (ex : sid → prop_flag → bool).

Abbreviation IE ex := (InvE (X:=X) false no_credit ex).

(** The exemption of every flag of a service that has left the queue. *)
Definition exempt_all x ex : sid → prop_flag → bool :=
  exempt x F_require (exempt x F_release (exempt x F_failure
    (exempt x F_start (exempt x F_stop ex)))).

Lemma exempt_all_self x ex f : exempt_all x ex x f = true.
Proof.
  unfold exempt_all, exempt. rewrite (bool_decide_eq_true_2 (x = x)) by done.
  destruct f; simpl; rewrite ?orb_true_r; done.
Qed.
Lemma exempt_all_weak x ex y f : exempt_all x ex y f = false → ex y f = false.
Proof.
  unfold exempt_all, exempt. rewrite !orb_false_iff. tauto.
Qed.

Lemma inve_pop ex x rest st :
  prop_queue st = x :: rest → IE ex st →
  IE (exempt_all x ex) (st <| prop_queue := rest |>).
Proof.
  intros Hq (G & Hl & [Hg Hd Hal Ha Hp]). exists G. split; [done|].
  assert (∀ y, held_in (st <| prop_queue := rest |>) (g_dpts G y) = held_in st (g_dpts G y))
    as Hh by (intros; by apply held_in_ext).
  split; [exact Hg|done|exact Hal|intros y; rewrite Hh; apply Ha|].
  intros y f Hex Hf. rsimpl.
  destruct (decide (y = x)) as [->|Hne]; [by rewrite exempt_all_self in Hex|].
  specialize (Hp y f (exempt_all_weak _ _ _ _ Hex) Hf). rewrite Hq in Hp. set_solver.
Qed.

Lemma inve_same ex st st' :
  svcs st' = svcs st → deps st' = deps st → prop_queue st ⊆ prop_queue st' →
  IE ex st → IE ex st'.
Proof. intros H1 H2 H3 (G & Hl & H). exists G. split; [done|]. by eapply inv_same. Qed.

Section with_pq.
Context (pq : sys X → sys X) (pq_inv : ∀ ex st, IE ex st → IE ex (pq st)).

Lemma inve_do_propagation ex x st :
  IE (exempt_all x ex) st → IE ex (do_propagation pq x st).
Proof.
  intros H. unfold do_propagation.
  eapply seq_inv; [by apply inve_propagate_require|]. intros s1 H1.
  eapply seq_inv; [by apply inve_propagate_release|]. intros s2 H2.
  eapply seq_inv; [by apply inve_propagate_failure|]. intros s3 H3.
  eapply seq_inv; [by apply inve_propagate_start|]. intros s4 H4.
  eapply seq_inv; [by apply inve_propagate_stop|]. intros s5 H5.
  by apply inve_propagate_pin.
Qed.

Lemma inve_turn ex st st' :
  process_queues_turn pq st = Some st' → IE ex st → IE ex st'.
Proof.
  unfold process_queues_turn. intros Ht H.
  destruct (prop_queue st) as [|x rest] eqn:Hq.
  - destruct (stop_queue st) as [|x rest]; [done|]. simplify_eq.
    apply inve_execute_transition; [done|]. by apply (inve_same ex st).
  - simplify_eq. by apply inve_do_propagation, inve_pop.
Qed.
End with_pq.

Lemma inve_process_queues n : ∀ ex st, IE ex st → IE ex (process_queues n st).
Proof.
  induction n as [|n IH]; intros ex st H; simpl.
  - destruct (_ && _); [done|]. by apply (inve_same ex st).
  - destruct (process_queues_turn (process_queues n) st) as [st'|] eqn:Ht; [|done].
    apply IH. by eapply inve_turn.
Qed.

Lemma inve_pin_start ex x st : IE ex st → IE ex (pin_start x st).
Proof.
  apply (inve_lift false). intros G Hl H. unfold pin_start. apply when_inv; [done|].
  intros _ _. istep; [|isolve]. apply when_inv; [done|]. intros _ _.
  apply for_each_inv; [done|]. intros. by apply inv_queue_pin_update.
Qed.

Lemma inve_unpin_stop ex x st : IE ex st → IE ex (unpin_stop x st).
Proof. apply (inve_lift false). intros G Hl H. unfold unpin_stop. isolve. Qed.

Lemma inve_unpin ex n x st : IE ex st → IE ex (unpin n x st).
Proof.
  intros H. unfold unpin. destruct (pinned_started _); [|by apply inve_unpin_stop].
  apply (seq_inv (IE ex)).
  { revert H. apply (inve_lift false _ _ (upd x _)). intros. isolve. }
  clear H. intros s H. destruct (dept_pinned_started _); [done|].
  apply (seq_inv (IE ex)).
  { revert H. apply (inve_lift false). intros. apply for_each_inv; [done|].
    intros. by apply inv_queue_pin_update. }
  clear H. intros s1 H. apply (seq_inv (IE ex)); [|by intros; apply inve_unpin_stop].
  apply when_inv; [done|]. intros _ _. apply (seq_inv (IE ex)).
  { revert H. apply (inve_lift false). intros. isolve. }
  clear H. intros s2 H. apply when_inv; [done|]. intros _ _.
  apply inve_process_queues. revert H. apply (inve_lift false). intros. isolve.
Qed.

(** A new record in memory that no record uses: reading that memory gives a
    record with the same counters and lists. *)
Lemma inve_new_record exact ex x name ty st :
  x ∉ dom (svcs st) → InvE exact no_credit ex st →
  InvE exact no_credit ex (upd x (λ _, service_record_new name ty) st).
Proof.
  intros Hx (G & Hl & H). exists G. split; [done|].
  pose (f := λ r : service_record, r <| service_name := name |> <| record_type := ty |>).
  assert (svc st x = service_record_new "" service_type_t.PLACEHOLDER) as Hs.
  { unfold svc. by rewrite (not_elem_of_dom_1 _ _ Hx). }
  assert (upd x (λ _, service_record_new name ty) st = upd x f st) as ->.
  { unfold upd. by rewrite Hs. }
  apply inv_upd; auto with dinit.
Qed.

Lemma inve_construct exact ex x name ty deplist st :
  x ∉ dom (svcs st) → InvE exact no_credit ex st →
  InvE exact no_credit ex (construct x name ty deplist st).
Proof.
  intros Hx H. unfold construct.
  apply (seq_inv (InvE exact no_credit ex)); [by apply inve_new_record|]. intros s Hs.
  apply for_each_inv; [done|]. intros [y t] s' _ Hs'. by apply inve_add_dep.
Qed.

Lemma inve_configure ex x f st : config_update f → IE ex st → IE ex (upd x f st).
Proof.
  intros Hf. apply (inve_lift false _ _ (upd x f)). intros G Hl H.
  apply inv_upd; [intros r; rewrite Hf; by rsimpl..| |done].
  intros fl r. rewrite Hf. by destruct fl; unfold flag; rsimpl.
Qed.

Lemma inve_stop_all ex n type st : IE ex st → IE ex (stop_all_services n type st).
Proof.
  intros H. unfold stop_all_services.
  apply (seq_inv (IE ex)); [by apply (inve_same ex st)|]. clear H. intros s H.
  apply (seq_inv (IE ex)); [by apply (inve_same ex s)|]. clear H. intros s1 H.
  apply (seq_inv (IE ex)); [|by intros; apply inve_process_queues].
  apply for_each_inv; [done|]. intros x s2 _ H2.
  apply (seq_inv (IE ex)); [|by intros; apply inve_unpin].
  revert H2. apply (inve_lift false). intros. isolve.
Qed.

Lemma inve_step ex st st' : set_step st st' → IE ex st → IE ex st'.
Proof.
  intros Hs H.
  assert (∀ f : sys X → sys X,
    (∀ G c, InvG false G c ex st → InvG false G c ex (f st)) → IE ex (f st)) as Hlift.
  { intros f Hf. revert H. by apply (inve_lift false _ _ f); auto. }
  destruct Hs.
  - apply Hlift. intros. isolve.
  - apply Hlift. intros. isolve.
  - apply (Hlift (λ st, (restart x st).1)). intros. by apply inv_restart.
  - apply Hlift. intros. isolve.
  - by apply inve_pin_start.
  - apply (Hlift (upd x _)). intros. isolve.
  - by apply inve_unpin.
  - by apply inve_add_dep.
  - by apply inve_rm_dep.
  - by eapply inve_start_dep.
  - by apply inve_construct.
  - by apply inve_configure.
  - by apply (inve_same ex st).
  - by apply (inve_same ex st).
  - by apply load_service_inv.
  - by apply inve_process_queues.
  - eapply inve_turn; [|done..]. apply inve_process_queues.
  - by apply inve_stop_all.
  - apply (H0 (IE ex)); [|done].
    apply inve_core_closed; [|apply inve_process_queues].
    intros. apply inve_pull; [apply inve_process_queues|done].
Qed.

Lemma inve_init exact ex e : InvE (X:=X) exact no_credit ex (service_set_new e).
Proof.
  exists (Graph (λ _, []) (λ _, []) (λ _, 0%nat) (λ _, 0%nat) (λ _, dependency_type.REGULAR)).
  split; [by intros x; split; [constructor|intros ? ?%not_elem_of_nil]|]. split.
  - done.
  - by intros x; split; [constructor|intros ? ?%not_elem_of_nil].
  - by intros x d [?%not_elem_of_nil|?%not_elem_of_nil].
  - intros x. by destruct exact.
  - by intros x [].
Qed.

Lemma reachable_init e : reachable (X:=X) (service_set_new e).
Proof. by exists e. Qed.
Lemma reachable_step st st' : reachable st → set_step st st' → reachable st'.
Proof. intros [e Hr] Hs. exists e. by eapply rtc_r. Qed.

Lemma reachable_inv st : reachable st → Inv st.
Proof.
  intros [e Hr]. revert st Hr. apply rtc_ind_r; [apply inve_init|].
  intros s s' _ Hstep Hs. by apply (inve_step _ s).
Qed.

(** *** No fault *)

Lemma no_fault_add_dep x to ty i st : no_fault st → no_fault (add_dep x to ty i st).1.
Proof.
  intros H. unfold add_dep, seq. simpl. apply when_inv; [done|]. intros _ _.
  apply (sc_upd_dep _ no_fault_step_closed); [auto with fuel..|].
  by apply closed_require; [apply no_fault_step_closed|].
Qed.

Lemma no_fault_rm_dep x to ty st : no_fault st → no_fault (rm_dep x to ty st).1.
Proof.
  intros H. unfold rm_dep. destruct (List.find _ _) as [d|]; [|done].
  simpl. unfold rm_dep_it. cbv zeta. gstep; [done|]. gstep; [|done].
  gstep; [done|]. by apply closed_release, H0; apply no_fault_step_closed.
Qed.

Lemma no_fault_unpin n x st : no_fault st → no_fault (unpin n x st).
Proof.
  intros H. unfold unpin. pose proof no_fault_step_closed as HC.
  destruct (pinned_started _); [|by apply closed_unpin_stop].
  gstep; [done|]. gstep; [done|]. gstep.
  { gstep; [done|]. by apply closed_queue_pin_update. }
  gstep; [|by apply closed_unpin_stop]. gstep; [done|]. gstep.
  { gstep; [done|]. by apply (sc_prop _ HC). }
  gstep; [done|]. by apply no_fault_process_queues, (sc_do_stop _ HC).
Qed.

Lemma no_fault_step st st' : set_step st st' → no_fault st → no_fault st'.
Proof.
  intros Hs H. pose proof no_fault_step_closed as HC. destruct Hs; try done.
  - by apply closed_start.
  - by apply closed_stop.
  - by apply closed_restart.
  - by apply closed_forced_stop.
  - by apply closed_pin_start.
  - by apply no_fault_unpin.
  - by apply no_fault_add_dep.
  - by apply no_fault_rm_dep.
  - unfold start_dep. gstep; [done|]. apply (sc_upd_dep _ HC); [auto with fuel..|].
    by apply closed_require.
  - unfold construct. gstep; [done|]. gstep; [done|]. by apply no_fault_add_dep.
  - by apply (sc_load _ HC).
  - by apply no_fault_process_queues.
  - eapply no_fault_turn; [|done..]. apply no_fault_process_queues.
  - unfold stop_all_services. gstep; [done|]. gstep; [done|].
    gstep; [|by apply no_fault_process_queues]. gstep; [done|].
    gstep; [|by apply no_fault_unpin]. by apply closed_stop.
  - apply (H0 no_fault); [|done].
    apply no_fault_core_closed, no_fault_process_queues.
Qed.

Lemma reachable_no_fault st : reachable st → no_fault st.
Proof.
  intros [e Hr]. revert st Hr. apply rtc_ind_r; [done|].
  intros s s' _. apply no_fault_step.
Qed.
End invariant.

(** ** The properties of reachable states *)

Section properties.
Context {X : Type} `{!ServiceVirtual X} `{!ServiceVirtualLaws X}.
Context `{!ServiceBring X} `{!ServiceBringLaws X}.
Implicit Types (st : sys X) (x y : sid) (d : did).

Lemma held_in_zero st ds :
  held_in st ds ≤ 0 → ∀ d, d ∈ ds → holding_acq (dep st d) = false.
Proof.
  induction ds as [|e ds IH]; simpl; intros H d Hd; [by apply not_elem_of_nil in Hd|].
  pose proof (held_in_nonneg st ds). pose proof (b2z_bounds (holding_acq (dep st e))).
  apply elem_of_cons in Hd as [->|Hd]; [|apply IH; [lia|done]].
  destruct (holding_acq (dep st e)); simpl in *; [lia|done].
Qed.

(** What every reachable state has. *)
Lemma reachable_safe st x :
  reachable st →
  b2z (start_explicit (svc st x)) + held_in st (dependents (svc st x))
    ≤ required_by (svc st x)
  ∧ (∀ f, flag f (svc st x) = true → x ∈ prop_queue st)
  ∧ fault st = false.
Proof.
  intros Hr. destruct (reachable_inv _ Hr) as (G & _ & H).
  split_and!; [|intros f; by apply (inv_pending _ _ _ _ _ H x f)|by apply reachable_no_fault].
  pose proof (inv_acq _ _ _ _ _ H x) as Ha. unfold acq_rel, no_credit in Ha.
  rewrite <- (proj1 (proj2 (inv_graph _ _ _ _ _ H)) x) in Ha. lia.
Qed.

(** C1: In every reachable state the counter [required_by] of a service is at
    least its explicit activation plus the number of dependents' links that
    hold an acquisition; so a service whose counter is 0 is neither explicitly
    activated nor held by any dependent. *)
Theorem required_by_bound st x :
  reachable st →
  b2z (start_explicit (svc st x)) + held_in st (dependents (svc st x))
    ≤ required_by (svc st x)
  ∧ (required_by (svc st x) = 0 →
     start_explicit (svc st x) = false
     ∧ ∀ d, d ∈ dependents (svc st x) → holding_acq (dep st d) = false).
Proof.
  intros (Ha & _ & _)%(reachable_safe st x). split; [exact Ha|]. intros H0.
  pose proof (held_in_nonneg st (dependents (svc st x))).
  destruct (start_explicit (svc st x)); simpl in Ha; [lia|].
  split; [done|]. apply held_in_zero. lia.
Qed.

(** C2: In every reachable state a service with one of the five flags that do_propagation
    takes up and resets (prop_require, prop_release, prop_failure, prop_start, prop_stop) is
    in the propagation queue, so that none of these propagations is lost: when the queue is
    empty, none is pending. (prop_pin_dpt is not among them: do_propagation never resets it,
    service.cc:285.) *)
Theorem pending_is_queued st x f :
  reachable st →
  (flag f (svc st x) = true → x ∈ prop_queue st)
  ∧ (prop_queue st = [] → flag f (svc st x) = false).
Proof.
  intros (G & _ & H)%reachable_inv.
  pose proof (inv_pending _ _ _ _ _ H x f eq_refl) as Hp.
  split; [done|]. intros Hq. destruct (flag f (svc st x)); [|done].
  specialize (Hp eq_refl). rewrite Hq in Hp. by apply not_elem_of_nil in Hp.
Qed.

(** C6: In every reachable state the two ends of each dependency agree: a
    record in [depends_on] of a service is allocated, comes from that service
    and is in the dependents of its target; a record in the dependents of a
    service points to it; and no list has a record twice. *)
Theorem graph_well_formed st x :
  reachable st →
  NoDup (depends_on (svc st x)) ∧ NoDup (dependents (svc st x))
  ∧ (∀ d, d ∈ depends_on (svc st x) →
       d ∈ dom (deps st) ∧ dep_from (dep st d) = x
       ∧ d ∈ dependents (svc st (dep_to (dep st d))))
  ∧ (∀ d, d ∈ dependents (svc st x) → d ∈ dom (deps st) ∧ dep_to (dep st d) = x).
Proof.
  intros (G & Hl & [(H1 & H2 & H3 & H4 & _) Hdp Hal _ _])%reachable_inv.
  setoid_rewrite H1. setoid_rewrite H2. setoid_rewrite H3. setoid_rewrite H4.
  split; [apply Hl|]. split; [apply Hdp|]. split.
  - intros d Hd. split; [by apply (Hal x); left|]. by apply (proj2 (Hl x)).
  - intros d Hd. split; [by apply (Hal x); right|]. by apply (proj2 (Hdp x)).
Qed.

(** C4: In every reachable state the recursion of [do_stop] through the
    releases of explicitly activated dependents, and that of
    [pull_console_queue] through services that give the console up at once,
    have ended by themselves: neither has used up the depth that is computed
    from the number of explicit activations and from the console queue. *)
Theorem recursion_terminates st : reachable st → fault st = false.
Proof. apply reachable_no_fault. Qed.

(** [process_queues] returns with both queues empty, unless the number of turns
    that the caller allows is used up. *)
Lemma process_queues_empties n st :
  (prop_queue (process_queues n st) = [] ∧ stop_queue (process_queues n st) = [])
  ∨ unfinished (process_queues n st) = true.
Proof.
  revert st. induction n as [|n IH]; intros st; simpl.
  - destruct (bool_decide (prop_queue st = [])) eqn:H1; [|by right].
    destruct (bool_decide (stop_queue st = [])) eqn:H2; [|by right].
    left. by apply bool_decide_eq_true in H1, H2.
  - destruct (process_queues_turn (process_queues n) st) as [st'|] eqn:Ht; [apply IH|].
    unfold process_queues_turn in Ht.
    destruct (prop_queue st) eqn:Hp; [|done]. destruct (stop_queue st) eqn:Hs; [|done].
    by left.
Qed.

(** [required_by] as an equation: the explicit activation and the links that hold an acquisition. *)
Definition exact_count st : Prop := InvE true no_credit none_exempt st.

(** C5: The operations of a service that do not process the queues (start, stop, restart,
    forced_stop, pin_start, do_stop, add_dep, rm_dep and start_dep) keep required_by exact:
    if in a well-formed state with all pending propagations queued the counter of every
    service is its explicit activation plus the number of dependents' links that hold an
    acquisition (holding_acq), then so it is after the operation. (service.h describes the
    counter by the states of the dependents instead; processing the queues, as unpin,
    start_service and stop_service do, keeps only the bound of required_by_bound, see
    double_acquisition.) *)
Theorem operations_exact st st' :
  exact_count st →
  (∃ x b, st' = start x st ∨ st' = stop x b st ∨ st' = (restart x st).1
     ∨ st' = forced_stop x st ∨ st' = pin_start x st ∨ st' = do_stop x b st)
  ∨ (∃ x to ty i, st' = (add_dep x to ty i st).1 ∨ st' = (rm_dep x to ty st).1)
  ∨ (∃ x d, d ∈ depends_on (svc st x) ∧ st' = start_dep d st) →
  ∀ x, b2z (start_explicit (svc st' x)) + held_in st' (dependents (svc st' x))
       = required_by (svc st' x).
Proof.
  intros H Hop.
  assert (exact_count st') as (G & _ & H').
  { destruct Hop as [(x & b & Hop)|[(x & to & ty & i & Hop)|(x & d & Hd & ->)]].
    - revert H. unfold exact_count. destruct Hop as [->|[->|[->|[->|[->| ->]]]]].
      + apply inve_lift. intros. isolve.
      + apply inve_lift. intros. isolve.
      + apply (inve_lift true _ _ (λ st, (restart x st).1)). intros. by apply inv_restart.
      + apply inve_lift. intros. isolve.
      + apply inve_lift. intros G Hl H. unfold pin_start. apply when_inv; [done|].
        intros _ _. istep; [|isolve]. apply when_inv; [done|]. intros _ _.
        apply for_each_inv; [done|]. intros. by apply inv_queue_pin_update.
      + apply inve_lift. intros. isolve.
    - destruct Hop as [-> | ->]; [by apply inve_add_dep | by apply inve_rm_dep].
    - eapply inve_start_dep; [by left|done]. }
  intros x. pose proof (inv_acq _ _ _ _ _ H' x) as Ha.
  rewrite <- (proj1 (proj2 (inv_graph _ _ _ _ _ H')) x) in Ha.
  unfold acq_rel, no_credit in Ha. lia.
Qed.

Lemma holding_require y st d : holding_acq (dep (require y st) d) = holding_acq (dep st d).
Proof. unfold require, seq, when, add_prop_queue. by repeat case_match. Qed.

(** The propagation of an activation to the dependencies keeps the
    count of acquisitions of [required_by_bound] exactly when no link of the service
    holds an acquisition already; [do_propagation] does not test that. *)
Theorem require_propagation_exact st x :
  exact_count st →
  (∀ d, d ∈ depends_on (svc st x) → holding_acq (dep st d) = false) →
  ∀ y, b2z (start_explicit (svc (propagate_require x st) y))
       + held_in (propagate_require x st) (dependents (svc (propagate_require x st) y))
       = required_by (svc (propagate_require x st) y).
Proof.
  intros (G & Hl & H) Hfree.
  assert (InvG true G no_credit none_exempt (propagate_require x st)) as H'.
  { unfold propagate_require. apply when_inv; [done|]. intros _ _.
    apply (seq_inv (InvG true G no_credit none_exempt)); [|intros; isolve].
    assert (∀ l s, (∀ d, d ∈ l → d ∈ g_deps G x ∧ holding_acq (dep s d) = false) → NoDup l →
      InvG true G no_credit none_exempt s →
      InvG true G no_credit none_exempt (for_each l (λ d st,
            when (negb (is_only_ordering (dep st d)))
              (λ st,
                let! st := require (dep_to (dep st d)) st in
                upd_dep d (λ r, r <| holding_acq := true |>) st) st) s)) as Hloop.
    { induction l as [|d l IH]; intros s Hs Hnd Hi; [done|].
      apply list.NoDup_cons in Hnd as [Hd Hnd]. rewrite for_each_cons.
      destruct (Hs d ltac:(set_solver)) as [Hdx Hdf].
      apply IH; [|done|].
      - intros e He. split; [apply Hs; set_solver|].
        destruct (Hs e ltac:(set_solver)) as [_ Hef].
        unfold when. destruct (negb _); [|done]. unfold seq.
        rewrite dep_upd_dep, decide_False by (intros ->; done). by rewrite holding_require.
      - apply when_inv; [done|]. intros _ _. unfold seq.
        rewrite (inv_dep_to _ _ _ _ _ _ Hi).
        apply (inv_take_link _ _ _ _ (g_to G d)); [by apply (proj2 (Hl x))| |].
        + right. by rewrite holding_require.
        + by apply inv_require. }
    pose proof (proj1 (inv_graph _ _ _ _ _ H) x) as Hg.
    apply Hloop; [|rewrite Hg; apply Hl|done].
    intros d Hd. split; [by rewrite <- Hg|by apply Hfree]. }
  intros y. pose proof (inv_acq _ _ _ _ _ H' y) as Ha.
  rewrite <- (proj1 (proj2 (inv_graph _ _ _ _ _ H')) y) in Ha.
  unfold acq_rel, no_credit in Ha. lia.
Qed.
End properties.
