(* ===== verification/ServiceStop.v ===== *)
(** * What stopping does to the states of the services

    [do_stop] on one service reaches others: dependents that are released, whose
    own stop is issued at once.  This file follows the service states through
    the whole recursion: which transitions [do_stop] can make, for any service of
    the set, and what it does to the service it is called on. *)

From S2P Require Import Prelude ServiceData Service ServiceInv.

(** A virtual method that does not call back and leaves the state alone. *)
Definition keeps_states {X} (f : sys X → sys X) : Prop :=
  ∀ st y, service_state (svc (f st) y) = service_state (svc st y).

(** What [interrupt_start] does to states: nothing, or it has the service stop. *)
Definition may_stop {X} (f : sid → sys X → sys X) : Prop :=
  ∀ x st y, service_state (svc (f x st) y) = service_state (svc st y)
            ∨ (y = x ∧ service_state (svc (f x st) y) = service_state_t.STOPPING).

(** The interface to the derived classes. *)
Class ServiceStateLaws (X : Type) `{!ServiceVirtual X} := {
  interrupt_states : may_stop (X:=X) (λ x st, (interrupt_start x st).1);
  check_states x : keeps_states (X:=X) (λ st, (check_restart x st).1)
}.

(** The update of a record that keeps the state and the pins. *)
Record quiet_update (f : service_record → service_record) : Prop := {
  qu_state : keeps f service_state;
  qu_pin : keeps f pinned_started;
  qu_dept_pin : keeps f dept_pinned_started
}.

Create HintDb stop.
#[export] Hint Extern 1 (quiet_update _) => (split; intros ?; rsimpl; reflexivity) : stop.

Section states.
Context {X : Type} (st0 : sys X).
Implicit Types (st : sys X) (x y : sid) (d : did).

(** The transitions of [do_stop] from the initial state [st0]. *)
Definition stop_trans y st : Prop :=
  service_state (svc st y) = service_state (svc st0 y)
  ∨ (is_start_pinned (svc st0 y) = false
     ∧ (service_state (svc st0 y) = service_state_t.STARTED
        ∨ service_state (svc st0 y) = service_state_t.STARTING)
     ∧ service_state (svc st y) = service_state_t.STOPPING).

Definition stop_effect st : Prop :=
  ∀ y, is_start_pinned (svc st y) = is_start_pinned (svc st0 y) ∧ stop_trans y st.

Lemma effect_same st st' :
  (∀ y, svc st' y = svc st y) → stop_effect st → stop_effect st'.
Proof. intros Hs H y. specialize (H y). unfold stop_trans. by rewrite Hs. Qed.

Lemma effect_upd x f st : quiet_update f → stop_effect st → stop_effect (upd x f st).
Proof.
  intros [H1 H2 H3] H y. specialize (H y). unfold stop_trans, is_start_pinned in *.
  rewrite svc_upd. case_decide; [|done]. subst. by rewrite H1, H2, H3.
Qed.
Lemma effect_upd_dep d f st : stop_effect st → stop_effect (upd_dep d f st).
Proof. by apply effect_same. Qed.
Lemma effect_emit a st : stop_effect st → stop_effect (emit a st).
Proof. by apply effect_same. Qed.
Lemma effect_notify `{!ServiceVirtual X} x e st : stop_effect st → stop_effect (notify_listeners x e st).
Proof. by apply effect_same. Qed.
Lemma effect_add_prop_queue x st : stop_effect st → stop_effect (add_prop_queue x st).
Proof. apply effect_same. intros. apply svc_add_prop_queue. Qed.
Lemma effect_add_transition_queue x st :
  stop_effect st → stop_effect (add_transition_queue x st).
Proof. apply effect_same. intros. unfold add_transition_queue. by destruct (slist_is_queued _ _). Qed.
Lemma effect_unqueue_console x st : stop_effect st → stop_effect (unqueue_console x st).
Proof. apply effect_same. intros. unfold unqueue_console. by case_bool_decide. Qed.

Lemma svc_unqueue_console x y st : svc (unqueue_console x st) y = svc st y.
Proof. unfold unqueue_console. by case_bool_decide. Qed.
Lemma svc_add_transition_queue x y st : svc (add_transition_queue x st) y = svc st y.
Proof. unfold add_transition_queue. by destruct (slist_is_queued _ _). Qed.
Lemma svc_notify `{!ServiceVirtual X} x e st y : svc (notify_listeners x e st) y = svc st y.
Proof. done. Qed.

(** The one change of state: of a service that is not pinned and is starting
    or started. *)
Lemma effect_begin x st :
  is_start_pinned (svc st0 x) = false →
  service_state (svc st0 x) = service_state_t.STARTED
  ∨ service_state (svc st0 x) = service_state_t.STARTING →
  stop_effect st →
  stop_effect (upd x (λ r, r <| service_state := service_state_t.STOPPING |>) st).
Proof.
  intros Hp Hs H y. destruct (H y) as [H1 H2]. unfold stop_trans, is_start_pinned in *.
  rewrite svc_upd. case_decide; [|done]. subst. rsimpl. split; [done|]. by right.
Qed.

(** A service that is starting or started was so before. *)
Lemma effect_was x st :
  stop_effect st →
  service_state (svc st x) = service_state_t.STARTED
  ∨ service_state (svc st x) = service_state_t.STARTING →
  service_state (svc st0 x) = service_state_t.STARTED
  ∨ service_state (svc st0 x) = service_state_t.STARTING.
Proof.
  intros H Hs. destruct (H x) as [_ [<-|(_ & _ & Ht)]]; [done|].
  rewrite Ht in Hs. by destruct Hs.
Qed.
End states.

#[export] Hint Resolve effect_upd effect_upd_dep effect_emit effect_notify
  effect_add_prop_queue effect_add_transition_queue effect_unqueue_console : stop.

Ltac ssolve := repeat first [assumption | solve [eauto 8 with stop nocore] | gstep].

Section nest.
Context {X : Type} `{!ServiceVirtual X} `{!ServiceVirtualLaws X} `{!ServiceStateLaws X}.
Implicit Types (st : sys X) (x y : sid) (d : did).
Context (st0 : sys X).
Abbreviation E := (stop_effect st0).

Lemma effect_leaf x st st' :
  leaf_step x st st' → (∀ y, service_state (svc st' y) = service_state (svc st y)) →
  E st → E st'.
Proof.
  intros Hl Hs H y. specialize (H y). unfold stop_trans. rewrite Hs.
  assert (is_start_pinned (svc st' y) = is_start_pinned (svc st y)) as ->; [|done].
  destruct (decide (y = x)) as [->|Hne]; [|by rewrite (ls_other _ _ _ Hl)].
  rewrite (ls_same _ _ _ Hl). unfold is_start_pinned. by rsimpl.
Qed.
Lemma leaf_pinned x st st' y :
  leaf_step x st st' → is_start_pinned (svc st' y) = is_start_pinned (svc st y).
Proof.
  intros Hl. destruct (decide (y = x)) as [->|Hne]; [|by rewrite (ls_other _ _ _ Hl)].
  rewrite (ls_same _ _ _ Hl). unfold is_start_pinned. by rsimpl.
Qed.
Lemma effect_interrupt x st :
  is_start_pinned (svc st0 x) = false →
  service_state (svc st0 x) = service_state_t.STARTED
  ∨ service_state (svc st0 x) = service_state_t.STARTING →
  E st → E (interrupt_start x st).1.
Proof.
  intros Hp Hs H y. specialize (H y). unfold stop_trans in *.
  rewrite (leaf_pinned _ _ _ _ (interrupt_start_leaf x st)).
  destruct (interrupt_states x st y) as [->|[-> ->]]; [done|].
  split; [apply H|]. by right.
Qed.
Lemma effect_check x st : E st → E (check_restart x st).1.
Proof. eapply effect_leaf; [apply check_restart_leaf|]. intros. apply check_states. Qed.
#[local] Hint Resolve effect_check : stop.

Lemma effect_dependency_started x st : E st → E (dependency_started x st).
Proof. intros H. unfold dependency_started. ssolve. Qed.
Lemma effect_forced_stop x st : E st → E (forced_stop x st).
Proof. intros H. unfold forced_stop. ssolve. Qed.
#[local] Hint Resolve effect_dependency_started effect_forced_stop : stop.
Lemma effect_unrecoverable_stop x st : E st → E (unrecoverable_stop x st).
Proof. intros H. unfold unrecoverable_stop. ssolve. Qed.
#[local] Hint Resolve effect_unrecoverable_stop : stop.

Section with_do_stop.
Context (rec : sid → bool → sys X → sys X) (rec_effect : ∀ y w st, E st → E (rec y w st)).
#[local] Hint Resolve rec_effect : stop.

Lemma effect_release_body x b st : E st → E (release_body rec x b st).
Proof. intros H. unfold release_body. ssolve. Qed.
#[local] Hint Resolve effect_release_body : stop.

Lemma effect_stop_dependents x fr rd st : E st → E (stop_dependents_body rec x fr rd st).1.
Proof.
  intros H. unfold stop_dependents_body. apply (for_each_inv (λ p, E p.1)); [done|].
  intros d [s b] _ Hs. simpl in Hs. unfold stop_dependents_turn.
  destruct (is_hard _); [|destruct (negb fr); [|done]]; cbv zeta.
  - apply (seq_inv E (λ p, E p.1)); [ssolve|]. intros s1 H1.
    apply (seq_inv E (λ p, E p.1)); [ssolve|done].
  - apply (seq_inv E (λ p, E p.1)); [ssolve|]. intros s1 H1.
    apply (seq_inv E (λ p, E p.1)); [ssolve|done].
Qed.

Lemma effect_begin_stop x b st :
  is_start_pinned (svc st0 x) = false →
  service_state (svc st0 x) = service_state_t.STARTED
  ∨ service_state (svc st0 x) = service_state_t.STARTING →
  E st → E (begin_stop x b st).
Proof.
  intros Hp Hs H. unfold begin_stop. apply (seq_inv E); [by apply effect_begin|].
  intros s1 H1. ssolve.
Qed.

Lemma effect_do_stop_tail x b st :
  is_start_pinned (svc st0 x) = false → E st → E (do_stop_tail x b st).
Proof.
  intros Hp H. pose proof (effect_was _ x st H) as Hw.
  unfold do_stop_tail. destruct (service_state (svc st x)) eqn:Hs; try done.
  - specialize (Hw (or_intror eq_refl)). destruct (_ && _).
    + destruct (can_interrupt_start _ _); [|done]. unfold seq.
      pose proof (effect_interrupt x st Hp Hw H) as Hi.
      destruct (interrupt_start x st) as [s []]; simpl in *; [|ssolve].
      apply effect_begin_stop; [done..|ssolve].
    + gstep; [ssolve|]. gstep; [ssolve|]. by apply effect_begin_stop.
  - apply effect_begin_stop; auto.
Qed.

(** Nothing before the tail of the body changes whether [x] is pinned. *)
Lemma effect_do_stop_body x w st : E st → E (do_stop_body rec x w st).
Proof.
  intros H. unfold do_stop_body. destruct (is_start_pinned _) eqn:Hp; [done|].
  rewrite (proj1 (H x)) in Hp.
  gstep; [ssolve|]. gstep; [ssolve|]. cbv zeta.
  apply (seq_pair_inv E).
  { gstep; [|done]. unfold seq. pose proof (effect_check x s0 H1) as Hc.
    destruct (check_restart x s0) as [s2 b2]. simpl in *. ssolve. }
  intros s2 fr H2. gstep; [ssolve|].
  apply (seq_pair_inv E); [by apply effect_stop_dependents|].
  intros s4 b4 H4. by apply effect_do_stop_tail.
Qed.
End with_do_stop.

Lemma effect_do_stop_fuel n : ∀ x w st, E st → E (do_stop_fuel n x w st).
Proof.
  induction n as [|n IH]; intros x w st H; simpl; [by apply (effect_same _ st)|].
  by apply effect_do_stop_body.
Qed.

Lemma effect_refl : E st0.
Proof. intros y. split; [done|]. by left. Qed.
End nest.

(** ** The properties of stopping *)

Section properties.
Context {X : Type} `{!ServiceVirtual X} `{!ServiceVirtualLaws X} `{!ServiceStateLaws X}.
Implicit Types (st : sys X) (x y : sid) (d : did).

(** The operations that stop services. *)
Definition stops st st' : Prop :=
  ∃ x b, st' = do_stop x b st ∨ st' = stop x b st ∨ st' = release x b st
         ∨ st' = (restart x st).1.

Lemma stops_effect st st' :
  stops st st' → stop_effect st st'.
Proof.
  intros (x & b & Hs).
  assert (∀ st0 y w s, stop_effect st0 s → stop_effect st0 (do_stop y w s)) as Hd.
  { intros. by apply effect_do_stop_fuel. }
  pose proof (effect_refl st) as H.
  destruct Hs as [->|[->|[->| ->]]].
  - by apply Hd.
  - unfold stop. gstep; [ssolve|]. gstep; [ssolve|]. destruct (is_start_pinned _); [done|].
    apply (seq_inv (λ p, stop_effect st p.2)).
    + destruct (_ =? 0); [|done].
      apply (seq_inv (stop_effect st) (λ p, stop_effect st p.2)); [ssolve|].
      intros s2 H2. simpl. ssolve.
    + intros [b' s2] H2. simpl in H2. gstep; [done|]. apply Hd. ssolve.
  - apply effect_release_body; [|done]. intros. by apply Hd.
  - unfold restart. destruct (bool_decide _); [|done]. unfold seq; simpl. apply Hd. ssolve.
Qed.

(** [started] leaves the service started, or stops it again at once. *)
Definition was_started x st : Prop :=
  service_state (svc st x) = service_state_t.STARTED
  ∨ service_state (svc st x) = service_state_t.STOPPING.

Lemma was_started_same x st st' : svc st' x = svc st x → was_started x st → was_started x st'.
Proof. unfold was_started. by intros ->. Qed.

Lemma was_started_do_stop x y w st : was_started x st → was_started x (do_stop y w st).
Proof.
  intros H. assert (stop_effect st (do_stop y w st)) as Hs.
  { apply stops_effect. exists y, w. by left. }
  destruct (Hs x) as [_ [Ht|(_ & _ & Ht)]]; unfold was_started in *; [by rewrite Ht|by right].
Qed.

Lemma started_state pull x st : was_started x (started pull x st).
Proof.
  unfold started. apply (seq_inv (λ _, True)); [done|]. intros s _.
  apply (seq_inv (λ _, True)); [done|]. clear s. intros s _.
  apply (seq_inv (was_started x)).
  { left. by rewrite svc_upd_eq. }
  clear s. intros s H. apply (seq_inv (was_started x)); [done|]. clear s H. intros s H.
  gstep; [by gstep|]. gstep; [by gstep|]. gstep; [by apply was_started_do_stop|].
  gstep; [done|]. gstep; [done|]. gstep; [|done].
  unfold dependency_started. cbv zeta. gstep; [done|].
  eapply was_started_same; [apply svc_add_transition_queue|done].
Qed.

(** C3: Stopping, releasing or restarting a service makes only one kind of
    transition, on any service of the set that its recursion reaches: from
    STARTED or STARTING to STOPPING, and never on a service that is pinned
    started, by its own pin or by a dependent's; and it changes no start pin. *)
Theorem stop_transitions st st' y :
  stops st st' →
  is_start_pinned (svc st' y) = is_start_pinned (svc st y)
  ∧ (service_state (svc st' y) = service_state (svc st y)
     ∨ (is_start_pinned (svc st y) = false
        ∧ (service_state (svc st y) = service_state_t.STARTED
           ∨ service_state (svc st y) = service_state_t.STARTING)
        ∧ service_state (svc st' y) = service_state_t.STOPPING)).
Proof. intros Hs. by apply (stops_effect st st' Hs y). Qed.

(** [do_stop] on a service that is STARTED and not pinned puts it in the
    state STOPPING, whatever its dependents, its explicit activation and its
    restart policy. *)
Theorem do_stop_stops st x w :
  is_start_pinned (svc st x) = false →
  service_state (svc st x) = service_state_t.STARTED →
  service_state (svc (do_stop x w st) x) = service_state_t.STOPPING.
Proof.
  intros Hp Hs. unfold do_stop. set (n := explicit_count st).
  change (do_stop_fuel (S n) x w st) with (do_stop_body (do_stop_fuel n) x w st).
  assert (∀ y w s, stop_effect st s → stop_effect st (do_stop_fuel n y w s)) as Hrec.
  { intros. by apply effect_do_stop_fuel. }
  assert (∀ b s, stop_effect st s →
    service_state (svc (do_stop_tail x b s) x) = service_state_t.STOPPING) as Htail.
  { intros b s Hse. destruct (Hse x) as [_ Ht]. unfold stop_trans in Ht. rewrite Hs in Ht.
    unfold do_stop_tail. destruct Ht as [Ht|(_ & _ & Ht)]; rewrite Ht; [|done].
    unfold begin_stop, seq, when.
    destruct b; rewrite ?svc_add_transition_queue, !svc_upd_eq; by rsimpl. }
  pose proof (effect_refl st) as H.
  unfold do_stop_body. rewrite Hp.
  apply (seq_inv (stop_effect st)); [ssolve|]. intros s1 H1.
  apply (seq_inv (stop_effect st)); [ssolve|]. intros s2 H2. cbv zeta.
  apply (seq_pair_inv (stop_effect st)).
  { gstep; [|done]. unfold seq. pose proof (effect_check st x s2 H2) as Hck.
    destruct (check_restart x s2) as [s3 b3]. simpl in *. ssolve. }
  intros s3 fr H3. apply (seq_inv (stop_effect st)).
  { apply when_inv; [done|]. intros _ _. apply effect_release_body; [done|]. ssolve. }
  intros s4 H4. apply (seq_pair_inv (stop_effect st)); [by apply effect_stop_dependents|].
  intros s5 b5 H5. by apply Htail.
Qed.
End properties.
