(* ===== verification/ServiceStart.v ===== *)
(** * The order of starting and stopping

    What [start_check_dependencies], [initiate_start], [execute_transition] and
    [started] do to the links between services: a service waits for exactly the
    dependencies that are not started, does not begin before they are, and is
    queued again when one of them is started. *)

From S2P Require Import Prelude ServiceData Service ServiceInv ServiceStop.

Section waiting.
Context {X : Type} `{!ServiceVirtual X} `{!ServiceBring X}.
Implicit Types (st : sys X) (x y : sid) (d e : did) (pull pq : sys X → sys X).

(** Whether a start must wait for the target of the link: any target that is
    not started, or, through a link that is only an ordering, one that is
    starting. *)
Definition must_wait st d : bool :=
  if is_only_ordering (dep st d)
  then bool_decide (service_state (svc st (dep_to (dep st d))) = service_state_t.STARTING)
  else bool_decide (service_state (svc st (dep_to (dep st d))) ≠ service_state_t.STARTED).

(** Whether the source of the link must wait for the service that now starts. *)
Definition must_hold_back st d : bool :=
  is_only_ordering (dep st d)
  && bool_decide (service_state (svc st (dep_from (dep st d))) = service_state_t.STARTING).

Definition set_waiting d st : sys X := upd_dep d (λ r, r <| waiting_on := true |>) st.

(** The states that differ from [st] in [waiting_on] only. *)
Definition waits st (w : did → bool) st' : Prop :=
  svcs st' = svcs st
  ∧ ∀ e, dep st' e = (dep st e) <| waiting_on := waiting_on (dep st e) || w e |>.

Lemma waits_refl st : waits st (λ _, false) st.
Proof.
  split; [done|]. intros e. destruct (dep st e). unfold set; simpl. by rewrite orb_false_r.
Qed.

Lemma waits_weaken st w w' st' : (∀ e, w e = w' e) → waits st w st' → waits st w' st'.
Proof. intros Hw [H1 H2]. split; [done|]. intros e. by rewrite H2, Hw. Qed.

Lemma waits_set st w st' d :
  waits st w st' → waits st (λ e, w e || bool_decide (e = d)) (set_waiting d st').
Proof.
  intros [H1 H2]. split; [done|]. intros e. unfold set_waiting. rewrite dep_upd_dep, H2.
  destruct (decide (e = d)) as [->|Hne].
  - rewrite bool_decide_eq_true_2 by done. destruct (dep st d); unfold set; simpl.
    by rewrite !orb_true_r.
  - rewrite bool_decide_eq_false_2 by done. by rewrite orb_false_r.
Qed.

Lemma waits_svc st w st' x : waits st w st' → svc st' x = svc st x.
Proof. intros [H _]. unfold svc. by rewrite H. Qed.
Lemma waits_must_wait st w st' d : waits st w st' → must_wait st' d = must_wait st d.
Proof.
  intros H. pose proof (proj2 H d) as Hd. unfold must_wait. rewrite !(waits_svc _ _ _ _ H).
  rewrite Hd. unfold is_only_ordering. by rsimpl.
Qed.
Lemma waits_hold_back st w st' d : waits st w st' → must_hold_back st' d = must_hold_back st d.
Proof.
  intros H. pose proof (proj2 H d) as Hd. unfold must_hold_back. rewrite !(waits_svc _ _ _ _ H).
  rewrite Hd. unfold is_only_ordering. by rsimpl.
Qed.

Lemma start_check_turn_eq d st b :
  start_check_turn d (st, b)
  = (if must_wait st d then set_waiting d st else st, b && negb (must_wait st d)).
Proof.
  unfold start_check_turn, must_wait. destruct (is_only_ordering _); simpl;
    destruct (service_state (svc st (dep_to (dep st d)))); simpl;
    rewrite ?andb_true_r, ?andb_false_r; done.
Qed.

(** Adding the condition of one more link. *)
Lemma waits_add st w (p : did → bool) d st' :
  waits st w st' →
  waits st (λ e, w e || (bool_decide (e = d) && p e)) (if p d then set_waiting d st' else st').
Proof.
  intros H. destruct (p d) eqn:Hp.
  - eapply waits_weaken; [|by apply (waits_set _ _ _ d H)]. intros e. cbv beta.
    destruct (decide (e = d)) as [->|Hne]; [by rewrite Hp, andb_true_r|].
    by rewrite !(bool_decide_eq_false_2 (e = d)).
  - revert H. apply waits_weaken. intros e.
    destruct (decide (e = d)) as [->|Hne]; [by rewrite Hp, andb_false_r, orb_false_r|].
    by rewrite (bool_decide_eq_false_2 (e = d)), orb_false_r.
Qed.

Lemma waits_cons w (p : did → bool) d l e :
  (w e || (bool_decide (e = d) && p e)) || (bool_decide (e ∈ l) && p e)
  = w e || (bool_decide (e ∈ d :: l) && p e).
Proof.
  destruct (decide (e = d)) as [->|Hne].
  - rewrite (bool_decide_eq_true_2 (d = d)), (bool_decide_eq_true_2 (d ∈ d :: l))
      by (done || by left).
    destruct (w d), (p d); simpl; rewrite ?andb_false_r; done.
  - rewrite (bool_decide_eq_false_2 (e = d)), orb_false_r by done.
    by rewrite (bool_decide_ext (e ∈ d :: l) (e ∈ l)) by set_solver.
Qed.

Lemma start_check_loop st l : ∀ st' w b,
  waits st w st' →
  waits st (λ e, w e || (bool_decide (e ∈ l) && must_wait st e))
    (for_each l start_check_turn (st', b)).1
  ∧ (for_each l start_check_turn (st', b)).2 = b && negb (existsb (must_wait st) l).
Proof.
  induction l as [|d l IH]; intros st' w b Hw.
  { simpl. split; [|by rewrite andb_true_r].
    revert Hw. apply waits_weaken. intros e. by rewrite orb_false_r. }
  rewrite for_each_cons, start_check_turn_eq, (waits_must_wait _ _ _ _ Hw).
  pose proof (waits_add st w (must_wait st) d st' Hw) as Hadd.
  destruct (IH _ _ (b && negb (must_wait st d)) Hadd) as [H1 H2].
  split.
  - revert H1. apply waits_weaken. intros e. apply waits_cons.
  - rewrite H2. simpl. by rewrite negb_orb, andb_assoc.
Qed.

Lemma hold_back_turn_waits st w st' d :
  waits st w st' →
  waits st (λ e, w e || (bool_decide (e = d) && must_hold_back st e)) (hold_back_turn d st').
Proof.
  intros Hw. unfold hold_back_turn. rewrite <- andb_assoc. fold (must_hold_back st' d).
  rewrite (waits_hold_back _ _ _ _ Hw). pose proof (proj2 Hw d) as Hd.
  pose proof (waits_add st w (must_hold_back st) d st' Hw) as Hadd.
  destruct (must_hold_back st d) eqn:Hb; [|by rewrite andb_false_r].
  destruct (waiting_on (dep st' d)) eqn:Hwd; simpl; [|done].
  split; [apply Hw|]. intros e. rewrite (proj2 Hw e).
  destruct (decide (e = d)) as [->|Hne].
  - rewrite Hd in Hwd. rsimpl_in Hwd. by rewrite orb_assoc, Hwd.
  - by rewrite (bool_decide_eq_false_2 (e = d)), orb_false_r.
Qed.

Lemma hold_back_loop st l : ∀ st' w,
  waits st w st' →
  waits st (λ e, w e || (bool_decide (e ∈ l) && must_hold_back st e))
    (for_each l hold_back_turn st').
Proof.
  induction l as [|d l IH]; intros st' w Hw.
  { revert Hw. apply waits_weaken. intros e. simpl. by rewrite orb_false_r. }
  rewrite for_each_cons. eapply waits_weaken; [|by apply IH, hold_back_turn_waits].
  intros e. apply waits_cons.
Qed.

Lemma start_check_waits x st :
  waits st (λ e, (bool_decide (e ∈ depends_on (svc st x)) && must_wait st e)
                 || (bool_decide (e ∈ dependents (svc st x)) && must_hold_back st e))
    (start_check_dependencies x st).1
  ∧ (start_check_dependencies x st).2
    = negb (existsb (must_wait st) (depends_on (svc st x))).
Proof.
  unfold start_check_dependencies.
  pose proof (start_check_loop st (depends_on (svc st x)) st _ true (waits_refl st)) as [H1 H2].
  destruct (for_each _ start_check_turn _) as [st1 b]. simpl in H1, H2. subst b.
  unfold seq. cbn [fst snd]. rewrite (waits_svc _ _ _ x H1). split; [|done].
  eapply waits_weaken; [|by apply hold_back_loop]. done.
Qed.

(** [start_check_dependencies] sets [waiting_on] on exactly the links of
    the service whose target must be waited for and on the ordering links of
    dependents that are starting, changes nothing else, and returns whether
    nothing must be waited for. *)
Theorem start_check_dependencies_spec x st :
  svcs (start_check_dependencies x st).1 = svcs st
  ∧ (start_check_dependencies x st).2 = negb (existsb (must_wait st) (depends_on (svc st x)))
  ∧ ∀ e, dep (start_check_dependencies x st).1 e
         = (dep st e) <| waiting_on :=
             waiting_on (dep st e)
             || ((bool_decide (e ∈ depends_on (svc st x)) && must_wait st e)
                 || (bool_decide (e ∈ dependents (svc st x)) && must_hold_back st e)) |>.
Proof. destruct (start_check_waits x st) as [[H1 H2] H3]. done. Qed.

(** *** Waiting and being woken *)

Lemma existsb_ext {A} (f g : A → bool) l :
  (∀ a, a ∈ l → f a = g a) → existsb f l = existsb g l.
Proof.
  induction l as [|a l IH]; intros H; [done|]. simpl. rewrite H by set_solver.
  rewrite IH; [done|]. set_solver.
Qed.

Lemma start_check_stop_queue x st :
  stop_queue (start_check_dependencies x st).1 = stop_queue st.
Proof.
  unfold start_check_dependencies, seq.
  assert (stop_queue (for_each (depends_on (svc st x)) start_check_turn (st, true)).1
          = stop_queue st) as H1.
  { apply (for_each_inv (λ p, stop_queue p.1 = stop_queue st)); [done|].
    intros d [s b] _ Hs. rewrite start_check_turn_eq. by destruct (must_wait s d). }
  destruct (for_each _ start_check_turn _) as [s b]. simpl in *. rewrite <- H1.
  apply (for_each_inv (λ s', stop_queue s' = stop_queue s)); [done|].
  intros d s' _ <-. unfold hold_back_turn, when. by destruct (_ && _).
Qed.

Definition begin_start (r : service_record) : service_record :=
  r <| start_failed := false |> <| start_skipped := false |>
    <| service_state := service_state_t.STARTING |> <| waiting_for_deps := true |>.

Lemma svc_begin_start x y st :
  svc (upd x (λ r, r <| waiting_for_deps := true |>)
        (upd x (λ r, r <| service_state := service_state_t.STARTING |>)
          (upd x (λ r, r <| start_skipped := false |>)
            (upd x (λ r, r <| start_failed := false |>) st)))) y
  = if decide (y = x) then begin_start (svc st y) else svc st y.
Proof. rewrite !svc_upd. by case_decide. Qed.

Lemma initiate_start_eq x st :
  (∀ d, d ∈ depends_on (svc st x) → dep_to (dep st d) ≠ x) →
  ∃ st2,
    initiate_start x st
    = when (negb (existsb (must_wait st) (depends_on (svc st x)))) (add_transition_queue x) st2
    ∧ stop_queue st2 = stop_queue st
    ∧ svc st2 x = begin_start (svc st x)
    ∧ ∀ d, d ∈ depends_on (svc st x) → must_wait st d = true → waiting_on (dep st2 d) = true.
Proof.
  intros Hself. unfold initiate_start, seq at 1 2 3 4.
  set (st1 := upd x (λ r, r <| waiting_for_deps := true |>) _).
  assert (∀ y, svc st1 y = if decide (y = x) then begin_start (svc st y) else svc st y)
    as Hs1 by (intros; apply svc_begin_start).
  assert (∀ d, d ∈ depends_on (svc st x) → must_wait st1 d = must_wait st d) as Hm.
  { intros d Hin. unfold must_wait. change (dep st1 d) with (dep st d).
    rewrite Hs1, decide_False; [done|]. by apply Hself. }
  pose proof (start_check_stop_queue x st1) as Hq.
  destruct (start_check_waits x st1) as [Hw Hb].
  assert (depends_on (svc st1 x) = depends_on (svc st x)) as Hd.
  { rewrite Hs1, decide_True by done. unfold begin_start. by rsimpl. }
  rewrite Hd in Hw, Hb. rewrite (existsb_ext _ _ _ Hm) in Hb.
  destruct (start_check_dependencies x st1) as [st2 ready]. simpl in Hw, Hb, Hq. subst ready.
  exists st2. split; [done|]. split; [done|]. split.
  - by rewrite (waits_svc _ _ _ _ Hw), Hs1, decide_True.
  - intros d Hin Hmd. rewrite (proj2 Hw d). rsimpl.
    rewrite bool_decide_eq_true_2 by done. by rewrite (Hm d Hin), Hmd, orb_true_r.
Qed.

(** C7: [initiate_start] puts the service in the state STARTING, waiting for its
    dependencies; when a dependency must be waited for it is not queued, and
    the transition does nothing if it is run nevertheless, so that the service
    is not brought up before the dependency; otherwise the transition is
    queued. *)
Theorem initiate_start_order pq x st :
  (∀ d, d ∈ depends_on (svc st x) → dep_to (dep st d) ≠ x) →
  service_state (svc (initiate_start x st) x) = service_state_t.STARTING
  ∧ waiting_for_deps (svc (initiate_start x st) x) = true
  ∧ if existsb (must_wait st) (depends_on (svc st x))
    then stop_queue (initiate_start x st) = stop_queue st
         ∧ execute_transition pq x (initiate_start x st) = initiate_start x st
    else x ∈ stop_queue (initiate_start x st).
Proof.
  intros Hself. destruct (initiate_start_eq x st Hself) as (st2 & -> & Hq & Hx & Hw).
  destruct (existsb (must_wait st) (depends_on (svc st x))) eqn:Hex; simpl.
  - rewrite Hx. split; [done|]. split; [done|]. split; [done|].
    unfold execute_transition. rewrite Hx. unfold begin_start at 1. rsimpl.
    assert (check_deps_started st2 x = false) as ->; [|done].
    unfold check_deps_started. apply negb_false_iff, existsb_exists.
    apply existsb_exists in Hex as (d & Hin & Hm). exists d.
    rewrite Hx. unfold begin_start. rsimpl. split; [done|]. apply Hw; [|done].
    by apply list_elem_of_In.
  - rewrite svc_add_transition_queue, Hx. split; [done|]. split; [done|].
    unfold add_transition_queue. destruct (slist_is_queued _ _) eqn:Hin; [by apply slist_is_queued_in|].
    rsimpl. by left.
Qed.

(** A service that [dependency_started] queues. *)
Definition awaits_deps st y : bool :=
  (bool_decide (service_state (svc st y) = service_state_t.STARTING)
   || bool_decide (service_state (svc st y) = service_state_t.STARTED))
  && waiting_for_deps (svc st y).

Lemma dependency_started_spec y st :
  svcs (dependency_started y st) = svcs st
  ∧ deps (dependency_started y st) = deps st
  ∧ stop_queue st ⊆ stop_queue (dependency_started y st)
  ∧ (awaits_deps st y = true → y ∈ stop_queue (dependency_started y st)).
Proof.
  unfold dependency_started. cbv zeta. fold (awaits_deps st y).
  unfold when, add_transition_queue.
  destruct (awaits_deps st y); [|done].
  destruct (slist_is_queued _ _) eqn:Hin; rsimpl; repeat split; try set_solver.
  intros _. by apply slist_is_queued_in.
Qed.

(** The turn of the loop of [started]. *)
Definition wake d st : sys X :=
  when (waiting_on (dep st d))
    (λ st,
      let! st := dependency_started (dep_from (dep st d)) st in
      upd_dep d (λ r, r <| waiting_on := false |>) st) st.

(** The states that differ from [st] by clearing [waiting_on] of some links
    and by more queued transitions. *)
Definition wakes st (w : did → bool) st' : Prop :=
  svcs st' = svcs st
  ∧ stop_queue st ⊆ stop_queue st'
  ∧ ∀ e, dep st' e = (dep st e) <| waiting_on := waiting_on (dep st e) && negb (w e) |>.

Lemma wake_wakes d st : wakes st (λ e, bool_decide (e = d)) (wake d st).
Proof.
  destruct (dependency_started_spec (dep_from (dep st d)) st) as (H1 & H2 & H3 & _).
  unfold wake, when, seq. destruct (waiting_on (dep st d)) eqn:Hw;
    (split; [done|split; [done|]]); intros e.
  - rewrite dep_upd_dep. unfold dep in *. rewrite H2. destruct (decide (e = d)) as [->|].
    + by rewrite bool_decide_eq_true_2, andb_false_r.
    + rewrite bool_decide_eq_false_2, andb_true_r by done.
      by destruct (default _ (deps st !! e)).
  - destruct (decide (e = d)) as [->|].
    + rewrite bool_decide_eq_true_2, andb_false_r by done.
      by destruct (dep st d); simpl in Hw; subst.
    + rewrite bool_decide_eq_false_2, andb_true_r by done. by destruct (dep st e).
Qed.

Lemma wake_queues d st :
  waiting_on (dep st d) = true → awaits_deps st (dep_from (dep st d)) = true →
  dep_from (dep st d) ∈ stop_queue (wake d st).
Proof.
  destruct (dependency_started_spec (dep_from (dep st d)) st) as (_ & _ & _ & H).
  intros Hw Ha. unfold wake, when, seq. rewrite Hw. by apply H.
Qed.

Lemma wakes_trans st1 st2 st3 v w :
  wakes st1 v st2 → wakes st2 w st3 → wakes st1 (λ e, v e || w e) st3.
Proof.
  intros (H1 & H2 & H3) (I1 & I2 & I3).
  split; [congruence|]. split; [set_solver|]. intros e. rewrite I3, H3. rsimpl.
  rewrite negb_orb, andb_assoc. by destruct (dep st1 e).
Qed.

Lemma wake_loop l : ∀ st,
  wakes st (λ e, bool_decide (e ∈ l)) (for_each l wake st)
  ∧ (∀ d, d ∈ l → waiting_on (dep st d) = true →
       awaits_deps st (dep_from (dep st d)) = true →
       dep_from (dep st d) ∈ stop_queue (for_each l wake st)).
Proof.
  induction l as [|d l IH]; intros st.
  { split; [|set_solver]. split; [done|]. split; [done|]. intros e. simpl.
    rewrite andb_true_r. by destruct (dep st e). }
  rewrite for_each_cons. destruct (IH (wake d st)) as [I1 I2].
  pose proof (wake_wakes d st) as Hd. pose proof (wakes_trans _ _ _ _ _ Hd I1) as (T1 & T2 & T3).
  split.
  - split; [done|]. split; [done|]. intros e. rewrite T3, <- bool_decide_or.
    by rewrite (bool_decide_ext (e = d ∨ e ∈ l) (e ∈ d :: l)) by (by rewrite elem_of_cons).
  - intros e Hin Hw Ha. destruct (decide (e = d)) as [->|Hne].
    + by apply I1, wake_queues.
    + destruct Hd as (D1 & _ & D3).
      assert (dep_from (dep (wake d st) e) = dep_from (dep st e)) as He by by rewrite D3; rsimpl.
      rewrite <- He. apply I2; [set_solver| |].
      * rewrite D3. rsimpl. by rewrite Hw, bool_decide_eq_false_2.
      * rewrite He. unfold awaits_deps, svc. by rewrite D1.
Qed.

Lemma started_eq pull x st :
  (have_console (svc st x) = true → runs_on_console (onstart_flags (svc st x)) = true) →
  force_stop (svc st x) = false →
  desired_state (svc st x) ≠ service_state_t.STOPPED →
  ∃ st2, started pull x st = for_each (dependents (svc st x)) wake st2
    ∧ svc st2 x = (svc st x) <| service_state := service_state_t.STARTED |>
    ∧ (∀ y, y ≠ x → svc st2 y = svc st y)
    ∧ ∀ d, dep st2 d = dep st d.
Proof.
  intros Hc Hf Hds. unfold started, seq. unfold when at 3.
  replace (have_console (svc st x) && _) with false
    by (destruct (have_console (svc st x)); [by rewrite Hc|done]).
  set (st1 := upd x _ (emit (Log_started x) st)).
  set (st2 := when (log_ready _) _ _). exists st2.
  assert (svcs st2 = svcs st1 ∧ deps st2 = deps st1) as [Hs2 Hd2].
  { unfold st2, when. by repeat case_match. }
  assert (∀ y, svc st2 y = svc st1 y) as Hsvc by (intros; unfold svc; by rewrite Hs2).
  assert (svc st1 x = (svc st x) <| service_state := service_state_t.STARTED |>) as Hx
    by (unfold st1; by rewrite svc_upd_eq).
  split.
  - rewrite Hsvc, Hx. rsimpl. by rewrite Hf, bool_decide_eq_false_2.
  - split; [by rewrite Hsvc|]. split.
    + intros y Hy. rewrite Hsvc. unfold st1. by rewrite svc_upd_ne.
    + intros. unfold dep. by rewrite Hd2.
Qed.

(** C8: When started() is called for a service that is still wanted (no forced stop, desired
    state not STOPPED) and has no console to give up (it does not hold it, or keeps it as
    runs_on_console), the service becomes STARTED, no link of a dependent to it is waited
    for any more (waiting_on), and each dependent other than itself whose link was waited
    for and that waits for dependencies (STARTING or STARTED, waiting_for_deps) is in the
    transition queue to check them again. (A service that is to stop is stopped instead, and
    its links keep waiting_on, service.cc:489.) *)
Theorem started_wakes_dependents pull x st :
  (have_console (svc st x) = true → runs_on_console (onstart_flags (svc st x)) = true) →
  force_stop (svc st x) = false →
  desired_state (svc st x) ≠ service_state_t.STOPPED →
  service_state (svc (started pull x st) x) = service_state_t.STARTED
  ∧ ∀ d, d ∈ dependents (svc st x) →
      waiting_on (dep (started pull x st) d) = false
      ∧ (waiting_on (dep st d) = true → dep_from (dep st d) ≠ x →
         awaits_deps st (dep_from (dep st d)) = true →
         dep_from (dep st d) ∈ stop_queue (started pull x st)).
Proof.
  intros Hc Hf Hds.
  destruct (started_eq pull x st Hc Hf Hds) as (st2 & -> & Hx & Hsvc & Hdep).
  destruct (wake_loop (dependents (svc st x)) st2) as [(W1 & W2 & W3) W4].
  split.
  - unfold svc at 1. rewrite W1. fold (svc st2 x). rewrite Hx. by rsimpl.
  - intros d Hd. rewrite W3, bool_decide_eq_true_2, andb_false_r by done. split; [by rsimpl|].
    intros Hw Hne Ha. rewrite <- (Hdep d). apply W4; [done|by rewrite Hdep|].
    rewrite Hdep. revert Ha. unfold awaits_deps. by rewrite !Hsvc.
Qed.
End waiting.
