(* ===== verification/SimpleLaws.v ===== *)
(** * Services without a process keep the interfaces

    The instances of the laws for [Simple], and the life of an internal service
    from its start to its stop. *)

From S2P Require Import Prelude ServiceData Service Simple ServiceInv ServiceInvOps ServiceGraph ServiceFuel ServiceReach ServiceStop.

Implicit Types (st : simple_sys) (x y : sid) (d : did).

Lemma simple_leaf x st : leaf_step x st st.
Proof. split; try done. by destruct (svc st x). Qed.

Lemma simple_log_closed (P : simple_sys → Prop) pull enable st :
  ext_closed P → (enable = false → ∀ s, P s → P (pull s)) → P st →
  P (simple_enable_console_log pull enable st).
Proof.
  intros Hc Hpull H. unfold simple_enable_console_log, seq.
  assert (∀ e, P ((emit (Enable_console_log enable) st) <| ext := e |>)) as He.
  { intros e. apply (Hc st (Enable_console_log enable :: trace st) e H). }
  destruct enable; [apply He|].
  destruct (console_logging _); [by apply Hpull; [|apply He]|].
  specialize (He (ext st)). by destruct st.
Qed.

#[export] Instance simple_virtual_laws : ServiceVirtualLaws simple_ext.
Proof.
  split; intros; try done; try apply simple_leaf.
  - by apply (simple_log_closed P pull true).
  - by apply (simple_log_closed P pull false).
Qed.

#[export] Instance simple_bring_laws : ServiceBringLaws simple_ext.
Proof.
  split; intros P Q pull pq x st HC H; simpl.
  - destruct (bool_decide _); simpl; (split; [|done]).
    + unfold when. destruct (bool_decide _); [by apply (cc_started _ _ _ _ HC)|].
      by apply (cc_sub _ _ _ _ HC).
    + by apply (cc_started _ _ _ _ HC).
  - by apply (cc_stopped _ _ _ _ HC).
Qed.

#[export] Instance simple_state_laws : ServiceStateLaws simple_ext.
Proof. split; [by left|done]. Qed.

(** ** The life of an internal service *)

(** What does not change in the life of an internal service without
    dependencies and dependents. *)
Record plain_internal (r : service_record) : Prop := {
  pi_type : record_type r = service_type_t.INTERNAL;
  pi_deps : depends_on r = [];
  pi_dpts : dependents r = [];
  pi_flags : onstart_flags r = service_flags_new;
  pi_pinned_stopped : pinned_stopped r = false;
  pi_pinned_started : pinned_started r = false;
  pi_dept_pinned : dept_pinned_started r = false;
  pi_chain : start_on_completion r = ""%string;
  pi_restart : auto_restart r = auto_restart_mode.NEVER;
  pi_wait_console : waiting_for_console r = false;
  pi_console : have_console r = false;
  pi_force : force_stop r = false;
  pi_require : prop_require r = false;
  pi_release : prop_release r = false;
  pi_failure : prop_failure r = false;
  pi_start : prop_start r = false;
  pi_stop : prop_stop r = false;
  pi_pin : prop_pin_dpt r = false
}.

(** Not active, and active by an explicit start. *)
Record idle_internal (r : service_record) : Prop := {
  ii_plain : plain_internal r;
  ii_state : service_state r = service_state_t.STOPPED;
  ii_explicit : start_explicit r = false;
  ii_required : required_by r = 0
}.
Record up_internal (r : service_record) : Prop := {
  ui_plain : plain_internal r;
  ui_state : service_state r = service_state_t.STARTED;
  ui_desired : desired_state r = service_state_t.STARTED;
  ui_explicit : start_explicit r = true;
  ui_required : required_by r = 1;
  ui_failed : start_failed r = false
}.

(** Nothing is queued, and the last processing of the queues was complete. *)
Definition settled st : Prop :=
  prop_queue st = [] ∧ stop_queue st = [] ∧ unfinished st = false.

(** Symbolic execution on a state whose record for [x] is known: the lemmas of
    the section below give the effect of each statement. *)
Ltac decide_closed :=
  repeat match goal with
    | |- context [bool_decide ?P] =>
        lazymatch P with
        | ?a = ?b => is_constructor a; is_constructor b
        | ?a ≠ ?b => is_constructor a; is_constructor b
        end;
        let v := eval vm_compute in (bool_decide P) in
        change (bool_decide P) with v
    end.

Section life.
Context (x : sid) (m : gmap sid service_record) (dp : gmap did service_dep)
  (a : Z) (rs : list sid) (re : bool) (sh : shutdown_type_t) (cq : list sid)
  (fa un : bool) (e : simple_ext).

Abbreviation S r a pq sq tr := (Sys simple_ext (<[x := r]> m) dp a rs re sh cq pq sq tr fa un e).

Lemma svc_S r a' pq sq tr : svc (S r a' pq sq tr) x = r.
Proof. unfold svc. simpl. by rewrite lookup_insert_eq. Qed.
Lemma upd_S f r a' pq sq tr : upd x f (S r a' pq sq tr) = S (f r) a' pq sq tr.
Proof. unfold upd. rewrite svc_S. unfold set; simpl. by rewrite insert_insert_eq. Qed.
Lemma prop_S r a' sq tr : add_prop_queue x (S r a' [] sq tr) = S r a' [x] sq tr.
Proof. reflexivity. Qed.
Lemma transition_S r a' pq tr : add_transition_queue x (S r a' pq [] tr) = S r a' pq [x] tr.
Proof. reflexivity. Qed.
Lemma emit_S ac r a' pq sq tr : emit ac (S r a' pq sq tr) = S r a' pq sq (ac :: tr).
Proof. reflexivity. Qed.
Lemma active_S r a' pq sq tr : service_active x (S r a' pq sq tr) = S r (1 + a') pq sq tr.
Proof. reflexivity. Qed.
Lemma inactive_S r a' pq sq tr : service_inactive x (S r a' pq sq tr) = S r (a' - 1) pq sq tr.
Proof. reflexivity. Qed.

Lemma seq_S {B} r a' pq sq tr (f : simple_sys → B) :
  seq (S r a' pq sq tr) f = f (S r a' pq sq tr).
Proof. reflexivity. Qed.
Lemma seq_pair_S {B C} r a' pq sq tr (c : C) (f : simple_sys * C → B) :
  seq (S r a' pq sq tr, c) f = f (S r a' pq sq tr, c).
Proof. reflexivity. Qed.
Lemma pair_seq_S {B C} r a' pq sq tr (c : C) (f : C * simple_sys → B) :
  seq (c, S r a' pq sq tr) f = f (c, S r a' pq sq tr).
Proof. reflexivity. Qed.
Lemma when_true {T} (f : T → T) s : when true f s = f s.
Proof. reflexivity. Qed.
Lemma when_false {T} (f : T → T) s : when false f s = s.
Proof. reflexivity. Qed.

Ltac run_step :=
  match goal with
  | |- context [notify_listeners ?y ?ev ?s] =>
      change (notify_listeners y ev s) with (emit (Notify y ev (status_of s y)) s)
  | |- context [seq (S ?r ?b ?pq ?sq ?tr) ?f] =>
      rewrite (seq_S r b pq sq tr f); cbv beta zeta
  | |- context [seq (S ?r ?b ?pq ?sq ?tr, ?c) ?f] =>
      rewrite (seq_pair_S r b pq sq tr c f); cbv beta iota zeta
  | |- context [seq (?c, S ?r ?b ?pq ?sq ?tr) ?f] =>
      rewrite (pair_seq_S r b pq sq tr c f); cbv beta iota zeta
  | |- context [upd x ?f (S ?r ?b ?pq ?sq ?tr)] => rewrite (upd_S f r b pq sq tr); cbv beta
  | |- context [svc (S ?r ?b ?pq ?sq ?tr) x] => rewrite (svc_S r b pq sq tr)
  | |- context [emit ?ac (S ?r ?b ?pq ?sq ?tr)] => rewrite (emit_S ac r b pq sq tr)
  | |- context [service_active x (S ?r ?b ?pq ?sq ?tr)] => rewrite (active_S r b pq sq tr)
  | |- context [service_inactive x (S ?r ?b ?pq ?sq ?tr)] => rewrite (inactive_S r b pq sq tr)
  | |- context [add_prop_queue x (S ?r ?b [] ?sq ?tr)] => rewrite (prop_S r b sq tr)
  | |- context [add_transition_queue x (S ?r ?b ?pq [] ?tr)] => rewrite (transition_S r b pq tr)
  | |- context [for_each [] ?f ?s] => change (for_each [] f s) with s
  | |- context [when true ?f ?s] => change (when true f s) with (f s); cbv beta
  | |- context [when false ?f ?s] => change (when false f s) with s
  | H : ?p ?r = _ |- context [?p ?r] => rewrite H
  | |- context [?p service_flags_new] =>
      is_const p; let v := eval cbv in (p service_flags_new) in change (p service_flags_new) with v
  | |- context [negb true] => change (negb true) with false
  | |- context [negb false] => change (negb false) with true
  | |- context [true && ?b] => change (true && b) with b
  | |- context [false && ?b] => change (false && b) with false
  | |- context [true || ?b] => change (true || b) with true
  | |- context [false || ?b] => change (false || b) with b
  | |- context [if true then ?b else ?c] => change (if true then b else c) with b
  | |- context [if false then ?b else ?c] => change (if false then b else c) with c
  end.
Ltac run := repeat first [run_step | progress rsimpl | progress decide_closed].

Ltac facts H := destruct H as [[? ? ? ? ? ? ? ? ? ? ? ? ? ? ? ? ? ?] ? ? ?].

Lemma turn_prop pq r a' sq tr :
  process_queues_turn pq (S r a' [x] sq tr) = Some (do_propagation pq x (S r a' [] sq tr)).
Proof. reflexivity. Qed.
Lemma turn_transition pq r a' tr :
  process_queues_turn pq (S r a' [] [x] tr) = Some (execute_transition pq x (S r a' [] [] tr)).
Proof. reflexivity. Qed.

Lemma do_stop_eq w st : do_stop x w st = do_stop_body (do_stop_fuel (explicit_count st)) x w st.
Proof. reflexivity. Qed.
Lemma bring_up_internal pull pq r a' pq' sq tr :
  record_type r = service_type_t.INTERNAL →
  bring_up pull pq x (S r a' pq' sq tr) = (started pull x (S r a' pq' sq tr), true).
Proof. intros H. simpl. by rewrite svc_S, H. Qed.
Lemma bring_down_simple pull st : bring_down pull x st = stopped pull x st.
Proof. reflexivity. Qed.

Lemma start_run r tr :
  idle_internal r →
  ∃ r1 tr1 r2 tr2 r3 tr3,
    start x (S r a [] [] tr) = S r1 (1 + a) [x] [x] tr1
    ∧ (∀ pq, do_propagation pq x (S r1 (1 + a) [] [x] tr1) = S r2 (1 + a) [] [x] tr2)
    ∧ (∀ pq, execute_transition pq x (S r2 (1 + a) [] [] tr2) = S r3 (1 + a) [] [] tr3)
    ∧ up_internal r3.
Proof.
  intros H. facts H.
  do 6 eexists. split.
  { unfold start. run. unfold do_start. run. unfold initiate_start. run.
    unfold start_check_dependencies. run. reflexivity. }
  split.
  { intros pq. unfold do_propagation, propagate_require. run. unfold propagate_release. run.
    unfold propagate_failure. run. unfold propagate_start. run. unfold propagate_stop. run.
    unfold propagate_pin. run. reflexivity. }
  split.
  { intros pq. unfold execute_transition. run. unfold check_deps_started. run. cbn [existsb]. run.
    unfold all_deps_started. run.
    rewrite bring_up_internal by (by rsimpl). unfold started. run. reflexivity. }
  split; [split|..]; rsimpl; auto. by rewrite ii_required0.
Qed.

Lemma plain_not_pinned r : plain_internal r → is_start_pinned r = false.
Proof. intros []. unfold is_start_pinned. run. done. Qed.

Lemma stop_run r tr :
  up_internal r →
  ∃ r1 tr1 r2 tr2 r3 tr3,
    stop x true (S r a [] [] tr) = S r1 a [x] [x] tr1
    ∧ (∀ pq, do_propagation pq x (S r1 a [] [x] tr1) = S r2 a [] [x] tr2)
    ∧ (∀ pq, execute_transition pq x (S r2 a [] [] tr2) = S r3 (a - 1) [] [] tr3)
    ∧ idle_internal r3.
Proof.
  intros H. destruct H as [Hp ? ? ? ?]. pose proof (plain_not_pinned r Hp). destruct Hp.
  do 6 eexists. split.
  { unfold stop. run. change (1 - 1 =? 0) with true. run. rewrite do_stop_eq.
    unfold do_stop_body. run. unfold wants_auto_restart. run.
    unfold stop_dependents_body. run. unfold do_stop_tail, begin_stop. run. reflexivity. }
  split.
  { intros pq. unfold do_propagation, propagate_require. run. unfold propagate_release, release_dependencies. run.
    unfold propagate_failure. run. unfold propagate_start. run. unfold propagate_stop. run.
    unfold propagate_pin. run. reflexivity. }
  split.
  { intros pq. unfold execute_transition. run. unfold stop_check_dependents. run. cbn [existsb]. run.
    rewrite bring_down_simple. unfold stopped. run.
    change (becoming_inactive x ?s) with s. run. change (1 - 1 =? 0) with true. run.
    unfold chain_to. run. change (did_finish stopped_reason_t.NORMAL) with false. run.
    reflexivity. }
  split; [split|..]; rsimpl; auto. by rewrite ui_required0.
Qed.
End life.

Lemma process_queues_S {X} `{!ServiceVirtual X} `{!ServiceBring X} n (st : sys X) :
  process_queues (S n) st
  = match process_queues_turn (process_queues n) st with
    | None => st
    | Some st => process_queues n st
    end.
Proof. reflexivity. Qed.

Lemma process_queues_settled {X} `{!ServiceVirtual X} `{!ServiceBring X} n (st : sys X) :
  prop_queue st = [] → stop_queue st = [] → process_queues n st = st.
Proof.
  intros Hp Hs. destruct n; simpl; [by rewrite Hp, Hs|].
  unfold process_queues_turn. by rewrite Hp, Hs.
Qed.

(** What an operation on one service leaves alone. *)
Definition only_changes x (delta : Z) st st' : Prop :=
  (∀ y, y ≠ x → svc st' y = svc st y) ∧ deps st' = deps st
  ∧ active_services st' = active_services st + delta
  ∧ records st' = records st ∧ console_queue st' = console_queue st
  ∧ settled st'.

Lemma two_turns n st st1 st2 :
  (∀ pq, process_queues_turn pq st = Some st1) →
  (∀ pq, process_queues_turn pq st1 = Some st2) →
  prop_queue st2 = [] → stop_queue st2 = [] →
  process_queues (2 + n) st = st2.
Proof.
  intros H1 H2 Hp Hs. change (2 + n)%nat with (S (S n)).
  rewrite process_queues_S, H1, process_queues_S, H2. by apply process_queues_settled.
Qed.

(** A settled set in which [x] is allocated, with the record of [x] visible. *)
Lemma open_set x st :
  x ∈ dom (svcs st) → settled st →
  ∃ m dp a rs re sh cq tr fa e,
    st = Sys simple_ext (<[x := svc st x]> m) dp a rs re sh cq [] [] tr fa false e.
Proof.
  intros Hx (Hp & Hs & Hu). destruct st as [m dp a rs re sh cq pq sq tr fa un e].
  simpl in *. subst. exists m, dp, a, rs, re, sh, cq, tr, fa, e. f_equal.
  symmetry. apply insert_id. unfold svc; simpl. apply elem_of_dom in Hx as [r Hr]. by rewrite Hr.
Qed.

Lemma sys_only_changes x m r r' dp a a' rs re sh cq tr tr' fa e delta :
  a' = a + delta →
  only_changes x delta (Sys simple_ext (<[x:=r]> m) dp a rs re sh cq [] [] tr fa false e)
    (Sys simple_ext (<[x:=r']> m) dp a' rs re sh cq [] [] tr' fa false e).
Proof.
  intros ->. split; [|done]. intros y Hy. unfold svc; simpl. by rewrite !lookup_insert_ne.
Qed.

(** Starting an idle internal service without dependencies, in a settled set,
    ends after two turns of the queues with the service STARTED, explicitly
    activated and required once, one more active service, nothing queued, and
    every other service unchanged. *)
Theorem start_service_internal n x st :
  x ∈ dom (svcs st) → settled st → idle_internal (svc st x) →
  up_internal (svc (start_service (2 + n) x st) x)
  ∧ only_changes x 1 st (start_service (2 + n) x st).
Proof.
  intros Hx Hs Hi. destruct (open_set x st Hx Hs) as (m & dp & a & rs & re & sh & cq & tr & fa & e & Hst).
  generalize dependent (svc st x). intros r Hi ->. clear Hx Hs.
  destruct (start_run x m dp a rs re sh cq fa false e r tr Hi)
    as (r1 & tr1 & r2 & tr2 & r3 & tr3 & H1 & H2 & H3 & Hup).
  unfold start_service. rewrite H1.
  erewrite two_turns; [|intros pq; exact (f_equal Some (H2 pq))
    |intros pq; exact (f_equal Some (H3 pq))|done..].
  split; [by rewrite svc_S|]. apply sys_only_changes; lia.
Qed.

(** Stopping an internal service that an explicit start has activated ends
    after two turns of the queues with the service idle again: STOPPED, not
    required, one active service less, nothing queued, and every other service
    unchanged.  So starting and stopping is a round trip. *)
Theorem stop_service_internal n x st :
  x ∈ dom (svcs st) → settled st → up_internal (svc st x) →
  idle_internal (svc (stop_service (2 + n) x st) x)
  ∧ only_changes x (-1) st (stop_service (2 + n) x st).
Proof.
  intros Hx Hs Hi. destruct (open_set x st Hx Hs) as (m & dp & a & rs & re & sh & cq & tr & fa & e & Hst).
  generalize dependent (svc st x). intros r Hi ->. clear Hx Hs.
  destruct (stop_run x m dp a rs re sh cq fa false e r tr Hi)
    as (r1 & tr1 & r2 & tr2 & r3 & tr3 & H1 & H2 & H3 & Hidle).
  unfold stop_service. rewrite H1.
  erewrite two_turns; [|intros pq; exact (f_equal Some (H2 pq))
    |intros pq; exact (f_equal Some (H3 pq))|done..].
  split; [by rewrite svc_S|]. apply sys_only_changes; lia.
Qed.
