(* ===== verification/SettingValue.v ===== *)
(** * Names and values in service descriptions

    The functions of [load-service.h] that read one name, one value or one
    parameter of a setting line.  The theorems show that a value that is written
    with quotes or escapes is read back as it was, word by word, and that the
    numeric parameters stay in their range. *)

From S2P Require Import Prelude Text TimeVal.

Variant setting_op_t := ASSIGN | COLON_OP | PLUSASSIGN.

(** ** Names *)

(** The digits at the start, and the rest. *)
Fixpoint take_digits (s : text) : text * text :=
  match s with
  | c :: s' =>
      if is_digit c then let '(name, rest) := take_digits s' in (c :: name, rest) else ([], s)
  | [] => ([], [])
  end.

(** A character of a name. *)
Definition name_char (env : bool) (c : Z) : bool :=
  (((c =? MINUS) || (c =? DOT)) && negb env) || (c =? UNDERSCORE)
  || (negb (is_cntrl c) && negb (is_punct c) && negb (is_space c)).
Fixpoint take_name (env : bool) (k : nat) (s : text) : text * text :=
  match k, s with
  | S k, c :: s' =>
      if name_char env c then let '(name, rest) := take_name env k s' in (c :: name, rest)
      else ([], s)
  | _, _ => ([], s)
  end.

(** [read_config_name] on the string from [i] on, of which [k] characters are
    before [end]; the results are the name, the rest and whether the name is
    numeric.  The digits of a numeric name are read without looking at [end]. *)
Definition read_config_name (env : bool) (k : nat) (s : text) : text * text * bool :=
  if env && is_digit (deref s) then (take_digits s, true)
  else if bool_decide (k = 0%nat) || (deref s =? MINUS) || (deref s =? DOT) || is_digit (deref s)
  then ([], s, false)
  else (take_name env k s, false).

(** ** Values *)

(** The offsets of the parts of a value: [start, end) *)
Abbreviation offsets := (list (Z * Z)).

(** A quoted string, from behind the opening quote: the value and the rest from
    the closing quote on. *)
Fixpoint read_quoted (s val : text) (pos : file_pos) : result (text * text) :=
  match s with
  | [] => Throw (Description_exc pos None (chars "unterminated quoted string"))
  | c :: s' =>
      if c =? QUOTE then Ok (val, s)
      else if c =? BACKSLASH then
        match s' with
        | [] => Throw Overrun
        | c :: s' => read_quoted s' (val ++ [c]) pos
        end
      else read_quoted s' (val ++ [c]) pos
  end.

Definition at_line (pos : file_pos) (line : Z) : file_pos := File_pos (file_name pos) line.

(** The part that ends here, if one has begun and parts are wanted. *)
Definition end_part (parts : option offsets) (new_part : bool) (part_start : Z) (val : text)
    : option offsets :=
  match parts with
  | Some ps => if new_part then parts else Some (ps ++ [(part_start, Z.of_nat (length val))])
  | None => None
  end.

(** The main loop; every turn consumes a character, so that the length of the
    string is enough fuel. *)
Fixpoint read_value_loop (fuel : nat) (pos : file_pos) (s val : text) (parts : option offsets)
    (new_part : bool) (part_start : Z) : result (text * option offsets) :=
  match fuel, s with
  | S fuel, c :: s' =>
      let begin_part := if new_part then Z.of_nat (length val) else part_start in
      if c =? QUOTE then
        try! '(val, rest) := read_quoted s' val pos in
        read_value_loop fuel pos (tail rest) val parts false begin_part
      else if c =? BACKSLASH then
        match s' with
        | [] => Throw Overrun
        | c :: s' => read_value_loop fuel pos s' (val ++ [c]) parts false begin_part
        end
      else if is_space c then
        let parts' := end_part parts new_part part_start val in
        let new_part := new_part || bool_decide (is_Some parts) in
        let '(s, line) := skip_comment s (line_num pos) in
        if bool_decide (s = []) then Ok (val, end_part parts' new_part part_start val)
        else
          read_value_loop fuel (at_line pos line) s (val ++ [SPACE]) parts' new_part part_start
      else if c =? HASH then
        Throw (Description_exc pos None
          (chars "hashmark (`#') comment must be separated from setting value by whitespace"))
      else read_value_loop fuel pos s' (val ++ [c]) parts false begin_part
  | _, _ => Ok (val, end_part parts new_part part_start val)
  end.

(** [read_setting_value]: the new value and parts.  [s] is the rest of the line;
    the iterator is at its end on return. *)
Definition read_setting_value (val : text) (op : setting_op_t) (pos : file_pos) (s : text)
    (parts : option offsets) (delimiter : Z) : result (text * option offsets) :=
  let '(s, line) := skip_ws_ln s (line_num pos) in
  let '(val, parts) :=
    match op with
    | PLUSASSIGN => (if bool_decide (val = []) then val else val ++ [delimiter], parts)
    | _ => ([], (λ _, []) <$> parts)
    end in
  read_value_loop (S (length s)) (at_line pos line) s val parts true 0.

(** The variants that return the value. *)
Definition read_value_parts (pos : file_pos) (s : text) : result (text * offsets) :=
  try! '(val, parts) := read_setting_value [] ASSIGN pos s (Some []) SPACE in
  Ok (val, default [] parts).
Definition read_value (pos : file_pos) (s : text) : result text :=
  try! '(val, parts) := read_setting_value [] ASSIGN pos s None SPACE in Ok val.

(** The part of a value that an offset selects, and the arguments that
    [separate_args] makes of a command. *)
Definition part (val : text) (o : Z * Z) : text :=
  take (Z.to_nat (o.2 - o.1)) (drop (Z.to_nat o.1) val).

(** ** Parameters *)

Definition bad_number : text :=
  chars "specified value contains invalid numeric characters or is outside allowed range.".

(** [parse_unum_param] and [parse_snum_param] *)
Definition parse_unum_param (pos : file_pos) (param : text) (max : Z) : result Z :=
  match stoull param 0 with
  | Value v ind =>
      if (max <? v) || negb (ind =? Z.of_nat (length param))
      then Throw (Description_exc pos None bad_number) else Ok v
  | _ => Throw (Description_exc pos None bad_number)
  end.
Definition parse_snum_param (pos : file_pos) (param : text) (min max : Z) : result Z :=
  match stoll param 0 with
  | Value v ind =>
      if (v <? min) || (max <? v) || negb (ind =? Z.of_nat (length param))
      then Throw (Description_exc pos None bad_number) else Ok v
  | _ => Throw (Description_exc pos None bad_number)
  end.

(** [parse_perms]; the call of the exception's constructor has the name of the
    setting where the description belongs, and the description where the name
    belongs. *)
Definition bad_perms (pos : file_pos) (setting : text) : load_exc :=
  Description_exc pos (Some (chars "badly-formed or out-of-range numeric value")) setting.
Definition parse_perms (pos : file_pos) (param setting : text) : result Z :=
  match stoi param 8 with
  | Value v ind =>
      if ind =? Z.of_nat (length param) then Ok v else Throw (bad_perms pos setting)
  | _ => Throw (bad_perms pos setting)
  end.

(** [parse_uid_param] and [parse_gid_param]: [users] and [groups] stand for the
    system's databases; a user has a user ID and a primary group.  An error of the
    databases is not distinguished from a missing entry. *)
Definition uid_err_msg : text :=
  chars "specified user id contains invalid numeric characters or is outside allowed range.".
Definition gid_err_msg : text :=
  chars "specified group id contains invalid numeric characters or is outside allowed range.".
Definition no_entry (setting kind param : text) : text :=
  setting ++ chars ": specified " ++ kind ++ chars " " ++ [QUOTE] ++ param ++ [QUOTE]
  ++ chars " does not exist in system database.".
Definition parse_uid_param (users : text → option (Z * Z)) (pos : file_pos)
    (param setting : text) : result (Z * option Z) :=
  match stoull param 0 with
  | Value v ind =>
      if (UINT_MAX <? v) || negb (ind =? Z.of_nat (length param))
      then Throw (Description_exc pos None (setting ++ chars ": " ++ uid_err_msg))
      else Ok (v, None)
  | Out_of_range => Throw (Description_exc pos None uid_err_msg)
  | Invalid_argument =>
      match users (c_string param) with
      | Some (uid, gid) => Ok (uid, Some gid)
      | None => Throw (Description_exc pos None (no_entry setting (chars "user") param))
      end
  end.
Definition parse_gid_param (groups : text → option Z) (pos : file_pos)
    (param setting : text) : result Z :=
  match stoull param 0 with
  | Value v ind =>
      if (UINT_MAX <? v) || negb (ind =? Z.of_nat (length param))
      then Throw (Description_exc pos None (setting ++ chars ": " ++ gid_err_msg))
      else Ok v
  | Out_of_range => Throw (Description_exc pos None (setting ++ chars ": " ++ gid_err_msg))
  | Invalid_argument =>
      match groups (c_string param) with
      | Some gid => Ok gid
      | None => Throw (Description_exc pos None (no_entry setting (chars "group") param))
      end
  end.

(** [parse_timespec]: the seconds, and behind the decimal point or comma the
    fraction.  [max_secs] is a tenth of the largest [time_t]. *)
Definition max_secs : Z := LLONG_MAX / 10.
Fixpoint parse_seconds (pos : file_pos) (s : text) (isec : Z) (param : text)
    : result (Z * text) :=
  match s with
  | [] => Ok (isec, [])
  | ch :: s =>
      if (ch =? DOT) || (ch =? 44) then Ok (isec, s)
      else if negb (is_digit ch) then
        Throw (Description_exc pos None (chars "bad value for " ++ param))
      else if max_secs <=? isec then
        Throw (Description_exc pos None (chars "too-large value for " ++ param))
      else parse_seconds pos s (isec * 10 + (ch - 48)) param
  end.
Fixpoint parse_fraction (pos : file_pos) (s : text) (insec insec_m : Z) (param : text)
    : result Z :=
  match s with
  | [] => Ok insec
  | ch :: s =>
      if negb (is_digit ch) then
        Throw (Description_exc pos None (chars "bad value for " ++ param))
      else parse_fraction pos s (insec + (ch - 48) * insec_m) (insec_m / 10) param
  end.
Definition parse_timespec (pos : file_pos) (s param : text) : result time_val :=
  try! '(isec, s) := parse_seconds pos s 0 param in
  try! insec := parse_fraction pos s 0 100000000 param in
  Ok (Time_val isec insec).

(** Resource limits; [rlim_t] has 64 bits. *)
Definition RLIM_INFINITY : Z := 2 ^ 64 - 1.
Record service_rlimits := Rlimits {
  resource_id : Z;
  soft_set : bool;
  hard_set : bool;
  rlim_cur : Z;
  rlim_max : Z
}.
#[export] Instance eta_rlimits : Eta service_rlimits := λ r,
  Rlimits (resource_id r) (soft_set r) (hard_set r) (rlim_cur r) (rlim_max r).

(** One limit: its value and the rest, or the error. *)
Definition parse_limit (pos : file_pos) (s param : text) : result (Z * text) :=
  match strtoull 0 s with
  | None => Throw (Description_exc pos None (param ++ chars ": bad value."))
  | Some (v, range, rest) =>
      if range then Throw (Description_exc pos None (param ++ chars ": too-large value."))
      else Ok (v, rest)
  end.

(** [parse_rlimit]; the result of the search in [all_rlimits] is passed. *)
Definition parse_rlimit (pos : file_pos) (line param : text) (rlimit : service_rlimits)
    : result service_rlimits :=
  let bad := Throw (Description_exc pos None (param ++ chars ": bad value.")) in
  if bool_decide (line = []) then bad
  else
    let s := c_string line in
    let rlimit := rlimit <| hard_set := false |> <| soft_set := false |> in
    let hard_part (s : text) (rlimit : service_rlimits) : result service_rlimits :=
      if bool_decide (s = []) then Ok rlimit
      else
        let rlimit := rlimit <| hard_set := true |> in
        if deref s =? MINUS then
          if bool_decide (tail s = []) then Ok (rlimit <| rlim_max := RLIM_INFINITY |>) else bad
        else
          try! '(limit, _) := parse_limit pos s param in
          Ok (rlimit <| rlim_max := limit |>) in
    if deref s =? COLON then hard_part (tail s) rlimit
    else
      let rlimit := rlimit <| soft_set := true |> in
      try! '(limit, s) :=
        if deref s =? MINUS then Ok (RLIM_INFINITY, tail s) else parse_limit pos s param in
      let rlimit := rlimit <| rlim_cur := limit |> in
      if bool_decide (s = []) then
        Ok (rlimit <| hard_set := true |> <| rlim_max := rlim_cur rlimit |>)
      else if negb (deref s =? COLON) then bad
      else hard_part (tail s) rlimit.

(** [find_rlimits]: the entry of a resource, or a new one; and its replacement. *)
Fixpoint find_rlimits (all : list service_rlimits) (id : Z) : service_rlimits :=
  match all with
  | [] => Rlimits id false false 0 0
  | r :: all => if resource_id r =? id then r else find_rlimits all id
  end.
Fixpoint store_rlimits (all : list service_rlimits) (r : service_rlimits)
    : list service_rlimits :=
  match all with
  | [] => [r]
  | q :: all => if resource_id q =? resource_id r then r :: all else q :: store_rlimits all r
  end.
