(* ===== verification/Env.v ===== *)
(** * Environments

    Class [environment] of [dinit-env.h]: the modifications of an environment relative to
    that of its parent, and the mapping that is built from them; and the reading of
    environment files.  The sets are the hash sets of [HashSet]: names are hashed and
    compared as they are, settings NAME=VALUE by their names.  The real environment
    ([environ]) is the list of its entries. *)

From S2P Require Import Prelude Text HashSet.
Import dinit_unordered_set.

(** ** Names and hashing *)

(** The characters in front of the first '=' (or the end). *)
Fixpoint name_part (s : text) : text :=
  match s with
  | c :: s => if c =? EQUALS then [] else c :: name_part s
  | [] => []
  end.
Definition has_eq (s : text) : bool := existsb (Z.eqb EQUALS) s.

(** A string as the functions of the C library see it. *)
Fixpoint c_str (s : text) : text :=
  match s with
  | c :: s => if c =? 0 then [] else c :: c_str s
  | [] => []
  end.

(** [find_var_name] *)
Definition find_var_name (var : text) : text := name_part (c_str var).

(** The little-endian number that the bytes make up. *)
Fixpoint le_value (bytes : list Z) : Z :=
  match bytes with
  | [] => 0
  | b :: bytes => b + 256 * le_value bytes
  end.

(** [hash]: eight characters at a time; every turn takes some, so that the length is
    enough fuel. *)
Fixpoint hash_units (fuel : nat) (s : text) (hash_val : Z) : Z :=
  match fuel, s with
  | S fuel, _ :: _ =>
      hash_units fuel (drop 8 s) (u64 (u64 (hash_val * 31) + le_value (take 8 s)))
  | _, _ => hash_val
  end.
Definition hash (s : text) : Z := hash_units (length s) s 0.

(** [max_size] of a vector of lists *)
Definition vector_max_size : Z := (2 ^ 63 - 1) / 24.

Abbreviation env_set := (hset text) (only parsing).
Abbreviation env_names := (hset text) (only parsing).

(** [import_from_parent], [undefine]: sets of names; [set_vars]: NAME=VALUE. *)
Definition find_name (n : text) (s : hset text) : iterator := find id hash n s.
Definition has_name (n : text) (s : hset text) : bool := contains id hash n s.
Definition insert_name (n : text) (s : hset text) : hset text * (iterator * bool) :=
  insert id hash vector_max_size n s.
Definition erase_name (n : text) (s : hset text) : hset text * Z := erase id hash n s.
Definition find_setting (n : text) (s : hset text) : iterator := find name_part hash n s.
Definition insert_setting (v : text) (s : hset text) : hset text * (iterator * bool) :=
  insert name_part hash vector_max_size v s.
Definition erase_setting (n : text) (s : hset text) : hset text * Z := erase name_part hash n s.

(** ** The class *)

Record environment := Environment {
  keep_parent_env : bool;
  import_from_parent : hset text;
  undefine : hset text;
  set_vars : hset text;
  env_listeners : list nat
}.
#[export] Instance eta_environment : Eta environment := λ e,
  Environment (keep_parent_env e) (import_from_parent e) (undefine e) (set_vars e)
    (env_listeners e).

Definition environment_new : environment := Environment true hset_new hset_new hset_new [].

Section real_environment.
Context (environ : list text).
Implicit Types (e : environment) (n v : text).

(** [getenv], with the whole entry NAME=VALUE as the result. *)
Definition getenv n : option text :=
  List.find (λ entry, starts_with entry (c_str n ++ [EQUALS])) environ.

(** [get]; the empty view is [None]. *)
Definition get n e : option text :=
  match find_setting n (set_vars e) with
  | Some it => deref_it (Some it) (set_vars e)
  | None =>
      if negb (keep_parent_env e) && negb (has_name n (import_from_parent e)) then None
      else getenv n
  end.

(** *** Building a mapping

    [env_list] is the list for [exec] with the null pointer ([None]) at its end. *)
Record env_map := Env_map { env_list : list (option text); var_map : gmap text nat }.
#[local] Instance eta_env_map : Eta env_map := λ m, Env_map (env_list m) (var_map m).

Definition env_map_new : env_map := Env_map [] ∅.

(** [var_map.insert] does not replace. *)
Definition insert_new n (pos : nat) (m : gmap text nat) : gmap text nat :=
  match m !! n with Some _ => m | None => <[n := pos]> m end.

Definition push_entry n v (m : env_map) : env_map :=
  Env_map (env_list m ++ [Some v]) (insert_new n (length (env_list m)) (var_map m)).

(** The value of a variable. *)
Definition lookup n (m : env_map) : option text :=
  pos ← var_map m !! n;
  entry ← env_list m !! pos;
  drop (S (length n)) <$> entry.

(** A setting of the environment itself. *)
Definition add_own v (m : env_map) : env_map :=
  let n := name_part v in
  match var_map m !! n with
  | Some pos => m <| env_list ::= <[pos := Some v]> |>
  | None => Env_map (env_list m ++ [Some v]) (<[n := length (env_list m)]> (var_map m))
  end.
Definition push_null (m : env_map) : env_map := m <| env_list ::= λ l, l ++ [None] |>.

Definition import_real e (exclude : hset text) (entry : text) (m : env_map) : env_map :=
  if negb (has_eq entry) then m
  else
    let n := name_part entry in
    if has_name n (undefine e) || has_name n exclude then m else push_entry n entry m.
Definition import_named (get : text → option text) n (m : env_map) : env_map :=
  match get n with
  | Some v => push_entry n v m
  | None => m
  end.

(** [build(const env_names &exclude)] *)
Definition build_excluding (exclude : hset text) e : env_map :=
  let m :=
    if keep_parent_env e then for_each environ (import_real e exclude) env_map_new
    else for_each (elements_of (import_from_parent e)) (import_named getenv) env_map_new in
  push_null
    (for_each (elements_of (set_vars e))
       (λ v, when (negb (has_name (name_part v) exclude)) (add_own v)) m).

(** [build(const environment &parent_env)] *)
Definition build_from (parent_env e : environment) : env_map :=
  let m :=
    if keep_parent_env e then
      let m := build_excluding (undefine e) parent_env in
      m <| env_list ::= λ l, take (length l - 1) l |>
    else for_each (elements_of (import_from_parent e)) (import_named (λ n, get n parent_env))
           env_map_new in
  push_null (for_each (elements_of (set_vars e)) add_own m).

(** [build()] *)
Definition build e : env_map := build_excluding hset_new e.

(** *** Changes

    With the notification of the listeners, if there is one: the setting or the name, and
    whether something was overridden. *)
Definition set_var v (notify : bool) e : environment * option (text * bool) :=
  let var_name := find_var_name v in
  let! e := e <| import_from_parent ::= λ s, (erase_name var_name s).1 |> in
  let! '(e, n_removed) :=
    let '(s, r) := erase_name var_name (undefine e) in (e <| undefine := s |>, r) in
  let in_sysenv :=
    notify && (n_removed =? 0) && bool_decide (is_Some (getenv var_name)) in
  (* the '=' is written back where the name ends *)
  let v := if notify && (n_removed =? 0) then <[length var_name := EQUALS]> v else v in
  let! '(e, (it, is_new)) :=
    let '(s, r) := insert_setting v (set_vars e) in (e <| set_vars := s |>, r) in
  let! e := when (negb is_new) (λ e, e <| set_vars ::= assign it v |>) e in
  (e, if notify then Some (v, in_sysenv || negb is_new) else None).

Definition import_parent_var n e : environment :=
  let! e := e <| undefine ::= λ s, (erase_name n s).1 |> in
  let! e := e <| set_vars ::= λ s, (erase_setting n s).1 |> in
  when (negb (keep_parent_env e))
    (λ e, e <| import_from_parent ::= λ s, (insert_name n s).1 |>) e.

Definition undefine_var n (notify : bool) e : environment * option (text * bool) :=
  let! e := e <| import_from_parent ::= λ s, (erase_name n s).1 |> in
  let! '(e, n_removed) :=
    let '(s, r) := erase_setting n (set_vars e) in (e <| set_vars := s |>, r) in
  let was_set := (0 <? n_removed)
                 || (notify && bool_decide (is_Some (getenv n))) in
  let! e := when (keep_parent_env e)
              (λ e, e <| undefine ::= λ s, (insert_name n s).1 |>) e in
  (e, if notify then Some (n, was_set) else None).

Definition clear_no_inherit e : environment :=
  e <| keep_parent_env := false |> <| import_from_parent ::= clear |> <| undefine ::= clear |>
    <| set_vars ::= clear |>.

Definition add_listener (l : nat) e : environment :=
  e <| env_listeners ::= λ ls, if bool_decide (l ∈ ls) then ls else l :: ls |>.
Definition remove_listener (l : nat) e : environment :=
  e <| env_listeners ::= filter (λ k, k ≠ l) |>.

(** ** Environment files *)

Variant env_log := Invalid_setting (linenum : Z) | Bad_command (linenum : Z).

(** The arguments of a meta-command; every turn takes characters, so that the length of
    the text is enough fuel. *)
Fixpoint command_args (fuel : nat) (s : text) : list text :=
  match fuel with
  | O => []
  | S fuel =>
      match skip_ws s with
      | [] => []
      | s => let rest := find_ws s in
             take (length s - length rest) s :: command_args fuel rest
      end
  end.

Definition run_env_command (cmd : text) (args : list text) (linenum : Z) (log_warnings : bool) e
    : environment * list env_log :=
  if text_eqb cmd (chars "clear") then (clear_no_inherit e, [])
  else if text_eqb cmd (chars "unset")
  then (for_each args (λ n e, (undefine_var n false e).1) e, [])
  else if text_eqb cmd (chars "import")
  then (for_each args import_parent_var e, [])
  else (e, if log_warnings then [Bad_command linenum] else []).

(** The name of a setting ends at '=' or whitespace. *)
Fixpoint find_name_end (s : text) : text :=
  match s with
  | c :: s' => if (c =? EQUALS) || is_space c then s else find_name_end s'
  | [] => []
  end.

Definition env_setting (s : text) (linenum : Z) (log_warnings : bool) e
    : environment * list env_log :=
  let rest := find_name_end (tail s) in
  let n := take (length s - length rest) s in
  match skip_ws rest with
  | c :: val =>
      if c =? EQUALS then ((set_var (n ++ EQUALS :: val) false e).1, [])
      else (e, if log_warnings then [Invalid_setting linenum] else [])
  | [] => (e, if log_warnings then [Invalid_setting linenum] else [])
  end.

(** One line.  [None]: the iterator for the end of the command starts behind the end of the
    line, which is undefined. *)
Definition read_env_line (line : text) (linenum : Z) (log_warnings : bool) e
    : option (environment * list env_log) :=
  match skip_ws line with
  | [] => Some (e, [])
  | c :: s =>
      if c =? HASH then Some (e, [])
      else if c =? EQUALS then Some (e, if log_warnings then [Invalid_setting linenum] else [])
      else if c =? 33 (* ! *) then
        match s with
        | [] => None
        | _ :: s' =>
            let rest := find_ws s' in
            let cmd := take (length s - length rest) s in
            Some (run_env_command cmd (command_args (length rest) rest) linenum log_warnings e)
        end
      else Some (env_setting (c :: s) linenum log_warnings e)
  end.

Fixpoint read_env_lines (lines : list text) (linenum : Z) (log_warnings : bool) e
    (logged : list env_log) : option (environment * list env_log) :=
  match lines with
  | [] => Some (e, logged)
  | line :: lines =>
      '(e, l) ← read_env_line line linenum log_warnings e;
      read_env_lines lines (linenum + 1) log_warnings e (logged ++ l)
  end.

(** [read_env_file_inline]; [file] is the lines of the file if it can be opened, otherwise
    [Throw] is a [std::system_error]. *)
Definition read_env_file (file : option (list text)) (log_warnings throw_on_open_failure : bool) e
    : option (result (environment * list env_log)) :=
  match file with
  | None =>
      Some (if throw_on_open_failure then Throw (System_error []) else Ok (e, []))
  | Some lines => Ok <$> read_env_lines lines 1 log_warnings e []
  end.
End real_environment.
#[export] Existing Instance eta_env_map.
