(* ===== verification/Process.v ===== *)
(** * Services with processes

    Classes [base_process_service], [process_service], [bgproc_service] and
    [scripted_service] ([proc-service.h], [proc-service.cc],
    [baseproc-service.cc]): the fields that these classes add, the virtual
    methods, and the handlers of the events that the event loop delivers.

    What a system call returns is up to the environment: the extension state has
    the results of the calls to come, in order.  Descriptors are allocated and
    closed in the model, so that leaks and double closes are visible.  The child
    side of a fork is another program ([run-child-proc.cc]) and is not modelled. *)

From S2P Require Import Prelude ServiceData Service TimeVal.
From S2P Require LogBuffer SettingValue Env.
Import LogBuffer (log_buffer, log_buf_size, eta_log_buffer, rearm, REARM, DISARM, REMOVED).

Module log_type_id.
Variant t := NONE | LOGFILE | BUFFER | PIPE.
#[export] Instance t_eq_dec : EqDecision t.
Proof. solve_decision. Defined.
End log_type_id.
Abbreviation log_type_id := log_type_id.t.
Export (hints) log_type_id.


(** The fields of the process classes that only the child process uses, with the owners
    of the activation socket and the environment, which [service_record] declares.
    [program_parts_valid] says whether the pointers of [exec_arg_parts] point into the
    storage that [program_name] has now. *)
Record child_settings := Child_settings {
  program_parts_valid : bool;
  working_dir : string;
  env_file : string;
  nice : option Z;
  rlimits : list SettingValue.service_rlimits;
  run_as_uid : Z;
  run_as_gid : Z;
  logfile_perms : Z;
  logfile_uid : Z;
  logfile_gid : Z;
  inittab_id : list Z;
  inittab_line : list Z;
  socket_perms : Z;
  socket_uid : Z;
  socket_gid : Z;
  service_env : Env.environment
}.
#[export] Instance eta_child_settings : Eta child_settings := λ c,
  Child_settings (program_parts_valid c) (working_dir c) (env_file c) (nice c) (rlimits c)
    (run_as_uid c) (run_as_gid c) (logfile_perms c) (logfile_uid c) (logfile_gid c)
    (inittab_id c) (inittab_line c) (socket_perms c) (socket_uid c) (socket_gid c)
    (service_env c).

(** The values that the constructors give; those of [inittab_id] and [inittab_line] are
    indeterminate there, and set before they are read. *)
Definition child_settings_new : child_settings :=
  Child_settings true "" "" None [] (2 ^ 32 - 1) (2 ^ 32 - 1) 0 (2 ^ 32 - 1) (2 ^ 32 - 1) [] []
    0 (2 ^ 32 - 1) (2 ^ 32 - 1) Env.environment_new.

(** The fields of the process classes, and [waiting_for_execstat] and
    [term_signal], which [service_record] declares for them. *)
Record proc := Proc {
  exec_arg_parts : list string;
  stop_command : string;
  stop_arg_parts : list string;
  log_type : log_type_id;
  logfile : string;
  lbuf : log_buffer;
  last_start_time : time_val;
  restart_interval_time : time_val;
  restart_interval_count : Z;
  restart_interval : time_val;
  max_restart_interval_count : Z;
  restart_delay : time_val;
  stop_timeout : time_val;
  start_timeout : time_val;
  force_notification_fd : Z;
  notification_var : string;
  pid : Z;
  exit_status : proc_status_t;
  socket_path : string;
  socket_fd : Z;
  notification_fd : Z;
  log_output_fd : Z;
  log_input_fd : Z;
  waiting_restart_timer : bool;
  waiting_stopstart_timer : bool;
  reserved_child_watch : bool;
  tracking_child : bool;
  waiting_for_execstat : bool;
  exec_err_info : run_proc_err;
  term_signal : Z;
  (* process_service *)
  reserved_stop_watch : bool;
  stop_issued : bool;
  stop_pid : Z;
  stop_status : proc_status_t;
  doing_smooth_recovery : bool;
  consumer_for : option sid;
  (* bgproc_service *)
  pid_file : string;
  (* scripted_service *)
  interrupting_start : bool;
  (* the event loop's side: what is armed and registered *)
  timer : option time_val;
  status_fd : Z;               (* descriptor of the exec status watcher *)
  log_watched : bool;
  log_watch_enabled : bool;
  ready_watched : bool;
  ready_enabled : bool;
  stop_status_fd : Z;
  child : child_settings
}.
#[export] Instance eta_proc : Eta proc := λ p,
  Proc (exec_arg_parts p) (stop_command p) (stop_arg_parts p) (log_type p) (logfile p) (lbuf p)
    (last_start_time p) (restart_interval_time p) (restart_interval_count p)
    (restart_interval p) (max_restart_interval_count p) (restart_delay p) (stop_timeout p)
    (start_timeout p) (force_notification_fd p) (notification_var p) (pid p) (exit_status p)
    (socket_path p) (socket_fd p) (notification_fd p) (log_output_fd p) (log_input_fd p)
    (waiting_restart_timer p) (waiting_stopstart_timer p) (reserved_child_watch p)
    (tracking_child p) (waiting_for_execstat p) (exec_err_info p) (term_signal p)
    (reserved_stop_watch p) (stop_issued p) (stop_pid p) (stop_status p)
    (doing_smooth_recovery p) (consumer_for p) (pid_file p) (interrupting_start p) (timer p)
    (status_fd p) (log_watched p) (log_watch_enabled p) (ready_watched p) (ready_enabled p)
    (stop_status_fd p) (child p).

(** The constructors of the classes. *)
Definition proc_new (command : list string) : proc :=
  {| exec_arg_parts := command; stop_command := ""; stop_arg_parts := [];
     log_type := log_type_id.NONE; logfile := ""; lbuf := LogBuffer.log_buffer_new;
     last_start_time := Time_val 0 0; restart_interval_time := Time_val 0 0;
     restart_interval_count := 0; restart_interval := Time_val 10 0;
     max_restart_interval_count := 3; restart_delay := Time_val 0 200000000;
     stop_timeout := Time_val 10 0; start_timeout := Time_val 60 0;
     force_notification_fd := -1; notification_var := ""; pid := -1;
     exit_status := proc_status_empty; socket_path := ""; socket_fd := -1;
     notification_fd := -1; log_output_fd := -1; log_input_fd := -1;
     waiting_restart_timer := false; waiting_stopstart_timer := false;
     reserved_child_watch := false; tracking_child := false;
     waiting_for_execstat := false; exec_err_info := Run_proc_err 0 0;
     term_signal := SIGTERM; reserved_stop_watch := false; stop_issued := false;
     stop_pid := -1; stop_status := proc_status_empty; doing_smooth_recovery := false;
     consumer_for := None; pid_file := ""; interrupting_start := false; timer := None;
     status_fd := -1; log_watched := false; log_watch_enabled := false;
     ready_watched := false; ready_enabled := false; stop_status_fd := -1;
     child := child_settings_new |}.

Record proc_ext := Proc_ext {
  procs : gmap sid proc;
  now : time_val;               (* the monotonic clock *)
  os : list Z;                  (* results of the system calls to come *)
  open_fds : gset Z;
  next_fd : Z;
  is_triggered : gset sid;
  console_logging : bool
}.
#[export] Instance eta_proc_ext : Eta proc_ext := λ e,
  Proc_ext (procs e) (now e) (os e) (open_fds e) (next_fd e) (is_triggered e)
    (console_logging e).

Abbreviation psys := (sys proc_ext).

Implicit Types (st : psys) (x y : sid) (pull pq : psys → psys).

Definition upd_ext (f : proc_ext → proc_ext) st : psys := st <| ext ::= f |>.
Definition proc_of st x : proc := default (proc_new []) (procs (ext st) !! x).
Definition upd_proc x (f : proc → proc) st : psys :=
  upd_ext (λ e, e <| procs := <[x := f (proc_of st x)]> (procs e) |>) st.

(** ** System calls *)

(** The next result; without one, a failure. *)
Definition os_result st : psys * Z :=
  match os (ext st) with
  | [] => (st, -1)
  | r :: rest => (upd_ext (λ e, e <| os := rest |>) st, r)
  end.

Definition open_fd st : psys * Z :=
  let fd := next_fd (ext st) in
  (upd_ext (λ e, e <| next_fd := fd + 1 |> <| open_fds ::= (λ s, {[fd]} ∪ s) |>) st, fd).

Definition close fd st : psys :=
  if bool_decide (fd ∈ open_fds (ext st))
  then upd_ext (λ e, e <| open_fds ::= (λ s, s ∖ {[fd]}) |>) st
  else emit (Bad_close fd) st.

(** [pipe2] and [dinit_socketpair]: two descriptors, or failure. *)
Definition two_fds st : psys * option (Z * Z) :=
  let! '(st, r) := os_result st in
  if negb (r =? 0) then (st, None)
  else
    let! '(st, fd0) := open_fd st in
    let! '(st, fd1) := open_fd st in
    (st, Some (fd0, fd1)).

(** [process_timer.arm_timer_rel] and [stop_timer]. *)
Definition arm_timer x (t : time_val) st : psys :=
  emit (Arm_timer x) (upd_proc x (λ p, p <| timer := Some t |>) st).
Definition stop_timer x st : psys :=
  emit (Stop_timer x) (upd_proc x (λ p, p <| timer := None |>) st).

Definition zero_time (t : time_val) : bool := tv_eqb t (Time_val 0 0).

(** [if (waiting_stopstart_timer) { stop_timer; waiting_stopstart_timer = false; }] *)
Definition cancel_stopstart_timer x st : psys :=
  when (waiting_stopstart_timer (proc_of st x))
    (λ st, upd_proc x (λ p, p <| waiting_stopstart_timer := false |>) (stop_timer x st)) st.

(** Arming the timer for a timeout that is not 0. *)
Definition arm_stopstart_timer x (t : time_val) st : psys :=
  when (negb (zero_time t))
    (λ st, upd_proc x (λ p, p <| waiting_stopstart_timer := true |>) (arm_timer x t st)) st.

Definition get_state st x : service_state_t := service_state (svc st x).
Definition get_target_state st x : service_state_t := desired_state (svc st x).
Definition set_state x (s : service_state_t) st : psys :=
  upd x (λ r, r <| service_state := s |>) st.
Definition set_target_state x (s : service_state_t) st : psys :=
  upd x (λ r, r <| desired_state := s |>) st.
Definition set_stop_reason x (r : stopped_reason_t) st : psys :=
  upd x (λ s, s <| stop_reason := r |>) st.

(** The class of a service. *)
Definition is_process st x : bool :=
  bool_decide (record_type (svc st x) = service_type_t.PROCESS)
  || bool_decide (record_type (svc st x) = service_type_t.BGPROCESS).
Definition is_scripted st x : bool :=
  bool_decide (record_type (svc st x) = service_type_t.SCRIPTED).
Definition is_base_process st x : bool := is_process st x || is_scripted st x.
Definition is_trigger st x : bool :=
  bool_decide (record_type (svc st x) = service_type_t.TRIGGERED).

(** ** Signals *)

Definition kill_pg x (signo : Z) st : psys :=
  if signal_process_only (onstart_flags (svc st x))
  then emit (Kill (pid (proc_of st x)) signo) st
  else
    let! '(st, r) := os_result st in                       (* getpgid *)
    let pgid := if r =? -1 then pid (proc_of st x) else r in
    emit (Kill (- pgid) signo) st.

(** [base_process_service::kill_with_fire] and [process_service::kill_with_fire]. *)
Definition base_kill_with_fire x st : psys :=
  when (negb (pid (proc_of st x) =? -1)) (kill_pg x SIGKILL) st.
Definition process_kill_with_fire x st : psys :=
  let! st := base_kill_with_fire x st in
  when (negb (stop_pid (proc_of st x) =? -1))
    (λ st,
      let! '(st, r) := os_result st in
      let pgid := if r =? -1 then stop_pid (proc_of st x) else r in
      emit (Kill (- pgid) SIGKILL) st) st.
Definition kill_with_fire x st : psys :=
  if is_process st x then process_kill_with_fire x st else base_kill_with_fire x st.

(** ** Virtual methods that do not call back *)

Definition proc_can_interrupt_start st x : bool :=
  if is_base_process st x
  then waiting_restart_timer (proc_of st x) || start_interruptible (onstart_flags (svc st x))
       || base_can_interrupt_start st x
  else if is_trigger st x then true
  else base_can_interrupt_start st x.

(** [base_process_service::interrupt_start]. *)
Definition base_process_interrupt_start x st : psys * bool :=
  if waiting_restart_timer (proc_of st x) then
    let! st := stop_timer x st in
    let! st := upd_proc x (λ p, p <| waiting_restart_timer := false |>) st in
    base_interrupt_start x st
  else
    let! st := kill_pg x SIGINT (emit (Log_misc x) st) in
    let! st :=
      if negb (zero_time (stop_timeout (proc_of st x)))
      then upd_proc x (λ p, p <| waiting_stopstart_timer := true |>)
             (arm_timer x (stop_timeout (proc_of st x)) st)
      else cancel_stopstart_timer x st in
    (set_state x service_state_t.STOPPING st, false).

Definition proc_interrupt_start x st : psys * bool :=
  if is_scripted st x then
    let! '(st, r) := base_process_interrupt_start x st in
    (upd_proc x (λ p, p <| interrupting_start := negb r |>) st, r)
  else if is_process st x then base_process_interrupt_start x st
  else base_interrupt_start x st.

(** [base_process_service::becoming_inactive]. *)
Definition proc_becoming_inactive x st : psys :=
  when (is_base_process st x && negb (socket_fd (proc_of st x) =? -1))
    (λ st, upd_proc x (λ p, p <| socket_fd := -1 |>) (close (socket_fd (proc_of st x)) st)) st.

(** [process_service::check_restart]. *)
Definition process_check_restart x st : psys * bool :=
  let p := proc_of st x in
  if negb (max_restart_interval_count p =? 0) then
    let current_time := now (ext st) in
    let int_diff := tv_sub current_time (restart_interval_time p) in
    if tv_ltb int_diff (restart_interval p) then
      if max_restart_interval_count p <=? restart_interval_count p then
        (set_target_state x service_state_t.STOPPED (emit (Log_misc x) st), false)
      else (upd_proc x (λ p, p <| restart_interval_count ::= Z.add 1 |>) st, true)
    else
      (upd_proc x (λ p, p <| restart_interval_time := current_time |>
                          <| restart_interval_count := 1 |>) st, true)
  else (st, true).
Definition proc_check_restart x st : psys * bool :=
  if is_process st x then process_check_restart x st else base_check_restart x st.

Definition proc_get_exit_status st x : proc_status_t :=
  if is_base_process st x then exit_status (proc_of st x) else base_get_exit_status st x.

Definition proc_get_pid st x : Z :=
  if is_base_process st x then pid (proc_of st x) else base_get_pid st x.
(** The cast to [base_process_service] of another service does not happen: the other
    classes do not set the stop reason EXECFAILED. *)
Definition proc_get_exec_err_info st x : run_proc_err := exec_err_info (proc_of st x).

(** The console log, as in [Simple]. *)
Definition proc_enable_console_log pull (enable : bool) st : psys :=
  let! st := emit (Enable_console_log enable) st in
  if enable then upd_ext (λ e, e <| console_logging := true |>) st
  else if console_logging (ext st)
  then pull (upd_ext (λ e, e <| console_logging := false |>) st)
  else st.

(** The member functions of all classes over a [service_set] of the base class, whose
    [load_service] looks the name up among the services that are loaded (service.h).  The set
    with directories, whose [load_service] is [LoadService.load_service], is another
    implementation of that member function; its loading is built on the operations of this
    one, and the theorems on loading do not take place within an operation.  The two differ
    for a service of [chain_to] that is not loaded when its predecessor stops. *)
#[export] Instance proc_virtual : ServiceVirtual proc_ext := {
  can_interrupt_start := proc_can_interrupt_start;
  interrupt_start := proc_interrupt_start;
  becoming_inactive := proc_becoming_inactive;
  check_restart := proc_check_restart;
  get_exit_status := proc_get_exit_status;
  get_pid := proc_get_pid;
  get_exec_err_info := proc_get_exec_err_info;
  load_service := base_load_service;
  enable_console_log := proc_enable_console_log
}.
