(* ===== verification/ProcessRun.v ===== *)
(** * Launching processes, bringing up and bringing down

    [start_ps_process], [restart_ps_process], [open_socket] and [bring_up] of
    [baseproc-service.cc], [start_stop_process] and [bring_down] of
    [proc-service.cc].  A failure exit that the code reaches with [goto] is a
    function of the descriptors and registrations that the code tests there. *)

From S2P Require Import Prelude ServiceData Service TimeVal Process.
From S2P Require LogBuffer.
Import LogBuffer (append_restart_note).

Implicit Types (st : psys) (x y : sid) (pull pq : psys → psys).

(** The next call succeeds. *)
Definition os_ok st : psys * bool :=
  let! '(st, r) := os_result st in (st, r =? 0).

(** A call that returns a new descriptor. *)
Definition new_fd st : psys * option Z :=
  let! '(st, ok) := os_ok st in
  if ok then let! '(st, fd) := open_fd st in (st, Some fd) else (st, None).

Definition log_misc x st : psys := emit (Log_misc x) st.

(** ** The pipe for the output of a service *)

(** [get_output_pipe_fd] of [base_process_service] and of [placeholder_service];
    other services have none. *)
Definition get_output_pipe_fd x st : psys * Z :=
  if is_base_process st x || bool_decide (record_type (svc st x) = service_type_t.PLACEHOLDER)
  then
    if negb (log_input_fd (proc_of st x) =? -1) then (st, log_input_fd (proc_of st x))
    else
      let! '(st, pipefds) := two_fds st in
      match pipefds with
      | None => (log_misc x st, -1)
      | Some (fd0, fd1) =>
          (upd_proc x (λ p, p <| log_input_fd := fd0 |> <| log_output_fd := fd1 |>) st, fd0)
      end
  else (st, -1).

(** [get_input_fd]: the descriptor, or failure. *)
Definition get_input_fd x st : psys * option Z :=
  if is_process st x then
    match consumer_for (proc_of st x) with
    | None => (st, Some (-1))
    | Some consumed =>
        let! '(st, cfd) := get_output_pipe_fd consumed st in
        (st, if cfd =? -1 then None else Some cfd)
    end
  else (st, Some (-1)).

(** [log_output_listener.deregister]. *)
Definition deregister_log x st : psys :=
  if log_watched (proc_of st x)
  then upd_proc x (λ p, p <| log_watched := false |>) st
  else emit (Bad_deregister x) st.

(** [transfer_output_pipe]: the descriptors leave the service. *)
Definition transfer_output_pipe x st : psys * (Z * Z) :=
  let p := proc_of st x in
  let r := (log_input_fd p, log_output_fd p) in
  let! st :=
    when (is_base_process st x && bool_decide (log_type p = log_type_id.BUFFER)
          && negb (log_output_fd p =? -1))
      (deregister_log x) st in
  (upd_proc x (λ p, p <| log_input_fd := -1 |> <| log_output_fd := -1 |>) st, r).

Definition set_log_mode x (ty : log_type_id) st : psys :=
  if bool_decide (log_type (proc_of st x) = ty) then st
  else
    let! st :=
      when (negb (log_output_fd (proc_of st x) =? -1))
        (λ st,
          let! st :=
            when (bool_decide (log_type (proc_of st x) = log_type_id.BUFFER))
              (deregister_log x) st in
          when (negb (bool_decide (ty = log_type_id.BUFFER))
                && negb (bool_decide (ty = log_type_id.PIPE)))
            (λ st,
              let! st := close (log_output_fd (proc_of st x)) st in
              let! st := close (log_input_fd (proc_of st x)) st in
              upd_proc x (λ p, p <| log_input_fd := -1 |> <| log_output_fd := -1 |>) st)
            st) st in
    upd_proc x (λ p, p <| log_type := ty |>) st.

(** ** Failure exits of [start_ps_process] *)

(** [out_p] *)
Definition out_p (pipefd : Z * Z) st : psys * bool :=
  let! st := close pipefd.1 st in
  let! st := close pipefd.2 st in
  (st, false).

(** [out_lfd] *)
Definition out_lfd x (pipefd : Z * Z) st : psys * bool :=
  let! st :=
    when (negb (log_input_fd (proc_of st x) =? -1))
      (λ st,
        let! st := deregister_log x st in
        let! st := close (log_input_fd (proc_of st x)) st in
        let! st := close (log_output_fd (proc_of st x)) st in
        upd_proc x (λ p, p <| log_input_fd := -1 |> <| log_output_fd := -1 |>) st) st in
  out_p pipefd st.

(** [out_cs] *)
Definition out_cs x (pipefd control_socket : Z * Z) st : psys * bool :=
  let! st := close control_socket.1 st in
  let! st := close control_socket.2 st in
  out_lfd x pipefd st.

Definition close_if_open (fd : Z) st : psys := when (negb (fd =? -1)) (close fd) st.

(** [out_cs_h]; deleting the control connection closes its descriptor. *)
Definition out_cs_h x (pipefd control_socket notify_pipe : Z * Z)
    (child_status_registered ready_watcher_registered : bool) st : psys * bool :=
  let! st :=
    when child_status_registered (upd_proc x (λ p, p <| status_fd := -1 |>)) st in
  let! st := close_if_open notify_pipe.1 st in
  let! st := close_if_open notify_pipe.2 st in
  let! st :=
    when ready_watcher_registered (upd_proc x (λ p, p <| ready_watched := false |>)) st in
  if pass_cs_fd (onstart_flags (svc st x)) then
    let! st := close control_socket.1 st in
    out_cs x pipefd control_socket st
  else out_lfd x pipefd st.

(** ** [start_ps_process] *)

(** From the [fork] on; the parent's side. *)
Definition fork_process x (pipefd control_socket notify_pipe : Z * Z)
    (ready_watcher_registered : bool) st : psys * bool :=
  let! '(st, ok) := os_ok st in                              (* add_watch *)
  if negb ok then
    out_cs_h x pipefd control_socket notify_pipe false ready_watcher_registered (log_misc x st)
  else
    let! st := upd_proc x (λ p, p <| status_fd := pipefd.1 |>) st in
    let! '(st, forkpid) := os_result st in
    if forkpid <=? 0 then
      out_cs_h x pipefd control_socket notify_pipe true ready_watcher_registered (log_misc x st)
    else
      let! st := emit (Forked x forkpid) st in
      let! st := upd_proc x (λ p, p <| reserved_child_watch := true |>) st in
      let! st := upd_proc x (λ p, p <| pid := forkpid |>) st in
      let! st := close pipefd.2 st in
      let! st := close_if_open control_socket.2 st in
      let! st := close_if_open notify_pipe.2 st in
      let! st := upd_proc x (λ p, p <| notification_fd := notify_pipe.1 |>) st in
      let! st := upd_proc x (λ p, p <| waiting_for_execstat := true |>) st in
      (st, true).

(** The watcher of the output is enabled if there is space in the buffer. *)
Definition enable_log_watch x st : psys :=
  when (bool_decide (log_type (proc_of st x) = log_type_id.BUFFER))
    (λ st,
      let! '(st, memory) := os_ok st in
      let '(b, enable) := append_restart_note memory (lbuf (proc_of st x)) in
      let! st := upd_proc x (λ p, p <| lbuf := b |>) st in
      when enable (upd_proc x (λ p, p <| log_watch_enabled := true |>)) st) st.

Definition have_notify (p : proc) : bool :=
  negb (String.eqb (notification_var p) "") || negb (force_notification_fd p =? -1).

(** The notification pipe; on success its ends, and whether the watcher has been
    registered. *)
Definition open_notify x (pipefd control_socket : Z * Z) st : psys * bool :=
  if have_notify (proc_of st x) then
    let! '(st, pipe) := two_fds st in
    match pipe with
    | None => out_cs_h x pipefd control_socket (-1, -1) false false (log_misc x st)
    | Some notify_pipe =>
        let! '(st, ok) := os_ok st in                        (* rwatcher->add_watch *)
        if negb ok
        then out_cs_h x pipefd control_socket notify_pipe false false (log_misc x st)
        else
          let! st :=
            upd_proc x (λ p, p <| ready_watched := true |> <| ready_enabled := false |>) st in
          fork_process x pipefd control_socket notify_pipe true (enable_log_watch x st)
    end
  else fork_process x pipefd control_socket (-1, -1) false (enable_log_watch x st).

(** The control socket. *)
Definition open_control x (pipefd : Z * Z) st : psys * bool :=
  if pass_cs_fd (onstart_flags (svc st x)) then
    let! '(st, sock) := two_fds st in
    match sock with
    | None => out_lfd x pipefd (log_misc x st)
    | Some control_socket =>
        let! '(st, ok) := os_ok st in                        (* new control_conn_t *)
        if negb ok then out_cs x pipefd control_socket (log_misc x st)
        else open_notify x pipefd control_socket st
    end
  else open_notify x pipefd (-1, -1) st.

(** The output pipe; [false]: leave through [out_p]. *)
Definition open_log_pipe x st : psys * bool :=
  let ty := log_type (proc_of st x) in
  if bool_decide (ty = log_type_id.LOGFILE) || bool_decide (ty = log_type_id.NONE)
  then (st, true)
  else if log_output_fd (proc_of st x) =? -1 then
    let! '(st, pipe) := two_fds st in
    match pipe with
    | None => (log_misc x st, false)
    | Some (fd0, fd1) =>
        let! st :=
          upd_proc x (λ p, p <| log_input_fd := fd0 |> <| log_output_fd := fd1 |>) st in
        if bool_decide (ty = log_type_id.BUFFER) then
          let! '(st, ok) := os_ok st in                      (* add_watch *)
          if ok
          then (upd_proc x (λ p, p <| log_watched := true |> <| log_watch_enabled := false |>) st,
                true)
          else
            let! st := log_misc x st in
            let! st := close fd0 st in
            let! st := close fd1 st in
            (upd_proc x (λ p, p <| log_input_fd := -1 |> <| log_output_fd := -1 |>) st, false)
        else (st, true)
    end
  else (st, true).

(** [start_ps_process]; which command is run and whether it is on the console
    only concerns the child. *)
Definition start_ps_process x (cmd : list string) (on_console : bool) st : psys * bool :=
  let! st := upd_proc x (λ p, p <| last_start_time := now (ext st) |>) st in
  let! '(st, pipe) := two_fds st in
  match pipe with
  | None => (log_misc x st, false)
  | Some pipefd =>
      let! '(st, input_fd) := get_input_fd x st in
      match input_fd with
      | None => (st, false)
      | Some _ =>
          let! '(st, ok) := open_log_pipe x st in
          if ok then open_control x pipefd st else out_p pipefd st
      end
  end.

(** [start_stop_process] *)
Definition start_stop_process x (cmd : list string) st : psys * bool :=
  let! '(st, pipe) := two_fds st in
  match pipe with
  | None => (log_misc x st, false)
  | Some pipefd =>
      let! '(st, ok) := os_ok st in                          (* add_watch *)
      if negb ok then out_p pipefd (log_misc x st)
      else
        let! st := upd_proc x (λ p, p <| stop_status_fd := pipefd.1 |>) st in
        let! '(st, forkpid) := os_result st in
        if forkpid <=? 0 then
          let! st := upd_proc x (λ p, p <| stop_status_fd := -1 |>) (log_misc x st) in
          out_p pipefd st
        else
          let! st := emit (Forked x forkpid) st in
          let! st := upd_proc x (λ p, p <| reserved_stop_watch := true |>) st in
          let! st := upd_proc x (λ p, p <| stop_pid := forkpid |>) st in
          let! st := close pipefd.2 st in
          let! st := upd_proc x (λ p, p <| waiting_for_execstat := true |>) st in
          (st, true)
  end.

(** ** The activation socket *)

Definition S_IFSOCK : Z := 0xC000.   (* 0140000 *)
Definition ENOENT : Z := 2.

(** The calls that follow the creation of the socket: each must succeed. *)
Fixpoint set_up_socket x (sockfd : Z) (calls : nat) st : psys * bool :=
  match calls with
  | O => (upd_proc x (λ p, p <| socket_fd := sockfd |>) st, true)
  | S calls =>
      let! '(st, ok) := os_ok st in
      if ok then set_up_socket x sockfd calls st
      else (close sockfd (log_misc x st), false)
  end.

Definition open_socket x st : psys * bool :=
  if String.eqb (socket_path (proc_of st x)) "" || negb (socket_fd (proc_of st x) =? -1)
  then (st, true)
  else
    let! '(st, ok) := os_ok st in                            (* stat *)
    let! '(st, v) := os_result st in                         (* st_mode, or errno *)
    if ok && (Z.land v S_IFSOCK =? 0) then (log_misc x st, false)
    else if negb ok && negb (v =? ENOENT) then (log_misc x st, false)
    else
      let! st := emit (Unlink (socket_path (proc_of st x))) st in
      let! '(st, memory) := os_ok st in                      (* malloc *)
      if negb memory then (log_misc x st, false)
      else
        let! '(st, sock) := new_fd st in
        match sock with
        | None => (log_misc x st, false)
        | Some sockfd => set_up_socket x sockfd 4 st         (* bind, chown, chmod, listen *)
        end.

(** ** Bringing up *)

(** [do_restart] *)
Definition do_restart pull pq x st : psys :=
  let! st := upd_proc x (λ p, p <| waiting_restart_timer := false |>) st in
  let state := service_state (svc st x) in
  let! '(st, ok) :=
    start_ps_process x (exec_arg_parts (proc_of st x))
      (have_console (svc st x) || shares_console (onstart_flags (svc st x))) st in
  if negb ok then
    if bool_decide (state = service_state_t.STARTING)
    then pq (failed_to_start pull x false true st)
    else pq (unrecoverable_stop x st)
  else arm_stopstart_timer x (start_timeout (proc_of st x)) st.

(** [restart_ps_process]; it always returns [true]. *)
Definition restart_ps_process pull pq x st : psys :=
  let p := proc_of st x in
  let tdiff := tv_sub (now (ext st)) (last_start_time p) in
  if tv_leb (restart_delay p) tdiff then do_restart pull pq x st
  else
    let! st := arm_timer x (tv_sub (restart_delay p) tdiff) st in
    upd_proc x (λ p, p <| waiting_restart_timer := true |>) st.

(** [do_smooth_recovery]: its test never fails. *)
Definition do_smooth_recovery pull pq x st : psys := restart_ps_process pull pq x st.

(** [base_process_service::bring_up] *)
Definition base_process_bring_up pull pq x st : psys * bool :=
  let! '(st, ok) := open_socket x st in
  if negb ok then (st, false)
  else if in_auto_restart (svc st x) then (restart_ps_process pull pq x st, true)
  else
    let! st := upd_proc x (λ p, p <| restart_interval_count := 0 |>) st in
    let! '(st, start_success) :=
      start_ps_process x (exec_arg_parts (proc_of st x))
        (starts_on_console (onstart_flags (svc st x))
         || shares_console (onstart_flags (svc st x))) st in
    let! st := upd_proc x (λ p, p <| restart_interval_time := last_start_time p |>) st in
    let! st :=
      when start_success
        (λ st,
          if negb (zero_time (start_timeout (proc_of st x)))
          then arm_stopstart_timer x (start_timeout (proc_of st x)) st
          else cancel_stopstart_timer x st) st in
    (st, start_success).

(** ** Bringing down *)

(** The end of [process_service::bring_down], from [arm_timer] on. *)
Definition await_stop x st : psys :=
  let! st := upd_proc x (λ p, p <| stop_issued := true |>) st in
  arm_stopstart_timer x (stop_timeout (proc_of st x)) st.

(** The process has been signalled, or not, and no stop command runs. *)
Definition after_signal pull x st : psys :=
  if (stop_pid (proc_of st x) =? -1) && negb (tracking_child (proc_of st x))
  then stopped pull x st else await_stop x st.

Definition process_bring_down pull x st : psys :=
  let p := proc_of st x in
  if negb (stop_pid p =? -1) || stop_issued p then st
  else if waiting_for_execstat p then st
  else if negb (pid p =? -1) then
    if negb (String.eqb (stop_command p) "") && negb (stop_issued p) then
      let! '(st, ok) := start_stop_process x (stop_arg_parts p) st in
      if ok then await_stop x st
      else
        let! st :=
          if negb (term_signal (proc_of st x) =? 0)
          then kill_pg x (term_signal (proc_of st x)) st else kill_pg x SIGKILL st in
        after_signal pull x st
    else
      let! st :=
        when (negb (term_signal p =? 0)) (kill_pg x (term_signal p)) st in
      after_signal pull x st
  else
    let! st := upd_proc x (λ p, p <| doing_smooth_recovery := false |>) st in
    let! st :=
      when (waiting_restart_timer (proc_of st x))
        (λ st, upd_proc x (λ p, p <| waiting_restart_timer := false |>) (stop_timer x st)) st in
    stopped pull x st.

Definition scripted_bring_down pull x st : psys :=
  let p := proc_of st x in
  if negb (pid p =? -1) then st
  else if String.eqb (stop_command p) "" then stopped pull x st
  else
    let! '(st, ok) := start_ps_process x (stop_arg_parts p) false st in
    if negb ok then stopped pull x st
    else arm_stopstart_timer x (stop_timeout (proc_of st x)) st.

#[export] Instance proc_bring : ServiceBring proc_ext := {
  bring_up pull pq x st :=
    if is_base_process st x then base_process_bring_up pull pq x st
    else if is_trigger st x
    then (when (bool_decide (x ∈ is_triggered (ext st))) (started pull x) st, true)
    else base_bring_up pull x st;
  bring_down pull x st :=
    if is_process st x then process_bring_down pull x st
    else if is_scripted st x then scripted_bring_down pull x st
    else base_bring_down pull x st
}.
