(* ===== verification/ProcessEvents.v ===== *)
(** * The events of process services

    The handlers that the event loop calls ([proc-service.cc], and
    [timer_expired] of [baseproc-service.cc]): the exec status of a launched
    process, readiness notification, termination of the process or of the stop
    command, the timer, and output of the process.  [n] bounds the turns of
    [process_queues]. *)

From S2P Require Import Prelude Text ServiceData Service TimeVal Process ProcessRun.
From S2P Require LogBuffer.
Import LogBuffer (rearm, REARM, DISARM, REMOVED, read_result, Read, Again, Error, Eof, log_fd_event,
  log_buf_max).

Implicit Types (st : psys) (x y : sid).

Definition EAGAIN : Z := 11.
Definition EINTR : Z := 4.
Definition ESRCH : Z := 3.
Definition ECHILD : Z := 10.

(** What a [read] returns: the number of bytes and the bytes, or -1 and the error. *)
Fixpoint os_results (n : nat) st : psys * list Z :=
  match n with
  | O => (st, [])
  | S n =>
      let! '(st, r) := os_result st in
      let! '(st, rs) := os_results n st in
      (st, r :: rs)
  end.
Definition os_read (limit : Z) st : psys * read_result :=
  let! '(st, r) := os_result st in
  if r =? 0 then (st, Eof)
  else if r <? 0 then
    let! '(st, errno) := os_result st in
    (st, if (errno =? EAGAIN) || (errno =? EINTR) then Again else Error)
  else
    let! '(st, bytes) := os_results (Z.to_nat (Z.min r limit)) st in
    (st, Read bytes).

(** ** The PID file *)

Definition PID_MAX : Z := 2 ^ 31 - 1.

(** The number in the file, if it is a process ID. *)
Definition parse_pid (s : text) : option Z :=
  match strtoull 0 (c_string s) with
  | Some (v, false, _) => if v <=? PID_MAX then Some v else None
  | _ => None
  end.

Variant pid_result_t := PID_OK | PID_FAILED | PID_TERMINATED.

(** [read_pid_file].  The status of a terminated process is written to
    [exit_status], which every caller passes. *)
Definition read_pid_file x st : psys * pid_result_t :=
  let! '(st, file) := new_fd st in                           (* open *)
  match file with
  | None => (log_misc x st, PID_FAILED)
  | Some fd =>
      let! '(st, r) := os_result st in                       (* complete_read *)
      if r <? 0 then (close fd (log_misc x st), PID_FAILED)
      else
        let! '(st, pidbuf) := os_results (Z.to_nat (Z.min r 20)) st in
        let! st := close fd st in
        let invalid st := (upd_proc x (λ p, p <| pid := -1 |>) (log_misc x st), PID_FAILED) in
        match parse_pid pidbuf with
        | None => invalid st
        | Some v =>
            let! st := upd_proc x (λ p, p <| pid := v |>) st in
            let! '(st, waitid_r) := os_result st in
            let! '(st, errno) := os_result st in
            if (waitid_r =? -1) && (errno =? ECHILD) then
              let! '(st, kill_r) := os_result st in
              let! '(st, errno) := os_result st in
              if (kill_r =? 0) || negb (errno =? ESRCH) then
                (upd_proc x (λ p, p <| tracking_child := false |>) (log_misc x st), PID_OK)
              else invalid st
            else if waitid_r =? 0 then
              let! '(st, si_pid) := os_result st in
              if negb (si_pid =? 0) then
                let! st := upd_proc x (λ p, p <| pid := -1 |>) st in
                let! '(st, si_code) := os_result st in
                let! '(st, si_status) := os_result st in
                (upd_proc x (λ p, p <| exit_status := Proc_status si_code si_status |>) st,
                 PID_TERMINATED)
              else
                let! st := upd_proc x (λ p, p <| tracking_child := true |>) st in
                (upd_proc x (λ p, p <| reserved_child_watch := true |>) st, PID_OK)
            else invalid st
        end
  end.

(** ** Handlers *)

Section handlers.
Context (n : nat).
Abbreviation pq := (process_queues (X:=proc_ext) n).
Abbreviation pull := (pull_console_queue pq).

(** [started()], [stopped()] and [failed_to_start()] as a handler calls them. *)
Definition h_started x st : psys := started pull x st.
Definition h_stopped x st : psys := stopped pull x st.
Definition h_failed x (immediate_stop : bool) st : psys :=
  failed_to_start pull x false immediate_stop st.

(** *** Exec status *)

Definition process_exec_succeeded x st : psys :=
  let! st := upd_proc x (λ p, p <| tracking_child := true |>) st in
  match get_state st x with
  | service_state_t.STARTING =>
      if have_notify (proc_of st x)
      then upd_proc x (λ p, p <| ready_enabled := true |>) st
      else h_started x (cancel_stopstart_timer x st)
  | service_state_t.STARTED =>
      if waiting_stopstart_timer (proc_of st x) && (notification_fd (proc_of st x) =? -1)
      then cancel_stopstart_timer x st else st
  | service_state_t.STOPPING =>
      when (stop_check_dependents st x) (bring_down pull x) st
  | service_state_t.STOPPED => st
  end.
Definition exec_succeeded x st : psys :=
  if bool_decide (record_type (svc st x) = service_type_t.PROCESS)
  then process_exec_succeeded x st else st.

(** The readiness watcher and its descriptor. *)
Definition close_notification x st : psys :=
  when (negb (notification_fd (proc_of st x) =? -1))
    (λ st,
      let! st := upd_proc x (λ p, p <| ready_watched := false |>) st in
      let! st := close (notification_fd (proc_of st x)) st in
      upd_proc x (λ p, p <| notification_fd := -1 |>) st) st.

Definition process_exec_failed x st : psys :=
  let! st := cancel_stopstart_timer x (log_misc x st) in
  let! st := close_notification x st in
  if bool_decide (get_state st x = service_state_t.STARTING) then
    let! st := set_stop_reason x stopped_reason_t.EXECFAILED st in
    let! st := set_state x service_state_t.STOPPING st in
    h_failed x true st
  else
    let! st := upd_proc x (λ p, p <| doing_smooth_recovery := false |>) st in
    let! st := set_stop_reason x stopped_reason_t.TERMINATED st in
    unrecoverable_stop x st.

Definition bgproc_exec_failed x st : psys :=
  let! st := cancel_stopstart_timer x (log_misc x st) in
  if doing_smooth_recovery (proc_of st x) then
    let! st := upd_proc x (λ p, p <| doing_smooth_recovery := false |>) st in
    let! st := set_stop_reason x stopped_reason_t.TERMINATED st in
    unrecoverable_stop x st
  else
    let! st := set_stop_reason x stopped_reason_t.EXECFAILED st in
    let! st := set_state x service_state_t.STOPPING st in
    h_failed x true st.

Definition scripted_exec_failed x st : psys :=
  let! st := log_misc x st in
  match get_state st x with
  | service_state_t.STARTING => h_failed x true (set_stop_reason x stopped_reason_t.EXECFAILED st)
  | service_state_t.STOPPING => h_stopped x st
  | _ => st
  end.

Definition exec_failed x st : psys :=
  match record_type (svc st x) with
  | service_type_t.PROCESS => process_exec_failed x st
  | service_type_t.BGPROCESS => bgproc_exec_failed x st
  | service_type_t.SCRIPTED => scripted_exec_failed x st
  | _ => st
  end.

(** *** Termination of the process *)

Definition handle_unexpected_termination x st : psys :=
  let! st := set_stop_reason x stopped_reason_t.TERMINATED st in
  let! st := upd x (λ r, r <| force_stop := true |>) st in
  let! st := do_stop x false st in
  let! st := pq st in
  when (bool_decide (get_state st x = service_state_t.STOPPING))
    (λ st,
      when (bool_decide (get_target_state st x = service_state_t.STARTED)
            && negb (pinned_stopped (svc st x)))
        (λ st, pq (initiate_start x st)) st) st.

(** The messages about the exit status. *)
Definition log_exit x (current_state : service_state_t) st : psys :=
  when (negb (did_exit_clean (exit_status (proc_of st x)))
        && negb (bool_decide (current_state = service_state_t.STOPPING)))
    (log_misc x) st.

(** [initiate_start] if the service is wanted again. *)
Definition restart_if_wanted x st : psys :=
  when (bool_decide (get_target_state st x = service_state_t.STARTED)
        && negb (pinned_stopped (svc st x)))
    (initiate_start x) st.

Definition process_handle_exit_status x st : psys :=
  let current_state := get_state st x in
  let! st := close_notification x st in
  let! st := log_exit x current_state st in
  let! '(st, current_state) :=
    if waiting_stopstart_timer (proc_of st x) then
      let! st := cancel_stopstart_timer x st in
      (st, if bool_decide (current_state = service_state_t.STARTED)
           then service_state_t.STARTING else current_state)
    else (st, current_state) in
  match current_state with
  | service_state_t.STARTING =>
      pq (h_failed x true (set_stop_reason x stopped_reason_t.FAILED st))
  | service_state_t.STOPPING =>
      let! st :=
        when (waiting_stopstart_timer (proc_of st x)) (stop_timer x) st in
      let! st :=
        if negb (waiting_for_deps (svc st x)) then
          when ((stop_pid (proc_of st x) =? -1) && negb (waiting_for_execstat (proc_of st x)))
            (λ st, h_stopped x (upd_proc x (λ p, p <| stop_issued := false |>) st)) st
        else restart_if_wanted x st in
      pq st
  | _ =>
      let! '(st, recover) :=
        if smooth_recovery (svc st x)
           && bool_decide (current_state = service_state_t.STARTED)
        then process_check_restart x st else (st, false) in
      if recover then
        do_smooth_recovery pull pq x (upd_proc x (λ p, p <| doing_smooth_recovery := true |>) st)
      else pq (handle_unexpected_termination x st)
  end.

(** The exit status shows a failure. *)
Definition exited_badly (s : proc_status_t) : bool :=
  (did_exit s && negb (get_status s =? 0)) || was_signalled s.

(** [bgproc_service::handle_exit_status]; [again] is [goto begin]. *)
Definition bgproc_exit_body (again : psys → psys) x st : psys :=
  let current_state := get_state st x in
  let! st := log_exit x current_state st in
  let! st := cancel_stopstart_timer x st in
  if doing_smooth_recovery (proc_of st x) then
    let! st := upd_proc x (λ p, p <| doing_smooth_recovery := false |>) st in
    if bool_decide (current_state = service_state_t.STOPPING) then
      if exited_badly (exit_status (proc_of st x)) then
        pq (if negb (waiting_for_deps (svc st x)) then h_stopped x st
            else restart_if_wanted x st)
      else if negb (String.eqb (pid_file (proc_of st x)) "") then
        let! '(st, pid_result) := read_pid_file x st in
        if waiting_for_deps (svc st x) then st
        else
          match pid_result with
          | PID_FAILED | PID_TERMINATED => pq (h_stopped x st)
          | PID_OK => pq (bring_down pull x st)
          end
      else pq st
    else
      let fail st :=
        pq (unrecoverable_stop x (set_stop_reason x stopped_reason_t.TERMINATED st)) in
      if exited_badly (exit_status (proc_of st x)) then fail st
      else if negb (String.eqb (pid_file (proc_of st x)) "") then
        let! '(st, pid_result) := read_pid_file x st in
        match pid_result with
        | PID_FAILED => fail st
        | PID_TERMINATED => again st
        | PID_OK => st
        end
      else st
  else
    match current_state with
    | service_state_t.STARTING =>
        if did_exit_clean (exit_status (proc_of st x)) then
          let! '(st, pid_result) := read_pid_file x st in
          match pid_result with
          | PID_FAILED => pq (h_failed x true (set_stop_reason x stopped_reason_t.FAILED st))
          | PID_TERMINATED => again (h_started x st)
          | PID_OK => pq (h_started x st)
          end
        else pq (h_failed x true (set_stop_reason x stopped_reason_t.FAILED st))
    | service_state_t.STOPPING =>
        pq (when ((stop_pid (proc_of st x) =? -1)
                  && negb (waiting_for_execstat (proc_of st x)))
              (λ st, h_stopped x (upd_proc x (λ p, p <| stop_issued := false |>) st)) st)
    | _ =>
        let! '(st, recover) :=
          if smooth_recovery (svc st x)
             && bool_decide (get_target_state st x = service_state_t.STARTED)
          then process_check_restart x st else (st, false) in
        if recover then
          let! st := upd_proc x (λ p, p <| doing_smooth_recovery := true |>) st in
          let! st := do_smooth_recovery pull pq x st in
          when (negb (bool_decide (get_state st x = service_state_t.STARTED)))
            (upd_proc x (λ p, p <| doing_smooth_recovery := false |>)) st
        else pq (handle_unexpected_termination x st)
    end.

Fixpoint bgproc_exit_fuel (k : nat) x st : psys :=
  match k with
  | O => set_unfinished st
  | S k => bgproc_exit_body (bgproc_exit_fuel k x) x st
  end.

(** The first repetition ends smooth recovery, the second one the start; the
    bound on the turns of the queues also bounds the repetitions. *)
Definition bgproc_handle_exit_status x st : psys := bgproc_exit_fuel n x st.

Definition scripted_handle_exit_status x st : psys :=
  let status := exit_status (proc_of st x) in
  if bool_decide (get_state st x = service_state_t.STOPPING) then
    let! st :=
      if interrupting_start (proc_of st x) then
        let! st := cancel_stopstart_timer x st in
        let! st :=
          if did_exit status && negb (get_status status =? 0)
          then h_stopped x (log_misc x st)
          else bring_down pull x (when (was_signalled status) (log_misc x) st) in
        upd_proc x (λ p, p <| interrupting_start := false |>) st
      else if did_exit_clean status then h_stopped x st
      else h_stopped x (log_misc x st) in
    pq st
  else
    let! st :=
      if did_exit_clean status then h_started x st
      else if was_signalled status && (get_signal status =? SIGINT)
              && skippable (onstart_flags (svc st x))
      then h_started x (upd x (λ r, r <| start_skipped := true |>) st)
      else
        let! st := log_misc x st in
        h_failed x true (set_stop_reason x stopped_reason_t.FAILED st) in
    pq st.

Definition handle_exit_status x st : psys :=
  match record_type (svc st x) with
  | service_type_t.PROCESS => process_handle_exit_status x st
  | service_type_t.BGPROCESS => bgproc_handle_exit_status x st
  | service_type_t.SCRIPTED => scripted_handle_exit_status x st
  | _ => st
  end.

(** [exec_status_pipe_watcher::fd_event] *)
Definition exec_status_event x st : psys :=
  let! st := upd_proc x (λ p, p <| waiting_for_execstat := false |>) st in
  let! '(st, r) := os_result st in
  let fd := status_fd (proc_of st x) in
  let! st := upd_proc x (λ p, p <| status_fd := -1 |>) st in
  let! st := close fd st in
  if 0 <? r then
    let! '(st, stage) := os_result st in
    let! '(st, errno) := os_result st in
    let! st :=
      when (negb (pid (proc_of st x) =? -1))
        (λ st, cancel_stopstart_timer x
           (upd_proc x (λ p, p <| reserved_child_watch := false |>) st)) st in
    let! st := upd_proc x (λ p, p <| pid := -1 |>) st in
    let! st := upd_proc x (λ p, p <| exec_err_info := Run_proc_err stage errno |>) st in
    pq (exec_failed x st)
  else
    let! st := exec_succeeded x st in
    pq (when (pid (proc_of st x) =? -1) (handle_exit_status x) st).

(** [service_child_watcher::status_change] *)
Definition status_change x (status : proc_status_t) st : psys :=
  let! st := upd_proc x (λ p, p <| pid := -1 |>) st in
  let! st := upd_proc x (λ p, p <| exit_status := status |>) st in
  if waiting_for_execstat (proc_of st x) then st
  else handle_exit_status x (cancel_stopstart_timer x st).

(** *** The stop command *)

Definition handle_stop_exit x st : psys :=
  let! st :=
    when (negb (did_exit_clean (stop_status (proc_of st x)))) (log_misc x) st in
  when ((pid (proc_of st x) =? -1) || negb (tracking_child (proc_of st x)))
    (λ st, h_stopped x (upd_proc x (λ p, p <| stop_issued := false |>) st)) st.

(** [stop_status_pipe_watcher::fd_event] *)
Definition stop_status_event x st : psys :=
  let! st := upd_proc x (λ p, p <| waiting_for_execstat := false |>) st in
  let! '(st, r) := os_result st in
  let fd := stop_status_fd (proc_of st x) in
  let! st := upd_proc x (λ p, p <| stop_status_fd := -1 |>) st in
  let! st := close fd st in
  let! st :=
    if 0 <? r then
      when (negb (stop_pid (proc_of st x) =? -1))
        (λ st,
          let! st := upd_proc x (λ p, p <| reserved_child_watch := false |>) (log_misc x st) in
          let! st := upd_proc x (λ p, p <| stop_pid := -1 |>) st in
          when (negb (pid (proc_of st x) =? -1))
            (λ st,
              let! st :=
                when (negb (term_signal (proc_of st x) =? 0))
                  (kill_pg x (term_signal (proc_of st x))) st in
              when (negb (tracking_child (proc_of st x)))
                (λ st, h_stopped x (upd_proc x (λ p, p <| stop_issued := false |>) st)) st)
            st) st
    else when (stop_pid (proc_of st x) =? -1) (handle_stop_exit x) st in
  pq st.

(** [stop_child_watcher::status_change] *)
Definition stop_status_change x (status : proc_status_t) st : psys :=
  let! st := upd_proc x (λ p, p <| stop_pid := -1 |>) st in
  let! st := upd_proc x (λ p, p <| stop_status := status |>) st in
  if waiting_for_execstat (proc_of st x) then st else pq (handle_stop_exit x st).

(** *** Readiness, timer and output *)

(** [ready_notify_watcher::fd_event] on the descriptor [fd]. *)
Definition ready_event x (fd : Z) st : psys * rearm :=
  if bool_decide (get_state st x = service_state_t.STARTING) then
    let! '(st, r) := os_result st in
    let! st :=
      if 0 <? r then h_started x (cancel_stopstart_timer x st)
      else
        let! '(st, errno) := if r =? 0 then (st, 0) else os_result st in
        when ((r =? 0) || negb (errno =? EAGAIN))
          (λ st,
            let! st := cancel_stopstart_timer x st in
            let! st := set_state x service_state_t.STOPPING st in
            let! st := h_failed x false st in
            bring_down pull x st) st in
    (pq st, REARM)
  else
    let! '(st, r) := os_result st in
    if r =? 0 then
      (upd_proc x (λ p, p <| notification_fd := -1 |>) (close fd st), DISARM)
    else (st, REARM).

(** [timer_expired] *)
Definition timer_expired x st : psys :=
  let! st := upd_proc x (λ p, p <| waiting_stopstart_timer := false |> <| timer := None |>) st in
  if bool_decide (get_state st x = service_state_t.STOPPING) then kill_with_fire x st
  else if negb (pid (proc_of st x) =? -1) then
    let! st := log_misc x st in
    let! '(st, _) := interrupt_start x st in
    let! st := set_stop_reason x stopped_reason_t.TIMEDOUT st in
    h_failed x false st
  else do_restart pull pq x st.

(** [log_output_watcher::fd_event].  What the read returns is taken from the
    environment first, and dropped if the handler does not read. *)
Definition log_output_event x (fd : Z) st : psys * rearm :=
  let! '(st, memory) := os_ok st in
  let! '(st, input) := os_read (Z.max 1024 (log_buf_max (lbuf (proc_of st x)))) st in
  let limited (k : Z) :=
    match input with Read bytes => Read (take (Z.to_nat k) bytes) | r => r end in
  let '(b, action) := log_fd_event memory limited (lbuf (proc_of st x)) in
  let! st := upd_proc x (λ p, p <| lbuf := b |>) st in
  match action with
  | REMOVED =>
      let! st := deregister_log x st in
      let! st := close fd st in
      let! st := close (log_output_fd (proc_of st x)) st in
      (upd_proc x (λ p, p <| log_input_fd := -1 |> <| log_output_fd := -1 |>) st, REMOVED)
  | a => (st, a)
  end.

(** [triggered_service::set_trigger] *)
Definition set_trigger x (new_trigger : bool) st : psys :=
  let! st :=
    upd_ext (λ e, e <| is_triggered ::= (λ s,
      if new_trigger then {[x]} ∪ s else s ∖ {[x]}) |>) st in
  when (bool_decide (x ∈ is_triggered (ext st))
        && bool_decide (get_state st x = service_state_t.STARTING)
        && negb (waiting_for_deps (svc st x)))
    (h_started x) st.
End handlers.

(** ** Setters *)

Definition set_logfile_details x (name : string) st : psys :=
  upd_proc x (λ p, p <| logfile := name |>) st.
Definition set_log_buf_max x (max_size : Z) st : psys :=
  upd_proc x (λ p, p <| lbuf ::= LogBuffer.set_log_buf_max max_size |>) st.
Definition clear_log_buffer x st : psys :=
  upd_proc x (λ p, p <| lbuf ::= LogBuffer.clear_log_buffer |>) st.
Definition set_output_pipe_fds x (fds : Z * Z) st : psys :=
  upd_proc x (λ p, p <| log_input_fd := fds.1 |> <| log_output_fd := fds.2 |>) st.
Definition set_stop_command x (command : string) (parts : list string) st : psys :=
  upd_proc x (λ p, p <| stop_command := command |> <| stop_arg_parts := parts |>) st.
Definition set_restart_interval x (interval : time_val) (max_restarts : Z) st : psys :=
  upd_proc x (λ p, p <| restart_interval := interval |>
                     <| max_restart_interval_count := max_restarts |>) st.
Definition set_restart_delay x (delay : time_val) st : psys :=
  upd_proc x (λ p, p <| restart_delay := delay |>) st.
Definition set_stop_timeout x (timeout : time_val) st : psys :=
  upd_proc x (λ p, p <| stop_timeout := timeout |>) st.
Definition set_start_timeout x (timeout : time_val) st : psys :=
  upd_proc x (λ p, p <| start_timeout := timeout |>) st.
Definition set_extra_termination_signal x (signo : Z) st : psys :=
  upd_proc x (λ p, p <| term_signal := signo |>) st.
Definition set_notification_fd x (fd : Z) st : psys :=
  upd_proc x (λ p, p <| force_notification_fd := fd |>) st.
Definition set_notification_var x (name : string) st : psys :=
  upd_proc x (λ p, p <| notification_var := name |>) st.
Definition set_consumer_for x (consumed : option sid) st : psys :=
  upd_proc x (λ p, p <| consumer_for := consumed |>) st.
Definition set_pid_file x (file : string) st : psys :=
  upd_proc x (λ p, p <| pid_file := file |>) st.
