(* ===== verification/ProcessLaws.v ===== *)
(** * Process services keep the interfaces

    The operations of the process classes act on the service set only through
    the operations of the base class, so that every predicate that those keep is
    kept by launching, bringing up, bringing down, and every event. *)

From S2P Require Import Prelude ServiceData Service TimeVal ServiceInv ServiceInvOps ServiceGraph ServiceFuel ServiceReach ServiceStop Process ProcessRun ProcessEvents.
From S2P Require LogBuffer.

Implicit Types (st : psys) (x y : sid) (d : did) (pull pq : psys → psys).

Create HintDb proc discriminated.
#[export] Hint Constants Opaque : proc.
Ltac psolve := repeat first [sassumption | gstep | solve [eauto 8 with proc nocore]].

(** ** What only changes the extension state and the trace *)

Section env.
Context (P : psys → Prop) (HP : ext_closed P).

Lemma env_ext f st : P st → P (upd_ext f st).
Proof. intros H. specialize (HP st (trace st) (f (ext st)) H). by destruct st. Qed.
Lemma env_emit a st : P st → P (emit a st).
Proof. intros H. specialize (HP st (a :: trace st) (ext st) H). by destruct st. Qed.
#[local] Hint Resolve env_ext env_emit : proc.

Lemma env_proc x f st : P st → P (upd_proc x f st).
Proof. apply env_ext. Qed.
Lemma env_os_result st : P st → P (os_result st).1.
Proof. intros H. unfold os_result. psolve. Qed.
#[local] Hint Resolve env_proc env_os_result : proc.
Lemma env_os_ok st : P st → P (os_ok st).1.
Proof. intros H. unfold os_ok. psolve. Qed.
Lemma env_open_fd st : P st → P (open_fd st).1.
Proof. intros H. unfold open_fd. psolve. Qed.
Lemma env_close fd st : P st → P (close fd st).
Proof. intros H. unfold close. psolve. Qed.
#[local] Hint Resolve env_os_ok env_open_fd env_close : proc.
Lemma env_new_fd st : P st → P (new_fd st).1.
Proof. intros H. unfold new_fd. psolve. Qed.
Lemma env_two_fds st : P st → P (two_fds st).1.
Proof. intros H. unfold two_fds. psolve. Qed.
Lemma env_log_misc x st : P st → P (log_misc x st).
Proof. apply env_emit. Qed.
Lemma env_arm_timer x t st : P st → P (arm_timer x t st).
Proof. intros H. unfold arm_timer. psolve. Qed.
Lemma env_stop_timer x st : P st → P (stop_timer x st).
Proof. intros H. unfold stop_timer. psolve. Qed.
#[local] Hint Resolve env_new_fd env_two_fds env_log_misc env_arm_timer env_stop_timer : proc.
Lemma env_cancel x st : P st → P (cancel_stopstart_timer x st).
Proof. intros H. unfold cancel_stopstart_timer. psolve. Qed.
Lemma env_arm_stopstart x t st : P st → P (arm_stopstart_timer x t st).
Proof. intros H. unfold arm_stopstart_timer. psolve. Qed.
Lemma env_kill_pg x s st : P st → P (kill_pg x s st).
Proof. intros H. unfold kill_pg. psolve. Qed.
#[local] Hint Resolve env_cancel env_arm_stopstart env_kill_pg : proc.
Lemma env_kill_with_fire x st : P st → P (kill_with_fire x st).
Proof. intros H. unfold kill_with_fire, process_kill_with_fire, base_kill_with_fire. psolve. Qed.

Lemma env_get_output_pipe_fd x st : P st → P (get_output_pipe_fd x st).1.
Proof. intros H. unfold get_output_pipe_fd. psolve. Qed.
#[local] Hint Resolve env_get_output_pipe_fd : proc.
Lemma env_get_input_fd x st : P st → P (get_input_fd x st).1.
Proof. intros H. unfold get_input_fd. psolve. Qed.
Lemma env_deregister_log x st : P st → P (deregister_log x st).
Proof. intros H. unfold deregister_log. psolve. Qed.
Lemma env_out_p pipefd st : P st → P (out_p pipefd st).1.
Proof. intros H. unfold out_p. psolve. Qed.
#[local] Hint Resolve env_get_input_fd env_deregister_log env_out_p : proc.
Lemma env_out_lfd x pipefd st : P st → P (out_lfd x pipefd st).1.
Proof. intros H. unfold out_lfd. psolve. Qed.
#[local] Hint Resolve env_out_lfd : proc.
Lemma env_out_cs x pipefd cs st : P st → P (out_cs x pipefd cs st).1.
Proof. intros H. unfold out_cs. psolve. Qed.
Lemma env_close_if_open fd st : P st → P (close_if_open fd st).
Proof. intros H. unfold close_if_open. psolve. Qed.
#[local] Hint Resolve env_out_cs env_close_if_open : proc.
Lemma env_out_cs_h x pipefd cs np b b' st : P st → P (out_cs_h x pipefd cs np b b' st).1.
Proof. intros H. unfold out_cs_h. psolve. Qed.
#[local] Hint Resolve env_out_cs_h : proc.
Lemma env_fork_process x pipefd cs np b st : P st → P (fork_process x pipefd cs np b st).1.
Proof. intros H. unfold fork_process. psolve. Qed.
Lemma env_enable_log_watch x st : P st → P (enable_log_watch x st).
Proof. intros H. unfold enable_log_watch. psolve. Qed.
#[local] Hint Resolve env_fork_process env_enable_log_watch : proc.
Lemma env_open_notify x pipefd cs st : P st → P (open_notify x pipefd cs st).1.
Proof. intros H. unfold open_notify. psolve. Qed.
#[local] Hint Resolve env_open_notify : proc.
Lemma env_open_control x pipefd st : P st → P (open_control x pipefd st).1.
Proof. intros H. unfold open_control. psolve. Qed.
Lemma env_open_log_pipe x st : P st → P (open_log_pipe x st).1.
Proof. intros H. unfold open_log_pipe. psolve. Qed.
#[local] Hint Resolve env_open_control env_open_log_pipe : proc.
Lemma env_start_ps_process x cmd b st : P st → P (start_ps_process x cmd b st).1.
Proof. intros H. unfold start_ps_process. psolve. Qed.
Lemma env_start_stop_process x cmd st : P st → P (start_stop_process x cmd st).1.
Proof. intros H. unfold start_stop_process. psolve. Qed.
Lemma env_set_up_socket x fd k st : P st → P (set_up_socket x fd k st).1.
Proof. revert st. induction k as [|k IH]; intros st H; simpl; psolve. Qed.
#[local] Hint Resolve env_set_up_socket : proc.
Lemma env_open_socket x st : P st → P (open_socket x st).1.
Proof. intros H. unfold open_socket. psolve. Qed.
Lemma env_os_results k st : P st → P (os_results k st).1.
Proof. revert st. induction k as [|k IH]; intros st H; simpl; psolve. Qed.
#[local] Hint Resolve env_os_results : proc.
Lemma env_os_read k st : P st → P (os_read k st).1.
Proof. intros H. unfold os_read. psolve. Qed.
Lemma env_read_pid_file x st : P st → P (read_pid_file x st).1.
Proof. intros H. unfold read_pid_file. psolve. Qed.
Lemma env_log_exit x s st : P st → P (log_exit x s st).
Proof. intros H. unfold log_exit. psolve. Qed.
Lemma env_close_notification x st : P st → P (close_notification x st).
Proof. intros H. unfold close_notification. psolve. Qed.
End env.

(** One step that only changes the extension state and the trace, for a
    predicate [P] with [ext_closed P] among the hypotheses. *)
Ltac env_step :=
  match goal with
  | HP : ext_closed ?P |- ?P ?s =>
      lazymatch s with
      | upd_ext _ _ => apply (env_ext P HP)
      | emit _ _ => apply (env_emit P HP)
      | upd_proc _ _ _ => apply (env_proc P HP)
      | log_misc _ _ => apply (env_log_misc P HP)
      | arm_timer _ _ _ => apply (env_arm_timer P HP)
      | stop_timer _ _ => apply (env_stop_timer P HP)
      | cancel_stopstart_timer _ _ => apply (env_cancel P HP)
      | arm_stopstart_timer _ _ _ => apply (env_arm_stopstart P HP)
      | kill_pg _ _ _ => apply (env_kill_pg P HP)
      | kill_with_fire _ _ => apply (env_kill_with_fire P HP)
      | close _ _ => apply (env_close P HP)
      | deregister_log _ _ => apply (env_deregister_log P HP)
      | log_exit _ _ _ => apply (env_log_exit P HP)
      | close_notification _ _ => apply (env_close_notification P HP)
      | fst (os_result _) => apply (env_os_result P HP)
      | fst (os_ok _) => apply (env_os_ok P HP)
      | fst (os_read _ _) => apply (env_os_read P HP)
      | fst (two_fds _) => apply (env_two_fds P HP)
      | fst (start_ps_process _ _ _ _) => apply (env_start_ps_process P HP)
      | fst (start_stop_process _ _ _) => apply (env_start_stop_process P HP)
      | fst (open_socket _ _) => apply (env_open_socket P HP)
      | fst (read_pid_file _ _) => apply (env_read_pid_file P HP)
      end
  end.
Ltac esolve := repeat first [sassumption | env_step | gstep | solve [eauto 4 with proc nocore]].

(** ** The virtual methods *)

Section leaf.
Context (x : sid) (st0 : psys).

Lemma leaf_refl : leaf_step x st0 st0.
Proof. split; try done. by destruct (svc st0 x). Qed.
Lemma leaf_ext : ext_closed (leaf_step x st0).
Proof. by intros st tr e []. Qed.
Lemma leaf_state st s : leaf_step x st0 st → leaf_step x st0 (set_state x s st).
Proof.
  intros [Ho Hs ? ? ? ? ? ? ? ?]. split; try done.
  - intros y Hy. unfold set_state. rewrite svc_upd_ne by done. auto.
  - unfold set_state. rewrite !svc_upd_eq. rsimpl. by rewrite Hs.
Qed.
Lemma leaf_target st s : leaf_step x st0 st → leaf_step x st0 (set_target_state x s st).
Proof.
  intros [Ho Hs ? ? ? ? ? ? ? ?]. split; try done.
  - intros y Hy. unfold set_target_state. rewrite svc_upd_ne by done. auto.
  - unfold set_target_state. rewrite !svc_upd_eq. rsimpl. by rewrite Hs.
Qed.
#[local] Hint Resolve leaf_refl leaf_state leaf_target : proc.

Lemma leaf_base_interrupt : leaf_step x st0 (base_process_interrupt_start x st0).1.
Proof.
  pose proof leaf_ext as HP. pose proof leaf_refl.
  unfold base_process_interrupt_start, base_interrupt_start. esolve.
Qed.
Lemma leaf_interrupt_start : leaf_step x st0 (proc_interrupt_start x st0).1.
Proof.
  pose proof leaf_ext as HP. pose proof leaf_base_interrupt. pose proof leaf_refl.
  unfold proc_interrupt_start, base_interrupt_start. esolve.
Qed.
Lemma leaf_becoming_inactive : leaf_step x st0 (proc_becoming_inactive x st0).
Proof.
  pose proof leaf_ext as HP. pose proof leaf_refl. unfold proc_becoming_inactive. esolve.
Qed.
Lemma leaf_process_check_restart : leaf_step x st0 (process_check_restart x st0).1.
Proof.
  pose proof leaf_ext as HP. pose proof leaf_refl. unfold process_check_restart. esolve.
  by apply leaf_target, env_emit.
Qed.
Lemma leaf_check_restart : leaf_step x st0 (proc_check_restart x st0).1.
Proof.
  pose proof leaf_process_check_restart. pose proof leaf_refl.
  unfold proc_check_restart. by destruct (is_process st0 x).
Qed.
End leaf.

Lemma proc_log_closed (P : psys → Prop) pull enable st :
  ext_closed P → (enable = false → ∀ s, P s → P (pull s)) → P st →
  P (proc_enable_console_log pull enable st).
Proof.
  intros HP Hpull H. unfold proc_enable_console_log. gstep; [esolve|].
  destruct enable; [esolve|]. gstep; [|done]. apply Hpull; [done|]. esolve.
Qed.

#[export] Instance proc_virtual_laws : ServiceVirtualLaws proc_ext.
Proof.
  split; intros; try done.
  - apply leaf_interrupt_start.
  - apply leaf_becoming_inactive.
  - apply leaf_check_restart.
  - by apply (proc_log_closed P pull true).
  - by apply (proc_log_closed P pull false).
Qed.

(** ** Bringing up and down *)

(** A statement of [P] states before one of [Q] states. *)
Ltac pstep P Q :=
  cbv zeta;
  lazymatch goal with
  | |- Q (seq ?a ?f) =>
      lazymatch type of a with
      | prod _ _ => apply (seq_pair_inv P Q a f); [|intros ? ? ?; cbv beta]
      | _ => apply (seq_inv P Q a f); [|intros ? ?; cbv beta]
      end
  end.

Section bring.
Context (P Q : psys → Prop) (pull pq : psys → psys) (HC : core_closed P Q pull pq).

Let HP : ext_closed P := cs_ext _ (cc_before _ _ _ _ HC).
Let HQ : ext_closed Q := cs_ext _ (cc_after _ _ _ _ HC).
Let sub := cc_sub _ _ _ _ HC.
Let c_pq := cc_pq _ _ _ _ HC.
Let c_started := cc_started _ _ _ _ HC.
Let c_stopped := cc_stopped _ _ _ _ HC.
Let c_failed := cc_failed _ _ _ _ HC.
Let q_unrecoverable := cs_unrecoverable _ (cc_after _ _ _ _ HC).

Lemma closed_do_restart x st : P st → Q (do_restart pull pq x st).
Proof.
  intros H. unfold do_restart. pstep P Q; [esolve|]. pstep P Q; [esolve|].
  destruct (negb _); [|by apply (env_arm_stopstart Q HQ), sub].
  destruct (bool_decide _); apply c_pq; auto.
Qed.
Lemma closed_restart_ps_process x st : P st → Q (restart_ps_process pull pq x st).
Proof.
  intros H. unfold restart_ps_process. cbv zeta.
  destruct (tv_leb _ _); [by apply closed_do_restart|]. apply sub. esolve.
Qed.

Lemma closed_base_bring_up x st :
  P st →
  Q (base_process_bring_up pull pq x st).1
  ∧ ((base_process_bring_up pull pq x st).2 = false → P (base_process_bring_up pull pq x st).1).
Proof.
  intros H. unfold base_process_bring_up.
  pose proof (env_open_socket P HP x st H) as H1.
  destruct (open_socket x st) as [s []]; simpl in H1; cbn [seq negb];
    [|split; [by apply sub|done]].
  destruct (in_auto_restart _); [split; [by apply closed_restart_ps_process|done]|].
  match goal with |- Q (?r).1 ∧ _ => assert (P r.1) end; [|split; auto].
  esolve.
Qed.

Lemma closed_await_stop x st : P st → P (await_stop x st).
Proof. intros H. unfold await_stop. esolve. Qed.
Lemma closed_after_signal x st : P st → Q (after_signal pull x st).
Proof.
  intros H. unfold after_signal. destruct (_ && _); [by apply c_stopped|].
  by apply sub, closed_await_stop.
Qed.
Lemma closed_process_bring_down x st : P st → Q (process_bring_down pull x st).
Proof.
  intros H. unfold process_bring_down. cbv zeta.
  destruct (_ || _); [by apply sub|]. destruct (waiting_for_execstat _); [by apply sub|].
  destruct (negb (pid _ =? _)).
  - destruct (_ && _).
    + pstep P Q; [esolve|]. destruct c; [by apply sub, closed_await_stop|].
      pstep P Q; [esolve|]. by apply closed_after_signal.
    + pstep P Q; [esolve|]. by apply closed_after_signal.
  - pstep P Q; [esolve|]. pstep P Q; [esolve|]. by apply c_stopped.
Qed.
Lemma closed_scripted_bring_down x st : P st → Q (scripted_bring_down pull x st).
Proof.
  intros H. unfold scripted_bring_down. cbv zeta.
  destruct (negb (pid _ =? _)); [by apply sub|].
  destruct (String.eqb _ _); [by apply c_stopped|].
  pstep P Q; [esolve|]. destruct (negb _); [by apply c_stopped|]. apply sub. esolve.
Qed.
End bring.

#[export] Instance proc_bring_laws : ServiceBringLaws proc_ext.
Proof.
  split; intros P Q pull pq x st HC H; simpl.
  - destruct (is_base_process _ _); [by apply closed_base_bring_up|].
    destruct (is_trigger _ _); simpl; (split; [|done]).
    + unfold when. destruct (bool_decide _); [by apply (cc_started _ _ _ _ HC)|].
      by apply (cc_sub _ _ _ _ HC).
    + by apply (cc_started _ _ _ _ HC).
  - destruct (is_process _ _); [by eapply closed_process_bring_down|].
    destruct (is_scripted _ _); [by eapply closed_scripted_bring_down|].
    by apply (cc_stopped _ _ _ _ HC).
Qed.

(** ** States *)

Definition same_state st0 y st : Prop :=
  service_state (svc st y) = service_state (svc st0 y).

Lemma same_state_ext st0 y : ext_closed (same_state st0 y).
Proof. by intros st tr e. Qed.

Lemma base_interrupt_states x st y :
  same_state st y (base_process_interrupt_start x st).1
  ∨ (y = x ∧ service_state (svc (base_process_interrupt_start x st).1 y)
             = service_state_t.STOPPING).
Proof.
  pose proof (same_state_ext st y) as HP. assert (same_state st y st) as H by reflexivity.
  unfold base_process_interrupt_start, base_interrupt_start.
  destruct (waiting_restart_timer _); [left; esolve|].
  destruct (decide (y = x)) as [->|Hne].
  - right. split; [reflexivity|]. unfold seq, set_state. cbn [fst]. rewrite svc_upd_eq. by rsimpl.
  - left. gstep; [esolve|]. gstep; [esolve|]. gstep.
    unfold same_state, set_state. rewrite svc_upd_ne by exact Hne. assumption.
Qed.

Lemma proc_interrupt_states x st y :
  same_state st y (proc_interrupt_start x st).1
  ∨ (y = x ∧ service_state (svc (proc_interrupt_start x st).1 y) = service_state_t.STOPPING).
Proof.
  pose proof (base_interrupt_states x st y) as Hb. unfold proc_interrupt_start.
  destruct (is_scripted st x); [|destruct (is_process st x); [exact Hb|by left]].
  destruct (base_process_interrupt_start x st) as [s r]. exact Hb.
Qed.

Lemma proc_check_states x st y : same_state st y (proc_check_restart x st).1.
Proof.
  pose proof (same_state_ext st y) as HP. assert (same_state st y st) as H by reflexivity.
  unfold proc_check_restart, base_check_restart. destruct (is_process st x); [|exact H].
  unfold process_check_restart. esolve.
  unfold same_state, set_target_state. rewrite svc_upd.
  destruct (decide (y = x)) as [->|]; [rsimpl|]; reflexivity.
Qed.

#[export] Instance proc_state_laws : ServiceStateLaws proc_ext.
Proof.
  split.
  - intros x st y. apply proc_interrupt_states.
  - intros x st y. apply proc_check_states.
Qed.

(** ** The handlers are derived events *)

#[local] Hint Extern 1 (core_update _) => (intros []; reflexivity) : proc.
#[local] Hint Extern 2 => env_step : proc.

Section handlers.
Context (n : nat) (P : psys → Prop).
Abbreviation pq := (process_queues (X:=proc_ext) n).
Abbreviation pull := (pull_console_queue pq).
Context (HC : core_closed P P pull pq).

Let HP : ext_closed P := cs_ext _ (cc_before _ _ _ _ HC).
Let h_upd := cs_upd _ (cc_before _ _ _ _ HC).
Let h_unrecoverable := cs_unrecoverable _ (cc_before _ _ _ _ HC).
Let h_initiate := cs_initiate _ (cc_before _ _ _ _ HC).
Let h_do_stop := cs_do_stop _ (cc_before _ _ _ _ HC).
Let h_pq := cc_pq _ _ _ _ HC.

Lemma closed_h_started x st : P st → P (h_started n x st).
Proof. apply (cc_started _ _ _ _ HC). Qed.
Lemma closed_h_stopped x st : P st → P (h_stopped n x st).
Proof. apply (cc_stopped _ _ _ _ HC). Qed.
Lemma closed_h_failed x b st : P st → P (h_failed n x b st).
Proof. apply (cc_failed _ _ _ _ HC). Qed.
Lemma closed_bring_down x st : P st → P (bring_down pull x st).
Proof. by apply (bring_down_closed P P _ pq). Qed.
Lemma closed_set_state x s st : P st → P (set_state x s st).
Proof. apply h_upd. auto with proc. Qed.
Lemma closed_set_stop_reason x s st : P st → P (set_stop_reason x s st).
Proof. apply h_upd. auto with proc. Qed.
Lemma closed_set_target_state x s st : P st → P (set_target_state x s st).
Proof. apply h_upd. auto with proc. Qed.
#[local] Hint Resolve h_upd h_unrecoverable h_initiate h_do_stop h_pq closed_h_started
  closed_h_stopped closed_h_failed closed_bring_down closed_set_state closed_set_stop_reason
  closed_set_target_state : proc.

Lemma closed_process_exec_succeeded x st : P st → P (process_exec_succeeded n x st).
Proof. intros H. unfold process_exec_succeeded. esolve. Qed.
Lemma closed_exec_succeeded x st : P st → P (exec_succeeded n x st).
Proof. intros H. unfold exec_succeeded. gstep; [by apply closed_process_exec_succeeded|done]. Qed.
Lemma closed_exec_failed x st : P st → P (exec_failed n x st).
Proof.
  intros H. unfold exec_failed, process_exec_failed, bgproc_exec_failed, scripted_exec_failed.
  esolve.
Qed.
Lemma closed_unexpected x st : P st → P (handle_unexpected_termination n x st).
Proof. intros H. unfold handle_unexpected_termination. esolve. Qed.
Lemma closed_restart_if_wanted x st : P st → P (restart_if_wanted x st).
Proof. intros H. unfold restart_if_wanted. esolve. Qed.
Lemma closed_smooth x st : P st → P (do_smooth_recovery pull pq x st).
Proof. by apply closed_restart_ps_process. Qed.
Lemma closed_check_restart x st : P st → P (process_check_restart x st).1.
Proof. intros H. unfold process_check_restart. esolve. Qed.
#[local] Hint Resolve closed_exec_succeeded closed_exec_failed closed_unexpected
  closed_restart_if_wanted closed_smooth closed_check_restart : proc.

Lemma closed_process_exit x st : P st → P (process_handle_exit_status n x st).
Proof. intros H. unfold process_handle_exit_status. esolve. Qed.
Lemma closed_scripted_exit x st : P st → P (scripted_handle_exit_status n x st).
Proof.
  intros H. unfold scripted_handle_exit_status. esolve. apply closed_bring_down. esolve.
Qed.

Lemma closed_bgproc_exit_fuel k x st : P st → P (bgproc_exit_fuel n k x st).
Proof.
  revert st. induction k as [|k IH]; intros st H; cbn [bgproc_exit_fuel].
  - by apply (cs_unfinished _ (cc_before _ _ _ _ HC)).
  - unfold bgproc_exit_body. esolve; apply h_pq; esolve.
Qed.
Lemma closed_handle_exit_status x st : P st → P (handle_exit_status n x st).
Proof.
  intros H. unfold handle_exit_status, bgproc_handle_exit_status.
  destruct (record_type _); auto using closed_process_exit, closed_bgproc_exit_fuel,
    closed_scripted_exit.
Qed.
#[local] Hint Resolve closed_handle_exit_status : proc.

Lemma closed_handle_stop_exit x st : P st → P (handle_stop_exit n x st).
Proof. intros H. unfold handle_stop_exit. esolve. Qed.
#[local] Hint Resolve closed_handle_stop_exit : proc.

Lemma closed_exec_status_event x st : P st → P (exec_status_event n x st).
Proof. intros H. unfold exec_status_event. esolve; apply h_pq; esolve. Qed.
Lemma closed_status_change x status st : P st → P (status_change n x status st).
Proof. intros H. unfold status_change. esolve. Qed.
Lemma closed_stop_status_event x st : P st → P (stop_status_event n x st).
Proof. intros H. unfold stop_status_event. esolve. Qed.
Lemma closed_stop_status_change x status st : P st → P (stop_status_change n x status st).
Proof. intros H. unfold stop_status_change. esolve. Qed.
Lemma closed_ready_event x fd st : P st → P (ready_event n x fd st).1.
Proof. intros H. unfold ready_event. esolve. Qed.
Lemma closed_log_output_event x fd st : P st → P (log_output_event x fd st).1.
Proof. intros H. unfold log_output_event. esolve. Qed.
Lemma closed_set_trigger x b st : P st → P (ProcessEvents.set_trigger n x b st).
Proof. intros H. unfold ProcessEvents.set_trigger. esolve. Qed.

Lemma closed_interrupt_start x st : P st → P (proc_interrupt_start x st).1.
Proof.
  intros H. unfold proc_interrupt_start, base_interrupt_start.
  assert (P (base_process_interrupt_start x st).1) as Hb; [|esolve].
  unfold base_process_interrupt_start, base_interrupt_start. esolve.
Qed.
Lemma closed_timer_expired x st : P st → P (timer_expired n x st).
Proof.
  intros H. unfold timer_expired. gstep; [esolve|]. gstep; [esolve|]. gstep.
  - gstep; [esolve|]. gstep; [by apply closed_interrupt_start|]. gstep; esolve.
  - by apply (closed_do_restart P P).
Qed.
End handlers.

(** ** Events

    The events of process services: the handlers of the event loop, and changes
    of the extension state by itself: the clock, the results of the system calls
    to come, and the settings of a service. *)
Inductive process_event (n : nat) : psys → psys → Prop :=
| pe_exec_status x st : process_event n st (exec_status_event n x st)
| pe_status x status st : process_event n st (status_change n x status st)
| pe_stop_exec_status x st : process_event n st (stop_status_event n x st)
| pe_stop_status x status st : process_event n st (stop_status_change n x status st)
| pe_ready x fd st : process_event n st (ready_event n x fd st).1
| pe_timer x st : process_event n st (timer_expired n x st)
| pe_output x fd st : process_event n st (log_output_event x fd st).1
| pe_trigger x b st : process_event n st (ProcessEvents.set_trigger n x b st)
| pe_log_mode x ty st : process_event n st (set_log_mode x ty st)
| pe_transfer x st : process_event n st (transfer_output_pipe x st).1
| pe_environment f st : process_event n st (upd_ext f st).

Lemma process_event_derived n st st' : process_event n st st' → derived_event n st st'.
Proof.
  intros He P HC H. pose proof (cs_ext _ (cc_before _ _ _ _ HC)) as HP. destruct He.
  - by apply closed_exec_status_event.
  - by apply closed_status_change.
  - by apply closed_stop_status_event.
  - by apply closed_stop_status_change.
  - by apply closed_ready_event.
  - by apply (closed_timer_expired n).
  - by eapply closed_log_output_event.
  - by apply closed_set_trigger.
  - unfold set_log_mode. esolve.
  - unfold transfer_output_pipe. esolve.
  - by apply (env_ext P HP).
Qed.
