(* ===== verification/ServiceExamples.v ===== *)
(** * Concrete service sets

    Small sets of internal and triggered services: the witnesses that the
    hypotheses of the theorems on the state machine can hold, and sequences of
    operations that show where the code does not do what it means to do. *)

From S2P Require Import Prelude ServiceData Service Simple ServiceInv ServiceInvOps ServiceGraph ServiceFuel ServiceReach ServiceStop ServiceStart SimpleLaws.

(** Services 1 and 2, and service 2 depending on service 1. *)
Definition pair_of (ty : dependency_type) (t1 t2 : service_type_t) : simple_sys :=
  (add_dep 2 1 ty 0 (new_service 2 "y" t2 [] (new_service 1 "x" t1 [] simple_init))).1.

Abbreviation INTERNAL := service_type_t.INTERNAL.
Abbreviation TRIGGERED := service_type_t.TRIGGERED.

Definition regular_pair : simple_sys := pair_of dependency_type.REGULAR INTERNAL INTERNAL.
Definition started_pair : simple_sys := start_service 40 2 regular_pair.

(** ** Witnesses *)

Lemma fresh_service x (st : simple_sys) : svcs st !! x = None → x ∉ dom (svcs st).
Proof. apply not_elem_of_dom_2. Qed.

Lemma allocated x (st : simple_sys) :
  (if svcs st !! x is Some _ then true else false) = true → x ∈ dom (svcs st).
Proof. intros H. apply elem_of_dom. by destruct (svcs st !! x). Qed.

Lemma reachable_pair ty t1 t2 : reachable (pair_of ty t1 t2).
Proof.
  unfold pair_of, new_service, simple_init.
  eapply reachable_step; [|apply step_add_dep].
  eapply reachable_step; [|apply step_add_service].
  eapply reachable_step; [|apply step_construct; apply fresh_service; reflexivity].
  eapply reachable_step; [|apply step_add_service].
  eapply reachable_step; [apply reachable_init|].
  apply step_construct, fresh_service. reflexivity.
Qed.

Lemma reachable_starting : reachable (start 2 regular_pair).
Proof.
  assert (reachable regular_pair) as H by (unfold regular_pair; apply reachable_pair).
  exact (reachable_step _ _ H (step_start 2 regular_pair)).
Qed.

Lemma reachable_started : reachable started_pair.
Proof.
  unfold started_pair, start_service.
  exact (reachable_step _ _ reachable_starting (step_process 40 (start 2 regular_pair))).
Qed.

Lemma exact_add_service x (st : simple_sys) : exact_count st → exact_count (add_service x st).
Proof. intros (G & Hl & H). exists G. split; [done|]. by eapply inv_same. Qed.

Lemma exact_pair ty t1 t2 : exact_count (pair_of ty t1 t2).
Proof.
  unfold pair_of, new_service. apply inve_add_dep, exact_add_service.
  apply inve_construct; [apply fresh_service; reflexivity|]. apply exact_add_service.
  apply inve_construct; [apply fresh_service; reflexivity|]. apply inve_init.
Qed.

Lemma required_by_bound_witness :
  required_by (svc started_pair 1) = 1
  ∧ b2z (start_explicit (svc started_pair 1)) + held_in started_pair (dependents (svc started_pair 1))
    ≤ required_by (svc started_pair 1).
Proof. split; [reflexivity|]. apply (required_by_bound started_pair 1 reachable_started). Defined.

Lemma pending_is_queued_witness :
  prop_require (svc (start 2 regular_pair) 2) = true
  ∧ 2%nat ∈ prop_queue (start 2 regular_pair).
Proof.
  split; [reflexivity|].
  apply (pending_is_queued (start 2 regular_pair) 2 F_require reachable_starting). reflexivity.
Defined.

Lemma graph_well_formed_witness :
  depends_on (svc started_pair 2) = [0%nat]
  ∧ (∀ d, d ∈ depends_on (svc started_pair 2) →
       d ∈ dom (deps started_pair) ∧ dep_from (dep started_pair d) = 2%nat
       ∧ d ∈ dependents (svc started_pair (dep_to (dep started_pair d)))).
Proof. split; [reflexivity|]. apply (graph_well_formed started_pair 2 reachable_started). Defined.

Lemma recursion_terminates_witness : fault started_pair = false.
Proof. apply (recursion_terminates started_pair reachable_started). Defined.

Lemma operations_exact_witness :
  required_by (svc (start 2 regular_pair) 2) = 1
  ∧ ∀ x, b2z (start_explicit (svc (start 2 regular_pair) x))
       + held_in (start 2 regular_pair) (dependents (svc (start 2 regular_pair) x))
       = required_by (svc (start 2 regular_pair) x).
Proof.
  split; [by vm_compute|].
  apply (operations_exact regular_pair (start 2 regular_pair)); [apply exact_pair|].
  left. exists 2%nat, false. by left.
Defined.

Lemma exact_starting : exact_count (start 2 regular_pair).
Proof.
  assert (exact_count regular_pair) as H by apply exact_pair.
  refine (inve_lift true no_credit none_exempt (start 2) regular_pair _ H).
  intros G _ HG. by apply inv_start.
Qed.

Lemma require_propagation_exact_witness :
  required_by (svc (propagate_require 2 (start 2 regular_pair)) 1) = 1
  ∧ ∀ y, b2z (start_explicit (svc (propagate_require 2 (start 2 regular_pair)) y))
       + held_in (propagate_require 2 (start 2 regular_pair))
           (dependents (svc (propagate_require 2 (start 2 regular_pair)) y))
       = required_by (svc (propagate_require 2 (start 2 regular_pair)) y).
Proof.
  split; [reflexivity|].
  apply (require_propagation_exact (start 2 regular_pair) 2 exact_starting).
  change (depends_on (svc (start 2 regular_pair) 2)) with [0%nat].
  intros d ->%list_elem_of_singleton. reflexivity.
Defined.

Lemma stop_transitions_witness :
  service_state (svc started_pair 2) = service_state_t.STARTED
  ∧ service_state (svc (stop 2 true started_pair) 2) = service_state_t.STOPPING
  ∧ is_start_pinned (svc (stop 2 true started_pair) 2) = is_start_pinned (svc started_pair 2).
Proof.
  split; [reflexivity|]. split; [reflexivity|].
  apply (stop_transitions started_pair (stop 2 true started_pair) 2).
  exists 2%nat, true. right. by left.
Defined.

Lemma do_stop_stops_witness :
  service_state (svc (do_stop 1 false started_pair) 1) = service_state_t.STOPPING.
Proof. apply (do_stop_stops started_pair 1 false); reflexivity. Defined.

Lemma initiate_start_order_witness :
  service_state (svc (initiate_start 2 regular_pair) 2) = service_state_t.STARTING
  ∧ stop_queue (initiate_start 2 regular_pair) = stop_queue regular_pair.
Proof.
  destruct (initiate_start_order (λ st, st) 2 regular_pair) as (H1 & _ & H2).
  - change (depends_on (svc regular_pair 2)) with [0%nat].
    intros d ->%list_elem_of_singleton. discriminate.
  - split; [exact H1|].
    assert (existsb (must_wait regular_pair) (depends_on (svc regular_pair 2)) = true) as Hb
      by (vm_compute; reflexivity).
    rewrite Hb in H2. exact (proj1 H2).
Defined.

(** Service 2 waits for service 1, which is being brought up. *)
Definition waiting_pair : simple_sys :=
  start_service 40 2 (pair_of dependency_type.REGULAR TRIGGERED INTERNAL).

Lemma started_wakes_dependents_witness :
  waiting_on (dep waiting_pair 0) = true
  ∧ waiting_on (dep (started (λ st, st) 1 waiting_pair) 0) = false
  ∧ 2%nat ∈ stop_queue (started (λ st, st) 1 waiting_pair).
Proof.
  assert (dependents (svc waiting_pair 1) = [0%nat]) as Hd by (vm_compute; reflexivity).
  assert (dep_from (dep waiting_pair 0) = 2%nat) as Hf by (vm_compute; reflexivity).
  assert (waiting_on (dep waiting_pair 0) = true) as Hw by (vm_compute; reflexivity).
  assert (awaits_deps waiting_pair 2 = true) as Ha by (vm_compute; reflexivity).
  destruct (started_wakes_dependents (λ st, st) 1 waiting_pair) as [_ H];
    [vm_compute; discriminate|vm_compute; reflexivity|vm_compute; discriminate|].
  rewrite Hd in H. destruct (H 0%nat (list_elem_of_here _ _)) as [H1 H2].
  rewrite Hf in H2. exact (conj Hw (conj H1 (H2 Hw ltac:(discriminate) Ha))).
Defined.

(** An idle internal service. *)
Definition idle_set : simple_sys := new_service 1 "x" INTERNAL [] simple_init.
Lemma idle_set_idle : idle_internal (svc idle_set 1).
Proof. split; [split|..]; vm_compute; reflexivity. Qed.
Definition up_set : simple_sys := start_service 2 1 idle_set.
Lemma up_set_up : up_internal (svc up_set 1).
Proof. split; [split|..]; vm_compute; reflexivity. Qed.

Lemma start_service_internal_witness :
  up_internal (svc (start_service 2 1 idle_set) 1)
  ∧ only_changes 1 1 idle_set (start_service 2 1 idle_set).
Proof.
  apply (start_service_internal 0 1 idle_set); [|repeat split; vm_compute; reflexivity|exact idle_set_idle].
  apply allocated. vm_compute. reflexivity.
Defined.

Lemma stop_service_internal_witness :
  idle_internal (svc (stop_service 2 1 up_set) 1)
  ∧ only_changes 1 (-1) up_set (stop_service 2 1 up_set).
Proof.
  apply (stop_service_internal 0 1 up_set); [|repeat split; vm_compute; reflexivity|exact up_set_up].
  apply allocated. vm_compute. reflexivity.
Defined.

(** ** Where the code does not do what it means to do *)

Definition soft_pair : simple_sys := pair_of dependency_type.SOFT INTERNAL INTERNAL.
Definition double_start : simple_sys := process_queues 40 (start 1 (start 2 soft_pair)).

(** The counter [required_by] can exceed what [service.h] documents.  Service
    2 depends softly on service 1; both are started before the queues are
    processed.  Then [do_start] of service 1 takes an acquisition for the link,
    since its dependent is starting, and the propagation for service 2 takes
    another one for the same link: with one explicit activation and one dependent
    the counter is 3, and after both services have been stopped service 1 is
    still required and STARTED. *)
Theorem double_acquisition :
  required_by (svc double_start 1) = 3
  ∧ start_explicit (svc double_start 1) = true
  ∧ held_in double_start (dependents (svc double_start 1)) = 1
  ∧ (let st := stop_service 40 2 (process_queues 40 (stop 1 false double_start)) in
     service_state (svc st 2) = service_state_t.STOPPED
     ∧ service_state (svc st 1) = service_state_t.STARTED
     ∧ required_by (svc st 1) = 1 ∧ held_in st (dependents (svc st 1)) = 0).
Proof. vm_compute. split_and!; reflexivity. Qed.

(** A service that is stopped before its activation has been propagated
    leaves its dependency running.  [stop] sees that [prop_require] is pending,
    does not set [prop_release], and does not clear [prop_require] either, where
    [release] does: the propagation then acquires the dependency for a service
    that is already stopped. *)
Theorem stop_keeps_require :
  let st := stop_service 40 2 (start 2 regular_pair) in
  service_state (svc st 2) = service_state_t.STOPPED
  ∧ prop_queue st = [] ∧ stop_queue st = [] ∧ unfinished st = false
  ∧ start_explicit (svc st 1) = false
  ∧ service_state (svc st 1) = service_state_t.STARTED
  ∧ required_by (svc st 1) = 1.
Proof. vm_compute. split_and!; reflexivity. Qed.

(** The count of active services can stay positive when every service is
    stopped: a service that is restarted and pinned stopped meanwhile is counted
    as inactive neither when it stops, since it is to be restarted, nor when its
    start fails because of the pin. *)
Theorem active_count_leaks :
  let st := process_queues 40 (pin_stop 1 (restart 1 (start_service 40 1 idle_set)).1) in
  service_state (svc st 1) = service_state_t.STOPPED
  ∧ prop_queue st = [] ∧ stop_queue st = [] ∧ unfinished st = false
  ∧ active_services st = 1.
Proof. vm_compute. split_and!; reflexivity. Qed.
