(* ===== verification/ProcessLaunch.v ===== *)
(** * What launching a process does with descriptors

    [start_ps_process] opens up to four pairs of descriptors and has five failure
    exits.  The lemmas follow, for each part of it, what a service's fields, the
    open descriptors and the erroneous calls become ([view]); the theorems state
    that a launch that fails leaves no descriptor behind and that one that
    succeeds leaves open exactly those that the service records. *)

From S2P Require Import Prelude ServiceData Service TimeVal ServiceInv ServiceInvOps ServiceFuel ServiceReach Process ProcessRun ProcessEvents ProcessLaws.
From S2P Require LogBuffer.

Implicit Types (st : psys) (x y : sid).

(** A close of a descriptor that is not open, or a deregistration of a watcher
    that is not registered. *)
Definition is_bad (a : action) : bool :=
  match a with Bad_close _ | Bad_deregister _ => true | _ => false end.

(** What the parts of [start_ps_process] read and change. *)
Record view := View {
  v_svcs : gmap sid service_record;
  v_proc : proc;
  v_open : gset Z;
  v_next : Z;
  v_bad : bool
}.
#[export] Instance eta_view : Eta view := λ v,
  View (v_svcs v) (v_proc v) (v_open v) (v_next v) (v_bad v).
Definition view_of x st : view :=
  View (svcs st) (proc_of st x) (open_fds (ext st)) (next_fd (ext st)) (existsb is_bad (trace st)).
Implicit Types (v : view).

Definition vopen v : view := v <| v_open ::= (λ s, {[v_next v]} ∪ s) |> <| v_next ::= (λ n, n + 1) |>.
Definition vclose (fd : Z) v : view :=
  if bool_decide (fd ∈ v_open v) then v <| v_open ::= (λ s, s ∖ {[fd]}) |>
  else v <| v_bad := true |>.
Definition vproc (f : proc → proc) v : view := v <| v_proc ::= f |>.

(** The descriptors of the output pipe, if the service has one. *)
Definition log_pipe (p : proc) : list Z :=
  if log_input_fd p =? -1 then [] else [log_input_fd p; log_output_fd p].
(** The pipe is complete, and watched. *)
Definition log_pipe_ok (p : proc) : Prop :=
  (log_input_fd p = -1 ∧ log_output_fd p = -1)
  ∨ (log_type p = log_type_id.BUFFER ∧ log_watched p = true
     ∧ log_input_fd p ≠ -1 ∧ log_output_fd p ≠ -1).

(** The open descriptors are those of [l], once each, and others, [S]; they were
    allocated in increasing order; and no call was erroneous. *)
Record owns v (S : gset Z) (l : list Z) : Prop := {
  owns_open : v_open v = list_to_set l ∪ S;
  owns_once : NoDup l;
  owns_others : ∀ fd, fd ∈ l → fd ∉ S;
  owns_bound : ∀ fd, fd ∈ v_open v → 0 ≤ fd < v_next v;
  owns_next : 0 ≤ v_next v;
  owns_good : v_bad v = false
}.

(** ** The view of each call *)

Lemma proc_of_upd_proc x f st : proc_of (upd_proc x f st) x = f (proc_of st x).
Proof. unfold proc_of, upd_proc, upd_ext. rsimpl. by rewrite lookup_insert_eq. Qed.

Lemma view_upd_proc x f st : view_of x (upd_proc x f st) = vproc f (view_of x st).
Proof. unfold view_of, vproc. rewrite proc_of_upd_proc. done. Qed.
Lemma view_log_misc x st : view_of x (log_misc x st) = view_of x st.
Proof. done. Qed.
Lemma view_forked x p st : view_of x (emit (Forked x p) st) = view_of x st.
Proof. done. Qed.
Lemma view_os_result x st : view_of x (os_result st).1 = view_of x st.
Proof. unfold os_result. by destruct (os (ext st)). Qed.
Lemma view_os_ok x st : view_of x (os_ok st).1 = view_of x st.
Proof.
  unfold os_ok, seq. pose proof (view_os_result x st). by destruct (os_result st).
Qed.
Lemma view_close x fd st : view_of x (close fd st) = vclose fd (view_of x st).
Proof.
  unfold close, vclose. change (v_open (view_of x st)) with (open_fds (ext st)).
  by destruct (bool_decide _).
Qed.

Lemma two_fds_cases x st :
  (view_of x (two_fds st).1 = view_of x st ∧ (two_fds st).2 = None)
  ∨ (view_of x (two_fds st).1 = vopen (vopen (view_of x st))
     ∧ (two_fds st).2 = Some (v_next (view_of x st), v_next (view_of x st) + 1)).
Proof.
  unfold two_fds, seq. pose proof (view_os_result x st) as Hv.
  destruct (os_result st) as [st1 r]. simpl in Hv. rewrite <- Hv.
  destruct (negb (r =? 0)); [by left|]. right. split; [|done].
  reflexivity.
Qed.

(** ** The failure exits on views *)

Definition vout_p (pipefd : Z * Z) v : view := vclose pipefd.2 (vclose pipefd.1 v).
Definition vout_lfd (pipefd : Z * Z) v : view :=
  vout_p pipefd
    (if log_input_fd (v_proc v) =? -1 then v
     else
       vproc (λ p, p <| log_input_fd := -1 |> <| log_output_fd := -1 |>)
         (vclose (log_output_fd (v_proc v))
            (vclose (log_input_fd (v_proc v))
               (if log_watched (v_proc v) then vproc (λ p, p <| log_watched := false |>) v
                else v <| v_bad := true |>)))).
Definition vclose_if_open (fd : Z) v : view := if fd =? -1 then v else vclose fd v.
Definition vout_cs_h (pipefd notify_pipe : Z * Z) (registered ready : bool) v : view :=
  let v := if registered then vproc (λ p, p <| status_fd := -1 |>) v else v in
  let v := vclose_if_open notify_pipe.2 (vclose_if_open notify_pipe.1 v) in
  vout_lfd pipefd (if ready then vproc (λ p, p <| ready_watched := false |>) v else v).

Lemma v_proc_vclose fd v : v_proc (vclose fd v) = v_proc v.
Proof. unfold vclose. by destruct (bool_decide _). Qed.
Lemma v_svcs_vclose fd v : v_svcs (vclose fd v) = v_svcs v.
Proof. unfold vclose. by destruct (bool_decide _). Qed.

Lemma out_p_view x pipefd st :
  out_p pipefd st = ((out_p pipefd st).1, false)
  ∧ view_of x (out_p pipefd st).1 = vout_p pipefd (view_of x st).
Proof. split; [done|]. unfold out_p, vout_p, seq. simpl. by rewrite !view_close. Qed.

Lemma deregister_view x st :
  view_of x (deregister_log x st)
  = if log_watched (proc_of st x) then vproc (λ p, p <| log_watched := false |>) (view_of x st)
    else (view_of x st) <| v_bad := true |>.
Proof. unfold deregister_log. by destruct (log_watched _); [rewrite view_upd_proc|]. Qed.

Lemma out_lfd_view x pipefd st :
  (out_lfd x pipefd st).2 = false
  ∧ view_of x (out_lfd x pipefd st).1 = vout_lfd pipefd (view_of x st).
Proof.
  split; [done|]. unfold out_lfd, vout_lfd, seq, when.
  rewrite (proj2 (out_p_view x _ _)). f_equal.
  change (v_proc (view_of x st)) with (proc_of st x).
  destruct (log_input_fd (proc_of st x) =? -1) eqn:Hl; [done|]. simpl negb. cbv iota.
  rewrite view_upd_proc, !view_close. rewrite deregister_view.
  assert (∀ s, v_proc (view_of x s) = proc_of s x) as Hp by done.
  assert (log_input_fd (proc_of (deregister_log x st) x) = log_input_fd (proc_of st x)
    ∧ log_output_fd (proc_of (close (log_input_fd (proc_of (deregister_log x st) x))
        (deregister_log x st)) x) = log_output_fd (proc_of st x)) as [-> ->]; [|done].
  rewrite <- !Hp, view_close, v_proc_vclose, deregister_view.
  by destruct (log_watched (proc_of st x)).
Qed.

Lemma close_if_open_view x fd st :
  view_of x (close_if_open fd st) = vclose_if_open fd (view_of x st).
Proof.
  unfold close_if_open, vclose_if_open, when. destruct (fd =? -1); [done|]. apply view_close.
Qed.

Lemma out_cs_h_view x pipefd cs notify_pipe registered ready st :
  pass_cs_fd (onstart_flags (svc st x)) = false →
  (out_cs_h x pipefd cs notify_pipe registered ready st).2 = false
  ∧ view_of x (out_cs_h x pipefd cs notify_pipe registered ready st).1
    = vout_cs_h pipefd notify_pipe registered ready (view_of x st).
Proof.
  intros Hcs. unfold out_cs_h, vout_cs_h, seq.
  set (st1 := when registered _ st).
  set (st2 := close_if_open notify_pipe.2 (close_if_open notify_pipe.1 st1)).
  set (st3 := when ready _ st2).
  assert (view_of x st3 = (if ready then vproc (λ p, p <| ready_watched := false |>)
      (view_of x st2) else view_of x st2)) as H3.
  { unfold st3, when. destruct ready; [|done]. apply view_upd_proc. }
  assert (view_of x st2 = vclose_if_open notify_pipe.2 (vclose_if_open notify_pipe.1
      (if registered then vproc (λ p, p <| status_fd := -1 |>) (view_of x st)
       else view_of x st))) as H2.
  { unfold st2. rewrite !close_if_open_view. do 2 f_equal. unfold st1, when.
    destruct registered; [|done]. apply view_upd_proc. }
  assert (svcs st3 = svcs st) as Hs.
  { change (v_svcs (view_of x st3) = v_svcs (view_of x st)).
    rewrite H3, H2. unfold vclose_if_open, vproc.
    destruct ready, (_ =? _), (_ =? _), registered; simpl; by rewrite ?v_svcs_vclose. }
  assert (pass_cs_fd (onstart_flags (svc st3 x)) = false) as -> by (unfold svc; by rewrite Hs).
  destruct (out_lfd_view x pipefd st3) as [-> ->]. split; [done|]. by rewrite H3, H2.
Qed.

(** ** Ownership of descriptors *)

Lemma owns_perm v S l l' : l ≡ₚ l' → owns v S l → owns v S l'.
Proof.
  intros Hp [H1 H2 H3 H4 H5 H6]. split; try done.
  - rewrite H1. f_equal. by rewrite Hp.
  - by rewrite <- Hp.
  - intros fd. rewrite <- Hp. apply H3.
Qed.
Lemma owns_vproc f v S l : owns v S l → owns (vproc f v) S l.
Proof. by intros [H1 H2 H3 H4 H5 H6]. Qed.
Lemma owns_vopen v S l : owns v S l → owns (vopen v) S (v_next v :: l).
Proof.
  intros [H1 H2 H3 H4 H5 H6].
  assert (v_next v ∉ v_open v) as Hn by (intros Hn; apply H4 in Hn; lia).
  split; unfold vopen; rsimpl; [|apply list.NoDup_cons; split|..].
  - rewrite H1. set_solver.
  - set_solver.
  - done.
  - intros fd [->|Hfd]%elem_of_cons; [set_solver|by apply H3].
  - intros fd [->%elem_of_singleton|Hfd%H4]%elem_of_union; lia.
  - lia.
  - done.
Qed.
Lemma owns_vclose fd v S l : owns v S (fd :: l) → owns (vclose fd v) S l.
Proof.
  intros [H1 [Hn H2]%list.NoDup_cons H3 H4 H5 H6]. unfold vclose.
  rewrite bool_decide_eq_true_2 by set_solver.
  split; rsimpl; try done.
  - rewrite H1. specialize (H3 fd ltac:(set_solver)). set_solver.
  - intros fd' Hfd. apply H3. set_solver.
  - intros fd' Hfd. apply H4. set_solver.
Qed.
Lemma owns_not_minus v S l fd : owns v S l → fd ∈ l → (fd =? -1) = false.
Proof.
  intros [H1 _ _ H4 _ _] Hfd. apply Z.eqb_neq.
  specialize (H4 fd ltac:(set_solver)). lia.
Qed.

Lemma owns_out_p fd0 fd1 v S l : owns v S (fd0 :: fd1 :: l) → owns (vout_p (fd0, fd1) v) S l.
Proof. intros H. by do 2 apply owns_vclose. Qed.

Lemma owns_vclose_pair fds v S l :
  fds = (-1, -1) ∨ owns v S (fds.1 :: fds.2 :: l) →
  (fds = (-1, -1) → owns v S l) →
  owns (vclose_if_open fds.2 (vclose_if_open fds.1 v)) S l.
Proof.
  intros [->|H] Hn; [by apply Hn|]. unfold vclose_if_open.
  rewrite !(owns_not_minus v S _ _ H) by set_solver. by do 2 apply owns_vclose.
Qed.

(** The part of a failure exit that closes the output pipe. *)
Lemma owns_out_lfd pipefd v S l :
  l = log_pipe (v_proc v) → log_pipe_ok (v_proc v) →
  owns v S (pipefd.1 :: pipefd.2 :: l) →
  let v' := vout_lfd pipefd v in
  owns v' S [] ∧ log_input_fd (v_proc v') = -1 ∧ log_output_fd (v_proc v') = -1
  ∧ pid (v_proc v') = pid (v_proc v) ∧ v_svcs v' = v_svcs v.
Proof.
  intros -> Hok H v'.
  assert (∀ w, v_proc (vout_p pipefd w) = v_proc w ∧ v_svcs (vout_p pipefd w) = v_svcs w) as Hp.
  { intros w. unfold vout_p. by rewrite !v_proc_vclose, !v_svcs_vclose. }
  subst v'. cbv zeta. unfold vout_lfd. rewrite !(proj1 (Hp _)), !(proj2 (Hp _)).
  destruct pipefd as [a b]. unfold log_pipe in H.
  destruct (log_input_fd (v_proc v) =? -1) eqn:Hl.
  - apply Z.eqb_eq in Hl. destruct Hok as [[_ H2]|(_ & _ & H1 & _)]; [|by destruct H1].
    split_and!; [by apply owns_out_p|exact Hl|exact H2|reflexivity|reflexivity].
  - destruct Hok as [[H1 _]|(_ & -> & H1 & H2)]; [by rewrite H1 in Hl|].
    unfold vproc. rsimpl. rewrite !v_proc_vclose, !v_svcs_vclose. rsimpl.
    split_and!; [|reflexivity..].
    apply owns_out_p, owns_vproc, owns_vclose, owns_vclose, owns_vproc.
    eapply owns_perm; [|exact H]. simpl. solve_Permutation.
Qed.

(** ** The parts of [start_ps_process] *)

(** What a launch does: on failure everything that it has opened is closed again,
    and the output pipe perhaps; on success the status and notification pipes'
    read ends are open and recorded. *)
Definition notify_list (p : proc) : list Z :=
  if have_notify p then [notification_fd p] else [].
Definition launched x (S : gset Z) v (r : psys * bool) : Prop :=
  let v' := view_of x r.1 in
  v_svcs v' = v_svcs v ∧ log_pipe_ok (v_proc v')
  ∧ if r.2
    then 0 < pid (v_proc v') ∧ waiting_for_execstat (v_proc v') = true
         ∧ reserved_child_watch (v_proc v') = true
         ∧ owns v' S (status_fd (v_proc v') :: notify_list (v_proc v') ++ log_pipe (v_proc v'))
    else pid (v_proc v') = pid (v_proc v) ∧ owns v' S (log_pipe (v_proc v')).

(** The settings that decide what is opened. *)
Definition same_settings (p p' : proc) : Prop :=
  pid p' = pid p ∧ log_type p' = log_type p ∧ have_notify p' = have_notify p
  ∧ log_input_fd p' = log_input_fd p ∧ log_output_fd p' = log_output_fd p
  ∧ log_watched p' = log_watched p.

Lemma log_pipe_same p p' :
  same_settings p p' → log_pipe p' = log_pipe p ∧ (log_pipe_ok p → log_pipe_ok p').
Proof. intros (_ & H1 & _ & H2 & H3 & H4). unfold log_pipe, log_pipe_ok. by rewrite H1, H2, H3, H4. Qed.

(** A failure exit, from the notification pipe on. *)
Lemma failed_launch x S v pipefd cs notify_pipe registered ready st :
  pass_cs_fd (onstart_flags (svc st x)) = false →
  v_svcs (view_of x st) = v_svcs v → pid (v_proc (view_of x st)) = pid (v_proc v) →
  log_pipe_ok (v_proc (view_of x st)) →
  (notify_pipe = (-1, -1)
   ∨ owns (view_of x st) S (notify_pipe.1 :: notify_pipe.2 :: pipefd.1 :: pipefd.2
       :: log_pipe (v_proc (view_of x st)))) →
  (notify_pipe = (-1, -1) →
   owns (view_of x st) S (pipefd.1 :: pipefd.2 :: log_pipe (v_proc (view_of x st)))) →
  launched x S v (out_cs_h x pipefd cs notify_pipe registered ready st).
Proof.
  intros Hcs Hsv Hpid Hlog H1 H2. unfold launched.
  destruct (out_cs_h_view x pipefd cs notify_pipe registered ready st Hcs) as [-> ->].
  set (w := view_of x st) in *. unfold vout_cs_h.
  set (w1 := if registered then _ else _). set (w2 := vclose_if_open _ (vclose_if_open _ w1)).
  set (w3 := if ready then _ else _).
  assert (same_settings (v_proc w) (v_proc w3)) as Hp.
  { assert (v_proc w2 = v_proc w1) as H21.
    { unfold w2, vclose_if_open. by destruct (_ =? _), (_ =? _); rewrite ?v_proc_vclose. }
    unfold w3, w1 in *. clearbody w w2.
    by destruct ready, registered; unfold same_settings, vproc; rsimpl; rewrite H21. }
  assert (v_svcs w3 = v_svcs w) as Hs.
  { transitivity (v_svcs w2); [by unfold w3; destruct ready|].
    transitivity (v_svcs w1); [|by unfold w1; destruct registered].
    unfold w2, vclose_if_open. by destruct (_ =? _), (_ =? _); rewrite ?v_svcs_vclose. }
  destruct (log_pipe_same _ _ Hp) as [Hl Hl'].
  assert (owns w3 S (pipefd.1 :: pipefd.2 :: log_pipe (v_proc w3))) as Ho.
  { rewrite Hl.
    assert (owns w2 S (pipefd.1 :: pipefd.2 :: log_pipe (v_proc w))) as Hw2.
    { apply owns_vclose_pair.
      - destruct H1 as [H1|H1]; [by left|right]. unfold w1.
        destruct registered; [by apply owns_vproc|done].
      - intros He. specialize (H2 He). unfold w1.
        destruct registered; [by apply owns_vproc|done]. }
    unfold w3. destruct ready; [by apply owns_vproc|done]. }
  destruct (owns_out_lfd pipefd w3 S _ eq_refl (Hl' Hlog) Ho) as (Hv & Hin & Hout & Hpd & Hsv3).
  rewrite Hsv3, Hs, Hpd. split_and!; [done|by left|destruct Hp as [-> _]; done|].
  unfold log_pipe. by rewrite Hin.
Qed.

(** What [fork_process] and its failure exits find; [notify] tells whether the
    service has a readiness notification. *)
Record ready_to_fork x (S : gset Z) v (notify : bool) (pipefd notify_pipe : Z * Z) st : Prop := {
  rf_cs : pass_cs_fd (onstart_flags (svc st x)) = false;
  rf_svcs : svcs st = v_svcs v;
  rf_pid : pid (proc_of st x) = pid (v_proc v);
  rf_log : log_pipe_ok (proc_of st x);
  rf_notify : have_notify (proc_of st x) = notify;
  rf_pipe :
    (notify_pipe = (-1, -1)
     ∧ owns (view_of x st) S (pipefd.1 :: pipefd.2 :: log_pipe (proc_of st x)))
    ∨ (notify_pipe ≠ (-1, -1)
       ∧ owns (view_of x st) S (notify_pipe.1 :: notify_pipe.2 :: pipefd.1 :: pipefd.2
           :: log_pipe (proc_of st x)))
}.

Lemma ready_same x S v notify pipefd notify_pipe st st' :
  v_svcs (view_of x st') = svcs st → v_open (view_of x st') = open_fds (ext st) →
  v_next (view_of x st') = next_fd (ext st) → v_bad (view_of x st') = existsb is_bad (trace st) →
  same_settings (proc_of st x) (proc_of st' x) →
  ready_to_fork x S v notify pipefd notify_pipe st →
  ready_to_fork x S v notify pipefd notify_pipe st'.
Proof.
  intros Hs Ho Hn Hb Hp [H1 H2 H3 H4 H5 H6].
  destruct (log_pipe_same _ _ Hp) as [Hl Hl'].
  assert (∀ l, owns (view_of x st) S l → owns (view_of x st') S l) as Hown.
  { intros l [A1 A2 A3 A4 A5 A6]. split; rewrite ?Ho, ?Hn, ?Hb; done. }
  destruct Hp as (Hp1 & _ & Hp2 & _).
  split.
  - unfold svc in *. change (svcs st') with (v_svcs (view_of x st')). by rewrite Hs.
  - by rewrite <- H2, <- Hs.
  - by rewrite Hp1.
  - auto.
  - by rewrite Hp2.
  - rewrite Hl. destruct H6 as [[E H6]|[E H6]]; [left|right]; auto.
Qed.

Lemma ready_view x S v notify pipefd notify_pipe st st' :
  view_of x st' = view_of x st →
  ready_to_fork x S v notify pipefd notify_pipe st →
  ready_to_fork x S v notify pipefd notify_pipe st'.
Proof.
  intros Hv. apply ready_same; rewrite ?Hv; try reflexivity.
  change (proc_of st' x) with (v_proc (view_of x st')). rewrite Hv. done.
Qed.

Lemma ready_failed x S v notify pipefd notify_pipe cs registered ready st :
  ready_to_fork x S v notify pipefd notify_pipe st →
  launched x S v (out_cs_h x pipefd cs notify_pipe registered ready (log_misc x st)).
Proof.
  intros [H1 H2 H3 H4 _ H6].
  apply failed_launch; try done; destruct H6 as [[E H6]|[E H6]]; auto; by intros ->.
Qed.

Lemma fork_launched x S v notify pipefd notify_pipe ready st :
  notify = negb (bool_decide (notify_pipe = (-1, -1))) →
  ready_to_fork x S v notify pipefd notify_pipe st →
  launched x S v (fork_process x pipefd (-1, -1) notify_pipe ready st).
Proof.
  intros Hno H. unfold fork_process, seq.
  pose proof (view_os_ok x st) as Hv1. destruct (os_ok st) as [st1 ok]. simpl in Hv1.
  pose proof (ready_view _ _ _ _ _ _ _ _ Hv1 H) as H1. clear H Hv1 st.
  destruct ok; simpl negb; cbv iota; [|by eapply ready_failed].
  assert (ready_to_fork x S v notify pipefd notify_pipe
    (upd_proc x (λ p, p <| status_fd := pipefd.1 |>) st1)) as H2.
  { apply (ready_same _ _ _ _ _ _ st1); try reflexivity; [|done].
    rewrite proc_of_upd_proc. done. }
  set (st2 := upd_proc x _ st1) in *.
  assert (status_fd (proc_of st2 x) = pipefd.1) as Hfd by (unfold st2; by rewrite proc_of_upd_proc).
  clearbody st2.
  pose proof (view_os_result x st2) as Hv3. destruct (os_result st2) as [st3 p]. simpl in Hv3.
  pose proof (ready_view _ _ _ _ _ _ _ _ Hv3 H2) as H3.
  assert (status_fd (proc_of st3 x) = pipefd.1) as Hfd3.
  { change (status_fd (v_proc (view_of x st3)) = pipefd.1). by rewrite Hv3. }
  clear H1 H2 Hv3 Hfd st1 st2. destruct (p <=? 0) eqn:Hp; [by eapply ready_failed|].
  apply Z.leb_gt in Hp. destruct H3 as [_ B2 _ B4 B5 B6].
  unfold launched. cbn [fst snd].
  set (w := view_of x st3) in *.
  set (w1 := vclose_if_open notify_pipe.2 (vclose pipefd.2
    (vproc (λ q, q <| reserved_child_watch := true |> <| pid := p |>) w))).
  match goal with |- context [view_of x ?s] =>
    assert (view_of x s = vproc (λ q, q <| notification_fd := notify_pipe.1 |>
                                        <| waiting_for_execstat := true |>) w1) as ->
  end.
  { change (close_if_open (-1)) with (λ s : psys, s). cbv beta.
    by rewrite !view_upd_proc, close_if_open_view, view_close, !view_upd_proc, view_forked. }
  assert (v_proc w1 = (v_proc w) <| reserved_child_watch := true |> <| pid := p |>) as Hw.
  { unfold w1, vclose_if_open. by destruct (_ =? _); rewrite ?v_proc_vclose. }
  assert (v_svcs w1 = v_svcs w) as Hs.
  { unfold w1, vclose_if_open. by destruct (_ =? _); rewrite ?v_svcs_vclose. }
  change (proc_of st3 x) with (v_proc w) in *. change (svcs st3) with (v_svcs w) in B2.
  assert (owns w1 S (pipefd.1 :: (if notify then [notify_pipe.1] else [])
    ++ log_pipe (v_proc w))) as Ho.
  { unfold w1. destruct pipefd as [a b], notify_pipe as [c e]. simpl in *.
    destruct B6 as [[He H]|[He H]].
    - rewrite bool_decide_eq_true_2 in Hno by done. injection He as -> ->. subst notify.
      simpl. apply owns_vclose, owns_vproc. eapply owns_perm; [|exact H].
      simpl. solve_Permutation.
    - rewrite bool_decide_eq_false_2 in Hno by done. subst notify. unfold vclose_if_open.
      rewrite (owns_not_minus _ _ _ e H) by set_solver. simpl.
      apply owns_vclose, owns_vclose, owns_vproc. eapply owns_perm; [|exact H].
      simpl. solve_Permutation. }
  clearbody w1. unfold vproc. rsimpl. rewrite Hs, Hw. split_and!; try reflexivity.
  - exact B2.
  - exact B4.
  - exact Hp.
  - unfold notify_list. change (have_notify _) with (have_notify (v_proc w)). rsimpl.
    rewrite Hfd3, B5. by apply (owns_vproc _ _ _ _ Ho).
Qed.

Lemma ready_log_watch x S v notify pipefd notify_pipe st :
  ready_to_fork x S v notify pipefd notify_pipe st →
  ready_to_fork x S v notify pipefd notify_pipe (enable_log_watch x st).
Proof.
  intros H. unfold enable_log_watch, when, seq. destruct (bool_decide _); [|done].
  pose proof (view_os_ok x st) as Hv. destruct (os_ok st) as [st1 memory]. simpl in Hv.
  pose proof (ready_view _ _ _ _ _ _ _ _ Hv H) as H1.
  destruct (LogBuffer.append_restart_note _ _) as [b [|]];
    apply (ready_same _ _ _ _ _ _ st1); try reflexivity; rewrite ?proc_of_upd_proc; done.
Qed.

Lemma notify_launched x S v pipefd st :
  ready_to_fork x S v (have_notify (proc_of st x)) pipefd (-1, -1) st →
  launched x S v (open_notify x pipefd (-1, -1) st).
Proof.
  unfold open_notify, seq. destruct (have_notify (proc_of st x)); intros H.
  - destruct (two_fds_cases x st) as [[Hv Hr]|[Hv Hr]]; destruct (two_fds st) as [st1 r];
      simpl in Hv, Hr; rewrite Hr.
    + by eapply ready_failed, ready_view.
    + set (n := v_next (view_of x st)) in *.
      assert (ready_to_fork x S v true pipefd (n, n + 1) st1) as H1.
      { destruct H as [H1 H2 H3 H4 H5 H6].
        assert (proc_of st1 x = proc_of st x) as Hp.
        { change (v_proc (view_of x st1) = proc_of st x). by rewrite Hv. }
        assert (svcs st1 = svcs st) as Hs.
        { change (v_svcs (view_of x st1) = svcs st). by rewrite Hv. }
        split; [unfold svc in *; by rewrite Hs|by rewrite Hs|by rewrite Hp..|].
        destruct H6 as [[_ H6]|[H6 _]]; [|done]. right.
        pose proof (owns_next _ _ _ H6) as Hnext.
        split; [intros [=]; lia|]. rewrite Hv, Hp. simpl.
        eapply owns_perm; [|apply owns_vopen, owns_vopen, H6]. simpl. solve_Permutation. }
      assert (true = negb (bool_decide ((n, n + 1) = (-1, -1)))) as Hb.
      { rewrite bool_decide_eq_false_2; [done|]. intros [=]. lia. }
      pose proof (view_os_ok x st1) as Hv2. destruct (os_ok st1) as [st2 ok]. simpl in Hv2.
      pose proof (ready_view _ _ _ _ _ _ _ _ Hv2 H1) as H2.
      destruct ok; simpl negb; cbv iota; [|by eapply ready_failed].
      eapply fork_launched, ready_log_watch; [exact Hb|].
      apply (ready_same _ _ _ _ _ _ st2); try reflexivity; [|done].
      by rewrite proc_of_upd_proc.
  - apply (fork_launched _ _ _ false); [|by apply ready_log_watch].
    by rewrite bool_decide_eq_true_2.
Qed.

(** The output pipe: what it leaves to the rest. *)
Lemma log_pipe_cases x S st l :
  log_type (proc_of st x) ≠ log_type_id.PIPE →
  log_pipe_ok (proc_of st x) → owns (view_of x st) S (l ++ log_pipe (proc_of st x)) →
  let st' := (open_log_pipe x st).1 in
  svcs st' = svcs st ∧ log_pipe_ok (proc_of st' x)
  ∧ owns (view_of x st') S (l ++ log_pipe (proc_of st' x))
  ∧ pid (proc_of st' x) = pid (proc_of st x).
Proof.
  intros Hty Hok H. unfold open_log_pipe, seq.
  destruct (_ || _) eqn:Hb; [done|]. apply orb_false_iff in Hb as [Hb1 Hb2].
  apply bool_decide_eq_false in Hb1, Hb2.
  assert (log_type (proc_of st x) = log_type_id.BUFFER) as Hbuf
    by (by destruct (log_type (proc_of st x))).
  destruct (log_output_fd (proc_of st x) =? -1) eqn:Ho; [|done]. apply Z.eqb_eq in Ho.
  destruct Hok as [[Hi _]|(_ & _ & _ & Ho')]; [|done].
  assert (log_pipe (proc_of st x) = []) as Hl by (unfold log_pipe; by rewrite Hi).
  rewrite Hl, app_nil_r in H.
  destruct (two_fds_cases x st) as [[Hv Hr]|[Hv Hr]]; destruct (two_fds st) as [st1 r];
    simpl in Hv, Hr; rewrite Hr.
  - cbv zeta. cbn [fst]. change (proc_of (log_misc x st1) x) with (v_proc (view_of x st1)).
    change (svcs (log_misc x st1)) with (v_svcs (view_of x st1)).
    rewrite view_log_misc, Hv. simpl. rewrite Hl, app_nil_r. split_and!; try done. by left.
  - pose proof (owns_next _ _ _ H) as Hn.
    change (v_next (view_of x st)) with (next_fd (ext st)) in Hn. set (n := next_fd (ext st)) in *.
    rewrite Hbuf, bool_decide_eq_true_2 by done.
    set (f := λ p, p <| log_input_fd := n |> <| log_output_fd := n + 1 |>).
    assert (owns (view_of x st1) S (n :: (n + 1) :: l)) as H1.
    { rewrite Hv. eapply owns_perm; [|apply owns_vopen, owns_vopen, H]. simpl. solve_Permutation. }
    pose proof (view_os_ok x (upd_proc x f st1)) as Hv2. rewrite view_upd_proc in Hv2.
    destruct (os_ok (upd_proc x f st1)) as [st2 ok]. simpl in Hv2.
    destruct ok; cbv zeta; cbn [fst].
    + set (st3 := upd_proc x _ st2).
      assert (view_of x st3 = vproc (λ p, p <| log_watched := true |> <| log_watch_enabled := false |>)
        (vproc f (view_of x st1))) as Hv3 by (unfold st3; by rewrite view_upd_proc, Hv2).
      change (proc_of st3 x) with (v_proc (view_of x st3)).
      change (svcs st3) with (v_svcs (view_of x st3)). rewrite Hv3, Hv.
      unfold vproc, f, log_pipe, vopen. rsimpl. clearbody st3.
      change (v_next (view_of x st)) with n.
      destruct (n =? -1) eqn:En; [apply Z.eqb_eq in En; lia|]. split_and!; try reflexivity.
      * right. rsimpl. split_and!; [exact Hbuf|reflexivity|lia|lia].
      * rewrite Hv in H1. apply (owns_vproc (λ p, p <| log_input_fd := n |>
          <| log_output_fd := n + 1 |> <| log_watched := true |> <| log_watch_enabled := false |>)) in H1.
        eapply owns_perm; [|exact H1]. rewrite Permutation_app_comm. done.
    + set (st3 := upd_proc x _ _).
      assert (view_of x st3 = vproc (λ p, p <| log_input_fd := -1 |> <| log_output_fd := -1 |>)
        (vclose (n + 1) (vclose n (vproc f (view_of x st1))))) as Hv3.
      { unfold st3. by rewrite view_upd_proc, !view_close, view_log_misc, Hv2. }
      change (proc_of st3 x) with (v_proc (view_of x st3)).
      change (svcs st3) with (v_svcs (view_of x st3)). rewrite Hv3. clearbody st3.
      assert (owns (vclose (n + 1) (vclose n (vproc f (view_of x st1)))) S l) as H3
        by (by apply owns_vclose, owns_vclose, owns_vproc).
      set (w := vclose _ _) in *.
      assert (v_proc w = f (v_proc (view_of x st1)) ∧ v_svcs w = v_svcs (view_of x st1)) as [Hw1 Hw2]
        by (unfold w; by rewrite !v_proc_vclose, !v_svcs_vclose).
      clearbody w. unfold vproc, log_pipe. rsimpl. rewrite Hw1, Hw2, Hv.
      split_and!; try reflexivity; [by left|]. rewrite Z.eqb_refl, app_nil_r.
      by apply owns_vproc.
Qed.


(** ** Concrete launches *)

(** Service 1 with the fields [p], in a set where service 2 is another process;
    [calls] are the results of the system calls. *)
Definition launch_set (p : proc) (flags : service_flags_t) (calls : list Z) : psys :=
  set_flags 1 flags
    (construct 2 "producer" service_type_t.PROCESS []
       (construct 1 "service" service_type_t.PROCESS []
          (service_set_new
             (Proc_ext {[1%nat := p]} (Time_val 5 0) calls ∅ 3 ∅ true)))).
Definition with_pipe : proc := (proc_new ["daemon"]) <| log_type := log_type_id.BUFFER |>.


(** Four defects in the handling of failures.  When the pipe of the service
    whose output is consumed cannot be opened, both ends of the status pipe stay
    open.  A failure after the control connection has been created closes its
    descriptor, which the connection owns, a second time.  A failure of a service
    that passes its output on deregisters the output watcher, which was not
    registered.  And the test for a socket at the path of the activation socket
    also accepts a regular file, which is then removed. *)
Theorem launch_failure_defects :
  (let st := launch_set ((proc_new ["daemon"]) <| consumer_for := Some 2%nat |>)
     service_flags_new [0; -1] in
   let r := start_ps_process 1 ["daemon"] false st in
   r.2 = false ∧ elements (open_fds (ext r.1)) = [3; 4])
  ∧ (let st := launch_set (proc_new ["daemon"])
       (service_flags_new <| pass_cs_fd := true |>) [0; 0; 0; -1] in
     let r := start_ps_process 1 ["daemon"] false st in
     r.2 = false ∧ Bad_close 5 ∈ trace r.1)
  ∧ (let st := launch_set ((proc_new ["daemon"]) <| log_type := log_type_id.PIPE |>)
       service_flags_new [0; 0; -1] in
     let r := start_ps_process 1 ["daemon"] false st in
     r.2 = false ∧ Bad_deregister 1 ∈ trace r.1)
  ∧ (let regular_file := 33188 in                             (* 0100644 *)
     let st := launch_set ((proc_new ["daemon"]) <| socket_path := "/etc/passwd" |>)
       service_flags_new [0; regular_file; 0; 0; 0; 0; 0; 0] in
     let r := open_socket 1 st in
     r.2 = true ∧ Unlink "/etc/passwd" ∈ trace r.1).
Proof. split_and!; vm_compute; try reflexivity; repeat constructor. Qed.
