(* ===== verification/ProcessPolicy.v ===== *)
(** * The policies of process services

    The invariants of the service set under the events of process services, the
    rate limit of automatic restarts, and the reading of process IDs from files. *)

From S2P Require Import Prelude Text ServiceData Service TimeVal ServiceInv ServiceInvOps ServiceGraph ServiceFuel ServiceReach ServiceStop Process ProcessRun ProcessEvents ProcessLaws ProcessLaunch.

Implicit Types (st : psys) (x y : sid).

(** ** Events and the invariants of the service set *)

(** C21: The event handlers of process services (process exits, exec status, readiness,
    timers, output), in any order and number and whatever the system calls return, keep from
    any reachable state what the operations of the service set keep: required_by is at least
    the explicit activation plus the links that hold an acquisition, a service with one of
    the five flags of do_propagation set is in the propagation queue, and the recursions of
    do_stop and pull_console_queue end within their computed depth. A service named by
    chain-to is looked up among the loaded services. *)
Theorem process_events_safe n st st' x :
  reachable st →
  rtc (process_event n) st st' →
  b2z (start_explicit (svc st' x)) + held_in st' (dependents (svc st' x))
    ≤ required_by (svc st' x)
  ∧ (∀ f, flag f (svc st' x) = true → x ∈ prop_queue st')
  ∧ fault st' = false.
Proof.
  intros Hr He. apply reachable_safe.
  induction He as [|s s1 s2 H1 _ IH]; [done|]. apply IH.
  eapply reachable_step; [exact Hr|]. eapply step_derived. by apply process_event_derived.
Qed.

(** ** The limit on automatic restarts *)

(** [check_restart] at each of the times [ts]. *)
Definition check_at x (t : time_val) st : psys * bool :=
  process_check_restart x (upd_ext (λ e, e <| now := t |>) st).
Fixpoint check_restarts x (ts : list time_val) st : psys * list bool :=
  match ts with
  | [] => (st, [])
  | t :: ts =>
      let '(st, b) := check_at x t st in
      let '(st, bs) := check_restarts x ts st in
      (st, b :: bs)
  end.

(** The time [t] is in the current interval of the service. *)
Definition in_interval (p : proc) (t : time_val) : Prop :=
  tv_ltb (tv_sub t (restart_interval_time p)) (restart_interval p) = true.

Lemma check_in_interval x t st :
  max_restart_interval_count (proc_of st x) ≠ 0 →
  in_interval (proc_of st x) t →
  let allowed := restart_interval_count (proc_of st x)
                   <? max_restart_interval_count (proc_of st x) in
  (check_at x t st).2 = allowed
  ∧ proc_of (check_at x t st).1 x
    = (proc_of st x) <| restart_interval_count ::= (λ c, if allowed then c + 1 else c) |>
  ∧ get_target_state (check_at x t st).1 x
    = if allowed then get_target_state st x else service_state_t.STOPPED.
Proof.
  intros Hmax Hin. unfold check_at, process_check_restart.
  set (st0 := upd_ext _ st).
  assert (proc_of st0 x = proc_of st x) as Hp by done.
  assert (now (ext st0) = t) as -> by done. rewrite Hp.
  rewrite (proj2 (Z.eqb_neq _ _) Hmax). cbn [negb]. cbv zeta. rewrite Hin.
  rewrite Z.ltb_antisym.
  destruct (max_restart_interval_count (proc_of st x) <=? _) eqn:Hc; cbn [negb fst snd].
  - split_and!; [done|..].
    + change (proc_of (set_target_state x service_state_t.STOPPED (emit (Log_misc x) st0)) x)
        with (proc_of st0 x). rewrite Hp. by destruct (proc_of st x).
    + unfold get_target_state, set_target_state. by rewrite svc_upd_eq.
  - split_and!; [done| |done]. rewrite proc_of_upd_proc, Hp. unfold set.
    by destruct (proc_of st x); cbn; rewrite Z.add_comm.
Qed.

Lemma check_restarts_in x ts st :
  max_restart_interval_count (proc_of st x) ≠ 0 →
  (∀ t, t ∈ ts → in_interval (proc_of st x) t) →
  let c := restart_interval_count (proc_of st x) in
  let max := max_restart_interval_count (proc_of st x) in
  let n := Z.of_nat (length ts) in
  let st' := (check_restarts x ts st).1 in
  (check_restarts x ts st).2 = (λ i, c + i <? max) <$> seqZ 0 n
  ∧ proc_of st' x = (proc_of st x) <| restart_interval_count := Z.max c (Z.min max (c + n)) |>
  ∧ get_target_state st' x
    = if (0 <? n) && (max <? c + n) then service_state_t.STOPPED else get_target_state st x.
Proof.
  revert st. induction ts as [|t ts IH]; intros st Hmax Hin.
  { cbn. rewrite Z.max_l by lia. split_and!; [done|unfold set; by destruct (proc_of st x)|done]. }
  destruct (check_in_interval x t st Hmax (Hin t ltac:(set_solver))) as (H1 & H2 & H3).
  cbn [check_restarts]. destruct (check_at x t st) as [st1 b]. cbn [fst snd] in *.
  assert (max_restart_interval_count (proc_of st1 x) = max_restart_interval_count (proc_of st x)
    ∧ restart_interval_count (proc_of st1 x) = restart_interval_count (proc_of st x) + b2z b)
    as [Hm Hc].
  { rewrite H2, H1. rsimpl. cbv beta. split; [done|]. unfold b2z.
    destruct (restart_interval_count _ <? max_restart_interval_count _); cbn; lia. }
  destruct (IH st1) as (I1 & I2 & I3).
  { by rewrite Hm. }
  { intros t' Ht'. unfold in_interval. rewrite H2. rsimpl. apply Hin. set_solver. }
  destruct (check_restarts x ts st1) as [st2 bs]. cbn [fst snd] in *.
  rewrite Hm, Hc in I1, I2, I3. cbn [length]. rewrite Nat2Z.inj_succ, seqZ_cons by lia.
  set (c := restart_interval_count (proc_of st x)) in *.
  set (max := max_restart_interval_count (proc_of st x)) in *.
  set (n := Z.of_nat (length ts)) in *. assert (0 ≤ n) by (unfold n; lia).
  split_and!.
  - cbn [fmap list_fmap]. rewrite Z.add_0_r, H1. f_equal. rewrite I1. subst b.
    replace (Z.pred (Z.succ n)) with n by lia.
    change (Z.succ 0) with (1 + 0). rewrite <- (fmap_add_seqZ 1 0 n), <- list_fmap_compose.
    apply list_fmap_ext. intros i j Hj. apply lookup_seqZ in Hj as [-> Hj]. cbn.
    destruct (Z.ltb_spec c max); cbn; [f_equal; lia|].
    rewrite !(proj2 (Z.ltb_ge _ _)); [done|lia..].
  - rewrite I2, H2.
    assert (Z.max (c + b2z b) (Z.min max (c + b2z b + n))
      = Z.max c (Z.min max (c + Z.succ n))) as ->; [|reflexivity].
    rewrite H1. destruct (Z.ltb_spec c max); cbn; lia.
  - rewrite I3, H3. subst b.
    destruct (Z.ltb_spec c max); cbn.
    + replace (c + 1 + n) with (c + Z.succ n) by lia.
      destruct (Z.ltb_spec 0 n), (Z.ltb_spec 0 (Z.succ n)), (Z.ltb_spec max (c + Z.succ n));
        cbn; try done; lia.
    + destruct (Z.ltb_spec 0 (Z.succ n)), (Z.ltb_spec max (c + Z.succ n)); cbn; try lia.
      by destruct (_ && _).
Qed.

(** The restarts of a process service are limited: of any number of checks
    within the restart interval exactly the first ones are granted, until the
    interval's count has reached the configured maximum; every later one is
    refused and makes the service's target state STOPPED.  The first check after
    the interval is granted and begins a new interval. *)
Theorem restart_rate_limited x ts t st :
  max_restart_interval_count (proc_of st x) ≠ 0 →
  (∀ t, t ∈ ts → in_interval (proc_of st x) t) →
  ¬ in_interval (proc_of st x) t →
  let c := restart_interval_count (proc_of st x) in
  let max := max_restart_interval_count (proc_of st x) in
  let st' := (check_restarts x ts st).1 in
  (check_restarts x ts st).2 = (λ i, c + i <? max) <$> seqZ 0 (Z.of_nat (length ts))
  ∧ restart_interval_count (proc_of st' x) = Z.max c (Z.min max (c + Z.of_nat (length ts)))
  ∧ get_target_state st' x
    = (if (0 <? Z.of_nat (length ts)) && (max <? c + Z.of_nat (length ts))
       then service_state_t.STOPPED else get_target_state st x)
  ∧ (check_at x t st').2 = true
  ∧ restart_interval_time (proc_of (check_at x t st').1 x) = t
  ∧ restart_interval_count (proc_of (check_at x t st').1 x) = 1.
Proof.
  intros Hmax Hin Ht. destruct (check_restarts_in x ts st Hmax Hin) as (H1 & H2 & H3).
  cbv zeta. set (st' := (check_restarts x ts st).1) in *. clearbody st'.
  split; [done|]. split; [by rewrite H2|]. split; [done|].
  unfold check_at, process_check_restart. set (st0 := upd_ext _ st').
  assert (proc_of st0 x = proc_of st' x) as -> by done.
  assert (now (ext st0) = t) as -> by done.
  assert (tv_ltb (tv_sub t (restart_interval_time (proc_of st' x)))
    (restart_interval (proc_of st' x)) = false) as ->.
  { apply not_true_iff_false. intros Hlt. apply Ht. unfold in_interval. by rewrite H2 in Hlt. }
  assert ((max_restart_interval_count (proc_of st' x) =? 0) = false) as ->.
  { apply Z.eqb_neq. by rewrite H2. }
  cbn [negb fst snd]. rewrite proc_of_upd_proc. by split_and!.
Qed.

Lemma process_events_safe_witness :
  let st := launch_set with_pipe service_flags_new [0; 0; 0; 0; 0; 77] in
  let st' := status_change 20 1 (Proc_status CLD_EXITED 1) st in
  b2z (start_explicit (svc st' 1)) + held_in st' (dependents (svc st' 1))
    ≤ required_by (svc st' 1)
  ∧ (∀ f, flag f (svc st' 1) = true → 1%nat ∈ prop_queue st')
  ∧ fault st' = false.
Proof.
  intros st st'. apply (process_events_safe 20 st).
  - unfold st, launch_set, set_flags.
    eapply reachable_step; [|apply step_configure; unfold config_update; by split_and?].
    eapply reachable_step; [|by apply step_construct; vm_compute].
    eapply reachable_step; [|by apply step_construct; vm_compute].
    apply reachable_init.
  - apply rtc_once. apply pe_status.
Defined.

Definition three_checks : list time_val := [Time_val 6 0; Time_val 7 0; Time_val 8 500; Time_val 9 0].
Lemma restart_rate_limited_witness :
  let st := upd_proc 1 (λ p, p <| restart_interval_time := Time_val 5 0 |>)
    (launch_set with_pipe service_flags_new []) in
  let st' := (check_restarts 1 three_checks st).1 in
  (check_restarts 1 three_checks st).2 = [true; true; true; false]
  ∧ get_target_state st' 1 = service_state_t.STOPPED
  ∧ restart_interval_count (proc_of (check_at 1 (Time_val 20 0) st').1 1) = 1.
Proof.
  intros st st'.
  destruct (restart_rate_limited 1 three_checks (Time_val 20 0) st)
    as (H1 & _ & H3 & _ & _ & H6).
  - by vm_compute.
  - intros t Ht. unfold three_checks in Ht.
    repeat (apply elem_of_cons in Ht as [->|Ht]; [by vm_compute|]).
    by apply not_elem_of_nil in Ht.
  - by vm_compute.
  - split; [etransitivity; [exact H1|by vm_compute]|].
    split; [etransitivity; [exact H3|by vm_compute]|exact H6].
Defined.

(** ** Process IDs in files *)

(** A process ID that is written in decimal to the PID file, alone or followed
    by white space, is read back; and whatever the file contains, what is read is
    a process ID that fits [pid_t], or the file is rejected. *)
Theorem parse_pid_roundtrip n rest s v :
  0 ≤ n ≤ PID_MAX → ends_number (c_string rest) →
  parse_pid (decimal 20 n ++ rest) = Some n
  ∧ (parse_pid s = Some v → 0 ≤ v ≤ PID_MAX).
Proof.
  intros Hn Hr. unfold PID_MAX in *. split.
  - unfold parse_pid. rewrite c_string_app by (apply decimal_nonzero; lia).
    rewrite strtoull_decimal by (done || unfold ULLONG_MAX; lia).
    by replace (n <=? PID_MAX) with true by (unfold PID_MAX; lia).
  - unfold parse_pid. destruct (strtoull 0 (c_string s)) as [[[w range] r]|] eqn:Hw; [|done].
    apply strtoull_bounds in Hw; [|done]. destruct range; [done|].
    destruct (Z.leb_spec w PID_MAX) as [Hle|]; [|done].
    intros [= <-]. unfold PID_MAX in Hle. lia.
Qed.

Lemma parse_pid_roundtrip_witness :
  decimal 20 4711 ++ [NEWLINE] = chars "4711" ++ [NEWLINE]
  ∧ parse_pid (decimal 20 4711 ++ [NEWLINE]) = Some 4711.
Proof.
  split; [by vm_compute|].
  apply (parse_pid_roundtrip 4711 [NEWLINE] [] 0); [by vm_compute|by right; right].
Defined.
