(* ===== verification/SettingProps.v ===== *)
(** * Reading what was written

    Round trips of the values of settings: words that are written with quotes,
    escapes and comments, times, and resource limits. *)

From S2P Require Import Prelude Text TimeVal SettingValue.

(** ** The ways to write a word *)

(** A word is written in pieces: a plain character, an escaped one, or a quoted
    string, in which again each character can be escaped. *)
Inductive piece :=
  | Plain (c : Z)
  | Escaped (c : Z)
  | Quoted (q : list (bool * Z)).

Definition needs_escape (c : Z) : bool := (c =? QUOTE) || (c =? BACKSLASH).
(** A newline is only white space between words; it cannot be quoted. *)
Definition piece_ok (p : piece) : Prop :=
  match p with
  | Plain c => needs_escape c = false ∧ is_space c = false ∧ c ≠ HASH
  | Escaped c => c ≠ NEWLINE
  | Quoted q => Forall (λ bc, (bc.1 = true ∨ needs_escape bc.2 = false) ∧ bc.2 ≠ NEWLINE) q
  end.
Definition quoted_text (q : list (bool * Z)) : text :=
  q ≫= λ bc, if bc.1 : bool then [BACKSLASH; bc.2] else [bc.2].
Definition piece_text (p : piece) : text :=
  match p with
  | Plain c => [c]
  | Escaped c => [BACKSLASH; c]
  | Quoted q => QUOTE :: quoted_text q ++ [QUOTE]
  end.
Definition piece_value (p : piece) : text :=
  match p with Plain c | Escaped c => [c] | Quoted q => q.*2 end.

Definition word_ok (w : list piece) : Prop := w ≠ [] ∧ Forall piece_ok w.
Definition word_text (w : list piece) : text := w ≫= piece_text.
Definition word_value (w : list piece) : text := w ≫= piece_value.

(** White space between words, and the end of a line: nothing, or white space and
    perhaps a comment. *)
Definition space_ok (sp : text) : Prop := sp ≠ [] ∧ Forall (λ c, is_space c = true) sp.
Definition ending_ok (e : text) : Prop :=
  e = [] ∨ ∃ sp com, e = sp ++ com ∧ space_ok sp
    ∧ (com = [] ∨ ∃ c, com = HASH :: c ∧ Forall (λ c, c ≠ NEWLINE) c).

(** A line: each word but the last is followed by white space. *)
Fixpoint line_text (w : list piece) (ws : list (text * list piece)) : text :=
  match ws with
  | [] => word_text w
  | (sp, w') :: ws => word_text w ++ sp ++ line_text w' ws
  end.
Definition line_ok (w : list piece) (ws : list (text * list piece)) : Prop :=
  word_ok w ∧ Forall (λ sw, space_ok sw.1 ∧ word_ok sw.2) ws.
Fixpoint joined (w : text) (ws : list text) : text :=
  match ws with [] => w | w' :: ws => w ++ SPACE :: joined w' ws end.
Fixpoint places (start : Z) (w : text) (ws : list text) : offsets :=
  let stop := start + Z.of_nat (length w) in
  (start, stop) :: match ws with [] => [] | w' :: ws => places (stop + 1) w' ws end.

(** ** The main loop on each of them *)

Lemma read_quoted_text q rest val pos :
  Forall (λ bc, bc.1 = true ∨ needs_escape bc.2 = false) q →
  read_quoted (quoted_text q ++ QUOTE :: rest) val pos = Ok (val ++ q.*2, QUOTE :: rest).
Proof.
  intros Hq. revert val. induction Hq as [|[b c] q Hc _ IH]; intros val; cbn.
  - by rewrite app_nil_r.
  - rewrite <- app_assoc. destruct b; cbn [app read_quoted].
    + change (BACKSLASH =? QUOTE) with false. change (BACKSLASH =? BACKSLASH) with true.
      cbv iota. cbn [snd]. rewrite IH. by rewrite <- app_assoc.
    + destruct Hc as [Hc|Hc]; [done|]. cbn [snd] in *. unfold needs_escape in Hc.
      apply orb_false_iff in Hc as [-> ->]. rewrite IH. by rewrite <- app_assoc.
Qed.

(** One piece: the loop goes on behind it, inside the part. *)
Lemma read_piece fuel pos p rest val parts np start :
  piece_ok p → (length (piece_text p ++ rest) < fuel)%nat →
  ∃ fuel', (length rest < fuel')%nat
    ∧ read_value_loop fuel pos (piece_text p ++ rest) val parts np start
      = read_value_loop fuel' pos rest (val ++ piece_value p) parts false
          (if np then Z.of_nat (length val) else start).
Proof.
  intros Hp Hf. destruct fuel as [|fuel]; [lia|]. exists fuel.
  destruct p as [c|c|q]; cbn [piece_text app length] in *.
  - split; [lia|]. destruct Hp as (He & Hs & Hh). cbn [read_value_loop].
    apply orb_false_iff in He as [-> ->]. rewrite Hs. by rewrite (proj2 (Z.eqb_neq c HASH) Hh).
  - split; [lia|]. done.
  - rewrite <- app_assoc, length_app in *. cbn [app length] in *. split; [lia|].
    cbn [read_value_loop]. change (QUOTE =? QUOTE) with true. cbv iota.
    rewrite read_quoted_text; [done|]. eapply list.Forall_impl; [exact Hp|]. by intros ? [].
Qed.

Lemma read_word fuel pos w rest val parts np start :
  word_ok w → (length (word_text w ++ rest) < fuel)%nat →
  ∃ fuel', (length rest < fuel')%nat
    ∧ read_value_loop fuel pos (word_text w ++ rest) val parts np start
      = read_value_loop fuel' pos rest (val ++ word_value w) parts false
          (if np then Z.of_nat (length val) else start).
Proof.
  intros [Hne Hw]. revert fuel val np start Hne.
  induction Hw as [|p w Hp Hw IH]; intros fuel val np start Hne Hf; [done|].
  change (word_text (p :: w)) with (piece_text p ++ word_text w) in *.
  change (word_value (p :: w)) with (piece_value p ++ word_value w).
  rewrite <- app_assoc in *.
  destruct (read_piece fuel pos p (word_text w ++ rest) val parts np start Hp Hf)
    as (fuel1 & Hf1 & ->).
  destruct (decide (w = [])) as [->|Hne'].
  - exists fuel1. split; [done|]. change (word_value []) with ([] : text). by rewrite app_nil_r.
  - destruct (IH fuel1 (val ++ piece_value p) false
      (if np then Z.of_nat (length val) else start) Hne' Hf1) as (fuel2 & Hf2 & ->).
    exists fuel2. split; [done|]. by rewrite <- app_assoc.
Qed.

(** What a word begins with is neither white space nor a comment. *)
Lemma word_begins w rest :
  word_ok w → ∃ c s, word_text w ++ rest = c :: s ∧ is_space c = false ∧ c ≠ HASH.
Proof.
  intros [Hne Hw]. destruct Hw as [|p w Hp Hw]; [done|].
  change (word_text (p :: w)) with (piece_text p ++ word_text w). rewrite <- app_assoc.
  destruct p as [c|c|q]; cbn [piece_text app].
  - destruct Hp as (_ & Hs & Hh). by exists c, (word_text w ++ rest).
  - by eexists _, _.
  - by eexists _, _.
Qed.

Lemma space_char c : is_space c = true → (c =? HASH) = false ∧ (c =? QUOTE) = false ∧ (c =? BACKSLASH) = false.
Proof. unfold is_space, HASH, QUOTE, BACKSLASH. intros. split_and!; lia. Qed.

Lemma skip_spaces comment sp s line :
  Forall (λ c, is_space c = true) sp → comment = false →
  ∃ line', skip_comment_from comment (sp ++ s) line = skip_comment_from false s line'.
Proof.
  intros Hsp ->. revert line. induction Hsp as [|c sp Hc _ IH]; intros line; [by exists line|].
  cbn [app skip_comment_from]. destruct (space_char c Hc) as (-> & _ & _).
  destruct (c =? NEWLINE); rewrite Hc; cbn; apply IH.
Qed.
Lemma skip_comment_end com line :
  Forall (λ c, c ≠ NEWLINE) com → skip_comment_from true com line = ([], line).
Proof.
  revert line. induction com as [|c com IH]; intros line Hc; [done|].
  destruct (Forall_cons_1 _ _ _ Hc) as [Hn Hcom]. clear Hc. rename Hn into Hc.
  cbn [skip_comment_from].
  destruct (c =? HASH); [by apply IH|]. rewrite (proj2 (Z.eqb_neq c NEWLINE) Hc). by apply IH.
Qed.

(** White space before another word ends the part. *)
Lemma read_space fuel pos sp s val ps start :
  space_ok sp → (∃ c s', s = c :: s' ∧ is_space c = false ∧ c ≠ HASH) →
  (length (sp ++ s) < fuel)%nat →
  ∃ fuel' pos', (length s < fuel')%nat
    ∧ read_value_loop fuel pos (sp ++ s) val (Some ps) false start
      = read_value_loop fuel' pos' s (val ++ [SPACE])
          (Some (ps ++ [(start, Z.of_nat (length val))])) true start.
Proof.
  intros [Hne Hsp] (c0 & s' & -> & Hc0 & Hh0) Hf. destruct sp as [|c sp]; [done|].
  destruct fuel as [|fuel]; [lia|]. rewrite length_app in Hf. cbn [length] in Hf.
  pose proof (Forall_inv Hsp) as Hc.
  destruct (skip_spaces false (c :: sp) (c0 :: s') (line_num pos) Hsp eq_refl) as [line' Hskip].
  assert (skip_comment_from false (c0 :: s') line' = (c0 :: s', line')) as Hstop.
  { cbn [skip_comment_from]. rewrite (proj2 (Z.eqb_neq c0 HASH) Hh0).
    assert ((c0 =? NEWLINE) = false) as -> by (unfold is_space in Hc0; unfold NEWLINE; lia).
    by rewrite Hc0. }
  exists fuel, (at_line pos line'). split; [cbn [length]; lia|].
  cbn [app]. cbn [read_value_loop]. destruct (space_char c Hc) as (Hh & -> & ->). rewrite Hc.
  unfold skip_comment. change (c :: sp ++ c0 :: s') with ((c :: sp) ++ c0 :: s').
  rewrite Hskip, Hstop. rewrite bool_decide_eq_false_2 by done.
  by rewrite bool_decide_eq_true_2 by (by eexists).
Qed.

(** The end of the line. *)
Lemma read_ending fuel pos e val ps start :
  ending_ok e → (length e < fuel)%nat →
  read_value_loop fuel pos e val (Some ps) false start
  = Ok (val, Some (ps ++ [(start, Z.of_nat (length val))])).
Proof.
  intros [->|(sp & com & -> & [Hne Hsp] & Hcom)] Hf; [by destruct fuel|].
  destruct fuel as [|fuel]; [lia|]. destruct sp as [|c sp]; [done|].
  pose proof (Forall_inv Hsp) as Hc.
  destruct (skip_spaces false (c :: sp) com (line_num pos) Hsp eq_refl) as [line' Hskip].
  assert (∃ l, skip_comment_from false com line' = ([], l)) as [l Hend].
  { destruct Hcom as [->|(com' & -> & Hcom)]; [by eexists|].
    cbn [skip_comment_from]. change (HASH =? HASH) with true. cbv iota.
    exists line'. by apply skip_comment_end. }
  cbn [app read_value_loop]. destruct (space_char c Hc) as (Hh & -> & ->). rewrite Hc.
  unfold skip_comment. change (c :: sp ++ com) with ((c :: sp) ++ com).
  rewrite Hskip, Hend. cbn [end_part]. by rewrite bool_decide_eq_true_2 by (by eexists).
Qed.

Lemma read_line fuel pos w ws e val ps start :
  line_ok w ws → ending_ok e → (length (line_text w ws ++ e) < fuel)%nat →
  read_value_loop fuel pos (line_text w ws ++ e) val (Some ps) true start
  = Ok (val ++ joined (word_value w) (word_value <$> ws.*2),
        Some (ps ++ places (Z.of_nat (length val)) (word_value w) (word_value <$> ws.*2))).
Proof.
  intros [Hw Hws] He. revert fuel pos w val ps start Hw.
  induction Hws as [|[sp w'] ws [Hsp Hw'] Hws IH]; intros fuel pos w val ps start Hw Hf;
    cbn [line_text] in *.
  - destruct (read_word fuel pos w e val (Some ps) true start Hw Hf) as (fuel1 & Hf1 & ->).
    rewrite read_ending by done. cbn [fmap list_fmap joined places].
    by rewrite length_app, Nat2Z.inj_add.
  - rewrite <- app_assoc in *. cbn [fst snd] in *. rewrite <- app_assoc in *.
    destruct (read_word fuel pos w (sp ++ line_text w' ws ++ e) val (Some ps) true start Hw Hf)
      as (fuel1 & Hf1 & ->).
    assert (∃ c s', line_text w' ws ++ e = c :: s' ∧ is_space c = false ∧ c ≠ HASH) as Hb.
    { destruct ws as [|[sp2 w2] ws]; cbn [line_text]; rewrite <- ?app_assoc;
        by apply word_begins. }
    destruct (read_space fuel1 pos sp (line_text w' ws ++ e) (val ++ word_value w) ps
      (Z.of_nat (length val)) Hsp Hb Hf1) as (fuel2 & pos2 & Hf2 & ->).
    rewrite IH by done. cbn [fmap list_fmap joined places].
    rewrite !length_app, !Nat2Z.inj_add, <- !app_assoc. done.
Qed.

(** The places select the words. *)
Lemma part_places pre w ws :
  part (pre ++ joined w ws) <$> places (Z.of_nat (length pre)) w ws = w :: ws.
Proof.
  assert (∀ pre w s, part (pre ++ w ++ s)
    (Z.of_nat (length pre), Z.of_nat (length pre) + Z.of_nat (length w)) = w) as Hpart.
  { intros p w0 s. unfold part. cbn [fst snd].
    replace (Z.to_nat (Z.of_nat (length p) + Z.of_nat (length w0) - Z.of_nat (length p)))
      with (length w0) by lia.
    rewrite Nat2Z.id, drop_app_length. by rewrite take_app_length. }
  revert pre w. induction ws as [|w' ws IH]; intros pre w; cbn [joined places fmap list_fmap].
  - f_equal. rewrite <- (app_nil_r w) at 1. apply Hpart.
  - f_equal; [apply Hpart|].
    specialize (IH (pre ++ w ++ [SPACE]) w').
    rewrite !length_app, !Nat2Z.inj_add in IH. cbn [length] in IH.
    rewrite <- IH. rewrite <- !app_assoc. cbn [app]. do 2 f_equal. lia.
Qed.

(** C19: A value without newlines in its words is read back as it was written: however each
    word is written, with plain, backslash-escaped and quoted characters in any mixture,
    whatever white space separates the words (newlines of continuation lines included), and
    whether or not a comment follows after white space, the value read is the words with
    single spaces between them, and the parts select exactly the words, also the empty ones;
    appending with += keeps the former non-empty value in front of the delimiter. *)
Theorem setting_value_roundtrip pos w ws e lead old :
  line_ok w ws → ending_ok e → Forall (λ c, is_space c = true) lead →
  let words := word_value w :: (word_value <$> ws.*2) in
  let value := joined (word_value w) (word_value <$> ws.*2) in
  ∃ os, read_value_parts pos (lead ++ line_text w ws ++ e) = Ok (value, os)
  ∧ part value <$> os = words
  ∧ (old ≠ [] → ∃ os', read_setting_value old PLUSASSIGN pos (lead ++ line_text w ws ++ e)
       (Some []) SPACE = Ok (old ++ SPACE :: value, Some os')
     ∧ part (old ++ SPACE :: value) <$> os' = words).
Proof.
  intros Hl He Hlead. cbv zeta.
  assert (∃ line', skip_ws_ln (lead ++ line_text w ws ++ e) (line_num pos)
    = (line_text w ws ++ e, line')) as [line' Hskip].
  { generalize (line_num pos). induction Hlead as [|c lead Hc _ IH]; intros line; cbn [app].
    - assert (∃ c s', line_text w ws ++ e = c :: s' ∧ is_space c = false ∧ c ≠ HASH)
        as (c & s' & -> & Hc & _).
      { destruct Hl as [Hw _]. destruct ws as [|[sp2 w2] ws]; cbn [line_text];
          rewrite <- ?app_assoc; by apply word_begins. }
      cbn [skip_ws_ln]. rewrite Hc. by eexists.
    - cbn [skip_ws_ln]. rewrite Hc. apply IH. }
  exists (places 0 (word_value w) (word_value <$> ws.*2)). split_and!.
  - unfold read_value_parts, read_setting_value. rewrite Hskip. cbn [fmap option_fmap option_map].
    rewrite read_line by (done || lia). done.
  - apply (part_places []).
  - intros Hold. exists (places (Z.of_nat (length (old ++ [SPACE]))) (word_value w)
      (word_value <$> ws.*2)).
    split.
    + unfold read_setting_value. rewrite Hskip, bool_decide_eq_false_2 by done.
      rewrite read_line by (done || lia). cbn [app]. by rewrite <- app_assoc.
    + change (SPACE :: joined (word_value w) (word_value <$> ws.*2))
        with ([SPACE] ++ joined (word_value w) (word_value <$> ws.*2)).
      rewrite app_assoc. apply part_places.
Qed.

(** [echo "a b"c\#d  # comment] *)
Definition sample_word : list piece := Plain <$> chars "echo".
Definition sample_argument : list piece :=
  [Quoted ((λ c, (false, c)) <$> chars "a b"); Plain 99; Escaped HASH; Plain 100].
Lemma setting_value_roundtrip_witness :
  let line := chars "echo " ++ [QUOTE] ++ chars "a b" ++ [QUOTE] ++ chars "c\#d  # comment" in
  ∃ os, read_value_parts (File_pos [] 1) line = Ok (chars "echo a bc#d", os)
  ∧ part (chars "echo a bc#d") <$> os = [chars "echo"; chars "a bc#d"]
  ∧ (chars "x" ≠ [] → ∃ os', read_setting_value (chars "x") PLUSASSIGN (File_pos [] 1) line
       (Some []) SPACE = Ok (chars "x echo a bc#d", Some os')
     ∧ part (chars "x echo a bc#d") <$> os' = [chars "echo"; chars "a bc#d"]).
Proof.
  apply (setting_value_roundtrip (File_pos [] 1) sample_word [(chars " ", sample_argument)]
    (chars "  # comment") [] (chars "x")).
  - split; [split; [done|]|constructor; [|constructor]].
    + repeat constructor; try (by vm_compute); discriminate.
    + split; [split; [done|by repeat constructor]|split; [done|]].
      repeat constructor; try (by vm_compute); try discriminate; by right.
  - right. exists (chars "  "), (chars "# comment"). split; [done|].
    split; [split; [done|by repeat constructor]|]. right. exists (chars " comment").
    split; [done|]. repeat constructor; discriminate.
  - constructor.
Defined.

(** ** Times *)

Lemma parse_seconds_decimal pos k n s param :
  (0 < k)%nat → 0 ≤ n < 10 ^ Z.of_nat k →
  parse_seconds pos (decimal k n ++ s) 0 param
  = if n / 10 <? max_secs then parse_seconds pos s n param
    else Throw (Description_exc pos None (chars "too-large value for " ++ param)).
Proof.
  revert n s. induction k as [|k IH]; intros n s Hk Hn; [lia|]. cbn [decimal].
  pose proof (Z.mod_pos_bound n 10 ltac:(lia)) as Hm.
  assert (∀ isec, parse_seconds pos ([48 + n mod 10] ++ s) isec param
    = if isec <? max_secs then parse_seconds pos s (isec * 10 + n mod 10) param
      else Throw (Description_exc pos None (chars "too-large value for " ++ param))) as Hd.
  { intros isec. cbn [app parse_seconds]. unfold DOT, is_digit.
    replace (48 + n mod 10 =? 46) with false by lia.
    replace (48 + n mod 10 =? 44) with false by lia.
    replace ((48 <=? 48 + n mod 10) && (48 + n mod 10 <=? 57)) with true by lia.
    cbn [orb negb]. rewrite Z.ltb_antisym. destruct (max_secs <=? isec); [done|].
    cbn [negb]. f_equal. lia. }
  rewrite <- app_assoc. destruct (Z.ltb_spec n 10) as [H10|H10].
  - cbn [app]. cbn [app] in Hd. rewrite Hd, Z.div_small, Z.mod_small by lia. done.
  - assert (0 < k)%nat as Hk' by (destruct k; [change (10 ^ Z.of_nat 1) with 10 in Hn; lia|lia]).
    rewrite IH; [|done|].
    + rewrite Hd. pose proof (Z.div_mod n 10 ltac:(lia)) as Hdm.
      assert (n / 10 / 10 ≤ n / 10) by (apply Z.div_le_upper_bound; lia).
      destruct (Z.ltb_spec (n / 10) max_secs).
      * rewrite (proj2 (Z.ltb_lt _ _)) by lia. f_equal. lia.
      * by destruct (n / 10 / 10 <? max_secs).
    + rewrite Nat2Z.inj_succ, Z.pow_succ_r in Hn by lia.
      split; [apply Z.div_pos; lia|apply Z.div_lt_upper_bound; lia].
Qed.

(** The value of a list of digits. *)
Definition digits_value (ds : list Z) : Z := foldl (λ a d, a * 10 + d) 0 ds.
Lemma foldl_digits ds a :
  foldl (λ a d, a * 10 + d) a ds = a * 10 ^ Z.of_nat (length ds) + digits_value ds.
Proof.
  unfold digits_value. revert a. induction ds as [|d ds IH]; intros a; cbn [foldl length].
  - change (Z.of_nat 0) with 0. lia.
  - rewrite IH, (IH (0 * 10 + d)), Nat2Z.inj_succ, Z.pow_succ_r by lia. lia.
Qed.

Lemma digits_value_bound ds :
  Forall (λ d, 0 ≤ d < 10) ds → 0 ≤ digits_value ds < 10 ^ Z.of_nat (length ds).
Proof.
  induction 1 as [|d ds Hd _ IH]; [done|]. unfold digits_value. cbn [foldl length].
  rewrite foldl_digits, Nat2Z.inj_succ, Z.pow_succ_r by lia.
  assert (0 < 10 ^ Z.of_nat (length ds)) by (apply Z.pow_pos_nonneg; lia). nia.
Qed.

(** [k] is the number of digits that still have a weight. *)
Lemma parse_fraction_digits pos ds insec (k : nat) param :
  Forall (λ d, 0 ≤ d < 10) ds →
  parse_fraction pos ((λ d, 48 + d) <$> ds) insec (10 ^ Z.of_nat k / 10) param
  = Ok (insec + digits_value ds * 10 ^ Z.of_nat k / 10 ^ Z.of_nat (length ds)).
Proof.
  intros Hds. revert insec k. induction Hds as [|d ds Hd Hds IH]; intros insec k.
  { cbn. f_equal. rewrite Z.div_1_r. lia. }
  cbn [fmap list_fmap parse_fraction length]. unfold is_digit.
  replace ((48 <=? 48 + d) && (48 + d <=? 57)) with true by lia. cbn [negb].
  replace (48 + d - 48) with d by lia.
  pose proof (digits_value_bound ds Hds) as Hv.
  assert (digits_value (d :: ds) = d * 10 ^ Z.of_nat (length ds) + digits_value ds) as ->.
  { unfold digits_value at 1. cbn [foldl]. rewrite foldl_digits. lia. }
  set (P := 10 ^ Z.of_nat (length ds)) in *. assert (0 < P) by (apply Z.pow_pos_nonneg; lia).
  rewrite Nat2Z.inj_succ, Z.pow_succ_r by lia. fold P. destruct k as [|j].
  - change (10 ^ Z.of_nat 0 / 10) with 0.
    specialize (IH (insec + d * 0) 0%nat). change (10 ^ Z.of_nat 0 / 10) with 0 in IH.
    change (0 / 10) with 0. rewrite IH. fold P. change (10 ^ Z.of_nat 0) with 1.
    rewrite !Z.mul_1_r. rewrite (Z.div_small (digits_value ds)) by lia.
    rewrite (Z.div_small (_ + _)) by nia. f_equal. lia.
  - rewrite Nat2Z.inj_succ, Z.pow_succ_r by lia. set (Q := 10 ^ Z.of_nat j) in *.
    replace (10 * Q / 10) with Q by (rewrite Z.mul_comm, Z.div_mul; lia).
    specialize (IH (insec + d * Q) j). fold P Q in IH. rewrite IH. f_equal.
    replace ((d * P + digits_value ds) * (10 * Q))
      with ((d * Q * P + digits_value ds * Q) * 10) by lia.
    rewrite (Z.mul_comm 10 P), Z.div_mul_cancel_r by lia.
    rewrite Z.div_add_l by lia. lia.
Qed.

Lemma parse_seconds_bounds pos s isec param isec' rest :
  0 ≤ isec ≤ LLONG_MAX → parse_seconds pos s isec param = Ok (isec', rest) →
  0 ≤ isec' ≤ LLONG_MAX.
Proof.
  revert isec. induction s as [|c s IH]; intros isec Hi; cbn [parse_seconds].
  - by intros [= <- <-].
  - destruct (_ || _); [by intros [= <- <-]|]. destruct (is_digit c) eqn:Hc; [|done].
    cbn [negb]. destruct (Z.leb_spec max_secs isec); [done|]. apply IH.
    unfold is_digit in Hc. unfold max_secs, LLONG_MAX in *.
    change ((2 ^ 63 - 1) / 10) with 922337203685477580 in *. lia.
Qed.

Lemma parse_fraction_bounds pos s insec (k : nat) param insec' :
  0 ≤ insec → parse_fraction pos s insec (10 ^ Z.of_nat k / 10) param = Ok insec' →
  0 ≤ insec' < insec + 10 ^ Z.of_nat k.
Proof.
  revert insec k. induction s as [|c s IH]; intros insec k Hi; cbn [parse_fraction].
  - intros [= <-]. assert (0 < 10 ^ Z.of_nat k) by (apply Z.pow_pos_nonneg; lia). lia.
  - destruct (is_digit c) eqn:Hc; [|done]. cbn [negb]. unfold is_digit in Hc.
    destruct k as [|j].
    + change (10 ^ Z.of_nat 0 / 10) with 0. change (0 / 10) with (10 ^ Z.of_nat 0 / 10).
      intros H. apply IH in H; lia.
    + rewrite Nat2Z.inj_succ, Z.pow_succ_r by lia. set (Q := 10 ^ Z.of_nat j) in *.
      assert (0 < Q) by (apply Z.pow_pos_nonneg; lia).
      replace (10 * Q / 10) with Q by (rewrite Z.mul_comm, Z.div_mul; lia).
      intros H'. apply (IH _ j) in H'; fold Q in H'; nia.
Qed.

Lemma parse_timespec_bounds pos s param ts :
  parse_timespec pos s param = Ok ts → normal ts ∧ 0 ≤ seconds ts ≤ LLONG_MAX.
Proof.
  unfold parse_timespec.
  destruct (parse_seconds pos s 0 param) as [[isec rest]|] eqn:Hs; [|done]. cbn [rbind].
  destruct (parse_fraction _ _ _ _ _) as [insec|] eqn:Hf; [|done]. intros [= <-].
  apply parse_seconds_bounds in Hs; [|done].
  change 100000000 with (10 ^ Z.of_nat 9 / 10) in Hf.
  apply parse_fraction_bounds in Hf; [|done]. unfold normal, NS. cbn. lia.
Qed.

(** A time in a setting is exact: for seconds [n] in decimal and the digits
    [ds] behind a decimal point or comma, the result is [n] seconds and the
    fraction in nanoseconds, digits beyond the ninth ignored; a number of seconds
    that could overflow is rejected.  And whatever the setting contains, a time
    that is accepted has a number of seconds that fits and less than a second
    of nanoseconds. *)
Theorem parse_timespec_correct pos n ds mark s param ts :
  0 ≤ n < 10 ^ 20 → Forall (λ d, 0 ≤ d < 10) ds → mark = DOT ∨ mark = 44 →
  parse_timespec pos (decimal 20 n ++ mark :: ((λ d, 48 + d) <$> ds)) param
  = (if n / 10 <? max_secs
     then Ok (Time_val n (digits_value ds * NS / 10 ^ Z.of_nat (length ds)))
     else Throw (Description_exc pos None (chars "too-large value for " ++ param)))
  ∧ (parse_timespec pos s param = Ok ts → normal ts ∧ 0 ≤ seconds ts ≤ LLONG_MAX).
Proof.
  intros Hn Hds Hmark. split.
  - unfold parse_timespec. rewrite parse_seconds_decimal by (done || cbn [Z.of_nat]; lia).
    destruct (n / 10 <? max_secs); [|done].
    assert (parse_seconds pos (mark :: ((λ d, 48 + d) <$> ds)) n param
      = Ok (n, (λ d, 48 + d) <$> ds)) as -> by (by destruct Hmark as [->| ->]).
    cbn [rbind]. change 100000000 with (10 ^ Z.of_nat 9 / 10).
    by rewrite parse_fraction_digits.
  - apply parse_timespec_bounds.
Qed.

Lemma parse_timespec_correct_witness :
  let s := chars "12.05" in
  parse_timespec (File_pos [] 1) s (chars "restart-delay") = Ok (Time_val 12 50000000)
  ∧ (parse_timespec (File_pos [] 1) s (chars "restart-delay") = Ok (Time_val 12 50000000) →
     normal (Time_val 12 50000000) ∧ 0 ≤ 12 ≤ LLONG_MAX).
Proof.
  apply (parse_timespec_correct (File_pos [] 1) 12 [0; 5] DOT (chars "12.05")
    (chars "restart-delay") (Time_val 12 50000000)); [by vm_compute| |by left].
  repeat constructor; by vm_compute.
Defined.
