(* ===== verification/VarSubst.v ===== *)
(** * Substitution of variables in setting values

    [value_var_subst] of [load-service.h].  The code edits a copy of the line and
    the offsets of its parts at the same time, with a running adjustment between
    the positions in the old and in the new line.  [var_resolve] is the look-up of
    a variable, [argval] the argument of the service. *)

From S2P Require Import Prelude Text SettingValue.

Definition npos : Z := 2 ^ 64 - 1.

(** [line.find('$', pos)] *)
Fixpoint find_char (c : Z) (s : text) (pos : Z) : Z :=
  match s with
  | d :: s => if d =? c then pos else find_char c s (pos + 1)
  | [] => npos
  end.
Definition find_dollar (line : text) (pos : Z) : Z :=
  find_char DOLLAR (drop (Z.to_nat pos) line) pos.

(** [line.substr(a, b - a)] *)
Definition between (a b : Z) (line : text) : text :=
  take (Z.to_nat (b - a)) (drop (Z.to_nat a) line).

Variant altmode_t := No_alt | Minus_alt | Plus_alt.

(** A reference to a variable: its name, or the argument of the service; whether
    its value is split into words; and the alternative of [${name:-text}]. *)
Record reference := Reference {
  ref_name : text;
  is_arg : bool;
  wsplit : bool;
  altmode : altmode_t;
  colon : bool;
  alt_text : text
}.

(** The text up to the closing brace or the end of the token, and the rest. *)
Fixpoint take_alt (k : nat) (s : text) : text * text :=
  match k, s with
  | S k, c :: s' =>
      if c =? RBRACE then ([], s)
      else let '(alt, rest) := take_alt k s' in (c :: alt, rest)
  | _, _ => ([], s)
  end.

(** The reference behind a dollar sign.  [s] is the line from there on, of which
    [k] characters belong to the token; the second result is the number of
    characters that the reference takes. *)
Definition parse_reference (setting : text) (k : nat) (s : text) : result (reference * Z) :=
  let len := length s in
  let wsplit := deref s =? SLASH in
  let s := if wsplit then tail s else s in
  let brace := deref s =? LBRACE in
  let s := if brace then tail s else s in
  let used (s : text) : nat := (len - length s)%nat in
  let '(name, s, is_arg) := read_config_name true (k - used s) s in
  if bool_decide (name = []) then
    Throw (Setting_exc setting (chars "invalid/missing variable name after '$'"))
  else if is_arg && negb (text_eqb name (chars "1")) then
    Throw (Setting_exc setting (chars "only one service argument may be present"))
  else if brace then
    let colon := deref s =? COLON in
    let s := if colon then tail s else s in
    if colon && negb (deref s =? PLUS) && negb (deref s =? MINUS) then
      Throw (Setting_exc setting (chars "invalid syntax in variable substitution"))
    else
      let mode :=
        if deref s =? PLUS then Plus_alt else if deref s =? MINUS then Minus_alt else No_alt in
      let '(alt, s) :=
        match mode with
        | No_alt => ([], s)
        | _ => take_alt (k - used (tail s)) (tail s)
        end in
      if negb (deref s =? RBRACE) then
        Throw (Setting_exc setting (chars "unmatched '{' in variable substitution"))
      else
        Ok (Reference name is_arg wsplit mode colon alt, Z.of_nat (used (tail s)))
  else Ok (Reference name is_arg wsplit No_alt false [], Z.of_nat (used s)).

Section subst.
Context (setting : text) (var_resolve : text → option text) (argval : option text).

(** The value of a reference. *)
Definition resolve (r : reference) : result text :=
  let resolved := if is_arg r then argval else var_resolve (ref_name r) in
  let view := default [] resolved in
  match altmode r with
  | Minus_alt =>
      Ok (match resolved with
          | None => alt_text r
          | Some v => if colon r && bool_decide (v = []) then alt_text r else view
          end)
  | Plus_alt =>
      Ok (match resolved with
          | Some v => if negb (colon r) || negb (bool_decide (v = [])) then alt_text r else view
          | None => view
          end)
  | No_alt =>
      if is_arg r && bool_decide (argval = None) then
        Throw (Setting_exc setting (chars "missing value in argument substitution"))
      else Ok view
  end.

(** ** The state of the loop

    [xpos] is the position in the old line to copy from, [dindx] that of the next
    dollar sign; [out] are the finished offsets; [first] is where the current part
    begins in the new line. *)
Record state := State {
  xpos : Z;
  r_line : text;
  offadj : Z;
  dindx : Z;
  out : offsets;
  first : Z;
  inhibit_collapse : bool;
  do_collapse : bool
}.
#[export] Instance eta_state : Eta state := λ s,
  State (xpos s) (r_line s) (offadj s) (dindx s) (out s) (first s) (inhibit_collapse s)
    (do_collapse s).
Implicit Types (st : state).

Definition r_len st : Z := Z.of_nat (length (r_line st)).
Definition too_long : load_exc :=
  Setting_exc setting (chars "value too long (after substitution)").

(** A new part begins behind a space that ends the current one. *)
Definition break_here (line_len_before : Z) st : state :=
  let line_len_after := r_len st + 1 in
  st <| out ::= (λ o, o ++ [(first st, r_len st)]) |> <| r_line ::= (λ r, r ++ [SPACE]) |>
     <| first := line_len_after |>
     <| offadj ::= (λ a, a + (line_len_after - line_len_before)) |>.

(** Word splitting: [v] is the rest of the value; the results are the state, the
    length before the last piece, and the last piece. *)
Fixpoint split_value (fuel : nat) (v : text) (line_len_before : Z) st
    : result (state * Z * text) :=
  match fuel with
  | O => Ok (st, line_len_before, v)
  | S fuel =>
      let wsp := find_ws v in
      if bool_decide (wsp = []) then Ok (st, line_len_before, v)
      else
        let chunk := take (length v - length wsp) v in
        let st := st <| r_line ::= (λ r, r ++ chunk) |> in
        if (first st =? r_len st) && negb (inhibit_collapse st) then
          split_value fuel (skip_ws wsp) line_len_before (st <| inhibit_collapse := false |>)
        else if INT_MAX <? r_len st + 1 then Throw too_long
        else
          split_value fuel (skip_ws wsp) (r_len st + 1)
            (break_here line_len_before st <| inhibit_collapse := false |>)
  end.

(** One turn of the inner loop: the dollar sign at [dindx st], in a token that
    ends at [second]. *)
Definition subst_dollar (line : text) (second : Z) st : result state :=
  let st := st <| r_line ::= (λ r, r ++ between (xpos st) (dindx st) line) |> in
  let behind := drop (Z.to_nat (dindx st + 1)) line in
  try! st :=
    if deref behind =? DOLLAR then
      Ok (st <| r_line ::= (λ r, r ++ [DOLLAR]) |> <| xpos := dindx st + 2 |>
             <| offadj ::= (λ a, a - 1) |>)
    else
      try! '(r, len) := parse_reference setting (Z.to_nat (second - (dindx st + 1))) behind in
      let line_len_before := r_len st in
      try! value := resolve r in
      let st := st <| xpos := dindx st + 1 + len |>
                   <| offadj ::= (λ a, a - (1 + len)) |> in
      try! '(st, line_len_before) :=
        if negb (wsplit r) then
          Ok (st <| inhibit_collapse := true |> <| do_collapse := false |>
                 <| r_line ::= (λ l, l ++ value) |>, line_len_before)
        else
          try! '(st, line_len_before, rest) := split_value (length value) value line_len_before st in
          Ok (st <| r_line ::= (λ l, l ++ rest) |>
                 <| do_collapse := negb (inhibit_collapse st) |>, line_len_before) in
      if INT_MAX <? r_len st then Throw too_long
      else Ok (st <| offadj ::= (λ a, a + (r_len st - line_len_before)) |>) in
  Ok (st <| dindx := find_dollar line (xpos st) |>).

(** The inner loop; every turn goes past a dollar sign of the line. *)
Fixpoint subst_token (fuel : nat) (line : text) (second : Z) st : result state :=
  match fuel with
  | O => Ok st
  | S fuel =>
      if dindx st <? second then
        try! st := subst_dollar line second st in
        subst_token fuel line second st
      else Ok st
  end.

(** The outer loop, on the offsets that are left; after a part the loop that skips
    the parts in front of the next dollar sign runs. *)
Fixpoint subst_tokens (line : text) (os : offsets) (skipping : bool) st : result state :=
  match os with
  | [] => Ok st
  | (a, b) :: os =>
      if skipping && (b <? dindx st) then
        subst_tokens line os true
          (st <| out ::= (λ o, o ++ [(a + offadj st, b + offadj st)]) |>)
      else
        let st := st <| first := a + offadj st |> <| inhibit_collapse := false |>
                     <| do_collapse := false |> in
        try! st := subst_token (S (length line)) line b st in
        let stop := b + offadj st in
        subst_tokens line os true
          (if do_collapse st && (first st =? stop) then st
           else st <| out ::= (λ o, o ++ [(first st, stop)]) |>)
  end.

Definition value_var_subst (line : text) (os : offsets) : result (text * offsets) :=
  let dindx := find_dollar line 0 in
  if dindx =? npos then Ok (line, os)
  else if INT_MAX <? Z.of_nat (length line) then Throw Length_error
  else
    try! st := subst_tokens line os false (State 0 [] 0 dindx [] 0 false false) in
    Ok (r_line st ++ drop (Z.to_nat (xpos st)) line, out st).

(** ** The specification: substitution in the text of one part

    [cur] is the word that is being built; it is kept if it is not empty, or if
    nothing that may vanish has been substituted in it. *)
Fixpoint split_words (v cur : text) (inhibit : bool) : list text * text * bool :=
  match v with
  | [] => ([], cur, inhibit)
  | c :: v =>
      if is_space c then
        let '(ws, last, inhibit') := split_words v [] false in
        (if bool_decide (cur = []) && negb inhibit then ws else cur :: ws, last, inhibit')
      else split_words v (cur ++ [c]) inhibit
  end.
(** What the dollar sign in front of [t] makes: the finished words, the current
    one, the two flags, and the rest of the text. *)
Definition expand_dollar (t cur : text) (inhibit collapse : bool)
    : result (list text * text * bool * bool * text) :=
  if deref t =? DOLLAR then Ok ([], cur ++ [DOLLAR], inhibit, collapse, tail t)
  else
    try! '(r, len) := parse_reference setting (length t) t in
    try! value := resolve r in
    let rest := drop (Z.to_nat len) t in
    if negb (wsplit r) then Ok ([], cur ++ value, true, false, rest)
    else
      let '(ws, cur, inhibit) := split_words value cur inhibit in
      Ok (ws, cur, inhibit, negb inhibit, rest).
Fixpoint expand_token (fuel : nat) (t cur : text) (inhibit collapse : bool)
    : result (list text) :=
  match fuel, t with
  | S fuel, c :: t' =>
      if c =? DOLLAR then
        try! '(ws, cur, inhibit, collapse, rest) := expand_dollar t' cur inhibit collapse in
        try! words := expand_token fuel rest cur inhibit collapse in
        Ok (ws ++ words)
      else expand_token fuel t' (cur ++ [c]) inhibit collapse
  | _, _ => Ok (if collapse && bool_decide (cur = []) then [] else [cur])
  end.
Definition expand (t : text) : result (list text) := expand_token (S (length t)) t [] false false.
Fixpoint expand_all (ts : list text) : result (list text) :=
  match ts with
  | [] => Ok []
  | t :: ts =>
      try! ws := expand t in
      try! words := expand_all ts in
      Ok (ws ++ words)
  end.
End subst.
