(* ===== verification/VarSubstProps.v ===== *)
(** * Substitution of variables: equivalence with its specification

    [value_var_subst] edits the whole line in one pass, with a running adjustment
    of the offsets.  The theorem shows that it computes, for every part, the words
    that [expand] makes of the text of that part alone. *)

From S2P Require Import Prelude Text SettingValue VarSubst.

(** ** The reference parser only looks at its token *)

(** What follows a token: the end of the line or the space that separates it. *)
Definition ends_token (sfx : text) : Prop := sfx = [] ∨ head sfx = Some SPACE.

Lemma deref_end s sfx c : ends_token sfx → c ≠ SPACE → c ≠ 0 →
  (deref (s ++ sfx) =? c) = (deref s =? c).
Proof.
  intros He Hs H0. destruct s as [|d s]; [|done]. cbn [app].
  destruct He as [->|He]; [done|]. unfold deref. rewrite He.
  change ((SPACE =? c) = (0 =? c)).
  rewrite (proj2 (Z.eqb_neq SPACE c)) by congruence.
  by rewrite (proj2 (Z.eqb_neq 0 c)) by congruence.
Qed.

Lemma digit_end s sfx : ends_token sfx → is_digit (deref (s ++ sfx)) = is_digit (deref s).
Proof.
  intros He. destruct s as [|d s]; [|done]. cbn [app].
  destruct He as [->|He]; [done|]. unfold deref. by rewrite He.
Qed.

Lemma head_is (s : text) c : (deref s =? c) = true → c ≠ 0 → s = c :: tail s.
Proof.
  intros H%Z.eqb_eq. unfold deref in H. destruct s as [|d s]; cbn in *; congruence.
Qed.

Lemma tail_end (s sfx : text) c : (deref s =? c) = true → c ≠ 0 →
  tail (s ++ sfx) = tail s ++ sfx.
Proof. intros H Hc. by rewrite (head_is s c H Hc). Qed.

(** A scanner that splits off a part of the token leaves the rest. *)
Definition suffix_of (s t : text) : Prop := (length s ≤ length t)%nat.

Lemma take_digits_end s sfx : ends_token sfx →
  take_digits (s ++ sfx) = ((take_digits s).1, (take_digits s).2 ++ sfx)
  ∧ (length (take_digits s).2 ≤ length s)%nat.
Proof.
  intros He. induction s as [|c s [IH IH']]; cbn [app take_digits].
  - split; [|done]. destruct He as [->|He]; [done|].
    destruct sfx as [|d sfx]; [done|]. injection He as ->. done.
  - destruct (is_digit c); [|done]. rewrite IH.
    destruct (take_digits s) as [name rest]. cbn in *. split; [done|lia].
Qed.

Lemma take_name_end env s sfx :
  take_name env (length s) (s ++ sfx)
    = ((take_name env (length s) s).1, (take_name env (length s) s).2 ++ sfx)
  ∧ (length (take_name env (length s) s).2 ≤ length s)%nat.
Proof.
  induction s as [|c s [IH IH']]; cbn [app length take_name].
  - done.
  - destruct (name_char env c); [|done]. rewrite IH.
    destruct (take_name env (length s) s) as [name rest]. cbn in *. split; [done|lia].
Qed.

Lemma read_config_name_end s sfx : ends_token sfx →
  let '(name, rest, is_arg) := read_config_name true (length s) s in
  read_config_name true (length s) (s ++ sfx) = (name, rest ++ sfx, is_arg)
  ∧ (length rest ≤ length s)%nat.
Proof.
  intros He. unfold read_config_name. rewrite digit_end by done.
  rewrite !deref_end by done. cbn [andb].
  destruct (is_digit (deref s)).
  - destruct (take_digits_end s sfx He) as [-> Hl]. by destruct (take_digits s).
  - destruct (_ || _ || _ || _); [done|].
    destruct (take_name_end true s sfx) as [-> Hl]. by destruct (take_name true (length s) s).
Qed.

Lemma take_alt_end s sfx :
  take_alt (length s) (s ++ sfx)
    = ((take_alt (length s) s).1, (take_alt (length s) s).2 ++ sfx)
  ∧ (length (take_alt (length s) s).2 ≤ length s)%nat
  ∧ (length (take_alt (length s) s).1 ≤ length s)%nat.
Proof.
  induction s as [|c s (IH & IH' & IH'')]; cbn [app length take_alt]; [done|].
  destruct (c =? RBRACE); [split; [done|cbn; lia]|]. rewrite IH.
  destruct (take_alt (length s) s) as [alt rest]. cbn in *. split; [done|lia].
Qed.

Lemma drop_char s sfx c : ends_token sfx → c ≠ SPACE → c ≠ 0 →
  (if deref (s ++ sfx) =? c then tail (s ++ sfx) else s ++ sfx)
    = (if deref s =? c then tail s else s) ++ sfx.
Proof.
  intros He Hs H0. rewrite deref_end by done.
  destruct (deref s =? c) eqn:E; [|done]. by rewrite (tail_end _ _ c).
Qed.

Lemma tail_length (s : text) : (length (tail s) ≤ length s)%nat.
Proof. destruct s; cbn; lia. Qed.

Lemma used_end (t s sfx : text) :
  (length (t ++ sfx) - length (s ++ sfx))%nat = (length t - length s)%nat.
Proof. rewrite !length_app. lia. Qed.

(** The alternative of a reference. *)
Lemma alternative_end (t s sfx : text) : (length s ≤ length t)%nat →
  let mode := if deref s =? PLUS then Plus_alt else if deref s =? MINUS then Minus_alt else No_alt in
  ∃ alt rest,
    match mode with
    | No_alt => ([], s)
    | _ => take_alt (length t - (length t - length (tail s))) (tail s)
    end = (alt, rest)
    ∧ match mode with
      | No_alt => ([], s ++ sfx)
      | _ => take_alt (length t - (length (t ++ sfx) - length (tail (s ++ sfx)))) (tail (s ++ sfx))
      end = (alt, rest ++ sfx)
    ∧ (length rest ≤ length s)%nat ∧ (length alt ≤ length t)%nat.
Proof.
  intros Hl mode.
  assert (mode ≠ No_alt → tail (s ++ sfx) = tail s ++ sfx) as Ht.
  { unfold mode. destruct (deref s =? PLUS) eqn:E1; [intros _; by apply (tail_end _ _ PLUS)|].
    destruct (deref s =? MINUS) eqn:E2; [intros _; by apply (tail_end _ _ MINUS)|done]. }
  pose proof (tail_length s).
  assert (length t - (length t - length (tail s)) = length (tail s))%nat as E by lia.
  destruct mode; [eexists [], s; repeat split; cbn; lia| |].
  all: rewrite Ht by done; rewrite used_end, E.
  all: destruct (take_alt_end (tail s) sfx) as (Ha & H1 & H2); rewrite Ha.
  all: destruct (take_alt (length (tail s)) (tail s)) as [alt rest]; cbn in *.
  all: exists alt, rest; repeat split; lia.
Qed.

(** The two results agree, and the reference lies in its token. *)
Lemma parse_reference_end setting t sfx : ends_token sfx →
  parse_reference setting (length t) (t ++ sfx) = parse_reference setting (length t) t
  ∧ ∀ r len, parse_reference setting (length t) t = Ok (r, len) →
      0 ≤ len ≤ Z.of_nat (length t) ∧ (length (alt_text r) ≤ length t)%nat.
Proof.
  intros He. unfold parse_reference. cbv beta zeta.
  rewrite (drop_char t sfx SLASH), (deref_end t sfx SLASH) by done.
  set (w := deref t =? SLASH). set (s1 := if w then tail t else t).
  assert (length s1 ≤ length t)%nat as H1
    by (unfold s1; destruct w; [apply tail_length|done]).
  rewrite (drop_char s1 sfx LBRACE), (deref_end s1 sfx LBRACE) by done.
  set (b := deref s1 =? LBRACE). set (s2 := if b then tail s1 else s1).
  assert (length s2 ≤ length s1)%nat as H2
    by (unfold s2; destruct b; [apply tail_length|done]).
  replace (length t - (length (t ++ sfx) - length (s2 ++ sfx)))%nat with (length s2)
    by (rewrite !length_app; lia).
  replace (length t - (length t - length s2))%nat with (length s2) by lia.
  pose proof (read_config_name_end s2 sfx He) as Hn.
  destruct (read_config_name true (length s2) s2) as [[name s3] is_arg].
  destruct Hn as [-> H3].
  destruct (bool_decide (name = [])); [split; [done|intros r len [=]]|].
  destruct (is_arg && _); [split; [done|intros r len [=]]|].
  destruct b.
  2: { split; [by rewrite (used_end t s3 sfx)|]. intros r len [= <- <-]. cbn. lia. }
  rewrite (drop_char s3 sfx COLON), (deref_end s3 sfx COLON) by done.
  set (c := deref s3 =? COLON). set (s4 := if c then tail s3 else s3).
  assert (length s4 ≤ length s3)%nat as H4
    by (unfold s4; destruct c; [apply tail_length|done]).
  rewrite (deref_end s4 sfx PLUS), (deref_end s4 sfx MINUS) by done.
  destruct (c && _ && _); [split; [done|intros r len [=]]|].
  destruct (alternative_end t s4 sfx) as (alt & s5 & Halt & Halt' & H5 & H6); [lia|].
  set (mode := if _ =? PLUS then Plus_alt else _) in *.
  rewrite Halt', Halt. rewrite (deref_end s5 sfx RBRACE) by done.
  destruct (deref s5 =? RBRACE) eqn:Eb; cbn [negb]; [|split; [done|intros r len [=]]].
  rewrite (tail_end s5 sfx RBRACE) by done. pose proof (tail_length s5).
  split; [by rewrite (used_end t (tail s5) sfx)|].
  intros r len [= <- <-]. cbn. lia.
Qed.

(** ** Word splitting *)

Lemma find_ws_split v : ∃ chunk,
  v = chunk ++ find_ws v ∧ Forall (λ c, is_space c = false) chunk
  ∧ (find_ws v = [] ∨ ∃ c s, find_ws v = c :: s ∧ is_space c = true).
Proof.
  induction v as [|c v (chunk & IH & Hc & Hw)]; cbn [find_ws]; [exists []; auto|].
  destruct (is_space c) eqn:E; [exists []; repeat split; eauto|].
  exists (c :: chunk). cbn [app]. repeat split; [by f_equal|by constructor|done].
Qed.

Lemma split_words_chunk chunk s cur inhibit : Forall (λ c, is_space c = false) chunk →
  split_words (chunk ++ s) cur inhibit = split_words s (cur ++ chunk) inhibit.
Proof.
  intros Hc. revert cur. induction Hc as [|c chunk E Hc IH]; intros cur; cbn [app split_words].
  - by rewrite app_nil_r.
  - by rewrite E, IH, <- app_assoc.
Qed.

Lemma split_words_skip s : split_words (skip_ws s) [] false = split_words s [] false.
Proof.
  induction s as [|c s IH]; cbn [skip_ws split_words]; [done|].
  destruct (is_space c) eqn:E.
  - rewrite IH. by destruct (split_words s [] false) as [[ws last] inh].
  - cbn [split_words]. by rewrite E.
Qed.

Lemma split_words_break chunk c s cur inhibit :
  Forall (λ c, is_space c = false) chunk → is_space c = true →
  split_words (chunk ++ c :: s) cur inhibit =
    let '(ws, last, inhibit') := split_words (skip_ws (c :: s)) [] false in
    (if bool_decide (cur ++ chunk = []) && negb inhibit then ws else (cur ++ chunk) :: ws,
     last, inhibit').
Proof.
  intros Hc Hsp. rewrite split_words_chunk by done. cbn [split_words skip_ws].
  by rewrite Hsp, split_words_skip.
Qed.

Lemma skip_ws_length s : (length (skip_ws s) ≤ length s)%nat.
Proof. induction s as [|c s IH]; cbn [skip_ws]; [done|]. destruct (is_space c); cbn in *; lia. Qed.

(** Offsets within the first [n] characters. *)
Definition within (n : nat) (os : offsets) : Prop :=
  Forall (λ o : Z * Z, 0 ≤ o.1 ≤ o.2 ∧ o.2 ≤ Z.of_nat n) os.

Lemma within_weaken n m os : (n ≤ m)%nat → within n os → within m os.
Proof. intros Hn. apply Forall_impl. lia. Qed.

Lemma part_prefix R R' os : R `prefix_of` R' → within (length R) os → part R' <$> os = part R <$> os.
Proof.
  intros [x ->] H. apply list_fmap_ext. intros i o Ho.
  pose proof (proj1 (Forall_lookup _ _) H i o Ho) as Hb. cbn in Hb. unfold part.
  rewrite drop_app_le by lia. by rewrite take_app_le by (rewrite length_drop; lia).
Qed.

Lemma part_last R (a : Z) : 0 ≤ a ≤ Z.of_nat (length R) →
  part R (a, Z.of_nat (length R)) = drop (Z.to_nat a) R.
Proof. intros Ha. unfold part. cbn [fst snd]. apply take_ge. rewrite length_drop. lia. Qed.

Lemma drop_empty (R : text) (a : Z) : 0 ≤ a ≤ Z.of_nat (length R) →
  bool_decide (drop (Z.to_nat a) R = []) = (a =? Z.of_nat (length R)).
Proof.
  intros Ha. apply Bool.eq_iff_eq_true. rewrite bool_decide_eq_true, Z.eqb_eq. split.
  - intros E%(f_equal length). rewrite length_drop in E. cbn in E. lia.
  - intros ->. apply drop_ge. lia.
Qed.

Section props.
Context (setting : text) (var_resolve : text → option text) (argval : option text).
Implicit Types (st : state).

(** What the splitting of the rest [v] of a value has done to the state: the words
    [ws] are finished, and the current one has become [cur]. *)
Definition splits (v : text) (llb : Z) st (ws : list text) (cur : text) (inhibit : bool)
    (r : result (state * Z * text)) : Prop :=
  ∃ st' llb' rest, r = Ok (st', llb', rest)
  ∧ let R := r_line st' ++ rest in
    r_line st `prefix_of` R
  ∧ (length R ≤ length (r_line st) + length v)%nat
  ∧ 0 ≤ first st' ≤ Z.of_nat (length R)
  ∧ drop (Z.to_nat (first st')) R = cur
  ∧ inhibit_collapse st' = inhibit
  ∧ part R <$> out st' = (part R <$> out st) ++ ws
  ∧ within (length R) (out st')
  ∧ offadj st' - llb' = offadj st - llb ∧ xpos st' = xpos st ∧ dindx st' = dindx st.

Lemma splits_last v llb st cur :
  0 ≤ first st ≤ r_len st → within (length (r_line st)) (out st) →
  cur = drop (Z.to_nat (first st)) (r_line st) →
  splits v llb st [] (cur ++ v) (inhibit_collapse st) (Ok (st, llb, v)).
Proof.
  unfold r_len. intros Hfirst Hout ->. exists st, llb, v. split; [done|]. cbn zeta.
  assert (r_line st `prefix_of` r_line st ++ v) as Hp by by exists v.
  rewrite (part_prefix _ _ _ Hp Hout), app_nil_r, length_app, drop_app_le by lia.
  repeat split; try done; [lia..|]. by eapply within_weaken; [|exact Hout]; lia.
Qed.

(** White space at the beginning of a word is dropped. *)
Lemma splits_trim (chunk v v' : text) llb st ws cur inhibit r :
  splits v' llb (st <| r_line ::= (λ r, r ++ chunk) |> <| inhibit_collapse := false |>)
    ws cur inhibit r →
  (length chunk + length v' ≤ length v)%nat → within (length (r_line st)) (out st) →
  splits v llb st ws cur inhibit r.
Proof.
  intros (st' & llb' & rest & -> & Hs) Hl Hout. exists st', llb', rest. split; [done|].
  cbn zeta in *. rsimpl_in Hs. destruct Hs as (Hp & Hn & Hf & Hc & Hi & Hw & Hin & Ho & Hx & Hd).
  assert (r_line st `prefix_of` r_line st' ++ rest) as Hp'
    by (etransitivity; [|exact Hp]; by exists chunk).
  rewrite (length_app (r_line st)) in Hn. repeat split; try done; lia.
Qed.

(** A word ends. *)
Lemma splits_break (chunk v v' : text) llb st ws cur inhibit r :
  let st1 := st <| r_line ::= (λ r, r ++ chunk) |> in
  splits v' (r_len st1 + 1) (break_here llb st1 <| inhibit_collapse := false |>) ws cur inhibit r →
  (length chunk + 1 + length v' ≤ length v)%nat →
  0 ≤ first st ≤ r_len st → within (length (r_line st)) (out st) →
  splits v llb st ((drop (Z.to_nat (first st)) (r_line st) ++ chunk) :: ws) cur inhibit r.
Proof.
  intros st1 (st' & llb' & rest & -> & Hs) Hl Hfirst Hout. exists st', llb', rest. split; [done|].
  cbn zeta in *. unfold break_here, st1, r_len in *. rsimpl_in Hs.
  destruct Hs as (Hp & Hn & Hf & Hc & Hi & Hw & Hin & Ho & Hx & Hd).
  rewrite (length_app (_ ++ _)), (length_app (r_line st)) in Hn. cbn [length] in Hn.
  assert (r_line st ++ chunk `prefix_of` r_line st' ++ rest) as Hp'
    by (etransitivity; [|exact Hp]; by exists [SPACE]).
  assert (r_line st `prefix_of` r_line st' ++ rest) as Hp''
    by (etransitivity; [|exact Hp']; by exists chunk).
  assert (part (r_line st' ++ rest) <$> [(first st, Z.of_nat (length (r_line st ++ chunk)))]
    = [drop (Z.to_nat (first st)) (r_line st) ++ chunk]) as Hword.
  { rewrite (part_prefix _ _ _ Hp'); cbn [fmap list_fmap].
    - rewrite part_last by (rewrite length_app; lia). by rewrite drop_app_le by lia.
    - apply Forall_singleton. cbn. rewrite length_app. lia. }
  rewrite fmap_app, Hword, <- app_assoc in Hw.
  repeat split; try done; lia.
Qed.

Lemma split_value_splits fuel v llb st :
  (length v ≤ fuel)%nat → 0 ≤ first st ≤ r_len st → within (length (r_line st)) (out st) →
  r_len st + Z.of_nat (length v) ≤ INT_MAX →
  let '(ws, cur, inhibit) :=
    split_words v (drop (Z.to_nat (first st)) (r_line st)) (inhibit_collapse st) in
  splits v llb st ws cur inhibit (split_value setting fuel v llb st).
Proof.
  revert v llb st. induction fuel as [|fuel IH]; intros v llb st Hf Hfirst Hout Hmax.
  { destruct v; [|cbn in Hf; lia]. cbn.
    rewrite <- (app_nil_r (drop _ _)). by apply splits_last. }
  destruct (find_ws_split v) as (chunk & Hv & Hc & Hw). cbn [split_value].
  set (wsp := find_ws v) in *. destruct Hw as [E|(c & s & E & Hsp)].
  { rewrite bool_decide_true by done. rewrite E, app_nil_r in Hv. rewrite Hv.
    rewrite <- (app_nil_r chunk), split_words_chunk, app_nil_r by done.
    cbn [split_words]. by apply splits_last. }
  rewrite bool_decide_false by (by rewrite E).
  replace (take (length v - length wsp) v) with chunk.
  2: { rewrite Hv. rewrite length_app, Nat.add_sub. by rewrite take_app_length. }
  cbn zeta. set (st1 := st <| r_line ::= _ |>).
  assert (r_line st1 = r_line st ++ chunk) as Hr by done.
  assert (r_len st1 = r_len st + Z.of_nat (length chunk)) as Hlen
    by (unfold r_len; rewrite Hr, length_app; lia).
  assert (length (skip_ws wsp) ≤ length s)%nat as Hs
    by (rewrite E; cbn [skip_ws]; rewrite Hsp; apply skip_ws_length).
  assert (length v = length chunk + S (length s))%nat as Hvl
    by (rewrite Hv, E, length_app; done).
  assert (drop (Z.to_nat (first st)) (r_line st) ++ chunk
    = drop (Z.to_nat (first st)) (r_line st1)) as Hcur
    by (rewrite Hr; unfold r_len in Hfirst; by rewrite drop_app_le by lia).
  pose proof (split_words_break chunk c s (drop (Z.to_nat (first st)) (r_line st))
    (inhibit_collapse st) Hc Hsp) as Hb.
  rewrite <- E, <- Hv, Hcur in Hb. rewrite Hb.
  rewrite drop_empty by (fold (r_len st1); lia). fold (r_len st1).
  assert (within (length (r_line st1)) (out st)) as Hout1
    by (eapply within_weaken; [|exact Hout]; rewrite Hr, length_app; lia).
  change (first st1) with (first st). change (inhibit_collapse st1) with (inhibit_collapse st).
  destruct ((first st =? r_len st1) && negb (inhibit_collapse st)) eqn:Etrim.
  - apply andb_true_iff in Etrim as [Ef _]. apply Z.eqb_eq in Ef.
    specialize (IH (skip_ws wsp) llb (st1 <| inhibit_collapse := false |>)).
    unfold r_len in IH. rsimpl_in IH. change (first st1) with (first st) in IH.
    change (out st1) with (out st) in IH. fold (r_len st1) in IH.
    rewrite drop_ge in IH by (unfold r_len in *; lia).
    destruct (split_words (skip_ws wsp) [] false) as [[ws cur] inhibit].
    apply (splits_trim chunk v (skip_ws wsp)); [|lia|done]. apply IH; [lia..|done|lia].
  - rewrite (proj2 (Z.ltb_ge _ _)) by lia.
    specialize (IH (skip_ws wsp) (r_len st1 + 1)
      (break_here llb st1 <| inhibit_collapse := false |>)).
    unfold break_here, r_len in IH. rsimpl_in IH. change (first st1) with (first st) in IH.
    change (out st1) with (out st) in IH. rewrite length_app in IH. fold (r_len st1) in IH.
    rewrite drop_ge in IH by (unfold r_len in *; rewrite length_app; cbn; lia).
    destruct (split_words (skip_ws wsp) [] false) as [[ws cur] inhibit].
    rewrite <- Hcur.
    apply (splits_break chunk v (skip_ws wsp)); [|lia|done..].
    apply IH; [lia| | |].
    + unfold r_len in *. cbn [length]. lia.
    + apply Forall_app. split.
      * eapply within_weaken; [|exact Hout1]. lia.
      * apply Forall_singleton. cbn. unfold r_len in *. lia.
    + unfold r_len in *. cbn [length]. lia.
Qed.

(** ** Parts *)

(** The parts of the text [s] that begins at [pos]: each is separated from the next
    by a space, and there is no dollar sign between them. *)
Inductive tokens_at (pos : Z) : text → offsets → list text → Prop :=
| tokens_none s : tokens_at pos s [] []
| tokens_more gap t s os ts :
    Forall (λ c, c ≠ DOLLAR) gap → ends_token s →
    tokens_at (pos + Z.of_nat (length gap) + Z.of_nat (length t)) s os ts →
    tokens_at pos (gap ++ t ++ s)
      ((pos + Z.of_nat (length gap), pos + Z.of_nat (length gap) + Z.of_nat (length t)) :: os)
      (t :: ts).

Lemma find_char_beyond c s s' pos :
  pos + Z.of_nat (length s) < find_char c (s ++ s') pos → Forall (λ d, d ≠ c) s.
Proof.
  revert pos. induction s as [|d s IH]; intros pos; cbn [app find_char length]; [constructor|].
  destruct (d =? c) eqn:E; [lia|]. intros H. constructor; [by apply Z.eqb_neq|].
  apply (IH (pos + 1)). lia.
Qed.

Lemma expand_plain t : Forall (λ c, c ≠ DOLLAR) t → expand setting var_resolve argval t = Ok [t].
Proof.
  intros Ht. unfold expand. rewrite <- (app_nil_l t) at 3. generalize (@nil Z) as cur.
  generalize (S (length t)) (Nat.lt_succ_diag_r (length t)).
  induction Ht as [|c t Hc Ht IH]; intros n Hn cur; destruct n as [|n]; cbn in Hn; [lia| |lia|].
  - by rewrite app_nil_r.
  - cbn [expand_token]. rewrite (proj2 (Z.eqb_neq _ _)) by done.
    rewrite IH by lia. by rewrite <- app_assoc.
Qed.

(** Without a dollar sign nothing is done. *)
Lemma expand_all_plain pos s os ts :
  tokens_at pos s os ts → Forall (λ c, c ≠ DOLLAR) s →
  expand_all setting var_resolve argval ts = Ok ts.
Proof.
  induction 1 as [|pos gap t s os ts Hgap He Ht IH]; cbn [expand_all]; [done|].
  rewrite !Forall_app. intros (_ & Hd & Hs). by rewrite expand_plain, IH.
Qed.
(** ** One token

    [pre] is the part of the line [L] that has been gone through.  [vtext] is the
    new text for it: what is in the new line already, and what will be copied. *)
Context (L : text) (K : Z).
Hypothesis (HK : 1 ≤ K) (HLK : Z.of_nat (length L) ≤ K)
  (Hmax : Z.of_nat (length L) * K ≤ INT_MAX)
  (Hvars : ∀ name v, var_resolve name = Some v → Z.of_nat (length v) ≤ K)
  (Harg : ∀ v, argval = Some v → Z.of_nat (length v) ≤ K).

Definition vtext (pre : text) st : text := r_line st ++ drop (Z.to_nat (xpos st)) pre.

Record at_pos (pre : text) st : Prop := {
  at_x : 0 ≤ xpos st ≤ Z.of_nat (length pre);
  at_adj : offadj st = r_len st - xpos st;
  at_dollar : dindx st = find_dollar L (Z.of_nat (length pre));
  at_first : 0 ≤ first st ≤ Z.of_nat (length (vtext pre st));
  at_out : within (length (vtext pre st)) (out st);
  at_len : Z.of_nat (length (vtext pre st)) ≤ Z.of_nat (length pre) * K
}.

Definition current (pre : text) st : text := drop (Z.to_nat (first st)) (vtext pre st).

(** From [pre] to [pre'], with the words [ws] finished on the way. *)
Definition advances (pre : text) st (pre' : text) st' (ws : list text) : Prop :=
  at_pos pre' st' ∧ vtext pre st `prefix_of` vtext pre' st'
  ∧ part (vtext pre' st') <$> out st' = (part (vtext pre st) <$> out st) ++ ws.

Lemma vtext_length pre st : at_pos pre st →
  Z.of_nat (length (vtext pre st)) = Z.of_nat (length pre) + offadj st.
Proof.
  intros [Hx -> _ _ _ _]. unfold vtext, r_len. rewrite length_app, length_drop. lia.
Qed.

Lemma advances_trans pre1 st1 pre2 st2 pre3 st3 ws1 ws2 :
  advances pre1 st1 pre2 st2 ws1 → advances pre2 st2 pre3 st3 ws2 →
  advances pre1 st1 pre3 st3 (ws1 ++ ws2).
Proof.
  intros (_ & Hp1 & Hw1) (Ha & Hp2 & Hw2). split; [done|]. split; [by etransitivity|].
  by rewrite Hw2, Hw1, app_assoc.
Qed.

Lemma resolve_length r v (t : text) : resolve setting var_resolve argval r = Ok v →
  (length (alt_text r) ≤ length t)%nat → (length t ≤ length L)%nat →
  Z.of_nat (length v) ≤ K.
Proof.
  intros Hr Ht HtL. assert (Z.of_nat (length (alt_text r)) ≤ K) as Halt by lia.
  unfold resolve in Hr.
  set (resolved := if is_arg r then argval else var_resolve (ref_name r)) in *.
  assert (Z.of_nat (length (default [] resolved)) ≤ K) as Hd.
  { destruct resolved as [w|] eqn:E; [|cbn; lia]. unfold resolved in E. cbn [default].
    destruct (is_arg r); [by apply Harg|by eapply Hvars]. }
  destruct (altmode r).
  - destruct (is_arg r && _); [done|]. by injection Hr as <-.
  - injection Hr as <-. destruct resolved; [|done]. by destruct (colon r && _).
  - injection Hr as <-. destruct resolved; [|done]. by destruct (negb (colon r) || _).
Qed.

(** A character that is not a dollar sign is copied. *)
Lemma find_dollar_at pre s : L = pre ++ s →
  find_dollar L (Z.of_nat (length pre)) = find_char DOLLAR s (Z.of_nat (length pre)).
Proof. intros ->. unfold find_dollar. by rewrite Nat2Z.id, drop_app_length. Qed.

Lemma vtext_literal pre s st : at_pos pre st → vtext (pre ++ s) st = vtext pre st ++ s.
Proof.
  intros [Hx _ _ _ _ _]. unfold vtext. rewrite drop_app_le by lia. by rewrite app_assoc.
Qed.

Lemma advances_literal pre s sfx st : at_pos pre st → L = pre ++ s ++ sfx →
  Forall (λ c, c ≠ DOLLAR) s → advances pre st (pre ++ s) st [].
Proof.
  intros Ha HL Hs. pose proof (vtext_literal pre s st Ha) as Hv.
  destruct Ha as [Hx Hadj Hd Hf Ho Hl].
  assert (vtext pre st `prefix_of` vtext (pre ++ s) st) as Hp by (rewrite Hv; by exists s).
  split; [|split; [done|by rewrite (part_prefix _ _ _ Hp Ho), app_nil_r]].
  split; [rewrite length_app; lia|done| | | |].
  - rewrite Hd, (find_dollar_at pre (s ++ sfx)) by done.
    rewrite (find_dollar_at (pre ++ s) sfx) by (by rewrite <- app_assoc).
    rewrite length_app, Nat2Z.inj_add. clear - Hs. generalize (Z.of_nat (length pre)) as k.
    induction Hs as [|c s Hc Hs IH]; intros k; cbn [app find_char length]; [f_equal; lia|].
    rewrite (proj2 (Z.eqb_neq _ _)) by done. rewrite IH. f_equal. lia.
  - rewrite Hv, length_app. lia.
  - eapply within_weaken; [|exact Ho]. rewrite Hv, length_app. lia.
  - rewrite Hv, !length_app. nia.
Qed.

(** After a reference everything is in the new line. *)
Lemma vtext_all pre st : xpos st = Z.of_nat (length pre) → vtext pre st = r_line st.
Proof. intros Hx. unfold vtext. by rewrite Hx, Nat2Z.id, drop_ge, app_nil_r. Qed.

Lemma advances_dollar pre used st st' ws :
  at_pos pre st →
  xpos st' = Z.of_nat (length (pre ++ DOLLAR :: used)) → dindx st' = find_dollar L (xpos st') →
  offadj st' = r_len st' - xpos st' → 0 ≤ first st' ≤ r_len st' →
  vtext pre st `prefix_of` r_line st' → r_len st' ≤ Z.of_nat (length (vtext pre st)) + K →
  within (length (r_line st')) (out st') →
  part (r_line st') <$> out st' = (part (vtext pre st) <$> out st) ++ ws →
  advances pre st (pre ++ DOLLAR :: used) st' ws.
Proof.
  intros Ha Hx Hd Hadj Hf Hp Hl Ho Hw. unfold advances. rewrite (vtext_all _ st') by done.
  split; [|done]. split; rewrite ?(vtext_all _ st') by done; try done.
  - lia.
  - by rewrite <- Hx.
  - pose proof (at_len _ _ Ha). unfold r_len in *. rewrite length_app. cbn [length].
    set (n := length (vtext pre st)) in *. nia.
Qed.

(** Text is added to the current word. *)
Lemma advances_plain pre used x st st' :
  at_pos pre st →
  xpos st' = Z.of_nat (length (pre ++ DOLLAR :: used)) → dindx st' = find_dollar L (xpos st') →
  offadj st' = offadj st + Z.of_nat (length x) - Z.of_nat (S (length used)) →
  first st' = first st → out st' = out st → r_line st' = vtext pre st ++ x →
  Z.of_nat (length x) ≤ K →
  advances pre st (pre ++ DOLLAR :: used) st' []
  ∧ current (pre ++ DOLLAR :: used) st' = current pre st ++ x.
Proof.
  intros Ha Hx Hd Hadj Hf Ho Hr Hl. pose proof (at_first _ _ Ha) as Hfirst.
  pose proof (vtext_length pre st Ha) as Hvl.
  assert (vtext pre st `prefix_of` r_line st') as Hp by (rewrite Hr; by exists x).
  split.
  - apply advances_dollar; try done.
    + rewrite Hadj, Hx. unfold r_len. rewrite Hr, !length_app. cbn [length]. lia.
    + rewrite Hf. unfold r_len. rewrite Hr, length_app. lia.
    + unfold r_len. rewrite Hr, length_app. lia.
    + rewrite Ho. eapply within_weaken; [|exact (at_out _ _ Ha)]. rewrite Hr, length_app. lia.
    + by rewrite Ho, (part_prefix _ _ _ Hp (at_out _ _ Ha)), app_nil_r.
  - unfold current. rewrite (vtext_all _ st') by done. rewrite Hf, Hr. by rewrite drop_app_le by lia.
Qed.

(** The value is split. *)
Lemma advances_split pre used v st st1 st' llb' rest ws cur inhibit :
  at_pos pre st → r_line st1 = vtext pre st → first st1 = first st → out st1 = out st →
  xpos st1 = Z.of_nat (length (pre ++ DOLLAR :: used)) →
  offadj st1 = offadj st - Z.of_nat (S (length used)) → Z.of_nat (length v) ≤ K →
  splits v (r_len st1) st1 ws cur inhibit (Ok (st', llb', rest)) →
  ∀ st2, r_line st2 = r_line st' ++ rest → first st2 = first st' → out st2 = out st' →
  xpos st2 = xpos st' → dindx st2 = find_dollar L (xpos st2) →
  offadj st2 = offadj st' + (r_len st2 - llb') →
  advances pre st (pre ++ DOLLAR :: used) st2 ws
  ∧ current (pre ++ DOLLAR :: used) st2 = cur ∧ inhibit_collapse st' = inhibit
  ∧ r_len st2 ≤ Z.of_nat (length (vtext pre st)) + K.
Proof.
  intros Ha Hr Hf Ho Hx Hadj Hl (? & ? & ? & [= <- <- <-] & Hs) st2 Hr2 Hf2 Ho2 Hx2 Hd2 Hadj2.
  cbn zeta in Hs. rewrite <- Hr2, Hr, Ho in Hs.
  destruct Hs as (Hp & Hn & Hfirst & Hc & Hi & Hw & Hin & Hoff & Hxx & _).
  pose proof (vtext_length pre st Ha) as Hvl.
  assert (xpos st2 = Z.of_nat (length (pre ++ DOLLAR :: used))) as Hx3 by congruence.
  assert (r_len st2 ≤ Z.of_nat (length (vtext pre st)) + K) as Hr3 by (unfold r_len; lia).
  split; [|split; [|done]].
  - apply advances_dollar; try done.
    + rewrite Hadj2, Hx3. unfold r_len in *. rewrite Hr in Hoff.
      rewrite length_app. cbn [length]. lia.
    + unfold r_len. by rewrite Hf2.
    + by rewrite Ho2.
    + by rewrite Ho2, Hw, (part_prefix _ _ _ Hp (at_out _ _ Ha)).
  - unfold current. rewrite (vtext_all _ st2) by done. by rewrite Hf2.
Qed.

Lemma subst_dollar_expands pre t sfx st :
  at_pos pre st → L = pre ++ DOLLAR :: t ++ sfx → ends_token sfx →
  match expand_dollar setting var_resolve argval t (current pre st) (inhibit_collapse st)
          (do_collapse st) with
  | Throw e =>
      subst_dollar setting var_resolve argval L (Z.of_nat (length (pre ++ DOLLAR :: t))) st = Throw e
  | Ok (ws, cur, inhibit, collapse, rest) =>
      ∃ st' used, t = used ++ rest
      ∧ subst_dollar setting var_resolve argval L (Z.of_nat (length (pre ++ DOLLAR :: t))) st = Ok st'
      ∧ advances pre st (pre ++ DOLLAR :: used) st' ws
      ∧ current (pre ++ DOLLAR :: used) st' = cur
      ∧ inhibit_collapse st' = inhibit ∧ do_collapse st' = collapse
  end.
Proof.
  intros Ha HL He. unfold subst_dollar, expand_dollar.
  assert (dindx st = Z.of_nat (length pre)) as Hd.
  { rewrite (at_dollar _ _ Ha), (find_dollar_at pre (DOLLAR :: t ++ sfx)) by done. done. }
  assert (drop (Z.to_nat (dindx st + 1)) L = t ++ sfx) as Hbehind.
  { rewrite Hd, HL. replace (Z.to_nat (Z.of_nat (length pre) + 1)) with (length pre + 1)%nat by lia.
    by rewrite <- drop_drop, drop_app_length. }
  assert (r_line st ++ between (xpos st) (dindx st) L = vtext pre st) as Hcopy.
  { unfold vtext, between. f_equal. rewrite HL, Hd. pose proof (at_x _ _ Ha).
    rewrite drop_app_le by lia. rewrite take_app_le by (rewrite length_drop; lia).
    apply take_ge. rewrite length_drop. lia. }
  cbv zeta. rsimpl. rewrite Hbehind, deref_end by done.
  set (st1 := st <| r_line ::= _ |>).
  assert (r_line st1 = vtext pre st) as Hr by done.
  replace (Z.to_nat (Z.of_nat (length (pre ++ DOLLAR :: t)) - (dindx st + 1))) with (length t)
    by (rewrite Hd, length_app; cbn [length]; lia).
  pose proof (vtext_length pre st Ha) as Hvl.
  destruct (deref t =? DOLLAR) eqn:E.
  - pose proof (head_is t DOLLAR E) as Ht.
    cbn [rbind]. eexists _, [DOLLAR]. split; [by rewrite Ht by done|]. split; [done|].
    match goal with |- advances _ _ _ ?s _ ∧ _ => set (st' := s) end.
    destruct (advances_plain pre [DOLLAR] [DOLLAR] st st' Ha) as [Hadv ->]; try done.
    + unfold st'. rsimpl. rewrite Hd, length_app. cbn [length]. lia.
    + unfold st'. rsimpl. unfold st1. rsimpl. cbn [length]. lia.
    + unfold st'. rsimpl. by rewrite Hr.
  - destruct (parse_reference_end setting t sfx He) as [-> Hp].
    destruct (parse_reference setting (length t) t) as [[r len]|e] eqn:Er; [|done].
    destruct (Hp r len eq_refl) as [Hlen Halt]. cbn [rbind].
    destruct (resolve setting var_resolve argval r) as [v|e] eqn:Ev; [|done]. cbn [rbind].
    pose proof (resolve_length r v t Ev Halt) as Hv.
    assert (length t ≤ length L)%nat as HtL by (rewrite HL, length_app; cbn; rewrite length_app; lia).
    specialize (Hv HtL).
    assert (Z.of_nat (length (vtext pre st)) + K ≤ INT_MAX) as Hroom.
    { pose proof (at_len _ _ Ha). rewrite HL, length_app in Hmax. cbn [length] in Hmax. nia. }
    set (used := take (Z.to_nat len) t).
    assert (length used = Z.to_nat len) as Hused by (unfold used; rewrite length_take; lia).
    assert (t = used ++ drop (Z.to_nat len) t) as Ht by (unfold used; by rewrite take_drop).
    destruct (wsplit r); cbn [negb].
    + set (st2 := st1 <| xpos := _ |> <| offadj ::= _ |>).
      assert (r_len st1 = Z.of_nat (length (vtext pre st))) as Hr1 by (unfold r_len; by rewrite Hr).
      pose proof (split_value_splits (length v) v (r_len st1) st2) as Hs.
      unfold r_len, current in Hs |- *. change (r_line st2) with (r_line st1) in Hs.
      change (first st2) with (first st) in Hs. change (out st2) with (out st) in Hs.
      change (inhibit_collapse st2) with (inhibit_collapse st) in Hs. rewrite Hr in Hs |- *.
      destruct (split_words v _ _) as [[ws cur] inhibit].
      destruct Hs as (st3 & llb & rest & Hs & Hs'); [done|apply (at_first _ _ Ha)|apply (at_out _ _ Ha)|lia|].
      rewrite Hs. cbn [rbind].
      set (st4 := st3 <| r_line ::= _ |> <| do_collapse := _ |>).
      set (st5 := st4 <| offadj ::= (λ a, a + (Z.of_nat (length (r_line st4)) - llb)) |>
                     <| dindx := find_dollar L (xpos st4) |>).
      destruct (advances_split pre used v st st2 st3 llb rest ws cur inhibit Ha) with (st2 := st5)
        as (Hadv & Hcur & Hi & Hl5); try done.
      * unfold st2. rsimpl. rewrite Hd, length_app. cbn [length]. lia.
      * unfold st2. rsimpl. unfold st1. rsimpl. lia.
      * exists st3, llb, rest. split; [done|]. rewrite <- Hr in Hs'. exact Hs'.
      * rewrite (proj2 (Z.ltb_ge _ _)) by (change (r_line st4) with (r_line st5); unfold r_len in Hl5; lia).
        exists st5, used. repeat split; try done; [apply Hadv..|].
        change (negb (inhibit_collapse st3) = negb inhibit). by rewrite Hi.
    + cbn [rbind]. rewrite (proj2 (Z.ltb_ge _ _)).
      2: { unfold r_len. rsimpl. rewrite Hr, length_app. lia. }
      eexists _, used. split; [exact Ht|]. split; [done|].
      match goal with |- advances _ _ _ ?s _ ∧ _ => set (st' := s) end.
      destruct (advances_plain pre used v st st' Ha) as [Hadv ->]; try done.
      * unfold st'. rsimpl. rewrite Hd, length_app. cbn [length]. lia.
      * unfold st', st1, r_len. rsimpl. rewrite (length_app _ v). lia.
      * unfold st'. rsimpl. by rewrite Hr.
Qed.

Lemma find_char_lower c s pos : Z.min pos npos ≤ find_char c s pos.
Proof.
  revert pos. induction s as [|d s IH]; intros pos; cbn [find_char]; [lia|].
  destruct (d =? c); [lia|]. specialize (IH (pos + 1)). lia.
Qed.

Lemma at_pos_dollar pre t st : at_pos pre st → L = pre ++ t → Z.of_nat (length pre) ≤ dindx st.
Proof.
  intros Ha HL. rewrite (at_dollar _ _ Ha), (find_dollar_at pre t) by done.
  pose proof (find_char_lower DOLLAR t (Z.of_nat (length pre))).
  assert (Z.of_nat (length pre) ≤ npos); [|lia].
  rewrite HL, length_app in Hmax. unfold INT_MAX, npos in *. nia.
Qed.

Lemma current_literal pre s st : at_pos pre st → current (pre ++ s) st = current pre st ++ s.
Proof.
  intros Ha. unfold current. rewrite vtext_literal by done. pose proof (at_first _ _ Ha).
  by rewrite drop_app_le by lia.
Qed.

Lemma subst_token_expands n pre t sfx fuel st :
  (length t < n)%nat → (length t < fuel)%nat → at_pos pre st → L = pre ++ t ++ sfx →
  ends_token sfx →
  match expand_token setting var_resolve argval n t (current pre st) (inhibit_collapse st)
          (do_collapse st) with
  | Throw e =>
      subst_token setting var_resolve argval fuel L (Z.of_nat (length (pre ++ t))) st = Throw e
  | Ok words =>
      ∃ st' ws,
        subst_token setting var_resolve argval fuel L (Z.of_nat (length (pre ++ t))) st = Ok st'
      ∧ advances pre st (pre ++ t) st' ws
      ∧ words = ws ++ (if do_collapse st' && bool_decide (current (pre ++ t) st' = []) then []
                       else [current (pre ++ t) st'])
  end.
Proof.
  revert pre t fuel st. induction n as [|n IH]; intros pre t fuel st Hn Hf Ha HL He; [lia|].
  destruct t as [|c t]; cbn [expand_token length] in *.
  { exists st, []. rewrite app_nil_r. split; [|split; [|done]].
    - destruct fuel; cbn [subst_token]; [done|].
      by rewrite (proj2 (Z.ltb_ge _ _)) by (by eapply at_pos_dollar).
    - split; [done|]. split; [done|]. by rewrite app_nil_r. }
  assert (pre ++ c :: t = (pre ++ [c]) ++ t) as Hpre by by rewrite <- app_assoc.
  destruct (c =? DOLLAR) eqn:Ec.
  - apply Z.eqb_eq in Ec as ->. destruct fuel as [|fuel]; [lia|].
    assert (dindx st = Z.of_nat (length pre)) as Hd.
    { rewrite (at_dollar _ _ Ha), (find_dollar_at pre (DOLLAR :: t ++ sfx)) by done. done. }
    cbn [subst_token].
    rewrite (proj2 (Z.ltb_lt _ _)) by (rewrite Hd, length_app; cbn [length]; lia).
    pose proof (subst_dollar_expands pre t sfx st Ha HL He) as Hstep.
    destruct (expand_dollar _ _ _ _ _ _ _) as [[[[[ws cur] inh] coll] rest]|e]; cbn [rbind].
    2: by rewrite Hstep.
    destruct Hstep as (st1 & used & Ht & -> & Hadv & <- & <- & <-). cbn [rbind].
    assert (length rest ≤ length t)%nat as Hrest by (rewrite Ht, length_app; lia).
    assert (pre ++ DOLLAR :: t = (pre ++ DOLLAR :: used) ++ rest) as Hpre'
      by (rewrite Ht, <- app_assoc; done).
    specialize (IH (pre ++ DOLLAR :: used) rest fuel st1 ltac:(lia) ltac:(lia) (proj1 Hadv)).
    rewrite Hpre'. destruct (expand_token _ _ _ n rest _ _ _) as [words|e]; cbn [rbind].
    + destruct IH as (st2 & ws2 & -> & Hadv2 & ->);
        [by rewrite HL, Ht, <- !app_assoc; cbn; rewrite <- app_assoc|done|].
      exists st2, (ws ++ ws2). split; [done|]. split; [by eapply advances_trans|].
      by rewrite app_assoc.
    + apply IH; [by rewrite HL, Ht, <- !app_assoc; cbn; rewrite <- app_assoc|done].
  - apply Z.eqb_neq in Ec.
    pose proof (advances_literal pre [c] (t ++ sfx) st Ha HL) as Hadv.
    specialize (Hadv ltac:(by constructor)).
    rewrite Hpre, <- (current_literal pre [c]) by done.
    specialize (IH (pre ++ [c]) t fuel st ltac:(lia) ltac:(lia) (proj1 Hadv)).
    destruct (expand_token _ _ _ n t _ _ _) as [words|e].
    + destruct IH as (st2 & ws2 & -> & Hadv2 & ->); [by rewrite HL, <- app_assoc|done|].
      exists st2, ws2. split; [done|]. split; [|done].
      by eapply (advances_trans _ _ _ _ _ _ [] ws2).
    + apply IH; [by rewrite HL, <- app_assoc|done].
Qed.

(** ** The parts of the line *)

(** A finished part. *)
Lemma advances_out pre st a b word :
  at_pos pre st → 0 ≤ a ≤ b → b ≤ Z.of_nat (length (vtext pre st)) →
  part (vtext pre st) (a, b) = word →
  advances pre st pre (st <| out ::= (λ os, os ++ [(a, b)]) |>) [word].
Proof.
  intros [Hx Hadj Hd Hf Ho Hl] Hab Hb <-. set (st' := st <| out ::= _ |>).
  assert (vtext pre st' = vtext pre st) as Hv by done. split.
  - split; rewrite ?Hv; try done. unfold st'. rsimpl. apply Forall_app. split; [done|].
    by apply Forall_singleton.
  - rewrite Hv. split; [done|]. unfold st'. rsimpl. by rewrite fmap_app.
Qed.

(** The next part begins. *)
Lemma advances_first pre st : at_pos pre st →
  let st' := st <| first := Z.of_nat (length pre) + offadj st |>
                <| inhibit_collapse := false |> <| do_collapse := false |> in
  advances pre st pre st' [] ∧ current pre st' = [].
Proof.
  intros Ha st'. pose proof (vtext_length pre st Ha) as Hl.
  assert (vtext pre st' = vtext pre st) as Hv by done.
  assert (first st' = Z.of_nat (length (vtext pre st))) as Hf by (unfold st'; rsimpl; lia).
  split.
  - destruct Ha as [Hx Hadj Hd _ Ho Hlen]. split.
    + split; rewrite ?Hv; try done. rewrite Hf. lia.
    + rewrite Hv, app_nil_r. done.
  - unfold current. rewrite Hf, Hv. apply drop_ge. lia.
Qed.

(** The current word becomes a part, unless it vanishes. *)
Lemma advances_finish pre st : at_pos pre st →
  let stop := Z.of_nat (length pre) + offadj st in
  advances pre st pre
    (if do_collapse st && (first st =? stop) then st
     else st <| out ::= (λ o, o ++ [(first st, stop)]) |>)
    (if do_collapse st && bool_decide (current pre st = []) then [] else [current pre st]).
Proof.
  intros Ha stop. pose proof (vtext_length pre st Ha) as Hl. pose proof (at_first _ _ Ha) as Hf.
  unfold current. rewrite drop_empty by done. rewrite Hl. fold stop.
  destruct (do_collapse st && (first st =? stop)).
  - split; [done|]. by rewrite app_nil_r.
  - apply advances_out; [done|lia..|]. unfold stop. rewrite <- Hl. by apply part_last.
Qed.

(** One part, in either of the two loops. *)
Lemma subst_tokens_step pre gap t s os skipping st :
  at_pos pre st → L = pre ++ gap ++ t ++ s → Forall (λ c, c ≠ DOLLAR) gap → ends_token s →
  let a := Z.of_nat (length pre) + Z.of_nat (length gap) in
  let run := subst_tokens setting var_resolve argval L in
  match expand setting var_resolve argval t with
  | Throw e => run ((a, a + Z.of_nat (length t)) :: os) skipping st = Throw e
  | Ok words => ∃ st',
      run ((a, a + Z.of_nat (length t)) :: os) skipping st = run os true st'
      ∧ advances pre st (pre ++ gap ++ t) st' words
  end.
Proof.
  intros Ha HL Hgap He a run. unfold run. cbn [subst_tokens].
  assert (Z.of_nat (length (pre ++ gap)) = a) as Hla by (rewrite length_app; lia).
  assert (Z.of_nat (length ((pre ++ gap) ++ t)) = a + Z.of_nat (length t)) as Hlb
    by (rewrite length_app; lia).
  pose proof (advances_literal pre gap (t ++ s) st Ha HL Hgap) as Hadv.
  assert (L = (pre ++ gap) ++ t ++ s) as HL' by by rewrite <- app_assoc.
  destruct (skipping && (a + Z.of_nat (length t) <? dindx st)) eqn:Eskip.
  - apply andb_true_iff in Eskip as [-> Hb%Z.ltb_lt].
    rewrite (at_dollar _ _ (proj1 Hadv)), Hla in Hb.
    rewrite <- Hla, (find_dollar_at (pre ++ gap) (t ++ s)) in Hb by done.
    apply find_char_beyond in Hb. rewrite expand_plain by done.
    pose proof (advances_literal (pre ++ gap) t s st (proj1 Hadv) HL' Hb) as Hadv2.
    pose proof (vtext_length _ _ (proj1 Hadv)) as Hl1.
    pose proof (vtext_length _ _ (proj1 Hadv2)) as Hl2.
    eexists. split; [done|]. rewrite app_assoc.
    change [t] with ([] ++ [] ++ [t]). eapply advances_trans; [exact Hadv|].
    eapply advances_trans; [exact Hadv2|].
    apply advances_out; [apply Hadv2|rewrite Hla in Hl1; lia|lia|].
    rewrite vtext_literal by apply Hadv. unfold part. cbn [fst snd].
    replace (Z.to_nat (a + offadj st)) with (length (vtext (pre ++ gap) st)) by lia.
    rewrite drop_app_length. apply take_ge. lia.
  - destruct (advances_first (pre ++ gap) st (proj1 Hadv)) as [Hadv1 Hcur].
    rewrite Hla in Hadv1, Hcur. set (st1 := st <| first := _ |> <| _ := _ |> <| _ := _ |>) in *.
    pose proof (subst_token_expands (S (length t)) (pre ++ gap) t s (S (length L)) st1) as Htok.
    rewrite Hcur, Hlb in Htok. fold (expand setting var_resolve argval t) in Htok.
    change (inhibit_collapse st1) with false in Htok. change (do_collapse st1) with false in Htok.
    specialize (Htok ltac:(lia)). unfold expand.
    destruct (expand_token _ _ _ _ t _ _ _) as [words|e].
    + destruct Htok as (st2 & ws & -> & Hadv2 & ->); [rewrite HL', !length_app; lia|apply Hadv1|done..|].
      cbn [rbind]. eexists. split; [done|]. rewrite app_assoc.
      pose proof (advances_finish ((pre ++ gap) ++ t) st2 (proj1 Hadv2)) as Hadv3.
      cbv zeta in Hadv3. rewrite Hlb in Hadv3.
      eapply (advances_trans _ _ _ _ _ _ []); [exact Hadv|].
      eapply (advances_trans _ _ _ _ _ _ []); [exact Hadv1|].
      eapply advances_trans; [exact Hadv2|exact Hadv3].
    + rewrite Htok; [done|rewrite HL', !length_app; lia|apply Hadv1|done..].
Qed.

Lemma subst_tokens_expands pre s os ts skipping st :
  at_pos pre st → L = pre ++ s → tokens_at (Z.of_nat (length pre)) s os ts →
  match expand_all setting var_resolve argval ts with
  | Throw e => subst_tokens setting var_resolve argval L os skipping st = Throw e
  | Ok words => ∃ st' pre' s',
      subst_tokens setting var_resolve argval L os skipping st = Ok st'
      ∧ L = pre' ++ s' ∧ advances pre st pre' st' words
  end.
Proof.
  intros Ha HL Ht. remember (Z.of_nat (length pre)) as pos eqn:Hpos.
  revert pre skipping st Hpos Ha HL.
  induction Ht as [pos s|pos gap t s os ts Hgap He Ht IH];
    intros pre skipping st -> Ha HL; cbn [expand_all].
  - exists st, pre, s. split; [done|]. split; [done|]. split; [done|]. by rewrite app_nil_r.
  - pose proof (subst_tokens_step pre gap t s os skipping st Ha HL Hgap He) as Hstep.
    cbv zeta in Hstep. destruct (expand _ _ _ t) as [ws|e]; cbn [rbind]; [|done].
    destruct Hstep as (st1 & -> & Hadv).
    specialize (IH (pre ++ gap ++ t) true st1 ltac:(rewrite !length_app; lia) (proj1 Hadv)
      ltac:(by rewrite HL, <- !app_assoc)).
    destruct (expand_all _ _ _ ts) as [words|e]; cbn [rbind]; [|done].
    destruct IH as (st2 & pre' & s' & -> & HL' & Hadv2). exists st2, pre', s'.
    split; [done|]. split; [done|]. by eapply advances_trans.
Qed.

Lemma at_pos_start : at_pos [] (State 0 [] 0 (find_dollar L 0) [] 0 false false).
Proof. split; cbn; try done; try lia. constructor. Qed.

End props.

Lemma tokens_at_parts pre s os ts :
  tokens_at (Z.of_nat (length pre)) s os ts → part (pre ++ s) <$> os = ts.
Proof.
  intros Ht. remember (Z.of_nat (length pre)) as pos eqn:Hpos. revert pre Hpos.
  induction Ht as [pos s|pos gap t s os ts Hgap He Ht IH]; intros p ->; [done|].
  cbn [fmap list_fmap]. f_equal.
  - unfold part. cbn [fst snd].
    replace (Z.to_nat (Z.of_nat (length p) + Z.of_nat (length gap))) with (length (p ++ gap))
      by (rewrite length_app; lia).
    rewrite app_assoc, drop_app_length.
    rewrite take_app_le by lia. apply take_ge. lia.
  - replace (p ++ gap ++ t ++ s) with ((p ++ gap ++ t) ++ s) by by rewrite <- !app_assoc.
    apply IH. rewrite !length_app. lia.
Qed.

(** C18: The substitution of variables in a line is the substitution in each of its
    parts: when the parts are separated by spaces, have no dollar sign between
    them, and the result is certain to fit in the range of [int], the new offsets
    select exactly the words that [expand] makes of the texts of the parts, in
    order, with the splitting of values, the alternatives and the words that
    vanish; and the call fails exactly when one of the parts cannot be expanded,
    with the error of the first of them. *)
Theorem value_var_subst_correct setting var_resolve argval K L os ts :
  tokens_at 0 L os ts →
  1 ≤ K → Z.of_nat (length L) ≤ K → Z.of_nat (length L) * K ≤ INT_MAX →
  (∀ name v, var_resolve name = Some v → Z.of_nat (length v) ≤ K) →
  (∀ v, argval = Some v → Z.of_nat (length v) ≤ K) →
  match expand_all setting var_resolve argval ts with
  | Throw e => value_var_subst setting var_resolve argval L os = Throw e
  | Ok words => ∃ L' os',
      value_var_subst setting var_resolve argval L os = Ok (L', os') ∧ part L' <$> os' = words
  end.
Proof.
  intros Ht HK HLK Hmax Hvars Harg. unfold value_var_subst.
  destruct (find_dollar L 0 =? npos) eqn:Enone.
  - apply Z.eqb_eq in Enone. erewrite expand_all_plain; [|exact Ht|].
    + exists L, os. split; [done|]. by apply (tokens_at_parts []).
    + apply (find_char_beyond DOLLAR L [] 0). rewrite app_nil_r.
      change (find_char DOLLAR L 0) with (find_dollar L 0). rewrite Enone.
      unfold INT_MAX, npos in *. nia.
  - rewrite (proj2 (Z.ltb_ge INT_MAX _)) by nia.
    pose proof (at_pos_start L K) as Hstart.
    pose proof (subst_tokens_expands setting var_resolve argval L K HK HLK Hmax Hvars Harg
      [] L os ts false _ Hstart eq_refl Ht) as Hrun.
    destruct (expand_all _ _ _ ts) as [words|e].
    + destruct Hrun as (st & pre & s & -> & HL & Hpos & _ & Hw). cbn [rbind].
      eexists _, _. split; [done|]. cbn in Hw. rewrite <- Hw.
      apply part_prefix; [|apply (at_out _ _ _ _ Hpos)].
      change (r_line st ++ drop (Z.to_nat (xpos st)) L) with (vtext L st).
      rewrite HL, (vtext_literal _ _ pre s st Hpos). by exists s.
    + by rewrite Hrun.
Qed.

(** The arguments of a command with a variable that is split, one that vanishes, an
    alternative and an escaped dollar sign. *)
Definition example_vars (name : text) : option text :=
  if text_eqb name (chars "OPTS") then Some (chars " -a  -b ")
  else if text_eqb name (chars "NONE") then Some [] else None.
Definition example_line : text := chars "run x$/OPTS $/NONE ${HOME:-/root} $$1".
Definition example_parts : offsets := [(0, 3); (4, 11); (12, 18); (19, 33); (34, 37)].

Lemma value_var_subst_correct_witness :
  ∃ L' os',
    value_var_subst (chars "command") example_vars None example_line example_parts = Ok (L', os')
    ∧ part L' <$> os' = chars <$> ["run"; "x"; "-a"; "-b"; "/root"; "$1"].
Proof.
  assert (tokens_at 0 example_line example_parts (part example_line <$> example_parts)) as Ht.
  { apply (tokens_more 0 [] (chars "run")); [constructor|by right|].
    apply (tokens_more 3 [SPACE] (chars "x$/OPTS")); [by repeat constructor|by right|].
    apply (tokens_more 11 [SPACE] (chars "$/NONE")); [by repeat constructor|by right|].
    apply (tokens_more 18 [SPACE] (chars "${HOME:-/root}")); [by repeat constructor|by right|].
    apply (tokens_more 33 [SPACE] (chars "$$1") []); [by repeat constructor|by left|].
    constructor. }
  apply (value_var_subst_correct (chars "command") example_vars None 37 example_line example_parts
    _ Ht); [done..| |done].
  intros name v. unfold example_vars.
  destruct (text_eqb name _); [by intros [= <-]|].
  destruct (text_eqb name _); [by intros [= <-]|done].
Defined.
