(* ===== verification/ServiceFile.v ===== *)
(** * Reading a service description file

    [process_service_file] of [load-service.h] and the stack of input files of
    [file-input-stack.h].  A file is the list of lines that its stream delivers;
    [open_file] stands for [open_with_dir], which gives the file of an [@include]
    or the error number.  What is done with a setting is the callback
    [process_line], as in the source. *)

From S2P Require Import Prelude Text SettingValue VarSubst.

(** ** The stack of input files *)

Record input_file := Input_file {
  in_lines : list text;      (* the lines to come *)
  in_name : text;
  in_line : Z;               (* [line_num] *)
  in_dir : Z                 (* [parent_dir_fd] *)
}.
#[export] Instance eta_input_file : Eta input_file := λ f,
  Input_file (in_lines f) (in_name f) (in_line f) (in_dir f).
Abbreviation file_input_stack := (list input_file).

Definition push (name : text) (lines : list text) (dir : Z) (s : file_input_stack)
    : file_input_stack := Input_file lines name 0 dir :: s.

(** [getline] falls back to the including file at the end of a file. *)
Fixpoint getline (s : file_input_stack) : option text * file_input_stack :=
  match s with
  | [] => (None, [])
  | top :: below =>
      let top := top <| in_line ::= Z.add 1 |> in
      match in_lines top with
      | line :: rest => (Some line, top <| in_lines := rest |> :: below)
      | [] => getline below
      end
  end.

Definition getline_same_file (s : file_input_stack) : option text * file_input_stack :=
  match s with
  | [] => (None, [])
  | top :: below =>
      match in_lines top with
      | line :: rest =>
          (Some line, top <| in_lines := rest |> <| in_line ::= Z.add 1 |> :: below)
      | [] => (None, s)
      end
  end.

Definition top_file (s : file_input_stack) : input_file := default (Input_file [] [] 0 (-1)) (head s).
Definition current_line (s : file_input_stack) : Z := u32 (in_line (top_file s)).
Definition current_file_name (s : file_input_stack) : text := in_name (top_file s).
Definition current_resolve_dir (s : file_input_stack) : Z := in_dir (top_file s).
Definition current_pos (s : file_input_stack) : file_pos :=
  File_pos (current_file_name s) (current_line s).

(** ** Lines that are continued *)

(** Whether the line ends with an odd number of backslashes. *)
Fixpoint odd_backslashes (rev_line : text) : bool :=
  match rev_line with
  | c :: l => if c =? BACKSLASH then negb (odd_backslashes l) else false
  | [] => false
  end.
Definition continues (line : text) : bool := odd_backslashes (rev line).

(** The loop over the continuation lines; every turn reads a line of the top file,
    so that their number is enough fuel. *)
Fixpoint join_lines (fuel : nat) (line : text) (s : file_input_stack)
    : result text * file_input_stack :=
  match fuel with
  | O => (Ok line, s)
  | S fuel =>
      if continues line then
        match getline_same_file s with
        | (None, s) =>
            (Throw (Description_exc (current_pos s) None
               (chars "end-of-file follows backslash escape character (`\')")), s)
        | (Some next, s) =>
            if bool_decide (skip_ws next = next) then
              (Throw (Description_exc (current_pos s) None
                 (chars "line following line-continuation backslash (`\') does not begin with whitespace character")), s)
            else join_lines fuel (removelast line ++ [NEWLINE] ++ next) s
        end
      else (Ok line, s)
  end.

(** ** One line *)

(** What the callback receives. *)
Record setting_line := Setting_line {
  sl_pos : file_pos;
  sl_dir : Z;
  sl_name : text;
  sl_op : setting_op_t;
  sl_value : text
}.

(** What a line asks for. *)
Variant command :=
  | Nothing
  | Include (optional : bool) (path : text)
  | Meta (rest : text)
  | Set_value (l : setting_line).

(** The operator at the iterator, and the rest behind it; [None]: the line is bad. *)
Definition read_operator (s : text) : option (setting_op_t * text) :=
  if deref s =? EQUALS then Some (ASSIGN, tail s)
  else if deref s =? COLON then Some (COLON_OP, tail s)
  else if deref s =? PLUS then
    if deref (tail s) =? EQUALS then Some (PLUSASSIGN, tail (tail s)) else None
  else None.

(** [base_name] of [dinit-util.h]: behind the last slash; and the directory part
    as the caller makes it: the empty string, the root, or all up to the slash. *)
Fixpoint base_name_from (base s : text) : text :=
  match s with
  | c :: s' => base_name_from (if c =? SLASH then s' else base) s'
  | [] => base
  end.
Definition base_name (path : text) : text := base_name_from path path.
Definition include_dir (path : text) : text :=
  let n := (length path - length (base_name path))%nat in
  match n with
  | O => []
  | S O => [SLASH]
  | S n => take n path
  end.

Definition ENOENT : Z := 2.
Variant opened := Opened (dir : Z) (lines : list text) | Open_failed (errno : Z).

Section process.
Context (open_file : text → text → Z → opened) (strerror : Z → text).
Context (argval : option text) (resolve_var : text → option text).

(** [read_value_resolved] and [read_include_path] *)
Definition read_value_resolved (setting : text) (pos : file_pos) (s : text) : result text :=
  try! '(rval, _) := read_setting_value [] ASSIGN pos s None SPACE in
  try! '(rval, _) := value_var_subst setting resolve_var argval rval
                       [(0, Z.of_nat (length rval))] in
  Ok rval.
Definition read_include_path (meta_cmd : text) (pos : file_pos) (s : text) : result text :=
  try! '(rval, parts) := read_value_parts pos s in
  if negb (bool_decide (length parts = 1%nat)) then
    Throw (Description_exc pos None
      (chars "'@" ++ meta_cmd ++ chars "' requires a single argument"))
  else
    try! '(rval, _) := value_var_subst meta_cmd resolve_var argval rval
                         [(0, Z.of_nat (length rval))] in
    Ok rval.

(** A complete line; [pos] is the position of the line that was read last. *)
Definition parse_line (line : text) (line_num : Z) (pos : file_pos) (dir : Z) : result command :=
  let '(i, line_num) := skip_ws_ln line line_num in
  match i with
  | [] => Ok Nothing
  | c :: i' =>
      if c =? HASH then Ok Nothing
      else if c =? AT then
        let '(meta_cmd, i, _) := read_config_name false (length i') i' in
        let is_include_opt := text_eqb meta_cmd (chars "include-opt") in
        if is_include_opt || text_eqb meta_cmd (chars "include") then
          try! path := read_include_path meta_cmd (at_line pos line_num) i in
          Ok (Include is_include_opt path)
        else if text_eqb meta_cmd (chars "meta") then Ok (Meta i)
        else Throw (Description_exc (at_line pos line_num) None (chars "bad meta command"))
      else
        let '(setting, i, _) := read_config_name false (length i) i in
        let '(i, line_num) := skip_ws_ln i line_num in
        match (if bool_decide (setting = []) then None else read_operator i) with
        | None => Throw (Description_exc pos None (chars "badly formed line."))
        | Some (op, i) =>
            let '(i, line_num) := skip_ws_ln i line_num in
            Ok (Set_value (Setting_line (at_line pos line_num) dir setting op i))
        end
  end.

(** ** The file

    The callback keeps its state when it throws.  [None]: the number of lines is
    used up. *)
Section run.
Context {A : Type} (process_line : setting_line → A → A * result unit).

Definition run_command (c : command) (s : file_input_stack) (a : A)
    : A * result file_input_stack :=
  match c with
  | Nothing | Meta _ => (a, Ok s)
  | Include optional path =>
      match open_file (include_dir path) (base_name path) (current_resolve_dir s) with
      | Opened dir lines => (a, Ok (push path lines dir s))
      | Open_failed errno =>
          if negb optional || negb (errno =? ENOENT) then
            (a, Throw (Service_load_exc (path ++ chars ": cannot open: " ++ strerror errno)))
          else (a, Ok s)
      end
  | Set_value l =>
      let '(a, r) := process_line l a in
      (a, try! _ := r in Ok s)
  end.

Definition process_next (line : text) (s : file_input_stack) (a : A)
    : A * result file_input_stack :=
  let line_num := current_line s in
  if bool_decide (line = []) then (a, Ok s)
  else
    let '(joined, s) := join_lines (S (length (in_lines (top_file s)))) line s in
    match (try! line := joined in
           parse_line line line_num (current_pos s) (current_resolve_dir s)) with
    | Throw e => (a, Throw e)
    | Ok c => run_command c s a
    end.

Fixpoint process_service_file (fuel : nat) (s : file_input_stack) (a : A)
    : option (A * result unit) :=
  match fuel with
  | O => None
  | S fuel =>
      match getline s with
      | (None, _) => Some (a, Ok tt)
      | (Some line, s) =>
          match process_next line s a with
          | (a, Throw e) => Some (a, Throw e)
          | (a, Ok s) => process_service_file fuel s a
          end
      end
  end.
End run.
End process.
