(* ===== verification/ServiceFileProps.v ===== *)
(** * Reading a service description file: what it delivers

    The settings of a description as a relation between the lines of a file and
    the settings in them, with the continuation of lines, comments and included
    files, and the theorem that [process_service_file] calls its callback on
    exactly these settings, in order. *)

From S2P Require Import Prelude Text SettingValue VarSubst ServiceFile.

Definition blank (s : text) : Prop := Forall (λ c, is_space c = true) s.
Fixpoint newlines (s : text) : Z :=
  match s with c :: s => (if c =? NEWLINE then 1 else 0) + newlines s | [] => 0 end.

(** A name: not empty, of characters of names, and not beginning like a number. *)
Definition name_ok (name : text) : Prop :=
  name ≠ [] ∧ Forall (λ c, name_char false c = true) name
  ∧ deref name ≠ MINUS ∧ deref name ≠ DOT ∧ is_digit (deref name) = false.

Definition op_text (op : setting_op_t) : text :=
  match op with ASSIGN => [EQUALS] | COLON_OP => [COLON] | PLUSASSIGN => [PLUS; EQUALS] end.

(** The lines [raw] of a file are one line of the description, [line]. *)
Inductive joins : list text → text → Prop :=
| joins_one line : continues line = false → joins [line] line
| joins_more line next raw rest :
    continues line = true → is_space (deref next) = true → joins (next :: raw) rest →
    joins (line :: next :: raw) (removelast line ++ NEWLINE :: rest).

(** ** Characters *)

Lemma name_char_plain env c : name_char env c = true →
  is_space c = false ∧ c ≠ HASH ∧ c ≠ AT ∧ c ≠ EQUALS ∧ c ≠ COLON ∧ c ≠ PLUS.
Proof.
  unfold name_char, is_cntrl, is_punct, is_space, HASH, AT, EQUALS, COLON, PLUS, MINUS, DOT, UNDERSCORE.
  intros H. repeat split; try (intros ->; by destruct env).
  destruct ((c =? 32) || _) eqn:E; [|done]. exfalso.
  apply orb_true_iff in E as [E|E]; [apply Z.eqb_eq in E as ->; by destruct env|].
  apply andb_true_iff in E as [E1%Z.leb_le E2%Z.leb_le].
  assert (c = 9 ∨ c = 10 ∨ c = 11 ∨ c = 12 ∨ c = 13) as Hc by lia.
  by destruct Hc as [-> |[-> |[-> |[-> | ->]]]], env.
Qed.

(** The first character is not white space. *)
Definition starts_plain (s : text) : Prop := s = [] ∨ is_space (deref s) = false.

Lemma u32_succ k : u32 (u32 k + 1) = u32 (k + 1).
Proof. unfold u32. by rewrite Zplus_mod_idemp_l. Qed.

Lemma skip_ws_ln_blank sp s k : blank sp → starts_plain s →
  skip_ws_ln (sp ++ s) (u32 k) = (s, u32 (k + newlines sp)).
Proof.
  intros Hsp Hs. revert k. induction Hsp as [|c sp Hc Hsp IH]; intros k; cbn [app newlines].
  - rewrite Z.add_0_r. destruct s as [|c s]; [done|]. cbn [skip_ws_ln].
    destruct Hs as [Hs|Hs]; [done|]. unfold deref in Hs. cbn in Hs. rewrite Hs.
    destruct (c =? NEWLINE) eqn:E; [|done]. by apply Z.eqb_eq in E as ->.
  - cbn [skip_ws_ln]. rewrite Hc. destruct (c =? NEWLINE).
    + rewrite u32_succ, IH. do 2 f_equal. lia.
    + by rewrite IH.
Qed.

Lemma op_text_head op s :
  is_space (deref (op_text op ++ s)) = false ∧ name_char false (deref (op_text op ++ s)) = false.
Proof. by destruct op. Qed.

Lemma take_name_ends name s k :
  Forall (λ c, name_char false c = true) name → name_char false (deref s) = false →
  (length name ≤ k)%nat → take_name false k (name ++ s) = (name, s).
Proof.
  intros Hn Hs. revert k. induction Hn as [|c name Hc Hn IH]; intros k Hk.
  - cbn [app]. destruct k; [by destruct s|]. destruct s as [|c s]; [done|]. cbn [take_name].
    unfold deref in Hs. cbn in Hs. by rewrite Hs.
  - destruct k; cbn in Hk; [lia|]. cbn [app take_name]. rewrite Hc, IH by lia. done.
Qed.

Lemma read_name name s : name_ok name → name_char false (deref s) = false →
  read_config_name false (length (name ++ s)) (name ++ s) = (name, s, false).
Proof.
  intros (Hne & Hn & Hm & Hd & Hdig) Hs.
  assert (deref (name ++ s) = deref name) as Hderef by by destruct name.
  unfold read_config_name. rewrite Hderef, Hdig. cbn [andb].
  rewrite (proj2 (Z.eqb_neq _ MINUS)), (proj2 (Z.eqb_neq _ DOT)) by done.
  rewrite bool_decide_false by (rewrite length_app; destruct name; [done|cbn; lia]). cbn [orb].
  rewrite take_name_ends; [done..|]. rewrite length_app. lia.
Qed.

(** What follows a name: white space or the operator. *)
Lemma name_char_after sp op s : blank sp → name_char false (deref (sp ++ op_text op ++ s)) = false.
Proof.
  intros Hsp. destruct Hsp as [|c sp Hc Hsp]; [apply op_text_head|]. cbn [app].
  change (deref (c :: sp ++ op_text op ++ s)) with c.
  destruct (name_char false c) eqn:E; [|done].
  apply name_char_plain in E as [E _]. congruence.
Qed.

Section lines.
Context (argval : option text) (resolve_var : text → option text).

(** A line that sets a value. *)
Lemma parse_setting lead name sp op sp' value k pos dir :
  blank lead → name_ok name → blank sp → blank sp' → starts_plain value →
  parse_line argval resolve_var (lead ++ name ++ sp ++ op_text op ++ sp' ++ value) (u32 k) pos dir
  = Ok (Set_value (Setting_line
      (at_line pos (u32 (k + newlines lead + newlines sp + newlines sp'))) dir name op value)).
Proof.
  intros Hlead Hname Hsp Hsp' Hv. pose proof Hname as (Hne & Hn & _). unfold parse_line.
  assert (starts_plain (name ++ sp ++ op_text op ++ sp' ++ value)) as Hplain.
  { destruct Hn as [|c name Hc Hn]; [done|]. right. by apply name_char_plain in Hc as [? _]. }
  rewrite skip_ws_ln_blank by done.
  pose proof (read_name name _ Hname (name_char_after sp op (sp' ++ value) Hsp)) as Hread.
  destruct name as [|c name]; [done|]. cbn [app] in Hread |- *.
  apply Forall_cons_1 in Hn as [Hc Hn]. pose proof (name_char_plain _ _ Hc) as (_ & Hh & Hat & _).
  rewrite (proj2 (Z.eqb_neq c HASH)), (proj2 (Z.eqb_neq c AT)), Hread by done.
  rewrite skip_ws_ln_blank by (done || (right; apply op_text_head)).
  rewrite bool_decide_false by done.
  assert (read_operator (op_text op ++ sp' ++ value) = Some (op, sp' ++ value)) as -> by by destruct op.
  by rewrite skip_ws_ln_blank.
Qed.

(** A line without any effect: blank, a comment, or [@meta]. *)
Inductive silent : text → Prop :=
| silent_blank line : blank line → silent line
| silent_comment lead rest : blank lead → silent (lead ++ HASH :: rest)
| silent_meta lead rest :
    blank lead → name_char false (deref rest) = false → silent (lead ++ AT :: chars "meta" ++ rest).

Lemma parse_silent line k pos dir : silent line →
  ∃ c, parse_line argval resolve_var line (u32 k) pos dir = Ok c
     ∧ (c = Nothing ∨ ∃ rest, c = Meta rest).
Proof.
  intros [l Hl|lead rest Hlead|lead rest Hlead Hrest]; unfold parse_line.
  - rewrite <- (app_nil_r l), skip_ws_ln_blank by (done || by left). eauto.
  - rewrite skip_ws_ln_blank by (done || by right). eauto.
  - rewrite skip_ws_ln_blank by (done || by right). cbv zeta.
    change (AT =? HASH) with false. change (AT =? AT) with true. cbv iota.
    rewrite read_name; [eauto|by repeat split; repeat constructor|done].
Qed.

(** A line that includes a file. *)
Lemma parse_include lead (optional : bool) rest path k pos dir :
  let cmd := chars (if optional then "include-opt" else "include") in
  blank lead → name_char false (deref rest) = false →
  read_include_path argval resolve_var cmd (at_line pos (u32 (k + newlines lead))) rest = Ok path →
  parse_line argval resolve_var (lead ++ AT :: cmd ++ rest) (u32 k) pos dir
  = Ok (Include optional path).
Proof.
  intros cmd Hlead Hrest Hpath. unfold parse_line.
  rewrite skip_ws_ln_blank by (done || by right). cbv zeta.
  change (AT =? HASH) with false. change (AT =? AT) with true. cbv iota.
  rewrite read_name; [|by destruct optional; repeat split; repeat constructor|done].
  destruct optional; cbn [orb text_eqb]; fold cmd.
  - change (text_eqb cmd (chars "include-opt")) with true. cbn [orb].
    by rewrite Hpath.
  - change (text_eqb cmd (chars "include-opt")) with false.
    change (text_eqb cmd (chars "include")) with true. cbn [orb]. by rewrite Hpath.
Qed.
End lines.

(** ** Continued lines *)

Lemma odd_backslashes_app a b : deref b ≠ BACKSLASH → odd_backslashes (a ++ b) = odd_backslashes a.
Proof.
  intros Hb. induction a as [|c a IH]; cbn [app odd_backslashes].
  - destruct b as [|c b]; [done|]. cbn [odd_backslashes]. unfold deref in Hb. cbn in Hb.
    by rewrite (proj2 (Z.eqb_neq _ _)).
  - by rewrite IH.
Qed.

Lemma continues_app p l : p = [] ∨ (∃ q, p = q ++ [NEWLINE]) → continues (p ++ l) = continues l.
Proof.
  intros Hp. unfold continues. rewrite rev_app_distr. apply odd_backslashes_app.
  destruct Hp as [->|[q ->]]; [done|]. by rewrite rev_app_distr.
Qed.

Lemma join_lines_joins raw line : joins raw line → ∀ fuel p rest name n dir below first more,
  raw = first :: more → p = [] ∨ (∃ q, p = q ++ [NEWLINE]) → (length more < fuel)%nat →
  join_lines fuel (p ++ first) (Input_file (more ++ rest) name n dir :: below)
  = (Ok (p ++ line), Input_file rest name (n + Z.of_nat (length more)) dir :: below).
Proof.
  induction 1 as [line Hc|line next raw rest' Hc Hsp Hj IH];
    intros fuel p rest name n dir below first more Hraw Hp Hf; injection Hraw as <- <-;
    destruct fuel as [|fuel]; cbn [length] in Hf; try lia; cbn [join_lines];
    rewrite continues_app, Hc by done.
  - cbn [length app]. by rewrite Z.add_0_r.
  - cbn [getline_same_file in_lines app]. rewrite bool_decide_false.
    2: { destruct next as [|c next]; [done|]. unfold deref in Hsp. cbn in Hsp. cbn [skip_ws].
      rewrite Hsp. intros E%(f_equal length).
      assert (length (skip_ws next) ≤ length next)%nat; [|cbn in E; lia].
      clear. induction next as [|d next IH]; cbn [skip_ws]; [done|].
      destruct (is_space d); cbn in *; lia. }
    assert (line ≠ []) as Hne by (by intros ->).
    rewrite removelast_app by done.
    replace ((p ++ removelast line) ++ NEWLINE :: next)
      with ((p ++ removelast line ++ [NEWLINE]) ++ next) by (by rewrite <- !app_assoc).
    match goal with |- join_lines _ _ (?f :: _) = _ =>
      change f with (Input_file (raw ++ rest) name (1 + n) dir) end.
    rewrite (IH fuel _ rest name (1 + n) dir below next raw eq_refl); [|right|lia].
    + cbn [length]. rewrite <- !app_assoc. cbn [app].
      by replace (1 + n + Z.of_nat (length raw)) with (n + Z.of_nat (S (length raw))) by lia.
    + exists (p ++ removelast line). by rewrite <- app_assoc.
Qed.

(** ** The settings of a file *)

Section settings.
Context (open_file : text → text → Z → opened) (strerror : Z → text).
Context (argval : option text) (resolve_var : text → option text).

(** The settings in the rest [lines] of the file [name], of which [n] lines have
    been read, and in the files that it includes. *)
Inductive settings_of (name : text) (dir : Z) : Z → list text → list setting_line → Prop :=
| so_end n : settings_of name dir n [] []
| so_silent n raw line rest ls :
    joins raw line → silent line →
    settings_of name dir (n + Z.of_nat (length raw)) rest ls →
    settings_of name dir n (raw ++ rest) ls
| so_setting n raw lead setting sp op sp' value rest ls :
    blank lead → name_ok setting → blank sp → blank sp' → starts_plain value →
    joins raw (lead ++ setting ++ sp ++ op_text op ++ sp' ++ value) →
    settings_of name dir (n + Z.of_nat (length raw)) rest ls →
    settings_of name dir n (raw ++ rest)
      (Setting_line
         (File_pos name (u32 (n + 1 + newlines lead + newlines sp + newlines sp')))
         dir setting op value :: ls)
| so_include n raw lead (optional : bool) arg path dir' lines rest ls ls' :
    let cmd := chars (if optional then "include-opt" else "include") in
    blank lead → name_char false (deref arg) = false →
    joins raw (lead ++ AT :: cmd ++ arg) →
    read_include_path argval resolve_var cmd
      (File_pos name (u32 (n + 1 + newlines lead))) arg = Ok path →
    open_file (include_dir path) (base_name path) dir = Opened dir' lines →
    settings_of path dir' 0 lines ls' →
    settings_of name dir (n + Z.of_nat (length raw)) rest ls →
    settings_of name dir n (raw ++ rest) (ls' ++ ls)
| so_missing n raw lead arg path rest ls :
    blank lead → name_char false (deref arg) = false →
    joins raw (lead ++ AT :: chars "include-opt" ++ arg) →
    read_include_path argval resolve_var (chars "include-opt")
      (File_pos name (u32 (n + 1 + newlines lead))) arg = Ok path →
    open_file (include_dir path) (base_name path) dir = Open_failed ENOENT →
    settings_of name dir (n + Z.of_nat (length raw)) rest ls →
    settings_of name dir n (raw ++ rest) ls.

Section run.
Context {A : Type} (process_line : setting_line → A → A * result unit).

(** The callback on each setting, up to the first error. *)
Fixpoint run_settings (ls : list setting_line) (a : A) : A * result unit :=
  match ls with
  | [] => (a, Ok tt)
  | l :: ls =>
      match process_line l a with
      | (a, Throw e) => (a, Throw e)
      | (a, Ok _) => run_settings ls a
      end
  end.

Lemma run_settings_app ls ls' a :
  run_settings (ls ++ ls') a =
    match run_settings ls a with
    | (a, Throw e) => (a, Throw e)
    | (a, Ok _) => run_settings ls' a
    end.
Proof.
  revert a. induction ls as [|l ls IH]; intros a; cbn [app run_settings]; [done|].
  destruct (process_line l a) as [a' [u|e]]; [apply IH|done].
Qed.

Abbreviation process := (process_service_file open_file strerror argval resolve_var process_line).

(** One line of the description, from the top of the stack. *)
Lemma process_joined raw line rest name n dir below a fuel :
  joins raw line →
  process (S fuel) (Input_file (raw ++ rest) name n dir :: below) a
  = match parse_line argval resolve_var line (u32 (n + 1))
            (File_pos name (u32 (n + Z.of_nat (length raw)))) dir with
    | Throw e => Some (a, Throw e)
    | Ok c =>
        match run_command open_file strerror process_line c
            (Input_file rest name (n + Z.of_nat (length raw)) dir :: below) a with
        | (a, Throw e) => Some (a, Throw e)
        | (a, Ok s) => process fuel s a
        end
    end.
Proof.
  intros Hj. destruct raw as [|first more]; [by inversion Hj|].
  pose proof (join_lines_joins _ _ Hj (S (length (more ++ rest))) [] rest name (1 + n) dir below
    first more eq_refl ltac:(by left) ltac:(rewrite length_app; lia)) as Hjoin.
  cbn [process_service_file app].
  change (getline _) with (Some first, Input_file (more ++ rest) name (1 + n) dir :: below).
  cbv iota beta.
  unfold process_next. change (current_line _) with (u32 (1 + n)).
  replace (n + Z.of_nat (length (first :: more))) with (1 + n + Z.of_nat (length more))
    by (cbn [length]; lia).
  rewrite (Z.add_comm n 1). cbn [app] in Hjoin.
  destruct (bool_decide (first = [])) eqn:E.
  - apply bool_decide_eq_true in E as ->.
    inversion Hj; subst; [|done]. cbn [length app] in *.
    by rewrite Z.add_0_r.
  - change (length (in_lines (top_file _))) with (length (more ++ rest)).
    rewrite Hjoin. cbn [rbind].
    change (current_pos _) with (File_pos name (u32 (1 + n + Z.of_nat (length more)))).
    change (current_resolve_dir _) with dir.
    by destruct (parse_line _ _ _ _ _ _) as [c|e].
Qed.

(** After the settings of the file the processing goes on below it. *)
Lemma process_settings name dir n lines ls :
  settings_of name dir n lines ls → ∀ below a, ∃ k, ∀ fuel,
    process (k + fuel) (Input_file lines name n dir :: below) a
    = match run_settings ls a with
      | (a, Throw e) => Some (a, Throw e)
      | (a, Ok _) => process fuel below a
      end.
Proof.
  induction 1 as [name dir n|name dir n raw line rest ls Hj Hs Hr IH
    |name dir n raw lead setting sp op sp' value rest ls Hlead Hname Hsp Hsp' Hv Hj Hr IH
    |name dir n raw lead optional arg path dir' lines rest ls ls' cmd Hlead Harg Hj Hpath Hopen Hi IHi Hr IH
    |name dir n raw lead arg path rest ls Hlead Harg Hj Hpath Hopen Hr IH]; intros below a.
  - exists 0%nat. intros fuel. cbn [run_settings]. by destruct fuel.
  - destruct (IH below a) as [k Hk]. exists (S k). intros fuel. cbn [Nat.add].
    rewrite (process_joined _ _ _ _ _ _ _ _ _ Hj).
    destruct (parse_silent argval resolve_var line (n + 1)
      (File_pos name (u32 (n + Z.of_nat (length raw)))) dir Hs) as (c & -> & Hc).
    destruct Hc as [->|[r ->]]; cbn [run_command]; apply Hk.
  - pose proof (parse_setting argval resolve_var lead setting sp op sp' value (n + 1)
      (File_pos name (u32 (n + Z.of_nat (length raw)))) dir Hlead Hname Hsp Hsp' Hv) as Hp.
    set (l := Setting_line (File_pos name _) dir setting op value).
    destruct (process_line l a) as [a' r] eqn:El.
    destruct (IH below a') as [k Hk]. exists (S k). intros fuel. cbn [Nat.add run_settings].
    rewrite (process_joined _ _ _ _ _ _ _ _ _ Hj), Hp. cbn [run_command].
    change (Setting_line (at_line _ _) dir setting op value) with l. rewrite El.
    destruct r as [u|e]; cbn [rbind]; [apply Hk|done].
  - pose proof (parse_include argval resolve_var lead optional arg path (n + 1)
      (File_pos name (u32 (n + Z.of_nat (length raw)))) dir Hlead Harg Hpath) as Hp.
    destruct (IHi (Input_file rest name (n + Z.of_nat (length raw)) dir :: below) a) as [k Hk].
    destruct (run_settings ls' a) as [a' r] eqn:El.
    destruct (IH below a') as [k' Hk']. exists (S (k + k')). intros fuel. cbn [Nat.add].
    rewrite (process_joined _ _ _ _ _ _ _ _ _ Hj). fold cmd in Hp. rewrite Hp.
    cbn [run_command]. change (current_resolve_dir _) with dir. rewrite Hopen.
    unfold push. rewrite <- Nat.add_assoc, Hk, run_settings_app, El.
    destruct r as [u|e]; [apply Hk'|done].
  - pose proof (parse_include argval resolve_var lead true arg path (n + 1)
      (File_pos name (u32 (n + Z.of_nat (length raw)))) dir Hlead Harg Hpath) as Hp.
    destruct (IH below a) as [k Hk]. exists (S k). intros fuel. cbn [Nat.add].
    rewrite (process_joined _ _ _ _ _ _ _ _ _ Hj), Hp.
    cbn [run_command]. change (current_resolve_dir _) with dir. rewrite Hopen. apply Hk.
Qed.
End run.
End settings.

(** C39: Reading a service description calls the callback on exactly the settings of
    the file, in order, each with its name, operator, the rest of its line and
    the position where its value begins; lines that end with a backslash are
    joined with the next one, comments, blank lines and [@meta] do nothing, an
    included file contributes its settings in place, and an [@include-opt] of a
    missing file nothing.  The processing ends, and it stops at the first
    setting that the callback rejects, with that error. *)
Theorem service_file_settings open_file strerror argval resolve_var {A}
    (process_line : setting_line → A → A * result unit) name dir lines ls (a : A) :
  settings_of open_file argval resolve_var name dir 0 lines ls →
  ∃ k, ∀ fuel, (k ≤ fuel)%nat →
    process_service_file open_file strerror argval resolve_var process_line fuel
      (push name lines dir []) a
    = Some (run_settings process_line ls a).
Proof.
  intros Hs.
  destruct (process_settings open_file strerror argval resolve_var process_line
    name dir 0 lines ls Hs [] a) as [k Hk].
  exists (S k). intros fuel Hf. unfold push.
  replace fuel with (k + S (fuel - S k))%nat by lia. rewrite Hk.
  by destruct (run_settings process_line ls a) as [a' [[]|e]].
Qed.

(** A description with a comment, an included file and a continued line. *)
Definition example_files (sub base : text) (dir : Z) : opened :=
  if text_eqb base (chars "common") then Opened 8 [chars "restart = yes"; []]
  else Open_failed ENOENT.
Definition example_file : list text :=
  [chars "type: process"; chars "# a comment"; chars "@include common";
   chars "command += /bin/foo \"; chars "   -x"; []].
Definition collect (l : setting_line) (a : list (text * text)) : list (text * text) * result unit :=
  (a ++ [(sl_name l, sl_value l)], Ok tt).

Lemma service_file_settings_witness : ∃ k, ∀ fuel, (k ≤ fuel)%nat →
  process_service_file example_files (λ _, []) None (λ _, None) collect fuel
    (push (chars "svc") example_file 7 []) []
  = Some ([(chars "type", chars "process"); (chars "restart", chars "yes");
           (chars "command", chars "/bin/foo " ++ NEWLINE :: chars "   -x")], Ok tt).
Proof.
  apply (service_file_settings example_files (λ _, []) None (λ _, None) collect (chars "svc") 7
    example_file
    [Setting_line (File_pos (chars "svc") 1) 7 (chars "type") COLON_OP (chars "process");
     Setting_line (File_pos (chars "common") 1) 8 (chars "restart") ASSIGN (chars "yes");
     Setting_line (File_pos (chars "svc") 4) 7 (chars "command") PLUSASSIGN
       (chars "/bin/foo " ++ NEWLINE :: chars "   -x")] []).
  apply (so_setting _ _ _ _ _ 0 [chars "type: process"] [] (chars "type") [] COLON_OP [SPACE]
    (chars "process")); [by repeat constructor|by repeat constructor|by repeat constructor
    |by repeat constructor|by right|by apply joins_one|].
  apply (so_silent _ _ _ _ _ 1 [chars "# a comment"] (chars "# a comment"));
    [by apply joins_one|by apply (silent_comment []); constructor|].
  apply (so_include _ _ _ _ _ 2 [chars "@include common"] [] false (chars " common")
    (chars "common") 8 [chars "restart = yes"; []] _ _ [_]);
    [by repeat constructor|done|by apply joins_one|done|done| |].
  - apply (so_setting _ _ _ _ _ 0 [chars "restart = yes"] [] (chars "restart") [SPACE] ASSIGN [SPACE]
      (chars "yes")); [by repeat constructor|by repeat constructor|by repeat constructor
      |by repeat constructor|by right|by apply joins_one|].
    apply (so_silent _ _ _ _ _ 1 [[]] []);
      [by apply joins_one|by apply silent_blank; constructor|constructor].
  - apply (so_setting _ _ _ _ _ 3 [chars "command += /bin/foo \"; chars "   -x"] [] (chars "command")
      [SPACE] PLUSASSIGN [SPACE] (chars "/bin/foo " ++ NEWLINE :: chars "   -x"));
      [by repeat constructor|by repeat constructor|by repeat constructor
      |by repeat constructor|by right| |].
    + apply (joins_more (chars "command += /bin/foo \") (chars "   -x") [] (chars "   -x"));
        [done|done|by apply joins_one].
    + apply (so_silent _ _ _ _ _ 5 [[]] []);
        [by apply joins_one|by apply silent_blank; constructor|constructor].
Defined.
