(* ===== verification/Settings.v ===== *)
(** * The settings of a service description

    [service_settings_wrapper] and [process_service_line] of [load-service.h], and
    the table of [settings.cc], for the configuration without control groups,
    capabilities, I/O priorities and OOM adjustment, and with utmp records and
    supplementary groups.  Loading a dependency is a callback with a state. *)

From S2P Require Import Prelude Text TimeVal ServiceData Process SettingValue VarSubst ServiceFile.

Module setting_id_t.
Variant t :=
  | TYPE | COMMAND | WORKING_DIR | ENV_FILE | SOCKET_LISTEN | SOCKET_PERMISSIONS | SOCKET_UID
  | SOCKET_GID | STOP_COMMAND | PID_FILE | DEPENDS_ON | DEPENDS_MS | WAITS_FOR | WAITS_FOR_D
  | DEPENDS_ON_D | DEPENDS_MS_D | AFTER | BEFORE | LOGFILE | LOGFILE_PERMISSIONS | LOGFILE_UID
  | LOGFILE_GID | LOG_TYPE | LOG_BUFFER_SIZE | CONSUMER_OF | RESTART | SMOOTH_RECOVERY | OPTIONS
  | LOAD_OPTIONS | TERM_SIGNAL | TERMSIGNAL | RESTART_LIMIT_INTERVAL | RESTART_DELAY
  | RESTART_LIMIT_COUNT | STOP_TIMEOUT | START_TIMEOUT | RUN_AS | CHAIN_TO | READY_NOTIFICATION
  | INITTAB_ID | INITTAB_LINE | NICE
  | SETTING_RLIMIT_NOFILE | SETTING_RLIMIT_CORE | SETTING_RLIMIT_DATA | SETTING_RLIMIT_ADDRSPACE.
End setting_id_t.
Abbreviation setting_id_t := setting_id_t.t.

(** A row of the table: the name, the setting, and which of the operators [:], [=]
    and [+=] it supports. *)
Record setting_details := Details {
  setting_str : text;
  setting_id : setting_id_t;
  supp_colon : bool;
  supp_assign : bool;
  supp_plus_assign : bool
}.

Definition all_settings : list setting_details :=
  [Details (chars "type") setting_id_t.TYPE false true false;
   Details (chars "command") setting_id_t.COMMAND false true true;
   Details (chars "working-dir") setting_id_t.WORKING_DIR false true false;
   Details (chars "env-file") setting_id_t.ENV_FILE false true false;
   Details (chars "socket-listen") setting_id_t.SOCKET_LISTEN false true false;
   Details (chars "socket-permissions") setting_id_t.SOCKET_PERMISSIONS false true false;
   Details (chars "socket-uid") setting_id_t.SOCKET_UID false true false;
   Details (chars "socket-gid") setting_id_t.SOCKET_GID false true false;
   Details (chars "stop-command") setting_id_t.STOP_COMMAND false true true;
   Details (chars "pid-file") setting_id_t.PID_FILE false true false;
   Details (chars "depends-on") setting_id_t.DEPENDS_ON true false false;
   Details (chars "depends-ms") setting_id_t.DEPENDS_MS true false false;
   Details (chars "waits-for") setting_id_t.WAITS_FOR true false false;
   Details (chars "waits-for.d") setting_id_t.WAITS_FOR_D true false false;
   Details (chars "depends-on.d") setting_id_t.DEPENDS_ON_D true false false;
   Details (chars "depends-ms.d") setting_id_t.DEPENDS_MS_D true false false;
   Details (chars "after") setting_id_t.AFTER true false false;
   Details (chars "before") setting_id_t.BEFORE true false false;
   Details (chars "logfile") setting_id_t.LOGFILE false true false;
   Details (chars "logfile-permissions") setting_id_t.LOGFILE_PERMISSIONS false true false;
   Details (chars "logfile-uid") setting_id_t.LOGFILE_UID false true false;
   Details (chars "logfile-gid") setting_id_t.LOGFILE_GID false true false;
   Details (chars "log-type") setting_id_t.LOG_TYPE false true false;
   Details (chars "log-buffer-size") setting_id_t.LOG_BUFFER_SIZE false true false;
   Details (chars "consumer-of") setting_id_t.CONSUMER_OF false true false;
   Details (chars "restart") setting_id_t.RESTART false true false;
   Details (chars "smooth-recovery") setting_id_t.SMOOTH_RECOVERY false true false;
   Details (chars "options") setting_id_t.OPTIONS true true false;
   Details (chars "load-options") setting_id_t.LOAD_OPTIONS true true false;
   Details (chars "term-signal") setting_id_t.TERM_SIGNAL false true false;
   Details (chars "termsignal") setting_id_t.TERMSIGNAL false true false;
   Details (chars "restart-limit-interval") setting_id_t.RESTART_LIMIT_INTERVAL false true false;
   Details (chars "restart-delay") setting_id_t.RESTART_DELAY false true false;
   Details (chars "restart-limit-count") setting_id_t.RESTART_LIMIT_COUNT false true false;
   Details (chars "stop-timeout") setting_id_t.STOP_TIMEOUT false true false;
   Details (chars "start-timeout") setting_id_t.START_TIMEOUT false true false;
   Details (chars "run-as") setting_id_t.RUN_AS false true false;
   Details (chars "chain-to") setting_id_t.CHAIN_TO false true false;
   Details (chars "ready-notification") setting_id_t.READY_NOTIFICATION false true false;
   Details (chars "inittab-id") setting_id_t.INITTAB_ID false true false;
   Details (chars "inittab-line") setting_id_t.INITTAB_LINE false true false;
   Details (chars "rlimit-nofile") setting_id_t.SETTING_RLIMIT_NOFILE false true false;
   Details (chars "rlimit-core") setting_id_t.SETTING_RLIMIT_CORE false true false;
   Details (chars "rlimit-data") setting_id_t.SETTING_RLIMIT_DATA false true false;
   Details (chars "rlimit-addrspace") setting_id_t.SETTING_RLIMIT_ADDRSPACE false true false;
   Details (chars "nice") setting_id_t.NICE false true false].

Definition find_setting (name : text) : option setting_details :=
  List.find (λ d, text_eqb name (setting_str d)) all_settings.

(** ** Signals *)

Definition SIGQUIT : Z := 3.
Definition SIGCONT : Z := 18.
Definition SIGSTOP : Z := 19.
Definition signal_to_int_map : list (text * Z) :=
  [(chars "none", 0); (chars "NONE", 0); (chars "HUP", SIGHUP); (chars "INT", SIGINT);
   (chars "QUIT", SIGQUIT); (chars "KILL", SIGKILL); (chars "USR1", SIGUSR1);
   (chars "USR2", SIGUSR2); (chars "TERM", SIGTERM); (chars "CONT", SIGCONT);
   (chars "STOP", SIGSTOP)].
Definition signal_name_to_number (signame : text) : Z :=
  match List.find (λ p, text_eqb p.1 signame) signal_to_int_map with
  | Some p => p.2
  | None => -1
  end.

(** ** The settings *)

(** [(uid_t)-1], also for groups. *)
Definition NO_ID : Z := UINT_MAX.

(** [sizeof] of the members [ut_id] and [ut_line] of [utmpx]. *)
Definition UT_ID_SIZE : Z := 4.
Definition UT_LINE_SIZE : Z := 32.

Definition prelim_dep : Type := sid * dependency_type.

Module settings.
Record t := New {
  command : text;
  command_offsets : offsets;
  stop_command : text;
  stop_command_offsets : offsets;
  working_dir : text;
  pid_file : text;
  env_file : text;
  env_file_dir_fd : Z;
  export_passwd_vars : bool;
  export_service_name : bool;
  service_type : service_type_t;
  depends : list prelim_dep;
  before_svcs : list text;
  after_svcs : list text;
  log_type : log_type_id;
  logfile : text;
  logfile_perms : Z;
  logfile_uid : Z;
  logfile_uid_gid : Z;
  logfile_gid : Z;
  max_log_buffer_sz : Z;
  onstart_flags : service_flags_t;
  term_signal : Z;
  auto_restart : auto_restart_mode;
  smooth_recovery : bool;
  socket_path : text;
  socket_perms : Z;
  socket_uid : Z;
  socket_uid_gid : Z;
  socket_gid : Z;
  restart_interval : time_val;
  max_restarts : Z;
  restart_delay : time_val;
  stop_timeout : time_val;
  start_timeout : time_val;
  rlimits : list service_rlimits;
  readiness_fd : Z;
  readiness_var : text;
  run_as_uid : Z;
  run_as_uid_gid : Z;
  run_as_gid : Z;
  nice : option Z;             (* [nice_is_set] and [nice] *)
  chain_to_name : text;
  consumer_of_name : text;
  inittab_id : text;
  inittab_line : text
}.
#[export] Instance eta_settings : Eta t := λ s,
  New (command s) (command_offsets s) (stop_command s) (stop_command_offsets s) (working_dir s)
    (pid_file s) (env_file s) (env_file_dir_fd s) (export_passwd_vars s) (export_service_name s)
    (service_type s) (depends s) (before_svcs s) (after_svcs s) (log_type s) (logfile s)
    (logfile_perms s) (logfile_uid s) (logfile_uid_gid s) (logfile_gid s) (max_log_buffer_sz s)
    (onstart_flags s) (term_signal s) (auto_restart s) (smooth_recovery s) (socket_path s)
    (socket_perms s) (socket_uid s) (socket_uid_gid s) (socket_gid s) (restart_interval s)
    (max_restarts s) (restart_delay s) (stop_timeout s) (start_timeout s) (rlimits s)
    (readiness_fd s) (readiness_var s) (run_as_uid s) (run_as_uid_gid s) (run_as_gid s) (nice s)
    (chain_to_name s) (consumer_of_name s) (inittab_id s) (inittab_line s).

(** The initial values, with the defaults of the build's configuration. *)
Definition initial (default_auto_restart : auto_restart_mode)
    (default_stop_timeout default_start_timeout : Z) : t := {|
  command := []; command_offsets := []; stop_command := []; stop_command_offsets := [];
  working_dir := []; pid_file := []; env_file := []; env_file_dir_fd := -1;
  export_passwd_vars := false; export_service_name := false;
  service_type := service_type_t.INTERNAL; depends := []; before_svcs := []; after_svcs := [];
  log_type := log_type_id.NONE; logfile := []; logfile_perms := 384 (* 0600 *);
  logfile_uid := NO_ID; logfile_uid_gid := NO_ID; logfile_gid := NO_ID;
  max_log_buffer_sz := 4096; onstart_flags := service_flags_new; term_signal := SIGTERM;
  auto_restart := default_auto_restart; smooth_recovery := false; socket_path := [];
  socket_perms := 438 (* 0666 *); socket_uid := NO_ID; socket_uid_gid := NO_ID;
  socket_gid := NO_ID; restart_interval := Time_val 10 0; max_restarts := 3;
  restart_delay := Time_val 0 200000000; stop_timeout := Time_val default_stop_timeout 0;
  start_timeout := Time_val default_start_timeout 0; rlimits := []; readiness_fd := -1;
  readiness_var := []; run_as_uid := NO_ID; run_as_uid_gid := NO_ID; run_as_gid := NO_ID;
  nice := None; chain_to_name := []; consumer_of_name := []; inittab_id := [];
  inittab_line := [] |}.
End settings.
Export (hints) settings.

Definition RLIMIT_DATA : Z := 2.
Definition RLIMIT_CORE : Z := 4.
Definition RLIMIT_NOFILE : Z := 7.
Definition RLIMIT_AS : Z := 9.

(** ** Options *)

Definition apply_option (pos : file_pos) (opt : text) (f : service_flags_t)
    : result service_flags_t :=
  if text_eqb opt (chars "starts-rwfs") then Ok (f <| rw_ready := true |>)
  else if text_eqb opt (chars "starts-log") then Ok (f <| log_ready := true |>)
  else if text_eqb opt (chars "runs-on-console") then
    Ok (f <| runs_on_console := true |> <| starts_on_console := true |>
          <| shares_console := false |>)
  else if text_eqb opt (chars "starts-on-console") then
    Ok (f <| starts_on_console := true |> <| shares_console := false |>)
  else if text_eqb opt (chars "shares-console") then
    Ok (f <| shares_console := true |> <| runs_on_console := false |>
          <| starts_on_console := false |>)
  else if text_eqb opt (chars "unmask-intr") then Ok (f <| unmask_intr := true |>)
  else if text_eqb opt (chars "pass-cs-fd") then Ok (f <| pass_cs_fd := true |>)
  else if text_eqb opt (chars "start-interruptible") then Ok (f <| start_interruptible := true |>)
  else if text_eqb opt (chars "skippable") then Ok (f <| skippable := true |>)
  else if text_eqb opt (chars "signal-process-only") then Ok (f <| signal_process_only := true |>)
  else if text_eqb opt (chars "always-chain") then Ok (f <| always_chain := true |>)
  else if text_eqb opt (chars "kill-all-on-stop") then Ok (f <| kill_all_on_stop := true |>)
  else
    Throw (Description_exc pos (Some (chars "options")) (chars "unknown option: " ++ opt)).
Fixpoint apply_options (pos : file_pos) (opts : list text) (f : service_flags_t)
    : result service_flags_t :=
  match opts with
  | [] => Ok f
  | opt :: opts => try! f := apply_option pos opt f in apply_options pos opts f
  end.

Fixpoint apply_load_options (pos : file_pos) (opts : list text) (s : settings.t)
    : result settings.t :=
  match opts with
  | [] => Ok s
  | opt :: opts =>
      if text_eqb opt (chars "export-passwd-vars") then
        apply_load_options pos opts (s <| settings.export_passwd_vars := true |>)
      else if text_eqb opt (chars "export-service-name") then
        apply_load_options pos opts (s <| settings.export_service_name := true |>)
      else if text_eqb opt (chars "sub-vars") then apply_load_options pos opts s
      else
        Throw (Description_exc pos (Some (chars "load-options"))
                 (chars "unknown load option: " ++ opt))
  end.

Definition apply_ready_notification (pos : file_pos) (v : text) (s : settings.t)
    : result settings.t :=
  if starts_with v (chars "pipefd:") then
    try! fd := parse_unum_param pos (drop 7 v) INT_MAX in
    Ok (s <| settings.readiness_fd := fd |>)
  else if starts_with v (chars "pipevar:") then
    let var := drop 8 v in
    if bool_decide (var = []) then
      Throw (Description_exc pos (Some (chars "ready-notification"))
               (chars "invalid pipevar variable name"))
    else Ok (s <| settings.readiness_var := var |>)
  else
    Throw (Description_exc pos (Some (chars "ready-notification"))
             (chars "unrecognised setting: " ++ v)).

Definition quoted (s : text) : text := [QUOTE] ++ s ++ [QUOTE].
Definition log_type_err : text :=
  chars "log type must be one of: " ++ quoted (chars "file") ++ chars ", " ++ quoted (chars "buffer")
  ++ chars ", " ++ quoted (chars "pipe") ++ chars ", or " ++ quoted (chars "none").
Definition restart_err : text :=
  chars "restart must be one of: " ++ quoted (chars "yes") ++ chars ", " ++ quoted (chars "true")
  ++ chars ", " ++ quoted (chars "no") ++ chars ", " ++ quoted (chars "false") ++ chars " or "
  ++ quoted (chars "on-failure").
Definition recovery_err : text :=
  chars "smooth-recovery must be one of: " ++ quoted (chars "yes") ++ chars ", "
  ++ quoted (chars "true") ++ chars ", " ++ quoted (chars "no") ++ chars " or "
  ++ quoted (chars "false").
Definition type_err : text :=
  chars "service type must be one of: " ++ quoted (chars "scripted") ++ chars ", "
  ++ quoted (chars "process") ++ chars ", " ++ quoted (chars "bgprocess") ++ chars ", "
  ++ quoted (chars "internal") ++ chars " or " ++ quoted (chars "triggered").

(** ** One line

    [users], [groups] and [dup] stand for the system's databases and for the
    duplication of a descriptor. *)
Section line.
Context {S : Type}.
Context (users : text → option (Z * Z)) (groups : text → option Z) (dup : Z → option Z).
Context (service : text) (service_arg : option text) (lookup_var : text → option text).
Context (load_service : text → S → S * result sid).
Context (process_dep_dir : list prelim_dep → text → dependency_type → S
                           → S * result (list prelim_dep)).
Implicit Types (s : settings.t) (pos : file_pos) (id : setting_id_t).

(** The settings whose value is one word of a list. *)
Definition apply_choice {A} (v : text) (choices : list (text * A)) (err : load_exc) : result A :=
  match List.find (λ c, text_eqb v c.1) choices with
  | Some c => Ok c.2
  | None => Throw err
  end.

Definition apply_rlimit pos (param v : text) (resource : Z) s : result settings.t :=
  try! r := parse_rlimit pos v param (find_rlimits (settings.rlimits s) resource) in
  Ok (s <| settings.rlimits ::= (λ l, store_rlimits l r) |>).

(** [read_setting_value] into a setting that has parts. *)
Definition read_command (l : setting_line) (cmd : text) (os : offsets)
    : result (text * offsets) :=
  try! '(cmd, os) := read_setting_value cmd (sl_op l) (sl_pos l) (sl_value l) (Some os) SPACE in
  Ok (cmd, default [] os).

(** The cases of the switch on the setting, in groups in the order of the code; those of
    the settings that load services are below. *)
Definition set_process_value id (l : setting_line) s : result settings.t :=
  let pos := sl_pos l in
  let value := read_value pos (sl_value l) in
  match id with
  | setting_id_t.TERM_SIGNAL | setting_id_t.TERMSIGNAL =>
      try! v := value in
      let signo := signal_name_to_number v in
      if signo =? -1 then
        Throw (Description_exc pos (Some (sl_name l))
                 (chars "unknown/unsupported termination signal: " ++ v))
      else Ok (s <| settings.term_signal := signo |>)
  | setting_id_t.RESTART_LIMIT_INTERVAL =>
      try! v := value in
      try! t := parse_timespec pos v (chars "restart-limit-interval") in
      Ok (s <| settings.restart_interval := t |>)
  | setting_id_t.RESTART_DELAY =>
      try! v := value in
      try! t := parse_timespec pos v (chars "restart-delay") in
      Ok (s <| settings.restart_delay := t |>)
  | setting_id_t.RESTART_LIMIT_COUNT =>
      try! v := value in
      try! n := parse_unum_param pos v INT_MAX in
      Ok (s <| settings.max_restarts := n |>)
  | setting_id_t.STOP_TIMEOUT =>
      try! v := value in
      try! t := parse_timespec pos v (chars "stop-timeout") in
      Ok (s <| settings.stop_timeout := t |>)
  | setting_id_t.START_TIMEOUT =>
      try! v := value in
      try! t := parse_timespec pos v (chars "start-timeout") in
      Ok (s <| settings.start_timeout := t |>)
  | setting_id_t.RUN_AS =>
      try! v := value in
      try! '(uid, gid) := parse_uid_param users pos v (chars "run-as") in
      Ok (s <| settings.run_as_uid := uid |> <| settings.run_as_uid_gid ::= (λ g, default g gid) |>)
  | setting_id_t.CHAIN_TO => try! v := value in Ok (s <| settings.chain_to_name := v |>)
  | setting_id_t.READY_NOTIFICATION => try! v := value in apply_ready_notification pos v s
  | setting_id_t.INITTAB_ID =>
      try! v := value in
      if UT_ID_SIZE <? Z.of_nat (length v) then
        Throw (Description_exc pos None (chars "inittab-id setting is too long"))
      else Ok (s <| settings.inittab_id := c_string v |>)
  | setting_id_t.INITTAB_LINE =>
      try! v := value in
      if UT_LINE_SIZE <? Z.of_nat (length v) then
        Throw (Description_exc pos None (chars "inittab-line setting is too long"))
      else Ok (s <| settings.inittab_line := c_string v |>)
  | setting_id_t.SETTING_RLIMIT_NOFILE =>
      try! v := value in apply_rlimit pos (chars "rlimit-nofile") v RLIMIT_NOFILE s
  | setting_id_t.SETTING_RLIMIT_CORE =>
      try! v := value in apply_rlimit pos (chars "rlimit-core") v RLIMIT_CORE s
  | setting_id_t.SETTING_RLIMIT_DATA =>
      try! v := value in apply_rlimit pos (chars "rlimit-data") v RLIMIT_DATA s
  | setting_id_t.SETTING_RLIMIT_ADDRSPACE =>
      try! v := value in apply_rlimit pos (chars "rlimit-addrspace") v RLIMIT_AS s
  | _ => Ok s
  end.

Definition set_kind_value id (l : setting_line) s : result settings.t :=
  let pos := sl_pos l in
  let value := read_value pos (sl_value l) in
  match id with
  | setting_id_t.RESTART =>
      try! v := value in
      try! m := apply_choice v
        [(chars "yes", auto_restart_mode.ALWAYS); (chars "true", auto_restart_mode.ALWAYS);
         (chars "on-failure", auto_restart_mode.ON_FAILURE);
         (chars "no", auto_restart_mode.NEVER); (chars "false", auto_restart_mode.NEVER)]
        (Description_exc pos (Some (chars "restart")) restart_err) in
      Ok (s <| settings.auto_restart := m |>)
  | setting_id_t.SMOOTH_RECOVERY =>
      try! v := value in
      try! b := apply_choice v
        [(chars "yes", true); (chars "true", true); (chars "no", false); (chars "false", false)]
        (Description_exc pos (Some (chars "smooth-recovery")) recovery_err) in
      Ok (s <| settings.smooth_recovery := b |>)
  | setting_id_t.TYPE =>
      try! v := value in
      try! ty := apply_choice v
        [(chars "scripted", service_type_t.SCRIPTED); (chars "process", service_type_t.PROCESS);
         (chars "bgprocess", service_type_t.BGPROCESS);
         (chars "internal", service_type_t.INTERNAL);
         (chars "triggered", service_type_t.TRIGGERED)]
        (Description_exc pos (Some (chars "type")) type_err) in
      Ok (s <| settings.service_type := ty |>)
  | setting_id_t.OPTIONS =>
      try! '(v, parts) := read_value_parts pos (sl_value l) in
      try! f := apply_options pos (part v <$> parts) (settings.onstart_flags s) in
      Ok (s <| settings.onstart_flags := f |>)
  | setting_id_t.LOAD_OPTIONS =>
      try! '(v, parts) := read_value_parts pos (sl_value l) in
      apply_load_options pos (part v <$> parts) s
  | _ => set_process_value id l s
  end.

Definition set_log_value id (l : setting_line) s : result settings.t :=
  let pos := sl_pos l in
  let value := read_value pos (sl_value l) in
  let resolved := read_value_resolved service_arg lookup_var (sl_name l) pos (sl_value l) in
  match id with
  | setting_id_t.AFTER => try! v := resolved in Ok (s <| settings.after_svcs ::= (λ l, l ++ [v]) |>)
  | setting_id_t.BEFORE => try! v := resolved in Ok (s <| settings.before_svcs ::= (λ l, l ++ [v]) |>)
  | setting_id_t.LOGFILE =>
      try! v := value in
      let s := s <| settings.logfile := v |> in
      Ok (if negb (bool_decide (v = [])) && bool_decide (settings.log_type s = log_type_id.NONE)
          then s <| settings.log_type := log_type_id.LOGFILE |> else s)
  | setting_id_t.LOGFILE_PERMISSIONS =>
      try! v := value in
      try! p := parse_perms pos v (chars "logfile-permissions") in
      Ok (s <| settings.logfile_perms := p |>)
  | setting_id_t.LOGFILE_UID =>
      try! v := value in
      try! '(uid, gid) := parse_uid_param users pos v (chars "logfile-uid") in
      Ok (s <| settings.logfile_uid := uid |>
            <| settings.logfile_uid_gid ::= (λ g, default g gid) |>)
  | setting_id_t.LOGFILE_GID =>
      try! v := value in
      try! gid := parse_gid_param groups pos v (chars "logfile-gid") in
      Ok (s <| settings.logfile_gid := gid |>)
  | setting_id_t.LOG_TYPE =>
      try! v := value in
      try! ty := apply_choice v
        [(chars "file", log_type_id.LOGFILE); (chars "buffer", log_type_id.BUFFER);
         (chars "none", log_type_id.NONE); (chars "pipe", log_type_id.PIPE)]
        (Description_exc pos (Some (chars "log-type")) log_type_err) in
      Ok (s <| settings.log_type := ty |>)
  | setting_id_t.LOG_BUFFER_SIZE =>
      try! v := value in
      try! n := parse_unum_param pos v (UINT_MAX / 2) in
      Ok (s <| settings.max_log_buffer_sz := n |>)
  | setting_id_t.CONSUMER_OF =>
      try! v := resolved in
      if text_eqb v service then
        Throw (Description_exc pos (Some (chars "consumer-of"))
                 (chars "service cannot be its own consumer"))
      else Ok (s <| settings.consumer_of_name := v |>)
  | _ => set_kind_value id l s
  end.

Definition set_value id (l : setting_line) s : result settings.t :=
  let pos := sl_pos l in
  let value := read_value pos (sl_value l) in
  let resolved := read_value_resolved service_arg lookup_var (sl_name l) pos (sl_value l) in
  match id with
  | setting_id_t.COMMAND =>
      try! '(cmd, os) := read_command l (settings.command s) (settings.command_offsets s) in
      Ok (s <| settings.command := cmd |> <| settings.command_offsets := os |>)
  | setting_id_t.STOP_COMMAND =>
      try! '(cmd, os) := read_command l (settings.stop_command s) (settings.stop_command_offsets s) in
      Ok (s <| settings.stop_command := cmd |> <| settings.stop_command_offsets := os |>)
  | setting_id_t.WORKING_DIR => try! v := value in Ok (s <| settings.working_dir := v |>)
  | setting_id_t.ENV_FILE =>
      try! v := resolved in
      let s := s <| settings.env_file := v |> in
      if deref v =? SLASH then Ok s
      else
        match dup (sl_dir l) with
        | None => Throw (System_error (chars "dup"))
        | Some fd => Ok (s <| settings.env_file_dir_fd := fd |>)
        end
  | setting_id_t.NICE =>
      try! v := value in
      try! n := parse_snum_param pos v (Z.quot INT_MIN 2) (Z.quot INT_MAX 2) in
      Ok (s <| settings.nice := Some n |>)
  | setting_id_t.SOCKET_LISTEN => try! v := value in Ok (s <| settings.socket_path := v |>)
  | setting_id_t.SOCKET_PERMISSIONS =>
      try! v := value in
      try! p := parse_perms pos v (chars "socket-permissions") in
      Ok (s <| settings.socket_perms := p |>)
  | setting_id_t.SOCKET_UID =>
      try! v := value in
      try! '(uid, gid) := parse_uid_param users pos v (chars "socket-uid") in
      Ok (s <| settings.socket_uid := uid |> <| settings.socket_uid_gid ::= (λ g, default g gid) |>)
  | setting_id_t.SOCKET_GID =>
      try! v := value in
      try! gid := parse_gid_param groups pos v (chars "socket-gid") in
      Ok (s <| settings.socket_gid := gid |>)
  | setting_id_t.PID_FILE => try! v := value in Ok (s <| settings.pid_file := v |>)
  | _ => set_log_value id l s
  end.

(** The settings that load services: the type of the dependency, and whether the
    value names a directory of services. *)
Definition dependency_setting id : option (dependency_type * bool) :=
  match id with
  | setting_id_t.DEPENDS_ON => Some (dependency_type.REGULAR, false)
  | setting_id_t.DEPENDS_MS => Some (dependency_type.MILESTONE, false)
  | setting_id_t.WAITS_FOR => Some (dependency_type.WAITS_FOR, false)
  | setting_id_t.WAITS_FOR_D => Some (dependency_type.WAITS_FOR, true)
  | setting_id_t.DEPENDS_ON_D => Some (dependency_type.REGULAR, true)
  | setting_id_t.DEPENDS_MS_D => Some (dependency_type.MILESTONE, true)
  | _ => None
  end.
Definition add_dependency (ty : dependency_type) (directory : bool) (l : setting_line) s (st : S)
    : S * result settings.t :=
  match read_value_resolved service_arg lookup_var (sl_name l) (sl_pos l) (sl_value l) with
  | Throw e => (st, Throw e)
  | Ok v =>
      if directory then
        let '(st, r) := process_dep_dir (settings.depends s) v ty st in
        (st, try! deps := r in Ok (s <| settings.depends := deps |>))
      else
        let '(st, r) := load_service v st in
        (st, try! x := r in Ok (s <| settings.depends ::= (λ l, l ++ [(x, ty)]) |>))
  end.

Definition process_service_line (l : setting_line) s (st : S) : S * result settings.t :=
  match find_setting (sl_name l) with
  | None =>
      (st, Throw (Description_exc (sl_pos l) None
                    (chars "unknown setting: '" ++ sl_name l ++ chars "'.")))
  | Some d =>
      match sl_op l, supp_plus_assign d with
      | PLUSASSIGN, false =>
          (st, Throw (Description_exc (sl_pos l) None
                        (chars "cannot use '+=' with setting '" ++ sl_name l ++ chars "'")))
      | _, _ =>
          match dependency_setting (setting_id d) with
          | Some (ty, directory) => add_dependency ty directory l s st
          | None => (st, set_value (setting_id d) l s)
          end
      end
  end.
End line.

(** ** After the last line

    [finalise], as the loader calls it: errors are thrown, and nothing is linted.
    [my_uid] and [my_gid] are the IDs of the process. *)
Section finalise.
Context (service_arg : option text) (var_subst : text → option text) (my_uid my_gid : Z).
Implicit Types (s : settings.t).

Definition report_error_if (b : bool) (msg : string) : result unit :=
  if b then Throw (Service_load_exc (chars msg)) else Ok tt.

Definition do_resolve (setting value : text) : result text :=
  try! '(value, _) := value_var_subst setting var_subst service_arg value
                        [(0, Z.of_nat (length value))] in
  Ok value.

Definition is_type s (tys : list service_type_t) : bool :=
  bool_decide (settings.service_type s ∈ tys).

(** The checks before the paths are resolved. *)
Definition check_settings s : result unit :=
  try! _ := report_error_if
    (is_type s [service_type_t.PROCESS; service_type_t.BGPROCESS; service_type_t.SCRIPTED]
     && bool_decide (settings.command s = []))
    "'command' setting not specified." in
  try! _ := report_error_if
    (is_type s [service_type_t.BGPROCESS] && bool_decide (settings.pid_file s = []))
    "process ID file ('pid-file') not specified for bgprocess service." in
  try! _ := report_error_if
    (is_type s [service_type_t.BGPROCESS]
     && (negb (settings.readiness_fd s =? -1) || negb (bool_decide (settings.readiness_var s = []))))
    "readiness notification ('ready-notification') is not supported for bgprocess services." in
  report_error_if
    (kill_all_on_stop (settings.onstart_flags s)
     && negb (is_type s [service_type_t.INTERNAL; service_type_t.SCRIPTED]))
    "kill-all-on-stop can only be set on scripted or internal services.".

Definition default_id (other id : Z) : Z := if id =? NO_ID then other else id.

(** The owners that were not set. *)
Definition default_owners s : settings.t :=
  let s := s <| settings.socket_gid ::= default_id (settings.socket_uid_gid s) |> in
  let s := s <| settings.logfile_uid ::= default_id my_uid |> in
  let s := s <| settings.logfile_gid ::= default_id (settings.logfile_uid_gid s) |> in
  let s := s <| settings.logfile_gid ::= default_id my_gid |> in
  if (settings.run_as_uid_gid s =? NO_ID) && (settings.run_as_gid s =? NO_ID)
  then s <| settings.run_as_gid := my_gid |> else s.

Definition finalise s : result settings.t :=
  try! _ := check_settings s in
  try! socket_path := do_resolve (chars "socket-listen") (settings.socket_path s) in
  try! logfile := do_resolve (chars "logfile") (settings.logfile s) in
  try! working_dir := do_resolve (chars "working-dir") (settings.working_dir s) in
  try! pid_file := do_resolve (chars "pid-file") (settings.pid_file s) in
  let s := s <| settings.socket_path := socket_path |> <| settings.logfile := logfile |>
             <| settings.working_dir := working_dir |> <| settings.pid_file := pid_file |> in
  let s := default_owners s in
  let s := if bool_decide (settings.log_type s = log_type_id.LOGFILE) then s
           else s <| settings.logfile := [] |> in
  try! _ := report_error_if
    (negb (is_type s [service_type_t.PROCESS; service_type_t.BGPROCESS])
     && negb (bool_decide (settings.consumer_of_name s = [])))
    "only a process or bgprocess service can be a log consumer ('consumer-of') another service." in
  Ok s.
End finalise.

(** The callback that the loader gives to [process_service_file]: the settings and
    the state of the loader are kept when a line is rejected. *)
Definition line_callback {S : Type}
    (line : setting_line → settings.t → S → S * result settings.t)
    (l : setting_line) (a : settings.t * S) : (settings.t * S) * result unit :=
  match line l a.1 a.2 with
  | (st, Ok s) => ((s, st), Ok tt)
  | (st, Throw e) => ((a.1, st), Throw e)
  end.
