(* ===== verification/SettingsLaws.v ===== *)
(** * The settings of a service stay well formed

    Whatever lines a service description has, the settings that are read from it
    are within the ranges that the rest of the program relies on, and the parts of
    a command lie in its text as the substitution of variables expects them. *)

From S2P Require Import Prelude Text TimeVal ServiceData Process SettingValue SettingProps VarSubst VarSubstProps ServiceFile Settings.

(** ** The parts of a command *)

Definition spaces (s : text) : Prop := Forall (λ c, c = SPACE) s.

(** The parts [os] in the text [v ++ sp]: they are separated by spaces, and [sp] are
    the spaces behind the last one. *)
Inductive laid : offsets → text → text → Prop :=
| laid_none sp : spaces sp → laid [] [] sp
| laid_part os v sp t sp' :
    laid os v sp → os = [] ∨ sp ≠ [] → spaces sp' →
    laid (os ++ [(Z.of_nat (length (v ++ sp)), Z.of_nat (length (v ++ sp)) + Z.of_nat (length t))])
      ((v ++ sp) ++ t) sp'.
Definition laid_in (os : offsets) (val : text) : Prop := ∃ v sp, val = v ++ sp ∧ laid os v sp.

Lemma laid_spaces os v sp : laid os v sp → spaces sp.
Proof. by destruct 1. Qed.

Lemma laid_space os v sp : laid os v sp → laid os v (sp ++ [SPACE]).
Proof.
  intros H. assert (spaces (sp ++ [SPACE])) as Hsp
    by (apply Forall_app; split; [by eapply laid_spaces|by constructor]).
  destruct H; by constructor.
Qed.

(** The loop of [read_setting_value]: where a part can begin, the text has no part
    yet or ends with a space; in a part, that held at its beginning. *)
Definition can_begin (os : offsets) (val : text) : Prop :=
  ∃ v sp, val = v ++ sp ∧ laid os v sp ∧ (os = [] ∨ sp ≠ []).
Definition reading (val : text) (os : offsets) (new_part : bool) (start : Z) : Prop :=
  if new_part then can_begin os val
  else ∃ v t, val = v ++ t ∧ start = Z.of_nat (length v) ∧ can_begin os v.

Lemma can_begin_empty : can_begin [] [].
Proof. exists [], []. split; [done|]. split; [apply laid_none; constructor|by left]. Qed.

Lemma can_begin_space os val : laid_in os val → can_begin os (val ++ [SPACE]).
Proof.
  intros (v & sp & -> & Hl). exists v, (sp ++ [SPACE]). rewrite app_assoc.
  split; [done|]. split; [by apply laid_space|]. right. by destruct sp.
Qed.

Lemma reading_char val os np start c :
  reading val os np start →
  reading (val ++ c) os false (if np then Z.of_nat (length val) else start).
Proof.
  intros H. destruct np; cbn [reading] in *.
  - by exists val, c.
  - destruct H as (v & t & -> & Hs & Hb). exists v, (t ++ c). by rewrite app_assoc.
Qed.

Lemma reading_end val os np start ps' :
  reading val os np start → end_part (Some os) np start val = Some ps' → laid_in ps' val.
Proof.
  destruct np; cbn [reading end_part].
  - intros (v & sp & -> & Hl & _) [= <-]. by exists v, sp.
  - intros (v0 & t & -> & -> & v & sp & -> & Hl & Hb) [= <-].
    exists ((v ++ sp) ++ t), []. split; [by rewrite app_nil_r|].
    rewrite (length_app _ t), Nat2Z.inj_add. apply laid_part; [done..|constructor].
Qed.

Lemma reading_space val os np start ps' :
  reading val os np start → end_part (Some os) np start val = Some ps' →
  reading (val ++ [SPACE]) ps' true start.
Proof. intros H He. eapply can_begin_space, reading_end; eauto. Qed.

Lemma read_quoted_app s val pos val' rest :
  read_quoted s val pos = Ok (val', rest) →
  (∃ q, val' = val ++ q) ∧ (length rest ≤ length s)%nat.
Proof.
  assert (∀ n s val, (length s < n)%nat → read_quoted s val pos = Ok (val', rest) →
    (∃ q, val' = val ++ q) ∧ (length rest ≤ length s)%nat) as Hall; [|apply (Hall (S (length s))); lia].
  clear. induction n as [|n IH]; intros s val Hn; [lia|].
  destruct s as [|c s]; cbn [read_quoted length] in *; [done|].
  destruct (c =? QUOTE).
  { intros [= <- <-]. split; [exists []; by rewrite app_nil_r|done]. }
  destruct (c =? BACKSLASH); [destruct s as [|d s]; [done|]|]; cbn [length] in *;
    intros H; apply IH in H as [[q ->] H]; try lia;
    (split; [eexists; by rewrite <- app_assoc|lia]).
Qed.

Lemma skip_comment_length com s line : (length (skip_comment_from com s line).1 ≤ length s)%nat.
Proof.
  revert com line. induction s as [|c s IH]; intros com line; cbn [skip_comment_from]; [done|].
  destruct (if c =? HASH then _ else _) as [com' line']. destruct (_ && _); [done|].
  specialize (IH com' line'). cbn [length]. lia.
Qed.

Lemma skip_comment_shorter c s line : is_space c = true →
  (length (skip_comment (c :: s) line).1 ≤ length s)%nat.
Proof.
  intros Hc. destruct (space_char c Hc) as (Hh & _). unfold skip_comment. cbn [skip_comment_from].
  rewrite Hh. destruct (c =? NEWLINE); rewrite Hc; cbn [negb andb]; apply skip_comment_length.
Qed.

Lemma end_part_prefix pre os np start val :
  ∃ os', end_part (Some (pre ++ os)) np start val = Some (pre ++ os')
    ∧ end_part (Some os) np start val = Some os'.
Proof. destruct np; cbn [end_part]; eexists; split; try done. by rewrite app_assoc. Qed.

(** The parts [pre] were there before. *)
Lemma read_value_loop_laid fuel pre pos s val os np start val' ps :
  (length s < fuel)%nat → reading val os np start →
  read_value_loop fuel pos s val (Some (pre ++ os)) np start = Ok (val', Some ps) →
  ∃ os', ps = pre ++ os' ∧ laid_in os' val'.
Proof.
  revert pos s val os np start. induction fuel as [|fuel IH]; intros pos s val os np start Hf H;
    [lia|]. destruct (end_part_prefix pre os np start val) as (os1 & He & He1).
  destruct s as [|c s]; cbn [read_value_loop length] in *; rewrite ?He.
  { intros [= <- <-]. exists os1. split; [done|]. by eapply reading_end. }
  destruct (c =? QUOTE).
  - destruct (read_quoted s val pos) as [[v r]|e] eqn:Eq; [|done]. cbn [rbind].
    apply read_quoted_app in Eq as [[q ->] Hr]. apply IH; [destruct r; cbn in *; lia|].
    by apply reading_char.
  - destruct (c =? BACKSLASH).
    { destruct s as [|d s]; [done|]. apply IH; [cbn in Hf; lia|by apply reading_char]. }
    destruct (is_space c) eqn:Hc.
    + pose proof (skip_comment_shorter c s (line_num pos) Hc) as Hlen.
      destruct (skip_comment (c :: s) (line_num pos)) as [r line]. cbn [fst] in Hlen.
      rewrite (bool_decide_true (is_Some _)) by by eexists. rewrite orb_true_r.
      destruct (bool_decide (r = [])).
      * intros [= <- <-]. exists os1. split; [done|]. by eapply reading_end.
      * apply IH; [lia|by eapply reading_space].
    + destruct (c =? HASH); [done|]. apply IH; [lia|by apply reading_char].
Qed.

Lemma skip_ws_ln_length s line : (length (skip_ws_ln s line).1 ≤ length s)%nat.
Proof.
  revert line. induction s as [|c s IH]; intros line; cbn [skip_ws_ln]; [done|].
  destruct (is_space c); [|done]. etransitivity; [apply IH|cbn; lia].
Qed.

Lemma read_value_loop_some fuel pos s val os np start val' r :
  read_value_loop fuel pos s val (Some os) np start = Ok (val', r) → is_Some r.
Proof.
  assert (∀ os np start val, is_Some (end_part (Some os) np start val)) as He
    by (intros os0 np0 start0 val0; destruct np0; by eexists).
  revert pos s val os np start.
  induction fuel as [|fuel IH]; intros pos s val os np start; [intros [= _ <-]; apply He|].
  destruct s as [|c s]; cbn [read_value_loop]; [intros [= _ <-]; apply He|].
  destruct (c =? QUOTE).
  { destruct (read_quoted s val pos) as [[v rest]|e]; [|done]. cbn [rbind]. apply IH. }
  destruct (c =? BACKSLASH); [destruct s; [done|apply IH]|].
  destruct (is_space c).
  - destruct (skip_comment _ _) as [rest line]. destruct (He os np start val) as [ps ->].
    destruct (bool_decide (rest = [])); [intros [= _ <-]; apply He|apply IH].
  - destruct (c =? HASH); [done|apply IH].
Qed.

(** The parts of a command: appending to an empty value adds no space, so that any
    number of empty parts can be in front, at the same place. *)
Definition command_ok (val : text) (os : offsets) : Prop :=
  ∃ k os', os = replicate k (0, 0) ++ os' ∧ laid_in os' val.

Lemma laid_empty os : laid_in os [] → os = [] ∨ os = [(0, 0)].
Proof.
  intros (v & sp & [-> ->]%eq_sym%app_eq_nil & Hl).
  inversion Hl as [sp Hsp|os' v sp t sp' Hl' Hv Hsp E1 E2 E3]; [by left|].
  apply app_eq_nil in E2 as [[-> ->]%app_eq_nil ->].
  destruct Hv as [->|Hu]; [by right|done].
Qed.

(** Assigning or appending to a command. *)
Lemma read_command_ok val op pos s os val' os' :
  command_ok val os → read_setting_value val op pos s (Some os) SPACE = Ok (val', Some os') →
  command_ok val' os'.
Proof.
  intros (k & os1 & -> & Hl). unfold read_setting_value.
  destruct (skip_ws_ln s (line_num pos)) as [r line].
  assert (∀ k v os2, can_begin os2 v →
    read_value_loop (S (length r)) (at_line pos line) r v (Some (replicate k (0, 0) ++ os2)) true 0
      = Ok (val', Some os') → command_ok val' os') as Hrun.
  { intros k' v os2 Hr Heq. apply read_value_loop_laid in Heq as (os3 & -> & Hl3); [|lia|done].
    by exists k', os3. }
  destruct op; cbn [fmap option_fmap option_map].
  1, 2: apply (Hrun 0%nat [] []), can_begin_empty.
  case_bool_decide as Hv.
  - subst. destruct (laid_empty _ Hl) as [->| ->].
    + apply (Hrun k [] []), can_begin_empty.
    + rewrite <- (app_nil_r (replicate k (0, 0) ++ [(0, 0)])).
      change [(0, 0)] with (replicate 1 (0, 0)). rewrite <- replicate_add.
      apply (Hrun (k + 1)%nat [] []), can_begin_empty.
  - by apply Hrun, can_begin_space.
Qed.

(** Such parts are what [value_var_subst] expects. *)
Lemma tokens_at_gap pos g s os ts :
  Forall (λ c, c ≠ DOLLAR) g → tokens_at (pos + Z.of_nat (length g)) s os ts →
  tokens_at pos (g ++ s) os ts.
Proof.
  intros Hg H. remember (pos + Z.of_nat (length g)) as q eqn:E.
  destruct H as [s|gap t s os ts Hgap He Ht]; [constructor|]. subst q.
  rewrite app_assoc.
  replace (pos + Z.of_nat (length g) + Z.of_nat (length gap))
    with (pos + Z.of_nat (length (g ++ gap))) in * by (rewrite length_app; lia).
  apply tokens_more; [by apply Forall_app|done|done].
Qed.

Lemma laid_tokens os v sp : laid os v sp → ∀ rest osr tsr,
  os = [] ∨ sp ≠ [] ∨ rest = [] →
  tokens_at (Z.of_nat (length (v ++ sp))) rest osr tsr →
  ∃ ts, tokens_at 0 ((v ++ sp) ++ rest) (os ++ osr) (ts ++ tsr).
Proof.
  induction 1 as [sp Hsp|os v sp t sp' Hl IH Hb Hsp']; intros rest osr tsr Hr Ht.
  - exists []. cbn [app]. apply tokens_at_gap; [|done].
    eapply Forall_impl; [|exact Hsp]. by intros c ->.
  - assert (ends_token (sp' ++ rest)) as He.
    { destruct sp' as [|c sp']; [|right; by rewrite (Forall_inv Hsp')].
      left. destruct Hr as [Hr|[Hr|Hr]]; [|done|done]. by destruct os. }
    destruct (IH (t ++ sp' ++ rest)
      ((Z.of_nat (length (v ++ sp)), Z.of_nat (length (v ++ sp)) + Z.of_nat (length t)) :: osr)
      (t :: tsr)) as [ts Hts].
    + destruct Hb; auto.
    + pose proof (tokens_more (Z.of_nat (length (v ++ sp))) [] t (sp' ++ rest) osr tsr) as Hm.
      cbn [length app Z.of_nat] in Hm. rewrite !Z.add_0_r in Hm. apply Hm; [constructor|done|].
      apply tokens_at_gap; [eapply Forall_impl; [|exact Hsp']; by intros c ->|].
      replace (_ + _ + _) with (Z.of_nat (length (((v ++ sp) ++ t) ++ sp')))
        by (rewrite !length_app; lia). done.
    + exists (ts ++ [t]). rewrite <- !app_assoc. cbn [app].
      rewrite <- !app_assoc in Hts. done.
Qed.

Lemma laid_in_tokens os val : laid_in os val → tokens_at 0 val os (part val <$> os).
Proof.
  intros (v & sp & -> & Hl).
  destruct (laid_tokens os v sp Hl [] [] []) as [ts Hts]; [by auto|constructor|].
  rewrite !app_nil_r in Hts. pose proof (tokens_at_parts [] _ _ _ Hts) as Hp. cbn [app] in Hp.
  by rewrite Hp.
Qed.

(** ** Ranges *)

Definition id_ok (id : Z) : Prop := 0 ≤ id ≤ UINT_MAX.
Definition time_ok (t : time_val) : Prop := normal t ∧ 0 ≤ seconds t ≤ LLONG_MAX.
Definition limit_ok (r : service_rlimits) : Prop :=
  0 ≤ rlim_cur r ≤ RLIM_INFINITY ∧ 0 ≤ rlim_max r ≤ RLIM_INFINITY.
Definition limits_ok (l : list service_rlimits) : Prop :=
  NoDup (resource_id <$> l) ∧ Forall limit_ok l.

(** A service that runs on the console starts on it, and one that shares the
    console does not start on it. *)
Definition console_flags_ok (f : service_flags_t) : Prop :=
  (runs_on_console f = true → starts_on_console f = true)
  ∧ (shares_console f = true → starts_on_console f = false).

Lemma stoull_bounds s v ind : stoull s 0 = Value v ind → 0 ≤ v ≤ ULLONG_MAX.
Proof.
  unfold stoull, converted. destruct (strtoull 0 (c_string s)) as [[[w range] rest]|] eqn:E;
    [|done].
  apply strtoull_bounds in E; [|done].
  destruct (_ || _); [done|]. by intros [= <- _].
Qed.

Lemma parse_unum_bounds pos param max v : parse_unum_param pos param max = Ok v → 0 ≤ v ≤ max.
Proof.
  unfold parse_unum_param. destruct (stoull param 0) as [w ind| |] eqn:E; [|done..].
  apply stoull_bounds in E. destruct (Z.ltb_spec max w); [done|]. cbn [orb].
  destruct (negb _); [done|]. intros [= <-]. lia.
Qed.

Lemma parse_snum_bounds pos param min max v :
  parse_snum_param pos param min max = Ok v → min ≤ v ≤ max.
Proof.
  unfold parse_snum_param. destruct (stoll param 0) as [w ind| |]; [|done..].
  destruct (Z.ltb_spec w min); [done|]. destruct (Z.ltb_spec max w); [done|]. cbn [orb].
  destruct (negb _); [done|]. intros [= <-]. lia.
Qed.

Lemma parse_limit_bounds pos s param v rest :
  parse_limit pos s param = Ok (v, rest) → 0 ≤ v ≤ RLIM_INFINITY.
Proof.
  unfold parse_limit. destruct (strtoull 0 s) as [[[w range] r]|] eqn:E; [|done].
  apply strtoull_bounds in E; [|done]. destruct range; [done|]. by intros [= <- _].
Qed.

Lemma parse_rlimit_ok pos line param r r' :
  limit_ok r → parse_rlimit pos line param r = Ok r' → limit_ok r' ∧ resource_id r' = resource_id r.
Proof.
  intros [Hc Hm]. unfold parse_rlimit. cbv zeta. set (s0 := c_string line).
  assert (∀ s q, limit_ok q → resource_id q = resource_id r →
    (if bool_decide (s = []) then Ok q
     else if deref s =? MINUS
          then if bool_decide (tail s = [])
               then Ok (q <| hard_set := true |> <| rlim_max := RLIM_INFINITY |>)
               else Throw (Description_exc pos None (param ++ chars ": bad value."))
          else try! '(limit, _) := parse_limit pos s param in
               Ok (q <| hard_set := true |> <| rlim_max := limit |>)) = Ok r' →
    limit_ok r' ∧ resource_id r' = resource_id r) as Hhard.
  { intros s q [Hqc Hqm] Hid. destruct (bool_decide (s = [])); [by intros [= <-]|].
    destruct (deref s =? MINUS).
    - destruct (bool_decide _); [|done]. intros [= <-]. unfold limit_ok. rsimpl.
      split; [|done]. split; [done|]. unfold RLIM_INFINITY. lia.
    - destruct (parse_limit pos s param) as [[limit rest]|] eqn:E; [|done]. cbn [rbind].
      apply parse_limit_bounds in E. intros [= <-]. unfold limit_ok. by rsimpl. }
  destruct (bool_decide (line = [])); [done|].
  destruct (deref s0 =? COLON); [by apply Hhard|].
  destruct (if deref s0 =? MINUS then _ else _) as [[limit s]|e] eqn:E; cbn [rbind]; [|done].
  assert (0 ≤ limit ≤ RLIM_INFINITY) as Hl.
  { destruct (deref s0 =? MINUS); [|by eapply parse_limit_bounds].
    injection E as <- _. unfold RLIM_INFINITY. lia. }
  destruct (bool_decide (s = [])) eqn:Es.
  - intros [= <-]. unfold limit_ok. by rsimpl.
  - destruct (deref s =? COLON); [|done]. cbn [negb]. by apply Hhard.
Qed.

Lemma find_rlimits_ok l id : limits_ok l → limit_ok (find_rlimits l id).
Proof.
  intros [_ Hl]. induction Hl as [|r l Hr Hl IH]; cbn [find_rlimits].
  - unfold limit_ok, RLIM_INFINITY. cbn. lia.
  - by destruct (_ =? _).
Qed.

Lemma store_rlimits_ids l r x :
  x ∈ resource_id <$> store_rlimits l r → x = resource_id r ∨ x ∈ resource_id <$> l.
Proof.
  induction l as [|q l IH]; cbn [store_rlimits].
  - cbn. set_solver.
  - destruct (Z.eqb_spec (resource_id q) (resource_id r)) as [E|E]; cbn; set_solver.
Qed.

Lemma store_rlimits_ok l r : limits_ok l → limit_ok r → limits_ok (store_rlimits l r).
Proof.
  intros [Hn Hl] Hr. induction l as [|q l IH]; cbn [store_rlimits].
  - split; [cbn; apply NoDup_singleton|by apply Forall_singleton].
  - cbn in Hn. apply list.NoDup_cons in Hn as [Hq Hn]. apply Forall_cons_1 in Hl as [Hql Hl].
    destruct (Z.eqb_spec (resource_id q) (resource_id r)) as [E|E].
    + split; [|by constructor]. cbn. apply list.NoDup_cons. by rewrite <- E.
    + destruct (IH Hn Hl) as [Hn' Hl']. split; [|by constructor].
      cbn. apply list.NoDup_cons. split; [|done].
      intros Hin%store_rlimits_ids. destruct Hin; [congruence|done].
Qed.

(** ** The invariant *)

Section line.
Context {S : Type}.
Context (users : text → option (Z * Z)) (groups : text → option Z) (dup : Z → option Z).
Context (service : text) (service_arg : option text) (lookup_var : text → option text).
(** The databases of the system only have IDs of the type [uid_t] and [gid_t]. *)
Context (users_ok : ∀ name u, users name = Some u → id_ok u.1 ∧ id_ok u.2)
  (groups_ok : ∀ name g, groups name = Some g → id_ok g).

Record settings_ok (s : settings.t) : Prop := {
  ok_command : command_ok (settings.command s) (settings.command_offsets s);
  ok_stop_command : command_ok (settings.stop_command s) (settings.stop_command_offsets s);
  ok_logfile_ids : id_ok (settings.logfile_uid s) ∧ id_ok (settings.logfile_uid_gid s)
    ∧ id_ok (settings.logfile_gid s);
  ok_socket_ids : id_ok (settings.socket_uid s) ∧ id_ok (settings.socket_uid_gid s)
    ∧ id_ok (settings.socket_gid s);
  ok_run_as_ids : id_ok (settings.run_as_uid s) ∧ id_ok (settings.run_as_uid_gid s)
    ∧ id_ok (settings.run_as_gid s);
  ok_restart_times : time_ok (settings.restart_interval s) ∧ time_ok (settings.restart_delay s);
  ok_timeouts : time_ok (settings.stop_timeout s) ∧ time_ok (settings.start_timeout s);
  ok_limits : limits_ok (settings.rlimits s);
  ok_console : console_flags_ok (settings.onstart_flags s);
  ok_buffer : 0 ≤ settings.max_log_buffer_sz s ≤ UINT_MAX / 2;
  ok_restarts : 0 ≤ settings.max_restarts s ≤ INT_MAX;
  ok_readiness : -1 ≤ settings.readiness_fd s ≤ INT_MAX;
  ok_signal : 0 ≤ settings.term_signal s;
  ok_nice : ∀ n, settings.nice s = Some n → Z.quot INT_MIN 2 ≤ n ≤ Z.quot INT_MAX 2;
  ok_inittab : Z.of_nat (length (settings.inittab_id s)) ≤ UT_ID_SIZE
    ∧ Z.of_nat (length (settings.inittab_line s)) ≤ UT_LINE_SIZE;
  ok_consumer : service ≠ [] → settings.consumer_of_name s ≠ service
}.

Lemma parse_uid_ok pos param setting uid gid :
  parse_uid_param users pos param setting = Ok (uid, gid) → id_ok uid ∧ ∀ g, gid = Some g → id_ok g.
Proof.
  unfold parse_uid_param. destruct (stoull param 0) as [v ind| |] eqn:E; [| |done].
  - apply stoull_bounds in E. destruct (Z.ltb_spec UINT_MAX v); [done|]. cbn [orb].
    destruct (negb _); [done|]. intros [= <- <-]. unfold id_ok. split; [lia|done].
  - destruct (users (c_string param)) as [[u g]|] eqn:Eu; [|done]. intros [= <- <-].
    destruct (users_ok _ _ Eu). split; [done|]. by intros g' [= <-].
Qed.

Lemma parse_gid_ok pos param setting gid :
  parse_gid_param groups pos param setting = Ok gid → id_ok gid.
Proof.
  unfold parse_gid_param. destruct (stoull param 0) as [v ind| |] eqn:E; [| |done].
  - apply stoull_bounds in E. destruct (Z.ltb_spec UINT_MAX v); [done|]. cbn [orb].
    destruct (negb _); [done|]. intros [= <-]. unfold id_ok. lia.
  - destruct (groups (c_string param)) as [g|] eqn:Eg; [|done]. intros [= <-]. by eapply groups_ok.
Qed.

Lemma default_id_ok gid g : (∀ x, gid = Some x → id_ok x) → id_ok g → id_ok (default g gid).
Proof. intros H Hg. destruct gid; [by apply H|done]. Qed.

Lemma apply_options_ok pos opts f f' :
  console_flags_ok f → apply_options pos opts f = Ok f' → console_flags_ok f'.
Proof.
  revert f. induction opts as [|opt opts IH]; intros f [H1 H2]; cbn [apply_options].
  - by intros [= <-].
  - destruct (apply_option pos opt f) as [f1|e] eqn:E; [|done]. cbn [rbind]. apply IH.
    unfold apply_option in E.
    repeat (destruct (text_eqb opt _); [injection E as <-; split; rsimpl; auto; done|]).
    done.
Qed.

Lemma c_string_length v : (length (c_string v) ≤ length v)%nat.
Proof. induction v as [|c v IH]; cbn [c_string]; [done|]. destruct (c =? 0); cbn; lia. Qed.

Lemma signal_nonneg name : signal_name_to_number name ≠ -1 → 0 ≤ signal_name_to_number name.
Proof.
  unfold signal_name_to_number. destruct (List.find _ _) as [[n z]|] eqn:E; [|done].
  apply find_some in E as [Hin _]. intros _. cbn [snd].
  assert (Forall (λ p : text * Z, 0 ≤ p.2) signal_to_int_map) as Hall by by repeat constructor.
  rewrite List.Forall_forall in Hall. by apply (Hall (n, z)).
Qed.

(** A step of a setting's handler: the next value that is read or checked. *)
Ltac ok_step :=
  match goal with
  | |- rbind ?r _ = Ok _ → _ =>
      let E := fresh "E" in
      destruct r eqn:E; cbn [rbind]; [|done];
      repeat match goal with p : (_ * _)%type |- _ => destruct p end
  | |- (if ?b then Throw _ else _) = Ok _ → _ => destruct b eqn:?; [done|]
  | |- (if negb ?b then Throw _ else _) = Ok _ → _ => destruct b eqn:?; cbn [negb]; [|done]
  end.
Ltac ok_record s H :=
  constructor;
  [try exact (ok_command s H)
  |try exact (ok_stop_command s H)
  |try exact (ok_logfile_ids s H)
  |try exact (ok_socket_ids s H)
  |try exact (ok_run_as_ids s H)
  |try exact (ok_restart_times s H)
  |try exact (ok_timeouts s H)
  |try exact (ok_limits s H)
  |try exact (ok_console s H)
  |try exact (ok_buffer s H)
  |try exact (ok_restarts s H)
  |try exact (ok_readiness s H)
  |try exact (ok_signal s H)
  |try exact (ok_nice s H)
  |try exact (ok_inittab s H)
  |try exact (ok_consumer s H)].

Lemma read_command_value_ok l cmd os cmd' os' :
  command_ok cmd os → read_command l cmd os = Ok (cmd', os') → command_ok cmd' os'.
Proof.
  intros H. unfold read_command.
  destruct (read_setting_value cmd (sl_op l) (sl_pos l) (sl_value l) (Some os) SPACE)
    as [[v [ps|]]|e] eqn:E; cbn [rbind]; [| |done].
  - intros [= <- <-]. by eapply read_command_ok.
  - unfold read_setting_value in E. destruct (skip_ws_ln _ _) as [r line].
    destruct (sl_op l); cbn [fmap option_fmap option_map] in E;
      apply read_value_loop_some in E; by apply is_Some_None in E.
Qed.

(** What is known of the values. *)
Ltac ok_facts s H :=
  repeat match goal with
  | E : parse_uid_param _ _ _ _ = Ok (_, _) |- _ => apply parse_uid_ok in E as [? ?]
  | E : parse_gid_param _ _ _ _ = Ok _ |- _ => apply parse_gid_ok in E
  | E : parse_timespec _ _ _ = Ok _ |- _ => apply parse_timespec_bounds in E
  | E : parse_unum_param _ _ _ = Ok _ |- _ => apply parse_unum_bounds in E
  | E : parse_snum_param _ _ _ _ = Ok _ |- _ => apply parse_snum_bounds in E
  | E : apply_options _ _ _ = Ok _ |- _ => apply apply_options_ok in E; [|exact (ok_console s H)]
  | E : (signal_name_to_number _ =? -1) = false |- _ => apply Z.eqb_neq, signal_nonneg in E
  end.
Ltac ok_set s H :=
  intros [= <-]; ok_facts s H; ok_record s H; destruct H; rsimpl;
  try first [done | by eapply read_command_value_ok | by intuition (auto using default_id_ok)].

Lemma apply_load_options_ok pos opts s s' :
  settings_ok s → apply_load_options pos opts s = Ok s' → settings_ok s'.
Proof.
  revert s. induction opts as [|opt opts IH]; intros s H; cbn [apply_load_options].
  - by intros [= <-].
  - destruct (text_eqb opt _); [apply IH; ok_record s H|].
    destruct (text_eqb opt _); [apply IH; ok_record s H|].
    destruct (text_eqb opt _); [by apply IH|done].
Qed.

Lemma apply_ready_notification_ok pos v s s' :
  settings_ok s → apply_ready_notification pos v s = Ok s' → settings_ok s'.
Proof.
  intros H. unfold apply_ready_notification.
  destruct (starts_with v (chars "pipefd:")).
  - destruct (parse_unum_param pos _ _) as [fd|] eqn:E; [|done]. cbn [rbind].
    apply parse_unum_bounds in E. intros [= <-]. ok_record s H. rsimpl. lia.
  - destruct (starts_with v (chars "pipevar:")); [|done].
    destruct (bool_decide _); [done|]. intros [= <-]. ok_record s H.
Qed.

Lemma apply_rlimit_ok pos param v id s s' :
  settings_ok s → apply_rlimit pos param v id s = Ok s' → settings_ok s'.
Proof.
  intros H. unfold apply_rlimit.
  destruct (parse_rlimit _ _ _ _) as [r|] eqn:E; [|done]. cbn [rbind].
  apply parse_rlimit_ok in E as [Hr _]; [|by apply find_rlimits_ok, (ok_limits s H)].
  intros [= <-]. ok_record s H. rsimpl. by apply store_rlimits_ok; [apply (ok_limits s H)|].
Qed.

Lemma set_value_ok id l s s' :
  settings_ok s → set_value users groups dup service service_arg lookup_var id l s = Ok s' →
  settings_ok s'.
Proof.
  intros H. destruct id; cbn [set_value set_log_value set_kind_value set_process_value];
    repeat ok_step.
  all: try (by apply apply_load_options_ok).
  all: try (by apply apply_ready_notification_ok).
  all: try (by apply apply_rlimit_ok).
  all: try (ok_set s H; fail).
  - intros [= <-]. ok_facts s H. ok_record s H; rsimpl.
    + eapply read_command_value_ok; [|exact E]. apply (ok_command s H).
  - destruct (deref a =? SLASH); [intros [= <-]; ok_record s H|].
    destruct (dup (sl_dir l)); [|done]. intros [= <-]. ok_record s H.
  - intros [= <-]. destruct (_ && _); ok_record s H.
  - intros [= <-]. ok_record s H. rsimpl. intros _ ->.
    unfold text_eqb in *. by rewrite bool_decide_true in * by done.
  - intros [= <-]. ok_record s H. rsimpl. destruct (ok_inittab s H) as [_ Hl].
    pose proof (c_string_length a). split; [lia|done].
  - intros [= <-]. ok_record s H. rsimpl. destruct (ok_inittab s H) as [Hi _].
    pose proof (c_string_length a). split; [done|lia].
  - intros [= <-]. ok_facts s H. ok_record s H. rsimpl. by intros n [= <-].
Qed.

Lemma add_dependency_ok (load_service : text → S → S * result sid)
    (process_dep_dir : list prelim_dep → text → dependency_type → S → S * result (list prelim_dep))
    ty dir l s st st' s' :
  settings_ok s →
  add_dependency service_arg lookup_var load_service process_dep_dir ty dir l s st = (st', Ok s') →
  settings_ok s'.
Proof.
  intros H. unfold add_dependency.
  destruct (read_value_resolved _ _ _ _ _) as [v|e]; [|done]. destruct dir.
  - destruct (process_dep_dir _ _ _ _) as [st1 [ds|e]]; [|done]. intros [= _ <-]. ok_record s H.
  - destruct (load_service v st) as [st1 [x|e]]; [|done]. intros [= _ <-]. ok_record s H.
Qed.

Lemma process_service_line_ok load_service process_dep_dir l s (st st' : S) s' :
  settings_ok s →
  process_service_line users groups dup service service_arg lookup_var load_service
    process_dep_dir l s st = (st', Ok s') → settings_ok s'.
Proof.
  intros H. unfold process_service_line. destruct (find_setting (sl_name l)) as [d|]; [|done].
  assert (∀ r, (match dependency_setting (setting_id d) with
      | Some (ty, directory) =>
          add_dependency service_arg lookup_var load_service process_dep_dir ty directory l s st
      | None =>
          (st, set_value users groups dup service service_arg lookup_var (setting_id d) l s)
      end) = (st', r) → r = Ok s' → settings_ok s') as Hset.
  { intros r. destruct (dependency_setting _) as [[ty dir]|].
    - intros Hr ->. by eapply add_dependency_ok.
    - intros [= _ <-]. by apply set_value_ok. }
  destruct (sl_op l); [by intros Hr; eapply Hset..|].
  destruct (supp_plus_assign d); [by intros Hr; eapply Hset|done].
Qed.

(** ** Finalised settings *)

Definition needs_command (ty : service_type_t) : Prop :=
  ty ∈ [service_type_t.PROCESS; service_type_t.BGPROCESS; service_type_t.SCRIPTED].

Record settings_final (s : settings.t) : Prop := {
  fin_command : needs_command (settings.service_type s) → settings.command s ≠ [];
  fin_readiness : settings.service_type s = service_type_t.BGPROCESS →
    settings.readiness_fd s = -1 ∧ settings.readiness_var s = [];
  fin_kill_all : kill_all_on_stop (settings.onstart_flags s) = true →
    settings.service_type s ∈ [service_type_t.INTERNAL; service_type_t.SCRIPTED];
  fin_consumer : settings.consumer_of_name s ≠ [] →
    settings.service_type s ∈ [service_type_t.PROCESS; service_type_t.BGPROCESS];
  fin_logfile : settings.log_type s ≠ log_type_id.LOGFILE → settings.logfile s = [];
  fin_owner : settings.logfile_uid s ≠ NO_ID ∧ settings.logfile_gid s ≠ NO_ID;
  fin_groups : settings.run_as_uid_gid s = NO_ID → settings.run_as_gid s ≠ NO_ID
}.

Lemma default_id_set other id : other ≠ NO_ID → default_id other id ≠ NO_ID.
Proof. unfold default_id. by destruct (Z.eqb_spec id NO_ID). Qed.
Lemma default_id_range other id : id_ok other → id_ok id → id_ok (default_id other id).
Proof. unfold default_id. by destruct (_ =? _). Qed.

Lemma default_owners_ok my_uid my_gid s :
  id_ok my_uid → id_ok my_gid → settings_ok s → settings_ok (default_owners my_uid my_gid s).
Proof.
  intros Hu Hg H. unfold default_owners.
  destruct (ok_logfile_ids s H) as (H1 & H2 & H3). destruct (ok_socket_ids s H) as (H4 & H5 & H6).
  destruct (ok_run_as_ids s H) as (H7 & H8 & H9).
  destruct (_ && _); ok_record s H; rsimpl; split_and!; auto using default_id_range.
Qed.

Lemma default_owners_keeps my_uid my_gid s :
  let s' := default_owners my_uid my_gid s in
  settings.command s' = settings.command s ∧ settings.service_type s' = settings.service_type s
  ∧ settings.readiness_fd s' = settings.readiness_fd s
  ∧ settings.readiness_var s' = settings.readiness_var s
  ∧ settings.onstart_flags s' = settings.onstart_flags s
  ∧ settings.consumer_of_name s' = settings.consumer_of_name s.
Proof. unfold default_owners. by destruct (_ && _). Qed.

Lemma default_owners_sets my_uid my_gid s :
  my_uid ≠ NO_ID → my_gid ≠ NO_ID →
  let s' := default_owners my_uid my_gid s in
  settings.logfile_uid s' ≠ NO_ID ∧ settings.logfile_gid s' ≠ NO_ID
  ∧ (settings.run_as_uid_gid s' = NO_ID → settings.run_as_gid s' ≠ NO_ID).
Proof.
  intros Hu Hg. unfold default_owners.
  destruct (_ && _) eqn:E; rsimpl; (split; [|split]); auto using default_id_set.
  intros E1 E2. rewrite andb_false_iff, !Z.eqb_neq in E. rsimpl_in E. tauto.
Qed.

Lemma report_error_none b msg u : report_error_if b msg = Ok u → b = false.
Proof. by destruct b. Qed.

Lemma check_settings_ok s u : check_settings s = Ok u →
  (needs_command (settings.service_type s) → settings.command s ≠ [])
  ∧ (settings.service_type s = service_type_t.BGPROCESS →
     settings.readiness_fd s = -1 ∧ settings.readiness_var s = [])
  ∧ (kill_all_on_stop (settings.onstart_flags s) = true →
     settings.service_type s ∈ [service_type_t.INTERNAL; service_type_t.SCRIPTED]).
Proof.
  unfold check_settings, is_type.
  destruct (report_error_if _ _) as [[]|] eqn:E1; [|done]. cbn [rbind].
  destruct (report_error_if (_ && bool_decide (settings.pid_file s = [])) _) as [[]|] eqn:E2;
    [|done]. cbn [rbind].
  destruct (report_error_if (_ && (_ || _)) _) as [[]|] eqn:E3; [|done]. cbn [rbind].
  intros E4. apply report_error_none in E1, E3, E4. split; [|split].
  - intros Hty Hc. unfold needs_command in Hty.
    rewrite !bool_decide_true in E1 by done. done.
  - intros Hty. rewrite Hty in E3. rewrite bool_decide_true in E3 by by left.
    cbn [andb] in E3. apply orb_false_iff in E3 as [E3 E3'].
    apply negb_false_iff in E3, E3'. apply Z.eqb_eq in E3. by apply bool_decide_eq_true in E3'.
  - intros Hk. rewrite Hk in E4. cbn [andb] in E4. apply negb_false_iff in E4.
    by apply bool_decide_eq_true in E4.
Qed.

(** The last statement before the checks of the consumer. *)
Lemma clear_logfile_ok s : settings_ok s → settings_ok (s <| settings.logfile := [] |>).
Proof. intros H. ok_record s H. Qed.

Lemma resolved_paths_ok s v1 v2 v3 v4 : settings_ok s →
  settings_ok (s <| settings.socket_path := v1 |> <| settings.logfile := v2 |>
                 <| settings.working_dir := v3 |> <| settings.pid_file := v4 |>).
Proof. intros H. ok_record s H. Qed.

Lemma consumer_checked s u msg :
  report_error_if (negb (is_type s [service_type_t.PROCESS; service_type_t.BGPROCESS])
    && negb (bool_decide (settings.consumer_of_name s = []))) msg = Ok u →
  settings.consumer_of_name s ≠ [] →
  settings.service_type s ∈ [service_type_t.PROCESS; service_type_t.BGPROCESS].
Proof.
  intros E%report_error_none Hne. rewrite (bool_decide_false _ Hne), andb_true_r in E.
  by apply negb_false_iff, bool_decide_eq_true in E.
Qed.

Lemma finalise_ok var_subst my_uid my_gid s s' :
  id_ok my_uid → id_ok my_gid → my_uid ≠ NO_ID → my_gid ≠ NO_ID → settings_ok s →
  finalise service_arg var_subst my_uid my_gid s = Ok s' →
  settings_ok s' ∧ settings_final s'.
Proof.
  intros Hu Hg Hu' Hg' H. unfold finalise.
  destruct (check_settings s) as [u|] eqn:Ec; [|done]. cbn [rbind].
  apply check_settings_ok in Ec as (Hc & Hr & Hk).
  destruct (do_resolve _ _ (chars "socket-listen") _) as [v1|]; [|done]. cbn [rbind].
  destruct (do_resolve _ _ (chars "logfile") _) as [v2|]; [|done]. cbn [rbind].
  destruct (do_resolve _ _ (chars "working-dir") _) as [v3|]; [|done]. cbn [rbind].
  destruct (do_resolve _ _ (chars "pid-file") _) as [v4|]; [|done]. cbn [rbind].
  pose proof (resolved_paths_ok s v1 v2 v3 v4 H) as H1.
  set (s1 := s <| _ := v1 |> <| _ := v2 |> <| _ := v3 |> <| _ := v4 |>) in *.
  assert (settings.command s1 = settings.command s
    ∧ settings.service_type s1 = settings.service_type s
    ∧ settings.readiness_fd s1 = settings.readiness_fd s
    ∧ settings.readiness_var s1 = settings.readiness_var s
    ∧ settings.onstart_flags s1 = settings.onstart_flags s) as (J1 & J2 & J3 & J4 & J5) by done.
  clearbody s1. rewrite <- J1, <- J2 in Hc. rewrite <- J2, <- J3, <- J4 in Hr.
  rewrite <- J2, <- J5 in Hk. clear J1 J2 J3 J4 J5.
  pose proof (default_owners_ok my_uid my_gid s1 Hu Hg H1) as H2.
  destruct (default_owners_keeps my_uid my_gid s1) as (K1 & K2 & K3 & K4 & K5 & K6).
  destruct (default_owners_sets my_uid my_gid s1 Hu' Hg') as (Q1 & Q2 & Q3).
  rewrite <- K1, <- K2 in Hc. rewrite <- K2, <- K3, <- K4 in Hr. rewrite <- K2, <- K5 in Hk.
  revert Hc Hr Hk H2 Q1 Q2 Q3. clear. generalize (default_owners my_uid my_gid s1) as s2.
  intros s2 Hc Hr Hk H2 Q1 Q2 Q3.
  destruct (bool_decide (settings.log_type s2 = log_type_id.LOGFILE)) eqn:El.
  - destruct (report_error_if _ _) as [[]|] eqn:Er; [|done]. cbn [rbind]. intros [= <-].
    apply bool_decide_eq_true in El. pose proof (consumer_checked _ _ _ Er).
    split; [done|]. by split.
  - pose proof (clear_logfile_ok s2 H2) as H3.
    destruct (report_error_if _ _) as [[]|] eqn:Er; [|done]. cbn [rbind]. intros [= <-].
    pose proof (consumer_checked _ _ _ Er). split; [done|]. by split; rsimpl.
Qed.
End line.

(** ** Whole files *)

Section file.
Context (open_file : text → text → Z → opened) (strerror : Z → text).
Context (argval : option text) (resolve_var : text → option text).
Context {A : Type} (process_line : setting_line → A → A * result unit) (I : A → Prop).
Context (process_line_inv : ∀ l a, I a → I (process_line l a).1).

Lemma run_command_inv c s a : I a → I (run_command open_file strerror process_line c s a).1.
Proof.
  intros H. destruct c as [|optional path|rest|l]; cbn [run_command]; [done| |done|].
  - destruct (open_file _ _ _); [done|]. by destruct (_ || _).
  - specialize (process_line_inv l a H). by destruct (process_line l a).
Qed.

Lemma process_service_file_inv fuel s a a' r :
  process_service_file open_file strerror argval resolve_var process_line fuel s a = Some (a', r) →
  I a → I a'.
Proof.
  revert s a. induction fuel as [|fuel IH]; intros s a; cbn [process_service_file]; [done|].
  destruct (getline s) as [[line|] s1]; [|by intros [= <- _]].
  destruct (process_next _ _ _ _ _ line s1 a) as [a1 r1] eqn:E. intros Hrun H.
  assert (I a1) as H1.
  { change a1 with (a1, r1).1. rewrite <- E. unfold process_next.
    destruct (bool_decide _); [done|]. destruct (join_lines _ _ _) as [joined s2].
    destruct (rbind _ _) as [c|e]; [by apply run_command_inv|done]. }
  destruct r1 as [s2|e]; [by eapply IH|]. by injection Hrun as <- _.
Qed.
End file.

Lemma settings_initial_ok service mode stop start :
  0 ≤ stop ≤ LLONG_MAX → 0 ≤ start ≤ LLONG_MAX → settings_ok service (settings.initial mode stop start).
Proof.
  intros Hstop Hstart.
  assert (command_ok [] []) as Hc.
  { exists 0%nat, []. split; [done|]. exists [], []. split; [done|]. apply laid_none. constructor. }
  unfold settings.initial. split; cbn; try done; try (by split; [lia|done]).
  - split; [|done]. constructor.
Qed.

Lemma line_callback_ok {S} users groups dup service argval lookup_var
    (load_service : text → S → S * result sid) process_dep_dir l a :
  (∀ name u, users name = Some u → id_ok u.1 ∧ id_ok u.2) →
  (∀ name g, groups name = Some g → id_ok g) →
  settings_ok service a.1 →
  settings_ok service (line_callback (process_service_line users groups dup service argval
    lookup_var load_service process_dep_dir) l a).1.1.
Proof.
  intros Hu Hg H. unfold line_callback.
  destruct (process_service_line _ _ _ _ _ _ _ _ l a.1 a.2) as [st [s|e]] eqn:E; [|done].
  by eapply process_service_line_ok.
Qed.

Lemma command_ok_tokens val os : command_ok val os →
  ∃ k os', os = replicate k (0, 0) ++ os' ∧ tokens_at 0 val os' (part val <$> os').
Proof. intros (k & os' & -> & H). exists k, os'. split; [done|]. by apply laid_in_tokens. Qed.

(** C40: Whatever the files say, the settings that are read from a service description
    stay well formed, also where the reading stops with an error: identifiers, time
    values, resource limits, sizes and signals are in the ranges of their types, at most
    one of [shares-console] and [runs-on-console] or [starts-on-console] is in force,
    a service does not consume its own log.  The offsets of a command are the parts of
    its text, in order and apart from each other, as the substitution of variables needs
    them (behind any number of empty parts at its start).  Settings that [finalise]
    accepts are also consistent: a command for the types that run one, a consumer
    only for a process, and all the owners that files are created with are set. *)
Theorem settings_well_formed {S} users groups dup service argval lookup_var open_file strerror
    (load_service : text → S → S * result sid) process_dep_dir var_subst my_uid my_gid
    mode stop start fuel stack st s st' r :
  (∀ name u, users name = Some u → id_ok u.1 ∧ id_ok u.2) →
  (∀ name g, groups name = Some g → id_ok g) →
  id_ok my_uid → id_ok my_gid → my_uid ≠ NO_ID → my_gid ≠ NO_ID →
  0 ≤ stop ≤ LLONG_MAX → 0 ≤ start ≤ LLONG_MAX →
  process_service_file open_file strerror argval lookup_var
    (line_callback (process_service_line users groups dup service argval lookup_var
      load_service process_dep_dir)) fuel stack (settings.initial mode stop start, st)
    = Some ((s, st'), r) →
  settings_ok service s
  ∧ (∃ k os, settings.command_offsets s = replicate k (0, 0) ++ os
      ∧ tokens_at 0 (settings.command s) os (part (settings.command s) <$> os))
  ∧ (∃ k os, settings.stop_command_offsets s = replicate k (0, 0) ++ os
      ∧ tokens_at 0 (settings.stop_command s) os (part (settings.stop_command s) <$> os))
  ∧ ∀ s', finalise argval var_subst my_uid my_gid s = Ok s' →
      settings_ok service s' ∧ settings_final s'.
Proof.
  intros Hu Hg Hmu Hmg Hmu' Hmg' Hstop Hstart Hrun.
  assert (settings_ok service s) as H.
  { apply (process_service_file_inv _ _ _ _ _ (λ a, settings_ok service a.1)) in Hrun; [done| |].
    - intros l a. by apply line_callback_ok.
    - by apply settings_initial_ok. }
  split; [done|]. split; [by apply command_ok_tokens, ok_command with service|].
  split; [by apply command_ok_tokens, ok_stop_command with service|].
  intros s'. by apply finalise_ok.
Qed.

(** A scripted service with a command in three parts, run as user 3. *)
Definition settings_example : list text :=
  [chars "type = scripted"; chars "command = /bin/foo  -x"; chars "command += $1";
   chars "run-as = 3"; chars "options = starts-on-console shares-console"; []].
Definition settings_example_run (lines : list text) :=
  process_service_file (λ _ _ _, Open_failed ENOENT) (λ _, []) None (λ _, None)
    (line_callback (process_service_line (λ _, Some (0, 0)) (λ _, None) (λ _, None) (chars "svc")
      None (λ _, None) (λ _ (st : unit), (st, Ok 0%nat)) (λ ds _ _ st, (st, Ok ds))))
    10 (push (chars "svc") lines 7 [])
    (settings.initial auto_restart_mode.NEVER 10 60, tt).

Lemma settings_well_formed_witness :
  match settings_example_run settings_example with
  | Some ((s, _), _) =>
      settings_ok (chars "svc") s ∧ settings.command_offsets s = [(0, 8); (9, 11); (12, 14)]
      ∧ match finalise None (λ _, None) 0 0 s with
        | Ok s' => settings_final s' ∧ settings.run_as_uid s' = 3
        | Throw _ => False
        end
  | None => False
  end.
Proof.
  destruct (settings_example_run settings_example) as [[[s st'] r]|] eqn:E;
    [|by vm_compute in E].
  assert (∀ (name : text) u, Some (0, 0) = Some u → id_ok u.1 ∧ id_ok u.2) as Hu
    by (intros name u [= <-]; done).
  destruct (settings_well_formed _ (λ _, None) _ _ _ _ _ _ _ _ (λ _, None) 0 0 _ 10 60 10 _ _ s st' r
    Hu ltac:(done) ltac:(done) ltac:(done) ltac:(done) ltac:(done) ltac:(done) ltac:(done) E)
    as (H & _ & _ & Hf).
  split; [done|]. vm_compute in E. injection E as <- <- <-. split; [done|].
  destruct (finalise None _ 0 0 _) as [s'|e] eqn:Ef; [|by vm_compute in Ef].
  destruct (Hf s' eq_refl) as [_ Hf']. split; [done|]. vm_compute in Ef. by injection Ef as <-.
Defined.
