(* ===== verification/Loader.v ===== *)
(** * Loading and unloading services: the dependency graph

    The functions of [load-service.cc] that keep the dependency graph of the service
    set ([check_cycle], [update_depenencies], the "after" and "before" constraints and
    the replacement of a record), and the functions of [service.cc] and [service.h]
    that unload a service.  Memory allocation does not fail, so the handlers of
    [std::bad_alloc] have no counterpart. *)

From S2P Require Import Prelude Text ServiceData Service Settings.

(** What the destructors of the classes do, and how a placeholder takes over the output
    pipe of a record ([set_output_pipe] of what [transfer_output_pipe] gives); records of
    the base class have none. *)
Class RecordMemory (X : Type) := {
  destroy : sid → sys X → sys X;
  move_output_pipe : sid → sid → sys X → sys X
}.

Definition is_placeholder {X} (st : sys X) (x : sid) : bool :=
  bool_decide (record_type (svc st x) = service_type_t.PLACEHOLDER).

(** ** Cycles *)

Section cycles.
Context {X : Type}.
Implicit Types (st : sys X) (x y orig : sid).

(** [linked_uo_set::add_back]: a set that keeps the order of its elements. *)
Definition add_back x (pending : list sid) : list sid :=
  if bool_decide (x ∈ pending) then pending else pending ++ [x].

Definition targets st x : list sid := dep_to ∘ dep st <$> depends_on (svc st x).

(** The inner loops of [check_cycle]: [None] where the cycle is found. *)
Fixpoint add_targets orig (ts : list sid) (pending : list sid) : option (list sid) :=
  match ts with
  | [] => Some pending
  | to :: ts => if decide (to = orig) then None else add_targets orig ts (add_back to pending)
  end.

(** The loop over the services that are pending, from the one at [i]: whether there
    is a cycle. *)
Fixpoint cycle_loop (fuel : nat) st orig (i : nat) (pending : list sid) : option bool :=
  match fuel with
  | O => None
  | S fuel =>
      match pending !! i with
      | None => Some false
      | Some x =>
          match add_targets orig (targets st x) pending with
          | None => Some true
          | Some pending => cycle_loop fuel st orig (S i) pending
          end
      end
  end.

(** Every pending service is a new dependency or the target of a record. *)
Definition cycle_fuel st (new : list prelim_dep) : nat := length new + size (deps st) + 2.

Definition check_cycle (new : list prelim_dep) orig (report : text) st : result unit :=
  match add_targets orig (fst <$> new) [] with
  | None => Throw (Cyclic_dependency report)
  | Some pending =>
      match cycle_loop (cycle_fuel st new) st orig 0 pending with
      | Some false => Ok tt
      | Some true => Throw (Cyclic_dependency report)
      | None => Throw Overrun
      end
  end.
End cycles.

(** ** Changing the dependencies of a loaded service *)

Section update.
Context {X : Type} `{!ServiceVirtual X}.
Implicit Types (st : sys X) (x y : sid) (d : did).

(** [rm_dep(service_dep &)]: looks for the record in the list of its service. *)
Definition rm_dep_ref y d st : sys X :=
  when (bool_decide (d ∈ depends_on (svc st y))) (rm_dep_it y d) st.

Definition is_before (ty : dependency_type) : bool := bool_decide (ty = dependency_type.BEFORE).
Definition is_after (ty : dependency_type) : bool := bool_decide (ty = dependency_type.AFTER).

(** A new "before" dependency becomes the first dependent of the service and the first
    dependency of its source. *)
Definition link_before x d st : sys X :=
  let! st := upd x (λ r, r <| dependents ::= cons d |>) st in
  upd (dep_from (dep st d)) (λ r, r <| depends_on ::= cons d |>) st.

Definition update_depenencies x (depends : list prelim_dep) (before_deps : list did) st
    : sys X * result unit :=
  match check_cycle depends x (chars (service_name (svc st x))) st with
  | Throw e => (st, Throw e)
  | Ok _ =>
      let old_deps := depends_on (svc st x) in
      let old_depts := dependents (svc st x) in
      let! st := for_each before_deps (link_before x) st in
      (* in front of the first pre-existing dependency *)
      let! st := for_each depends
        (λ p st, (add_dep x p.1 p.2
                    (length (depends_on (svc st x)) - length old_deps) st).1) st in
      let! st := for_each old_deps
        (λ d st, when (negb (is_before (dep_type (dep st d)))) (rm_dep_it x d) st) st in
      let! st := for_each old_depts
        (λ d st, when (is_before (dep_type (dep st d)))
                   (rm_dep_ref (dep_from (dep st d)) d) st) st in
      (st, Ok tt)
  end.
End update.

(** ** Records *)

Section records.
Context {X : Type} `{!ServiceVirtual X} `{!RecordMemory X}.
Implicit Types (st : sys X) (x y : sid) (d : did).

(** [delete]: the destructor runs, and the memory is free again. *)
Definition delete_record x st : sys X :=
  let! st := destroy x st in
  st <| svcs ::= delete x |>.

(** A [placeholder_service] in the service set, in memory that no record uses. *)
Definition new_placeholder (name : string) st : sys X * sid :=
  let x := fresh (dom (svcs st)) in
  (add_service x (construct x name service_type_t.PLACEHOLDER [] st), x).

(** A placeholder that nothing refers to any more is removed. *)
Definition drop_placeholder y st : sys X :=
  when (is_placeholder st y && is_unrefd (svc st y))
    (λ st, delete_record y (remove_service y st)) st.

(** [replace_service]: the first occurrence. *)
Fixpoint replace_first (x y : sid) (l : list sid) : list sid :=
  match l with
  | [] => []
  | z :: l => if decide (z = x) then y :: l else z :: replace_first x y l
  end.
Definition replace_service x y st : sys X := st <| records ::= replace_first x y |>.

(** [prepare_for_unload] *)
Definition unlink_dependency d st : sys X :=
  let to := dep_to (dep st d) in
  let! st := upd to (λ r, r <| dependents ::= erase_first d |>) st in
  when (is_after (dep_type (dep st d))) (drop_placeholder to) st.
Definition unlink_dependent d st : sys X :=
  let y := dep_from (dep st d) in
  let! st := rm_dep_ref y d st in
  drop_placeholder y st.
Definition prepare_for_unload x st : sys X :=
  let ds := depends_on (svc st x) in
  let! st := for_each ds unlink_dependency st in
  let! st := st <| deps ::= (λ m, foldr delete m ds) |> in
  let! st := upd x (λ r, r <| depends_on := [] |>) st in
  for_each (dependents (svc st x)) unlink_dependent st.

(** *** Unloading

    The placeholder takes over the records that other services declared. *)
Definition make_placeholder (name : string) (ph : option sid) st : sys X * sid :=
  match ph with
  | Some p => (st, p)
  | None => new_placeholder name st
  end.

Definition move_dependent x p d st : sys X :=
  let! st := upd_dep d (λ r, r <| dep_to := p |>) st in
  let! st := upd x (λ r, r <| dependents ::= erase_first d |>) st in
  upd p (λ r, r <| dependents ::= (λ l, l ++ [d]) |>) st.
Definition move_dependency x p d st : sys X :=
  let! st := upd_dep d (λ r, r <| dep_from := p |>) st in
  let! st := upd x (λ r, r <| depends_on ::= erase_first d |>) st in
  upd p (λ r, r <| depends_on ::= (λ l, l ++ [d]) |>) st.

(** One turn of the loop over the dependents or the dependencies: the records for
    which [test] holds move to the placeholder. *)
Definition to_placeholder (name : string) (test : dependency_type → bool)
    (move : sid → did → sys X → sys X) d (s : sys X * option sid) : sys X * option sid :=
  let '(st, ph) := s in
  if test (dep_type (dep st d)) then
    let '(st, p) := make_placeholder name ph st in
    (move p d st, Some p)
  else (st, ph).

Definition move_pipe x st : sys X * option sid :=
  match log_consumer (svc st x) with
  | Some _ =>
      let '(st, p) := new_placeholder (service_name (svc st x)) st in
      (move_output_pipe x p st, Some p)
  | None => (st, None)
  end.

Definition unload_service x st : sys X :=
  let name := service_name (svc st x) in
  let! s := move_pipe x st in
  let! s := for_each (dependents (svc s.1 x))
              (to_placeholder name is_after (move_dependent x)) s in
  let! s := for_each (depends_on (svc s.1 x))
              (to_placeholder name is_before (move_dependency x)) s in
  let! st := prepare_for_unload x s.1 in
  let! st := remove_service x st in
  delete_record x st.
End records.

(** ** Ordering constraints

    Names have no nul characters. *)

Definition to_string (s : text) : string :=
  String.string_of_list_ascii (map (λ c, Ascii.ascii_of_nat (Z.to_nat c)) s).

Section constraints.
Context {X : Type} `{!ServiceVirtual X} `{!RecordMemory X}.
Implicit Types (st : sys X) (x y : sid) (d : did).

(** [find_service], placeholders included. *)
Definition find_named (name : text) st : option sid :=
  List.find (λ x, text_eqb (chars (service_name (svc st x))) name) (records st).

(** The "after" constraints become dependencies; the list is also the one that the
    handler of an error sees. *)
Fixpoint load_after (name : text) (after_svcs : list text) (depends : list prelim_dep) st
    : (sys X * list prelim_dep) * result unit :=
  match after_svcs with
  | [] => ((st, depends), Ok tt)
  | ent :: after_svcs =>
      if text_eqb ent name then ((st, depends), Throw (Cyclic_dependency name))
      else
        match find_named ent st with
        | Some y =>
            if is_loading (svc st y) then ((st, depends), Throw (Cyclic_dependency name))
            else load_after name after_svcs (depends ++ [(y, dependency_type.AFTER)]) st
        | None =>
            let '(st, y) := new_placeholder (to_string ent) st in
            load_after name after_svcs (depends ++ [(y, dependency_type.AFTER)]) st
        end
  end.

(** A record that no list has yet; without a service to reload its target is a null
    pointer, which is set before it is read. *)
Definition new_before_dep y (reload_svc : option sid) st : sys X * did :=
  let d := fresh (dom (deps st)) in
  (st <| deps := <[d := service_dep_new y (default 0%nat reload_svc) dependency_type.BEFORE]>
                   (deps st) |>, d).

(** The "before" constraints. *)
Fixpoint load_before (name : text) (reload_svc : option sid) (depends : list prelim_dep)
    (before_svcs : list text) (before_deps : list did) st
    : (sys X * list did) * result unit :=
  match before_svcs with
  | [] => ((st, before_deps), Ok tt)
  | ent :: before_svcs =>
      if text_eqb ent name then ((st, before_deps), Throw (Cyclic_dependency name))
      else
        let '(st, y, r) :=
          match find_named ent st with
          | Some y => (st, y, check_cycle depends y name st)
          | None => (new_placeholder (to_string ent) st, Ok tt)
          end in
        match r with
        | Throw e => ((st, before_deps), Throw e)
        | Ok _ =>
            let '(st, d) := new_before_dep y reload_svc st in
            load_before name reload_svc depends before_svcs (before_deps ++ [d]) st
        end
  end.

(** What is undone when loading fails: [rval] is a new record, if there is one already.
    The "after" placeholders leave the service set, but are not deleted. *)
Definition exception_cleanup (dummy rval : option sid) (before_deps : list did)
    (depends : list prelim_dep) (consumer_of_svc : option sid) st : sys X :=
  let! st := match dummy with
             | Some x => delete_record x (remove_service x st)
             | None => st
             end in
  let! st := match rval with
             | Some x => delete_record x (prepare_for_unload x st)
             | None => st
             end in
  let! st := for_each before_deps (λ d st, drop_placeholder (dep_from (dep st d)) st) st in
  let! st := for_each depends
    (λ p st, when (is_placeholder st p.1 && is_after p.2 && is_unrefd (svc st p.1))
               (remove_service p.1) st) st in
  let! st := match consumer_of_svc with
             | Some y => drop_placeholder y st
             | None => st
             end in
  st <| deps ::= (λ m, foldr delete m before_deps) |>.
End constraints.

(** ** Replacing a record *)

Section replace.
Context {X : Type} `{!ServiceVirtual X} `{!RecordMemory X}.
Implicit Types (st : sys X) (rval orig : sid) (d : did).

(** The new "before" dependencies: first in the list of dependents, then, past the
    point of no return, in the lists of their sources. *)
Definition add_dependent rval d st : sys X :=
  upd rval (λ r, r <| dependents ::= (λ l, l ++ [d]) |>) st.
Definition splice_before rval d st : sys X :=
  let! st := upd_dep d (λ r, r <| dep_to := rval |>) st in
  upd (dep_from (dep st d)) (λ r, r <| depends_on ::= (λ l, l ++ [d]) |>) st.

(** The "before" dependents of the old record are its own. *)
Definition remove_before_dependent d st : sys X :=
  when (is_before (dep_type (dep st d))) (unlink_dependent d) st.

Definition transfer_dependents rval orig st : sys X :=
  let old := dependents (svc st orig) in
  let! st := upd rval (λ r, r <| dependents ::= app old |>) st in
  let! st := upd orig (λ r, r <| dependents := [] |>) st in
  for_each (dependents (svc st rval)) (λ d, upd_dep d (λ r, r <| dep_to := rval |>)) st.

(** The loop that moves "before" dependencies to the new record; [i] is the position of
    its iterator.  A turn that moves a record advances the iterator twice: over the
    record, and once more over the next one.  Past the end of the list that is
    undefined; the lists are rings, in which the successor of the end is the first
    element. *)
Fixpoint transfer_before_from (fuel : nat) rval orig (i : nat) st : sys X :=
  match fuel with
  | O => set_fault st
  | S fuel =>
      match depends_on (svc st orig) !! i with
      | None => st
      | Some d =>
          if is_before (dep_type (dep st d)) then
            let! st := upd_dep d (λ r, r <| dep_from := rval |>) st in
            let! st := upd orig (λ r, r <| depends_on ::= delete i |>) st in
            let! st := upd rval (λ r, r <| depends_on ::= (λ l, l ++ [d]) |>) st in
            transfer_before_from fuel rval orig
              (if (i <? length (depends_on (svc st orig)))%nat then S i else 0%nat) st
          else transfer_before_from fuel rval orig (S i) st
      end
  end.
Definition transfer_fuel (n : nat) : nat := S n * S n + 1.
Definition transfer_before rval orig st : sys X :=
  transfer_before_from (transfer_fuel (length (depends_on (svc st orig)))) rval orig 0 st.

(** The dependency graph with the new record in place of [orig]; [transfer_outputs] is
    what the process classes do in between. *)
Definition switch_record (transfer_outputs : sys X → sys X) rval orig (before_deps : list did) st
    : sys X :=
  let! st := for_each before_deps (add_dependent rval) st in
  let! st := for_each before_deps (splice_before rval) st in
  let! st := for_each (dependents (svc st orig)) remove_before_dependent st in
  let! st := transfer_dependents rval orig st in
  let! st := transfer_before rval orig st in
  let! st := transfer_outputs st in
  prepare_for_unload orig st.
End replace.
