(* ===== verification/LoaderLaws.v ===== *)
(** * Loading services: theorems on the dependency graph

    The search for cycles decides reachability; changing the dependencies of a service
    keeps the graph well formed and without cycles; unloading a service leaves no
    record that refers to it. *)

From S2P Require Import Prelude Text ServiceData Service ServiceInv ServiceInvOps ServiceGraph Simple ServiceReach Settings Loader.

(** ** Cycles *)

Section cycles.
Context {X : Type}.
Implicit Types (st : sys X) (x y z orig : sid).

(** A dependency record leads from [x] to [y]. *)
Definition depends st x y : Prop := y ∈ targets st x.
Definition acyclic st : Prop := ∀ x, ¬ tc (depends st) x x.

Lemma elem_of_add_back x y l : y ∈ add_back x l ↔ y = x ∨ y ∈ l.
Proof. unfold add_back. case_bool_decide; set_solver. Qed.
Lemma NoDup_add_back x l : NoDup l → NoDup (add_back x l).
Proof.
  intros H. unfold add_back. case_bool_decide; [done|]. apply list.NoDup_app.
  split; [done|]. split; [set_solver|apply NoDup_singleton].
Qed.
Lemma add_back_prefix x l : (l `prefix_of` add_back x l).
Proof. unfold add_back. case_bool_decide; [done|by eexists]. Qed.

Lemma add_targets_none orig ts pending : add_targets orig ts pending = None → orig ∈ ts.
Proof.
  revert pending. induction ts as [|t ts IH]; intros pending; simpl; [done|].
  case_decide; [set_solver|]. intros Ho%IH. set_solver.
Qed.

Lemma add_targets_some orig ts pending p :
  add_targets orig ts pending = Some p →
  (orig ∉ ts) ∧ (pending `prefix_of` p) ∧ (∀ y, y ∈ p ↔ y ∈ pending ∨ y ∈ ts)
  ∧ (NoDup pending → NoDup p).
Proof.
  revert pending. induction ts as [|t ts IH]; intros pending; simpl.
  { intros [= ->]. set_solver. }
  case_decide as Ht; [done|]. intros (H1 & H2 & H3 & H4)%IH. split_and!.
  - set_solver.
  - etrans; [apply add_back_prefix|done].
  - intros y. rewrite H3, elem_of_add_back. set_solver.
  - intros Hp. by apply H4, NoDup_add_back.
Qed.

(** Everything that can become pending. *)
Definition universe st (new : list sid) : list sid :=
  new ++ 0%nat :: (dep_to ∘ snd <$> map_to_list (deps st)).

Lemma targets_universe st new x y : y ∈ targets st x → y ∈ universe st new.
Proof.
  unfold targets, universe. intros (d & -> & _)%list_elem_of_fmap. apply elem_of_app. right.
  simpl. unfold dep. destruct (deps st !! d) as [r|] eqn:E; simpl; [|set_solver].
  apply elem_of_cons. right. apply list_elem_of_fmap. exists (d, r).
  split; [done|]. by apply elem_of_map_to_list.
Qed.

Lemma universe_length st new : length (universe st new) = (length new + size (deps st) + 1)%nat.
Proof.
  unfold universe. rewrite length_app. cbn [length].
  rewrite length_fmap, length_map_to_list. lia.
Qed.

(** The loop at position [i]: what is pending is new or reached from what is new, and
    the targets of the first [i] services are pending. *)
Record pending_inv st orig (new : list sid) (i : nat) (pending : list sid) : Prop := {
  pi_nodup : NoDup pending;
  pi_pos : (i ≤ length pending)%nat;
  pi_orig : orig ∉ pending;
  pi_new : ∀ y, y ∈ new → y ∈ pending;
  pi_reached : ∀ y, y ∈ pending → ∃ z, z ∈ new ∧ rtc (depends st) z y;
  pi_closed : ∀ j x y, (j < i)%nat → pending !! j = Some x → depends st x y → y ∈ pending;
  pi_universe : ∀ y, y ∈ pending → y ∈ universe st new
}.

Lemma pending_inv_step st orig new i pending x p :
  pending_inv st orig new i pending → pending !! i = Some x →
  add_targets orig (targets st x) pending = Some p → pending_inv st orig new (S i) p.
Proof.
  intros [H1 Hi H2 H3 H4 H5 H6] Hx (Ho & Hp & Hin & Hnd)%add_targets_some. split.
  - by apply Hnd.
  - apply prefix_length in Hp. apply lookup_lt_Some in Hx. lia.
  - rewrite Hin. tauto.
  - intros y Hy. apply Hin. auto.
  - intros y [Hy|Hy]%Hin; [by apply H4|].
    destruct (H4 x) as (z & Hz & Hzx); [by eapply list_elem_of_lookup_2|].
    exists z. split; [done|]. by eapply rtc_r.
  - intros j x' y Hj Hx' Hy. apply Hin.
    assert (∀ k a, pending !! k = Some a → p !! k = Some a) as Hpre
      by (intros k a Hk; by eapply prefix_lookup_Some).
    destruct (decide (j = i)) as [->|].
    + rewrite (Hpre _ _ Hx) in Hx'. injection Hx' as <-. by right.
    + left. apply (H5 j x'); [lia| |done].
      assert (i < length pending)%nat by by eapply lookup_lt_Some.
      destruct (lookup_lt_is_Some_2 pending j) as [a Ha]; [lia|].
      rewrite (Hpre _ _ Ha) in Hx'. congruence.
  - intros y [Hy|Hy]%Hin; [by apply H6|by eapply targets_universe].
Qed.

Lemma pending_closed st orig new i pending : pending_inv st orig new i pending →
  (length pending ≤ i)%nat → ∀ z, z ∈ new → ¬ rtc (depends st) z orig.
Proof.
  intros H Hi z Hz Hr. apply (pi_orig _ _ _ _ _ H).
  apply (pi_new _ _ _ _ _ H) in Hz. induction Hr as [|a b c Hab _ IH]; [done|].
  apply IH; [done|]. apply list_elem_of_lookup_1 in Hz as [j Hj].
  eapply (pi_closed _ _ _ _ _ H j a); [|done..]. apply lookup_lt_Some in Hj. lia.
Qed.

Lemma cycle_loop_correct st orig new fuel : ∀ i pending,
  pending_inv st orig new i pending → (length (universe st new) < fuel + i)%nat →
  ∃ b, cycle_loop fuel st orig i pending = Some b
    ∧ (b = true ↔ ∃ z, z ∈ new ∧ rtc (depends st) z orig).
Proof.
  induction fuel as [|fuel IH]; intros i pending H Hf; cbn [cycle_loop].
  - pose proof (pi_pos _ _ _ _ _ H).
    assert (length pending ≤ length (universe st new))%nat
      by (apply submseteq_length, NoDup_submseteq; apply H).
    lia.
  - destruct (pending !! i) as [x|] eqn:Hx.
    + destruct (add_targets orig (targets st x) pending) as [p|] eqn:Ha.
      * apply IH; [by eapply pending_inv_step|lia].
      * exists true. split; [done|]. split; [intros _|done].
        apply add_targets_none in Ha.
        destruct (pi_reached _ _ _ _ _ H x) as (z & Hz & Hzx); [by eapply list_elem_of_lookup_2|].
        exists z. split; [done|]. by eapply rtc_r.
    + exists false. split; [done|]. split; [done|]. intros (z & Hz & Hr).
      apply lookup_ge_None_1 in Hx. by edestruct (pending_closed st orig new i pending).
Qed.

(** [check_cycle] throws exactly where a service of the list reaches [orig]. *)
Lemma check_cycle_cases st new orig report :
  (check_cycle new orig report st = Ok tt
    ∧ ∀ z, z ∈ new.*1 → ¬ rtc (depends st) z orig)
  ∨ (check_cycle new orig report st = Throw (Cyclic_dependency report)
    ∧ ∃ z, z ∈ new.*1 ∧ rtc (depends st) z orig).
Proof.
  unfold check_cycle. destruct (add_targets orig (fst <$> new) []) as [p|] eqn:Ha.
  - apply add_targets_some in Ha as (Ho & _ & Hin & Hnd).
    destruct (cycle_loop_correct st orig new.*1 (cycle_fuel st new) 0 p) as (b & -> & Hb).
    + split.
      * apply Hnd. constructor.
      * lia.
      * rewrite Hin. set_solver.
      * intros y Hy. apply Hin. by right.
      * intros y [[]%not_elem_of_nil|Hy]%Hin. by exists y.
      * intros j ? ? Hj. lia.
      * intros y [[]%not_elem_of_nil|Hy]%Hin. apply elem_of_app. by left.
    + rewrite universe_length, length_fmap. unfold cycle_fuel, prelim_dep. lia.
    + destruct b; [right; by split; [|apply Hb]|left]. split; [done|].
      intros z Hz Hr. by assert (false = true) by (apply Hb; eauto).
  - right. split; [done|]. apply add_targets_none in Ha. by exists orig.
Qed.
End cycles.

(** ** Acyclic relations *)

Lemma tc_inv {A} (R : relation A) a b : tc R a b → R a b ∨ ∃ c, R a c ∧ tc R c b.
Proof. destruct 1; eauto. Qed.

(** A relation without cycles is changed around [x]: the targets of [x] are now in [D]
    or are old ones in [K], and the sources in [B] now lead to [x]. *)
Section around.
Context (R R' : sid → sid → Prop) (x : sid) (D K B : sid → Prop).
Context (R_acyclic : ∀ y, ¬ tc R y y).
Context (R'_edges : ∀ a b, R' a b →
  (a ≠ x ∧ R a b) ∨ (a = x ∧ (D b ∨ (K b ∧ R x b))) ∨ (b = x ∧ B a)).
Context (D_x : ∀ z, D z → ¬ rtc R z x) (B_x : ¬ B x).
Context (DK_B : ∀ z b, D z ∨ K z → B b → ¬ rtc R z b).

(** Where [x] is reached first. *)
Lemma first_reach u : rtc R' u x → u = x ∨ ∃ a, rtc R u a ∧ (R a x ∨ B a).
Proof using R'_edges.
  revert u. apply rtc_ind_l; [by left|]. intros u v Huv _ IH.
  apply R'_edges in Huv as [[Hu Huv]|[[-> _]|[-> Hu]]].
  - right. destruct IH as [->|(a & Ha & Hax)]; [by exists u; split; [done|left]|].
    exists a. split; [by eapply rtc_l|done].
  - by left.
  - right. exists u. split; [done|by right].
Qed.

Lemma through u v : tc R' u v → tc R u v ∨ rtc R' u x ∧ rtc R' x v.
Proof using R'_edges.
  induction 1 as [u v Huv|u v w Huv Hvw IH].
  - pose proof Huv as [[_ H]|[[-> _]|[-> _]]]%R'_edges; [by left; apply tc_once|right..].
    + split; [done|by apply rtc_once].
    + split; [by apply rtc_once|done].
  - pose proof Huv as [[_ H]|[[-> _]|[-> _]]]%R'_edges.
    + destruct IH as [IH|[IH1 IH2]]; [left; by eapply tc_l|right].
      split; [by eapply rtc_l|done].
    + right. split; [done|]. by apply tc_rtc, tc_l with v.
    + right. split; [by apply rtc_once|by apply tc_rtc].
Qed.

Lemma acyclic_around_x : ¬ tc R' x x.
Proof using R'_edges R_acyclic D_x B_x DK_B.
  intros H. assert (∃ b, R' x b ∧ rtc R' b x) as (b & Hxb & Hbx).
  { apply tc_inv in H as [H|(b & H1 & H2)]; [by exists x; split; [|constructor]|].
    exists b. split; [done|by apply tc_rtc]. }
  apply R'_edges in Hxb as [[? _]|[[_ Hb]|[_ ?]]]; [done| |done].
  apply first_reach in Hbx as [->|(a & Hba & Ha)].
  - destruct Hb as [Hb|[_ Hb]]; [by apply (D_x x)|]. by apply (R_acyclic x), tc_once.
  - destruct Hb as [Hb|[Hk Hb]], Ha as [Ha|Ha].
    + apply (D_x b Hb). by eapply rtc_r.
    + by apply (DK_B b a); [left|..].
    + apply (R_acyclic x). apply tc_l with b; [done|]. eapply tc_rtc_l; [done|]. by apply tc_once.
    + by apply (DK_B b a); [right|..].
Qed.

Lemma acyclic_around y : ¬ tc R' y y.
Proof using R'_edges R_acyclic D_x B_x DK_B.
  intros H. destruct (through y y H) as [H'|[H1 H2]]; [by apply (R_acyclic y)|].
  apply acyclic_around_x. eapply tc_rtc_l; [exact H2|]. eapply tc_rtc_r; [exact H|done].
Qed.
End around.

(** ** Changing the lists of the graph *)

Lemma filter_all_in {A} (P : A → Prop) `{!∀ a, Decision (P a)} (l : list A) :
  (∀ a, a ∈ l → P a) → filter P l = l.
Proof.
  induction l as [|a l IH]; intros Ha; [done|].
  rewrite filter_cons, decide_True, IH; [done|set_solver..].
Qed.
Lemma filter_none_in {A} (P : A → Prop) `{!∀ a, Decision (P a)} (l : list A) :
  (∀ a, a ∈ l → ¬ P a) → filter P l = [].
Proof.
  induction l as [|a l IH]; intros Ha; [done|].
  rewrite filter_cons, decide_False, IH; [done|set_solver..].
Qed.

Lemma erase_first_filter d l : NoDup l → erase_first d l = filter (λ e, e ≠ d) l.
Proof.
  induction 1 as [|e l He Hl IH]; [done|]. rewrite filter_cons. simpl.
  destruct (decide (e = d)) as [->|Hne].
  - rewrite decide_False by naive_solver. symmetry. apply filter_all_in. by intros f Hf ->.
  - rewrite decide_True by done. by rewrite IH.
Qed.

Lemma filter_ext_in {A} (P Q : A → Prop) `{!∀ a, Decision (P a)} `{!∀ a, Decision (Q a)} (l : list A) :
  (∀ a, a ∈ l → P a ↔ Q a) → filter P l = filter Q l.
Proof.
  induction l as [|a l IH]; intros Ha; [done|]. rewrite !filter_cons, IH by set_solver.
  specialize (Ha a). repeat case_decide; set_solver.
Qed.

Section graph_changes.
Context {X : Type} `{!ServiceVirtual X} `{!ServiceVirtualLaws X}.
Context (exact : bool) (c : sid → Z) (ex : sid → prop_flag → bool).
Implicit Types (st : sys X) (x y : sid) (d e : did) (G : graph).

Definition linked G d : Prop := ∃ y, d ∈ g_deps G y ∨ d ∈ g_dpts G y.
(** What a record says is the same in both graphs. *)
Definition same_record G G' d : Prop :=
  g_from G' d = g_from G d ∧ g_to G' d = g_to G d ∧ g_type G' d = g_type G d.

(** A record enters both lists at the front. *)
Definition graph_link G d x : graph := {|
  g_deps := λ y, if decide (y = g_from G d) then d :: g_deps G y else g_deps G y;
  g_dpts := λ y, if decide (y = x) then d :: g_dpts G y else g_dpts G y;
  g_from := g_from G; g_to := g_to G; g_type := g_type G |}.

Lemma links_ok_link G d x :
  links_ok G → ¬ linked G d → g_to G d = x → links_ok (graph_link G d x).
Proof.
  intros H Hd Hx y. destruct (H y) as [H1 H2]. simpl. split.
  - case_decide; [|done]. apply list.NoDup_cons. split; [|done].
    intros Hin. apply Hd. exists y. by left.
  - intros e He. assert (e = d ∧ y = g_from G d ∨ e ∈ g_deps G y) as [[-> ->]|He'].
    { revert He. case_decide; [|by right]. rewrite elem_of_cons. naive_solver. }
    + split; [done|]. rewrite Hx, decide_True by done. by left.
    + destruct (H2 e He') as [Hf Hin]. split; [done|].
      destruct (decide (g_to G e = x)); [by right|done].
Qed.

Lemma inv_link_before G x d st :
  InvG exact G c ex st → ¬ linked G d → g_to G d = x → d ∈ dom (deps st) →
  holding_acq (dep st d) = false → InvG exact (graph_link G d x) c ex (link_before x d st).
Proof.
  intros [(Hg1 & Hg2 & Hg3 & Hg4 & Hg5) Hdp Hal Ha Hp] Hd Hx Hdom Hh.
  assert (∀ y, svc (link_before x d st) y
    = let r := svc st y in
      let r := if decide (y = x) then r <| dependents ::= cons d |> else r in
      if decide (y = g_from G d) then r <| depends_on ::= cons d |> else r) as Hsvc.
  { intros y. unfold link_before, seq.
    change (dep (upd x _ st) d) with (dep st d). rewrite Hg3.
    rewrite !svc_upd. cbv zeta. done. }
  split.
  - split; [|split; [|done]]; intros y; rewrite Hsvc; cbv zeta; simpl.
    + rewrite <- Hg1. by repeat case_decide; rsimpl.
    + rewrite <- Hg2. by repeat case_decide; rsimpl.
  - intros y. destruct (Hdp y) as [H1 H2]. simpl. case_decide as Hy; [|done]. subst y. split.
    + apply list.NoDup_cons. split; [|done]. intros Hin. apply Hd. exists x. by right.
    + intros e [->|He]%elem_of_cons; auto.
  - intros y e He. change (deps (link_before x d st)) with (deps st).
    destruct (decide (e = d)) as [->|Hne]; [done|]. apply (Hal y). revert He. simpl.
    repeat case_decide; set_solver.
  - intros y. specialize (Ha y). rewrite Hsvc. cbv zeta. simpl.
    rewrite (held_in_ext st) by done.
    assert (held_in st (g_dpts (graph_link G d x) y) = held_in st (g_dpts G y)) as Hheld
      by (simpl; case_decide; simpl; [by rewrite Hh|done]).
    simpl in Hheld. rewrite Hheld. revert Ha. by repeat case_decide; rsimpl.
  - intros y fl Hex Hf. apply (Hp y fl Hex). revert Hf. rewrite Hsvc. cbv zeta.
    repeat case_decide; destruct fl; unfold flag; by rsimpl.
Qed.

Lemma inv_link_all x l : ∀ G st,
  InvG exact G c ex st → links_ok G → NoDup l →
  (∀ d, d ∈ l → ¬ linked G d ∧ g_to G d = x ∧ d ∈ dom (deps st)
     ∧ holding_acq (dep st d) = false) →
  ∃ G', InvG exact G' c ex (for_each l (link_before x) st) ∧ links_ok G'
    ∧ (∀ d, same_record G G' d)
    ∧ (∀ y, g_deps G' y = rev (filter (λ d, g_from G d = y) l) ++ g_deps G y)
    ∧ (∀ y d, d ∈ g_dpts G y → d ∈ g_dpts G' y).
Proof.
  induction l as [|d l IH]; intros G st H Hl Hnd Hd.
  { exists G. split; [done|]. split; [done|]. by split; [|split]. }
  apply list.NoDup_cons in Hnd as [Hdl Hnd].
  destruct (Hd d) as (H1 & H2 & H3 & H4); [by left|].
  destruct (IH (graph_link G d x) (link_before x d st)) as (G' & HG' & Hl' & Hs & Hds & Hdp).
  - by apply inv_link_before.
  - by apply links_ok_link.
  - done.
  - intros e He. destruct (Hd e) as (E1 & E2 & E3 & E4); [by right|].
    split; [|done]. assert (e ≠ d) by by intros ->.
    intros (y & Hy). apply E1. exists y. revert Hy. simpl. repeat case_decide; set_solver.
  - exists G'. split; [done|]. split; [done|]. split; [done|]. split.
    + intros y. rewrite Hds. simpl. rewrite filter_cons.
      destruct (decide (y = g_from G d)) as [->|Hy].
      * rewrite decide_True by done. simpl. by rewrite <- app_assoc.
      * by rewrite decide_False by congruence.
    + intros y e He. apply Hdp. simpl. case_decide; [by right|done].
Qed.

(** New dependencies, in front of those that [x] has. *)
Definition add_front x (old : list did) (p : prelim_dep) st : sys X :=
  (add_dep x p.1 p.2 (length (depends_on (svc st x)) - length old) st).1.

Lemma same_record_add G d x to ty i e : e ≠ d → same_record G (graph_add G d x to ty i) e.
Proof. intros He. unfold same_record. simpl. by rewrite !decide_False. Qed.

Lemma linked_add G d x to ty i e : linked G e → linked (graph_add G d x to ty i) e.
Proof.
  intros (y & Hy). exists y. simpl. destruct Hy as [Hy|Hy]; [left|right]; case_decide; [|done|..];
    rewrite ?elem_of_insert_at, ?elem_of_app; tauto.
Qed.

Lemma inv_add_all x old depends : ∀ G pre st,
  InvG exact G c ex st → links_ok G → g_deps G x = pre ++ old →
  ∃ G' news, InvG exact G' c ex (for_each depends (add_front x old) st) ∧ links_ok G'
    ∧ g_deps G' x = pre ++ news ++ old
    ∧ (∀ y, y ≠ x → g_deps G' y = g_deps G y)
    ∧ (λ d, (g_to G' d, g_type G' d)) <$> news = depends
    ∧ (∀ d, linked G d → same_record G G' d) ∧ (∀ d, d ∈ news → ¬ linked G d).
Proof.
  induction depends as [|[to ty] depends IH]; intros G pre st H Hl Hx.
  { exists G, []. split; [done|]. split; [done|]. split_and!; try done. by intros d []%not_elem_of_nil. }
  assert (depends_on (svc st x) = g_deps G x) as Hdeps by apply (inv_graph _ _ _ _ _ H).
  unfold for_each. cbn [foldl]. unfold add_front at 2. cbn [fst snd].
  replace (length (depends_on (svc st x)) - length old)%nat with (length pre)
    by (rewrite Hdeps, Hx, length_app; lia).
  set (d := (add_dep x to ty (length pre) st).2).
  set (G1 := graph_add G d x to ty (length pre)).
  assert (¬ linked G d) as Hd.
  { intros (y & Hy). apply (add_dep_fresh x to ty (length pre) st).
    by apply (inv_alloc _ _ _ _ _ H y). }
  destruct (IH G1 (pre ++ [d]) (add_dep x to ty (length pre) st).1)
    as (G' & news & H' & Hl' & Hx' & Hy' & Hn & Hs & Hfresh).
  - by apply inv_add_dep.
  - by eapply links_ok_add_dep.
  - unfold G1. simpl. rewrite decide_True by done. unfold insert_at. rewrite Hx.
    by rewrite take_app_length, drop_app_length, <- app_assoc.
  - assert (linked G1 d) as Hd1.
    { exists to. right. simpl. rewrite decide_True by done. apply elem_of_app. right. by left. }
    assert (∀ e, linked G e → e ≠ d) as Hne by (intros e He ->; done).
    exists G', (d :: news). split; [done|]. split; [done|]. split_and!.
    + by rewrite Hx', <- app_assoc.
    + intros y Hy. rewrite Hy' by done. simpl. by rewrite decide_False.
    + rewrite fmap_cons, Hn. destruct (Hs d Hd1) as (_ & -> & ->). simpl.
      by rewrite !decide_True.
    + intros e He. destruct (Hs e) as (E1 & E2 & E3); [by apply linked_add|].
      assert (same_record G G1 e) as (F1 & F2 & F3) by by apply same_record_add, Hne.
      split_and!; congruence.
    + intros e [->|He]%elem_of_cons; [done|]. intros Hlk. apply (Hfresh e He). by apply linked_add.
Qed.

(** Removing records: [body] removes a record of type [p] from the list that has it. *)
Definition removes (p : dependency_type → bool) G d : Prop :=
  p (g_type G d) = true ∧ d ∈ g_deps G (g_from G d).
Definition graph_after (p : dependency_type → bool) G d : graph :=
  if decide (removes p G d) then graph_remove G d (g_from G d) else G.

Lemma graph_remove_deps G d y : NoDup (g_deps G y) → links_ok G →
  g_deps (graph_remove G d (g_from G d)) y = filter (λ e, e ≠ d) (g_deps G y).
Proof.
  intros Hnd Hl. simpl. case_decide as Hy.
  - by apply erase_first_filter.
  - symmetry. apply filter_all_in. intros e He ->. by apply Hy, eq_sym, (Hl y).
Qed.

Lemma graph_after_deps p G d y : links_ok G →
  g_deps (graph_after p G d) y
  = filter (λ e, ¬ (e = d ∧ p (g_type G e) = true)) (g_deps G y).
Proof.
  intros Hl. pose proof (proj1 (Hl y)) as Hnd. unfold graph_after. case_decide as Hr.
  - rewrite graph_remove_deps by done. apply filter_ext_in. intros e _.
    destruct Hr as [Hp _]. naive_solver.
  - symmetry. apply filter_all_in. intros e He [-> Hp]. apply Hr. split; [done|].
    by rewrite (proj1 (proj2 (Hl y) d He)).
Qed.

Lemma same_record_after p G d e : e ≠ d → same_record G (graph_after p G d) e.
Proof.
  intros He. unfold graph_after. case_decide; [|done]. unfold same_record. simpl.
  by rewrite !decide_False.
Qed.

Lemma links_ok_after p G st d :
  InvG exact G c ex st → links_ok G → links_ok (graph_after p G d).
Proof.
  intros H Hl. unfold graph_after. case_decide as Hr; [|done].
  apply links_ok_remove; [by apply (inv_dpts _ _ _ _ _ H)|done|apply Hr].
Qed.

Lemma inv_remove_all p (Q : graph → did → Prop) (body : did → sys X → sys X) :
  (∀ G d st, InvG exact G c ex st → links_ok G → Q G d →
     InvG exact (graph_after p G d) c ex (body d st)) →
  (∀ G d e, links_ok G → e ≠ d → Q G e → Q (graph_after p G d) e) →
  ∀ l G st, NoDup l → (∀ d, d ∈ l → Q G d) → InvG exact G c ex st → links_ok G →
  ∃ G', InvG exact G' c ex (for_each l body st) ∧ links_ok G'
    ∧ (∀ y, g_deps G' y = filter (λ d, ¬ (d ∈ l ∧ p (g_type G d) = true)) (g_deps G y))
    ∧ (∀ y d, d ∈ g_deps G' y → same_record G G' d).
Proof.
  intros Hbody HQ. induction l as [|d l IH]; intros G st Hnd Hall H Hl.
  { exists G. split; [done|]. split; [done|]. split; [|done]. intros y. symmetry.
    apply filter_all_in. by intros e _ [?%not_elem_of_nil _]. }
  apply list.NoDup_cons in Hnd as [Hdl Hnd].
  assert (∀ e, e ∈ l → e ≠ d) as Hne by (intros e He ->; done).
  destruct (IH (graph_after p G d) (body d st)) as (G' & H' & Hl' & Hds & Hs).
  - done.
  - intros e He. apply HQ; [done|by apply Hne|]. apply Hall. by right.
  - apply Hbody; [done..|]. apply Hall. by left.
  - by eapply links_ok_after.
  - exists G'. split; [done|]. split; [done|]. split.
    + intros y. rewrite Hds, graph_after_deps, list_filter_filter by done.
      apply filter_ext_in. intros e He. rewrite elem_of_cons.
      destruct (decide (e = d)) as [->|Hed]; [naive_solver|].
      destruct (same_record_after p G d e Hed) as (_ & _ & ->). naive_solver.
    + intros y e He. destruct (Hs y e He) as (E1 & E2 & E3).
      rewrite Hds, graph_after_deps in He by done.
      apply list_elem_of_filter in He as [_ [Hno He]%list_elem_of_filter].
      destruct (decide (e = d)) as [->|Hed].
      * assert (¬ removes p G d) as Hr by (intros [Hp _]; naive_solver).
        revert E1 E2 E3. unfold graph_after. rewrite decide_False by done. done.
      * destruct (same_record_after p G d e Hed) as (F1 & F2 & F3). split_and!; congruence.
Qed.
End graph_changes.

(** ** Changing the dependencies of a service *)

Lemma fmap_ext_in {A B} (f g : A → B) (l : list A) :
  (∀ a, a ∈ l → f a = g a) → f <$> l = g <$> l.
Proof.
  induction l as [|a l IH]; intros Ha; [done|].
  rewrite !fmap_cons, IH, Ha; [done|set_solver..].
Qed.

Lemma is_before_true ty : is_before ty = true ↔ ty = dependency_type.BEFORE.
Proof. apply bool_decide_eq_true. Qed.

(** The graphs after each of the loops. *)
Record stages (G : graph) (x : sid) (old depts news before_deps : list did) (G1 G2 G3 G4 : graph) : Prop := {
  st_old : old = g_deps G x;
  st_depts (d : did) : d ∈ depts ↔ d ∈ g_dpts G x;
  st_links1 : links_ok G1;
  st_same1 d : same_record G G1 d;
  st_deps1 y : g_deps G1 y = rev (filter (λ d, g_from G d = y) before_deps) ++ g_deps G y;
  st_dpts1 y d : d ∈ g_dpts G y → d ∈ g_dpts G1 y;
  st_x2 : g_deps G2 x = news ++ old;
  st_y2 y : y ≠ x → g_deps G2 y = g_deps G1 y;
  st_same2 d : linked G1 d → same_record G1 G2 d;
  st_new2 d : d ∈ news → ¬ linked G1 d;
  st_deps3 y : g_deps G3 y
    = filter (λ d, ¬ (d ∈ old ∧ negb (is_before (g_type G2 d)) = true)) (g_deps G2 y);
  st_same3 y d : d ∈ g_deps G3 y → same_record G2 G3 d;
  st_deps4 y : g_deps G4 y
    = filter (λ d, ¬ (d ∈ depts ∧ is_before (g_type G3 d) = true)) (g_deps G3 y);
  st_same4 y d : d ∈ g_deps G4 y → same_record G3 G4 d
}.

Section stages.
Context {G : graph} {x : sid} {old depts news before_deps : list did} {G1 G2 G3 G4 : graph}.
Context (H : stages G x old depts news before_deps G1 G2 G3 G4).
Context (G_links : links_ok G) (G_dpts : dpts_ok G) (G_self : ∀ d, d ∈ g_deps G x → g_to G d ≠ x).
Context (before_linked : ∀ d, d ∈ before_deps → ¬ linked G d).
Context (before_from : ∀ d, d ∈ before_deps → g_from G d ≠ x).

Lemma stage_x1 : g_deps G1 x = old.
Proof using Type*.
  rewrite (st_deps1 _ _ _ _ _ _ _ _ _ _ H), filter_none_in; [|done].
  symmetry. apply (st_old _ _ _ _ _ _ _ _ _ _ H).
Qed.

Lemma linked1_old d : d ∈ old ∨ d ∈ depts ∨ d ∈ before_deps → linked G1 d.
Proof using Type*.
  intros [Hd|[Hd|Hd]].
  - exists x. left. by rewrite stage_x1.
  - exists x. right. apply (st_dpts1 _ _ _ _ _ _ _ _ _ _ H).
    by apply (st_depts _ _ _ _ _ _ _ _ _ _ H).
  - exists (g_from G d). left. rewrite (st_deps1 _ _ _ _ _ _ _ _ _ _ H).
    apply elem_of_app. left. apply list_elem_of_In. rewrite <- in_rev.
    apply list_elem_of_In, list_elem_of_filter. done.
Qed.

Lemma news_new d : d ∈ news → ¬ (d ∈ old) ∧ ¬ (d ∈ depts) ∧ ¬ (d ∈ before_deps).
Proof using Type*.
  intros Hn. pose proof (st_new2 _ _ _ _ _ _ _ _ _ _ H d Hn) as Hl.
  split_and!; intros Hd; apply Hl, linked1_old; tauto.
Qed.

Lemma stage_same2 y d : d ∈ g_deps G2 y → d ∉ news → same_record G G2 d.
Proof using Type*.
  intros Hd Hn. assert (linked G1 d) as Hl.
  { destruct (decide (y = x)) as [->|Hy].
    - rewrite (st_x2 _ _ _ _ _ _ _ _ _ _ H) in Hd. apply linked1_old. set_solver.
    - exists y. left. by rewrite <- (st_y2 _ _ _ _ _ _ _ _ _ _ H). }
  destruct (st_same2 _ _ _ _ _ _ _ _ _ _ H d Hl) as (E1 & E2 & E3).
  destruct (st_same1 _ _ _ _ _ _ _ _ _ _ H d) as (F1 & F2 & F3). split_and!; congruence.
Qed.

Lemma stage_x3 : g_deps G3 x = news ++ filter (λ d, g_type G d = dependency_type.BEFORE) old.
Proof using Type*.
  rewrite (st_deps3 _ _ _ _ _ _ _ _ _ _ H), (st_x2 _ _ _ _ _ _ _ _ _ _ H), list.filter_app. f_equal.
  - apply filter_all_in. intros d Hd [Ho _]. by destruct (news_new d Hd) as (? & _).
  - apply filter_ext_in. intros d Hd.
    assert (d ∉ news) as Hn by (intros Hn; by destruct (news_new d Hn) as (? & _)).
    destruct (stage_same2 x d) as (_ & _ & ->).
    { rewrite (st_x2 _ _ _ _ _ _ _ _ _ _ H). by apply elem_of_app; right. }
    { done. }
    rewrite negb_true_iff, <- is_before_true. destruct (is_before _); naive_solver.
Qed.

Lemma stage_y3 y : y ≠ x → g_deps G3 y = g_deps G1 y.
Proof using Type*.
  intros Hy. rewrite (st_deps3 _ _ _ _ _ _ _ _ _ _ H), (st_y2 _ _ _ _ _ _ _ _ _ _ H) by done.
  apply filter_all_in. intros d Hd [Ho _]. apply Hy.
  rewrite <- stage_x1 in Ho. pose proof (st_links1 _ _ _ _ _ _ _ _ _ _ H) as Hl.
  rewrite <- (proj1 (proj2 (Hl y) d Hd)). apply (Hl x), Ho.
Qed.
Lemma depts_to d : d ∈ depts → g_to G d = x.
Proof using Type*.
  rewrite (st_depts _ _ _ _ _ _ _ _ _ _ H). apply (proj2 (G_dpts x)).
Qed.

Lemma stage_x4 : g_deps G4 x = news ++ filter (λ d, g_type G d = dependency_type.BEFORE) old.
Proof using Type*.
  rewrite (st_deps4 _ _ _ _ _ _ _ _ _ _ H), stage_x3. apply filter_all_in.
  intros d [Hd|[_ Hd]%list_elem_of_filter]%elem_of_app [Hp _].
  - by destruct (news_new d Hd) as (_ & ? & _).
  - apply (G_self d); [by rewrite <- (st_old _ _ _ _ _ _ _ _ _ _ H)|by apply depts_to].
Qed.

Lemma stage_same3 y d : d ∈ g_deps G3 y → d ∉ news → same_record G G3 d.
Proof using Type*.
  intros Hd Hn. destruct (st_same3 _ _ _ _ _ _ _ _ _ _ H y d Hd) as (E1 & E2 & E3).
  rewrite (st_deps3 _ _ _ _ _ _ _ _ _ _ H) in Hd. apply list_elem_of_filter in Hd as [_ Hd].
  destruct (stage_same2 y d Hd Hn) as (F1 & F2 & F3). split_and!; congruence.
Qed.

Lemma stage_y_old y d : y ≠ x → d ∈ g_deps G3 y → d ∉ news.
Proof using Type*.
  intros Hy Hd Hn. rewrite stage_y3 in Hd by done.
  apply (st_new2 _ _ _ _ _ _ _ _ _ _ H d Hn). exists y. by left.
Qed.

Lemma stage_y4 y : y ≠ x → g_deps G4 y
  = rev (filter (λ d, g_from G d = y) before_deps)
    ++ filter (λ d, ¬ (g_to G d = x ∧ g_type G d = dependency_type.BEFORE)) (g_deps G y).
Proof using Type*.
  intros Hy. rewrite (st_deps4 _ _ _ _ _ _ _ _ _ _ H).
  transitivity (filter (λ d, ¬ (d ∈ depts ∧ g_type G d = dependency_type.BEFORE)) (g_deps G3 y)).
  { apply filter_ext_in. intros d Hd. rewrite is_before_true.
    by destruct (stage_same3 y d Hd (stage_y_old y d Hy Hd)) as (_ & _ & ->). }
  rewrite stage_y3, (st_deps1 _ _ _ _ _ _ _ _ _ _ H), list.filter_app by done. f_equal.
  - apply filter_all_in. intros d Hd [Hp _].
    apply list_elem_of_In in Hd. rewrite <- in_rev in Hd. apply list_elem_of_In in Hd.
    apply list_elem_of_filter in Hd as [_ Hd]. apply (before_linked d Hd). exists x. right.
    by apply (st_depts _ _ _ _ _ _ _ _ _ _ H).
  - apply filter_ext_in. intros d Hd. rewrite (st_depts _ _ _ _ _ _ _ _ _ _ H).
    assert (d ∈ g_dpts G x ↔ g_to G d = x) as ->; [|done]. split; [apply (proj2 (G_dpts x))|].
    intros <-. by apply (proj2 (G_links y)).
Qed.

Lemma stage_same4 y d : d ∈ g_deps G4 y → d ∉ news → same_record G G4 d.
Proof using Type*.
  intros Hd Hn. destruct (st_same4 _ _ _ _ _ _ _ _ _ _ H y d Hd) as (E1 & E2 & E3).
  rewrite (st_deps4 _ _ _ _ _ _ _ _ _ _ H) in Hd. apply list_elem_of_filter in Hd as [_ Hd].
  destruct (stage_same3 y d Hd Hn) as (F1 & F2 & F3). split_and!; congruence.
Qed.

Lemma stage_news4 d : d ∈ news → same_record G2 G4 d.
Proof using Type*.
  intros Hn. assert (d ∈ g_deps G4 x) as Hd by (rewrite stage_x4; set_solver).
  destruct (st_same4 _ _ _ _ _ _ _ _ _ _ H x d Hd) as (E1 & E2 & E3).
  rewrite (st_deps4 _ _ _ _ _ _ _ _ _ _ H) in Hd. apply list_elem_of_filter in Hd as [_ Hd].
  destruct (st_same3 _ _ _ _ _ _ _ _ _ _ H x d Hd) as (F1 & F2 & F3). split_and!; congruence.
Qed.
End stages.

Section update.
Context {X : Type} `{!ServiceVirtual X} `{!ServiceVirtualLaws X}.
Context (exact : bool) (c : sid → Z) (ex : sid → prop_flag → bool).
Implicit Types (st : sys X) (x y : sid) (d e : did) (G : graph).

(** What a record says of its target. *)
Definition info st d : prelim_dep := (dep_to (dep st d), dep_type (dep st d)).
Definition g_info G d : prelim_dep := (g_to G d, g_type G d).

Lemma inv_info G st d : InvG exact G c ex st → info st d = g_info G d.
Proof.
  intros H. destruct (inv_graph _ _ _ _ _ H) as (_ & _ & _ & Ht & Hy).
  unfold info, g_info. by rewrite Ht, Hy.
Qed.
Lemma same_info G G' d : same_record G G' d → g_info G' d = g_info G d.
Proof. intros (_ & Ht & Hy). unfold g_info. by rewrite Ht, Hy. Qed.

Definition drop_old x d st : sys X :=
  when (negb (is_before (dep_type (dep st d)))) (rm_dep_it x d) st.
Definition drop_before d st : sys X :=
  when (is_before (dep_type (dep st d))) (rm_dep_ref (dep_from (dep st d)) d) st.

Lemma inv_drop_old x l G st : NoDup l → (∀ d, d ∈ l → d ∈ g_deps G x) →
  InvG exact G c ex st → links_ok G →
  ∃ G', InvG exact G' c ex (for_each l (drop_old x) st) ∧ links_ok G'
    ∧ (∀ y, g_deps G' y = filter (λ d, ¬ (d ∈ l ∧ negb (is_before (g_type G d)) = true)) (g_deps G y))
    ∧ (∀ y d, d ∈ g_deps G' y → same_record G G' d).
Proof.
  apply (inv_remove_all exact c ex (λ ty, negb (is_before ty)) (λ G d, d ∈ g_deps G x) (drop_old x)).
  - clear G st. intros G d st H Hl Hd. unfold drop_old.
    destruct (inv_graph _ _ _ _ _ H) as (_ & _ & _ & _ & ->).
    pose proof (proj1 (proj2 (Hl x) d Hd)) as Hf. unfold graph_after, removes. rewrite Hf.
    destruct (negb (is_before (g_type G d))); cbn [when].
    + rewrite decide_True by done. by apply inv_rm_dep_it.
    + rewrite decide_False by by intros []. done.
  - clear G st. intros G d e Hl Hne He. rewrite graph_after_deps by done.
    apply list_elem_of_filter. split; [by intros []|done].
Qed.

Lemma inv_drop_before l G st : NoDup l →
  InvG exact G c ex st → links_ok G →
  ∃ G', InvG exact G' c ex (for_each l drop_before st) ∧ links_ok G'
    ∧ (∀ y, g_deps G' y = filter (λ d, ¬ (d ∈ l ∧ is_before (g_type G d) = true)) (g_deps G y))
    ∧ (∀ y d, d ∈ g_deps G' y → same_record G G' d).
Proof.
  intros Hnd. apply (inv_remove_all exact c ex is_before (λ _ _, True) drop_before); [|done..].
  clear G st. intros G d st H Hl _. unfold drop_before, rm_dep_ref.
  destruct (inv_graph _ _ _ _ _ H) as (Hdeps & _ & -> & _ & ->).
  unfold graph_after, removes. destruct (is_before (g_type G d)); cbn [when].
  - rewrite Hdeps. case_bool_decide as Hd; cbn [when].
    + rewrite decide_True by done. by apply inv_rm_dep_it.
    + rewrite decide_False by by intros []. done.
  - rewrite decide_False by by intros []. done.
Qed.

(** The "before" dependencies that the loader has made for [x]: in no list yet. *)
Record before_ok st x (before_deps : list did) : Prop := {
  bo_nodup : NoDup before_deps;
  bo_alloc d : d ∈ before_deps → d ∈ dom (deps st);
  bo_info d : d ∈ before_deps → info st d = (x, dependency_type.BEFORE);
  bo_holding d : d ∈ before_deps → holding_acq (dep st d) = false;
  bo_from d : d ∈ before_deps → dep_from (dep st d) ≠ x;
  bo_unlinked d y : d ∈ before_deps →
    ¬ (d ∈ depends_on (svc st y)) ∧ ¬ (d ∈ dependents (svc st y))
}.

Lemma before_ok_linked G st x before_deps d :
  InvG exact G c ex st → before_ok st x before_deps → d ∈ before_deps → ¬ linked G d.
Proof.
  intros H Hb Hd (y & Hy). destruct (bo_unlinked _ _ _ Hb d y Hd) as [H1 H2].
  destruct (inv_graph _ _ _ _ _ H) as (E1 & E2 & _). rewrite E1 in H1. rewrite E2 in H2. tauto.
Qed.

(** The four loops of [update_depenencies]. *)
Definition update_loops x (new : list prelim_dep) (before_deps : list did) st : sys X :=
  let old_deps := depends_on (svc st x) in
  let old_depts := dependents (svc st x) in
  for_each old_depts drop_before
    (for_each old_deps (drop_old x)
      (for_each new (add_front x old_deps)
        (for_each before_deps (link_before x) st))).

Lemma update_unfold x new before_deps st :
  update_depenencies x new before_deps st
  = match check_cycle new x (chars (service_name (svc st x))) st with
    | Throw e => (st, Throw e)
    | Ok _ => (update_loops x new before_deps st, Ok tt)
    end.
Proof. done. Qed.

Definition keeps_before st x : list did :=
  filter (λ d, dep_type (dep st d) = dependency_type.BEFORE) (depends_on (svc st x)).
Definition new_before st y (before_deps : list did) : list did :=
  rev (filter (λ d, dep_from (dep st d) = y) before_deps).
Definition not_from_x st x y : list did :=
  filter (λ d, info st d ≠ (x, dependency_type.BEFORE)) (depends_on (svc st y)).

Lemma update_stages G x new before_deps st :
  InvG exact G c ex st → links_ok G → before_ok st x before_deps →
  ∃ G1 G2 G3 G4 news, InvG exact G4 c ex (update_loops x new before_deps st) ∧ links_ok G4
    ∧ g_info G2 <$> news = new
    ∧ stages G x (depends_on (svc st x)) (dependents (svc st x)) news before_deps G1 G2 G3 G4.
Proof.
  intros H Hl Hb. destruct (inv_graph _ _ _ _ _ H) as (Hdeps & Hdpts & Hfrom & Hto & Hty).
  destruct (inv_link_all exact c ex x before_deps G st H Hl) as (G1 & H1 & Hl1 & Hs1 & Hd1 & Hp1).
  { apply Hb. }
  { intros d Hd. split_and!; [by eapply before_ok_linked| |by apply Hb..].
    rewrite <- Hto. pose proof (bo_info _ _ _ Hb d Hd) as Hi. unfold info in Hi. congruence. }
  assert (g_deps G1 x = g_deps G x) as Hx1.
  { rewrite Hd1, filter_none_in; [done|]. intros d Hd. rewrite <- Hfrom.
    by apply (bo_from _ _ _ Hb). }
  destruct (inv_add_all exact c ex x (depends_on (svc st x)) new G1 []
    (for_each before_deps (link_before x) st)) as (G2 & news & H2 & Hl2 & Hx2 & Hy2 & Hn2 & Hs2 & Hf2);
    [done|done|by rewrite Hx1, <- Hdeps|].
  destruct (inv_drop_old x (depends_on (svc st x)) G2
    (for_each new (add_front x (depends_on (svc st x))) (for_each before_deps (link_before x) st)))
    as (G3 & H3 & Hl3 & Hd3 & Hs3); [rewrite Hdeps; apply (proj1 (Hl x))| |done|done|].
  { intros d Hd. rewrite Hx2. set_solver. }
  destruct (inv_drop_before (dependents (svc st x)) G3
    (for_each (depends_on (svc st x)) (drop_old x)
      (for_each new (add_front x (depends_on (svc st x)))
        (for_each before_deps (link_before x) st)))) as (G4 & H4 & Hl4 & Hd4 & Hs4);
    [rewrite Hdpts; apply (proj1 (inv_dpts _ _ _ _ _ H x))|done|done|].
  exists G1, G2, G3, G4, news. split; [done|]. split; [done|]. split; [done|]. split; try done.
  intros d. by rewrite Hdpts.
Qed.


(** The dependencies after the update: those of [x] are the new ones and the "before"
    dependencies that other services declared; other services have the new "before"
    dependencies that [x] declares, and no old ones. *)
Lemma update_loops_spec x new before_deps st :
  InvE exact c ex st → before_ok st x before_deps → ¬ depends st x x →
  let st' := update_loops x new before_deps st in
  InvE exact c ex st'
  ∧ info st' <$> depends_on (svc st' x) = new ++ (info st <$> keeps_before st x)
  ∧ ∀ y, y ≠ x → info st' <$> depends_on (svc st' y)
      = (info st <$> new_before st y before_deps) ++ (info st <$> not_from_x st x y).
Proof.
  intros (G & Hl & H) Hb Hself st'.
  destruct (inv_graph _ _ _ _ _ H) as (Hdeps & Hdpts & Hfrom & Hto & Hty).
  destruct (update_stages G x new before_deps st H Hl Hb)
    as (G1 & G2 & G3 & G4 & news & H4 & Hl4 & Hnew & Hst).
  fold st' in H4. destruct (inv_graph _ _ _ _ _ H4) as (Hdeps4 & _).
  pose proof (inv_dpts _ _ _ _ _ H) as Hd.
  assert (∀ d, d ∈ g_deps G x → g_to G d ≠ x) as Hself'.
  { intros d Hin Hx. apply Hself. unfold depends, targets. apply list_elem_of_fmap.
    exists d. split; [simpl; by rewrite Hto|by rewrite Hdeps]. }
  assert (∀ d, d ∈ before_deps → ¬ linked G d) as Hbl by (intros d; by eapply before_ok_linked).
  assert (∀ d, d ∈ before_deps → g_from G d ≠ x) as Hbf
    by (intros d Hd'; rewrite <- Hfrom; by apply (bo_from _ _ _ Hb)).
  assert (∀ y (l : list did), (∀ d, d ∈ l → d ∈ g_deps G4 y ∧ d ∉ news) → info st' <$> l = info st <$> l)
    as Hsame.
  { intros y l Hin. apply fmap_ext_in. intros d Hd'. destruct (Hin d Hd') as [H1 H2].
    rewrite (inv_info G4), (inv_info G) by done.
    by eapply same_info, (stage_same4 Hst Hl Hd Hself' Hbl Hbf y). }
  split; [by exists G4|]. split.
  - rewrite Hdeps4, (stage_x4 Hst Hl Hd Hself' Hbl Hbf), fmap_app. f_equal.
    + rewrite <- Hnew. apply fmap_ext_in. intros d Hn. rewrite (inv_info G4) by done.
      by apply same_info, (stage_news4 Hst Hl Hd Hself' Hbl Hbf).
    + rewrite (Hsame x).
      * f_equal. unfold keeps_before. apply filter_ext_in. intros d _. by rewrite Hty.
      * intros d Hin. split; [rewrite (stage_x4 Hst Hl Hd Hself' Hbl Hbf); set_solver|].
        apply list_elem_of_filter in Hin as [_ Hin]. intros Hn.
        by destruct (news_new Hst Hl Hd Hself' Hbl Hbf d Hn) as (? & _).
  - intros y Hy. rewrite Hdeps4, (Hsame y).
    + rewrite (stage_y4 Hst Hl Hd Hself' Hbl Hbf y Hy), fmap_app. f_equal; f_equal.
      * unfold new_before. f_equal. apply filter_ext_in. intros d _. by rewrite Hfrom.
      * unfold not_from_x. rewrite Hdeps. apply filter_ext_in. intros d _. unfold info.
        rewrite Hto, Hty. split; [by intros Hn [= E1 E2]; apply Hn|].
        intros Hn [E1 E2]. apply Hn. congruence.
    + intros d Hin. split; [done|]. eapply (stage_y_old Hst Hl Hd Hself' Hbl Hbf); [exact Hy|].
      revert Hin. rewrite (st_deps4 _ _ _ _ _ _ _ _ _ _ Hst). by intros [_ ?]%list_elem_of_filter.
Qed.
End update.
