(* ===== verification/LoaderProps.v ===== *)
(** * Loading services: properties

    What the loader relies on and what it leaves behind when it changes the dependency
    graph, with concrete service sets. *)

From S2P Require Import Prelude Text ServiceData Service ServiceInv ServiceInvOps ServiceGraph Simple ServiceReach SimpleLaws ServiceExamples Settings Loader LoaderLaws.

(** C22: The search for cycles before dependencies are added always ends, and it throws
    exactly where one of the new dependencies is the service itself or reaches it
    through the dependencies of the loaded services. *)
Theorem check_cycle_correct {X} (st : sys X) new orig report :
  (check_cycle new orig report st = Ok tt
    ↔ ¬ ∃ z, z ∈ new.*1 ∧ rtc (depends st) z orig)
  ∧ (check_cycle new orig report st = Throw (Cyclic_dependency report)
    ↔ ∃ z, z ∈ new.*1 ∧ rtc (depends st) z orig).
Proof.
  destruct (check_cycle_cases st new orig report) as [[-> H]|[-> H]].
  - split; (split; [|naive_solver]); [|done]. intros _ (z & Hz & Hr). by apply (H z).
  - split; (split; [done|]); [by intros []|done].
Qed.

(** ** The graph without cycles *)

Section acyclic.
Context {X : Type} `{!ServiceVirtual X} `{!ServiceVirtualLaws X}.
Implicit Types (st : sys X) (x y z : sid).

Lemma depends_info st x y : depends st x y ↔ y ∈ (info st <$> depends_on (svc st x)).*1.
Proof.
  unfold depends, targets. rewrite <- list_fmap_compose. done.
Qed.

(** The new graph is the old one, changed around [x]. *)
Lemma update_loops_edges c ex exact x new before_deps st a b :
  InvE exact c ex st → before_ok st x before_deps → ¬ depends st x x →
  depends (update_loops x new before_deps st) a b →
  (a ≠ x ∧ depends st a b)
  ∨ (a = x ∧ (b ∈ new.*1 ∨ (b ∈ (info st <$> keeps_before st x).*1 ∧ depends st x b)))
  ∨ (b = x ∧ ∃ d, d ∈ before_deps ∧ dep_from (dep st d) = a).
Proof.
  intros H Hb Hx. destruct (update_loops_spec exact c ex x new before_deps st H Hb Hx) as (_ & H1 & H2).
  rewrite depends_info. destruct (decide (a = x)) as [->|Ha].
  - rewrite H1, fmap_app, elem_of_app. intros [Hin|Hin]; right; left; (split; [done|]); [by left|right].
    split; [done|]. apply depends_info. revert Hin. rewrite <- !list_fmap_compose, !list_elem_of_fmap.
    intros (d & -> & [_ Hd]%list_elem_of_filter). by exists d.
  - rewrite H2, fmap_app, elem_of_app by done. intros [Hin|Hin]; [right; right|left].
    + revert Hin. rewrite <- list_fmap_compose, list_elem_of_fmap. intros (d & -> & Hd).
      unfold new_before in Hd. apply list_elem_of_In, in_rev, list_elem_of_In in Hd.
      apply list_elem_of_filter in Hd as [Hf Hd]. split; [|by exists d].
      pose proof (bo_info _ _ _ Hb d Hd) as Hi. unfold info in Hi. simpl. congruence.
    + split; [done|]. apply depends_info. revert Hin.
      rewrite <- !list_fmap_compose, !list_elem_of_fmap.
      intros (d & -> & [_ Hd]%list_elem_of_filter). by exists d.
Qed.

Lemma update_loops_acyclic c ex exact x new before_deps st :
  InvE exact c ex st → before_ok st x before_deps → acyclic st →
  (∀ z, z ∈ new.*1 → ¬ rtc (depends st) z x) →
  (∀ d z, d ∈ before_deps → z ∈ new.*1 ∨ z ∈ (info st <$> keeps_before st x).*1 →
     ¬ rtc (depends st) z (dep_from (dep st d))) →
  acyclic (update_loops x new before_deps st).
Proof.
  intros H Hb Hac Hnew Hbefore.
  assert (¬ depends st x x) as Hx by (intros Hx; by apply (Hac x), tc_once).
  intros y. eapply (acyclic_around (depends st) _ x (λ z, z ∈ new.*1)
    (λ z, z ∈ (info st <$> keeps_before st x).*1)
    (λ z, ∃ d, d ∈ before_deps ∧ dep_from (dep st d) = z)); [done| |done| |].
  - intros a b Hab. by eapply update_loops_edges.
  - intros (d & Hd & Hf). by apply (bo_from _ _ _ Hb d).
  - intros z b Hz (d & Hd & <-). by apply Hbefore.
Qed.
End acyclic.

(** C23: update_depenencies on a well-formed, acyclic graph, with new "before" records of
    other services that are not linked yet, is all or nothing. If a new dependency reaches
    the service, it throws the cyclic-dependency error with nothing changed. Otherwise the
    service depends on exactly the new ones in their order followed by the "before"
    dependencies that other services declared in its favour, and every other service has the
    "before" dependencies on it that are in force now, followed by those it had that were
    not made by the service itself; the graph is well formed and acyclic. Condition, which
    the code does not check (load-service.cc:705): no service that the "before" settings
    name is reached from the new dependencies or the kept ones. *)
Theorem update_dependencies_correct {X} `{!ServiceVirtual X} `{!ServiceVirtualLaws X}
    (st : sys X) x new before_deps :
  Inv st → before_ok st x before_deps → acyclic st →
  (∀ d z, d ∈ before_deps → z ∈ new.*1 ∨ z ∈ (info st <$> keeps_before st x).*1 →
     ¬ rtc (depends st) z (dep_from (dep st d))) →
  ∃ st' r, update_depenencies x new before_deps st = (st', r)
  ∧ ((r = Throw (Cyclic_dependency (chars (service_name (svc st x)))) ∧ st' = st
       ∧ ∃ z, z ∈ new.*1 ∧ rtc (depends st) z x)
     ∨ (r = Ok tt ∧ Inv st' ∧ acyclic st'
       ∧ info st' <$> depends_on (svc st' x) = new ++ (info st <$> keeps_before st x)
       ∧ ∀ y, y ≠ x → info st' <$> depends_on (svc st' y)
           = (info st <$> new_before st y before_deps) ++ (info st <$> not_from_x st x y))).
Proof.
  intros H Hb Hac Hbefore. rewrite update_unfold.
  destruct (check_cycle_cases st new x (chars (service_name (svc st x)))) as [[-> Hnew]|[-> Hnew]].
  - exists (update_loops x new before_deps st), (Ok tt). split; [done|]. right.
    assert (¬ depends st x x) as Hx by (intros Hx; by apply (Hac x), tc_once).
    destruct (update_loops_spec false _ _ x new before_deps st H Hb Hx) as (H1 & H2 & H3).
    split; [done|]. split; [done|]. split; [|done]. by eapply update_loops_acyclic.
  - eexists _, _. split; [done|]. by left.
Qed.

(** ** Concrete graphs *)

Section new_before.
Context {X : Type} `{!ServiceVirtual X}.
Context (exact : bool) (c : sid → Z) (ex : sid → prop_flag → bool).
Implicit Types (st : sys X) (x y : sid).

Definition graph_record (G : graph) (d : did) (r : service_dep) : graph := {|
  g_deps := g_deps G; g_dpts := g_dpts G;
  g_from := λ e, if decide (e = d) then dep_from r else g_from G e;
  g_to := λ e, if decide (e = d) then dep_to r else g_to G e;
  g_type := λ e, if decide (e = d) then dep_type r else g_type G e |}.

(** A record that the loader makes for a "before" setting. *)
Lemma new_before_ok x y st : InvE exact c ex st → y ≠ x →
  let p := new_before_dep y (Some x) st in InvE exact c ex p.1 ∧ before_ok p.1 x [p.2].
Proof.
  intros (G & Hl & [(Hg1 & Hg2 & Hg3 & Hg4 & Hg5) Hdp Hal Ha Hp]) Hy. cbv zeta.
  unfold new_before_dep. cbn [fst snd]. set (d := fresh (dom (deps st))).
  set (r := service_dep_new y (default 0%nat (Some x)) dependency_type.BEFORE).
  assert (d ∉ dom (deps st)) as Hd by apply is_fresh.
  assert (∀ z e, e ∈ g_deps G z ∨ e ∈ g_dpts G z → e ≠ d) as Hne
    by (intros z e He ->; by apply Hd, (Hal z)).
  assert (∀ e, dep (st <| deps := <[d := r]> (deps st) |>) e
    = if decide (e = d) then r else dep st e) as Hdep by (intros e; apply dep_insert).
  split.
  - exists (graph_record G d r). split.
    { intros z. destruct (Hl z) as [H1 H2]. split; [done|]. intros e He. simpl.
      rewrite !decide_False by (eapply Hne; by left). by apply H2. }
    split.
    + split; [done|]. split; [done|]. split_and!; intros e; rewrite Hdep; simpl;
        rewrite <- ?Hg3, <- ?Hg4, <- ?Hg5; by case_decide.
    + intros z. destruct (Hdp z) as [H1 H2]. split; [done|]. intros e He. simpl.
      rewrite decide_False by (eapply Hne; by right). by apply H2.
    + intros z e He. change (deps _) with (<[d := r]> (deps st)). rewrite dom_insert_L.
      apply elem_of_union_r. by apply (Hal z).
    + intros z. specialize (Ha z). rewrite (held_in_ext st); [done|]. intros e He.
      rewrite Hdep, decide_False; [done|]. eapply Hne. right. exact He.
    + done.
  - split.
    + apply NoDup_singleton.
    + intros e ->%list_elem_of_singleton. change (deps _) with (<[d := r]> (deps st)).
      rewrite dom_insert_L. set_solver.
    + intros e ->%list_elem_of_singleton. unfold info. by rewrite Hdep, decide_True.
    + intros e ->%list_elem_of_singleton. by rewrite Hdep, decide_True.
    + intros e ->%list_elem_of_singleton. by rewrite Hdep, decide_True.
    + intros e z ->%list_elem_of_singleton.
      change (svc (st <| deps := <[d := r]> (deps st) |>) z) with (svc st z).
      rewrite Hg1, Hg2. split; intros He; by eapply Hne; [|reflexivity]; eauto.
Qed.

(** A service set in which every service depends on lower ones only. *)
Definition ranked st : bool :=
  forallb (λ p, forallb (λ y, y <? p.1)%nat (dep_to ∘ dep st <$> depends_on p.2))
    (map_to_list (svcs st)).

Lemma ranked_acyclic st : ranked st = true → acyclic st.
Proof.
  intros H. assert (∀ x y, depends st x y → (y < x)%nat) as Hlt.
  { intros x y. unfold depends, targets, svc. destruct (svcs st !! x) as [r|] eqn:E; simpl;
      [|by intros ?%not_elem_of_nil].
    unfold ranked in H. rewrite forallb_forall in H. specialize (H (x, r)).
    rewrite forallb_forall in H. intros Hy. apply Nat.ltb_lt, H; [|by apply list_elem_of_In].
    apply list_elem_of_In. by apply elem_of_map_to_list. }
  assert (∀ x y, tc (depends st) x y → (y < x)%nat) as Htc.
  { intros x y. induction 1 as [x y Hxy|x y z Hxy _ IH]; [by apply Hlt|].
    apply Hlt in Hxy. lia. }
  intros x Hx%Htc. lia.
Qed.
End new_before.

(** Service 3 depends on service 2; it is reloaded with a dependency on service 1 and with
    a "before" setting that names service 4. *)
Definition loader_set : simple_sys :=
  new_service 4 "d" service_type_t.INTERNAL []
    (new_service 3 "a" service_type_t.INTERNAL [(2%nat, dependency_type.REGULAR)]
      (new_service 2 "b" service_type_t.INTERNAL []
        (new_service 1 "c" service_type_t.INTERNAL [] simple_init))).
Definition reload_set : simple_sys := (new_before_dep 4 (Some 3%nat) loader_set).1.
Definition reload_dep : did := (new_before_dep 4 (Some 3%nat) loader_set).2.

Lemma loader_set_inv : Inv loader_set.
Proof.
  assert (reachable loader_set) as H; [|by apply (reachable_inv loader_set)].
  unfold loader_set, new_service.
  repeat (eapply reachable_step; [|apply step_add_service];
          eapply reachable_step; [|apply step_construct; apply fresh_service; vm_compute; reflexivity]).
  apply reachable_init.
Qed.

Lemma update_dependencies_correct_witness :
  ∃ st', update_depenencies 3 [(1%nat, dependency_type.REGULAR)] [reload_dep] reload_set = (st', Ok tt)
    ∧ acyclic st'
    ∧ info st' <$> depends_on (svc st' 3) = [(1%nat, dependency_type.REGULAR)]
    ∧ info st' <$> depends_on (svc st' 4) = [(3%nat, dependency_type.BEFORE)].
Proof.
  destruct (new_before_ok false no_credit none_exempt 3 4 loader_set loader_set_inv) as [H Hb];
    [done|].
  destruct (update_dependencies_correct reload_set 3 [(1%nat, dependency_type.REGULAR)] [reload_dep])
    as (st' & r & E & [(-> & _)|(-> & _ & Hac & H3 & H4)]).
  - exact H.
  - exact Hb.
  - apply ranked_acyclic. vm_compute. reflexivity.
  - intros d z ->%list_elem_of_singleton Hz.
    destruct (check_cycle_cases reload_set [(1%nat, dependency_type.REGULAR)] 4 [])
      as [[_ Hc]|[Hc _]]; [|by vm_compute in Hc].
    destruct Hz as [Hz|Hz]; [by apply Hc|].
    assert ((info reload_set <$> keeps_before reload_set 3).*1 = []) as Hnil by by vm_compute.
    rewrite Hnil in Hz. by apply not_elem_of_nil in Hz.
  - exfalso. vm_compute in E. discriminate.
  - exists st'. split; [done|]. split; [done|]. split; [by rewrite H3; vm_compute|].
    rewrite H4 by done. vm_compute. reflexivity.
Defined.
