(* ===== verification/LoaderUnload.v ===== *)
(** * Unloading services: theorems

    After a service has been unloaded no dependency record leads from it or to it any
    more, so that no pointer to the freed record is left in the dependency graph. *)

From S2P Require Import Prelude Text ServiceData Service ServiceInv ServiceInvOps ServiceGraph Simple ServiceReach SimpleLaws ServiceExamples Settings Loader LoaderLaws LoaderProps.

(** A destructor changes other records only where they name the service as the consumer
    of their output. *)
Class RecordMemoryLaws (X : Type) `{!RecordMemory X} : Prop := {
  destroy_svc x (st : sys X) y : ∃ lc, svc (destroy x st) y = (svc st y) <| log_consumer := lc |>;
  destroy_deps x (st : sys X) : deps (destroy x st) = deps st;
  destroy_queue x (st : sys X) : prop_queue (destroy x st) = prop_queue st;
  destroy_records x (st : sys X) : records (destroy x st) = records st
}.

(** Both directions of the links: a record in a list of dependents is in the list of its
    source too. *)
Definition links_back (G : graph) : Prop :=
  ∀ y d, d ∈ g_dpts G y → d ∈ g_deps G (g_from G d).

Section unload.
Context {X : Type} `{!ServiceVirtual X} `{!ServiceVirtualLaws X}.
Context `{!RecordMemory X} `{!RecordMemoryLaws X}.
Context (ex : sid → prop_flag → bool).
Implicit Types (st : sys X) (x y p : sid) (d : did) (G : graph).

Abbreviation I G st := (InvG false G no_credit ex st).

Lemma erase_first_sub d e l : e ∈ erase_first d l → e ∈ l.
Proof.
  induction l as [|a l IH]; simpl; [done|]. case_decide; [by right|].
  rewrite !elem_of_cons. tauto.
Qed.

(** *** Freeing records *)

Lemma svc_delete y st z :
  svc (st <| svcs ::= delete y |>) z
  = if decide (z = y) then service_record_new "" service_type_t.PLACEHOLDER else svc st z.
Proof.
  unfold svc; rsimpl. case_decide as Hz; subst; [by rewrite lookup_delete_eq|].
  by rewrite lookup_delete_ne.
Qed.

(** A change of the records that leaves the lists and the counts alone. *)
Lemma inv_records G st st' :
  deps st' = deps st → prop_queue st' = prop_queue st →
  (∀ y, depends_on (svc st' y) = depends_on (svc st y)
     ∧ dependents (svc st' y) = dependents (svc st y)
     ∧ (b2z (start_explicit (svc st y)) + held_in st (g_dpts G y) ≤ required_by (svc st y) →
        b2z (start_explicit (svc st' y)) + held_in st (g_dpts G y) ≤ required_by (svc st' y))
     ∧ ∀ f, flag f (svc st' y) = true → flag f (svc st y) = true) →
  I G st → I G st'.
Proof.
  intros Hd Hq Hs [(Hg1 & Hg2 & Hg3 & Hg4 & Hg5) Hdp Hal Ha Hp].
  assert (∀ d, dep st' d = dep st d) as Hdep by (intros; unfold dep; by rewrite Hd).
  split.
  - split_and!; intros y; rewrite ?Hdep; [by destruct (Hs y) as (-> & _)| |done..].
    by destruct (Hs y) as (_ & -> & _).
  - done.
  - unfold alloc_ok. by rewrite Hd.
  - intros y. destruct (Hs y) as (_ & _ & H & _). specialize (Ha y). unfold acq_rel in *.
    rewrite (held_in_ext st) by (intros; by rewrite Hdep). unfold no_credit in *. lia.
  - intros y f He Hf. rewrite Hq. apply (Hp y f He). by apply (Hs y).
Qed.

Lemma inv_delete G y st :
  g_deps G y = [] → g_dpts G y = [] → I G st → I G (delete_record y st).
Proof.
  intros H1 H2 H. destruct (inv_graph _ _ _ _ _ H) as (Hg1 & Hg2 & _).
  pose proof (inv_acq _ _ _ _ _ H) as Ha. unfold delete_record, seq.
  apply (inv_records G st); [rsimpl; apply destroy_deps|rsimpl; apply destroy_queue| |done].
  intros z. rewrite svc_delete. case_decide as Hz.
  - subst z. rewrite Hg1, Hg2, H1, H2. split_and!; try done.
    by intros [].
  - destruct (destroy_svc y st z) as [lc ->]. rsimpl. split_and!; try done.
Qed.

Lemma inv_drop_placeholder G y st : I G st → I G (drop_placeholder y st).
Proof.
  intros H. unfold drop_placeholder. destruct (is_placeholder st y && is_unrefd (svc st y)) eqn:E;
    cbn [when]; [|done].
  apply andb_true_iff in E as [_ E]. unfold is_unrefd in E.
  rewrite !andb_true_iff, !bool_decide_eq_true in E. destruct E as [[E1 E2] _].
  destruct (inv_graph _ _ _ _ _ H) as (Hg1 & Hg2 & _).
  apply inv_delete; [by rewrite <- Hg1|by rewrite <- Hg2|]. by eapply inv_same.
Qed.

Lemma delete_record_gone y st : svcs (delete_record y st) !! y = None.
Proof. unfold delete_record, seq. rsimpl. apply lookup_delete_eq. Qed.

(** *** Moving records to the placeholder *)

(** Other services keep their dependencies; only "after" dependencies on [x] may now
    lead elsewhere. *)
Definition kept x G G' : Prop := ∀ y d, y ≠ x → d ∈ g_deps G y →
  d ∈ g_deps G' y ∧ g_type G' d = g_type G d
  ∧ (g_to G' d = g_to G d
     ∨ g_to G d = x ∧ g_type G d = dependency_type.AFTER ∧ g_to G' d ≠ x).

Lemma kept_refl x G : kept x G G.
Proof. intros y d _ Hd. split_and!; auto. Qed.
Lemma kept_trans x G1 G2 G3 : kept x G1 G2 → kept x G2 G3 → kept x G1 G3.
Proof.
  intros H1 H2 y d Hy Hd. destruct (H1 y d Hy Hd) as (Hd2 & Ht2 & Hto2).
  destruct (H2 y d Hy Hd2) as (Hd3 & Ht3 & Hto3). split; [done|]. split; [congruence|].
  destruct Hto2 as [E2|(E2 & E2' & E2'')], Hto3 as [E3|(E3 & E3' & E3'')].
  - left. congruence.
  - right. split_and!; congruence.
  - right. split_and!; congruence.
  - done.
Qed.

(** What holds while [x] is unloaded: [ph] is the placeholder. *)
Record unloading x G st (ph : option sid) : Prop := {
  ul_inv : I G st;
  ul_links : links_ok G;
  ul_back : links_back G;
  ul_idle : required_by (svc st x) = 0;
  ul_alloc : x ∈ dom (svcs st);
  ul_ph p : ph = Some p → p ≠ x
}.

Lemma unloading_not_held x G st ph d :
  unloading x G st ph → d ∈ g_dpts G x → holding_acq (dep st d) = false.
Proof.
  intros H Hd. pose proof (inv_acq _ _ _ _ _ (ul_inv _ _ _ _ H) x) as Ha.
  unfold acq_rel, no_credit in Ha. rewrite (ul_idle _ _ _ _ H) in Ha.
  pose proof (held_in_nonneg st (erase_first d (g_dpts G x))).
  rewrite (held_in_erase st d) in * by
    (done || apply (proj1 (inv_dpts _ _ _ _ _ (ul_inv _ _ _ _ H) x))).
  pose proof (b2z_bounds (start_explicit (svc st x))).
  destruct (holding_acq (dep st d)); [simpl in *; lia|done].
Qed.

Lemma svc_new_placeholder name st y :
  svc (new_placeholder name st).1 y
  = if decide (y = (new_placeholder name st).2)
    then service_record_new name service_type_t.PLACEHOLDER else svc st y.
Proof.
  unfold new_placeholder. cbn [fst snd]. set (p := fresh (dom (svcs st))).
  change (svc (add_service p ?s) y) with (svc s y). unfold construct, seq. cbn.
  apply svc_upd.
Qed.

Lemma svc_outside x st : x ∉ dom (svcs st) →
  svc st x = service_record_new "" service_type_t.PLACEHOLDER.
Proof. intros Hx. unfold svc. by rewrite (not_elem_of_dom_1 _ _ Hx). Qed.

Lemma unloading_placeholder x G st ph name : unloading x G st ph →
  unloading x G (new_placeholder name st).1 (Some (new_placeholder name st).2)
  ∧ (new_placeholder name st).2 ≠ x.
Proof.
  intros [H1 H2 H3 H4 H5 H6].
  assert (∀ s : sys X, (new_placeholder name s).2 ∉ dom (svcs s)) as Hf
    by (intros s; apply is_fresh).
  assert ((new_placeholder name st).2 ≠ x) as Hne by (intros E; by apply (Hf st); rewrite E).
  split; [|done]. split; try done.
  - apply (inv_records G st); [done|done| |done]. intros y. rewrite svc_new_placeholder.
    case_decide as Hy; [|by split_and!]. subst y. rewrite svc_outside by apply Hf.
    split_and!; try done.
  - rewrite svc_new_placeholder. by rewrite decide_False by congruence.
  - unfold new_placeholder, add_service, construct, seq. cbn. unfold upd. rsimpl.
    rewrite dom_insert_L. set_solver.
  - congruence.
Qed.

Definition graph_to G x p d : graph := {|
  g_deps := g_deps G;
  g_dpts := λ y, if decide (y = p) then g_dpts G p ++ [d]
                 else if decide (y = x) then erase_first d (g_dpts G x) else g_dpts G y;
  g_from := g_from G; g_to := λ e, if decide (e = d) then p else g_to G e; g_type := g_type G |}.
Definition graph_from G x p d : graph := {|
  g_deps := λ y, if decide (y = p) then g_deps G p ++ [d]
                 else if decide (y = x) then erase_first d (g_deps G x) else g_deps G y;
  g_dpts := g_dpts G;
  g_from := λ e, if decide (e = d) then p else g_from G e; g_to := g_to G; g_type := g_type G |}.

Lemma svc_move_dependent x p d st y : svc (move_dependent x p d st) y
  = let r := svc st y in
    let r := if decide (y = x) then r <| dependents ::= erase_first d |> else r in
    if decide (y = p) then r <| dependents ::= (λ l, l ++ [d]) |> else r.
Proof. unfold move_dependent, seq. by rewrite !svc_upd. Qed.
Lemma svc_move_dependency x p d st y : svc (move_dependency x p d st) y
  = let r := svc st y in
    let r := if decide (y = x) then r <| depends_on ::= erase_first d |> else r in
    if decide (y = p) then r <| depends_on ::= (λ l, l ++ [d]) |> else r.
Proof. unfold move_dependency, seq. by rewrite !svc_upd. Qed.
Lemma dep_move_dependent x p d st e : dep (move_dependent x p d st) e
  = if decide (e = d) then (dep st e) <| dep_to := p |> else dep st e.
Proof. unfold move_dependent, seq. apply dep_upd_dep. Qed.
Lemma dep_move_dependency x p d st e : dep (move_dependency x p d st) e
  = if decide (e = d) then (dep st e) <| dep_from := p |> else dep st e.
Proof. unfold move_dependency, seq. apply dep_upd_dep. Qed.

Lemma dom_upd_dep d f st e : e ∈ dom (deps st) → e ∈ dom (deps (upd_dep d f st)).
Proof. unfold upd_dep; rsimpl. rewrite dom_insert_L. set_solver. Qed.

Lemma inv_move_dependent G x p d st :
  p ≠ x → d ∈ g_dpts G x → holding_acq (dep st d) = false →
  I G st → I (graph_to G x p d) (move_dependent x p d st).
Proof.
  intros Hp Hd Hh [(Hg1 & Hg2 & Hg3 & Hg4 & Hg5) Hdp Hal Ha Hpe]. split.
  - split_and!; intros y; rewrite ?svc_move_dependent, ?dep_move_dependent; cbv zeta; simpl.
    + rewrite <- Hg1. by repeat case_decide; rsimpl.
    + rewrite <- !Hg2. by repeat case_decide; subst; rsimpl.
    + rewrite <- Hg3. by case_decide; rsimpl.
    + rewrite <- Hg4. by case_decide; rsimpl.
    + rewrite <- Hg5. by case_decide; rsimpl.
  - intros y. simpl. destruct (Hdp y) as [H1 H2]. destruct (Hdp x) as [Hx1 Hx2].
    repeat case_decide; subst.
    + split.
      * apply list.NoDup_app. split; [done|]. split; [|apply NoDup_singleton].
        intros e He ->%list_elem_of_singleton. by apply Hp; rewrite <- (H2 d He), (Hx2 d Hd).
      * intros e [He| ->%list_elem_of_singleton]%elem_of_app; [|by rewrite decide_True].
        case_decide; [done|auto].
    + split; [by apply NoDup_erase_first|]. intros e. rewrite elem_of_erase_first by done.
      intros [He Hne]. rewrite decide_False by done. auto.
    + split; [done|]. intros e He. rewrite decide_False; [auto|]. intros ->.
      by rewrite <- (H2 d He), (Hx2 d Hd) in *.
  - intros y e He. apply dom_upd_dep. change (deps (upd_dep d ?f st)) with (deps (upd_dep d f st)).
    revert He. simpl. intros He. destruct (decide (e = d)) as [->|Hne].
    { apply (Hal x). by right. }
    apply (Hal y). destruct He as [He|He]; [by left|right]. revert He.
    repeat case_decide; subst; [|rewrite elem_of_erase_first by apply Hdp; tauto|done].
    rewrite elem_of_app, list_elem_of_singleton. tauto.
  - intros y. specialize (Ha y). unfold acq_rel, no_credit in *.
    assert (∀ l, held_in (move_dependent x p d st) l = held_in st l) as Hheld.
    { intros l. apply held_in_ext. intros e _. rewrite dep_move_dependent. by case_decide; rsimpl. }
    rewrite Hheld, svc_move_dependent. cbv zeta. simpl.
    repeat case_decide; subst; rsimpl; rsimpl_in Ha; [done| | |done].
    + rewrite held_in_app. simpl. rewrite Hh. simpl. lia.
    + rewrite (held_in_erase st d) by (done || apply (Hdp x)). rewrite Hh. simpl. lia.
  - intros y f He Hf. apply (Hpe y f He). revert Hf. rewrite svc_move_dependent. cbv zeta.
    repeat case_decide; destruct f; unfold flag; by rsimpl.
Qed.

Lemma links_graph_to G x p d :
  p ≠ x → d ∈ g_dpts G x → g_to G d = x → dpts_ok G → links_ok G → links_back G →
  links_ok (graph_to G x p d) ∧ links_back (graph_to G x p d).
Proof.
  intros Hp Hd Hto Hdp Hl Hb. split.
  - intros y. destruct (Hl y) as [H1 H2]. split; [done|]. intros e He. simpl.
    destruct (H2 e He) as [Hf Hin]. split; [done|].
    destruct (decide (e = d)) as [->|Hne].
    + rewrite decide_True by done. apply elem_of_app. right. by apply list_elem_of_singleton.
    + case_decide as E; [rewrite E in Hin; by apply elem_of_app; left|].
      case_decide as E'; [|done]. rewrite E' in Hin.
      by apply elem_of_erase_first; [apply (proj1 (Hdp _))|].
  - intros y e He. simpl in *. revert He. repeat case_decide; subst.
    + intros [He| ->%list_elem_of_singleton]%elem_of_app; by eapply Hb.
    + rewrite elem_of_erase_first by apply (proj1 (Hdp _)). intros [He _]. by eapply Hb.
    + intros He. by eapply Hb.
Qed.

Lemma kept_graph_to G x p d :
  p ≠ x → g_to G d = x → g_type G d = dependency_type.AFTER → kept x G (graph_to G x p d).
Proof.
  intros Hp Hto Hty y e Hy He. simpl. split; [done|]. split; [done|].
  case_decide as E; [right; subst e|left]; done.
Qed.

Lemma inv_move_dependency G x p d st :
  p ≠ x → d ∈ g_deps G x → I G st → I (graph_from G x p d) (move_dependency x p d st).
Proof.
  intros Hp Hd [(Hg1 & Hg2 & Hg3 & Hg4 & Hg5) Hdp Hal Ha Hpe]. split.
  - split_and!; intros y; rewrite ?svc_move_dependency, ?dep_move_dependency; cbv zeta; simpl.
    + rewrite <- !Hg1. by repeat case_decide; subst; rsimpl.
    + rewrite <- Hg2. by repeat case_decide; rsimpl.
    + rewrite <- Hg3. by case_decide; rsimpl.
    + rewrite <- Hg4. by case_decide; rsimpl.
    + rewrite <- Hg5. by case_decide; rsimpl.
  - done.
  - intros y e He. apply dom_upd_dep. change (deps (upd_dep d ?f st)) with (deps (upd_dep d f st)).
    destruct (decide (e = d)) as [->|Hne]; [apply (Hal x); by left|].
    apply (Hal y). destruct He as [He|He]; [left|by right]. revert He. simpl.
    repeat case_decide; subst; [|by intros ?%erase_first_sub|done].
    rewrite elem_of_app, list_elem_of_singleton. tauto.
  - intros y. specialize (Ha y). unfold acq_rel, no_credit in *.
    rewrite (held_in_ext st), svc_move_dependency; cbv zeta; simpl.
    + by repeat case_decide; rsimpl.
    + intros e _. rewrite dep_move_dependency. by case_decide; rsimpl.
  - intros y f He Hf. apply (Hpe y f He). revert Hf. rewrite svc_move_dependency. cbv zeta.
    repeat case_decide; destruct f; unfold flag; by rsimpl.
Qed.

Lemma links_graph_from G x p d :
  p ≠ x → d ∈ g_deps G x → links_ok G → links_back G →
  links_ok (graph_from G x p d) ∧ links_back (graph_from G x p d).
Proof.
  intros Hp Hd Hl Hb. pose proof (proj1 (Hl x)) as Hnd.
  assert (∀ y e, e ∈ g_deps G y → e = d → y = x) as Hx.
  { intros y e He ->. destruct (proj2 (Hl y) d He) as [<- _]. by apply (proj2 (Hl x)). }
  split.
  - intros y. destruct (Hl y) as [H1 H2]. simpl. repeat case_decide; subst.
    + split.
      * apply list.NoDup_app. split; [done|]. split; [|apply NoDup_singleton].
        intros e He ->%list_elem_of_singleton. by apply Hp, (Hx p d).
      * intros e [He| ->%list_elem_of_singleton]%elem_of_app.
        -- rewrite decide_False by (intros ->; by apply Hp, (Hx p d)). auto.
        -- rewrite decide_True by done. split; [done|]. by apply (proj2 (Hl x)).
    + split; [by apply NoDup_erase_first|]. intros e. rewrite elem_of_erase_first by done.
      intros [He Hne]. rewrite decide_False by done. auto.
    + split; [done|]. intros e He. rewrite decide_False; [auto|]. intros ->. by apply (Hx y) in He.
  - intros y e He. simpl in *. apply Hb in He. destruct (decide (e = d)) as [->|Hne].
    + rewrite decide_True by done. apply elem_of_app. right. by apply list_elem_of_singleton.
    + destruct (decide (g_from G e = p)) as [E|E]; [rewrite E in He; by apply elem_of_app; left|].
      destruct (decide (g_from G e = x)) as [E'|]; [|done]. rewrite E' in He.
      by rewrite elem_of_erase_first.
Qed.

Lemma kept_graph_from G x p d : links_ok G → d ∈ g_deps G x → kept x G (graph_from G x p d).
Proof.
  intros Hl Hd y e Hy He. simpl. split_and!; [|done|by left].
  rewrite (decide_False (P:=y = x)) by done. case_decide; [subst; by apply elem_of_app; left|done].
Qed.

Lemma unloading_make_placeholder x G st ph name : unloading x G st ph →
  unloading x G (make_placeholder name ph st).1 (Some (make_placeholder name ph st).2)
  ∧ (make_placeholder name ph st).2 ≠ x.
Proof.
  intros H. destruct ph as [p|]; cbn [make_placeholder]; [|by eapply unloading_placeholder].
  split; [done|]. by apply (ul_ph _ _ _ _ H).
Qed.

Lemma unloading_move_dependent x G st p d : unloading x G st (Some p) →
  d ∈ g_dpts G x → unloading x (graph_to G x p d) (move_dependent x p d st) (Some p).
Proof.
  intros H Hd. pose proof (ul_ph _ _ _ _ H p eq_refl) as Hp.
  pose proof (inv_dpts _ _ _ _ _ (ul_inv _ _ _ _ H)) as Hdp.
  destruct (links_graph_to G x p d) as [Hl Hb]; try done.
  { by apply (proj2 (Hdp x)). }
  { apply (ul_links _ _ _ _ H). }
  { apply (ul_back _ _ _ _ H). }
  split; try done.
  - apply inv_move_dependent; [done|done|by eapply unloading_not_held|apply (ul_inv _ _ _ _ H)].
  - rewrite svc_move_dependent. cbv zeta. rewrite (decide_True (P:=x = x)), (decide_False (P:=x = p)) by done.
    apply (ul_idle _ _ _ _ H).
  - unfold move_dependent, seq, upd, upd_dep. rsimpl. rewrite !dom_insert_L.
    pose proof (ul_alloc _ _ _ _ H). set_solver.
  - by intros q [= <-].
Qed.

Lemma unloading_move_dependency x G st p d : unloading x G st (Some p) →
  d ∈ g_deps G x → unloading x (graph_from G x p d) (move_dependency x p d st) (Some p).
Proof.
  intros H Hd. pose proof (ul_ph _ _ _ _ H p eq_refl) as Hp.
  destruct (links_graph_from G x p d) as [Hl Hb]; try done.
  { apply (ul_links _ _ _ _ H). }
  { apply (ul_back _ _ _ _ H). }
  split; try done.
  - apply inv_move_dependency; [done|done|apply (ul_inv _ _ _ _ H)].
  - rewrite svc_move_dependency. cbv zeta. rewrite (decide_True (P:=x = x)), (decide_False (P:=x = p)) by done.
    apply (ul_idle _ _ _ _ H).
  - unfold move_dependency, seq, upd, upd_dep. rsimpl. rewrite !dom_insert_L.
    pose proof (ul_alloc _ _ _ _ H). set_solver.
  - by intros q [= <-].
Qed.

(** The loops over the dependents and over the dependencies. *)
Lemma move_dependents_loop x name l : ∀ G st ph,
  unloading x G st ph → NoDup l → (∀ d, d ∈ l → d ∈ g_dpts G x) →
  ∃ G', let s := for_each l (to_placeholder name is_after (move_dependent x)) (st, ph) in
    unloading x G' s.1 s.2 ∧ kept x G G'
    ∧ ∀ d, d ∈ g_dpts G' x → d ∈ g_dpts G x ∧ g_type G' d = g_type G d
        ∧ (d ∈ l → g_type G d ≠ dependency_type.AFTER).
Proof.
  induction l as [|d l IH]; intros G st ph H Hnd Hin.
  { exists G. split; [done|]. split; [apply kept_refl|]. intros d Hd. split_and!; [done|done|].
    by intros ?%not_elem_of_nil. }
  apply list.NoDup_cons in Hnd as [Hdl Hnd]. unfold for_each. cbn [foldl].
  assert (to_placeholder name is_after (move_dependent x) d (st, ph)
    = if is_after (g_type G d) then
        (move_dependent x (make_placeholder name ph st).2 d (make_placeholder name ph st).1,
         Some (make_placeholder name ph st).2)
      else (st, ph)) as ->.
  { unfold to_placeholder. destruct (inv_graph _ _ _ _ _ (ul_inv _ _ _ _ H)) as (_ & _ & _ & _ & ->).
    destruct (is_after _); [|done]. by destruct (make_placeholder name ph st). }
  destruct (is_after (g_type G d)) eqn:Ea.
  - apply bool_decide_eq_true in Ea. destruct (unloading_make_placeholder x G st ph name H) as [H1 Hp].
    set (p := (make_placeholder name ph st).2) in *.
    pose proof (inv_dpts _ _ _ _ _ (ul_inv _ _ _ _ H)) as Hdp.
    assert (d ∈ g_dpts G x) as Hd by (apply Hin; by left).
    destruct (IH (graph_to G x p d) (move_dependent x p d (make_placeholder name ph st).1) (Some p))
      as (G' & H' & Hk & Hrest); [by apply unloading_move_dependent|done| |].
    { intros e He. simpl. rewrite (decide_False (P:=x = p)), decide_True by done.
      apply elem_of_erase_first; [apply Hdp|]. split; [apply Hin; by right|by intros ->]. }
    exists G'. split; [done|]. split.
    { eapply kept_trans; [|done]. apply kept_graph_to; [done|by apply (proj2 (Hdp x))|done]. }
    intros e He. destruct (Hrest e He) as (He1 & Ht & Hl). revert He1. simpl.
    rewrite (decide_False (P:=x = p)), decide_True by done.
    rewrite elem_of_erase_first by apply (proj1 (Hdp x)).
    intros [He1 Hne]. split_and!; [done|done|]. intros [->|Hel]%elem_of_cons; [done|by apply Hl].
  - apply bool_decide_eq_false in Ea. destruct (IH G st ph) as (G' & H' & Hk & Hrest);
      [done|done|intros e He; apply Hin; by right|].
    exists G'. split; [done|]. split; [done|]. intros e He. destruct (Hrest e He) as (H1 & H2 & H3).
    split_and!; [done|done|]. intros [->|Hel]%elem_of_cons; [done|by apply H3].
Qed.

Lemma move_dependencies_loop x name l : ∀ G st ph,
  unloading x G st ph → NoDup l → (∀ d, d ∈ l → d ∈ g_deps G x) →
  ∃ G', let s := for_each l (to_placeholder name is_before (move_dependency x)) (st, ph) in
    unloading x G' s.1 s.2 ∧ kept x G G' ∧ g_dpts G' = g_dpts G ∧ g_type G' = g_type G.
Proof.
  induction l as [|d l IH]; intros G st ph H Hnd Hin.
  { exists G. split; [done|]. split; [apply kept_refl|done]. }
  apply list.NoDup_cons in Hnd as [Hdl Hnd]. unfold for_each. cbn [foldl].
  assert (to_placeholder name is_before (move_dependency x) d (st, ph)
    = if is_before (g_type G d) then
        (move_dependency x (make_placeholder name ph st).2 d (make_placeholder name ph st).1,
         Some (make_placeholder name ph st).2)
      else (st, ph)) as ->.
  { unfold to_placeholder. destruct (inv_graph _ _ _ _ _ (ul_inv _ _ _ _ H)) as (_ & _ & _ & _ & ->).
    destruct (is_before _); [|done]. by destruct (make_placeholder name ph st). }
  destruct (is_before (g_type G d)) eqn:Eb; [|apply IH; set_solver].
  destruct (unloading_make_placeholder x G st ph name H) as [H1 Hp].
  set (p := (make_placeholder name ph st).2) in *.
  assert (d ∈ g_deps G x) as Hd by (apply Hin; by left).
  destruct (IH (graph_from G x p d) (move_dependency x p d (make_placeholder name ph st).1) (Some p))
    as (G' & H' & Hk & Hdp' & Hty'); [by apply unloading_move_dependency|done| |].
  { intros e He. simpl. rewrite (decide_False (P:=x = p)), decide_True by done.
    apply elem_of_erase_first; [apply (proj1 (ul_links _ _ _ _ H x))|].
    split; [apply Hin; by right|by intros ->]. }
  exists G'. split; [done|]. split; [|by rewrite Hdp', Hty'].
  eapply kept_trans; [|done]. apply kept_graph_from; [apply (ul_links _ _ _ _ H)|done].
Qed.

(** *** Unlinking *)

Lemma inv_drop_credit G z b st :
  InvG false G (if b : bool then credit z no_credit else no_credit) ex st → I G st.
Proof.
  intros [H1 H2 H3 Ha H5]. split; try done. intros y. specialize (Ha y).
  unfold acq_rel in *. destruct b; [|done]. unfold credit, no_credit in *. case_decide; lia.
Qed.

(** Of the dependencies of [x], those of [l] are still in the list of their target. *)
Record unlinking x G (l : list did) G' st : Prop := {
  un_inv : I G' st;
  un_same : g_deps G' = g_deps G ∧ g_from G' = g_from G ∧ g_to G' = g_to G ∧ g_type G' = g_type G;
  un_dpts y d : d ∈ g_dpts G' y ↔ d ∈ g_dpts G y ∧ (d ∈ g_deps G x → d ∈ l)
}.

Lemma unlink_dependencies_loop x G l : ∀ G' st,
  links_ok G → NoDup l → (∀ d, d ∈ l → d ∈ g_deps G x) → unlinking x G l G' st →
  ∃ G'', unlinking x G [] G'' (for_each l unlink_dependency st).
Proof.
  induction l as [|d l IH]; intros G' st Hl Hnd Hin H; [by exists G'|].
  apply list.NoDup_cons in Hnd as [Hdl Hnd]. destruct (un_same _ _ _ _ _ H) as (E1 & E2 & E3 & E4).
  apply (IH (graph_cut G' d (g_to G' d)) (unlink_dependency d st)); [done|done|set_solver|].
  assert (d ∈ g_deps G x) as Hd by (apply Hin; by left).
  split; [|done|].
  - unfold unlink_dependency. cbv zeta. rewrite (inv_dep_to _ _ _ _ _ _ (un_inv _ _ _ _ _ H)).
    apply (seq_inv (InvG false (graph_cut G' d (g_to G' d)) no_credit ex)).
    + eapply inv_drop_credit, inv_cut; [|apply (un_inv _ _ _ _ _ H)].
      apply (un_dpts _ _ _ _ _ H). rewrite E3. split; [by apply (proj2 (Hl x))|by left].
    + intros s Hs. unfold when. destruct (is_after _); [by apply inv_drop_placeholder|done].
  - intros y e. simpl.
    pose proof (inv_dpts _ _ _ _ _ (un_inv _ _ _ _ _ H)) as Hdp.
    assert (e ∈ (if decide (y = g_to G' d) then erase_first d (g_dpts G' y) else g_dpts G' y)
      ↔ e ∈ g_dpts G' y ∧ e ≠ d) as ->.
    { case_decide as Hy; [by apply elem_of_erase_first, (proj1 (Hdp y))|].
      split; [|tauto]. intros He. split; [done|]. intros ->. by apply Hy, eq_sym, (proj2 (Hdp y)). }
    rewrite (un_dpts _ _ _ _ _ H), elem_of_cons. split.
    + intros [[He1 He2] Hne]. split; [done|]. intros Hx. by destruct (He2 Hx).
    + intros [He1 He2]. split; [split; [done|by right; auto]|]. intros ->. by apply Hdl, He2.
Qed.

Lemma dep_foldr_delete ds st e :
  dep (st <| deps ::= (λ m, foldr delete m ds) |>) e
  = if decide (e ∈ ds) then service_dep_new 0 0 dependency_type.REGULAR else dep st e.
Proof.
  unfold dep; rsimpl. induction ds as [|d ds IH]; cbn [foldr].
  - by rewrite decide_False by apply not_elem_of_nil.
  - destruct (decide (e = d)) as [->|Hne].
    + by rewrite lookup_delete_eq, decide_True by by left.
    + rewrite lookup_delete_ne, IH by done.
      destruct (decide (e ∈ ds)); [rewrite decide_True by by right|rewrite decide_False by set_solver]; done.
Qed.

Lemma dom_foldr_delete ds (m : gmap did service_dep) e :
  e ∈ dom (foldr delete m ds) ↔ e ∈ dom m ∧ e ∉ ds.
Proof.
  induction ds as [|d ds IH]; simpl.
  - split; [|tauto]. intros He. split; [done|apply not_elem_of_nil].
  - rewrite dom_delete_L, elem_of_difference, IH, elem_of_singleton, not_elem_of_cons. tauto.
Qed.

(** The records of [x] are freed and its list is empty. *)
Definition graph_clear G x : graph := {|
  g_deps := λ y, if decide (y = x) then [] else g_deps G y;
  g_dpts := g_dpts G;
  g_from := λ e, if decide (e ∈ g_deps G x) then 0%nat else g_from G e;
  g_to := λ e, if decide (e ∈ g_deps G x) then 0%nat else g_to G e;
  g_type := λ e, if decide (e ∈ g_deps G x) then dependency_type.REGULAR else g_type G e |}.

Lemma inv_clear x G st :
  (∀ y d, d ∈ g_deps G x → d ∉ g_dpts G y) → (∀ y d, y ≠ x → d ∈ g_deps G y → d ∉ g_deps G x) →
  I G st →
  I (graph_clear G x) (upd x (λ r, r <| depends_on := [] |>)
    (st <| deps ::= (λ m, foldr delete m (g_deps G x)) |>)).
Proof.
  intros Hno Hsep [(Hg1 & Hg2 & Hg3 & Hg4 & Hg5) Hdp Hal Ha Hp].
  set (s := st <| deps ::= _ |>).
  assert (∀ y, svc (upd x (λ r, r <| depends_on := [] |>) s) y
    = if decide (y = x) then (svc st y) <| depends_on := [] |> else svc st y) as Hsvc
    by (intros y; change (svc st y) with (svc s y); apply svc_upd).
  assert (∀ e, dep (upd x (λ r, r <| depends_on := [] |>) s) e
    = if decide (e ∈ g_deps G x) then service_dep_new 0 0 dependency_type.REGULAR else dep st e)
    as Hdep by (intros e; apply dep_foldr_delete).
  split.
  - split_and!; intros y; rewrite ?Hsvc, ?Hdep; simpl.
    + rewrite <- Hg1. by case_decide; rsimpl.
    + rewrite <- Hg2. by case_decide; rsimpl.
    + rewrite <- Hg3. by case_decide.
    + rewrite <- Hg4. by case_decide.
    + rewrite <- Hg5. by case_decide.
  - intros y. destruct (Hdp y) as [H1 H2]. split; [done|]. intros e He. simpl.
    rewrite decide_False; [auto|]. intros Hx. by apply (Hno y e).
  - intros y e He. apply dom_foldr_delete. destruct He as [He|He]; simpl in He.
    + case_decide as Hy; [by apply not_elem_of_nil in He|]. split; [apply (Hal y); by left|].
      by eapply Hsep.
    + split; [apply (Hal y); by right|]. intros Hx. by apply (Hno y e).
  - intros y. specialize (Ha y). unfold acq_rel, no_credit in *. simpl.
    rewrite (held_in_ext st), Hsvc; [by case_decide; rsimpl|].
    intros e He. rewrite Hdep, decide_False; [done|]. intros Hx. by apply (Hno y e).
  - intros y f He Hf. apply (Hp y f He). revert Hf. rewrite Hsvc.
    case_decide; [|done]. destruct f; unfold flag; by rsimpl.
Qed.

(** The dependents that are left. *)
Record detaching x G (l : list did) st : Prop := {
  de_inv : I G st;
  de_links : links_ok G;
  de_back : links_back G;
  de_deps : g_deps G x = [];
  de_dpts d : d ∈ g_dpts G x ↔ d ∈ l
}.

Lemma unlink_dependents_loop x l : ∀ G st, NoDup l → detaching x G l st →
  ∃ G', detaching x G' [] (for_each l unlink_dependent st)
    ∧ (∀ y d, d ∈ g_deps G' y → d ∈ g_deps G y ∧ g_to G' d = g_to G d)
    ∧ (∀ y d, d ∈ g_deps G y → g_to G d ≠ x → d ∈ g_deps G' y).
Proof.
  induction l as [|d l IH]; intros G st Hnd H; [by exists G|].
  apply list.NoDup_cons in Hnd as [Hdl Hnd].
  pose proof (inv_dpts _ _ _ _ _ (de_inv _ _ _ _ H)) as Hdp.
  assert (d ∈ g_dpts G x) as Hd by (apply (de_dpts _ _ _ _ H); by left).
  assert (g_to G d = x) as Hto by by apply (proj2 (Hdp x)).
  assert (d ∈ g_deps G (g_from G d)) as Hfrom by by eapply (de_back _ _ _ _ H).
  assert (g_from G d ≠ x) as Hne.
  { intros E. rewrite E, (de_deps _ _ _ _ H) in Hfrom. by apply not_elem_of_nil in Hfrom. }
  set (G1 := graph_remove G d (g_from G d)).
  assert (∀ y e, e ∈ g_deps G1 y ↔ e ∈ g_deps G y ∧ e ≠ d) as Hdeps.
  { intros y e. unfold G1. rewrite graph_remove_deps by (apply (de_links _ _ _ _ H)).
    rewrite list_elem_of_filter. tauto. }
  assert (∀ e, e ≠ d → g_from G1 e = g_from G e ∧ g_to G1 e = g_to G e) as Hsame
    by (intros e He; simpl; by rewrite !decide_False).
  assert (∀ y e, e ∈ g_dpts G1 y ↔ e ∈ g_dpts G y ∧ e ≠ d) as Hdpts.
  { intros y e. simpl. case_decide as Hy; [by apply elem_of_erase_first, (proj1 (Hdp y))|].
    split; [|tauto]. intros He. split; [done|]. intros ->. by apply Hy, eq_sym, (proj2 (Hdp y)). }
  destruct (IH G1 (unlink_dependent d st)) as (G' & H' & Hold & Hkeep); [done| |].
  - split.
    + unfold unlink_dependent. cbv zeta.
      destruct (inv_graph _ _ _ _ _ (de_inv _ _ _ _ H)) as (Hg1 & _ & -> & _).
      apply (seq_inv (InvG false G1 no_credit ex)); [|by intros s Hs; apply inv_drop_placeholder].
      unfold rm_dep_ref. rewrite Hg1, bool_decide_true by done. cbn [when].
      apply inv_rm_dep_it; [done|apply (de_links _ _ _ _ H)|apply (de_inv _ _ _ _ H)].
    + by apply links_ok_remove; [|apply (de_links _ _ _ _ H)|].
    + intros y e [He Hed]%Hdpts. apply Hdeps. split; [|done].
      rewrite (proj1 (Hsame e Hed)). by eapply (de_back _ _ _ _ H).
    + simpl. rewrite (decide_False (P:=x = g_from G d)) by done. apply (de_deps _ _ _ _ H).
    + intros e. rewrite Hdpts, (de_dpts _ _ _ _ H), elem_of_cons. split; [tauto|].
      intros He. split; [by right|]. by intros ->.
  - exists G'. split; [done|]. split.
    + intros y e He. destruct (Hold y e He) as [[He1 Hed]%Hdeps E]. split; [done|].
      rewrite E. by apply Hsame.
    + intros y e He Hx. apply Hkeep; [apply Hdeps; split; [done|by intros ->]|].
      rewrite (proj2 (Hsame e ltac:(by intros ->))). done.
Qed.

(** [prepare_for_unload] up to its second loop. *)
Lemma unlink_all x G st ph : unloading x G st ph →
  let s := for_each (depends_on (svc st x)) unlink_dependency st in
  let s := s <| deps ::= (λ m, foldr delete m (depends_on (svc st x))) |> in
  let s := upd x (λ r, r <| depends_on := [] |>) s in
  ∃ G', detaching x G' (dependents (svc s x)) s
    ∧ (∀ y d, y ≠ x → d ∈ g_deps G y → d ∈ g_deps G' y ∧ g_to G' d = g_to G d)
    ∧ (∀ y d, d ∈ g_deps G' y → y ≠ x ∧ d ∈ g_deps G y).
Proof.
  intros H. destruct (inv_graph _ _ _ _ _ (ul_inv _ _ _ _ H)) as (Hg1 & _). rewrite Hg1.
  pose proof (ul_links _ _ _ _ H) as Hl. pose proof (ul_back _ _ _ _ H) as Hb.
  destruct (unlink_dependencies_loop x G (g_deps G x) G st Hl) as [G3 H3].
  { apply (proj1 (Hl x)). }
  { done. }
  { split; [apply (ul_inv _ _ _ _ H)|done|]. tauto. }
  destruct (un_same _ _ _ _ _ H3) as (E1 & E2 & E3 & E4).
  assert (∀ y d, d ∈ g_dpts G3 y → d ∈ g_dpts G y ∧ d ∉ g_deps G x) as Hdp3.
  { intros y d Hd. apply (un_dpts _ _ _ _ _ H3) in Hd as [Hd Hx]. split; [done|].
    intros Hdx. by apply Hx, not_elem_of_nil in Hdx. }
  assert (∀ y d, y ≠ x → d ∈ g_deps G y → d ∉ g_deps G x) as Hsep.
  { intros y d Hy Hd Hdx. apply Hy. rewrite <- (proj1 (proj2 (Hl y) d Hd)). apply (Hl x), Hdx. }
  assert (I (graph_clear G3 x) (upd x (λ r, r <| depends_on := [] |>)
    ((for_each (g_deps G x) unlink_dependency st)
      <| deps ::= (λ m, foldr delete m (g_deps G x)) |>))) as Hclear.
  { rewrite <- E1. apply inv_clear; [| |by rewrite E1; apply (un_inv _ _ _ _ _ H3)].
    - intros y d Hd Hdp. rewrite E1 in Hd. by apply (Hdp3 y d Hdp).
    - rewrite E1. apply Hsep. }
  exists (graph_clear G3 x). split; [split|split].
  - done.
  - intros y. simpl. case_decide as Hy; [by split; [constructor|intros ? ?%not_elem_of_nil]|].
    rewrite !E1, E2, E3. destruct (Hl y) as [H1 H2]. split; [done|]. intros d Hd.
    assert (d ∉ g_deps G x) as Hdx by by eapply Hsep.
    rewrite !decide_False by done. split; [by apply H2|].
    apply (un_dpts _ _ _ _ _ H3). split; [by apply (H2 d)|done].
  - intros y d Hd. simpl in *. destruct (Hdp3 y d Hd) as [Hdg Hdx].
    rewrite E1, E2. rewrite (decide_False (P:=d ∈ g_deps G x)) by done. apply Hb in Hdg.
    rewrite decide_False; [done|]. intros E. by rewrite E in Hdg.
  - simpl. by rewrite decide_True.
  - intros d. destruct (inv_graph _ _ _ _ _ Hclear) as (_ & -> & _). done.
  - intros y d Hy Hd. simpl. rewrite E1, E3, decide_False by done.
    rewrite decide_False by (by eapply Hsep). done.
  - intros y d. simpl. case_decide; [by intros ?%not_elem_of_nil|]. by rewrite E1.
Qed.

(** Nothing leads to the service or from it any more. *)
Lemma detached_refs x G st : detaching x G [] st →
  ∀ y d, d ∈ g_deps G y ∨ d ∈ g_dpts G y → g_from G d ≠ x ∧ g_to G d ≠ x.
Proof.
  intros H y d Hd. pose proof (de_links _ _ _ _ H) as Hl.
  assert (d ∈ g_deps G (g_from G d)) as Hf.
  { destruct Hd as [Hd|Hd]; [by rewrite (proj1 (proj2 (Hl y) d Hd))|]. by eapply (de_back _ _ _ _ H). }
  split.
  - intros E. rewrite E, (de_deps _ _ _ _ H) in Hf. by apply not_elem_of_nil in Hf.
  - intros E. destruct (proj2 (Hl _) d Hf) as [_ Hin]. rewrite E in Hin.
    by apply (de_dpts _ _ _ _ H), not_elem_of_nil in Hin.
Qed.

Lemma unload_graph x G st :
  unloading x G st None → log_consumer (svc st x) = None →
  ∃ G', detaching x G' [] (unload_service x st)
    ∧ ∀ y d, y ≠ x → d ∈ g_deps G y →
        (d ∈ g_deps G' y ↔ g_to G d ≠ x ∨ g_type G d = dependency_type.AFTER).
Proof.
  intros H Hlog. unfold unload_service. cbv zeta. unfold move_pipe. rewrite Hlog.
  change (seq (st, None) ?f) with (f (st, @None sid)). cbn [fst].
  destruct (inv_graph _ _ _ _ _ (ul_inv _ _ _ _ H)) as (Hg1 & Hg2 & _).
  destruct (move_dependents_loop x (service_name (svc st x)) (dependents (svc st x)) G st None H)
    as (G1 & H1 & Hk1 & Hrest).
  { rewrite Hg2. apply (inv_dpts _ _ _ _ _ (ul_inv _ _ _ _ H) x). }
  { intros d. by rewrite Hg2. }
  unfold seq at 1.
  destruct (for_each (dependents (svc st x)) _ (st, None)) as [st1 ph1]. cbn [fst snd] in H1. cbn [fst].
  destruct (inv_graph _ _ _ _ _ (ul_inv _ _ _ _ H1)) as (Hg1' & _).
  destruct (move_dependencies_loop x (service_name (svc st x)) (depends_on (svc st1 x)) G1 st1 ph1 H1)
    as (G2 & H2 & Hk2 & Hdpts2 & Hty2).
  { rewrite Hg1'. apply (ul_links _ _ _ _ H1 x). }
  { intros d. by rewrite Hg1'. }
  unfold seq at 1.
  destruct (for_each (depends_on (svc st1 x)) _ (st1, ph1)) as [st2 ph2]. cbn [fst snd] in H2. cbn [fst].
  destruct (unlink_all x G2 st2 ph2 H2) as (G4 & H4 & Hfwd & Hback).
  match type of H4 with detaching _ _ ?l _ => assert (NoDup l) as Hnd end.
  { destruct (inv_graph _ _ _ _ _ (de_inv _ _ _ _ H4)) as (_ & -> & _).
    apply (inv_dpts _ _ _ _ _ (de_inv _ _ _ _ H4) x). }
  destruct (unlink_dependents_loop x _ G4 _ Hnd H4) as (G5 & H5 & Hold & Hkeep).
  exists G5. split.
  - unfold seq at 1 2. split; [|apply (de_links _ _ _ _ H5)|apply (de_back _ _ _ _ H5)
      |apply (de_deps _ _ _ _ H5)|apply (de_dpts _ _ _ _ H5)].
    apply inv_delete; [apply (de_deps _ _ _ _ H5)| |].
    + destruct (g_dpts G5 x) as [|d l] eqn:E; [done|]. exfalso.
      apply (not_elem_of_nil d), (de_dpts _ _ _ _ H5). rewrite E. by left.
    + apply (inv_same _ _ _ _ _ _ (de_inv _ _ _ _ H5)); done.
  - intros y d Hy Hd. destruct (kept_trans _ _ _ _ Hk1 Hk2 y d Hy Hd) as (Hd2 & Hty & Hto).
    destruct (Hfwd y d Hy Hd2) as [Hd4 Hto4]. split.
    + intros Hd5. destruct Hto as [E|(_ & Ha & _)]; [left|by right].
      destruct (Hold y d Hd5) as [_ E5]. destruct (detached_refs x G5 _ H5 y d) as [_ Hr]; [by left|].
      congruence.
    + intros Hor. apply Hkeep; [done|]. rewrite Hto4. destruct Hto as [E|(_ & _ & ?)]; [|done].
      intros Ex. destruct Hor as [?|Ha]; [congruence|].
      (* an "after" dependency that still leads to [x] would be a dependent that was not moved *)
      assert (d ∈ g_dpts G2 x) as Hin.
      { rewrite <- Ex. by apply (proj2 (ul_links _ _ _ _ H2 y)). }
      rewrite Hdpts2 in Hin. destruct (Hrest d Hin) as (Hin0 & _ & Hna).
      apply Hna; [by rewrite Hg2|done].
Qed.
(** *** What becomes of the records that stay *)

(** While the links of the service are cut, records are only freed, and no list of
    dependents grows; and a placeholder stays as it is as long as it has dependents. *)
Record settles p (s s' : sys X) : Prop := {
  se_deps d : deps s' !! d = deps s !! d ∨ deps s' !! d = None;
  se_dpts d : d ∈ dependents (svc s' p) → d ∈ dependents (svc s p);
  se_ph : dependents (svc s' p) ≠ [] →
    record_type (svc s' p) = record_type (svc s p)
    ∧ service_name (svc s' p) = service_name (svc s p)
    ∧ (p ∈ records s → p ∈ records s')
}.

Lemma settles_refl p s : settles p s s.
Proof. split; auto. Qed.
Lemma settles_trans p s1 s2 s3 : settles p s1 s2 → settles p s2 s3 → settles p s1 s3.
Proof.
  intros [A1 A2 A3] [B1 B2 B3]. split; [|auto|].
  - intros d. destruct (B1 d) as [->| ->]; auto.
  - intros H. destruct (B3 H) as (-> & -> & ?). destruct A3 as (-> & -> & ?); [|auto].
    intros E. destruct (dependents (svc s3 p)) as [|d l] eqn:Ed; [done|].
    specialize (B2 d ltac:(by left)). rewrite E in B2. by apply not_elem_of_nil in B2.
Qed.

Lemma settles_held p s s' d : settles p s s' →
  holding_acq (dep s d) = false → holding_acq (dep s' d) = false.
Proof. intros [H _ _] Hd. unfold dep in *. by destruct (H d) as [-> | ->]. Qed.
Lemma settles_dep p s s' d : settles p s s' → d ∈ dom (deps s') → dep s' d = dep s d.
Proof.
  intros [H _ _] [r Hr]%elem_of_dom. unfold dep. destruct (H d) as [-> | E]; [done|congruence].
Qed.

Lemma settles_loop p (f : did → sys X → sys X) (Q : sys X → did → Prop) l :
  (∀ s s' d, settles p s s' → Q s d → Q s' d) → (∀ s d, Q s d → settles p s (f d s)) →
  ∀ s, Forall (Q s) l → settles p s (for_each l f s).
Proof.
  intros Hk Hf. induction l as [|d l IH]; intros s Hl; [apply settles_refl|].
  apply list.Forall_cons in Hl as [Hd Hl]. rewrite for_each_cons.
  pose proof (Hf s d Hd) as H1. eapply settles_trans; [exact H1|]. apply IH.
  eapply list.Forall_impl; [exact Hl|]. intros e. by apply Hk.
Qed.

Lemma settles_upd p y f s :
  (∀ r, record_type (f r) = record_type r ∧ service_name (f r) = service_name r
     ∧ ∀ d, d ∈ dependents (f r) → d ∈ dependents r) →
  settles p s (upd y f s).
Proof.
  intros Hf. destruct (Hf (svc s p)) as (H1 & H2 & H3).
  split; [by left|..]; rewrite svc_upd; case_decide; auto.
Qed.

Lemma erase_first_ne d e l : e ≠ d → e ∈ l → e ∈ erase_first d l.
Proof.
  intros Hne. induction l as [|a l IH]; [done|]. cbn. intros [->|He]%elem_of_cons.
  - rewrite decide_False by done. by left.
  - case_decide; [done|]. right. auto.
Qed.

Lemma settles_delete p y s : settles p s (delete_record y (remove_service y s)).
Proof.
  unfold delete_record, remove_service, seq. split.
  - intros d. left. rsimpl. by rewrite destroy_deps.
  - intros d. rewrite svc_delete. case_decide; [by intros ?%not_elem_of_nil|].
    by destruct (destroy_svc y (s <| records ::= erase_first y |>) p) as [lc ->].
  - rewrite svc_delete. case_decide as Hy; [by intros []|].
    destruct (destroy_svc y (s <| records ::= erase_first y |>) p) as [lc ->]. rsimpl.
    rewrite destroy_records. rsimpl. intros _. split_and!; [done..|]. by apply erase_first_ne.
Qed.
Lemma settles_drop p y s : settles p s (drop_placeholder y s).
Proof.
  unfold drop_placeholder. destruct (_ && _); [apply settles_delete|apply settles_refl].
Qed.

Lemma settles_cut p y d s : settles p s (upd y (λ r, r <| dependents ::= erase_first d |>) s).
Proof. apply settles_upd. intros r. rsimpl. split_and!; [done..|]. intros e. apply erase_first_sub. Qed.

Lemma settles_unlink_dependency p d s : settles p s (unlink_dependency d s).
Proof.
  unfold unlink_dependency, seq. eapply settles_trans; [apply settles_cut|].
  unfold when. destruct (is_after _); [apply settles_drop|apply settles_refl].
Qed.

Lemma settles_unlink_dependent p d s :
  holding_acq (dep s d) = false → settles p s (unlink_dependent d s).
Proof.
  intros Hh. unfold unlink_dependent, rm_dep_ref, seq. cbv zeta.
  eapply settles_trans; [|apply settles_drop].
  destruct (bool_decide _); cbn [when]; [|apply settles_refl]. unfold rm_dep_it, seq. cbv zeta.
  eapply settles_trans; [apply (settles_cut _ (dep_to (dep s d)) d)|].
  set (s1 := upd _ _ s). change (dep s1 d) with (dep s d). rewrite Hh. cbn [when].
  eapply settles_trans; [apply (settles_upd p (dep_from (dep s d)) (λ r, r <| depends_on ::= erase_first d |>))|].
  { intros r. by rsimpl. }
  split; [|done|done]. intros e. rsimpl. destruct (decide (e = d)) as [->|Hne].
  - right. apply lookup_delete_eq.
  - left. by apply lookup_delete_ne.
Qed.

Lemma settles_prepare p x s :
  (∀ d, d ∈ dependents (svc s x) → holding_acq (dep s d) = false) →
  settles p s (prepare_for_unload x s).
Proof.
  intros Hh. unfold prepare_for_unload, seq. cbv zeta. set (s3 := upd x _ _).
  assert (∀ q, settles q s s3) as H3.
  { intros q. unfold s3. eapply settles_trans; [|apply settles_upd; intros r; by rsimpl].
    apply (settles_trans q s (for_each (depends_on (svc s x)) unlink_dependency s));
      [apply (settles_loop q unlink_dependency (λ _ _, True));
       [done|intros; apply settles_unlink_dependency|by apply list.Forall_forall]|].
    generalize (for_each (depends_on (svc s x)) unlink_dependency s). intros s1.
    split; [|intros d Hd; exact Hd|intros _; split; [reflexivity|split; [reflexivity|intros Hr; exact Hr]]].
    intros d. rsimpl. induction (depends_on (svc s x)) as [|e l IH]; cbn [foldr]; [by left|].
    destruct (decide (d = e)) as [->|Hne]; [right; apply lookup_delete_eq|].
    by rewrite lookup_delete_ne. }
  eapply settles_trans; [apply H3|].
  apply (settles_loop p unlink_dependent (λ s d, holding_acq (dep s d) = false)).
  - intros s1 s2 d. apply settles_held.
  - intros s1 d. apply settles_unlink_dependent.
  - apply list.Forall_forall. intros d Hd. eapply settles_held; [apply (H3 p)|].
    apply Hh. by apply (se_dpts _ _ _ (H3 x)).
Qed.

(** The records of the other services while the "after" dependents move to the placeholder. *)
Record moved x (name : string) (st s : sys X) (ph : option sid) : Prop := {
  mv_dep d : dep s d = dep st d ∨ dep_from (dep st d) = x
    ∨ (dep_to (dep st d) = x ∧ ∃ p, ph = Some p ∧ dep s d = ((dep st d) <| dep_to := p |>));
  mv_ph p : ph = Some p → (p ∉ dom (svcs st)) ∧ record_type (svc s p) = service_type_t.PLACEHOLDER
    ∧ service_name (svc s p) = name ∧ p ∈ records s;
  mv_dom : x ∈ dom (svcs st) ∧ dom (svcs st) ⊆ dom (svcs s);
  mv_list d : d ∈ depends_on (svc s x) → dep_from (dep st d) = x
}.

Lemma moved_placeholder x name st s ph : moved x name st s ph →
  moved x name st (make_placeholder name ph s).1 (Some (make_placeholder name ph s).2).
Proof.
  intros [H1 H2 H3 H4]. destruct ph as [p|]; cbn [make_placeholder fst snd]; [by split|].
  assert ((new_placeholder name s).2 ∉ dom (svcs s)) as Hf by apply is_fresh.
  split.
  - intros d. change (dep (new_placeholder name s).1 d) with (dep s d).
    destruct (H1 d) as [?|[?|(? & p & ? & ?)]]; [by left|right; by left|done].
  - intros p [= <-]. rewrite svc_new_placeholder, decide_True by done. cbn [record_type service_name].
    split_and!; [|done|done|].
    + intros Hp. by apply Hf, (proj2 H3).
    + unfold new_placeholder, add_service. cbn [fst snd]. rsimpl. apply elem_of_app. right.
      by apply list_elem_of_singleton.
  - split; [apply H3|]. etrans; [apply H3|]. unfold new_placeholder, add_service, construct, seq.
    cbn. unfold upd. rsimpl. rewrite dom_insert_L. set_solver.
  - intros d. rewrite svc_new_placeholder. case_decide as E; [|apply H4].
    cbn. by intros ?%not_elem_of_nil.
Qed.

Lemma moved_dependent x name st s p d : moved x name st s (Some p) →
  dep_to (dep st d) = x → moved x name st (move_dependent x p d s) (Some p).
Proof.
  intros [H1 H2 H3 H4] Hd. assert (p ≠ x) as Hp.
  { intros ->. destruct (H2 x eq_refl) as [Hx _]. by apply Hx, H3. }
  split.
  - intros e. rewrite dep_move_dependent. case_decide as E; [subst e|apply H1].
    destruct (H1 d) as [->|[?|(_ & q & [= <-] & ->)]]; [|right; by left|].
    + right; right. split; [done|]. by exists p.
    + right; right. split; [done|]. exists p. split; [done|]. by destruct (dep st d).
  - intros q [= <-]. destruct (H2 p eq_refl) as (? & ? & ? & ?).
    rewrite svc_move_dependent. cbv zeta. rewrite (decide_True (P:=p = p)) by done.
    rewrite decide_False by done. rsimpl. by split_and!.
  - split; [apply H3|]. etrans; [apply H3|]. unfold move_dependent, seq, upd, upd_dep. rsimpl.
    rewrite !dom_insert_L. set_solver.
  - intros e. rewrite svc_move_dependent. cbv zeta.
    rewrite (decide_True (P:=x = x)), (decide_False (P:=x = p)) by done. rsimpl. apply H4.
Qed.
Lemma moved_dependency x name st s p d : moved x name st s (Some p) →
  dep_from (dep st d) = x → moved x name st (move_dependency x p d s) (Some p).
Proof.
  intros [H1 H2 H3 H4] Hd. assert (p ≠ x) as Hp.
  { intros ->. destruct (H2 x eq_refl) as [Hx _]. by apply Hx, H3. }
  split.
  - intros e. rewrite dep_move_dependency. case_decide as E; [subst e; right; by left|apply H1].
  - intros q [= <-]. destruct (H2 p eq_refl) as (? & ? & ? & ?).
    rewrite svc_move_dependency. cbv zeta. rewrite (decide_True (P:=p = p)) by done.
    rewrite decide_False by done. rsimpl. by split_and!.
  - split; [apply H3|]. etrans; [apply H3|]. unfold move_dependency, seq, upd, upd_dep. rsimpl.
    rewrite !dom_insert_L. set_solver.
  - intros e. rewrite svc_move_dependency. cbv zeta.
    rewrite (decide_True (P:=x = x)), (decide_False (P:=x = p)) by done. rsimpl.
    intros He%erase_first_sub. by apply H4.
Qed.

Lemma moved_loop x name st test move (Q : did → Prop) l :
  (∀ s p d, moved x name st s (Some p) → Q d → moved x name st (move p d s) (Some p)) →
  (∀ d, d ∈ l → Q d) → ∀ s ph, moved x name st s ph →
  let r := for_each l (to_placeholder name test move) (s, ph) in moved x name st r.1 r.2.
Proof.
  intros Hm. induction l as [|d l IH]; intros Hl s ph H; [done|].
  cbv zeta. rewrite for_each_cons.
  destruct (to_placeholder name test move d (s, ph)) as [s1 ph1] eqn:E.
  apply IH; [intros e He; apply Hl; by right|]. unfold to_placeholder in E.
  destruct (test _); [|by injection E as <- <-].
  pose proof (moved_placeholder _ _ _ _ _ H) as H1.
  destruct (make_placeholder name ph s) as [s2 p]. injection E as <- <-.
  apply Hm; [done|]. apply Hl. by left.
Qed.

Lemma unload_settles G st x :
  unloading x G st None → log_consumer (svc st x) = None →
  ∃ s ph, moved x (service_name (svc st x)) st s ph ∧ ∀ p, settles p s (unload_service x st).
Proof.
  intros H Hlog. unfold unload_service. cbv zeta. unfold move_pipe. rewrite Hlog.
  change (seq (st, None) ?f) with (f (st, @None sid)). cbn [fst].
  set (name := service_name (svc st x)).
  destruct (inv_graph _ _ _ _ _ (ul_inv _ _ _ _ H)) as (Hg1 & Hg2 & Hg3 & Hg4 & _).
  assert (moved x name st st None) as M0.
  { split; [by left|done|split; [apply (ul_alloc _ _ _ _ H)|done]|].
    intros d. rewrite Hg1, Hg3. intros Hd. by apply (ul_links _ _ _ _ H x). }
  pose proof (moved_loop x name st is_after (move_dependent x) (λ d, dep_to (dep st d) = x)
    (dependents (svc st x)) ltac:(intros; by apply moved_dependent)) as M1.
  specialize (M1 ltac:(intros d; rewrite Hg2, Hg4; apply (inv_dpts _ _ _ _ _ (ul_inv _ _ _ _ H) x)) st None M0).
  destruct (move_dependents_loop x name (dependents (svc st x)) G st None H) as (G1 & H1 & _).
  { rewrite Hg2. apply (inv_dpts _ _ _ _ _ (ul_inv _ _ _ _ H) x). }
  { intros d. by rewrite Hg2. }
  unfold seq at 1. cbv zeta in M1, H1.
  destruct (for_each (dependents (svc st x)) _ (st, None)) as [s1 ph1]. cbn [fst snd] in *.
  pose proof (moved_loop x name st is_before (move_dependency x) (λ d, dep_from (dep st d) = x)
    (depends_on (svc s1 x)) ltac:(intros; by apply moved_dependency) (mv_list _ _ _ _ _ M1) s1 ph1 M1) as M2.
  destruct (inv_graph _ _ _ _ _ (ul_inv _ _ _ _ H1)) as (Hg1' & _).
  destruct (move_dependencies_loop x name (depends_on (svc s1 x)) G1 s1 ph1 H1) as (G2 & H2 & _).
  { rewrite Hg1'. apply (ul_links _ _ _ _ H1 x). }
  { intros d. by rewrite Hg1'. }
  unfold seq at 1. cbv zeta in M2, H2.
  destruct (for_each (depends_on (svc s1 x)) _ (s1, ph1)) as [s2 ph2]. cbn [fst snd] in *.
  exists s2, ph2. split; [done|]. intros p. unfold seq.
  eapply settles_trans; [|apply settles_delete]. apply settles_prepare.
  intros d Hd. eapply unloading_not_held; [exact H2|].
  destruct (inv_graph _ _ _ _ _ (ul_inv _ _ _ _ H2)) as (_ & <- & _). exact Hd.
Qed.

(** The placeholder, and the records of the other services that lead to it. *)
Lemma unload_records G st x :
  unloading x G st None → log_consumer (svc st x) = None →
  ∃ p, (p ∉ dom (svcs st)) ∧ ∀ d, d ∈ dom (deps (unload_service x st)) → dep_from (dep st d) ≠ x →
    dep (unload_service x st) d = dep st d
    ∨ dep_to (dep st d) = x ∧ dep (unload_service x st) d = ((dep st d) <| dep_to := p |>)
      ∧ (dependents (svc (unload_service x st) p) ≠ [] →
           record_type (svc (unload_service x st) p) = service_type_t.PLACEHOLDER
           ∧ service_name (svc (unload_service x st) p) = service_name (svc st x)
           ∧ p ∈ records (unload_service x st)).
Proof.
  intros H Hlog. destruct (unload_settles G st x H Hlog) as (s2 & ph2 & M2 & Hs).
  exists (default (fresh (dom (svcs st))) ph2). split.
  { destruct ph2 as [p|]; [|apply is_fresh]. by apply (mv_ph _ _ _ _ _ M2). }
  intros d Hd Hx. rewrite (settles_dep _ _ _ d (Hs x) Hd).
  destruct (mv_dep _ _ _ _ _ M2 d) as [->|[?|(Hto & p & -> & ->)]]; [by left|done|].
  cbn [default from_option id]. right. split; [done|]. split; [done|]. intros Hne.
  destruct (se_ph _ _ _ (Hs p) Hne) as (-> & -> & Hr).
  destruct (mv_ph _ _ _ _ _ M2 p eq_refl) as (_ & ? & ? & ?). auto.
Qed.
End unload.

(** Records of the base class have no destructor of their own. *)
#[export] Instance simple_memory : RecordMemory simple_ext := {
  destroy := λ _ st, st;
  move_output_pipe := λ _ _ st, st
}.
#[export] Instance simple_memory_laws : RecordMemoryLaws simple_ext.
Proof.
  split; [|done..]. intros x st y. exists (log_consumer (svc st y)).
  change (destroy x st) with st. by destruct (svc st y).
Qed.

(** C24: Unloading a loaded service with required_by 0, in a well-formed set where each
    dependent's record is in the list of its source, and whose output no other service
    consumes (log_consumer), leaves no pointer to its memory in the dependency graph: its
    record is freed, no record of the graph leads from it or to it, and the graph stays well
    formed. Another service keeps exactly its dependency records that lead elsewhere,
    unchanged, and its "after" ones on the service; these are changed only in that they lead
    to one new record, a placeholder with the name of the unloaded service, which is in the
    service set and has them among its dependents. *)
Theorem unload_service_safe {X} `{!ServiceVirtual X} `{!ServiceVirtualLaws X}
    `{!RecordMemory X} `{!RecordMemoryLaws X} (st : sys X) x :
  Inv st → x ∈ dom (svcs st) → required_by (svc st x) = 0 → log_consumer (svc st x) = None →
  (∀ y d, d ∈ dependents (svc st y) → d ∈ depends_on (svc st (dep_from (dep st d)))) →
  let st' := unload_service x st in
  svcs st' !! x = None ∧ Inv st'
  ∧ (∀ y d, d ∈ depends_on (svc st' y) ∨ d ∈ dependents (svc st' y) →
       dep_from (dep st' d) ≠ x ∧ dep_to (dep st' d) ≠ x)
  ∧ (∀ y d, y ≠ x → d ∈ depends_on (svc st y) →
       (d ∈ depends_on (svc st' y)
        ↔ dep_to (dep st d) ≠ x ∨ dep_type (dep st d) = dependency_type.AFTER))
  ∧ ∃ p, (p ∉ dom (svcs st))
    ∧ ∀ y d, y ≠ x → d ∈ depends_on (svc st y) → d ∈ depends_on (svc st' y) →
        if decide (dep_to (dep st d) = x) then
          dep st' d = ((dep st d) <| dep_to := p |>)
          ∧ p ∈ records st' ∧ record_type (svc st' p) = service_type_t.PLACEHOLDER
          ∧ service_name (svc st' p) = service_name (svc st x)
          ∧ d ∈ dependents (svc st' p)
        else dep st' d = dep st d.
Proof.
  intros (G & Hl & H) Hx Hreq Hlog Hback st'.
  destruct (inv_graph _ _ _ _ _ H) as (Hg1 & Hg2 & Hg3 & Hg4 & Hg5).
  assert (unloading none_exempt x G st None) as Hu.
  { split; try done. intros y d. rewrite <- Hg2, <- Hg3, <- Hg1. apply Hback. }
  destruct (unload_graph none_exempt x G st Hu Hlog) as (G' & H' & Hkeep).
  destruct (unload_records none_exempt G st x Hu Hlog) as (p & Hp & Hrec).
  fold st' in H', Hrec. destruct (inv_graph _ _ _ _ _ (de_inv _ _ _ _ _ H')) as (E1 & E2 & E3 & E4 & _).
  assert (∀ y d, d ∈ g_deps G' y → dep_to (dep st' d) ≠ x) as Hnx.
  { intros y d Hd. rewrite E4. eapply (detached_refs _ x G' st' H' y). by left. }
  split; [apply delete_record_gone|]. split.
  { exists G'. split; [apply (de_links _ _ _ _ _ H')|apply (de_inv _ _ _ _ _ H')]. }
  split; [|split].
  - intros y d. rewrite E1, E2, E3, E4. by eapply detached_refs.
  - intros y d Hy. rewrite Hg1, E1, Hg4, Hg5. by apply Hkeep.
  - exists p. split; [done|]. intros y d Hy. rewrite Hg1, E1. intros Hd Hd'.
    destruct (Hrec d) as [Hsame|(Hto & Hmv & Hph)].
    { apply (inv_alloc _ _ _ _ _ (de_inv _ _ _ _ _ H') y). by left. }
    { rewrite Hg3. by rewrite (proj1 (proj2 (Hl y) d Hd)). }
    + rewrite decide_False; [done|]. intros E. apply (Hnx y d Hd'). by rewrite Hsame.
    + rewrite decide_True by done. split; [done|].
      assert (d ∈ dependents (svc st' p)) as Hin.
      { destruct (proj2 (de_links _ _ _ _ _ H' y) d Hd') as [_ Hin].
        rewrite <- E4, Hmv in Hin. rewrite E2. exact Hin. }
      destruct Hph as (? & ? & ?); [|by split_and!]. intros E. rewrite E in Hin. by apply not_elem_of_nil in Hin.
Qed.

(** Service 3 depends on service 2, and service 4 is to start after it. *)
Definition unload_set : simple_sys :=
  new_service 4 "d" service_type_t.INTERNAL [(3%nat, dependency_type.AFTER)]
    (new_service 3 "a" service_type_t.INTERNAL [(2%nat, dependency_type.REGULAR)]
      (new_service 2 "b" service_type_t.INTERNAL [] simple_init)).

Lemma unload_set_inv : Inv unload_set.
Proof.
  assert (reachable unload_set) as H; [|by apply (reachable_inv unload_set)].
  unfold unload_set, new_service.
  repeat (eapply reachable_step; [|apply step_add_service];
          eapply reachable_step; [|apply step_construct; apply fresh_service; vm_compute; reflexivity]).
  apply reachable_init.
Qed.

Definition has_back (st : simple_sys) : bool :=
  forallb (λ p, forallb (λ d, bool_decide (d ∈ depends_on (svc st (dep_from (dep st d)))))
    (dependents p.2)) (map_to_list (svcs st)).
Lemma has_back_ok st : has_back st = true →
  ∀ y d, d ∈ dependents (svc st y) → d ∈ depends_on (svc st (dep_from (dep st d))).
Proof.
  unfold has_back. rewrite forallb_forall. intros H y d. unfold svc at 1.
  destruct (svcs st !! y) as [r|] eqn:E; simpl; [|by intros ?%not_elem_of_nil].
  specialize (H (y, r)). rewrite forallb_forall in H. intros Hd.
  eapply bool_decide_eq_true_1, H; [|by apply list_elem_of_In].
  apply list_elem_of_In. by apply elem_of_map_to_list.
Qed.

Lemma unload_service_safe_witness :
  svcs (unload_service 3 unload_set) !! 3%nat = None
  ∧ depends_on (svc (unload_service 3 unload_set) 4) ≠ []
  ∧ ∃ p, ∀ d, d ∈ depends_on (svc (unload_service 3 unload_set) 4) →
      p ∈ records (unload_service 3 unload_set)
      ∧ service_name (svc (unload_service 3 unload_set) p) = "a"%string
      ∧ d ∈ dependents (svc (unload_service 3 unload_set) p).
Proof.
  destruct (unload_service_safe unload_set 3) as (H1 & _ & _ & _ & p & _ & H2).
  - apply unload_set_inv.
  - apply allocated. vm_compute. reflexivity.
  - vm_compute. reflexivity.
  - vm_compute. reflexivity.
  - apply has_back_ok. vm_compute. reflexivity.
  - split; [exact H1|]. split; [vm_compute; discriminate|].
    exists p. intros d Hd.
    assert (depends_on (svc (unload_service 3 unload_set) 4) = depends_on (svc unload_set 4)) as E
      by (vm_compute; reflexivity).
    assert (Forall (λ d, dep_to (dep unload_set d) = 3%nat) (depends_on (svc unload_set 4))) as Hto
      by (vm_compute; repeat constructor).
    rewrite E in Hd. rewrite list.Forall_forall in Hto. specialize (Hto d Hd).
    specialize (H2 4%nat d ltac:(discriminate) Hd ltac:(by rewrite E)). rewrite decide_True in H2 by done.
    destruct H2 as (_ & ? & _ & Hn & ?). split_and!; [done| |done]. by rewrite Hn.
Defined.
