(* ===== verification/ProcessMemory.v ===== *)
(** * Unloading and replacing services with processes

    The destructors of the process classes and of [placeholder_service], the transfer of
    output pipes, and what goes wrong when records are replaced. *)

From S2P Require Import Prelude Text ServiceData Service SettingValue Settings Loader LoaderUnload TimeVal Process ProcessRun ProcessEvents.

Implicit Types (st : psys) (x y : sid).

(** [~placeholder_service]: the pipe is closed. *)
Definition destroy_placeholder x st : psys :=
  when (is_placeholder st x && negb (log_output_fd (proc_of st x) =? -1))
    (λ st,
      let! st := close (log_output_fd (proc_of st x)) st in
      close (log_input_fd (proc_of st x)) st) st.

(** [~process_service]: its watch is given back, and the service whose output it
    consumes has no consumer any more. *)
Definition destroy_process x st : psys :=
  when (is_process st x)
    (λ st,
      let! st := upd_proc x (λ p, p <| reserved_stop_watch := false |>) st in
      match consumer_for (proc_of st x) with
      | Some y => upd y (λ r, r <| log_consumer := None |>) st
      | None => st
      end) st.

(** [~base_process_service] *)
Definition destroy_base x st : psys :=
  when (is_base_process st x)
    (λ st,
      let! st := upd_proc x (λ p, p <| reserved_child_watch := false |>) st in
      let! st := upd_proc x (λ p, p <| timer := None |>) st in
      set_log_mode x log_type_id.NONE st) st.

(** The destructors run from the derived class to the base class; the record of the
    extension state goes with the memory. *)
Definition proc_destroy x st : psys :=
  let! st := destroy_placeholder x st in
  let! st := destroy_process x st in
  let! st := destroy_base x st in
  upd_ext (λ e, e <| procs ::= delete x |>) st.

(** [placeholder->set_output_pipe(svc->transfer_output_pipe())] *)
Definition proc_move_output_pipe x (p : sid) st : psys :=
  let! '(st, fds) := transfer_output_pipe x st in
  set_output_pipe_fds p fds st.

#[export] Instance proc_memory : RecordMemory proc_ext := {
  destroy := proc_destroy;
  move_output_pipe := proc_move_output_pipe
}.

(** A destructor leaves the graph alone. *)
Record destroyed st st' : Prop := {
  ds_svc y : ∃ lc, svc st' y = (svc st y) <| log_consumer := lc |>;
  ds_deps : deps st' = deps st;
  ds_queue : prop_queue st' = prop_queue st;
  ds_records : records st' = records st
}.

Lemma destroyed_same st st' : svcs st' = svcs st → deps st' = deps st →
  prop_queue st' = prop_queue st → records st' = records st → destroyed st st'.
Proof.
  intros H1 H2 H3 H4. split; [|done..]. intros y. exists (log_consumer (svc st y)).
  unfold svc. rewrite H1. by destruct (default _ _).
Qed.
Lemma destroyed_refl st : destroyed st st.
Proof. by apply destroyed_same. Qed.
Lemma destroyed_seq st1 st2 (f : psys → psys) :
  destroyed st1 st2 → (∀ st, destroyed st (f st)) → destroyed st1 (f st2).
Proof.
  intros [A1 A2 A3 A4] Hf. destruct (Hf st2) as [B1 B2 B3 B4]. split; [|congruence..].
  intros y. destruct (A1 y) as [l1 E1], (B1 y) as [l2 E2]. exists l2. rewrite E2, E1.
  by destruct (svc st1 y).
Qed.
Lemma destroyed_when (b : bool) (f : psys → psys) st :
  (∀ st, destroyed st (f st)) → destroyed st (when b f st).
Proof. intros Hf. destruct b; [apply Hf|apply destroyed_refl]. Qed.
Lemma destroyed_close fd st : destroyed st (close fd st).
Proof. unfold close. destruct (bool_decide _); by apply destroyed_same. Qed.
Lemma destroyed_proc x f st : destroyed st (upd_proc x f st).
Proof. by apply destroyed_same. Qed.
Lemma destroyed_log x st : destroyed st (deregister_log x st).
Proof. unfold deregister_log, seq. repeat case_match; by apply destroyed_same. Qed.

Lemma destroyed_mode x ty st : destroyed st (set_log_mode x ty st).
Proof.
  unfold set_log_mode, seq. destruct (bool_decide _); [apply destroyed_refl|].
  apply destroyed_seq; [|apply destroyed_proc]. apply destroyed_when. intros s.
  apply destroyed_seq; [apply destroyed_when, destroyed_log|]. intros s1.
  apply destroyed_when. intros s2.
  apply (destroyed_seq _ _ (upd_proc x _)); [|apply destroyed_proc].
  apply (destroyed_seq _ _ (λ s, close (log_input_fd (proc_of s x)) s)); [apply destroyed_close|].
  intros. apply destroyed_close.
Qed.

Lemma proc_destroyed x st : destroyed st (proc_destroy x st).
Proof.
  unfold proc_destroy, seq. apply destroyed_seq; [|by intros; apply destroyed_same].
  apply destroyed_seq; [apply destroyed_seq|].
  - apply destroyed_when. intros s. unfold seq.
    apply (destroyed_seq _ _ (λ s, close (log_input_fd (proc_of s x)) s)); [apply destroyed_close|].
    intros. apply destroyed_close.
  - intros s. apply destroyed_when. intros s1. unfold seq.
    apply (destroyed_seq s1 _ (λ s, match consumer_for (proc_of s x) with
      Some y => upd y (λ r, r <| log_consumer := None |>) s | None => s end));
      [apply destroyed_proc|]. intros s2. destruct (consumer_for _) as [y|]; [|apply destroyed_refl].
    split; [|done..]. intros z. rewrite svc_upd. case_decide; [by eexists|].
    exists (log_consumer (svc s2 z)). by destruct (svc s2 z).
  - intros s. apply destroyed_when. intros s1. unfold seq.
    apply destroyed_seq; [|intros; apply destroyed_mode].
    apply destroyed_seq; [apply destroyed_proc|intros; apply destroyed_proc].
Qed.
#[export] Instance proc_memory_laws : RecordMemoryLaws proc_ext.
Proof.
  split; intros x st; destruct (proc_destroyed x st) as [H1 H2 H3 H4]; [apply H1|done..].
Qed.

(** What [switch_record] does in between for a new record of a process class: the output
    pipe goes to it, and the consumer of the old record reads from the new one. *)
Definition transfer_outputs rval orig st : psys :=
  when (is_base_process st rval)
    (λ st,
      let! '(st, fds) := transfer_output_pipe orig st in
      let! st := set_output_pipe_fds rval fds st in
      match log_consumer (svc st orig) with
      | Some y => set_consumer_for y (Some rval) st
      | None => st
      end) st.

(** The old record stops to be the consumer of a service that the new one does not
    consume, and is replaced and deleted. *)
Definition finish_switch rval orig (consumer_of_svc : option sid) st : psys :=
  let! st :=
    match consumer_for (proc_of st orig) with
    | Some y =>
        when (is_process st orig && negb (bool_decide (Some y = consumer_of_svc)))
          (upd y (λ r, r <| log_consumer := None |>)) st
    | None => st
    end in
  let! st := replace_service orig rval st in
  delete_record orig st.

(** [rval] takes the place of [orig]. *)
Definition replace_record rval orig (before_deps : list did) (consumer_of_svc : option sid) st
    : psys :=
  let! st := switch_record (transfer_outputs rval orig) rval orig before_deps st in
  finish_switch rval orig consumer_of_svc st.

(** The last statement of [load_reload_service]. *)
Definition mark_consumer rval (consumer_of_svc : option sid) st : psys :=
  when (is_process st rval)
    (λ st,
      let! st := set_consumer_for rval consumer_of_svc st in
      match consumer_of_svc with
      | Some y => upd y (λ r, r <| log_consumer := Some rval |>) st
      | None => st
      end) st.

(** ** Concrete sets of processes *)

Definition proc_init : psys := service_set_new (Proc_ext ∅ (Time_val 5 0) [] ∅ 3 ∅ true).
Definition new_process x (name : string) st : psys :=
  add_service x (construct x name service_type_t.PROCESS [] st).

(** Service 2 consumes the output of service 1. *)
Definition logger_set : psys :=
  mark_consumer 2 (Some 1%nat) (new_process 2 "logger" (new_process 1 "daemon" proc_init)).

(** The description of [x] is read again, and now has a "before" setting. *)
Definition reload_before x (name before : string) st : psys * result unit :=
  match load_before (chars name) (Some x) [] [chars before] [] st with
  | ((st, before_deps), Ok _) => update_depenencies x [] before_deps st
  | ((st, _), Throw e) => (st, Throw e)
  end.

(** Services 1 and 2 are to start before service 3. *)
Definition befores_set : psys :=
  let! st := new_process 3 "c" (new_process 2 "b" (new_process 1 "a" proc_init)) in
  (reload_before 2 "b" "c" (reload_before 1 "a" "c" st).1).1.

(** Five defects in the loading and unloading of services.  The consumer of the output
    of an unloaded service still points to its deleted record.  When a record is replaced,
    the consumer reads from the new record, which does not know of it.  A service that is
    reloaded without the "consumer-of" setting it had remains the consumer of the other
    service.  The transfer of "before" dependencies to a new record skips every other one,
    which is deleted: service 1 is to start before service 3, and is not any more when 3 has
    been reloaded.  And the search for cycles does not see the "before" dependencies
    that other services have declared: two services can each start only after the other. *)
Theorem loader_defects :
  (let st := unload_service 1 logger_set in
   svcs st !! 1%nat = None ∧ consumer_for (proc_of st 2) = Some 1%nat)
  ∧ (let st := replace_record 3 1 [] None
       (construct 3 "daemon" service_type_t.PROCESS [] logger_set) in
     consumer_for (proc_of st 2) = Some 3%nat ∧ log_consumer (svc st 3) = None)
  ∧ (let st := mark_consumer 2 None logger_set in
     consumer_for (proc_of st 2) = None ∧ log_consumer (svc st 1) = Some 2%nat)
  ∧ (let st := replace_record 4 3 [] None (construct 4 "c" service_type_t.PROCESS [] befores_set) in
     targets befores_set 3 = [2%nat; 1%nat] ∧ targets st 4 = [2%nat]
     ∧ dependents (svc befores_set 1) ≠ [] ∧ dependents (svc st 1) = [])
  ∧ (let st := (new_process 2 "b" (new_process 1 "a" proc_init)) in
     let '(st, r1) := reload_before 1 "a" "b" st in
     let '(st, r2) := reload_before 2 "b" "a" st in
     r1 = Ok tt ∧ r2 = Ok tt ∧ targets st 1 = [2%nat] ∧ targets st 2 = [1%nat]).
Proof. split_and!; vm_compute; split_and!; try reflexivity; discriminate. Qed.
