(* ===== verification/HashSetLaws.v ===== *)
(** * The laws of the hash set *)

From S2P Require Import Prelude HashSet.
Import dinit_unordered_set.

(** ** Lists of buckets *)

Section buckets.
Context {K : Type}.
Implicit Types (bs : list (list K)) (v : K).

Lemma concat_alter_snoc bs b v :
  (b < length bs)%nat → concat (alter (λ l, l ++ [v]) b bs) ≡ₚ v :: concat bs.
Proof.
  revert b. induction bs as [|l bs IH]; intros [|b] Hb; simpl in *; [lia..| |].
  - rewrite <- app_assoc. simpl. by rewrite <- Permutation_middle.
  - rewrite Permutation_middle. apply Permutation_app_head, IH. lia.
Qed.

Lemma concat_alter_delete bs b i l v :
  bs !! b = Some l → l !! i = Some v → concat bs ≡ₚ v :: concat (alter (delete i) b bs).
Proof.
  revert b. induction bs as [|l' bs IH]; intros [|b] Hb Hi; simplify_eq/=.
  - by rewrite (delete_Permutation _ _ _ Hi) at 1.
  - rewrite Permutation_middle. apply Permutation_app_head. by apply IH.
Qed.

Lemma concat_assign bs b i l v w :
  bs !! b = Some l → l !! i = Some w →
  ∃ rest, concat bs ≡ₚ w :: rest ∧ concat (alter (<[i := v]>) b bs) ≡ₚ v :: rest.
Proof.
  revert b. induction bs as [|l' bs IH]; intros [|b] Hb Hi; simplify_eq/=.
  - pose proof (lookup_lt_Some _ _ _ Hi) as Hlt. exists (take i l ++ drop (S i) l ++ concat bs).
    rewrite insert_take_drop by done. rewrite <- (take_drop_middle _ _ _ Hi) at 1.
    rewrite <- !app_assoc. simpl. by rewrite <- !Permutation_middle.
  - destruct (IH _ Hb Hi) as (rest & H1 & H2). exists (l' ++ rest). split.
    + rewrite Permutation_middle. by apply Permutation_app_head.
    + rewrite Permutation_middle. by apply Permutation_app_head.
Qed.

Lemma elem_of_concat bs v : v ∈ concat bs ↔ ∃ b l, bs !! b = Some l ∧ v ∈ l.
Proof.
  induction bs as [|l bs IH]; simpl.
  - split; [by intros ?%not_elem_of_nil|]. by intros (b & l & ? & _).
  - rewrite elem_of_app, IH. split.
    + intros [H|(b & l' & ? & ?)]; [by exists 0%nat, l|by exists (S b), l'].
    + intros ([|b] & l' & ? & ?); simplify_eq/=; [by left|right; by exists b, l'].
Qed.

Lemma concat_replicate_nil n : concat (replicate n ([] : list K)) = [].
Proof. by induction n. Qed.

Lemma lookup_replicate_nil n b l : replicate n ([] : list K) !! b = Some l → l = [].
Proof. intros H. apply list_elem_of_lookup_2 in H. by apply elem_of_replicate in H as [-> _]. Qed.
End buckets.

Section laws.
Context {K N : Type} `{EqDecision N} (key : K → N) (hash : N → Z) (max_size : Z).
Implicit Types (s : hset K) (v : K) (n : N) (bs : list (list K)).

(** Every element is in the bucket of its key, with [count] buckets in use. *)
Definition hashed (count : nat) bs : Prop :=
  ∀ b l v, bs !! b = Some l → v ∈ l → bucket_num hash (key v) count = b.

Definition wf s : Prop :=
  hashed (length (buckets s)) (buckets s) ∧ NoDup (key <$> concat (buckets s)).

Lemma bucket_num_lt n count : (0 < count)%nat → (bucket_num hash n count < count)%nat.
Proof.
  intros H. unfold bucket_num. pose proof (Z.mod_pos_bound (hash n) (Z.of_nat count)). lia.
Qed.

(** ** Search *)

Lemma find_in_Some n (b : list K) i :
  find_in key n b = Some i → ∃ v, b !! i = Some v ∧ key v = n.
Proof.
  revert i. induction b as [|v b IH]; intros i; simpl; [done|]. case_decide.
  - intros [= <-]. by exists v.
  - destruct (find_in key n b) as [j|]; [|done]. intros [= <-]. by apply IH.
Qed.
Lemma find_in_None n (b : list K) v : find_in key n b = None → v ∈ b → key v ≠ n.
Proof.
  induction b as [|w b IH]; simpl; [by intros _ ?%not_elem_of_nil|]. case_decide; [done|].
  destruct (find_in key n b); [done|]. intros _ [->|Hv]%elem_of_cons; [done|]. by apply IH.
Qed.

Lemma find_Some n s it :
  find key hash n s = Some it → ∃ v, deref_it (Some it) s = Some v ∧ key v = n.
Proof.
  unfold find, deref_it. destruct (buckets s) as [|b0 bs0] eqn:E; [done|].
  intros H. apply bind_Some in H as (i & Hi & [= <-]).
  destruct ((b0 :: bs0) !! bucket_num hash n _) as [l|] eqn:Hl; [|done]. simpl in Hi.
  apply find_in_Some in Hi as (v & Hv & Hn). exists v. split; [|done]. simpl in *.
  by rewrite Hl.
Qed.
Lemma find_None n s v : wf s → find key hash n s = None → v ∈ concat (buckets s) → key v ≠ n.
Proof.
  unfold find. intros [Hh _] Hf (b & l & Hl & Hv)%elem_of_concat Hk.
  destruct (buckets s) as [|b0 bs0] eqn:E; [done|].
  pose proof (Hh b l v Hl Hv) as Hb. rewrite Hk in Hb. rewrite Hb, Hl in Hf. simpl in Hf.
  destruct (find_in key n l) as [i|] eqn:Hi; [done|]. by eapply find_in_None.
Qed.

Lemma deref_elem it s v : deref_it it s = Some v → v ∈ concat (buckets s).
Proof.
  intros H. apply bind_Some in H as ((b & i) & -> & H). apply bind_Some in H as (l & Hl & Hv).
  apply elem_of_concat. exists b, l. split; [done|]. by eapply list_elem_of_lookup_2.
Qed.

Lemma NoDup_fmap_eq (f : K → N) l v w : NoDup (f <$> l) → v ∈ l → w ∈ l → f v = f w → v = w.
Proof.
  intros H (i & Hi)%list_elem_of_lookup (j & Hj)%list_elem_of_lookup E.
  assert (i = j) as <-; [|congruence].
  apply (NoDup_lookup (f <$> l) i j (f v)); [done|by rewrite list_lookup_fmap, Hi|].
  by rewrite list_lookup_fmap, Hj, E.
Qed.

(** ** Iteration *)

Lemma nonempty_from_spec b bs :
  match nonempty_from b bs with
  | None => concat bs = []
  | Some (b', i) =>
      i = 0%nat ∧ ∃ k l, b' = (b + k)%nat ∧ bs !! k = Some l ∧ l ≠ []
      ∧ concat bs = l ++ concat (drop (S k) bs)
  end.
Proof.
  revert b. induction bs as [|[|v l] bs IH]; intros b; simpl; [done| |].
  - specialize (IH (S b)). destruct (nonempty_from (S b) bs) as [[b' i]|]; [|done].
    destruct IH as (-> & k & l & -> & ? & ? & ?). split; [done|]. exists (S k), l.
    split; [lia|]. done.
  - split; [done|]. exists 0%nat, (v :: l). split_and!; [lia|done..].
Qed.

(** What is left to visit. *)
Definition ahead (it : iterator) bs : list K :=
  match it with
  | None => []
  | Some (b, i) => drop i (default [] (bs !! b)) ++ concat (drop (S b) bs)
  end.

Lemma ahead_nonempty bs b :
  ahead (nonempty_from b (drop b bs)) bs = concat (drop b bs).
Proof.
  pose proof (nonempty_from_spec b (drop b bs)) as H.
  destruct (nonempty_from b (drop b bs)) as [[b' i]|]; [|done].
  destruct H as (-> & k & l & -> & Hl & _ & ->). simpl. rewrite lookup_drop in Hl.
  rewrite Hl. simpl. rewrite drop_drop. by replace (b + S k)%nat with (S (b + k)) by lia.
Qed.

Lemma visit_ahead s fuel it :
  match it with Some p => is_Some (deref_it it s) | None => True end →
  (length (ahead it (buckets s)) ≤ fuel)%nat → visit fuel it s = ahead it (buckets s).
Proof.
  revert it. induction fuel as [|fuel IH]; intros it Hit Hf; destruct it as [[b i]|]; [|done| |done].
  - destruct Hit as [v Hv]. apply bind_Some in Hv as (l & Hl & Hv). simpl in Hf. rewrite Hl in Hf. simpl in Hf.
    rewrite (drop_S _ _ _ Hv) in Hf. simpl in Hf. lia.
  - destruct Hit as [v Hv]. cbn [visit]. rewrite Hv. simpl in Hv.
    apply bind_Some in Hv as (l & Hl & Hv).
    assert (ahead (Some (b, i)) (buckets s) = v :: ahead (next_it (b, i) s) (buckets s)) as Ha.
    { unfold next_it. rewrite Hl. simpl. rewrite Hl. simpl. rewrite (drop_S _ _ _ Hv). simpl. f_equal.
      destruct (Nat.ltb_spec (S i) (length l)) as [Hlt|Hge].
      - simpl. by rewrite Hl.
      - rewrite ahead_nonempty. by rewrite drop_ge by lia. }
    rewrite Ha in *. simpl. f_equal. apply IH; [|simpl in Hf; lia].
    unfold next_it. rewrite Hl. simpl. destruct (Nat.ltb_spec (S i) (length l)) as [Hlt|Hge].
    + simpl. rewrite Hl. simpl. by apply lookup_lt_is_Some.
    + pose proof (nonempty_from_spec (S b) (drop (S b) (buckets s))) as H.
      destruct (nonempty_from _ _) as [[b' i']|]; [|done].
      destruct H as (-> & k & l' & -> & Hl' & Hne & _). rewrite lookup_drop in Hl'. simpl.
      change (S (b + k)) with (S b + k)%nat. rewrite Hl'. simpl. by destruct l'; [|eexists].
Qed.

Lemma elements_concat s :
  (current_size s = 0 → concat (buckets s) = []) → elements_of s = concat (buckets s).
Proof.
  intros H0. unfold elements_of, begin_it. destruct (Z.eqb_spec (current_size s) 0) as [E|E].
  - rewrite (H0 E). done.
  - change (nonempty_from 0 (buckets s)) with (nonempty_from 0 (drop 0 (buckets s))).
    rewrite visit_ahead; [by rewrite ahead_nonempty| |by rewrite ahead_nonempty].
    pose proof (nonempty_from_spec 0 (drop 0 (buckets s))) as H.
    destruct (nonempty_from _ _) as [[b' i']|]; [|done].
    destruct H as (-> & k & l' & -> & Hl' & Hne & _). rewrite drop_0 in Hl'. simpl. rewrite Hl'. simpl.
    by destruct l'; [|eexists].
Qed.

(** ** Growing *)

Lemma push_node_spec count bs v :
  hashed count bs → (0 < count ≤ length bs)%nat →
  let bs' := push_node key hash count bs v in
  hashed count bs' ∧ length bs' = length bs ∧ concat bs' ≡ₚ v :: concat bs.
Proof.
  intros Hh Hc bs'. assert (bucket_num hash (key v) count < length bs)%nat as Hlt.
  { pose proof (bucket_num_lt (key v) count). lia. }
  split_and!; [|apply length_alter|by apply concat_alter_snoc].
  intros b l w Hl Hw. unfold bs', push_node in Hl.
  destruct (decide (bucket_num hash (key v) count = b)) as [Hb|Hb].
  - rewrite <- Hb in Hl. rewrite list_lookup_alter_eq in Hl.
    apply fmap_Some in Hl as (l0 & Hl & ->).
    apply elem_of_app in Hw as [Hw|Hw%list_elem_of_singleton]; [|by subst].
    rewrite Hb in Hl. by eapply Hh.
  - rewrite list_lookup_alter_ne in Hl by done. by eapply Hh.
Qed.

Lemma do_rehash_spec count bs :
  (0 < count ≤ length bs)%nat →
  let bs' := do_rehash key hash count bs in
  hashed count bs' ∧ length bs' = length bs ∧ concat bs' ≡ₚ concat bs.
Proof.
  intros Hc. unfold do_rehash. set (start := replicate (length bs) []).
  assert (∀ l acc, hashed count acc → length acc = length bs →
    let bs' := foldl (push_node key hash count) acc l in
    hashed count bs' ∧ length bs' = length bs ∧ concat bs' ≡ₚ l ++ concat acc) as H.
  { induction l as [|v l IH]; intros acc Ha Hlen; [done|].
    destruct (push_node_spec count acc v Ha) as (H1 & H2 & H3); [lia|].
    destruct (IH (push_node key hash count acc v) H1) as (H4 & H5 & H6); [congruence|].
    split_and!; [done..|]. cbn [foldl]. rewrite H6, H3. by rewrite <- Permutation_middle. }
  destruct (H (concat bs) start) as (H1 & H2 & H3).
  - intros b l v Hl. unfold start in Hl. apply lookup_replicate_nil in Hl as ->.
    by intros ?%not_elem_of_nil.
  - apply length_replicate.
  - split_and!; [done..|]. rewrite H3. unfold start. by rewrite concat_replicate_nil, app_nil_r.
Qed.

Lemma resize_buckets_spec count bs :
  hashed count bs ∨ concat (drop count bs) = [] →
  (0 < count)%nat →
  length (resize_buckets count bs) = count
  ∧ (hashed count bs → hashed count (resize_buckets count bs))
  ∧ concat (resize_buckets count bs) = concat bs.
Proof.
  intros Hd Hc. unfold resize_buckets. split_and!.
  - rewrite length_app, length_take, length_replicate. lia.
  - intros Hh b l v [Hl|[_ Hl]]%lookup_app_Some; [|apply lookup_replicate_nil in Hl as ->;
      by intros ?%not_elem_of_nil].
    apply lookup_take_Some in Hl as [Hl _]. by eapply Hh.
  - rewrite concat_app, concat_replicate_nil, app_nil_r.
    rewrite <- (take_drop count bs) at 2. rewrite concat_app.
    destruct Hd as [Hh| ->]; [|by rewrite app_nil_r].
    destruct (concat (drop count bs)) as [|v r] eqn:E; [by rewrite app_nil_r|]. exfalso.
    assert (v ∈ concat (drop count bs)) as (b & l & Hl & Hv)%elem_of_concat by (rewrite E; left).
    rewrite lookup_drop in Hl. apply (Hh _ _ _ Hl) in Hv.
    pose proof (bucket_num_lt (key v) count). lia.
Qed.

Lemma rehash_spec count s :
  0 < count → wf s →
  let s' := rehash key hash max_size count s in
  wf s' ∧ buckets s' ≠ [] ∧ concat (buckets s') ≡ₚ concat (buckets s)
  ∧ current_size s' = current_size s.
Proof.
  intros Hcount [Hh Hnd]. unfold rehash. cbv zeta. set (c := Z.to_nat _).
  assert (0 < c)%nat as Hc.
  { unfold c. destruct (_ <? _); lia. }
  clearbody c. unfold wf.
  assert (∀ bs' : list (list K), hashed c bs' → length bs' = c → concat bs' ≡ₚ concat (buckets s) →
    (hashed (length bs') bs' ∧ NoDup (key <$> concat bs')) ∧ bs' ≠ []
    ∧ concat bs' ≡ₚ concat (buckets s)) as Hout.
  { intros bs' H1 H2 H3. rewrite H2. split_and!; [done|by rewrite H3| |done].
    intros ->. simpl in H2. lia. }
  destruct (Nat.ltb_spec c (length (buckets s))) as [Hlt|Hge]; rsimpl.
  - destruct (do_rehash_spec c (buckets s)) as (H1 & H2 & H3); [lia|].
    destruct (resize_buckets_spec c (do_rehash key hash c (buckets s))) as (H4 & H5 & H6);
      [by left|done|].
    destruct (Hout (resize_buckets c (do_rehash key hash c (buckets s)))) as (H7 & H8 & H9);
      [by apply H5|done|by rewrite H6|]. done.
  - destruct (resize_buckets_spec c (buckets s)) as (H4 & _ & H6);
      [right; by rewrite drop_ge|done|].
    destruct (do_rehash_spec c (resize_buckets c (buckets s))) as (H1 & H2 & H3); [lia|].
    destruct (Hout (do_rehash key hash c (resize_buckets c (buckets s)))) as (H7 & H8 & H9);
      [done|congruence|by rewrite H3, H6|]. done.
Qed.

Lemma expand_spec s :
  wf s → buckets s ≠ [] →
  let s' := expand key hash max_size s in
  wf s' ∧ buckets s' ≠ [] ∧ concat (buckets s') ≡ₚ concat (buckets s)
  ∧ current_size s' = current_size s.
Proof.
  intros Hwf Hne s'. unfold s', expand. destruct (_ <=? _); [|done]. destruct (_ <=? _); [|done].
  destruct (rehash_spec (Z.of_nat (length (buckets s)) * 2) s) as (H1 & H2 & H3 & H4);
    [destruct (buckets s); simpl; [done|lia]|done|]. unfold wf. rsimpl. done.
Qed.

Lemma add_back_spec v s :
  wf s → buckets s ≠ [] → (∀ w, w ∈ concat (buckets s) → key w ≠ key v) →
  let '(s', it) := add_back key hash v s in
  wf s' ∧ concat (buckets s') ≡ₚ v :: concat (buckets s)
  ∧ current_size s' = u64 (current_size s + 1) ∧ deref_it it s' = Some v.
Proof.
  intros [Hh Hnd] Hne Hv. unfold add_back. rsimpl.
  assert (0 < length (buckets s))%nat as Hlen by (destruct (buckets s); [done|simpl; lia]).
  pose proof (bucket_num_lt (key v) (length (buckets s)) Hlen) as Hlt.
  destruct (push_node_spec (length (buckets s)) (buckets s) v Hh) as (H1 & H2 & H3); [lia|].
  unfold push_node in *. split_and!; [split; rsimpl|rsimpl|rsimpl|].
  - by rewrite H2.
  - rewrite H3. simpl. apply list.NoDup_cons. split; [|done].
    intros (w & Hw & Hin)%list_elem_of_fmap_1. by apply (Hv w Hin).
  - done.
  - done.
  - unfold deref_it. simpl. rsimpl. rewrite list_lookup_alter_eq.
    destruct (lookup_lt_is_Some_2 (buckets s) _ Hlt) as [l Hl]. rewrite Hl. simpl.
    rewrite lookup_app_r by lia. by rewrite Nat.sub_diag.
Qed.
End laws.

(** ** The map that a set stands for *)

Section refinement.
Context {K N : Type} `{Countable N} (key : K → N) (hash : N → Z) (max_size : Z).
Implicit Types (s : hset K) (v : K) (n : N) (m : gmap N K).

(** The counter has not wrapped around, and is at least the number of elements. *)
Definition counts s : Prop := Z.of_nat (length (concat (buckets s))) ≤ current_size s < 2 ^ 64.
Definition rep s m : Prop :=
  wf key hash s ∧ counts s
  ∧ ∀ n v, m !! n = Some v ↔ v ∈ concat (buckets s) ∧ key v = n.

Lemma rep_key s m n v : rep s m → m !! n = Some v → key v = n.
Proof. by intros (_ & _ & Hm) [_ ?]%Hm. Qed.

Lemma rep_new : rep hset_new ∅.
Proof.
  split_and!; [split|done..|].
  - intros b l v Hl. done.
  - apply list.NoDup_nil. done.
  - intros n v. rewrite lookup_empty. split; [done|]. by intros [?%not_elem_of_nil _].
Qed.

Lemma rep_find s m n :
  rep s m →
  deref_it (find key hash n s) s = m !! n ∧ (find key hash n s = None ↔ m !! n = None).
Proof.
  intros (Hwf & _ & Hm). destruct (find key hash n s) as [it|] eqn:E.
  - apply find_Some in E as (v & Hv & Hn). assert (m !! n = Some v) as ->; [|done].
    apply Hm. split; [by eapply deref_elem|done].
  - destruct (m !! n) as [v|] eqn:Em; [|done]. apply Hm in Em as [Hv Hk].
    by destruct (find_None key hash n s v).
Qed.

Lemma rep_contains s m n :
  rep s m → contains key hash n s = bool_decide (is_Some (m !! n)).
Proof.
  intros Hr. destruct (rep_find s m n Hr) as [_ Hn]. unfold contains.
  apply bool_decide_ext. rewrite Hn. by rewrite not_eq_None_Some.
Qed.

Lemma rep_perm s s' m :
  wf key hash s' → concat (buckets s') ≡ₚ concat (buckets s) → current_size s' = current_size s →
  rep s m → rep s' m.
Proof.
  intros Hwf Hp Hc (_ & Hcs & Hm). split_and!; [done| |].
  - unfold counts. by rewrite Hp, Hc.
  - intros n v. by rewrite Hp.
Qed.

Lemma rep_elements s m : rep s m → elements_of s ≡ₚ (map_to_list m).*2.
Proof.
  intros (Hwf & [Hc1 Hc2] & Hm). rewrite elements_concat.
  2:{ intros E. rewrite E in Hc1. by destruct (concat (buckets s)). }
  apply NoDup_Permutation.
  - eapply NoDup_fmap_1, Hwf.
  - apply (NoDup_fmap_1 key). replace (key <$> (map_to_list m).*2) with (map_to_list m).*1.
    { apply NoDup_fst_map_to_list. }
    rewrite <- list_fmap_compose. apply list_fmap_ext. intros i [n v] Hi%list_elem_of_lookup_2.
    apply elem_of_map_to_list in Hi. by apply Hm in Hi as [_ <-].
  - intros v. rewrite list_elem_of_fmap. split.
    + intros Hv. exists (key v, v). split; [done|]. apply elem_of_map_to_list, Hm. done.
    + intros ((n & w) & -> & Hi%elem_of_map_to_list). by apply Hm in Hi as [Hi _].
Qed.

Lemma rep_add_back s m v :
  rep s m → buckets s ≠ [] → m !! key v = None → current_size s < 2 ^ 64 - 1 →
  let '(s', it) := add_back key hash v s in
  rep s' (<[key v := v]> m) ∧ deref_it it s' = Some v
  ∧ current_size s' = current_size s + 1.
Proof.
  intros (Hwf & [Hc1 Hc2] & Hm) Hne Hn Hlt.
  pose proof (add_back_spec key hash v s Hwf Hne) as Hs.
  destruct (add_back key hash v s) as [s' it]. destruct Hs as (Hwf' & Hp & Hc & Hd).
  { intros w Hw Hk. assert (m !! key v = Some w) as E by (by apply Hm). congruence. }
  rewrite u64_small in Hc by lia. split_and!; [split_and!|done|done].
  - done.
  - unfold counts. rewrite Hp, Hc. simpl. lia.
  - intros n w. rewrite Hp, elem_of_cons. destruct (decide (n = key v)) as [->|Hk].
    + rewrite lookup_insert_eq. split; [intros [= ->]; by split; [left|]|].
      intros [[->|Hw] Hk]; [done|]. assert (m !! key v = Some w) as E by (by apply Hm). congruence.
    + rewrite lookup_insert_ne by done. rewrite Hm. split; [by intros [? ?]; split; [right|]|].
      intros [[->|Hw] ?]; [by destruct Hk|done].
Qed.

(** What [insert] promises. *)
Definition inserted v s m (r : hset K * (iterator * bool)) : Prop :=
  let '(s', (it, new)) := r in
  new = bool_decide (m !! key v = None)
  ∧ current_size s ≤ current_size s' ≤ current_size s + 1
  ∧ match m !! key v with
    | Some w => rep s' m ∧ deref_it it s' = Some w ∧ find key hash (key v) s' = it
    | None => rep s' (<[key v := v]> m) ∧ deref_it it s' = Some v
    end.

Lemma rep_insert s m v :
  rep s m → current_size s < 2 ^ 64 - 1 → inserted v s m (insert key hash max_size v s).
Proof.
  intros Hr Hlt. pose proof (rep_find s m (key v) Hr) as [Hd Hn]. unfold insert.
  destruct (buckets s) as [|b0 bs0] eqn:E.
  - assert (find key hash (key v) s = None) as Hf by (unfold find; by rewrite E).
    apply Hn in Hf. set (s1 := s <| buckets := _ |> <| current_limit := _ |>).
    assert (rep s1 m) as Hr1.
    { apply (rep_perm s); [|by rewrite E|done|done]. split; unfold s1; rsimpl.
      - intros b l w Hl. change (resize_buckets 4 []) with (replicate 4 ([] : list K)) in Hl.
        apply lookup_replicate_nil in Hl as ->. by intros ?%not_elem_of_nil.
      - apply list.NoDup_nil. done. }
    pose proof (rep_add_back s1 m v Hr1) as Ha. destruct (add_back key hash v s1) as [s' it].
    destruct Ha as (H1 & H2 & H3); [done|done|done|]. unfold seq, inserted. rewrite Hf.
    split_and!; [done| | |done|done]; rewrite H3; unfold s1; rsimpl; lia.
  - destruct (find key hash (key v) s) as [it|] eqn:Ef.
    + destruct (find_Some key hash (key v) s it Ef) as (w & Hw & _). unfold inserted.
      rewrite Hw in Hd. rewrite <- Hd. rewrite bool_decide_eq_false_2 by done.
      split_and!; [done|lia|lia|done..].
    + pose proof (proj1 Hn eq_refl) as Hnone.
      destruct (expand_spec key hash max_size s) as (H1 & H2 & H3 & H4);
        [by destruct Hr|by rewrite E|].
      pose proof (rep_add_back (expand key hash max_size s) m v) as Ha.
      destruct (add_back key hash v (expand key hash max_size s)) as [s' it].
      destruct Ha as (H5 & H6 & H7); [by apply (rep_perm s)|done|done|by rewrite H4|].
      unfold seq, inserted. rewrite Hnone, H7, H4. split_and!; [done|lia|lia|done|done].
Qed.

Lemma rep_erase s m n :
  rep s m →
  rep (erase key hash n s).1 (delete n m)
  ∧ (erase key hash n s).2 = b2z (bool_decide (is_Some (m !! n)))
  ∧ current_size (erase key hash n s).1 = current_size s.
Proof.
  intros Hr. pose proof (rep_find s m n Hr) as [Hd Hn]. unfold erase.
  destruct (find key hash n s) as [[b i]|] eqn:Ef; cbn [fst snd].
  - destruct (find_Some key hash n s _ Ef) as (v & Hv & Hk). rewrite Hv in Hd. rewrite <- Hd.
    split_and!; [|by rewrite bool_decide_eq_true_2|done].
    destruct Hr as ([Hh Hnd] & [Hc1 Hc2] & Hm).
    apply bind_Some in Hv as (l & Hl & Hv).
    pose proof (concat_alter_delete _ _ _ _ _ Hl Hv) as Hp.
    rewrite Hp in Hnd. simpl in Hnd. apply list.NoDup_cons in Hnd as [Hnin Hnd].
    unfold erase_it. split_and!; [split|..]; rsimpl; simpl.
    + rewrite length_alter. intros b' l' w Hl' Hw. destruct (decide (b = b')) as [->|Hb].
      * rewrite list_lookup_alter_eq in Hl'. rewrite Hl in Hl'. injection Hl' as <-.
        apply (Hh b' l w Hl). apply list_elem_of_lookup in Hw as [j Hj].
        rewrite list_lookup_delete in Hj. case_decide; by eapply list_elem_of_lookup_2.
      * rewrite list_lookup_alter_ne in Hl' by done. by eapply Hh.
    + done.
    + unfold counts. rsimpl. apply Permutation_length in Hp. simpl in Hp. rewrite Hp in Hc1. simpl in Hc1. lia.
    + intros n' w. destruct (decide (n = n')) as [<-|Hne].
      * rewrite lookup_delete_eq. split; [done|]. intros [Hw Hk'].
        destruct Hnin. rewrite Hk, <- Hk'. by apply list_elem_of_fmap_2.
      * rewrite lookup_delete_ne by done. rewrite Hm, Hp, elem_of_cons.
        split; [|by intros [? ?]; split; [right|]]. intros [[->|Hw] ?]; [congruence|done].
  - rewrite <- Hd. rewrite delete_id by (by symmetry; apply Hd). done.
Qed.

Lemma rep_assign s m v it :
  rep s m → find key hash (key v) s = Some it → rep (assign (Some it) v s) (<[key v := v]> m).
Proof.
  intros ([Hh Hnd] & [Hc1 Hc2] & Hm) Hf.
  destruct (find_Some key hash (key v) s _ Hf) as (w & Hw & Hk). destruct it as [b i].
  apply bind_Some in Hw as (l & Hl & Hw).
  destruct (concat_assign (buckets s) b i l v w Hl Hw) as (rest & Hp & Hp').
  split_and!; [split|..]; unfold assign; rsimpl.
  - rewrite length_alter. intros b' l' u Hl' Hu. destruct (decide (b = b')) as [->|Hb].
    + rewrite list_lookup_alter_eq, Hl in Hl'. injection Hl' as <-.
      apply list_elem_of_lookup in Hu as [j Hj]. destruct (decide (i = j)) as [->|Hij].
      * rewrite list_lookup_insert_eq in Hj by (by eapply lookup_lt_Some).
        injection Hj as <-. rewrite <- Hk. apply (Hh b' l w Hl). by eapply list_elem_of_lookup_2.
      * rewrite list_lookup_insert_ne in Hj by done. apply (Hh b' l u Hl).
        by eapply list_elem_of_lookup_2.
    + rewrite list_lookup_alter_ne in Hl' by done. by eapply Hh.
  - rewrite Hp in Hnd. rewrite Hp'. simpl in *. by rewrite <- Hk.
  - unfold counts. rsimpl. rewrite Hp in Hc1. rewrite Hp'. simpl in *. lia.
  - rewrite Hp in Hnd. simpl in Hnd. apply list.NoDup_cons in Hnd as [Hnin _].
    intros n u. rewrite Hp', elem_of_cons. destruct (decide (n = key v)) as [->|Hn].
    + rewrite lookup_insert_eq. split; [intros [= ->]; by split; [left|]|].
      intros [[->|Hu] E]; [done|]. destruct Hnin. rewrite Hk, <- E. by apply list_elem_of_fmap_2.
    + rewrite lookup_insert_ne by done. rewrite Hm, Hp, elem_of_cons. split.
      * intros [[->|Hu] ?]; [congruence|]. split; [by right|done].
      * intros [[->|Hu] ?]; [congruence|]. split; [by right|done].
Qed.
End refinement.

(** ** Sequences of operations *)

Section runs.
Context {K N : Type} `{Countable N} (key : K → N) (hash : N → Z) (max_size : Z).
Implicit Types (s : hset K) (m : gmap N K).

Variant operation := Insert (v : K) | Erase (n : N) | Clear.
Definition run_op s (o : operation) : hset K :=
  match o with
  | Insert v => (insert key hash max_size v s).1
  | Erase n => (erase key hash n s).1
  | Clear => clear s
  end.
(** On finite maps: an element that is there already is kept. *)
Definition map_op m (o : operation) : gmap N K :=
  match o with
  | Insert v => match m !! key v with Some _ => m | None => <[key v := v]> m end
  | Erase n => delete n m
  | Clear => ∅
  end.

Lemma run_op_rep s m o :
  rep key hash s m → current_size s < 2 ^ 64 - 1 →
  rep key hash (run_op s o) (map_op m o) ∧ current_size (run_op s o) ≤ current_size s + 1.
Proof.
  intros Hr Hlt. destruct o as [v|n|]; cbn [run_op map_op].
  - pose proof (rep_insert key hash max_size s m v Hr Hlt) as Hi.
    destruct (insert key hash max_size v s) as (s' & it & new). destruct Hi as (_ & [_ Hc] & Hi).
    cbn [fst]. split; [|done]. by destruct (m !! key v); destruct Hi.
  - destruct (rep_erase key hash s m n Hr) as (H1 & _ & H2). rewrite H2. split; [done|lia].
  - split; [apply rep_new|]. destruct Hr as (_ & [Hc _] & _). simpl. lia.
Qed.

Lemma run_rep ops s m :
  rep key hash s m → current_size s + Z.of_nat (length ops) < 2 ^ 64 →
  rep key hash (foldl run_op s ops) (foldl map_op m ops).
Proof.
  revert s m. induction ops as [|o ops IH]; intros s m Hr Hlt; [done|]. cbn [foldl]. simpl in Hlt.
  destruct (run_op_rep s m o Hr) as [H1 H2]; [lia|]. apply IH; [done|]. lia.
Qed.
End runs.
Arguments operation : clear implicits.

(** C38: The hash set of [dinit-util.h] implements a finite map, whatever the hash function
    is.  After any sequence of insertions, removals and clearings (fewer than 2^64) a search
    finds exactly the element that the map has for the key, [contains] tells whether there is
    one, and a loop over the set visits each element exactly once. *)
Theorem hash_set_refines {K N} `{Countable N} (key : K → N) (hash : N → Z) (max_size : Z)
    (ops : list (operation K N)) :
  Z.of_nat (length ops) < 2 ^ 64 →
  let s := foldl (run_op key hash max_size) hset_new ops in
  let m : gmap N K := foldl (map_op key) ∅ ops in
  (∀ n, deref_it (find key hash n s) s = m !! n
        ∧ contains key hash n s = bool_decide (is_Some (m !! n)))
  ∧ elements_of s ≡ₚ (map_to_list m).*2.
Proof.
  intros Hlen s m.
  assert (rep key hash s m) as Hr by (apply run_rep; [apply rep_new|done]).
  split; [intros n; split|].
  - by apply rep_find.
  - by apply rep_contains.
  - by eapply rep_elements.
Qed.

(** Numbers with their remainders modulo 100 as keys, all in the same bucket. *)
Definition clashes : list (operation Z Z) :=
  [Insert 101; Insert 2; Insert 3; Insert 4; Insert 201; Erase 2; Insert 302].

Lemma hash_set_refines_witness :
  deref_it (find (λ v, v mod 100) (λ _, 7) 2
    (foldl (run_op (λ v, v mod 100) (λ _, 7) (2 ^ 60)) hset_new clashes))
    (foldl (run_op (λ v, v mod 100) (λ _, 7) (2 ^ 60)) hset_new clashes) = Some 302.
Proof.
  destruct (hash_set_refines (λ v, v mod 100) (λ _, 7) (2 ^ 60) clashes) as [H _].
  - vm_compute. reflexivity.
  - rewrite (proj1 (H 2)). vm_compute. reflexivity.
Defined.

(** Removals are not counted: [size] is the number of insertions since the set was
    cleared. *)
Lemma size_after_erase :
  let s := foldl (run_op (λ v, v) (λ v, v) (2 ^ 60)) hset_new [Insert 1; Erase 1] in
  elements_of s = [] ∧ size s = 1 ∧ is_empty s = false.
Proof. vm_compute. done. Qed.
