(* ===== verification/EnvLaws.v ===== *)
(** * The laws of environments

    The reference definition of an environment is the last operation on each variable. *)

From S2P Require Import Prelude Text HashSet HashSetLaws Env.
Import dinit_unordered_set.

(** ** Names *)

Definition name_ok (n : text) : bool := forallb (λ c, negb (c =? 0) && negb (c =? EQUALS)) n.
Definition setting_ok (v : text) : bool := has_eq v && name_ok (name_part v).

Lemma has_eq_cons c v : has_eq (c :: v) = (EQUALS =? c) || has_eq v.
Proof. done. Qed.
Lemma name_part_cons c v : name_part (c :: v) = if c =? EQUALS then [] else c :: name_part v.
Proof. done. Qed.
Lemma c_str_cons c v : c_str (c :: v) = if c =? 0 then [] else c :: c_str v.
Proof. done. Qed.
#[local] Arguments has_eq : simpl never.
#[local] Arguments name_part : simpl never.
#[local] Arguments c_str : simpl never.
#[local] Arguments Z.eqb : simpl never.

Lemma name_ok_cons c n : name_ok (c :: n) = true ↔ c ≠ 0 ∧ c ≠ EQUALS ∧ name_ok n = true.
Proof.
  unfold name_ok. cbn [forallb]. rewrite !andb_true_iff, !negb_true_iff, !Z.eqb_neq. tauto.
Qed.

Lemma c_str_ok n : name_ok n = true → c_str n = n.
Proof.
  induction n as [|c n IH]; [done|]. intros (H0 & _ & H)%name_ok_cons.
  rewrite c_str_cons, (proj2 (Z.eqb_neq c 0)) by done. by rewrite IH.
Qed.

Lemma find_var_name_ok v : setting_ok v = true → find_var_name v = name_part v.
Proof.
  unfold setting_ok, find_var_name. intros [He Hn]%andb_true_iff. induction v as [|c v IH]; [done|].
  rewrite has_eq_cons in He. rewrite name_part_cons in Hn |- *. rewrite c_str_cons.
  destruct (Z.eqb_spec c EQUALS) as [->|Hc]; [done|].
  apply name_ok_cons in Hn as (H0 & _ & Hn). rewrite (proj2 (Z.eqb_neq c 0)) by done.
  rewrite name_part_cons, (proj2 (Z.eqb_neq c EQUALS)) by done. f_equal. apply IH; [|done].
  apply orb_true_iff in He as [He%Z.eqb_eq|He]; [congruence|done].
Qed.

(** A setting is its name, '=' and its value. *)
Lemma setting_split v : has_eq v = true → ∃ val, v = name_part v ++ EQUALS :: val.
Proof.
  induction v as [|c v IH]; [done|]. rewrite has_eq_cons, name_part_cons. intros H.
  destruct (Z.eqb_spec c EQUALS) as [->|Hc]; [by exists v|].
  apply orb_true_iff in H as [H%Z.eqb_eq|H]; [congruence|]. destruct (IH H) as [val E].
  exists val. cbn [app]. by f_equal.
Qed.

Lemma equals_back v : has_eq v = true → <[length (name_part v) := EQUALS]> v = v.
Proof.
  intros H. destruct (setting_split v H) as [val E]. apply list_insert_id.
  assert (∀ n, v = n ++ EQUALS :: val → v !! length n = Some EQUALS) as Hn; [|by apply Hn].
  intros n ->. rewrite lookup_app_r by lia. by rewrite Nat.sub_diag.
Qed.

(** [getenv] finds the first entry of the name. *)
Lemma starts_with_name entry n :
  name_ok n = true →
  starts_with entry (n ++ [EQUALS]) = has_eq entry && bool_decide (name_part entry = n).
Proof.
  revert entry. induction n as [|c n IH]; intros [|d entry] Hn; [done| |done|];
    rewrite has_eq_cons, name_part_cons; cbn [app starts_with].
  - destruct (Z.eqb_spec EQUALS d) as [<-|Hd].
    + by destruct entry.
    + rewrite (proj2 (Z.eqb_neq d EQUALS)) by congruence. rewrite bool_decide_eq_false_2 by done.
      by rewrite andb_false_r.
  - apply name_ok_cons in Hn as (_ & Hc & Hn). rewrite IH by done.
    destruct (Z.eqb_spec c d) as [<-|Hd].
    + rewrite (proj2 (Z.eqb_neq EQUALS c)) by congruence.
      rewrite (proj2 (Z.eqb_neq c EQUALS)) by done. cbn. f_equal. apply bool_decide_ext.
      split; [by intros ->|by intros [= ->]].
    + cbn [andb]. destruct (Z.eqb_spec d EQUALS); rewrite bool_decide_eq_false_2 by congruence;
        by rewrite andb_false_r.
Qed.

Section building.
Context (environ : list text).
Implicit Types (e : environment) (n v : text) (m : env_map).

Lemma getenv_ok n :
  name_ok n = true →
  getenv environ n
  = List.find (λ entry, has_eq entry && bool_decide (name_part entry = n)) environ.
Proof.
  intros Hn. unfold getenv. rewrite c_str_ok by done. induction environ as [|x l IH]; [done|].
  simpl. rewrite starts_with_name by done. by destruct (_ && _).
Qed.

Lemma getenv_Some n v :
  name_ok n = true → getenv environ n = Some v →
  v ∈ environ ∧ has_eq v = true ∧ name_part v = n.
Proof.
  intros Hn. rewrite getenv_ok by done. intros [H1 H2]%find_some.
  apply andb_true_iff in H2 as [H2 H3%bool_decide_eq_true_1]. split; [|done].
  by apply list_elem_of_In.
Qed.

(** ** Mappings *)

(** The entry of a variable in a mapping. *)
Definition entry_of n m : option text :=
  pos ← var_map m !! n; mjoin (env_list m !! pos).

Record mapping (m : env_map) (l : list text) : Prop := {
  map_list : env_list m = Some <$> l;
  map_var n pos : var_map m !! n = Some pos →
    ∃ v, l !! pos = Some v ∧ name_part v = n;
  map_all v : v ∈ l → has_eq v = true ∧ is_Some (var_map m !! name_part v)
}.

Lemma mapping_new : mapping env_map_new [].
Proof.
  split; [done|..]; simpl.
  - intros n pos. by rewrite lookup_empty.
  - by intros v ?%not_elem_of_nil.
Qed.

Lemma mapping_lookup m l n :
  mapping m l → Env.lookup n m = drop (S (length n)) <$> entry_of n m.
Proof.
  intros [Hl Hv _]. unfold Env.lookup, entry_of. destruct (var_map m !! n) as [pos|] eqn:E; [|done].
  destruct (Hv _ _ E) as (v & Hp & _). simpl. rewrite Hl, list_lookup_fmap, Hp. done.
Qed.

Lemma mapping_entry m l n pos v :
  mapping m l → var_map m !! n = Some pos → l !! pos = Some v → entry_of n m = Some v.
Proof.
  intros [Hl _ _] Hn Hp. unfold entry_of. rewrite Hn. simpl.
  by rewrite Hl, list_lookup_fmap, Hp.
Qed.
Lemma mapping_entry_None m l n : mapping m l → entry_of n m = None ↔ var_map m !! n = None.
Proof.
  intros H. destruct (var_map m !! n) as [pos|] eqn:E.
  - destruct (map_var _ _ H _ _ E) as (v & Hv & _). by rewrite (mapping_entry m l n pos v).
  - unfold entry_of. by rewrite E.
Qed.

(** With one entry for each name, the list and the map say the same. *)
Lemma mapping_elem m l v :
  mapping m l → NoDup (name_part <$> l) → v ∈ l ↔ entry_of (name_part v) m = Some v.
Proof.
  intros H Hnd. split.
  - intros Hv. destruct (map_all _ _ H v Hv) as (_ & pos & Hp).
    destruct (map_var _ _ H _ _ Hp) as (w & Hw & Hn). rewrite (mapping_entry m l _ pos w) by done.
    f_equal. eapply (NoDup_fmap_eq name_part); [done| |done|done]. by eapply list_elem_of_lookup_2.
  - unfold entry_of. intros (pos & Hp & Hj)%bind_Some.
    destruct (map_var _ _ H _ _ Hp) as (w & Hw & _).
    rewrite (map_list _ _ H), list_lookup_fmap, Hw in Hj. simpl in Hj. injection Hj as ->.
    by eapply list_elem_of_lookup_2.
Qed.

Lemma push_entry_spec m l n v :
  mapping m l → name_part v = n → has_eq v = true →
  mapping (push_entry n v m) (l ++ [v])
  ∧ ∀ k, entry_of k (push_entry n v m)
         = match entry_of k m with
           | Some w => Some w
           | None => if decide (k = n) then Some v else None
           end.
Proof.
  intros H Hn He. assert (mapping (push_entry n v m) (l ++ [v])) as Hm.
  { destruct H as [Hl Hv Ha]. unfold push_entry, insert_new. split; simpl.
    - by rewrite Hl, fmap_app.
    - intros k pos. rewrite Hl, length_fmap. destruct (var_map m !! n) eqn:E.
      + intros Hk. destruct (Hv _ _ Hk) as (w & Hw & ?). exists w. split; [|done].
        by apply lookup_app_l_Some.
      + destruct (decide (k = n)) as [->|Hk].
        * rewrite lookup_insert_eq. intros [= <-]. exists v.
          rewrite lookup_app_r by lia. by rewrite Nat.sub_diag.
        * rewrite lookup_insert_ne by done. intros Hp. destruct (Hv _ _ Hp) as (w & Hw & ?).
          exists w. split; [|done]. by apply lookup_app_l_Some.
    - intros w [Hw| ->%list_elem_of_singleton]%elem_of_app.
      + destruct (Ha w Hw) as [? [pos Hp]]. split; [done|].
        destruct (var_map m !! n) eqn:E; [by eexists|].
        rewrite lookup_insert_ne by congruence. by eexists.
      + rewrite Hn. split; [done|]. destruct (var_map m !! n) eqn:E; [by eexists|].
        rewrite lookup_insert_eq. by eexists. }
  split; [done|]. intros k. destruct (entry_of k m) as [w|] eqn:E.
  - unfold entry_of in E. apply bind_Some in E as (pos & Hp & Hj).
    destruct (map_var _ _ H _ _ Hp) as (w' & Hw & _).
    rewrite (map_list _ _ H), list_lookup_fmap, Hw in Hj. simpl in Hj. injection Hj as ->.
    eapply mapping_entry; [done| |by apply lookup_app_l_Some].
    unfold push_entry, insert_new. simpl. destruct (var_map m !! n) eqn:En; [done|].
    rewrite lookup_insert_ne by congruence. done.
  - apply (mapping_entry_None m l) in E; [|done]. case_decide as Hk; [subst k|].
    + eapply mapping_entry; [done| |].
      * unfold push_entry, insert_new. simpl. rewrite E. by rewrite lookup_insert_eq.
      * rewrite (map_list _ _ H), length_fmap. rewrite lookup_app_r by lia. by rewrite Nat.sub_diag.
    + apply (mapping_entry_None _ (l ++ [v])); [done|]. unfold push_entry, insert_new. simpl.
      destruct (var_map m !! n); [done|]. by rewrite lookup_insert_ne.
Qed.

Definition distinct (l : list text) : Prop := NoDup (name_part <$> l).

Lemma push_entry_distinct m l n v :
  mapping m l → name_part v = n → entry_of n m = None → distinct l → distinct (l ++ [v]).
Proof.
  intros H Hn Hk Hnd. unfold distinct. rewrite fmap_app. apply list.NoDup_app. split_and!; [done|..].
  - intros k (w & -> & Hw)%list_elem_of_fmap. intros E%list_elem_of_singleton.
    destruct (map_all _ _ H w Hw) as (_ & pos & Hp). rewrite E, Hn in Hp.
    apply (mapping_entry_None m l) in Hk; [|done]. congruence.
  - apply NoDup_singleton.
Qed.

Lemma add_own_spec m l v :
  mapping m l → has_eq v = true →
  ∃ l', mapping (add_own v m) l' ∧ (distinct l → distinct l')
  ∧ ∀ k, entry_of k (add_own v m) = if decide (k = name_part v) then Some v else entry_of k m.
Proof.
  intros H He. unfold add_own. destruct (var_map m !! name_part v) as [pos|] eqn:E.
  - destruct (map_var _ _ H _ _ E) as (w & Hw & Hn).
    pose proof (lookup_lt_Some _ _ _ Hw) as Hlt.
    assert (name_part <$> <[pos:=v]> l = name_part <$> l) as Hnames.
    { rewrite list_fmap_insert. apply list_insert_id. rewrite list_lookup_fmap, Hw. cbn. by rewrite Hn. }
    assert (mapping (m <| env_list ::= <[pos:=Some v]> |>) (<[pos:=v]> l)) as Hm.
    { destruct H as [Hl Hv Ha]. split; rsimpl.
      - by rewrite Hl, list_fmap_insert.
      - intros n p Hp. destruct (Hv n p Hp) as (u & Hu & Hnu).
        assert ((name_part <$> <[pos:=v]> l) !! p = Some n) as Hlk
          by (by rewrite Hnames, list_lookup_fmap, Hu, <- Hnu).
        rewrite list_lookup_fmap in Hlk. apply fmap_Some in Hlk as (u' & Hu' & ->). by exists u'.
      - intros u (j & Hj)%list_elem_of_lookup.
        apply list_lookup_insert_Some in Hj as [(_ & <- & _)|[_ Hj]].
        + rewrite E. by split.
        + apply Ha. by eapply list_elem_of_lookup_2. }
    exists (<[pos:=v]> l). split; [done|]. split; [by unfold distinct; rewrite Hnames|].
    intros k. case_decide as Hk; [subst k|].
    + eapply mapping_entry; [done|done|]. by apply list_lookup_insert_eq.
    + destruct (entry_of k m) as [u|] eqn:Eu.
      * unfold entry_of in Eu. apply bind_Some in Eu as (p & Hp & Hj).
        destruct (map_var _ _ H _ _ Hp) as (u' & Hu' & Hku).
        rewrite (map_list _ _ H), list_lookup_fmap, Hu' in Hj. simpl in Hj. injection Hj as ->.
        eapply mapping_entry; [done|done|]. rewrite list_lookup_insert_ne; [done|].
        intros <-. congruence.
      * apply (mapping_entry_None _ (<[pos:=v]> l)); [done|].
        by apply (mapping_entry_None m l) in Eu.
  - destruct (push_entry_spec m l (name_part v) v H) as [Hm Hk]; [done..|].
    assert (push_entry (name_part v) v m
            = Env_map (env_list m ++ [Some v]) (<[name_part v:=length (env_list m)]> (var_map m)))
      as Heq by (unfold push_entry, insert_new; by rewrite E).
    rewrite Heq in *. exists (l ++ [v]). split; [done|]. split.
    + intros Hnd. eapply push_entry_distinct; [done..| |done]. by apply (mapping_entry_None m l).
    + intros k. rewrite Hk. destruct (entry_of k m) as [w|] eqn:Ek; [|done].
      case_decide as Hkn; [|done]. subst k. apply (mapping_entry_None m l) in E; [|done]. congruence.
Qed.

(** *** The loops *)

Lemma own_loop m l vs :
  mapping m l → (∀ v, v ∈ vs → has_eq v = true) →
  ∃ l', mapping (for_each vs add_own m) l' ∧ (distinct l → distinct l')
  ∧ ∀ k, (∃ v, v ∈ vs ∧ name_part v = k ∧ entry_of k (for_each vs add_own m) = Some v)
         ∨ (∀ v, v ∈ vs → name_part v ≠ k)
           ∧ entry_of k (for_each vs add_own m) = entry_of k m.
Proof.
  revert m l. induction vs as [|v vs IH]; intros m l H He.
  - exists l. split_and!; [done..|]. intros k. right. split; [|done]. by intros v ?%not_elem_of_nil.
  - rewrite for_each_cons. destruct (add_own_spec m l v H) as (l1 & H1 & Hd1 & Hk1);
      [apply He; left|].
    destruct (IH _ l1 H1) as (l2 & H2 & Hd2 & Hk2); [intros w Hw; apply He; by right|].
    exists l2. split; [done|]. split; [auto|]. intros k.
    destruct (Hk2 k) as [(w & Hw & Hn & Hr)|[Hnone Hr]].
    + left. exists w. split_and!; [by right|done..].
    + rewrite Hk1 in Hr. case_decide as Hk.
      * left. exists v. split_and!; [left|done..].
      * right. split; [|done]. intros w [->|Hw]%elem_of_cons; [congruence|by apply Hnone].
Qed.

Lemma for_each_when (c : text → bool) vs m :
  for_each vs (λ v, when (c v) (add_own v)) m = for_each (filter (λ v, c v = true) vs) add_own m.
Proof.
  revert m. induction vs as [|v vs IH]; intros m; [done|].
  rewrite for_each_cons, filter_cons, IH. by destruct (c v).
Qed.

Lemma real_loop e ex m l es :
  mapping m l →
  ∃ l', mapping (for_each es (import_real e ex) m) l'
  ∧ (distinct (l ++ filter (λ x, has_eq x = true) es) → distinct l')
  ∧ ∀ k, entry_of k (for_each es (import_real e ex) m)
    = match entry_of k m with
      | Some w => Some w
      | None => if has_name k (undefine e) || has_name k ex then None
                else List.find (λ x, has_eq x && bool_decide (name_part x = k)) es
      end.
Proof.
  revert m l. induction es as [|x es IH]; intros m l H.
  - exists l. rewrite app_nil_r. split_and!; [done..|]. intros k. cbn.
    destruct (entry_of k m); [done|]. by destruct (_ || _).
  - rewrite for_each_cons. unfold import_real at 2 4.
    rewrite filter_cons. cbn [List.find]. destruct (has_eq x) eqn:He; cbn [negb andb].
    2:{ destruct (IH m l H) as (l' & H1 & H2 & H3). exists l'. by split_and!. }
    rewrite decide_True by done. destruct (has_name (name_part x) (undefine e) || has_name (name_part x) ex) eqn:Hu.
    + destruct (IH m l H) as (l' & H1 & H2 & H3). exists l'. split_and!; [done|..].
      * intros Hd. apply H2. unfold distinct in *. rewrite fmap_app in *. cbn in Hd.
        apply list.NoDup_app in Hd as (Ha & Hb & Hc). apply list.NoDup_cons in Hc as [_ Hc].
        apply list.NoDup_app. split_and!; [done| |done]. intros n Hn Hn'. apply (Hb n Hn). by right.
      * intros k. rewrite H3. destruct (entry_of k m); [done|].
        destruct (bool_decide_reflect (name_part x = k)) as [<-|Hk]; [|done]. by rewrite Hu.
    + destruct (push_entry_spec m l (name_part x) x H) as [Hm Hk]; [done..|].
      destruct (IH _ _ Hm) as (l' & H1 & H2 & H3). exists l'. split_and!; [done|..].
      * intros Hd. apply H2. by rewrite <- app_assoc.
      * intros k. rewrite H3, Hk. destruct (entry_of k m); [done|].
        destruct (bool_decide_reflect (name_part x = k)) as [<-|Hne].
        -- rewrite decide_True by done. by rewrite Hu.
        -- by rewrite decide_False by congruence.
Qed.

Lemma named_loop (g : text → option text) m l ns :
  mapping m l → NoDup ns →
  (∀ n v, n ∈ ns → g n = Some v → has_eq v = true ∧ name_part v = n) →
  (∀ n, n ∈ ns → entry_of n m = None) →
  ∃ l', mapping (for_each ns (import_named g) m) l' ∧ (distinct l → distinct l')
  ∧ ∀ k, entry_of k (for_each ns (import_named g) m)
         = if decide (k ∈ ns) then g k else entry_of k m.
Proof.
  revert m l. induction ns as [|n ns IH]; intros m l H Hnd Hg Hnone.
  - exists l. split_and!; [done..|]. intros k. rewrite decide_False; [done|apply not_elem_of_nil].
  - rewrite for_each_cons. apply list.NoDup_cons in Hnd as [Hnin Hnd].
    unfold import_named at 2 4. destruct (g n) as [v|] eqn:Eg.
    + destruct (Hg n v) as [He Hn]; [left|done|].
      destruct (push_entry_spec m l n v H Hn He) as [Hm Hk].
      destruct (IH _ _ Hm Hnd) as (l' & H1 & H2 & H3).
      { intros n' w Hn'. apply Hg. by right. }
      { intros n' Hn'. rewrite Hk, Hnone by (by right). rewrite decide_False; [done|]. congruence. }
      exists l'. split; [done|]. split.
      * intros Hd. apply H2. eapply push_entry_distinct; [done..| |done]. apply Hnone. left.
      * intros k. rewrite H3, Hk. destruct (decide (k ∈ ns)) as [Hin|Hin].
        -- rewrite decide_True; [done|by right].
        -- destruct (decide (k = n)) as [->|Hkn].
           ++ rewrite Hnone by left. rewrite decide_True; [done|left].
           ++ rewrite (decide_False (P := k ∈ n :: ns)) by (by rewrite not_elem_of_cons).
              by destruct (entry_of k m).
    + destruct (IH m l H Hnd) as (l' & H1 & H2 & H3).
      { intros n' w Hn'. apply Hg. by right. }
      { intros n' Hn'. apply Hnone. by right. }
      exists l'. split; [done|]. split; [done|]. intros k. rewrite H3.
      destruct (decide (k ∈ ns)) as [Hin|Hin].
      * rewrite decide_True; [done|by right].
      * destruct (decide (k = n)) as [->|Hkn].
        -- rewrite Hnone by left. rewrite decide_True; [done|left].
        -- by rewrite (decide_False (P := k ∈ n :: ns)) by (by rewrite not_elem_of_cons).
Qed.
End building.
