(* ===== verification/EnvProps.v ===== *)
(** * Environments: the theorems *)

From S2P Require Import Prelude Text HashSet HashSetLaws Env EnvLaws.
Import dinit_unordered_set.

(** ** The reference definition

    What is kept for each variable is the last operation on it. *)

Variant override := Value (v : text) | Unset | Import.
Record env_spec := Env_spec { inherits : bool; overrides : gmap text override }.
#[export] Instance eta_env_spec : Eta env_spec := λ e, Env_spec (inherits e) (overrides e).

Variant env_op :=
  | Set_var (v : text) (notify : bool)
  | Import_parent_var (n : text)
  | Undefine_var (n : text) (notify : bool)
  | Clear_no_inherit.

Definition op_ok (o : env_op) : bool :=
  match o with
  | Set_var v _ => setting_ok v
  | Import_parent_var n | Undefine_var n _ => name_ok n
  | Clear_no_inherit => true
  end.

Definition run_env_op (environ : list text) (e : environment) (o : env_op) : environment :=
  match o with
  | Set_var v notify => (set_var environ v notify e).1
  | Import_parent_var n => import_parent_var n e
  | Undefine_var n notify => (undefine_var environ n notify e).1
  | Clear_no_inherit => clear_no_inherit e
  end.

Definition spec_op (sp : env_spec) (o : env_op) : env_spec :=
  match o with
  | Set_var v _ => sp <| overrides ::= <[name_part v := Value v]> |>
  | Import_parent_var n =>
      sp <| overrides ::= λ m, if inherits sp then delete n m else <[n := Import]> m |>
  | Undefine_var n _ =>
      sp <| overrides ::= λ m, if inherits sp then <[n := Unset]> m else delete n m |>
  | Clear_no_inherit => Env_spec false ∅
  end.

(** The entry NAME=VALUE that a variable ends up with. *)
Definition spec_entry (environ : list text) (sp : env_spec) (n : text) : option text :=
  match overrides sp !! n with
  | Some (Value v) => Some v
  | Some Unset => None
  | Some Import => getenv environ n
  | None => if inherits sp then getenv environ n else None
  end.

(** ** The refinement *)

Section refinement.
Context (environ : list text).
Implicit Types (e : environment) (sp : env_spec) (n v : text).

(** The three sets. *)
Record env_sets e (mi mu ms : gmap text text) : Prop := {
  sets_import : rep id hash (import_from_parent e) mi;
  sets_undefine : rep id hash (undefine e) mu;
  sets_set : rep name_part hash (set_vars e) ms
}.

Record env_rep (k : Z) e sp mi mu ms : Prop := {
  er_sets : env_sets e mi mu ms;
  er_size : current_size (import_from_parent e) ≤ k ∧ current_size (undefine e) ≤ k
            ∧ current_size (set_vars e) ≤ k;
  er_keep : keep_parent_env e = inherits sp;
  er_import : if inherits sp then mi = ∅ else mu = ∅;
  er_settings n v : ms !! n = Some v → has_eq v = true;
  er_names n v : mi !! n = Some v → name_ok n = true;
  er_disjoint n v : ms !! n = Some v → mi !! n = None;
  er_overrides n : overrides sp !! n =
    match ms !! n with
    | Some v => Some (Value v)
    | None =>
        match mu !! n, mi !! n with
        | Some _, _ => Some Unset
        | None, Some _ => Some Import
        | None, None => None
        end
    end
}.

Lemma env_rep_new : env_rep 0 environment_new (Env_spec true ∅) ∅ ∅ ∅.
Proof.
  split; [split; apply rep_new|done|done|done|..]; intros n; rewrite ?lookup_empty; done.
Qed.

(** The bound on the number of insertions. *)
Definition sizes (k : Z) e : Prop :=
  current_size (import_from_parent e) ≤ k ∧ current_size (undefine e) ≤ k
  ∧ current_size (set_vars e) ≤ k.

Lemma rep_write v s m k :
  rep name_part hash s m → current_size s ≤ k → k < 2 ^ 64 - 1 →
  let '(s', (it, new)) := insert_setting v s in
  let s' := if new then s' else assign it v s' in
  rep name_part hash s' (<[name_part v := v]> m) ∧ current_size s' ≤ k + 1.
Proof.
  intros Hr Hs Hk. pose proof (rep_insert name_part hash vector_max_size s m v Hr) as Hins.
  unfold insert_setting. destruct (insert _ _ _ v s) as (s' & it & new).
  destruct Hins as (-> & [_ Hc] & Hins); [lia|].
  destruct (m !! name_part v) as [w|].
  - rewrite bool_decide_eq_false_2 by done. destruct Hins as (Hr' & Hd & Hf).
    destruct it as [[b i]|]; [|done]. split; [by apply rep_assign|].
    change (current_size s' ≤ k + 1). lia.
  - rewrite bool_decide_eq_true_2 by done. destruct Hins as [Hr' _]. split; [done|lia].
Qed.

Lemma rep_name n s m k :
  rep id hash s m → current_size s ≤ k → k < 2 ^ 64 - 1 →
  rep id hash (insert_name n s).1 (<[n := n]> m)
  ∧ current_size (insert_name n s).1 ≤ k + 1.
Proof.
  intros Hr Hs Hk. pose proof (rep_insert id hash vector_max_size s m n Hr) as Hins.
  unfold insert_name. destruct (insert _ _ _ n s) as (s' & it & new).
  destruct Hins as (-> & [_ Hc] & Hins); [lia|]. change (id n) with n in *. cbn [fst].
  split; [|lia]. destruct (m !! n) as [w|] eqn:Ew; [|by destruct Hins].
  rewrite insert_id; [by destruct Hins|]. by rewrite <- (rep_key id hash s m n w Hr Ew) at 2.
Qed.

Lemma set_var_run v notify e k mi mu ms :
  setting_ok v = true → env_sets e mi mu ms → k < 2 ^ 64 - 1 → sizes k e →
  let e' := (set_var environ v notify e).1 in
  env_sets e' (delete (name_part v) mi) (delete (name_part v) mu) (<[name_part v := v]> ms)
  ∧ keep_parent_env e' = keep_parent_env e ∧ sizes (k + 1) e'.
Proof.
  intros Hv [Hi Hu Hs] Hk (Hki & Hku & Hks) e'. unfold e', set_var. rewrite find_var_name_ok by done.
  destruct (rep_erase id hash _ _ (name_part v) Hi) as (Hi1 & _ & Hi2).
  destruct (rep_erase id hash _ _ (name_part v) Hu) as (Hu1 & _ & Hu2).
  unfold seq. rsimpl. unfold erase_name in *.
  destruct (erase id hash (name_part v) (undefine e)) as [u r] eqn:Eu. cbn [fst snd] in *.
  rewrite equals_back by (by apply andb_true_iff in Hv as [? _]).
  replace (if notify && (r =? 0) then v else v) with v by (by destruct (_ && _)).
  rsimpl. pose proof (rep_write v _ _ k Hs Hks Hk) as Hw.
  destruct (insert_setting v (set_vars e)) as (s' & it & new). destruct Hw as [Hw1 Hw2].
  unfold sizes. destruct new; cbn [when negb fst]; rsimpl; rewrite ?Hi2, ?Hu2;
    (split_and!; [by split|done|lia|lia|exact Hw2]).
Qed.

Lemma undefine_var_run n notify e k mi mu ms :
  env_sets e mi mu ms → k < 2 ^ 64 - 1 → sizes k e →
  let e' := (undefine_var environ n notify e).1 in
  env_sets e' (delete n mi) (if keep_parent_env e then <[n := n]> mu else mu) (delete n ms)
  ∧ keep_parent_env e' = keep_parent_env e ∧ sizes (k + 1) e'.
Proof.
  intros [Hi Hu Hs] Hk (Hki & Hku & Hks) e'. unfold e', undefine_var.
  destruct (rep_erase id hash _ _ n Hi) as (Hi1 & _ & Hi2).
  destruct (rep_erase name_part hash _ _ n Hs) as (Hs1 & _ & Hs2).
  unfold seq. rsimpl. unfold erase_name, erase_setting in *.
  destruct (erase name_part hash n (set_vars e)) as [s r]. cbn [fst snd] in *. rsimpl.
  destruct (rep_name n _ _ k Hu Hku Hk) as [Hu1 Hu2]. unfold sizes.
  destruct (keep_parent_env e) eqn:Ek; cbn [when]; rsimpl; rewrite ?Hi2, ?Hs2;
    (split_and!; [by split|done|lia|lia|lia]).
Qed.

Lemma import_parent_var_run n e k mi mu ms :
  env_sets e mi mu ms → k < 2 ^ 64 - 1 → sizes k e →
  let e' := import_parent_var n e in
  env_sets e' (if keep_parent_env e then mi else <[n := n]> mi) (delete n mu) (delete n ms)
  ∧ keep_parent_env e' = keep_parent_env e ∧ sizes (k + 1) e'.
Proof.
  intros [Hi Hu Hs] Hk (Hki & Hku & Hks) e'. unfold e', import_parent_var.
  destruct (rep_erase id hash _ _ n Hu) as (Hu1 & _ & Hu2).
  destruct (rep_erase name_part hash _ _ n Hs) as (Hs1 & _ & Hs2).
  unfold seq. rsimpl. unfold erase_name, erase_setting in *.
  destruct (rep_name n _ _ k Hi Hki Hk) as [Hi1 Hi2]. unfold sizes.
  destruct (keep_parent_env e) eqn:Ek; cbn [when negb]; rsimpl; rewrite ?Hu2, ?Hs2;
    (split_and!; [by split|done|lia|lia|lia]).
Qed.

Lemma run_env_op_rep k e sp mi mu ms o :
  env_rep k e sp mi mu ms → k < 2 ^ 64 - 1 → op_ok o = true →
  ∃ mi' mu' ms', env_rep (k + 1) (run_env_op environ e o) (spec_op sp o) mi' mu' ms'.
Proof.
  intros [Hs Hsz Hkeep Himp Hset Hnames Hdis Hov] Hk Ho. destruct o as [v b|n|n b|]; cbn in Ho.
  - destruct (set_var_run v b e k mi mu ms Ho Hs Hk Hsz) as (H1 & H2 & H3).
    eexists _, _, _. split; [exact H1|exact H3|exact (eq_trans H2 Hkeep)| | | | |]; cbn; rsimpl.
    + destruct (inherits sp); subst; by rewrite delete_empty.
    + intros n w. destruct (decide (name_part v = n)) as [<-|Hn].
      * rewrite lookup_insert_eq. intros [= <-]. by apply andb_true_iff in Ho as [? _].
      * rewrite lookup_insert_ne by done. apply Hset.
    + intros n w [_ Hw]%lookup_delete_Some. by eapply Hnames.
    + intros n w [[<- <-]|[Hne Hw]]%lookup_insert_Some.
      * apply lookup_delete_eq.
      * rewrite lookup_delete_ne by done. by eapply Hdis.
    + intros n. destruct (decide (name_part v = n)) as [<-|Hn].
      * by rewrite !lookup_insert_eq.
      * by rewrite !lookup_insert_ne, !lookup_delete_ne.
  - destruct (import_parent_var_run n e k mi mu ms Hs Hk Hsz) as (H1 & H2 & H3).
    eexists _, _, _. split; [exact H1|exact H3|exact (eq_trans H2 Hkeep)| | | | |]; rewrite ?Hkeep; cbn; rsimpl.
    + destruct (inherits sp); subst; by rewrite ?delete_empty.
    + intros m w [_ Hw]%lookup_delete_Some. by eapply Hset.
    + intros m w. destruct (inherits sp); [apply Hnames|].
      intros [[<- <-]|[_ Hw]]%lookup_insert_Some; [done|]. by eapply Hnames.
    + intros m w [Hne Hw]%lookup_delete_Some. apply Hdis in Hw.
      destruct (inherits sp); [done|]. by rewrite lookup_insert_ne.
    + intros m. destruct (decide (n = m)) as [<-|Hn].
      * rewrite !lookup_delete_eq. destruct (inherits sp); subst.
        -- by rewrite lookup_delete_eq, lookup_empty.
        -- by rewrite !lookup_insert_eq.
      * rewrite !lookup_delete_ne by done. specialize (Hov m). destruct (inherits sp).
        -- by rewrite lookup_delete_ne.
        -- by rewrite !lookup_insert_ne.
  - destruct (undefine_var_run n b e k mi mu ms Hs Hk Hsz) as (H1 & H2 & H3).
    eexists _, _, _. split; [exact H1|exact H3|exact (eq_trans H2 Hkeep)| | | | |]; rewrite ?Hkeep; cbn; rsimpl.
    + destruct (inherits sp); subst; by rewrite ?delete_empty.
    + intros m w [_ Hw]%lookup_delete_Some. by eapply Hset.
    + intros m w [_ Hw]%lookup_delete_Some. by eapply Hnames.
    + intros m w [Hne Hw]%lookup_delete_Some. rewrite lookup_delete_ne by done. by eapply Hdis.
    + intros m. destruct (decide (n = m)) as [<-|Hn].
      * rewrite !lookup_delete_eq. destruct (inherits sp); subst.
        -- by rewrite !lookup_insert_eq.
        -- by rewrite lookup_delete_eq, lookup_empty.
      * rewrite !lookup_delete_ne by done. specialize (Hov m). destruct (inherits sp).
        -- by rewrite !lookup_insert_ne.
        -- by rewrite lookup_delete_ne.
  - exists ∅, ∅, ∅. destruct Hsz as (Hki & Hku & Hks). destruct Hs as [Hi Hu Hss].
    assert (0 ≤ k).
    { destruct Hi as (_ & [Hc _] & _). lia. }
    assert (current_size (hset_new (K:=text)) ≤ k + 1) by (cbn; lia).
    split; [split; apply rep_new|by split_and!|done|done|..]; intros m; rewrite ?lookup_empty;
      done.
Qed.

Lemma run_env_ops k e sp mi mu ms ops :
  env_rep k e sp mi mu ms → k + Z.of_nat (length ops) < 2 ^ 64 → forallb op_ok ops = true →
  ∃ k' mi' mu' ms', env_rep k' (foldl (run_env_op environ) e ops) (foldl spec_op sp ops) mi' mu' ms'.
Proof.
  revert k e sp mi mu ms. induction ops as [|o ops IH]; intros k e sp mi mu ms H Hk Ho.
  - by exists k, mi, mu, ms.
  - cbn [forallb] in Ho. apply andb_true_iff in Ho as [Ho1 Ho2]. cbn [foldl length] in *.
    destruct (run_env_op_rep k e sp mi mu ms o) as (mi' & mu' & ms' & H'); [done|lia|done|].
    eapply IH; [exact H'|lia|done].
Qed.

(** *** What is built *)

Lemma has_name_rep n s m :
  rep id hash s m → has_name n s = bool_decide (is_Some (m !! n)).
Proof. apply (rep_contains id hash s m n). Qed.

Lemma rep_id_elements s m n : rep id hash s m → n ∈ elements_of s ↔ m !! n = Some n.
Proof.
  intros H. rewrite (rep_elements id hash s m H), list_elem_of_fmap. split.
  - intros ((k & v) & -> & Hkv%elem_of_map_to_list). simpl.
    pose proof (rep_key id hash s m k v H Hkv) as E. by rewrite <- E in Hkv.
  - intros Hn. exists (n, n). split; [done|]. by apply elem_of_map_to_list.
Qed.
Lemma rep_id_NoDup s m : rep id hash s m → NoDup (elements_of s).
Proof.
  intros H. destruct H as (Hwf & [Hc _] & _). rewrite elements_concat.
  - eapply (NoDup_fmap_1 id), Hwf.
  - intros E. rewrite E in Hc. by destruct (concat _).
Qed.

Lemma own_entries s m : rep name_part hash s m →
  (∀ n v, m !! n = Some v → has_eq v = true) → ∀ v, v ∈ elements_of s → has_eq v = true.
Proof.
  intros H Hm v. rewrite (rep_elements name_part hash s m H), list_elem_of_fmap.
  intros ((k & w) & -> & Hkv%elem_of_map_to_list). by eapply Hm.
Qed.

Lemma named_entry {A} s m n (a b : A) :
  rep id hash s m →
  (if decide (n ∈ elements_of s) then a else b) = match m !! n with Some _ => a | None => b end.
Proof.
  intros H. case_decide as Hn; rewrite (rep_id_elements s m) in Hn by done; [by rewrite Hn|].
  destruct (m !! n) as [w|] eqn:E; [|done]. pose proof (rep_key id hash _ m n w H E) as Ek.
  change (id w) with w in Ek. congruence.
Qed.

Lemma own_element s ms n v :
  rep name_part hash s ms → v ∈ elements_of s ∧ name_part v = n ↔ ms !! n = Some v.
Proof.
  intros Hs. rewrite (rep_elements name_part hash _ ms Hs), list_elem_of_fmap. split.
  - intros [((k' & w) & -> & Hkv%elem_of_map_to_list) <-]. simpl.
    by rewrite (rep_key name_part hash _ ms k' w Hs Hkv).
  - intros Hv. split; [|by eapply rep_key]. exists (n, v). split; [done|].
    by apply elem_of_map_to_list.
Qed.

(** The mapping before the modifications of the environment itself. *)
Definition base_map ex e : env_map :=
  if keep_parent_env e then for_each environ (import_real e ex) env_map_new
  else for_each (elements_of (import_from_parent e)) (import_named (getenv environ)) env_map_new.

Lemma build_base ex e :
  build_excluding environ ex e
  = push_null (for_each (filter (λ v, negb (has_name (name_part v) ex) = true)
                                (elements_of (set_vars e))) add_own (base_map ex e)).
Proof. unfold build_excluding. by rewrite for_each_when. Qed.

Lemma entry_of_new n : entry_of n env_map_new = None.
Proof. unfold entry_of. cbn. by rewrite lookup_empty. Qed.

Lemma base_map_spec k e sp mi mu ms ex mx :
  env_rep k e sp mi mu ms → rep id hash ex mx →
  ∃ l, mapping (base_map ex e) l
  ∧ (distinct (filter (λ x, has_eq x = true) environ) → distinct l)
  ∧ ∀ n, name_ok n = true →
      entry_of n (base_map ex e)
      = if inherits sp then
          match mu !! n, mx !! n with None, None => getenv environ n | _, _ => None end
        else match mi !! n with Some _ => getenv environ n | None => None end.
Proof.
  intros [[Hi Hu Hs] _ Hkeep _ _ Hnames _ _] Hx. unfold base_map. rewrite Hkeep.
  destruct (inherits sp).
  - destruct (real_loop e ex env_map_new [] environ mapping_new) as (l & H1 & H2 & H3).
    exists l. split_and!; [done..|]. intros n Hn.
    rewrite H3, entry_of_new, (has_name_rep n _ mu Hu), (has_name_rep n _ mx Hx), getenv_ok by done.
    destruct (mu !! n), (mx !! n); repeat case_bool_decide; done || naive_solver.
  - destruct (named_loop (getenv environ) env_map_new [] (elements_of (import_from_parent e)))
      as (l & H1 & H2 & H3).
    + apply mapping_new.
    + by eapply rep_id_NoDup.
    + intros n v Hn Hg. apply (rep_id_elements _ mi) in Hn; [|done].
      by apply getenv_Some in Hg as (_ & ? & ?); [|by eapply Hnames].
    + intros n _. apply entry_of_new.
    + exists l. split_and!; [done|intros _; apply H2; apply list.NoDup_nil; done|].
      intros n Hn. rewrite H3, entry_of_new. by apply named_entry.
Qed.

(** The own settings, over the entries [base] of a mapping. *)
Lemma own_spec k e sp mi mu ms ex mx base l :
  env_rep k e sp mi mu ms → rep id hash ex mx → mapping base l →
  let m := for_each (filter (λ v, negb (has_name (name_part v) ex) = true)
                            (elements_of (set_vars e))) add_own base in
  ∃ l', mapping m l' ∧ (distinct l → distinct l')
  ∧ ∀ n, entry_of n m = match mx !! n, ms !! n with
                        | None, Some v => Some v
                        | _, _ => entry_of n base
                        end.
Proof.
  intros [[_ _ Hs] _ _ _ Hset _ _ _] Hx Hm m.
  destruct (own_loop base l (filter (λ v, negb (has_name (name_part v) ex) = true)
                                    (elements_of (set_vars e))) Hm) as (l' & H1 & H2 & H3).
  { intros v [_ Hv]%list_elem_of_filter. by eapply own_entries. }
  exists l'. split_and!; [done..|]. intros n.
  assert (∀ v, (v ∈ filter (λ v, negb (has_name (name_part v) ex) = true) (elements_of (set_vars e))
                ∧ name_part v = n) ↔ ms !! n = Some v ∧ mx !! n = None) as Hel.
  { intros v. rewrite list_elem_of_filter, (has_name_rep _ _ mx Hx), negb_true_iff,
      bool_decide_eq_false, <- eq_None_not_Some, <- (own_element _ ms n v Hs).
    split; [intros [[? ?] <-]|intros [[? <-] ?]]; done. }
  destruct (H3 n) as [(v & Hv & Hnv & Hr)|[Hnone Hr]].
  - destruct (proj1 (Hel v) (conj Hv Hnv)) as [-> ->]. exact Hr.
  - unfold m. rewrite Hr. destruct (mx !! n) as [w|] eqn:Ex; [done|].
    destruct (ms !! n) as [v|] eqn:E; [|done].
    destruct (proj2 (Hel v) (conj eq_refl eq_refl)) as [E1 E2]. by destruct (Hnone v E1).
Qed.

(** What is built without the names [mx]: a variable that was imported is not left out. *)
Lemma build_spec k e sp mi mu ms ex mx :
  env_rep k e sp mi mu ms → rep id hash ex mx →
  ∃ m l, build_excluding environ ex e = push_null m ∧ mapping m l
  ∧ (distinct (filter (λ x, has_eq x = true) environ) → distinct l)
  ∧ ∀ n, name_ok n = true → (is_Some (mx !! n) → overrides sp !! n ≠ Some Import) →
      entry_of n m = match mx !! n with Some _ => None | None => spec_entry environ sp n end.
Proof.
  intros H Hx. destruct (base_map_spec k e sp mi mu ms ex mx H Hx) as (l & Hm & Hd & Hb).
  destruct (own_spec k e sp mi mu ms ex mx _ l H Hx Hm) as (l' & H1 & H2 & H3).
  eexists _, l'. split_and!; [apply build_base|done|by auto|]. intros n Hn Hclash.
  rewrite H3, Hb by done. destruct H as [_ _ _ Himp _ _ Hdis Hov]. unfold spec_entry.
  rewrite Hov in *. specialize (Hdis n).
  destruct (inherits sp); subst; rewrite ?lookup_empty in *.
  - by destruct (mx !! n), (ms !! n), (mu !! n).
  - destruct (mx !! n) as [w|] eqn:Ex, (ms !! n) as [v|]; try done.
    + by rewrite (Hdis v eq_refl).
    + destruct (mi !! n); [|done]. destruct Hclash; [by eexists|done].
    + by destruct (mi !! n).
Qed.

(** [get], when the environment has not removed the variable. *)
Lemma get_spec k e sp mi mu ms n :
  env_rep k e sp mi mu ms → overrides sp !! n ≠ Some Unset → get environ n e = spec_entry environ sp n.
Proof.
  intros [[Hi Hu Hs] _ Hkeep Himp _ _ _ Hov] Hclash. unfold get, spec_entry. rewrite Hov in *.
  destruct (rep_find name_part hash _ ms n Hs) as [Hd Hn]. unfold find_setting.
  destruct (find name_part hash n (set_vars e)) as [it|].
  - destruct (ms !! n) as [v|]; [exact Hd|]. discriminate (proj2 Hn eq_refl).
  - rewrite (proj1 Hn eq_refl) in *. rewrite Hkeep, (has_name_rep n _ mi Hi).
    destruct (inherits sp); subst; rewrite ?lookup_empty in *; cbn [negb andb].
    + by destruct (mu !! n).
    + by destruct (mi !! n).
Qed.

(** The entry that a variable ends up with in the environment that is built from [main]. *)
Definition process_entry (main sp : env_spec) (n : text) : option text :=
  match overrides sp !! n with
  | Some (Value v) => Some v
  | Some Unset => None
  | Some Import => spec_entry environ main n
  | None => if inherits sp then spec_entry environ main n else None
  end.

(** One of them imports what the other removes. *)
Definition clash (main sp : env_spec) (n : text) : Prop :=
  overrides main !! n = Some Unset ∧ overrides sp !! n = Some Import
  ∨ overrides main !! n = Some Import ∧ overrides sp !! n = Some Unset.

Lemma get_entry k e sp mi mu ms n v :
  env_rep k e sp mi mu ms → name_ok n = true → get environ n e = Some v →
  has_eq v = true ∧ name_part v = n.
Proof.
  intros [[_ _ Hs] _ _ _ Hset _ _ _] Hn. unfold get, find_setting.
  destruct (rep_find name_part hash _ ms n Hs) as [Hd _].
  destruct (find name_part hash n (set_vars e)) as [it|].
  - intros Hv. assert (ms !! n = Some v) as Hm by (by rewrite <- Hd).
    split; [by eapply Hset|]. by eapply rep_key.
  - destruct (_ && _); [done|]. intros Hg. by apply getenv_Some in Hg as (_ & ? & ?).
Qed.

Lemma strip_push_null m :
  (push_null m) <| env_list ::= λ l, take (length l - 1) l |> = m.
Proof.
  destruct m as [l vm].
  change (Env_map (take (length (l ++ [None]) - 1) (l ++ [None])) vm = Env_map l vm). f_equal.
  by rewrite length_app, Nat.add_sub, take_app_length.
Qed.

(** What an environment takes from its parent. *)
Definition inherited main e : env_map :=
  if keep_parent_env e then
    (build_excluding environ (undefine e) main) <| env_list ::= λ l, take (length l - 1) l |>
  else for_each (elements_of (import_from_parent e)) (import_named (λ n, get environ n main))
         env_map_new.

Lemma build_from_inherited main e :
  build_from environ main e
  = push_null (for_each (filter (λ v, negb (has_name (name_part v) hset_new) = true)
                                (elements_of (set_vars e))) add_own (inherited main e)).
Proof. by rewrite <- for_each_when. Qed.

Lemma inherited_spec k0 main sp0 mi0 mu0 ms0 k e sp mi mu ms :
  env_rep k0 main sp0 mi0 mu0 ms0 → env_rep k e sp mi mu ms →
  ∃ l, mapping (inherited main e) l
  ∧ (distinct (filter (λ x, has_eq x = true) environ) → distinct l)
  ∧ ∀ n, name_ok n = true → ¬ clash sp0 sp n →
      ms !! n = None → entry_of n (inherited main e) = process_entry sp0 sp n.
Proof.
  intros H0 [[Hi Hu Hs] _ Hkeep Himp _ Hnames _ Hov]. unfold inherited, process_entry, clash.
  rewrite Hkeep. destruct (inherits sp); subst.
  - destruct (build_spec k0 main sp0 mi0 mu0 ms0 _ mu H0 Hu) as (m & l & -> & Hm & Hd & He).
    rewrite strip_push_null. exists l. split_and!; [done..|]. intros n Hn Hclash Hms.
    specialize (Hov n). rewrite Hms, lookup_empty in Hov. rewrite Hov in *.
    rewrite He; [by destruct (mu !! n)|done|]. intros [w Hw] Himp. rewrite Hw in Hclash. tauto.
  - destruct (named_loop (λ n, get environ n main) env_map_new []
                (elements_of (import_from_parent e))) as (l & H1 & H2 & H3).
    + apply mapping_new.
    + by eapply rep_id_NoDup.
    + intros n v Hn Hg. apply (rep_id_elements _ mi) in Hn; [|done].
      eapply get_entry; [exact H0| |exact Hg]. by eapply Hnames.
    + intros n _. apply entry_of_new.
    + exists l. split_and!; [done|intros _; apply H2; apply list.NoDup_nil; done|].
      intros n Hn Hclash Hms. specialize (Hov n). rewrite Hms, lookup_empty in Hov.
      rewrite Hov in *.
      rewrite H3, entry_of_new, (named_entry _ mi) by done.
      destruct (mi !! n) as [w|]; [|done]. eapply get_spec; [exact H0|]. intros E. tauto.
Qed.

(** What is built from a parent. *)
Lemma build_from_spec k0 main sp0 mi0 mu0 ms0 k e sp mi mu ms :
  env_rep k0 main sp0 mi0 mu0 ms0 → env_rep k e sp mi mu ms →
  ∃ m l, build_from environ main e = push_null m ∧ mapping m l
  ∧ (distinct (filter (λ x, has_eq x = true) environ) → distinct l)
  ∧ ∀ n, name_ok n = true → ¬ clash sp0 sp n → entry_of n m = process_entry sp0 sp n.
Proof.
  intros H0 H. destruct (inherited_spec _ _ _ _ _ _ _ _ _ _ _ _ H0 H) as (l & Hm & Hd & Hb).
  destruct (own_spec k e sp mi mu ms hset_new ∅ _ l H (rep_new id hash) Hm) as (l' & H1 & H2 & H3).
  eexists _, l'. split_and!; [apply build_from_inherited|done|by auto|]. intros n Hn Hclash.
  rewrite H3, lookup_empty. destruct (ms !! n) as [v|] eqn:E; [|by apply Hb].
  unfold process_entry. by rewrite (er_overrides _ _ _ _ _ _ H), E.
Qed.

(** The list and the look-ups of a built environment with given entries. *)
Definition env_entries (m : env_map) (ok : text → Prop) (entry : text → option text) : Prop :=
  (∀ n, name_ok n = true → ok n → Env.lookup n m = drop (S (length n)) <$> entry n)
  ∧ (NoDup (name_part <$> filter (λ x, has_eq x = true) environ) →
     ∃ l, env_list m = (Some <$> l) ++ [None] ∧ NoDup (name_part <$> l)
     ∧ ∀ v, name_ok (name_part v) = true → ok (name_part v) → v ∈ l ↔ entry (name_part v) = Some v).

Lemma lookup_push_null m l n : mapping m l → Env.lookup n (push_null m) = Env.lookup n m.
Proof.
  intros H. unfold Env.lookup, push_null. rsimpl. destruct (var_map m !! n) as [pos|] eqn:E; [|done].
  destruct (map_var _ _ H _ _ E) as (v & Hv & _). simpl.
  rewrite lookup_app_l; [done|]. rewrite (map_list _ _ H), length_fmap. by eapply lookup_lt_Some.
Qed.

Lemma entries_of_mapping m l (ok : text → Prop) entry :
  mapping m l → (distinct (filter (λ x, has_eq x = true) environ) → distinct l) →
  (∀ n, name_ok n = true → ok n → entry_of n m = entry n) →
  env_entries (push_null m) ok entry.
Proof.
  intros Hl Hd He. split.
  - intros n Hn Hok. by rewrite (lookup_push_null m l), (mapping_lookup m l), He.
  - intros Hnd. exists l. split_and!; [|by apply Hd|].
    + unfold push_null. rsimpl. by rewrite (map_list _ _ Hl).
    + intros v Hv Hok. rewrite (mapping_elem m l v Hl (Hd Hnd)). by rewrite He.
Qed.

Lemma run_new ops :
  forallb op_ok ops = true → Z.of_nat (length ops) < 2 ^ 64 →
  ∃ k mi mu ms, env_rep k (foldl (run_env_op environ) environment_new ops)
                  (foldl spec_op (Env_spec true ∅) ops) mi mu ms.
Proof. intros Ho Hl. apply (run_env_ops 0 _ _ ∅ ∅ ∅); [apply env_rep_new|lia|done]. Qed.
End refinement.

(** C37: dinit's own environment and that of a process, after any settings, removals,
    imports and clearings (each fewer than 2^64) with well-formed names. build() over the
    real environment gives a variable the value that was set last, none if it was removed
    last, and otherwise that of the real environment, unless the environment was cleared and
    the variable not imported since. build(parent_env), which makes the environment of a
    process, does the same over the variables of dinit's own environment, for every variable
    but those that one of the two environments imports and the other removes (clash;
    environment_defects shows both cases). In both, if no name occurs twice in the real
    environment, the list for exec holds exactly these settings (of the variables without a
    clash), no name twice, and ends with a null pointer. *)
Theorem environment_correct (environ : list text) (main_ops ops : list env_op) :
  forallb op_ok main_ops = true → Z.of_nat (length main_ops) < 2 ^ 64 →
  forallb op_ok ops = true → Z.of_nat (length ops) < 2 ^ 64 →
  let main := foldl (run_env_op environ) environment_new main_ops in
  let service := foldl (run_env_op environ) environment_new ops in
  let main_spec := foldl spec_op (Env_spec true ∅) main_ops in
  let service_spec := foldl spec_op (Env_spec true ∅) ops in
  env_entries environ (build environ main) (λ _, True) (spec_entry environ main_spec)
  ∧ env_entries environ (build_from environ main service) (λ n, ¬ clash main_spec service_spec n)
      (process_entry environ main_spec service_spec).
Proof.
  intros Hm Hml Ho Hl main service sp0 sp.
  destruct (run_new environ main_ops Hm Hml) as (k0 & mi0 & mu0 & ms0 & H0).
  destruct (run_new environ ops Ho Hl) as (k & mi & mu & ms & H). split.
  - destruct (build_spec environ _ _ _ _ _ _ _ ∅ H0 (rep_new id hash))
      as (m & l & E & Hlm & Hd & He).
    unfold build, main. rewrite E. apply (entries_of_mapping _ m l); [done..|]. intros n Hn _.
    rewrite He; [done..|]. rewrite lookup_empty. by intros [? ?].
  - destruct (build_from_spec environ _ _ _ _ _ _ _ _ _ _ _ _ H0 H) as (m & l & E & Hlm & Hd & He).
    unfold main, service. rewrite E. by apply (entries_of_mapping _ m l).
Qed.

Definition real_env : list text := chars <$> ["HOME=/root"; "LANG=C"; "noise"; "TERM=linux"].
Definition env_changes : list env_op :=
  [Undefine_var (chars "LANG") true; Set_var (chars "PATH=/bin") false;
   Set_var (chars "HOME=/") true; Undefine_var (chars "PATH") false;
   Set_var (chars "PATH=/sbin") true].
(** The environment file of a service. *)
Definition service_changes : list env_op :=
  [Clear_no_inherit; Import_parent_var (chars "PATH"); Import_parent_var (chars "TERM");
   Import_parent_var (chars "USER"); Set_var (chars "LANG=de") false].

Lemma environment_correct_witness :
  let main := foldl (run_env_op real_env) environment_new env_changes in
  let m := build real_env main in
  let service := foldl (run_env_op real_env) environment_new service_changes in
  let p := build_from real_env main service in
  (Env.lookup (chars "PATH") m = Some (chars "/sbin") ∧ Env.lookup (chars "LANG") m = None
   ∧ Env.lookup (chars "TERM") m = Some (chars "linux"))
  ∧ (Env.lookup (chars "PATH") p = Some (chars "/sbin")
     ∧ Env.lookup (chars "LANG") p = Some (chars "de") ∧ Env.lookup (chars "HOME") p = None).
Proof.
  destruct (environment_correct real_env env_changes service_changes) as [[H _] [H' _]];
    [vm_compute; reflexivity..|].
  assert (∀ n, n ∈ chars <$> ["PATH"; "LANG"; "HOME"] →
    ¬ clash (foldl spec_op (Env_spec true ∅) env_changes)
        (foldl spec_op (Env_spec true ∅) service_changes) n) as Hc.
  { intros n Hn. cbn [fmap list_fmap] in Hn. rewrite !elem_of_cons, elem_of_nil in Hn.
    destruct Hn as [->|[->|[->|[]]]]; intros [[? H2]|[H1 ?]];
      (vm_compute in H2; discriminate) || (vm_compute in H1; discriminate). }
  intros main m service p. split; split_and!.
  1-3: unfold m, main; rewrite H; [vm_compute; reflexivity|vm_compute; reflexivity|exact I].
  all: unfold p, service, main; rewrite H'; [vm_compute; reflexivity|vm_compute; reflexivity|].
  all: apply Hc; cbn [fmap list_fmap]; rewrite !elem_of_cons; tauto.
Defined.

Definition run_changes (ops : list env_op) : environment :=
  foldl (run_env_op real_env) environment_new ops.

(** Four defects of environments.  An environment that imports a variable from its parent
    gets the value of the real environment although the parent has removed the variable
    ([get] does not look at [undefine]).  A variable that the parent imports cannot be
    removed by an environment built on it.  The listeners are told that a variable was
    overridden that the environment did not have, when it has been cleared.  And a line of
    an environment file with nothing but an exclamation mark is read past its end. *)
Theorem environment_defects :
  (let main := run_changes [Undefine_var (chars "LANG") false] in
   let service := run_changes [Clear_no_inherit; Import_parent_var (chars "LANG")] in
   Env.lookup (chars "LANG") (build real_env main) = None
   ∧ Env.lookup (chars "LANG") (build_from real_env main service) = Some (chars "C"))
  ∧ (let main := run_changes [Clear_no_inherit; Import_parent_var (chars "LANG")] in
     let service := run_changes [Undefine_var (chars "LANG") false] in
     Env.lookup (chars "LANG") (build_from real_env main service) = Some (chars "C"))
  ∧ (let main := run_changes [Clear_no_inherit] in
     Env.lookup (chars "LANG") (build real_env main) = None
     ∧ (set_var real_env (chars "LANG=de") true main).2 = Some (chars "LANG=de", true))
  ∧ read_env_line real_env (chars " !") 1 true environment_new = None.
Proof. vm_compute. split_and!; reflexivity. Qed.
