(* ===== verification/ControlConn.v ===== *)
(** * The control protocol server: packets and connections

    The codes of [control-cmds.h], the layout of packets, and of class [control_conn_t]
    ([control.h], [control.cc]) the fields, the queue of outgoing packets and the
    map of service handles.  A byte is an integer from 0 to 255, and integers are sent in
    little-endian order.  The receive buffer is the list of the bytes in it, as [CpBuffer]
    proves of the circular buffer.  What [write] returns is in a list of the connection,
    and the bytes it has taken are in [sent]. *)

From S2P Require Import Prelude Text ServiceData Env.

Module cp_cmd.
Definition QUERYVERSION : Z := 0.
Definition FINDSERVICE : Z := 1.
Definition LOADSERVICE : Z := 2.
Definition STARTSERVICE : Z := 3.
Definition STOPSERVICE : Z := 4.
Definition WAKESERVICE : Z := 5.
Definition RELEASESERVICE : Z := 6.
Definition UNPINSERVICE : Z := 7.
Definition LISTSERVICES : Z := 8.
Definition UNLOADSERVICE : Z := 9.
Definition SHUTDOWN : Z := 10.
Definition ADD_DEP : Z := 11.
Definition REM_DEP : Z := 12.
Definition QUERY_LOAD_MECH : Z := 13.
Definition ENABLESERVICE : Z := 14.
Definition QUERYSERVICENAME : Z := 15.
Definition RELOADSERVICE : Z := 16.
Definition SETENV : Z := 17.
Definition SERVICESTATUS : Z := 18.
Definition SETTRIGGER : Z := 19.
Definition CATLOG : Z := 20.
Definition SIGNAL : Z := 21.
Definition QUERYSERVICEDSCDIR : Z := 22.
Definition CLOSEHANDLE : Z := 23.
Definition GETALLENV : Z := 24.
Definition LISTSERVICES5 : Z := 25.
Definition SERVICESTATUS5 : Z := 26.
Definition LISTENENV : Z := 27.
End cp_cmd.

Module cp_rply.
Definition ACK : Z := 50.
Definition NAK : Z := 51.
Definition BADREQ : Z := 52.
Definition OOM : Z := 53.
Definition CPVERSION : Z := 58.
Definition SERVICERECORD : Z := 59.
Definition NOSERVICE : Z := 60.
Definition ALREADYSS : Z := 61.
Definition SVCINFO : Z := 62.
Definition LISTDONE : Z := 63.
Definition LOADER_MECH : Z := 64.
Definition DEPENDENTS : Z := 65.
Definition SERVICENAME : Z := 66.
Definition PINNEDSTOPPED : Z := 67.
Definition PINNEDSTARTED : Z := 68.
Definition SHUTTINGDOWN : Z := 69.
Definition SERVICESTATUS : Z := 70.
Definition SERVICE_DESC_ERR : Z := 71.
Definition SERVICE_LOAD_ERR : Z := 72.
Definition SERVICE_LOG : Z := 73.
Definition SIGNAL_NOPID : Z := 74.
Definition SIGNAL_BADSIG : Z := 75.
Definition SIGNAL_KILLERR : Z := 76.
Definition SVCDSCDIR : Z := 77.
Definition ALLENV : Z := 78.
Definition PREACK : Z := 79.
End cp_rply.

Module cp_info.
Definition SERVICEEVENT : Z := 100.
Definition SERVICEEVENT5 : Z := 101.
Definition ENVEVENT : Z := 102.
End cp_info.

(** ** Integers in packets *)

(** The [k] low bytes of an integer, the lowest first. *)
Fixpoint le_bytes (k : nat) (n : Z) : list Z :=
  match k with
  | O => []
  | S k => n mod 256 :: le_bytes k (n / 256)
  end.

(** A [char] or an [int] that was sent as unsigned. *)
Definition signed (bits : Z) (n : Z) : Z := if n <? 2 ^ (bits - 1) then n else n - 2 ^ bits.

(** ** The codes of the enumerations *)

Definition state_code (s : service_state_t) : Z :=
  match s with
  | service_state_t.STOPPED => 0
  | service_state_t.STARTING => 1
  | service_state_t.STARTED => 2
  | service_state_t.STOPPING => 3
  end.
Definition reason_code (r : stopped_reason_t) : Z :=
  match r with
  | stopped_reason_t.NORMAL => 0
  | stopped_reason_t.DEPRESTART => 1
  | stopped_reason_t.DEPFAILED => 2
  | stopped_reason_t.FAILED => 3
  | stopped_reason_t.EXECFAILED => 4
  | stopped_reason_t.TIMEDOUT => 5
  | stopped_reason_t.TERMINATED => 6
  end.
Definition event_code (e : service_event_t) : Z :=
  match e with
  | service_event_t.STARTED => 0
  | service_event_t.STOPPED => 1
  | service_event_t.FAILEDSTART => 2
  | service_event_t.STARTCANCELLED => 3
  | service_event_t.STOPCANCELLED => 4
  end.

(** [static_cast] from an integer; [None] outside of the enumeration. *)
Definition shutdown_of_code (n : Z) : option shutdown_type_t :=
  if n =? 0 then Some shutdown_type_t.NONE
  else if n =? 1 then Some shutdown_type_t.REMAIN
  else if n =? 2 then Some shutdown_type_t.HALT
  else if n =? 3 then Some shutdown_type_t.POWEROFF
  else if n =? 4 then Some shutdown_type_t.REBOOT
  else if n =? 5 then Some shutdown_type_t.SOFTREBOOT
  else if n =? 6 then Some shutdown_type_t.KEXEC
  else None.
(** The cast. *)
Definition dependency_of_code (n : Z) : dependency_type :=
  if n =? 0 then dependency_type.REGULAR
  else if n =? 1 then dependency_type.SOFT
  else if n =? 2 then dependency_type.WAITS_FOR
  else if n =? 3 then dependency_type.MILESTONE
  else if n =? 4 then dependency_type.BEFORE
  else if n =? 5 then dependency_type.AFTER
  else dependency_type.Unnamed n.

(** ** Status buffers *)

Definition STATUS_BUFFER_SIZE : Z := 10.
Definition STATUS_BUFFER5_SIZE : Z := 14.

Definition status_flags (s : service_status) : Z :=
  b2z (st_waiting_for_console s) + 2 * b2z (st_has_console s) + 4 * b2z (st_start_skipped s)
  + 8 * b2z (st_marked_active s) + 16 * b2z (negb (st_pid s =? -1)).
Definition status_head (s : service_status) : list Z :=
  [state_code (st_state s); state_code (st_target_state s); status_flags s;
   reason_code (st_stop_reason s)].
Definition exec_failed (s : service_status) : bool :=
  bool_decide (st_stop_reason s = stopped_reason_t.EXECFAILED).

(** [fill_status_buffer] and [fill_status_buffer5] *)
Definition fill_status_buffer (s : service_status) : list Z :=
  status_head s ++
  if negb (st_pid s =? -1) then [0; 0] ++ le_bytes 4 (st_pid s)
  else if exec_failed s
  then le_bytes 2 (stage (st_exec_err s)) ++ le_bytes 4 (st_errno (st_exec_err s))
  else [0; 0] ++ le_bytes 4 (if did_exit_clean (st_exit_status s) then 0 else -1).
Definition fill_status_buffer5 (s : service_status) : list Z :=
  status_head s ++
  if negb (st_pid s =? -1) then [0; 0] ++ le_bytes 4 (st_pid s) ++ [0; 0; 0; 0]
  else if exec_failed s
  then le_bytes 2 (stage (st_exec_err s)) ++ le_bytes 4 (st_errno (st_exec_err s)) ++ [0; 0; 0; 0]
  else [0; 0] ++ le_bytes 4 (wait_si_code (st_exit_status s))
       ++ le_bytes 4 (wait_si_status (st_exit_status s)).

(** ** Connections *)

Variant write_result :=
  | Wrote (n : nat)             (* at most the size of the data *)
  | Write_epipe
  | Write_again                 (* EAGAIN, EWOULDBLOCK, EINTR *)
  | Write_error.

Record conn := Conn {
  bad_conn_close : bool;
  oom_close : bool;
  chklen : Z;
  rbuf : list Z;
  service_key_map : list (sid * Z);
  key_service_map : list (Z * sid);         (* in the order of the keys *)
  outbuf : list (list Z);
  outbuf_size : Z;
  outpkt_index : Z;
  in_watch : bool;
  out_watch : bool;
  writes : list write_result;               (* results of [write] to come *)
  sent : list Z;
  undefined : bool                          (* the code has left what the model defines *)
}.
#[export] Instance eta_conn : Eta conn := λ c,
  Conn (bad_conn_close c) (oom_close c) (chklen c) (rbuf c) (service_key_map c)
    (key_service_map c) (outbuf c) (outbuf_size c) (outpkt_index c) (in_watch c) (out_watch c)
    (writes c) (sent c) (undefined c).

Definition conn_new (results : list write_result) : conn :=
  {| bad_conn_close := false; oom_close := false; chklen := 0; rbuf := [];
     service_key_map := []; key_service_map := []; outbuf := []; outbuf_size := 0;
     outpkt_index := 0; in_watch := true; out_watch := false; writes := results; sent := [];
     undefined := false |}.

Implicit Types (c : conn) (pkt : list Z) (x : sid).

(** ** The receive buffer *)

Definition rbuf_length c : Z := Z.of_nat (length (rbuf c)).
Definition rbuf_at (i : nat) c : Z := default 0 (rbuf c !! i).
Definition rbuf_extract (i n : nat) c : list Z := take n (drop i (rbuf c)).
Definition rbuf_consume (n : Z) c : conn := c <| rbuf ::= drop (Z.to_nat n) |>.
(** An integer of [n] bytes. *)
Definition rbuf_int (i n : nat) c : Z := le_value (rbuf_extract i n c).

(** ** Sending *)

(** [bp_sys::write]: nothing can be written when there are no more results. *)
Definition write pkt c : conn * write_result :=
  match writes c with
  | [] => (c, Write_again)
  | Wrote n :: ws =>
      (c <| writes := ws |> <| sent ::= λ s, s ++ take n pkt |>, Wrote (min n (length pkt)))
  | r :: ws => (c <| writes := ws |>, r)
  end.

(** [queue_packet(const char *, unsigned)] *)
Definition queue_bytes pkt c : conn * bool :=
  let enqueue pkt c :=
    (c <| outbuf ::= λ l, l ++ [pkt] |>
       <| outbuf_size ::= λ n, u32 (n + Z.of_nat (length pkt)) |>, true) in
  match outbuf c with
  | [] =>
      let '(c, wr) := write pkt c in
      match wr with
      | Wrote n => if (n =? length pkt)%nat then (c, true) else enqueue (drop n pkt) c
      | Write_again => enqueue pkt c
      | _ => (c, false)
      end
  | _ => enqueue pkt c
  end.

(** [queue_packet(vector<char> &&)]: the packet is moved into the queue before its size is
    taken, and a vector that has been moved from is empty. *)
Definition queue_packet pkt c : conn * bool :=
  let enqueue c :=
    (c <| outbuf ::= λ l, l ++ [pkt] |>
       <| outbuf_size ::= λ n, u32 (n + Z.of_nat (length ([] : list Z))) |>, true) in
  match outbuf c with
  | [] =>
      let! c := c <| outpkt_index := 0 |> in
      let '(c, wr) := write pkt c in
      match wr with
      | Wrote n =>
          if (n =? length pkt)%nat then (c, true)
          else enqueue (c <| outpkt_index := Z.of_nat n |>)
      | Write_again => enqueue c
      | _ => (c, false)
      end
  | _ => enqueue c
  end.

(** [send_data]: whether the connection is to be closed.  Nothing calls it with an empty
    queue on a connection that is not bad. *)
Definition send_data c : conn * bool :=
  match outbuf c with
  | [] =>
      if bad_conn_close c
      then (if oom_close c then (write [cp_rply.OOM] c).1 else c, true)
      else (c <| undefined := true |>, false)
  | pkt :: rest =>
      let '(c, wr) := write (drop (Z.to_nat (outpkt_index c)) pkt) c in
      match wr with
      | Write_again => (c, false)
      | Write_epipe | Write_error => (c, true)
      | Wrote n =>
          let! c := c <| outpkt_index ::= λ i, u32 (i + Z.of_nat n) |> in
          if outpkt_index c =? Z.of_nat (length pkt) then
            let! c := c <| outbuf_size ::= λ s, u32 (s - Z.of_nat (length pkt)) |> in
            let! c := c <| outbuf := rest |> <| outpkt_index := 0 |> in
            if oom_close c then (c, false)
            else if bool_decide (outbuf c = []) && bad_conn_close c then (c, true)
            else (c, false)
          else (c, false)
      end
  end.

Definition OUTBUF_LIMIT : Z := 16384.

(** The watches of [control_conn_cb]. *)
Definition set_watches c : conn :=
  c <| in_watch := negb (bad_conn_close c) && (outbuf_size c <? OUTBUF_LIMIT) |>
    <| out_watch := negb (bool_decide (outbuf c = [])) || bad_conn_close c |>.

(** ** Handles *)

(** Insertion into an ordered map: a key that is there gets the new value. *)
Fixpoint map_assign (k : Z) (x : sid) (m : list (Z * sid)) : list (Z * sid) :=
  match m with
  | [] => [(k, x)]
  | (k', x') :: rest =>
      if k <? k' then (k, x) :: m
      else if k =? k' then (k, x) :: rest
      else (k', x') :: map_assign k x rest
  end.

(** The first gap in the keys, from [candidate] on. *)
Fixpoint free_handle (candidate : Z) (m : list (Z * sid)) : Z :=
  match m with
  | [] => candidate
  | (k, _) :: rest => if k =? candidate then free_handle (u32 (candidate + 1)) rest else candidate
  end.

Definition find_service_for_key (key : Z) c : option sid :=
  snd <$> List.find (λ p, p.1 =? key) (key_service_map c).

Definition handles_of x c : list Z :=
  snd <$> filter (λ p : sid * Z, p.1 = x) (service_key_map c).

Definition erase_key (key : Z) c : conn :=
  c <| key_service_map ::= filter (λ p, p.1 ≠ key) |>.
Definition erase_service x c : conn :=
  c <| service_key_map ::= filter (λ p, p.1 ≠ x) |>.
Definition erase_handle x (key : Z) c : conn :=
  c <| service_key_map ::= filter (λ p, p ≠ (x, key)) |>.
Definition add_handle x (key : Z) c : conn :=
  c <| key_service_map ::= map_assign key x |>
    <| service_key_map ::= λ m, m ++ [(x, key)] |>.

(** ** Information packets *)

(** [service_event]: for each handle of the service a packet of version 5 and one of the
    original version.  The results of [queue_packet] are not looked at. *)
Definition event_packet5 (key : Z) (ev : service_event_t) (s : service_status) : list Z :=
  [cp_info.SERVICEEVENT5; 7 + STATUS_BUFFER5_SIZE] ++ le_bytes 4 key ++ [event_code ev]
  ++ fill_status_buffer5 s.
Definition event_packet (key : Z) (ev : service_event_t) (s : service_status) : list Z :=
  [cp_info.SERVICEEVENT; 7 + STATUS_BUFFER_SIZE] ++ le_bytes 4 key ++ [event_code ev]
  ++ fill_status_buffer s.
Definition service_event x (ev : service_event_t) (s : service_status) c : conn :=
  for_each (handles_of x c)
    (λ key c,
      let! c := (queue_packet (event_packet5 key ev s) c).1 in
      (queue_packet (event_packet key ev s) c).1) c.

(** [environ_event]: the size of the string with its terminating nul is 16 bits wide. *)
Definition environ_packet (var_and_val : text) (overridden : bool) : list Z :=
  let ln := (Z.of_nat (length var_and_val) + 1) mod 2 ^ 16 in
  [cp_info.ENVEVENT; 5; b2z overridden] ++ le_bytes 2 ln
  ++ take (Z.to_nat ln) (var_and_val ++ [0]).
Definition environ_event (var_and_val : text) (overridden : bool) c : conn :=
  (queue_packet (environ_packet var_and_val overridden) c).1.
