(* ===== verification/Control.v ===== *)
(** * The control protocol server: requests

    The methods of class [control_conn_t] in [control.cc] that process requests and
    events.  A handler returns the state and whether the connection is in order, as the code
    does.  What is not in [control.cc] is in the section variables: the real environment,
    the identity of the connection as a listener, the bound for the turns of
    [process_queues], and where service descriptions are loaded from. *)

From S2P Require Import Prelude Text ServiceData Service TimeVal Loader Process ProcessRun ProcessEvents ProcessMemory HashSet Env ControlConn.

(** [services->load_service] and [services->reload_service], with the exceptions that the
    server tells apart. *)
Variant load_failure := Description_failure | Not_found_failure | Load_failure.
Class ServiceLoading := {
  load_description : text → psys → psys * (sid + load_failure);
  reload_description : sid → psys → psys * option load_failure
}.

Record server := Server { services : psys; con : conn; main_env : environment }.
#[export] Instance eta_server : Eta server := λ s, Server (services s) (con s) (main_env s).

Section server.
Context (environ : list text) (me : nat) (n : nat) {Loading : ServiceLoading}.
Context (load_dirs : option (list text)) (cwd : option text).
Implicit Types (s : server) (x : sid) (pkt : list Z).

(** ** Effects *)

Definition on_con (f : conn → conn) s : server := s <| con ::= f |>.

(** The listeners are called while the services change; the packets hold the status at that
    time. *)
Definition new_actions (st st' : psys) : list action :=
  rev (take (length (trace st') - length (trace st)) (trace st')).
Definition deliver (a : action) s : server :=
  match a with
  | Notify x ev status =>
      when (bool_decide (me ∈ listeners (svc (services s) x)))
        (on_con (service_event x ev status)) s
  | _ => s
  end.
Definition on_services_ret {A} (f : psys → psys * A) s : server * A :=
  let '(st', a) := f (services s) in
  (for_each (new_actions (services s) st') deliver (s <| services := st' |>), a).
Definition on_services (f : psys → psys) s : server := (on_services_ret (λ st, (f st, tt)) s).1.

(** The listeners of the environment. *)
Definition on_env (f : environment → environment * option (text * bool)) s : server :=
  let '(e, event) := f (main_env s) in
  let! s := s <| main_env := e |> in
  match event with
  | Some (var_and_val, overridden) =>
      when (bool_decide (me ∈ env_listeners e)) (on_con (environ_event var_and_val overridden)) s
  | None => s
  end.

Definition reply_bytes pkt s : server * bool :=
  let '(c, ok) := queue_bytes pkt (con s) in (s <| con := c |>, ok).
Definition reply_packet pkt s : server * bool :=
  let '(c, ok) := queue_packet pkt (con s) in (s <| con := c |>, ok).

(** [if (!queue_packet(...)) return false;] *)
Definition and_then (r : server * bool) (k : server → server * bool) : server * bool :=
  let '(s, ok) := r in if ok then k s else (s, false).

Definition set_chklen (len : Z) s : server := on_con (λ c, c <| chklen := len |>) s.
Definition consume (len : Z) s : server := on_con (rbuf_consume len) s.
(** Clear the packet from the buffer. *)
Definition finish (len : Z) s : server := set_chklen 0 (consume len s).
(** [if (rbuf.get_length() < pkt_size) { chklen = pkt_size; return true; }] *)
Definition with_packet (pkt_size : Z) (k : server → server * bool) s : server * bool :=
  if rbuf_length (con s) <? pkt_size then (set_chklen pkt_size s, true) else k s.

(** An error response; the connection is bad. *)
Definition bad_request s : server * bool :=
  and_then (reply_bytes [cp_rply.BADREQ] s)
    (λ s, (on_con (λ c, c <| bad_conn_close := true |>) s, true)).
(** A reply to a packet that is cleared afterwards. *)
Definition reply_finish (code len : Z) s : server * bool :=
  and_then (reply_bytes [code] s) (λ s, (finish len s, true)).

(** ** Handles *)

Definition add_listener x (st : psys) : psys :=
  upd x (λ r, r <| listeners ::= λ l, if bool_decide (me ∈ l) then l else me :: l |>) st.
Definition remove_listener x (st : psys) : psys :=
  upd x (λ r, r <| listeners ::= filter (λ l, l ≠ me) |>) st.

Definition allocate_service_handle x s : server * Z :=
  let candidate := free_handle 0 (key_service_map (con s)) in
  let is_unique := bool_decide (handles_of x (con s) = []) in
  let! s := when is_unique (on_services (add_listener x)) s in
  (on_con (add_handle x candidate) s, candidate).

Definition handle_at (i : nat) s : Z := rbuf_int i 4 (con s).
Definition service_at (i : nat) s : option sid := find_service_for_key (handle_at i s) (con s).

(** ** Finding and loading services *)

Definition find_load (pkt_type : Z) (name : text) s : server * (sid + Z) :=
  if pkt_type =? cp_cmd.LOADSERVICE then
    let '(s, r) := on_services_ret (load_description name) s in
    (s, match r with
        | inl x => inl x
        | inr Description_failure => inr cp_rply.SERVICE_DESC_ERR
        | inr Not_found_failure => inr cp_rply.NOSERVICE
        | inr Load_failure => inr cp_rply.SERVICE_LOAD_ERR
        end)
  else
    (s, match find_service (to_string name) false (services s) with
        | Some x => inl x
        | None => inr cp_rply.NOSERVICE
        end).

Definition process_find_load (pkt_type : Z) s : server * bool :=
  with_packet 4 (λ s,
    let srvname_len := rbuf_int 1 2 (con s) in
    if (srvname_len <=? 0) || (1024 - 3 <? srvname_len) then bad_request s
    else
      let! s := set_chklen (srvname_len + 3) s in
      if rbuf_length (con s) <? chklen (con s) then (s, true)
      else
        let service_name := rbuf_extract 3 (Z.to_nat srvname_len) (con s) in
        let! s := finish (chklen (con s)) s in
        let '(s, r) := find_load pkt_type (c_str service_name) s in
        match r with
        | inr fail_code => reply_packet [fail_code] s
        | inl x =>
            let '(s, handle) := allocate_service_handle x s in
            reply_packet ([cp_rply.SERVICERECORD; state_code (get_state (services s) x)]
                          ++ le_bytes 4 handle
                          ++ [state_code (get_target_state (services s) x)]) s
        end) s.

(** The loop that looks for the handle among those of the service ends behind the last when
    it is not there, which is undefined. *)
Definition process_close_handle s : server * bool :=
  with_packet 5 (λ s,
    let handle := handle_at 1 s in
    let! s := finish 5 s in
    match find_service_for_key handle (con s) with
    | None => bad_request s
    | Some x =>
        let! s := on_con (erase_key handle) s in
        let handles := handles_of x (con s) in
        if negb (bool_decide (handle ∈ handles))
        then (on_con (λ c, c <| undefined := true |>) s, false)
        else
          let have_other_handle := (1 <? length handles)%nat in
          let! s := on_con (erase_handle x handle) s in
          let! s := when (negb have_other_handle) (on_services (remove_listener x)) s in
          reply_bytes [cp_rply.ACK] s
    end) s.

(** ** Starting and stopping *)

(** The dependents that would have to stop, with a new handle for each. *)
Definition dependent_turn d (acc : server * list Z) : server * list Z :=
  let '(s, handles) := acc in
  let dpt := dep (services s) d in
  if bool_decide (dep_type dpt = dependency_type.REGULAR) && holding_acq dpt then
    let '(s, handle) := allocate_service_handle (dep_from dpt) s in
    (s, handles ++ [handle])
  else (s, handles).

(** [check_dependents]: the result of [queue_packet], and whether there are any. *)
Definition check_dependents x s : server * (bool * bool) :=
  let '(s, handles) :=
    for_each (dependents (svc (services s) x)) dependent_turn (s, []) in
  match handles with
  | [] => (s, (true, false))
  | _ =>
      let '(s, ok) :=
        reply_packet (cp_rply.DEPENDENTS :: le_bytes 8 (Z.of_nat (length handles))
                      ++ concat (le_bytes 4 <$> handles)) s in
      (s, (ok, true))
  end.

(** How a command ends: with a reply, with a reply that was sent already, or with an error
    of the connection. *)
Variant outcome := Reply (code : Z) | Answered | Close.

Definition reply_if_in (state : service_state_t) x s : outcome :=
  Reply (if bool_decide (get_state (services s) x = state) then cp_rply.ALREADYSS
         else cp_rply.ACK).

Definition blocks_start (st : psys) x : bool :=
  (bool_decide (get_state st x = service_state_t.STOPPED)
   || bool_decide (get_state st x = service_state_t.STOPPING))
  && pinned_stopped (svc st x).
Definition blocks_stop (st : psys) x : bool :=
  (bool_decide (get_state st x = service_state_t.STARTED)
   || bool_decide (get_state st x = service_state_t.STARTING))
  && is_start_pinned (svc st x).

Definition start_command x (do_pin : bool) s : server * outcome :=
  if is_shutting_down (services s) then (s, Reply cp_rply.SHUTTINGDOWN)
  else if blocks_start (services s) x then (s, Reply cp_rply.PINNEDSTOPPED)
  else
    let! s := on_services (λ st,
      let! st := when do_pin (pin_start x) st in
      let! st := start x st in
      process_queues n st) s in
    (s, reply_if_in service_state_t.STARTED x s).

Definition stop_now x (do_pin do_restart : bool) s : server * outcome :=
  if do_restart then
    let '(s, ok) := on_services_ret (restart x) s in
    if negb ok then (s, Reply cp_rply.NAK)
    else
      let! s := on_services (process_queues n) s in
      (s, reply_if_in service_state_t.STARTED x s)
  else
    let! s := on_services (λ st,
      let! st := when do_pin (pin_stop x) st in
      let! st := stop x true st in
      let! st := forced_stop x st in
      process_queues n st) s in
    (s, reply_if_in service_state_t.STOPPED x s).

Definition stop_command x (do_pin gentle do_restart : bool) s : server * outcome :=
  if do_restart && is_shutting_down (services s) then (s, Reply cp_rply.SHUTTINGDOWN)
  else if blocks_stop (services s) x then (s, Reply cp_rply.PINNEDSTARTED)
  else if gentle then
    let '(s, (ok, has_dependents)) := check_dependents x s in
    if negb ok then (s, Close)
    else if has_dependents then (s, Answered)
    else stop_now x do_pin do_restart s
  else stop_now x do_pin do_restart s.

(** The service is attached to its started dependents again. *)
Definition wake_turn d (acc : psys * bool) : psys * bool :=
  let '(st, found_dpt) := acc in
  let dpt := dep st d in
  if is_only_ordering dpt then acc
  else
    let from_state := get_state st (dep_from dpt) in
    if bool_decide (from_state = service_state_t.STARTED)
       || bool_decide (from_state = service_state_t.STARTING)
    then (when (negb (holding_acq dpt)) (start_dep d) st, true)
    else acc.

Definition wake_command x (do_pin : bool) s : server * outcome :=
  if is_shutting_down (services s) then (s, Reply cp_rply.SHUTTINGDOWN)
  else if blocks_start (services s) x then (s, Reply cp_rply.PINNEDSTOPPED)
  else
    let '(s, found_dpt) := on_services_ret (λ st,
      let '(st, found_dpt) :=
        for_each (dependents (svc st x)) wake_turn (st, false) in
      let! st := when do_pin (pin_start x) st in
      (process_queues n st, found_dpt)) s in
    (s, if bool_decide (get_state (services s) x = service_state_t.STARTED)
        then Reply cp_rply.ALREADYSS
        else Reply (if found_dpt then cp_rply.ACK else cp_rply.NAK)).

Definition release_command x (do_pin : bool) s : server * outcome :=
  let! s := on_services (λ st,
    let! st := when do_pin (pin_stop x) st in
    let! st := stop x false st in
    process_queues n st) s in
  (s, reply_if_in service_state_t.STOPPED x s).

Definition start_stop (pkt_type flags : Z) x s : server * outcome :=
  let do_pin := Z.testbit flags 0 in
  if pkt_type =? cp_cmd.STARTSERVICE then start_command x do_pin s
  else if pkt_type =? cp_cmd.STOPSERVICE
  then stop_command x do_pin (Z.testbit flags 1) (Z.testbit flags 2) s
  else if pkt_type =? cp_cmd.WAKESERVICE then wake_command x do_pin s
  else if pkt_type =? cp_cmd.RELEASESERVICE then release_command x do_pin s
  else (s, Close).

Definition process_start_stop (pkt_type : Z) s : server * bool :=
  with_packet 6 (λ s,
    let flags := rbuf_at 1 (con s) in
    match service_at 2 s with
    | None => bad_request s
    | Some x =>
        and_then
          (if Z.testbit flags 7 then reply_bytes [cp_rply.PREACK] s else (s, true))
          (λ s,
            let '(s, r) := start_stop pkt_type flags x s in
            match r with
            | Close => (s, false)
            | Answered => (finish 6 s, true)
            | Reply code => reply_finish code 6 s
            end)
    end) s.

Definition process_unpin_service s : server * bool :=
  with_packet 5 (λ s,
    match service_at 1 s with
    | None => bad_request s
    | Some x =>
        let! s := on_services (λ st, process_queues n (unpin n x st)) s in
        reply_finish cp_rply.ACK 5 s
    end) s.

(** ** Unloading and reloading *)

Definition process_unload_service s : server * bool :=
  with_packet 5 (λ s,
    let handle := handle_at 1 s in
    match service_at 1 s with
    | None => bad_request s
    | Some x =>
        if negb (has_lone_ref (services s) x true)
           || bool_decide (get_state (services s) x ≠ service_state_t.STOPPED)
        then reply_finish cp_rply.NAK 5 s
        else
          let! s := on_services (unload_service x) s in
          let! s := on_con (erase_service x) s in
          let! s := on_con (erase_key handle) s in
          reply_finish cp_rply.ACK 5 s
    end) s.

Definition process_reload_service s : server * bool :=
  with_packet 5 (λ s,
    let handle := handle_at 1 s in
    match service_at 1 s with
    | None => bad_request s
    | Some x =>
        if negb (has_lone_ref (services s) x false) then reply_finish cp_rply.NAK 5 s
        else
          let! s := on_con (erase_key handle) s in
          let! s := on_con (erase_service x) s in
          let! s := on_services (remove_listener x) s in
          let '(s, r) := on_services_ret (reload_description x) s in
          match r with
          | None =>
              let! s := on_services (process_queues n) s in
              reply_finish cp_rply.ACK 5 s
          | Some _ => reply_finish cp_rply.NAK 5 s
          end
    end) s.

(** ** Listing and status *)

(** A name of 256 characters is announced as 0 in the byte for its length. *)
Definition service_info (fill : service_status → list Z) x s : list Z :=
  let name := chars (service_name (svc (services s) x)) in
  let name_len := Nat.min 256 (length name) in
  [cp_rply.SVCINFO; Z.of_nat name_len mod 256] ++ fill (status_of (services s) x)
  ++ take name_len name.

Fixpoint send_services (fill : service_status → list Z) (slist : list sid) s : server * bool :=
  match slist with
  | [] => reply_bytes [cp_rply.LISTDONE] s
  | x :: slist =>
      if is_placeholder (services s) x then send_services fill slist s
      else and_then (reply_packet (service_info fill x s) s) (send_services fill slist)
  end.

Definition list_services_with (fill : service_status → list Z) s : server * bool :=
  let! s := finish 1 s in
  send_services fill (records (services s)) s.
Definition list_services : server → server * bool := list_services_with fill_status_buffer.
Definition list_services5 : server → server * bool := list_services_with fill_status_buffer5.

Definition name_too_long (st : psys) x : bool :=
  65535 <? Z.of_nat (String.length (service_name (svc st x))).

Definition service_status_with (fill : service_status → list Z) s : server * bool :=
  with_packet 5 (λ s,
    let service := service_at 1 s in
    let! s := finish 5 s in
    match service with
    | None => reply_bytes [cp_rply.NAK] s
    | Some x =>
        if name_too_long (services s) x then reply_bytes [cp_rply.NAK] s
        else reply_packet ([cp_rply.SERVICESTATUS; 0] ++ fill (status_of (services s) x)) s
    end) s.
Definition process_service_status : server → server * bool :=
  service_status_with fill_status_buffer.
Definition process_service_status5 : server → server * bool :=
  service_status_with fill_status_buffer5.

Definition process_query_name s : server * bool :=
  with_packet 6 (λ s,
    let service := service_at 2 s in
    let! s := finish 6 s in
    match service with
    | None => reply_bytes [cp_rply.NAK] s
    | Some x =>
        if name_too_long (services s) x then reply_bytes [cp_rply.NAK] s
        else
          let name := chars (service_name (svc (services s) x)) in
          reply_packet ([cp_rply.SERVICENAME; 0] ++ le_bytes 2 (Z.of_nat (length name)) ++ name) s
    end) s.

Definition process_query_dsc_dir s : server * bool :=
  with_packet 6 (λ s,
    let spare_ok := rbuf_at 1 (con s) =? 0 in
    let service := service_at 2 s in
    let! s := finish 6 s in
    match service with
    | None => reply_bytes [cp_rply.NAK] s
    | Some x =>
        if negb spare_ok then reply_bytes [cp_rply.NAK] s
        else
          let dir := chars (service_dsc_dir (svc (services s) x)) in
          reply_packet (cp_rply.SVCDSCDIR :: le_bytes 4 (Z.of_nat (length dir)) ++ dir) s
    end) s.

(** *** The load path

    The size for [getcwd] is doubled until the directory fits, or the size wraps around. *)
Fixpoint find_cwd (fuel : nat) (try_path_size : Z) : option text :=
  match fuel with
  | O => None
  | S fuel =>
      match cwd with
      | Some dir => if Z.of_nat (length dir) <? try_path_size then Some dir
                    else let size := u32 (try_path_size * 2) in
                         if size <? try_path_size then None else find_cwd fuel size
      | None => let size := u32 (try_path_size * 2) in
                if size <? try_path_size then None else find_cwd fuel size
      end
  end.

Definition counted (dir : text) : list Z := le_bytes 4 (Z.of_nat (length dir)) ++ dir.

Definition query_load_mech s : server * bool :=
  let! s := finish 1 s in
  match load_dirs with
  | None => reply_bytes [cp_rply.NAK] s
  | Some dirs =>
      match find_cwd 32 4096 with
      | None => reply_bytes [cp_rply.NAK] s
      | Some wd =>
          let body := le_bytes 4 (Z.of_nat (length dirs)) ++ counted wd
                      ++ concat (counted <$> dirs) in
          reply_packet ([cp_rply.LOADER_MECH; 1]
                        ++ le_bytes 4 (6 + Z.of_nat (length body)) ++ body) s
      end
  end.

(** ** Dependencies *)

(** The search for a chain of dependencies from the services in the queue to [from];
    [dep_queue] is a vector that is used from its end, here in reverse.  [None]: out of
    fuel. *)
Fixpoint add_marked from (ts : list sid) (marks queue : list sid) : option (list sid * list sid) :=
  match ts with
  | [] => Some (marks, queue)
  | to :: ts =>
      if decide (to = from) then None
      else if bool_decide (to ∈ marks) then add_marked from ts marks queue
      else add_marked from ts (to :: marks) (to :: queue)
  end.
Fixpoint chain_loop (fuel : nat) (st : psys) from (marks queue : list sid) : option bool :=
  match queue with
  | [] => Some false
  | x :: queue =>
      match fuel with
      | O => None
      | S fuel =>
          match add_marked from (targets st x) marks queue with
          | None => Some true
          | Some (marks, queue) => chain_loop fuel st from marks queue
          end
      end
  end.
(** A service is in the queue once as the target of a dependency, and [to] once more. *)
Definition chain_fuel (st : psys) : nat := size (deps st) + 1.
Definition has_chain (st : psys) (from to : sid) : option bool :=
  chain_loop (chain_fuel st) st from [] [to].

Definition find_dep (st : psys) (from to : sid) (ty : dependency_type) : option did :=
  List.find (λ d, bool_decide (dep_to (dep st d) = to) && bool_decide (dep_type (dep st d) = ty))
    (depends_on (svc st from)).

Definition running (st : psys) x : bool :=
  bool_decide (get_state st x = service_state_t.STARTED)
  || bool_decide (get_state st x = service_state_t.STARTING).

(** The dependency is there afterwards; with [do_enable] it is also started. *)
Definition enable_dep (from : sid) d (do_enable : bool) (st : psys) : psys :=
  when (do_enable && running st from && negb (is_shutting_down st))
    (λ st, process_queues n (start_dep d st)) st.
Definition make_dep (from to : sid) (ty : dependency_type) (do_enable : bool) (st : psys) : psys :=
  match find_dep st from to ty with
  | Some d => enable_dep from d do_enable st
  | None =>
      let '(st, d) := add_dep from to ty (length (depends_on (svc st from))) st in
      let! st := process_queues n st in
      enable_dep from d do_enable st
  end.

(** The handler goes on after the error response for a type of dependency that cannot be
    added, with what the cast makes of the number. *)
Definition check_dep_type (code : Z) s : server * bool :=
  if bool_decide (code ∈ [3; 0; 2]) then (s, true) else bad_request s.
Definition with_dependency (k : sid → sid → dependency_type → server → server * bool) s
    : server * bool :=
  with_packet 10 (λ s,
    match service_at 2 s, service_at 6 s with
    | Some from, Some to =>
        if decide (from = to) then bad_request s
        else
          let code := signed 8 (rbuf_at 1 (con s)) in
          and_then (check_dep_type code s)
            (k from to (dependency_of_code code))
    | _, _ => bad_request s
    end) s.

Definition contradicted (st : psys) (from to : sid) (ty : dependency_type) : bool :=
  bool_decide (ty = dependency_type.REGULAR)
  && bool_decide (get_state st from ≠ service_state_t.STOPPED)
  && bool_decide (get_state st to ≠ service_state_t.STARTED).

Definition add_service_dep (do_enable : bool) s : server * bool :=
  with_dependency (λ from to ty s,
    if contradicted (services s) from to ty then reply_finish cp_rply.NAK 10 s
    else
      match has_chain (services s) from to with
      | Some false =>
          let! s := on_services (make_dep from to ty do_enable) s in
          reply_finish cp_rply.ACK 10 s
      | Some true => reply_finish cp_rply.NAK 10 s
      | None => (on_con (λ c, c <| undefined := true |>) s, false)
      end) s.

Definition rm_service_dep s : server * bool :=
  with_dependency (λ from to ty s,
    let '(s, did_remove) := on_services_ret (λ st,
      let '(st, did_remove) := rm_dep from to ty st in
      (process_queues n st, did_remove)) s in
    reply_finish (if did_remove : bool then cp_rply.ACK else cp_rply.NAK) 10 s) s.

(** ** The environment *)

Definition process_setenv s : server * bool :=
  with_packet 4 (λ s,
    let envvar_len := rbuf_int 1 2 (con s) in
    if (envvar_len <=? 0) || (1024 - 3 <? envvar_len) then bad_request s
    else
      let! s := set_chklen (envvar_len + 3) s in
      if rbuf_length (con s) <? chklen (con s) then (s, true)
      else
        let env_var := rbuf_extract 3 (Z.to_nat envvar_len) (con s) in
        if negb (has_eq env_var) then
          let! s := on_env (undefine_var environ env_var true) s in
          reply_finish cp_rply.ACK (chklen (con s)) s
        else if bool_decide (name_part env_var = []) then bad_request s
        else
          let! s := on_env (set_var environ env_var true) s in
          reply_finish cp_rply.ACK (chklen (con s)) s) s.

(** The length to wait for is not set back. *)
Definition process_getallenv s : server * bool :=
  with_packet 2 (λ s,
    if negb (rbuf_at 1 (con s) =? 0) then bad_request s
    else
      let! s := consume 2 s in
      let env := build environ (main_env s) in
      let block := concat ((λ v, c_str v ++ [0]) <$> omap id (env_list env)) in
      reply_packet (cp_rply.ALLENV :: le_bytes 8 (Z.of_nat (length block)) ++ block) s) s.

Definition process_listenenv s : server * bool :=
  let! s := consume 1 s in
  let! s := s <| main_env ::= Env.add_listener me |> in
  reply_bytes [cp_rply.ACK] s.

(** ** Services with a trigger, a log or a process *)

Definition process_set_trigger s : server * bool :=
  with_packet 6 (λ s,
    let service := service_at 1 s in
    let trigger_val := rbuf_at 5 (con s) in
    let! s := finish 6 s in
    match service with
    | None => reply_bytes [cp_rply.NAK] s
    | Some x =>
        if negb (is_trigger (services s) x) then reply_bytes [cp_rply.NAK] s
        else
          let! s := on_services (λ st,
            process_queues n (set_trigger n x (negb (trigger_val =? 0)) st)) s in
          reply_bytes [cp_rply.ACK] s
    end) s.

Definition process_catlog s : server * bool :=
  with_packet 6 (λ s,
    let flags := rbuf_at 1 (con s) in
    let service := service_at 2 s in
    let! s := finish 6 s in
    match service with
    | None => reply_bytes [cp_rply.NAK] s
    | Some x =>
        let p := proc_of (services s) x in
        if negb (is_base_process (services s) x)
           || negb (bool_decide (log_type p = log_type_id.BUFFER))
        then reply_bytes [cp_rply.NAK] s
        else
          let buflen := LogBuffer.log_buf_size (lbuf p) in
          let pkt := [cp_rply.SERVICE_LOG; 0] ++ le_bytes 4 buflen
                     ++ take (Z.to_nat buflen) (LogBuffer.vec (lbuf p)) in
          let! s := when (Z.testbit flags 0) (on_services (clear_log_buffer x)) s in
          reply_packet pkt s
    end) s.

Definition EINVAL : Z := 22.
(** [kill]: 0, or the number of the error. *)
Definition kill_result (pid signo : Z) (st : psys) : psys * Z :=
  let! '(st, r) := os_result st in
  if r =? 0 then (emit (Kill pid signo) st, 0) else os_result st.

Definition process_signal s : server * bool :=
  with_packet 9 (λ s,
    let sig_num := signed 32 (rbuf_int 1 4 (con s)) in
    let service := service_at 5 s in
    let! s := finish 9 s in
    match service with
    | None => reply_bytes [cp_rply.NAK] s
    | Some x =>
        let spid := proc_get_pid (services s) x in
        if (spid =? -1) || (spid =? 0) then reply_bytes [cp_rply.SIGNAL_NOPID] s
        else
          let '(s, r) := on_services_ret (kill_result spid sig_num) s in
          if r =? 0 then reply_bytes [cp_rply.ACK] s
          else if r =? EINVAL then reply_bytes [cp_rply.SIGNAL_BADSIG] s
          else reply_bytes [cp_rply.SIGNAL_KILLERR] s
    end) s.

(** ** Requests *)

Definition min_compat_version : Z := 1.
Definition cp_version : Z := 5.

Definition query_version s : server * bool :=
  and_then (reply_bytes (cp_rply.CPVERSION :: le_bytes 2 min_compat_version
                         ++ le_bytes 2 cp_version) s)
    (λ s, (consume 1 s, true)).

Definition process_shutdown s : server * bool :=
  with_packet 2 (λ s,
    match shutdown_of_code (signed 8 (rbuf_at 1 (con s))) with
    | None | Some shutdown_type_t.NONE => bad_request s
    | Some type =>
        let! s := on_services (stop_all_services n type) s in
        reply_finish cp_rply.ACK 2 s
    end) s.

Definition handlers : list (Z * (server → server * bool)) :=
  [(cp_cmd.QUERYVERSION, query_version);
   (cp_cmd.FINDSERVICE, process_find_load cp_cmd.FINDSERVICE);
   (cp_cmd.LOADSERVICE, process_find_load cp_cmd.LOADSERVICE);
   (cp_cmd.CLOSEHANDLE, process_close_handle);
   (cp_cmd.STARTSERVICE, process_start_stop cp_cmd.STARTSERVICE);
   (cp_cmd.STOPSERVICE, process_start_stop cp_cmd.STOPSERVICE);
   (cp_cmd.WAKESERVICE, process_start_stop cp_cmd.WAKESERVICE);
   (cp_cmd.RELEASESERVICE, process_start_stop cp_cmd.RELEASESERVICE);
   (cp_cmd.UNPINSERVICE, process_unpin_service);
   (cp_cmd.UNLOADSERVICE, process_unload_service);
   (cp_cmd.RELOADSERVICE, process_reload_service);
   (cp_cmd.SHUTDOWN, process_shutdown);
   (cp_cmd.LISTSERVICES, list_services);
   (cp_cmd.LISTSERVICES5, list_services5);
   (cp_cmd.SERVICESTATUS, process_service_status);
   (cp_cmd.SERVICESTATUS5, process_service_status5);
   (cp_cmd.ADD_DEP, add_service_dep false);
   (cp_cmd.REM_DEP, rm_service_dep);
   (cp_cmd.QUERY_LOAD_MECH, query_load_mech);
   (cp_cmd.ENABLESERVICE, add_service_dep true);
   (cp_cmd.QUERYSERVICENAME, process_query_name);
   (cp_cmd.SETENV, process_setenv);
   (cp_cmd.GETALLENV, process_getallenv);
   (cp_cmd.LISTENENV, process_listenenv);
   (cp_cmd.SETTRIGGER, process_set_trigger);
   (cp_cmd.CATLOG, process_catlog);
   (cp_cmd.SIGNAL, process_signal);
   (cp_cmd.QUERYSERVICEDSCDIR, process_query_dsc_dir)].

Definition process_packet s : server * bool :=
  match List.find (λ h, h.1 =? rbuf_at 0 (con s)) handlers with
  | Some (_, handler) => handler s
  | None => bad_request s
  end.

(** ** Events of the connection *)

Variant read_result :=
  | Read_bytes (bytes : list Z)        (* no bytes: end of file *)
  | Read_again
  | Read_error.

(** The loop over the packets: whether it has ended because more bytes are needed.  Every
    turn consumes a packet, waits for more bytes or ends the connection, so that the number
    of bytes is enough fuel.  [None]: the fuel is used up. *)
Fixpoint packet_loop (fuel : nat) s : option (server * bool) :=
  if rbuf_length (con s) <? chklen (con s) then Some (s, true)
  else
    match fuel with
    | O => None
    | S fuel =>
        let '(s, ok) := process_packet s in
        if negb ok || bad_conn_close (con s) then Some (s, false)
        else packet_loop fuel (set_chklen (Z.max (chklen (con s)) 1) s)
    end.

(** [data_ready]: whether the connection is to be closed. *)
Definition data_ready (r : read_result) s : option (server * bool) :=
  match r with
  | Read_error => Some (s, true)
  | Read_again => Some (s, false)
  | Read_bytes [] => Some (s, true)
  | Read_bytes bytes =>
      let! s := on_con (λ c, c <| rbuf ::= λ b, b ++ bytes |>) s in
      '(s, more) ← packet_loop (S (length (rbuf (con s)))) s;
      if (more : bool) && (rbuf_length (con s) =? 1024)
      then Some (on_con (λ c, c <| bad_conn_close := true |>) s, false)
      else Some (s, false)
  end.

(** The destructor. *)
Definition close_connection s : server :=
  let! s :=
    for_each (service_key_map (con s)) (λ p, on_services (remove_listener p.1)) s in
  s <| main_env ::= Env.remove_listener me |>.

(** [control_conn_cb]: whether the connection is deleted. *)
Variant conn_event := Readable (r : read_result) | Writable.
Definition control_conn_cb (ev : conn_event) s : option (server * bool) :=
  '(s, delete) ←
    match ev with
    | Readable r => data_ready r s
    | Writable => let '(c, close) := send_data (con s) in Some (s <| con := c |>, close)
    end;
  if delete : bool then Some (close_connection s, true) else Some (on_con set_watches s, false).
End server.
