(* ===== verification/ControlLaws.v ===== *)
(** * The control protocol server: requests and services

    Whatever a client sends, the server only does to the services what the operations of the
    service set do. *)

From S2P Require Import Prelude Text ServiceData Service ServiceInv ServiceInvOps ServiceGraph ServiceFuel ServiceLinks ServiceReach TimeVal Loader Process ProcessRun ProcessEvents ProcessLaws ProcessMemory HashSet Env ControlConn Control.

(** ** The services are only changed by [on_services] *)

Section effects.
Context (environ : list text) (me : nat).
Implicit Types (s : server) (x : sid) (pkt : list Z).

Lemma services_deliver a s : services (deliver me a s) = services s.
Proof. destruct a; cbn; [|done..]. by destruct (bool_decide _). Qed.
Lemma services_on_services_ret {A} (f : psys → psys * A) s :
  services (on_services_ret me f s).1 = (f (services s)).1.
Proof.
  unfold on_services_ret. destruct (f (services s)) as [st' a]. cbn.
  apply (for_each_inv (λ s', services s' = st')); [done|]. intros ac s' _ Hs.
  by rewrite services_deliver.
Qed.
Lemma services_on_services f s : services (on_services me f s) = f (services s).
Proof. unfold on_services. by rewrite services_on_services_ret. Qed.
Lemma on_services_ret_snd {A} (f : psys → psys * A) s :
  (on_services_ret me f s).2 = (f (services s)).2.
Proof. unfold on_services_ret. by destruct (f (services s)). Qed.
Lemma services_on_env f s : services (on_env me f s) = services s.
Proof. unfold on_env. destruct (f _) as [e [[v o]|]]; [|done]. cbn. by destruct (bool_decide _). Qed.
Lemma services_reply_bytes pkt s : services (reply_bytes pkt s).1 = services s.
Proof. unfold reply_bytes. by destruct (queue_bytes _ _). Qed.
Lemma services_reply_packet pkt s : services (reply_packet pkt s).1 = services s.
Proof. unfold reply_packet. by destruct (queue_packet _ _). Qed.
End effects.

#[export] Instance proc_link_laws : ServiceLinkLaws proc_ext.
Proof. split. intros name st. apply same_links_refl. Qed.

(** The new record is a dependency of its service. *)
Lemma add_dep_in {X} `{!ServiceVirtual X} x to ty i (st : sys X) :
  (add_dep x to ty i st).2 ∈ depends_on (svc (add_dep x to ty i st).1 x).
Proof.
  unfold add_dep. set (d := fresh _). unfold seq. cbn [fst snd].
  set (st1 := upd x (λ r, r <| depends_on ::= insert_at i d |>) (st <| deps := _ |>)).
  assert (d ∈ depends_on (svc st1 x)) as H1.
  { unfold st1. rewrite svc_upd_eq. rsimpl. unfold insert_at. rewrite elem_of_app, elem_of_cons. auto. }
  assert (∀ f y (s : sys X), keeps f depends_on → d ∈ depends_on (svc s x) → d ∈ depends_on (svc (upd y f s) x))
    as Hu.
  { intros f y s Hf Hs. rewrite svc_upd. case_decide; [subst|done]. by rewrite Hf. }
  apply (when_inv (λ s : sys X, d ∈ depends_on (svc s x)));
    [apply Hu; [by intros r; rsimpl|done]|]. intros _ Hs.
  change (svc (upd_dep ?e ?f ?s) x) with (svc s x). unfold require, seq, when.
  destruct (_ && _ && _); [|apply Hu; [by intros r; rsimpl|done]].
  unfold add_prop_queue. destruct (slist_is_queued _ _);
    [|change (svc (?s <| prop_queue ::= ?g |>) x) with (svc s x)];
    (apply Hu; [by intros r; rsimpl|]); (apply Hu; [by intros r; rsimpl|done]).
Qed.

(** ** Requests as steps of the service set *)

Create HintDb server.

Section steps.
Context (environ : list text) (me : nat) (n : nat) {Loading : ServiceLoading}.
Context (load_dirs : option (list text)) (cwd : option text).
Context (P : psys → Prop) (HP : ∀ st st', set_step st st' → P st → P st').
Implicit Types (s : server) (x y : sid) (pkt : list Z) (st : psys).

Definition holds s : Prop := P (services s).

Lemma holds_on_con f s : holds s → holds (on_con f s).
Proof. done. Qed.
Lemma holds_on_services_ret {A} (f : psys → psys * A) s :
  holds s → (∀ st, P st → P (f st).1) → holds (on_services_ret me f s).1.
Proof. intros H Hf. unfold holds. rewrite services_on_services_ret. by apply Hf. Qed.
Lemma holds_on_services f s : holds s → (∀ st, P st → P (f st)) → holds (on_services me f s).
Proof. intros H Hf. unfold holds. rewrite services_on_services. by apply Hf. Qed.
Lemma holds_on_env f s : holds s → holds (on_env me f s).
Proof. unfold holds. by rewrite services_on_env. Qed.
Lemma holds_reply_bytes pkt s : holds s → holds (reply_bytes pkt s).1.
Proof. unfold holds. by rewrite services_reply_bytes. Qed.
Lemma holds_reply_packet pkt s : holds s → holds (reply_packet pkt s).1.
Proof. unfold holds. by rewrite services_reply_packet. Qed.
Lemma holds_and_then r k :
  holds r.1 → (∀ s, holds s → holds (k s).1) → holds (and_then r k).1.
Proof. destruct r as [s []]; cbn; auto. Qed.
Lemma holds_with_packet size k s :
  holds s → (∀ s, holds s → holds (k s).1) → holds (with_packet size k s).1.
Proof. intros H Hk. unfold with_packet. destruct (_ <? _); [done|]. by apply Hk. Qed.
Lemma holds_bad_request s : holds s → holds (bad_request s).1.
Proof. intros H. apply holds_and_then; [by apply holds_reply_bytes|done]. Qed.
Lemma holds_reply_finish code len s : holds s → holds (reply_finish code len s).1.
Proof. intros H. apply holds_and_then; [by apply holds_reply_bytes|done]. Qed.
#[local] Hint Resolve holds_on_con holds_on_env holds_reply_bytes holds_reply_packet
  holds_bad_request holds_reply_finish : server.

(** *** The operations of the service set *)

Lemma P_start x st : P st → P (start x st).
Proof. apply HP. constructor. Qed.
Lemma P_stop x b st : P st → P (stop x b st).
Proof. apply HP. constructor. Qed.
Lemma P_restart x st : P st → P (restart x st).1.
Proof. apply HP. constructor. Qed.
Lemma P_forced_stop x st : P st → P (forced_stop x st).
Proof. apply HP. constructor. Qed.
Lemma P_pin_start x st : P st → P (pin_start x st).
Proof. apply HP. constructor. Qed.
Lemma P_pin_stop x st : P st → P (pin_stop x st).
Proof. apply HP. constructor. Qed.
Lemma P_unpin x st : P st → P (unpin n x st).
Proof. apply HP. constructor. Qed.
Lemma P_process st : P st → P (process_queues n st).
Proof. apply HP. constructor. Qed.
Lemma P_stop_all type st : P st → P (stop_all_services n type st).
Proof. apply HP. constructor. Qed.
Lemma P_rm_dep x to ty st : P st → P (rm_dep x to ty st).1.
Proof. apply HP. constructor. Qed.
Lemma P_add_dep x to ty i st : P st → P (add_dep x to ty i st).1.
Proof. apply HP. constructor. Qed.
Lemma P_listeners x f st : P st → P (upd x (λ r, r <| listeners ::= f |>) st).
Proof. apply HP. apply step_configure. intros r. by destruct r. Qed.
Lemma P_derived st st' : derived_event n st st' → P st → P st'.
Proof. intros H. apply HP. by apply (step_derived n). Qed.
#[local] Hint Resolve P_start P_stop P_restart P_forced_stop P_pin_start P_pin_stop P_unpin
  P_process P_stop_all P_rm_dep P_add_dep P_listeners : server.

Ltac hstep :=
  first
    [ by auto with server
    | lazymatch goal with
      | |- holds (fst (and_then _ _)) => apply holds_and_then; [|intros ? ?]
      | |- holds (fst (with_packet _ _ _)) => apply holds_with_packet; [|intros ? ?]
      | |- holds (on_services _ _ _) => apply holds_on_services; [|intros ? ?]
      | |- holds (fst (on_services_ret _ _ _)) => apply holds_on_services_ret; [|intros ? ?]
      | |- holds (fst (let '(_, _) := ?r in _)) =>
          let H := fresh "H" in
          assert (holds (fst r)) as H; [|destruct r; cbn [fst] in H |- *]
      | _ => gstep
      end ].
Ltac hsolve := repeat hstep.

Lemma holds_add_listener x s : holds s → holds (on_services me (add_listener me x) s).
Proof. intros H. apply holds_on_services; [done|]. intros st. apply P_listeners. Qed.
Lemma holds_remove_listener x s : holds s → holds (on_services me (remove_listener me x) s).
Proof. intros H. apply holds_on_services; [done|]. intros st. apply P_listeners. Qed.
#[local] Hint Resolve holds_add_listener holds_remove_listener : server.

Lemma holds_allocate x s : holds s → holds (allocate_service_handle me x s).1.
Proof. intros H. unfold allocate_service_handle. hsolve. Qed.
#[local] Hint Resolve holds_allocate : server.

Lemma holds_close_handle s : holds s → holds (process_close_handle me s).1.
Proof. intros H. unfold process_close_handle, finish, set_chklen, consume. hsolve. Qed.

Lemma holds_check_dependents x s : holds s → holds (check_dependents me x s).1.
Proof.
  intros H. unfold check_dependents.
  assert (holds (for_each (dependents (svc (services s) x)) (dependent_turn me) (s, [])).1) as H1.
  { apply (for_each_inv (λ r, holds r.1)); [done|]. intros d [s' hs] _ H'. unfold dependent_turn.
    destruct (_ && _); [|done]. hsolve. }
  destruct (for_each _ _ _) as [s1 [|h hs]]; [done|]. cbn [fst] in H1. hsolve.
Qed.
#[local] Hint Resolve holds_check_dependents : server.

(** [start_dep] on the dependents of a service. *)
Lemma dependents_start_dep d st y :
  dependents (svc (start_dep d st) y) = dependents (svc st y).
Proof.
  unfold start_dep, require, seq. destruct (negb _); [|done]. cbn [when].
  change (svc (upd_dep ?d ?f ?st) y) with (svc st y).
  set (f := λ r : service_record, r <| required_by ::= Z.add 1 |>).
  assert (∀ st', dependents (svc (upd (dep_to (dep st d)) f st') y) = dependents (svc st' y)) as Hf.
  { intros st'. rewrite svc_upd. by case_decide; subst. }
  unfold when. destruct (_ && _); [|by rewrite Hf].
  unfold add_prop_queue. destruct (slist_is_queued _ _).
  - rewrite svc_upd. case_decide; [subst y; rsimpl|]; by rewrite Hf.
  - change (svc (?st <| prop_queue ::= ?g |>) y) with (svc st y).
    rewrite svc_upd. case_decide; [subst y; rsimpl|]; by rewrite Hf.
Qed.

Lemma P_wake x st :
  P st → P (for_each (dependents (svc st x)) wake_turn (st, false)).1.
Proof.
  intros H. set (Q := λ r : psys * bool, P r.1 ∧ dependents (svc r.1 x) = dependents (svc st x)).
  cut (Q (for_each (dependents (svc st x)) wake_turn (st, false))); [by intros []|].
  apply for_each_inv; [done|]. intros d [st' b] Hd [H1 H2]. cbn [fst] in *. unfold wake_turn.
  destruct (is_only_ordering _); [done|]. destruct (_ || _); [|done]. unfold when.
  destruct (negb _); [|done]. split; cbn [fst].
  - eapply HP; [|exact H1]. eapply (step_start_dep x). right. by rewrite H2.
  - by rewrite dependents_start_dep.
Qed.

Lemma holds_start_stop ty flags x s : holds s → holds (start_stop me n ty flags x s).1.
Proof.
  intros H. unfold start_stop. destruct (_ =? _); [|destruct (_ =? _); [|destruct (_ =? _);
    [|destruct (_ =? _); [|done]]]].
  - unfold start_command. hsolve.
  - assert (∀ p r s, holds s → holds (stop_now me n x p r s).1) as Hstop.
    { intros p r s' H'. unfold stop_now. destruct r; hsolve. }
    unfold stop_command. destruct (_ && _); [done|]. destruct (blocks_stop _ _); [done|].
    destruct (Z.testbit flags 1); [|by apply Hstop].
    pose proof (holds_check_dependents x s H) as Hc.
    destruct (check_dependents me x s) as [s' [[] []]]; cbn [fst negb] in *; try done. by apply Hstop.
  - unfold wake_command. destruct (is_shutting_down _); [done|]. destruct (blocks_start _ _); [done|].
    hstep; [|done]. hstep; [done|]. pose proof (P_wake x st H0) as Hw.
    destruct (for_each _ _ _) as [st1 b]. cbn [fst] in Hw. hsolve.
  - unfold release_command. hsolve.
Qed.
#[local] Hint Resolve holds_start_stop holds_close_handle : server.

Lemma holds_process_start_stop ty s : holds s → holds (process_start_stop me n ty s).1.
Proof.
  intros H. unfold process_start_stop. hstep; [done|]. destruct (service_at 2 s0) as [x|]; [|by hsolve].
  hstep; [destruct (Z.testbit _ _); by hsolve|].
  pose proof (holds_start_stop ty (rbuf_at 1 (con s0)) x s1 H1) as Hs.
  destruct (start_stop _ _ _ _ _ _) as [s3 [code| |]]; cbn [fst] in *; [|done..]. by hsolve.
Qed.

Lemma holds_unpin_service s : holds s → holds (process_unpin_service me n s).1.
Proof. intros H. unfold process_unpin_service. hsolve. Qed.

Lemma holds_send_services fill l s : holds s → holds (send_services fill l s).1.
Proof.
  revert s. induction l as [|x l IH]; intros s H; cbn [send_services]; [by hsolve|].
  destruct (is_placeholder _ _); [by apply IH|]. hstep; [by hsolve|]. by apply IH.
Qed.
Lemma holds_list_services fill s : holds s → holds (list_services_with fill s).1.
Proof.
  intros H. unfold list_services_with, finish, set_chklen, consume. hstep; [by hsolve|].
  by apply holds_send_services.
Qed.
Lemma holds_service_status fill s : holds s → holds (service_status_with fill s).1.
Proof. intros H. unfold service_status_with, finish, set_chklen, consume. hsolve. Qed.
Lemma holds_query_name s : holds s → holds (process_query_name s).1.
Proof. intros H. unfold process_query_name, finish, set_chklen, consume. hsolve. Qed.
Lemma holds_query_dsc_dir s : holds s → holds (process_query_dsc_dir s).1.
Proof. intros H. unfold process_query_dsc_dir, finish, set_chklen, consume. hsolve. Qed.
Lemma holds_query_load_mech s : holds s → holds (query_load_mech load_dirs cwd s).1.
Proof. intros H. unfold query_load_mech, finish, set_chklen, consume. hsolve. Qed.

(** *** Dependencies *)

Lemma P_enable_dep from d e st : d ∈ depends_on (svc st from) → P st → P (enable_dep n from d e st).
Proof.
  intros Hd H. unfold enable_dep, when. destruct (_ && _); [|done]. apply P_process.
  eapply HP; [|done]. eapply step_start_dep. by left.
Qed.

Lemma holds_with_dependency k s :
  holds s → (∀ from to ty s, holds s → holds (k from to ty s).1) →
  holds (with_dependency k s).1.
Proof.
  intros H Hk. unfold with_dependency. hstep; [done|].
  destruct (service_at 2 s0); [|by hsolve]. destruct (service_at 6 s0); [|by hsolve].
  destruct (decide _); [by hsolve|]. hstep.
  - unfold check_dep_type. destruct (bool_decide _); by hsolve.
  - by apply Hk.
Qed.

Lemma P_make_dep from to ty e st : P st → P (make_dep n from to ty e st).
Proof.
  intros H. unfold make_dep. destruct (find_dep st from to ty) as [d|] eqn:Hf.
  - apply P_enable_dep; [|done]. apply find_some in Hf as [Hd _]. by apply list_elem_of_In.
  - pose proof (add_dep_in from to ty (length (depends_on (svc st from))) st) as Hd.
    pose proof (P_add_dep from to ty (length (depends_on (svc st from))) st H) as Ha.
    destruct (add_dep _ _ _ _ st) as [st1 d]. cbn [fst snd] in *. apply P_enable_dep.
    + by rewrite (sl_depends _ _ (links_process_queues st1 n st1 (same_links_refl st1))).
    + by apply P_process.
Qed.

Lemma holds_add_service_dep e s : holds s → holds (add_service_dep me n e s).1.
Proof.
  intros H. apply holds_with_dependency; [done|]. intros from to ty s' H'.
  destruct (contradicted _ _ _ _); [by hsolve|]. destruct (has_chain _ _ _) as [[]|]; [by hsolve| |done].
  hstep; [|by hsolve]. hstep; [done|]. by apply P_make_dep.
Qed.

Lemma holds_rm_service_dep s : holds s → holds (rm_service_dep me n s).1.
Proof.
  intros H. apply holds_with_dependency; [done|]. intros from to ty s' H'.
  hstep; [|by hsolve]. hstep; [done|]. pose proof (P_rm_dep from to ty st H0) as Hr.
  destruct (rm_dep _ _ _ _) as [st' b]. by apply P_process.
Qed.

(** *** The environment, triggers, logs and signals *)

Lemma holds_setenv s : holds s → holds (process_setenv environ me s).1.
Proof. intros H. unfold process_setenv, set_chklen. hsolve. Qed.
Lemma holds_getallenv s : holds s → holds (process_getallenv environ s).1.
Proof. intros H. unfold process_getallenv, consume. hsolve. Qed.
Lemma holds_listenenv s : holds s → holds (process_listenenv me s).1.
Proof.
  intros H. unfold process_listenenv, consume. hstep; [by hsolve|].
  apply (seq_inv holds (λ p, holds p.1)); [exact H0|]. intros s1 H1. by hsolve.
Qed.
Lemma holds_set_trigger s : holds s → holds (process_set_trigger me n s).1.
Proof.
  intros H. unfold process_set_trigger, finish, set_chklen, consume. hsolve.
  apply P_process. eapply P_derived; [|done]. intros Q HC HQ. by apply (closed_set_trigger n Q HC).
Qed.
Lemma holds_catlog s : holds s → holds (process_catlog me s).1.
Proof.
  intros H. unfold process_catlog, finish, set_chklen, consume. hsolve.
  eapply P_derived; [|done]. intros Q HC HQ. apply (env_proc Q (cs_ext _ (cc_before _ _ _ _ HC))).
  done.
Qed.
Lemma P_kill pid signo st : P st → P (kill_result pid signo st).1.
Proof.
  apply P_derived. intros Q HC HQ. pose proof (cs_ext _ (cc_before _ _ _ _ HC)) as HE.
  unfold kill_result. pose proof (env_os_result Q HE st HQ) as H1. unfold seq.
  destruct (os_result st) as [st1 r]. cbn [fst] in H1. destruct (_ =? _).
  - by apply (env_emit Q HE).
  - by apply (env_os_result Q HE).
Qed.
Lemma holds_signal s : holds s → holds (process_signal me s).1.
Proof.
  intros H. unfold process_signal, finish, set_chklen, consume. hsolve. by apply P_kill.
Qed.
Lemma holds_query_version s : holds s → holds (query_version s).1.
Proof. intros H. unfold query_version. hsolve. Qed.
Lemma holds_shutdown s : holds s → holds (process_shutdown me n s).1.
Proof. intros H. unfold process_shutdown. hsolve. Qed.

Lemma holds_find_service s : holds s → holds (process_find_load me cp_cmd.FINDSERVICE s).1.
Proof.
  intros H. unfold process_find_load, finish, set_chklen, consume. hsolve.
Qed.
End steps.

(** The requests that read service descriptions or remove a service. *)
Definition loads_or_unloads : list Z :=
  [cp_cmd.LOADSERVICE; cp_cmd.UNLOADSERVICE; cp_cmd.RELOADSERVICE].

Section requests.
Context (environ : list text) (me : nat) (n : nat) `{Loading : ServiceLoading}.
Context (load_dirs : option (list text)) (cwd : option text).
Implicit Types (s : server).

Lemma handlers_hold (P : psys → Prop) :
  (∀ st st', set_step st st' → P st → P st') →
  Forall (λ h, h.1 ∉ loads_or_unloads → ∀ s, holds P s → holds P (h.2 s).1)
    (handlers environ me n load_dirs cwd).
Proof.
  intros HP. unfold handlers.
  repeat (apply list.Forall_cons; split); [..|by apply list.Forall_nil];
    cbn [fst snd]; intros Hn s Hs.
  - by apply holds_query_version.
  - by apply holds_find_service.
  - destruct Hn. by vm_compute; repeat constructor.
  - by apply holds_close_handle.
  - by apply holds_process_start_stop.
  - by apply holds_process_start_stop.
  - by apply holds_process_start_stop.
  - by apply holds_process_start_stop.
  - by apply holds_unpin_service.
  - destruct Hn. by vm_compute; repeat constructor.
  - destruct Hn. by vm_compute; repeat constructor.
  - by apply holds_shutdown.
  - by apply holds_list_services.
  - by apply holds_list_services.
  - by apply holds_service_status.
  - by apply holds_service_status.
  - by apply holds_add_service_dep.
  - by apply holds_rm_service_dep.
  - by apply holds_query_load_mech.
  - by apply holds_add_service_dep.
  - by apply holds_query_name.
  - by apply holds_setenv.
  - by apply holds_getallenv.
  - by apply holds_listenenv.
  - by apply holds_set_trigger.
  - by apply holds_catlog.
  - by apply holds_signal.
  - by apply holds_query_dsc_dir.
Qed.

Lemma process_packet_holds (P : psys → Prop) s :
  (∀ st st', set_step st st' → P st → P st') →
  rbuf_at 0 (con s) ∉ loads_or_unloads →
  P (services s) → P (services (process_packet environ me n load_dirs cwd s).1).
Proof.
  intros HP Hcmd H. unfold process_packet.
  destruct (List.find _ _) as [[code handler]|] eqn:Hf; [|by apply holds_bad_request].
  apply find_some in Hf as [Hin Hcode%Z.eqb_eq]. cbn [fst] in Hcode. rewrite <- Hcode in Hcmd.
  pose proof (handlers_hold P HP) as Hh. rewrite list.Forall_forall in Hh.
  apply (Hh (code, handler)); [by apply list_elem_of_In|done|done].
Qed.
End requests.
