(* ===== verification/ControlInput.v ===== *)
(** * The control protocol server: input

    A request is processed when all of its bytes are there, and exactly these bytes are
    taken from the buffer. *)

From S2P Require Import Prelude Text ServiceData Service TimeVal Process ProcessRun ProcessEvents Loader ProcessMemory HashSet Env ControlConn Control.

(** ** The size of a request *)

(** The requests of a fixed size. *)
Definition fixed_sizes : list (Z * Z) :=
  [(cp_cmd.QUERYVERSION, 1); (cp_cmd.CLOSEHANDLE, 5); (cp_cmd.STARTSERVICE, 6);
   (cp_cmd.STOPSERVICE, 6); (cp_cmd.WAKESERVICE, 6); (cp_cmd.RELEASESERVICE, 6);
   (cp_cmd.UNPINSERVICE, 5); (cp_cmd.UNLOADSERVICE, 5); (cp_cmd.RELOADSERVICE, 5);
   (cp_cmd.SHUTDOWN, 2); (cp_cmd.LISTSERVICES, 1); (cp_cmd.LISTSERVICES5, 1);
   (cp_cmd.SERVICESTATUS, 5); (cp_cmd.SERVICESTATUS5, 5); (cp_cmd.ADD_DEP, 10);
   (cp_cmd.REM_DEP, 10); (cp_cmd.QUERY_LOAD_MECH, 1); (cp_cmd.ENABLESERVICE, 10);
   (cp_cmd.QUERYSERVICENAME, 6); (cp_cmd.GETALLENV, 2); (cp_cmd.LISTENENV, 1);
   (cp_cmd.SETTRIGGER, 6); (cp_cmd.CATLOG, 6); (cp_cmd.SIGNAL, 9);
   (cp_cmd.QUERYSERVICEDSCDIR, 6)].

(** A request with a name: the size is known when the length of the name is. *)
Definition named_size (b : list Z) : Z :=
  if (length b <? 4)%nat then 4
  else
    let len := le_value (take 2 (drop 1 b)) in
    if (len <=? 0) || (1024 - 3 <? len) then 1 else len + 3.

Definition request_size (b : list Z) : Z :=
  let cmd := default 0 (b !! 0%nat) in
  if bool_decide (cmd ∈ [cp_cmd.FINDSERVICE; cp_cmd.LOADSERVICE; cp_cmd.SETENV])
  then named_size b
  else default 1 (snd <$> List.find (λ p, p.1 =? cmd) fixed_sizes).

(** ** What the handlers keep *)

Create HintDb input.

Section input.
Context (environ : list text) (me : nat) (n : nat) `{Loading : ServiceLoading}.
Context (load_dirs : option (list text)) (cwd : option text).
Implicit Types (s : server) (x : sid) (pkt b : list Z) (r : server * bool).

(** The buffer and the length to wait for, which is never more than the buffer can hold. *)
Record input_is b (k : Z) s : Prop := {
  in_rbuf : rbuf (con s) = b;
  in_chklen : chklen (con s) = k;
  in_small : k ≤ 1024
}.

Lemma input_con b k f s :
  rbuf (f (con s)) = rbuf (con s) → chklen (f (con s)) = chklen (con s) →
  input_is b k s → input_is b k (on_con f s).
Proof. intros H1 H2 [H3 H4 H5]. split; unfold on_con; rsimpl; congruence. Qed.

Lemma write_input pkt c : rbuf (write pkt c).1 = rbuf c ∧ chklen (write pkt c).1 = chklen c.
Proof. unfold write. by destruct (writes c) as [|[] ws]. Qed.
Lemma queue_bytes_input pkt c :
  rbuf (queue_bytes pkt c).1 = rbuf c ∧ chklen (queue_bytes pkt c).1 = chklen c.
Proof.
  unfold queue_bytes. destruct (outbuf c); [|done]. pose proof (write_input pkt c) as H.
  destruct (write pkt c) as [c' [k| | |]]; [destruct (_ =? _)%nat|..]; exact H.
Qed.
Lemma queue_packet_input pkt c :
  rbuf (queue_packet pkt c).1 = rbuf c ∧ chklen (queue_packet pkt c).1 = chklen c.
Proof.
  unfold queue_packet, seq. destruct (outbuf c); [|done].
  pose proof (write_input pkt (c <| outpkt_index := 0 |>)) as H.
  destruct (write pkt _) as [c' [k| | |]]; [destruct (_ =? _)%nat|..]; exact H.
Qed.
Lemma service_event_input x ev status c :
  rbuf (service_event x ev status c) = rbuf c ∧ chklen (service_event x ev status c) = chklen c.
Proof.
  unfold service_event.
  apply (for_each_inv (λ c', rbuf c' = rbuf c ∧ chklen c' = chklen c)); [done|].
  intros key c' _ [H1 H2]. unfold seq.
  destruct (queue_packet_input (event_packet5 key ev status) c') as [H3 H4].
  destruct (queue_packet_input (event_packet key ev status)
              (queue_packet (event_packet5 key ev status) c').1) as [H5 H6].
  split; congruence.
Qed.

Lemma input_reply_bytes b k pkt s : input_is b k s → input_is b k (reply_bytes pkt s).1.
Proof.
  intros [H1 H2 H0]. unfold reply_bytes. pose proof (queue_bytes_input pkt (con s)) as [H3 H4].
  destruct (queue_bytes _ _) as [c ok]. cbn [fst] in *. split; rsimpl; congruence.
Qed.
Lemma input_reply_packet b k pkt s : input_is b k s → input_is b k (reply_packet pkt s).1.
Proof.
  intros [H1 H2 H0]. unfold reply_packet. pose proof (queue_packet_input pkt (con s)) as [H3 H4].
  destruct (queue_packet _ _) as [c ok]. cbn [fst] in *. split; rsimpl; congruence.
Qed.
Lemma input_on_services_ret b k {A} (f : psys → psys * A) s :
  input_is b k s → input_is b k (on_services_ret me f s).1.
Proof.
  intros H. unfold on_services_ret. destruct (f (services s)) as [st' a]. cbn [fst].
  apply for_each_inv; [by destruct H|]. intros [] s' _ H'; try done. cbn [deliver].
  apply when_inv; [done|]. intros _ _. by apply input_con; [apply service_event_input..|].
Qed.
Lemma input_on_services b k f s : input_is b k s → input_is b k (on_services me f s).
Proof. apply input_on_services_ret. Qed.
Lemma input_on_env b k f s : input_is b k s → input_is b k (on_env me f s).
Proof.
  intros H. unfold on_env. destruct (f _) as [e [[v o]|]]; [|by destruct H]. unfold seq.
  apply when_inv; [by destruct H|]. intros _ H'. unfold environ_event.
  by apply (input_con _ _ (λ c, (queue_packet (environ_packet v o) c).1));
    [apply queue_packet_input..|].
Qed.

Lemma input_finish b k len s :
  input_is b k s → input_is (drop (Z.to_nat len) b) 0 (finish len s).
Proof. by intros [<- _ _]. Qed.

Lemma input_allocate b k x s : input_is b k s → input_is b k (allocate_service_handle me x s).1.
Proof.
  intros H. unfold allocate_service_handle, seq. apply input_con; [done..|].
  apply when_inv; [done|]. intros _ _. by apply input_on_services.
Qed.

Lemma input_start_stop b k ty flags x s :
  input_is b k s → input_is b k (start_stop me n ty flags x s).1.
Proof.
  intros H. unfold start_stop.
  assert (∀ p q s, input_is b k s → input_is b k (stop_now me n x p q s).1) as Hstop.
  { intros p q s' H'. unfold stop_now, seq. destruct q; [|by apply input_on_services].
    pose proof (input_on_services_ret b k (restart x) s' H') as Hr.
    destruct (on_services_ret _ _ _) as [s1 []]; [|done]. by apply input_on_services. }
  repeat (destruct (_ =? _)); [..|done].
  - unfold start_command, seq. repeat (destruct (_ : bool); [done|]). by apply input_on_services.
  - unfold stop_command. destruct (_ && _); [done|]. destruct (blocks_stop _ _); [done|].
    destruct (Z.testbit _ _); [|by apply Hstop].
    assert (input_is b k (check_dependents me x s).1) as Hc.
    { unfold check_dependents.
      assert (input_is b k (for_each (dependents (svc (services s) x)) (dependent_turn me) (s, [])).1)
        as Hd.
      { apply (for_each_inv (λ p, input_is b k p.1)); [done|]. intros d [s' hs] _ H'.
        unfold dependent_turn. destruct (_ && _); [|done].
        pose proof (input_allocate b k (dep_from (dep (services s') d)) s' H') as Ha.
        by destruct (allocate_service_handle _ _ _). }
      destruct (for_each _ _ _) as [s' [|h hs]]; [done|].
      pose proof (input_reply_packet b k (cp_rply.DEPENDENTS :: le_bytes 8 (Z.of_nat (length (h :: hs)))
        ++ concat (le_bytes 4 <$> (h :: hs))) s' Hd) as Hr.
      by destruct (reply_packet _ _). }
    destruct (check_dependents me x s) as [s' [[] []]]; cbn [negb]; try done. by apply Hstop.
  - unfold wake_command. repeat (destruct (_ : bool); [done|]).
    match goal with |- context [on_services_ret me ?f s] =>
      pose proof (input_on_services_ret b k f s H) as Hr end.
    by destruct (on_services_ret _ _ _).
  - unfold release_command, seq. by apply input_on_services.
Qed.

(** ** What is left in the buffer *)

(** The handler has consumed the request of size [k] at the front of [b], or the connection
    is in an error state. *)
Definition failed r : Prop :=
  (r.2 = false ∨ bad_conn_close (con r.1) = true) ∧ chklen (con r.1) ≤ 1024.
Definition consumed b (k len : Z) r : Prop :=
  failed r ∨ input_is (drop (Z.to_nat k) b) len r.1.

Lemma failed_input b k r : input_is b k r.1 → r.2 = false → failed r.
Proof. intros [_ H1 H2] H. split; [by left|]. by rewrite H1. Qed.
Lemma consumed_and_then b b' k k' len r f :
  input_is b' k' r.1 → (∀ s, input_is b' k' s → consumed b k len (f s)) →
  consumed b k len (and_then r f).
Proof.
  intros H Hf. destruct r as [s []]; cbn; [by apply Hf|]. left. by apply (failed_input b' k').
Qed.
Lemma consumed_bad b b' k k' len s : input_is b' k' s → consumed b k len (bad_request s).
Proof.
  intros H. unfold bad_request. pose proof (input_reply_bytes _ _ [cp_rply.BADREQ] s H) as [_ H1 H2].
  destruct (reply_bytes _ s) as [s' []]; cbn [fst] in *; left; (split; [rsimpl; auto|]);
    rewrite <- H1 in H2; exact H2.
Qed.
Lemma consumed_undefined b b' k k' len s :
  input_is b' k' s → consumed b k len (on_con (λ c, c <| undefined := true |>) s, false).
Proof. intros H. left. by apply (failed_input b' k'); [apply input_con|]. Qed.
Lemma consumed_reply_finish b k k' code s :
  input_is b k' s → consumed b k 0 (reply_finish code k s).
Proof.
  intros H. apply (consumed_and_then b b k k'); [by apply input_reply_bytes|].
  intros s' H'. right. by eapply input_finish.
Qed.
Lemma consumed_reply_bytes b k len pkt s :
  input_is (drop (Z.to_nat k) b) len s → consumed b k len (reply_bytes pkt s).
Proof. intros H. right. by apply input_reply_bytes. Qed.
Lemma consumed_reply_packet b k len pkt s :
  input_is (drop (Z.to_nat k) b) len s → consumed b k len (reply_packet pkt s).
Proof. intros H. right. by apply input_reply_packet. Qed.

Lemma with_packet_whole size f s : size ≤ rbuf_length (con s) → with_packet size f s = f s.
Proof. intros H. unfold with_packet. destruct (Z.ltb_spec (rbuf_length (con s)) size); [lia|done]. Qed.
Lemma with_packet_short size f s :
  rbuf_length (con s) < size → with_packet size f s = (set_chklen size s, true).
Proof. intros H. unfold with_packet. destruct (Z.ltb_spec (rbuf_length (con s)) size); [done|lia]. Qed.

Lemma input_erase_key b k key s : input_is b k s → input_is b k (on_con (erase_key key) s).
Proof. by apply input_con. Qed.
Lemma input_erase_service b k x s : input_is b k s → input_is b k (on_con (erase_service x) s).
Proof. by apply input_con. Qed.
Lemma input_erase_handle b k x key s :
  input_is b k s → input_is b k (on_con (erase_handle x key) s).
Proof. by apply input_con. Qed.
Lemma input_listen b k f s : input_is b k s → input_is b k (s <| main_env ::= f |>).
Proof. by intros [? ? ?]. Qed.
Lemma input_when b k (c : bool) f s :
  input_is b k s → (input_is b k s → input_is b k (f s)) → input_is b k (when c f s).
Proof. destruct c; cbn; auto. Qed.
#[local] Hint Resolve input_reply_bytes input_reply_packet input_on_services_ret input_on_services
  input_on_env input_finish input_allocate input_start_stop input_erase_key input_erase_service
  input_erase_handle input_listen input_when : input.

Ltac cstep :=
  lazymatch goal with
  | |- consumed _ _ _ (bad_request _) => eapply consumed_bad; solve [eauto with input]
  | |- consumed _ _ _ (on_con _ _, false) =>
      eapply consumed_undefined; solve [eauto with input]
  | |- consumed _ _ _ (reply_finish _ _ _) => eapply consumed_reply_finish; solve [eauto with input]
  | |- consumed _ _ _ (reply_bytes _ _) => apply consumed_reply_bytes; solve [eauto with input]
  | |- consumed _ _ _ (reply_packet _ _) => apply consumed_reply_packet; solve [eauto with input]
  | |- consumed _ _ _ (and_then _ _) =>
      eapply consumed_and_then; [solve [eauto with input]|intros ? ?]
  | |- consumed _ _ _ (seq ?a ?f) =>
      let H := fresh "H" in
      eassert (input_is _ _ a) as H; [solve [eauto with input]|];
      generalize dependent a; intros ? H; unfold seq at 1; cbv beta
  | |- consumed _ _ _ (match ?r with (_, _) => _ end) =>
      let H := fresh "H" in
      eassert (input_is _ _ (fst r)) as H; [solve [eauto with input]|];
      destruct r; cbn [fst] in H
  | |- consumed _ _ _ (match ?r with _ => _ end) => destruct r
  end; cbv zeta.

(** Fewer bytes than a request has: the handler waits.  Otherwise they are consumed; some
    handlers do not set the length to wait for. *)
Definition frames (size : Z) (h : server → server * bool) s : Prop :=
  chklen (con s) ≤ 1024 →
  (rbuf_length (con s) < size → h s = (set_chklen size s, true))
  ∧ (size ≤ rbuf_length (con s) →
     ∃ len, (len = 0 ∨ len = chklen (con s)) ∧ consumed (rbuf (con s)) size len (h s)).

Lemma frames_with_packet size f s :
  (∀ k, input_is (rbuf (con s)) k s → consumed (rbuf (con s)) size 0 (f s)) →
  frames size (with_packet size f) s.
Proof.
  intros Hf Hc. split; intros H; [by apply with_packet_short|].
  exists 0. split; [by left|]. rewrite with_packet_whole by done. by apply (Hf (chklen (con s))).
Qed.
Ltac frame_packet := apply frames_with_packet; intros ? ?; cbv zeta; repeat cstep.

Lemma frames_close_handle s : frames 5 (process_close_handle me) s.
Proof. unfold process_close_handle. frame_packet. Qed.
Lemma frames_start_stop ty s : frames 6 (process_start_stop me n ty) s.
Proof.
  apply frames_with_packet. intros k H. cbv zeta. destruct (service_at _ _) as [x|]; [|cstep].
  apply (consumed_and_then _ (rbuf (con s)) _ k); [destruct (Z.testbit _ _); eauto with input|].
  intros s' H'. pose proof (input_start_stop _ k ty (rbuf_at 1 (con s)) x s' H') as Hs.
  destruct (start_stop _ _ _ _ _ _) as [s1 [code| |]]; cbn [fst] in Hs.
  - cstep.
  - right. by eapply input_finish.
  - left. by apply (failed_input _ _ (s1, false) Hs).
Qed.
Lemma frames_unpin s : frames 5 (process_unpin_service me n) s.
Proof. unfold process_unpin_service. frame_packet. Qed.
Lemma frames_unload s : frames 5 (process_unload_service me) s.
Proof. unfold process_unload_service. frame_packet. Qed.
Lemma frames_reload s : frames 5 (process_reload_service me n) s.
Proof. unfold process_reload_service. frame_packet. Qed.
Lemma frames_service_status fill s : frames 5 (service_status_with fill) s.
Proof. unfold service_status_with. frame_packet. Qed.
Lemma frames_query_name s : frames 6 process_query_name s.
Proof. unfold process_query_name. frame_packet. Qed.
Lemma frames_query_dsc_dir s : frames 6 process_query_dsc_dir s.
Proof. unfold process_query_dsc_dir. frame_packet. Qed.
Lemma frames_set_trigger s : frames 6 (process_set_trigger me n) s.
Proof. unfold process_set_trigger. frame_packet. Qed.
Lemma frames_catlog s : frames 6 (process_catlog me) s.
Proof. unfold process_catlog. frame_packet. Qed.
Lemma frames_signal s : frames 9 (process_signal me) s.
Proof. unfold process_signal. frame_packet. Qed.
Lemma frames_shutdown s : frames 2 (process_shutdown me n) s.
Proof. unfold process_shutdown. frame_packet. Qed.

Lemma frames_dependency f s :
  (∀ b k from to ty s, input_is b k s → consumed b 10 0 (f from to ty s)) →
  frames 10 (with_dependency f) s.
Proof.
  intros Hf. apply frames_with_packet. intros k H. cbv zeta.
  destruct (service_at 2 s); [|cstep]. destruct (service_at 6 s); [|cstep].
  destruct (decide _); [cstep|]. unfold check_dep_type. destruct (bool_decide _).
  - eapply consumed_and_then; [exact H|]. intros s' H'. by eapply Hf.
  - eapply (consumed_and_then _ (rbuf (con s)) _ k).
    + unfold bad_request. pose proof (input_reply_bytes _ k [cp_rply.BADREQ] s H) as Hr.
      destruct (reply_bytes _ _) as [s' []]; [|done]. by apply input_con.
    + intros s' H'. by eapply Hf.
Qed.
Lemma frames_add_service_dep e s : frames 10 (add_service_dep me n e) s.
Proof. apply frames_dependency. intros b k from to ty s' H. repeat cstep. Qed.
Lemma frames_rm_service_dep s : frames 10 (rm_service_dep me n) s.
Proof. apply frames_dependency. intros b k from to ty s' H. repeat cstep. Qed.

(** Requests of one byte. *)
Lemma frames_byte h s :
  rbuf (con s) ≠ [] →
  (∀ k, input_is (rbuf (con s)) k s →
   ∃ len, (len = 0 ∨ len = k) ∧ consumed (rbuf (con s)) 1 len (h s)) →
  frames 1 h s.
Proof.
  intros Hne Hh Hc. split.
  - unfold rbuf_length. destruct (rbuf (con s)); [done|]. cbn. lia.
  - intros _. by apply (Hh (chklen (con s))).
Qed.

Lemma consumed_send_services b k fill l s :
  input_is (drop (Z.to_nat 1) b) k s → consumed b 1 k (send_services fill l s).
Proof.
  revert s. induction l as [|x l IH]; intros s H; cbn [send_services]; [cstep|].
  destruct (is_placeholder _ _); [by apply IH|].
  eapply consumed_and_then; [by apply input_reply_packet|]. intros s' H'. by apply IH.
Qed.
Lemma frames_list_services fill s :
  rbuf (con s) ≠ [] → frames 1 (list_services_with fill) s.
Proof.
  intros Hne. apply frames_byte; [done|]. intros k H. exists 0. split; [by left|].
  unfold list_services_with. cstep. by apply consumed_send_services.
Qed.
Lemma frames_query_load_mech s :
  rbuf (con s) ≠ [] → frames 1 (query_load_mech load_dirs cwd) s.
Proof.
  intros Hne. apply frames_byte; [done|]. intros k H. exists 0. split; [by left|].
  unfold query_load_mech. repeat cstep.
Qed.

Lemma input_consume b k len s : input_is b k s → input_is (drop (Z.to_nat len) b) k (consume len s).
Proof. by intros [<- <- ?]. Qed.
#[local] Hint Resolve input_consume : input.

Lemma frames_query_version s : rbuf (con s) ≠ [] → frames 1 query_version s.
Proof.
  intros Hne. apply frames_byte; [done|]. intros k H. exists k. split; [by right|].
  unfold query_version. cstep. right. by apply input_consume.
Qed.
Lemma frames_listenenv s : rbuf (con s) ≠ [] → frames 1 (process_listenenv me) s.
Proof.
  intros Hne. apply frames_byte; [done|]. intros k H. exists k. split; [by right|].
  unfold process_listenenv. repeat cstep.
Qed.
Lemma frames_getallenv s : frames 2 (process_getallenv environ) s.
Proof.
  intros Hc. split; intros H; [by apply with_packet_short|]. exists (chklen (con s)). split; [by right|].
  unfold process_getallenv. rewrite with_packet_whole by done.
  assert (input_is (rbuf (con s)) (chklen (con s)) s) as H' by done. repeat cstep.
Qed.

(** *** Requests with a name *)

Definition name_length s : Z := rbuf_int 1 2 (con s).
Definition bad_length (len : Z) : bool := (len <=? 0) || (1024 - 3 <? len).

Lemma named_size_eq s :
  named_size (rbuf (con s))
  = if rbuf_length (con s) <? 4 then 4
    else if bad_length (name_length s) then 1 else name_length s + 3.
Proof.
  unfold named_size, rbuf_length, name_length, rbuf_int, rbuf_extract, bad_length.
  destruct (Nat.ltb_spec (length (rbuf (con s))) 4), (Z.ltb_spec (Z.of_nat (length (rbuf (con s)))) 4);
    (done || lia).
Qed.

Lemma frames_named f s :
  (∀ k, input_is (rbuf (con s)) k s → rbuf_length (con s) < name_length s + 3 →
   bad_length (name_length s) = false → f s = (set_chklen (name_length s + 3) s, true)) →
  (∀ k, input_is (rbuf (con s)) k s → bad_length (name_length s) = true →
   consumed (rbuf (con s)) 1 0 (f s)) →
  (∀ k, input_is (rbuf (con s)) k s → name_length s + 3 ≤ rbuf_length (con s) →
   bad_length (name_length s) = false → consumed (rbuf (con s)) (name_length s + 3) 0 (f s)) →
  frames (named_size (rbuf (con s))) (with_packet 4 f) s.
Proof.
  intros Hshort Hbad Hok. rewrite named_size_eq.
  destruct (Z.ltb_spec (rbuf_length (con s)) 4) as [H4|H4].
  - intros Hc. split; intros H; [by apply with_packet_short|lia].
  - intros Hc. rewrite with_packet_whole by done.
    assert (input_is (rbuf (con s)) (chklen (con s)) s) as Hs by done.
    destruct (bad_length (name_length s)) eqn:Eb.
    + split; [lia|]. intros _. exists 0. split; [by left|]. by eapply Hbad.
    + split; intros H; [by eapply Hshort|]. exists 0. split; [by left|]. by eapply Hok.
Qed.

Lemma set_name_length k s :
  input_is (rbuf (con s)) k s → bad_length (name_length s) = false →
  input_is (rbuf (con s)) (name_length s + 3) (set_chklen (name_length s + 3) s).
Proof.
  unfold bad_length. intros _ [H1%Z.leb_gt H2%Z.ltb_ge]%orb_false_iff. split; [done..|lia].
Qed.

Lemma frames_find_load ty s :
  frames (named_size (rbuf (con s))) (process_find_load me ty) s.
Proof.
  apply frames_named; intros k H; cbv zeta; fold (name_length s) (bad_length (name_length s)).
  - intros Hlt Hgood. rewrite Hgood. unfold seq. change (rbuf_length (con (set_chklen ?l s))) with (rbuf_length (con s)).
    change (chklen (con (set_chklen ?l s))) with l.
    destruct (Z.ltb_spec (rbuf_length (con s)) (name_length s + 3)); [done|lia].
  - intros ->. by eapply consumed_bad.
  - intros Hle Hgood. rewrite Hgood. unfold seq at 1.
    change (rbuf_length (con (set_chklen ?l s))) with (rbuf_length (con s)).
    change (chklen (con (set_chklen ?l s))) with l.
    destruct (Z.ltb_spec (rbuf_length (con s)) (name_length s + 3)); [lia|]. cbv zeta.
    set (l := name_length s + 3) in *.
    pose proof (set_name_length k s H Hgood) as H1. fold l in H1. cstep.
    match goal with |- context [find_load me ty ?name s0] =>
      assert (input_is (drop (Z.to_nat l) (rbuf (con s))) 0 (find_load me ty name s0).1) as H3;
        [|destruct (find_load me ty name s0) as [s1 [x|code]]; cbn [fst] in H3] end.
    { unfold find_load. destruct (_ =? _); [|done].
      match goal with |- context [on_services_ret me ?f s0] =>
        pose proof (input_on_services_ret _ _ f s0 H2) as Hr end.
      by destruct (on_services_ret _ _ _). }
    + repeat cstep.
    + repeat cstep.
Qed.

Lemma frames_setenv s : frames (named_size (rbuf (con s))) (process_setenv environ me) s.
Proof.
  apply frames_named; intros k H; cbv zeta; fold (name_length s) (bad_length (name_length s)).
  - intros Hlt Hgood. rewrite Hgood. unfold seq at 1. change (rbuf_length (con (set_chklen ?l s))) with (rbuf_length (con s)).
    change (chklen (con (set_chklen ?l s))) with l.
    destruct (Z.ltb_spec (rbuf_length (con s)) (name_length s + 3)); [done|lia].
  - intros ->. by eapply consumed_bad.
  - intros Hle Hgood. rewrite Hgood. unfold seq at 1.
    change (rbuf_length (con (set_chklen ?l s))) with (rbuf_length (con s)).
    change (chklen (con (set_chklen ?l s))) with l.
    destruct (Z.ltb_spec (rbuf_length (con s)) (name_length s + 3)); [lia|]. cbv zeta.
    set (l := name_length s + 3) in *.
    pose proof (set_name_length k s H Hgood) as H1. fold l in H1.
    assert (∀ f, input_is (rbuf (con s)) l (on_env me f (set_chklen l s))) as Henv
      by (intros; by apply input_on_env).
    destruct (negb _); [|destruct (bool_decide _); [cstep|]]; unfold seq; rewrite (in_chklen _ _ _ (Henv _));
      (eapply consumed_reply_finish; apply Henv).
Qed.

(** *** All requests *)

Lemma handlers_frame :
  Forall (λ h, ∀ s, rbuf_at 0 (con s) = h.1 → rbuf (con s) ≠ [] →
               frames (request_size (rbuf (con s))) h.2 s)
    (handlers environ me n load_dirs cwd).
Proof.
  unfold handlers.
  repeat (apply list.Forall_cons; split); [..|by apply list.Forall_nil];
    cbn [fst snd]; intros s Hc Hne;
    (match goal with |- frames ?size ?h s =>
       first [ replace size with (named_size (rbuf (con s)))
                 by (unfold request_size; change (default 0 _) with (rbuf_at 0 (con s));
                     rewrite Hc; reflexivity)
             | let k := eval vm_compute in
                 (default 1 (snd <$> List.find (λ p, p.1 =? ltac:(match type of Hc with _ = ?c => exact c end))
                                   fixed_sizes)) in
               replace size with k
                 by (unfold request_size; change (default 0 _) with (rbuf_at 0 (con s));
                     rewrite Hc; reflexivity) ] end).
  - by apply frames_query_version.
  - apply frames_find_load.
  - apply frames_find_load.
  - apply frames_close_handle.
  - apply frames_start_stop.
  - apply frames_start_stop.
  - apply frames_start_stop.
  - apply frames_start_stop.
  - apply frames_unpin.
  - apply frames_unload.
  - apply frames_reload.
  - apply frames_shutdown.
  - by apply frames_list_services.
  - by apply frames_list_services.
  - apply frames_service_status.
  - apply frames_service_status.
  - apply frames_add_service_dep.
  - apply frames_rm_service_dep.
  - by apply frames_query_load_mech.
  - apply frames_add_service_dep.
  - apply frames_query_name.
  - apply frames_setenv.
  - apply frames_getallenv.
  - by apply frames_listenenv.
  - apply frames_set_trigger.
  - apply frames_catlog.
  - apply frames_signal.
  - apply frames_query_dsc_dir.
Qed.

Definition known (code : Z) : bool :=
  existsb (λ h, h.1 =? code) (handlers environ me n load_dirs cwd).

Lemma fixed_known p : p ∈ fixed_sizes → known p.1 = true.
Proof.
  assert (Forall (λ p, known p.1 = true) fixed_sizes) as H; [by repeat constructor|].
  intros Hp. by apply (proj1 (list.Forall_forall _ _) H).
Qed.

Lemma unknown_size b : known (default 0 (b !! 0%nat)) = false → request_size b = 1.
Proof.
  intros Hk. unfold request_size. rewrite bool_decide_eq_false_2.
  - destruct (List.find _ fixed_sizes) as [p|] eqn:E; [|done].
    apply find_some in E as [Hin Hc%Z.eqb_eq]. apply list_elem_of_In, fixed_known in Hin. congruence.
  - by intros [E|[E|[E|?%not_elem_of_nil]%elem_of_cons]%elem_of_cons]%elem_of_cons;
      [rewrite E in Hk..|].
Qed.

Lemma process_packet_frames s :
  rbuf (con s) ≠ [] →
  frames (request_size (rbuf (con s))) (process_packet environ me n load_dirs cwd) s.
Proof.
  intros Hne Hsmall. unfold process_packet.
  destruct (List.find (λ h, h.1 =? rbuf_at 0 (con s)) (handlers environ me n load_dirs cwd))
    as [[code h]|] eqn:Hf.
  - apply find_some in Hf as Hf'. destruct Hf' as [Hin Hc%Z.eqb_eq]. cbn [fst] in Hc.
    pose proof handlers_frame as Hh. rewrite list.Forall_forall in Hh.
    apply list_elem_of_In in Hin. exact (Hh _ Hin s (eq_sym Hc) Hne Hsmall).
  - rewrite unknown_size.
    + split.
      * unfold rbuf_length. destruct (rbuf (con s)); [done|]. cbn. lia.
      * intros _. exists 0. split; [by left|]. by apply (consumed_bad _ (rbuf (con s)) _ (chklen (con s))).
    + unfold known. destruct (existsb _ _) eqn:He; [|done]. apply existsb_exists in He as (h & Hin & Hc).
      pose proof (find_none _ _ Hf h Hin) as Hn. unfold rbuf_at in Hn. cbn in Hn, Hc. congruence.
Qed.

Lemma named_size_bounds b : 1 ≤ named_size b ≤ 1024.
Proof.
  unfold named_size. destruct (_ <? _)%nat; [lia|].
  destruct ((_ <=? 0) || _) eqn:E; [lia|].
  apply orb_false_iff in E as [E1%Z.leb_gt E2%Z.ltb_ge]. lia.
Qed.
Lemma request_size_bounds b : 1 ≤ request_size b ≤ 1024.
Proof.
  unfold request_size. destruct (bool_decide _); [apply named_size_bounds|].
  destruct (List.find _ fixed_sizes) as [p|] eqn:E; [|cbn; lia].
  apply find_some in E as [Hin _]. apply list_elem_of_In in Hin. cbn.
  assert (Forall (λ p, 1 ≤ p.2 ≤ 1024) fixed_sizes) as H by (repeat constructor; cbn; lia).
  by apply (proj1 (list.Forall_forall _ _) H).
Qed.

(** *** The loop over the packets *)

(** More bytes are needed, and there is room for them. *)
Definition waits s : Prop := rbuf_length (con s) < chklen (con s) ≤ 1024.

Lemma rbuf_set_chklen k s : rbuf_length (con (set_chklen k s)) = rbuf_length (con s).
Proof. done. Qed.

Lemma packet_loop_ends fuel s :
  chklen (con s) ≤ 1024 → (rbuf (con s) = [] → 1 ≤ chklen (con s)) →
  (length (rbuf (con s)) < fuel)%nat →
  ∃ s' more, packet_loop environ me n load_dirs cwd fuel s = Some (s', more)
    ∧ chklen (con s') ≤ 1024 ∧ (more = true → waits s').
Proof.
  revert s. induction fuel as [|fuel IH]; intros s Hc Hne Hf; [lia|]. cbn [packet_loop].
  destruct (Z.ltb_spec (rbuf_length (con s)) (chklen (con s))) as [Hlt|Hge].
  { exists s, true. by split. }
  assert (rbuf (con s) ≠ []) as Hnil.
  { intros E. specialize (Hne E). unfold rbuf_length in Hge. rewrite E in Hge. cbn in Hge. lia. }
  pose proof (process_packet_frames s Hnil Hc) as [Hshort Hwhole].
  pose proof (request_size_bounds (rbuf (con s))) as Hsz.
  destruct (Z.lt_ge_cases (rbuf_length (con s)) (request_size (rbuf (con s)))) as [Hs|Hs].
  - rewrite Hshort by done. destruct (negb true || _) eqn:Hb.
    { exists (set_chklen (request_size (rbuf (con s))) s), false. split; [done|].
      split; [apply Hsz|done]. }
    set (s1 := set_chklen (Z.max _ 1) _).
    assert (chklen (con s1) = request_size (rbuf (con s))) as Hc1.
    { change (chklen (con s1)) with (Z.max (request_size (rbuf (con s))) 1). lia. }
    assert (rbuf_length (con s1) = rbuf_length (con s)) as Hl1 by done.
    exists s1, true. split; [|unfold waits; rewrite Hl1, Hc1; lia].
    destruct fuel; cbn [packet_loop]; rewrite Hl1, Hc1;
      by rewrite (proj2 (Z.ltb_lt _ _)).
  - destruct (Hwhole Hs) as (len & Hlen & Hcons).
    destruct (process_packet environ me n load_dirs cwd s) as [s1 ok]. cbn [fst snd] in *.
    assert (chklen (con s1) ≤ 1024) as Hc1.
    { destruct Hcons as [[_ H]|[_ H1 H2]]; [exact H|]. by rewrite <- H1 in H2. }
    destruct (negb ok || bad_conn_close (con s1)) eqn:Hb; [by exists s1, false|].
    set (s2 := set_chklen (Z.max (chklen (con s1)) 1) s1).
    destruct Hcons as [[[Hok|Hbad] _]|[Hr Hl _]]; cbn in *.
    + by rewrite Hok in Hb.
    + by rewrite Hbad, orb_true_r in Hb.
    + assert (chklen (con s2) = Z.max (chklen (con s1)) 1) as Hc2 by done. apply IH.
      * rewrite Hc2. lia.
      * intros _. rewrite Hc2. lia.
      * change (rbuf (con s2)) with (rbuf (con s1)). rewrite Hr, length_drop.
        unfold rbuf_length in Hs. destruct (rbuf (con s)); [done|]. cbn [length] in *. lia.
Qed.
End input.
