(* ===== verification/ControlQueue.v ===== *)
(** * The control protocol server: output

    Whatever a connection queues is sent completely and in order, however the writes are cut
    into pieces. *)

From S2P Require Import Prelude Text ServiceData Env ControlConn.

Implicit Types (c : conn) (pkt : list Z).

(** The bytes that are still to be sent; only a part of the first packet may be left. *)
Definition pending c : list Z :=
  match outbuf c with
  | [] => []
  | pkt :: rest => drop (Z.to_nat (outpkt_index c)) pkt ++ concat rest
  end.

Definition sendable pkt : Prop := pkt ≠ [] ∧ Z.of_nat (length pkt) < 2 ^ 32.

(** The queue holds packets that can be sent, and some of the first packet is left. *)
Record queue_ok c : Prop := {
  qo_packets : Forall sendable (outbuf c);
  qo_index : 0 ≤ outpkt_index c;
  qo_first : outpkt_index c < Z.of_nat (length (default [0] (head (outbuf c))))
}.

(** What an operation that has queued [pkt] has done. *)
Definition queues pkt c c' : Prop :=
  queue_ok c' ∧ sent c' ++ pending c' = sent c ++ pending c ++ pkt.

Lemma queue_ok_index_nil c : queue_ok c → outbuf c = [] → outpkt_index c = 0.
Proof. intros [_ H1 H2] E. rewrite E in H2. cbn in H2. lia. Qed.

Lemma queue_ok_app c c' pkt :
  outbuf c ≠ [] → sendable pkt → queue_ok c →
  outbuf c' = outbuf c ++ [pkt] → outpkt_index c' = outpkt_index c → sent c' = sent c →
  queues pkt c c'.
Proof.
  intros Hne Hp [H1 H2 H3] E1 E2 E3. unfold queues, pending.
  destruct (outbuf c) as [|p rest] eqn:E; [done|].
  split; [split; rewrite ?E1, ?E2; [|done..]|].
  - apply Forall_app. by split; [|apply list.Forall_cons].
  - rewrite E1, E2, E3. cbn [app]. rewrite concat_app, <- !(assoc_L (++)). cbn.
    by rewrite (right_id_L [] (++)).
Qed.

(** What is left of a packet of which a part was written. *)
Lemma queue_part c c' pkt k i :
  outbuf c = [] → sendable pkt → (k < length pkt)%nat → (i ≤ k)%nat →
  outbuf c' = [drop (k - i) pkt] → outpkt_index c' = Z.of_nat i → sent c' = sent c ++ take k pkt →
  queues pkt c c'.
Proof.
  intros E [Hne Hlen] Hk Hi E1 E2 E3. unfold queues, pending. rewrite E, E1, E3.
  assert (length (drop (k - i) pkt) = length pkt - (k - i))%nat as Hd by apply length_drop.
  split; [split; rewrite ?E1, ?E2; unfold head, from_option, id|].
  - apply list.Forall_singleton. split; [|rewrite Hd; lia].
    intros H0. rewrite H0 in Hd. cbn in Hd. lia.
  - lia.
  - rewrite Hd. lia.
  - rewrite E2, Nat2Z.id, drop_drop. replace (k - i + i)%nat with k by lia. cbn.
    by rewrite (right_id_L [] (++)), <- (assoc_L (++)), take_drop.
Qed.

Lemma queue_whole c c' pkt k :
  outbuf c = [] → (length pkt ≤ k)%nat →
  outbuf c' = [] → outpkt_index c' = 0 → sent c' = sent c ++ take k pkt →
  queues pkt c c'.
Proof.
  intros E Hk E1 E2 E3. unfold queues, pending. rewrite E, E1, E3, take_ge by done.
  split; [|by rewrite (right_id_L [] (++))]. split; rewrite ?E1, ?E2; done.
Qed.

Lemma write_wrote pkt c c' k :
  write pkt c = (c', Wrote k) →
  outbuf c' = outbuf c ∧ outpkt_index c' = outpkt_index c
  ∧ ∃ n, k = Nat.min n (length pkt) ∧ sent c' = sent c ++ take n pkt.
Proof.
  unfold write. destruct (writes c) as [|[m| | |] ws]; [done| |done..].
  intros [= <- <-]. split_and!; [done..|]. by exists m.
Qed.
Lemma write_again pkt c c' :
  write pkt c = (c', Write_again) →
  outbuf c' = outbuf c ∧ outpkt_index c' = outpkt_index c ∧ sent c' = sent c.
Proof. unfold write. destruct (writes c) as [|[m| | |] ws]; intros [= <-]; done. Qed.

Lemma queue_bytes_queues pkt c c' :
  sendable pkt → queue_ok c → queue_bytes pkt c = (c', true) → queues pkt c c'.
Proof.
  intros Hp Hq. unfold queue_bytes. destruct (outbuf c) as [|p rest] eqn:E.
  - pose proof (queue_ok_index_nil c Hq E) as Hi.
    destruct (write pkt c) as [c1 r] eqn:Ew. destruct r as [k| | |]; [|done| |done].
    + apply write_wrote in Ew as (E1 & E2 & m & -> & E3).
      destruct (Nat.eqb_spec (Nat.min m (length pkt)) (length pkt)) as [Hm|Hm]; intros [= <-].
      * apply (queue_whole _ _ pkt m); congruence || lia.
      * replace (Nat.min m (length pkt)) with m by lia.
        apply (queue_part _ _ pkt m 0); rsimpl; rewrite ?E1, ?E2, ?E, ?Nat.sub_0_r; done || lia.
    + apply write_again in Ew as (E1 & E2 & E3). intros [= <-].
      destruct Hp as [Hne Hl]. destruct pkt as [|b pkt]; [done|].
      apply (queue_part _ _ (b :: pkt) 0 0); rsimpl; rewrite ?E1, ?E2, ?E3, ?E; try done.
      * cbn. lia.
      * by rewrite take_0, (right_id_L [] (++)).
  - intros [= <-]. by apply queue_ok_app; rsimpl; rewrite ?E.
Qed.

Lemma queue_packet_queues pkt c c' :
  sendable pkt → queue_ok c → queue_packet pkt c = (c', true) → queues pkt c c'.
Proof.
  intros Hp Hq. unfold queue_packet. destruct (outbuf c) as [|p rest] eqn:E.
  - unfold seq. destruct (write pkt _) as [c1 r] eqn:Ew. destruct r as [k| | |]; [|done| |done].
    + apply write_wrote in Ew as (E1 & E2 & m & -> & E3). rsimpl_in E1. rsimpl_in E2. rsimpl_in E3.
      destruct (Nat.eqb_spec (Nat.min m (length pkt)) (length pkt)) as [Hm|Hm]; intros [= <-].
      * apply (queue_whole _ _ pkt m); congruence || lia.
      * replace (Nat.min m (length pkt)) with m by lia.
        apply (queue_part _ _ pkt m m); rsimpl; rewrite ?E1, ?E2, ?E3, ?E, ?Nat.sub_diag; done || lia.
    + apply write_again in Ew as (E1 & E2 & E3).
      rsimpl_in E1. rsimpl_in E2. rsimpl_in E3. intros [= <-].
      destruct Hp as [Hne Hl]. destruct pkt as [|b pkt]; [done|].
      apply (queue_part _ _ (b :: pkt) 0 0); rsimpl; rewrite ?E1, ?E2, ?E3, ?E; try done.
      * cbn. lia.
      * by rewrite take_0, (right_id_L [] (++)).
  - intros [= <-]. by apply queue_ok_app; rsimpl; rewrite ?E.
Qed.

(** Whatever comes of the write, nothing is lost, repeated or reordered. *)
Lemma send_data_keeps c :
  queue_ok c → outbuf c ≠ [] →
  queue_ok (send_data c).1
  ∧ sent (send_data c).1 ++ pending (send_data c).1 = sent c ++ pending c.
Proof.
  intros [H1 H2 H3] Hne. unfold send_data, pending. destruct (outbuf c) as [|p rest] eqn:E; [done|].
  cbn in H3. apply list.Forall_cons in H1 as [Hp Hr].
  unfold write. set (i := Z.to_nat (outpkt_index c)) in *.
  assert (∀ ws, queue_ok (c <| writes := ws |>)) as Hw.
  { intros ws. split; rsimpl; rewrite ?E; cbn; [|lia..]. by apply list.Forall_cons. }
  destruct (writes c) as [|[m| | |] ws]; cbn [fst].
  { split; [|by rewrite E]. split; rewrite ?E; cbn; [|lia..]. by apply list.Forall_cons. }
  2-4: rsimpl; rewrite E; by split; [apply Hw|].
  rewrite length_drop. unfold seq. rsimpl.
  set (k := Nat.min m (length p - i)).
  assert (take m (drop i p) = take k (drop i p)) as Hk.
  { unfold k. destruct (Nat.min_spec m (length p - i)) as [[Hm ->]|[Hm ->]]; [done|].
    by rewrite !take_ge by (rewrite ?length_drop; lia). }
  rewrite Hk. pose proof Hp as [_ Hl].
  assert (u32 (outpkt_index c + Z.of_nat k) = outpkt_index c + Z.of_nat k) as Hu
    by (apply Z.mod_small; lia).
  rewrite Hu.
  destruct (Z.eqb_spec (outpkt_index c + Z.of_nat k) (Z.of_nat (length p))) as [Hi|Hi].
  - assert (take k (drop i p) = drop i p) as -> by (apply take_ge; rewrite length_drop; lia).
    assert (∀ c', outbuf c' = rest → outpkt_index c' = 0 → sent c' = sent c ++ drop i p →
      queue_ok c' ∧ sent c' ++ match outbuf c' with
        | [] => [] | q :: r => drop (Z.to_nat (outpkt_index c')) q ++ concat r end
      = sent c ++ drop i p ++ concat rest) as Hc.
    { intros c' E1 E2 E3. rewrite E1, E2, E3. split.
      - split; rewrite ?E1, ?E2; [done|lia|]. destruct rest as [|q r]; [by cbn|].
        apply list.Forall_cons in Hr as [[Hq _] _]. destruct q; cbn; [done|lia].
      - rewrite <- (assoc_L (++)). by destruct rest. }
    destruct (oom_close _); [by apply Hc; rsimpl|]. destruct (_ && _); by apply Hc; rsimpl.
  - cbn [fst]. rsimpl. rewrite E. split.
    + split; rsimpl; rewrite ?E, ?Hu; cbn; [by apply list.Forall_cons|lia..].
    + rewrite Hu. replace (Z.to_nat (outpkt_index c + Z.of_nat k)) with (i + k)%nat by lia.
      by rewrite <- drop_drop, <- (assoc_L (++)), (assoc_L (++) (take _ _)), take_drop.
Qed.

Lemma send_data_progress c m ws :
  queue_ok c → outbuf c ≠ [] → writes c = Wrote (S m) :: ws → bad_conn_close c = false →
  (send_data c).2 = false ∧ writes (send_data c).1 = ws ∧ bad_conn_close (send_data c).1 = false
  ∧ (length (sent c) < length (sent (send_data c).1))%nat.
Proof.
  intros [_ H2 H3] Hne Hw Hbad. unfold send_data. destruct (outbuf c) as [|p rest] eqn:E; [done|].
  cbn in H3. unfold write. rewrite Hw. unfold seq. rsimpl.
  set (i := Z.to_nat (outpkt_index c)).
  assert (length (sent c) < length (sent c ++ take (S m) (drop i p)))%nat as Hlen.
  { rewrite length_app, length_take, length_drop. lia. }
  destruct (_ =? _); [|by split_and!; rsimpl]. rsimpl. rewrite Hbad, andb_false_r.
  by destruct (oom_close c); split_and!; rsimpl.
Qed.

(** ** Sequences of operations *)

Variant out_op :=
  | Out_bytes pkt                (* [queue_packet(const char *, unsigned)] *)
  | Out_packet pkt               (* [queue_packet(vector<char> &&)] *)
  | Out_ready.                   (* the connection can be written to *)

(** [None]: the connection has failed.  There is no watch for writing while nothing is
    queued. *)
Definition out_step (op : out_op) c : option conn :=
  match op with
  | Out_bytes pkt => let '(c, ok) := queue_bytes pkt c in if ok then Some c else None
  | Out_packet pkt => let '(c, ok) := queue_packet pkt c in if ok then Some c else None
  | Out_ready =>
      if bool_decide (outbuf c = []) then Some c
      else let '(c, close) := send_data c in if close : bool then None else Some c
  end.
Fixpoint out_run (ops : list out_op) c : option conn :=
  match ops with
  | [] => Some c
  | op :: ops => c ← out_step op c; out_run ops c
  end.
Definition out_data (op : out_op) : list Z :=
  match op with Out_bytes pkt | Out_packet pkt => pkt | Out_ready => [] end.
Definition op_sendable (op : out_op) : Prop :=
  match op with Out_bytes pkt | Out_packet pkt => sendable pkt | Out_ready => True end.

Lemma out_step_queues op c c' :
  op_sendable op → queue_ok c → out_step op c = Some c' → queues (out_data op) c c'.
Proof.
  intros Hop Hq. destruct op as [pkt|pkt|]; cbn.
  - destruct (queue_bytes pkt c) as [c1 []] eqn:E; [|done]. intros [= ->]. by apply queue_bytes_queues.
  - destruct (queue_packet pkt c) as [c1 []] eqn:E; [|done]. intros [= ->]. by apply queue_packet_queues.
  - unfold queues. rewrite (right_id_L [] (++)). case_bool_decide as Hne; [by intros [= ->]|].
    pose proof (send_data_keeps c Hq Hne) as H.
    destruct (send_data c) as [c1 []]; [done|]. by intros [= ->].
Qed.

Lemma out_run_queues ops c c' :
  Forall op_sendable ops → queue_ok c → out_run ops c = Some c' →
  queues (concat (out_data <$> ops)) c c'.
Proof.
  intros Hops. revert c. induction Hops as [|op ops Hop _ IH]; intros c Hq; cbn.
  - intros [= ->]. split; [done|]. by rewrite (right_id_L [] (++)).
  - destruct (out_step op c) as [c1|] eqn:E; [|done]. cbn. intros Hr.
    destruct (out_step_queues op c c1 Hop Hq E) as [Hq1 H1].
    destruct (IH c1 Hq1 Hr) as [Hq2 H2]. split; [done|].
    by rewrite H2, (assoc_L (++)), H1, <- !(assoc_L (++)).
Qed.

(** A connection that takes at least a byte at a time. *)
Definition flowing (r : write_result) : Prop :=
  match r with Wrote (S _) => True | _ => False end.

Lemma out_run_drains k c :
  queue_ok c → bad_conn_close c = false → Forall flowing (writes c) →
  (length (pending c) ≤ k)%nat → (k ≤ length (writes c))%nat →
  ∃ c', out_run (replicate k Out_ready) c = Some c' ∧ pending c' = [].
Proof.
  revert c. induction k as [|k IH]; intros c Hq Hbad Hf Hp Hw; cbn.
  { exists c. split; [done|]. by destruct (pending c); [|cbn in Hp; lia]. }
  case_bool_decide as Hne; cbn.
  { assert (pending c = []) as H0 by (unfold pending; by rewrite Hne).
    clear - H0 Hne. exists c. split; [|done]. induction k; [done|]. cbn. by rewrite bool_decide_eq_true_2. }
  destruct (writes c) as [|r ws] eqn:Ew; [cbn in Hw; lia|].
  apply list.Forall_cons in Hf as [Hr Hf]. destruct r as [[|m]| | |]; [done| |done..].
  destruct (send_data_progress c m ws Hq Hne Ew Hbad) as (H1 & H2 & H3 & H4).
  destruct (send_data_keeps c Hq Hne) as [H5 H6]. destruct (send_data c) as [c1 b]. cbn in *. subst b. cbn.
  apply IH; rewrite ?H2; [done..| |lia].
  apply (f_equal length) in H6. rewrite !length_app in H6. lia.
Qed.

Lemma queue_ok_new ws : queue_ok (conn_new ws).
Proof. by split. Qed.
