(* ===== verification/ControlHandles.v ===== *)
(** * The control protocol server: handles

    A connection keeps its handles in two maps, from services to handles and back.  They
    agree whatever the client sends, and a new handle is the smallest that is free. *)

From S2P Require Import Prelude Text ServiceData Service TimeVal Process ProcessRun ProcessEvents Loader ProcessMemory HashSet Env ControlConn Control.
From Stdlib Require Import Sorting.Sorted.

Implicit Types (c : conn) (x : sid) (k : Z) (m : list (Z * sid)).

Record maps_agree c : Prop := {
  ma_sorted : StronglySorted Z.lt (key_service_map c).*1;
  ma_range : Forall (λ k, 0 ≤ k) (key_service_map c).*1;
  ma_same k x : (k, x) ∈ key_service_map c ↔ (x, k) ∈ service_key_map c;
  ma_nodup : NoDup (service_key_map c)
}.

(** ** Ordered maps *)

Lemma sorted_nodup (l : list Z) : StronglySorted Z.lt l → NoDup l.
Proof.
  induction 1 as [|k l _ IH Hk]; [by constructor|]. constructor; [|done].
  intros Hin. rewrite list.Forall_forall in Hk. specialize (Hk k Hin). lia.
Qed.

Lemma free_handle_spec m k :
  StronglySorted Z.lt m.*1 → Forall (λ k', k ≤ k') m.*1 →
  0 ≤ k → k + Z.of_nat (length m) < 2 ^ 32 →
  k ≤ free_handle k m ≤ k + Z.of_nat (length m)
  ∧ (free_handle k m ∉ m.*1)
  ∧ ∀ k', k ≤ k' < free_handle k m → k' ∈ m.*1.
Proof.
  revert k. induction m as [|[k0 x] m IH]; intros k Hs Hk H0 Hl; cbn.
  { split_and!; [lia..|by apply not_elem_of_nil|lia]. }
  cbn in Hs, Hk, Hl. apply StronglySorted_inv in Hs as [Hs Hlt].
  apply list.Forall_cons in Hk as [Hk0 Hk].
  destruct (Z.eqb_spec k0 k) as [->|Hne].
  - assert (u32 (k + 1) = k + 1) as -> by (apply Z.mod_small; lia).
    destruct (IH (k + 1) Hs) as (H1 & H2 & H3); [|lia..|].
    { eapply list.Forall_impl; [exact Hlt|]. cbn. lia. }
    split_and!; [lia..| |].
    + rewrite elem_of_cons. intros [E|E]; [lia|done].
    + intros k' Hk'. rewrite elem_of_cons. destruct (decide (k' = k)); [by left|]. right. apply H3. lia.
  - split_and!; [lia..| |lia]. rewrite elem_of_cons. intros [E|E]; [done|].
    rewrite list.Forall_forall in Hlt. specialize (Hlt k E). lia.
Qed.

Lemma map_assign_elem m k x k' x' :
  k ∉ m.*1 → (k', x') ∈ map_assign k x m ↔ (k', x') = (k, x) ∨ (k', x') ∈ m.
Proof.
  induction m as [|[k0 x0] m IH]; cbn; intros Hk.
  { by rewrite list_elem_of_singleton, elem_of_nil; tauto. }
  rewrite not_elem_of_cons in Hk. destruct Hk as [Hk0 Hk].
  destruct (k <? k0); [by rewrite elem_of_cons|]. destruct (Z.eqb_spec k k0); [done|].
  rewrite !elem_of_cons, IH by done. tauto.
Qed.
Lemma map_assign_keys m k x k' : k' ∈ (map_assign k x m).*1 → k' = k ∨ k' ∈ m.*1.
Proof.
  induction m as [|[k0 x0] m IH]; cbn.
  { rewrite elem_of_cons. tauto. }
  destruct (k <? k0); [|destruct (Z.eqb_spec k k0) as [->|]]; cbn; rewrite !elem_of_cons; tauto.
Qed.
Lemma map_assign_sorted m k x :
  StronglySorted Z.lt m.*1 → StronglySorted Z.lt (map_assign k x m).*1.
Proof.
  induction m as [|[k0 x0] m IH]; cbn; intros Hs; [by repeat constructor|].
  apply StronglySorted_inv in Hs as Hs'. destruct Hs' as [Hs' Hk].
  destruct (Z.ltb_spec k k0); [|destruct (Z.eqb_spec k k0) as [->|]]; cbn.
  - constructor; [done|]. apply list.Forall_cons. split; [done|].
    eapply list.Forall_impl; [exact Hk|]. cbn. lia.
  - by constructor.
  - constructor; [by apply IH|]. apply list.Forall_forall. intros k' [->|Hk']%map_assign_keys; [lia|].
    rewrite list.Forall_forall in Hk. by apply Hk.
Qed.
Lemma map_assign_length m k x : (length m ≤ length (map_assign k x m))%nat.
Proof.
  induction m as [|[k0 x0] m IH]; cbn; [lia|].
  destruct (k <? k0); [|destruct (k =? k0)]; cbn; lia.
Qed.

Lemma find_key_elem m k x :
  NoDup m.*1 → snd <$> List.find (λ p, p.1 =? k) m = Some x ↔ (k, x) ∈ m.
Proof.
  induction m as [|[k0 x0] m IH]; cbn; intros Hnd.
  { split; [done|by intros ?%not_elem_of_nil]. }
  apply list.NoDup_cons in Hnd as [H0 Hnd]. rewrite elem_of_cons.
  destruct (Z.eqb_spec k0 k) as [->|Hne]; cbn.
  - split; [intros [= ->]; by left|]. intros [[= ->]|H]; [done|].
    destruct H0. apply list_elem_of_fmap. by exists (k, x).
  - rewrite IH by done. split; [by right|]. by intros [[= -> ->]|H].
Qed.
Lemma find_service_elem c k x :
  maps_agree c → find_service_for_key k c = Some x ↔ (k, x) ∈ key_service_map c.
Proof. intros H. apply find_key_elem, sorted_nodup, H. Qed.
Lemma handles_of_elem x k c : k ∈ handles_of x c ↔ (x, k) ∈ service_key_map c.
Proof.
  unfold handles_of. rewrite list_elem_of_fmap. split.
  - intros ([x' k'] & -> & [Hx H]%list_elem_of_filter). cbn in *. by subst.
  - intros H. exists (x, k). split; [done|]. by apply list_elem_of_filter.
Qed.

Lemma sorted_filter (P : Z * sid → Prop) `{!∀ p, Decision (P p)} m :
  StronglySorted Z.lt m.*1 → StronglySorted Z.lt (filter P m).*1.
Proof.
  induction m as [|p m IH]; intros Hs; [done|]. apply StronglySorted_inv in Hs as [Hs Hk].
  rewrite filter_cons. destruct (decide _); [|by apply IH]. cbn. constructor; [by apply IH|].
  apply list.Forall_forall. intros k (q & -> & [_ Hq]%list_elem_of_filter)%list_elem_of_fmap.
  rewrite list.Forall_forall in Hk. apply Hk. by apply list_elem_of_fmap_2.
Qed.
Lemma range_filter (P : Z * sid → Prop) `{!∀ p, Decision (P p)} (Q : Z → Prop) m :
  Forall Q m.*1 → Forall Q (filter P m).*1.
Proof.
  rewrite !list.Forall_forall. intros HQ k (q & -> & [_ Hq]%list_elem_of_filter)%list_elem_of_fmap.
  apply HQ. by apply list_elem_of_fmap_2.
Qed.

(** ** The operations on the maps *)

Definition next_handle c : Z := free_handle 0 (key_service_map c).
Definition has_room c : Prop := Z.of_nat (length (key_service_map c)) < 2 ^ 32.

Lemma next_handle_spec c :
  maps_agree c → has_room c →
  0 ≤ next_handle c ∧ (next_handle c ∉ (key_service_map c).*1)
  ∧ ∀ k, 0 ≤ k < next_handle c → k ∈ (key_service_map c).*1.
Proof.
  intros H Hr. destruct (free_handle_spec (key_service_map c) 0) as (H1 & H2 & H3);
    [apply H|apply H|lia|exact Hr|]. split_and!; [apply H1|done|done].
Qed.

Lemma agree_add_handle x c :
  maps_agree c → has_room c → maps_agree (add_handle x (next_handle c) c).
Proof.
  intros H Hr. destruct (next_handle_spec c H Hr) as (H0 & Hfree & _).
  set (k := next_handle c) in *. unfold add_handle. split; rsimpl.
  - apply map_assign_sorted, H.
  - apply list.Forall_forall. intros k' [->|Hk']%map_assign_keys; [done|].
    by apply (proj1 (list.Forall_forall _ _) (ma_range _ H)).
  - intros k' x'. rewrite map_assign_elem, (ma_same _ H), elem_of_app, list_elem_of_singleton by done.
    naive_solver.
  - apply list.NoDup_app. split_and!; [apply H| |apply list.NoDup_singleton].
    intros p Hp ->%list_elem_of_singleton. apply Hfree, list_elem_of_fmap. exists (k, x).
    split; [done|]. by apply (ma_same _ H).
Qed.

Lemma agree_remove k x c :
  maps_agree c → (k, x) ∈ key_service_map c → maps_agree (erase_handle x k (erase_key k c)).
Proof.
  intros H Hin. unfold erase_handle, erase_key. split; rsimpl.
  - apply sorted_filter, H.
  - apply range_filter, H.
  - intros k' x'. rewrite !list_elem_of_filter, (ma_same _ H). cbn. split.
    + intros [Hk Hx]. split; [congruence|done].
    + intros [Hp Hx]. split; [|done]. intros ->. apply Hp. f_equal.
      pose proof (sorted_nodup _ (ma_sorted _ H)) as Hnd. apply (ma_same _ H) in Hx.
      apply (find_key_elem _ _ _ Hnd) in Hx, Hin. congruence.
  - apply list.NoDup_filter, H.
Qed.

(** A service that has a single handle. *)
Lemma agree_remove_service k x c :
  maps_agree c → handles_of x c = [k] → maps_agree (erase_key k (erase_service x c)).
Proof.
  intros H Hk. assert ((k, x) ∈ key_service_map c) as Hin.
  { apply (ma_same _ H), handles_of_elem. rewrite Hk. apply list_elem_of_here. }
  unfold erase_service, erase_key. split; rsimpl.
  - apply sorted_filter, H.
  - apply range_filter, H.
  - intros k' x'. rewrite !list_elem_of_filter, (ma_same _ H). cbn. split.
    + intros [Hne Hx]. split; [|done]. intros ->. apply handles_of_elem in Hx. rewrite Hk in Hx.
      by apply list_elem_of_singleton in Hx.
    + intros [Hne Hx]. split; [|done]. intros ->. apply Hne.
      pose proof (sorted_nodup _ (ma_sorted _ H)) as Hnd. apply (ma_same _ H) in Hx.
      apply (find_key_elem _ _ _ Hnd) in Hx, Hin. congruence.
  - apply list.NoDup_filter, H.
Qed.

(** ** Requests *)

(** The maps agree until all of the handles are in use. *)
Definition agree c : Prop :=
  maps_agree c ∨ 2 ^ 32 ≤ Z.of_nat (length (key_service_map c)).

Definition same_maps c c' : Prop :=
  key_service_map c' = key_service_map c ∧ service_key_map c' = service_key_map c.

Lemma maps_agree_same c c' : same_maps c c' → maps_agree c → maps_agree c'.
Proof. intros [E1 E2] [H1 H2 H3 H4]. split; rewrite ?E1, ?E2; done. Qed.
Lemma agree_same c c' : same_maps c c' → agree c → agree c'.
Proof.
  intros Hs [H|H]; [left; by eapply maps_agree_same|]. right. destruct Hs as [E _]. by rewrite E.
Qed.
Lemma same_maps_trans c1 c2 c3 : same_maps c1 c2 → same_maps c2 c3 → same_maps c1 c3.
Proof. unfold same_maps. intros [] []. split; congruence. Qed.

Lemma add_handle_full x k c :
  2 ^ 32 ≤ Z.of_nat (length (key_service_map c)) →
  2 ^ 32 ≤ Z.of_nat (length (key_service_map (add_handle x k c))).
Proof.
  pose proof (map_assign_length (key_service_map c) k x). unfold add_handle. rsimpl. lia.
Qed.

Lemma write_maps pkt c : same_maps c (write pkt c).1.
Proof. unfold write. by destruct (writes c) as [|[] ws]. Qed.
Lemma queue_bytes_maps pkt c : same_maps c (queue_bytes pkt c).1.
Proof.
  unfold queue_bytes. destruct (outbuf c); [|done]. pose proof (write_maps pkt c) as H.
  destruct (write pkt c) as [c' [k| | |]]; [destruct (_ =? _)%nat|..]; exact H.
Qed.
Lemma queue_packet_maps pkt c : same_maps c (queue_packet pkt c).1.
Proof.
  unfold queue_packet, seq. destruct (outbuf c); [|done].
  pose proof (write_maps pkt (c <| outpkt_index := 0 |>)) as H.
  destruct (write pkt _) as [c' [k| | |]]; [destruct (_ =? _)%nat|..]; exact H.
Qed.
Lemma service_event_maps x ev status c : same_maps c (service_event x ev status c).
Proof.
  unfold service_event. apply (for_each_inv (λ c', same_maps c c')); [done|].
  intros key c' _ H. unfold seq. eapply same_maps_trans; [exact H|].
  eapply same_maps_trans; apply queue_packet_maps.
Qed.

Create HintDb handles.

Section requests.
Context (environ : list text) (me : nat) (n : nat) `{Loading : ServiceLoading}.
Context (load_dirs : option (list text)) (cwd : option text).
Implicit Types (s : server) (pkt : list Z).

Definition ok s : Prop := agree (con s).

Lemma ok_con f s : same_maps (con s) (f (con s)) → ok s → ok (on_con f s).
Proof. apply agree_same. Qed.
Lemma ok_reply_bytes pkt s : ok s → ok (reply_bytes pkt s).1.
Proof.
  unfold reply_bytes. pose proof (queue_bytes_maps pkt (con s)) as H.
  destruct (queue_bytes _ _). by apply agree_same.
Qed.
Lemma ok_reply_packet pkt s : ok s → ok (reply_packet pkt s).1.
Proof.
  unfold reply_packet. pose proof (queue_packet_maps pkt (con s)) as H.
  destruct (queue_packet _ _). by apply agree_same.
Qed.
Lemma same_on_services_ret {A} (f : psys → psys * A) s :
  same_maps (con s) (con (on_services_ret me f s).1).
Proof.
  unfold on_services_ret. destruct (f (services s)) as [st' a]. cbn [fst].
  apply (for_each_inv (λ s' : server, same_maps (con s) (con s'))); [done|].
  intros [] s' _ H'; try done. cbn [deliver]. unfold when. destruct (bool_decide _); [|done].
  eapply same_maps_trans; [exact H'|]. apply service_event_maps.
Qed.
Lemma same_on_services f s : same_maps (con s) (con (on_services me f s)).
Proof. apply same_on_services_ret. Qed.
Lemma ok_on_services_ret {A} (f : psys → psys * A) s : ok s → ok (on_services_ret me f s).1.
Proof. apply agree_same, same_on_services_ret. Qed.
Lemma ok_on_services f s : ok s → ok (on_services me f s).
Proof. apply ok_on_services_ret. Qed.
Lemma ok_on_env f s : ok s → ok (on_env me f s).
Proof.
  intros H. unfold on_env. destruct (f _) as [e [[v o]|]]; [|exact H]. unfold seq.
  apply (when_inv ok); [exact H|]. intros _ _. apply ok_con; [|done].
  apply queue_packet_maps.
Qed.
Lemma ok_set_chklen len s : ok s → ok (set_chklen len s).
Proof. by apply ok_con. Qed.
Lemma ok_consume len s : ok s → ok (consume len s).
Proof. by apply ok_con. Qed.
Lemma ok_finish len s : ok s → ok (finish len s).
Proof. intros H. by apply ok_set_chklen, ok_consume. Qed.
Lemma ok_undefined s : ok s → ok (on_con (λ c, c <| undefined := true |>) s).
Proof. by apply ok_con. Qed.
Lemma ok_listen f s : ok s → ok (s <| main_env ::= f |>).
Proof. done. Qed.
Lemma ok_and_then r (k : server → server * bool) :
  ok r.1 → (∀ s, ok s → ok (k s).1) → ok (and_then r k).1.
Proof. destruct r as [s []]; cbn; auto. Qed.
Lemma ok_with_packet size (k : server → server * bool) s :
  ok s → (∀ s, ok s → ok (k s).1) → ok (with_packet size k s).1.
Proof.
  intros H Hk. unfold with_packet. destruct (_ <? _); [by apply ok_set_chklen|]. by apply Hk.
Qed.
Lemma ok_bad_request s : ok s → ok (bad_request s).1.
Proof.
  intros H. apply ok_and_then; [by apply ok_reply_bytes|]. intros s' H'. by apply ok_con.
Qed.
Lemma ok_reply_finish code len s : ok s → ok (reply_finish code len s).1.
Proof.
  intros H. apply ok_and_then; [by apply ok_reply_bytes|]. intros s' H'. by apply ok_finish.
Qed.
#[local] Hint Resolve ok_reply_bytes ok_reply_packet ok_on_services ok_on_services_ret ok_on_env
  ok_bad_request ok_reply_finish ok_finish ok_set_chklen ok_consume ok_undefined ok_listen : handles.

Lemma ok_allocate x s : ok s → ok (allocate_service_handle me x s).1.
Proof.
  intros H. unfold allocate_service_handle, seq. cbn [fst].
  set (s1 := when _ _ s).
  assert (key_service_map (con s1) = key_service_map (con s) ∧ ok s1) as [E [Ha|Hf]].
  { unfold s1. destruct (bool_decide _); [|done]. cbn [when].
    split; [apply same_on_services|by apply ok_on_services]. }
  - destruct (Z.lt_ge_cases (Z.of_nat (length (key_service_map (con s1)))) (2 ^ 32)) as [Hr|Hr].
    + left. rewrite <- E. by apply agree_add_handle.
    + right. by apply add_handle_full.
  - right. by apply add_handle_full.
Qed.
#[local] Hint Resolve ok_allocate : handles.

Ltac astep :=
  first
    [ by auto with handles
    | lazymatch goal with
      | |- ok (fst (and_then _ _)) => apply ok_and_then; [|intros ? ?]
      | |- ok (fst (with_packet _ _ _)) => apply ok_with_packet; [|intros ? ?]
      | |- ok (fst (let '(_, _) := ?r in _)) =>
          let H := fresh "H" in
          assert (ok (fst r)) as H; [|destruct r; cbn [fst] in H |- *]
      | _ => gstep
      end ].
Ltac asolve := repeat astep.

Lemma ok_check_dependents x s : ok s → ok (check_dependents me x s).1.
Proof.
  intros H. unfold check_dependents.
  assert (ok (for_each (dependents (svc (services s) x)) (dependent_turn me) (s, [])).1) as H1.
  { apply (for_each_inv (λ r, ok r.1)); [done|]. intros d [s' hs] _ H'. unfold dependent_turn.
    destruct (_ && _); [|done]. asolve. }
  destruct (for_each _ _ _) as [s1 [|h hs]]; [done|]. cbn [fst] in H1. asolve.
Qed.
#[local] Hint Resolve ok_check_dependents : handles.

Lemma ok_start_stop ty flags x s : ok s → ok (start_stop me n ty flags x s).1.
Proof.
  intros H. assert (∀ p r s, ok s → ok (stop_now me n x p r s).1) as Hstop.
  { intros p r s' H'. unfold stop_now. destruct r; asolve. }
  unfold start_stop, start_command, stop_command, wake_command, release_command.
  destruct (ty =? cp_cmd.STARTSERVICE); [by asolve|].
  destruct (ty =? cp_cmd.STOPSERVICE).
  - destruct (_ && _); [done|]. destruct (blocks_stop _ _); [done|].
    destruct (Z.testbit flags 1); [|by apply Hstop].
    pose proof (ok_check_dependents x s H) as Hc.
    destruct (check_dependents me x s) as [s' [[] []]]; cbn [fst negb] in *; try done. by apply Hstop.
  - by asolve.
Qed.
#[local] Hint Resolve ok_start_stop : handles.

Lemma ok_process_start_stop ty s : ok s → ok (process_start_stop me n ty s).1.
Proof.
  intros H. unfold process_start_stop. astep; [done|]. destruct (service_at 2 s0) as [x|]; [|by asolve].
  astep; [destruct (Z.testbit _ _); by asolve|].
  pose proof (ok_start_stop ty (rbuf_at 1 (con s0)) x s1 H1) as Hs.
  destruct (start_stop _ _ _ _ _ _) as [s3 [code| |]]; cbn [fst] in *; by asolve.
Qed.
Lemma ok_send_services fill l s : ok s → ok (send_services fill l s).1.
Proof.
  revert s. induction l as [|x l IH]; intros s H; cbn [send_services]; [by asolve|].
  destruct (is_placeholder _ _); [by apply IH|]. astep; [by asolve|]. by apply IH.
Qed.
#[local] Hint Resolve ok_process_start_stop ok_send_services : handles.

Lemma ok_with_dependency f s :
  ok s → (∀ from to ty s, ok s → ok (f from to ty s).1) → ok (with_dependency f s).1.
Proof.
  intros H Hf. unfold with_dependency. astep; [done|].
  destruct (service_at 2 s0); [|by asolve]. destruct (service_at 6 s0); [|by asolve].
  destruct (decide _); [by asolve|]. astep.
  - unfold check_dep_type. destruct (bool_decide _); by asolve.
  - by apply Hf.
Qed.

Lemma ok_find_load ty s : ok s → ok (process_find_load me ty s).1.
Proof.
  intros H. assert (∀ name s, ok s → ok (find_load me ty name s).1) as Hf.
  { intros name s' H'. unfold find_load. destruct (_ =? _); [|done]. asolve. }
  unfold process_find_load. asolve.
Qed.
#[local] Hint Resolve ok_find_load : handles.

Lemma ok_close_handle s : maps_agree (con s) → ok (process_close_handle me s).1.
Proof.
  intros H. unfold process_close_handle, with_packet.
  destruct (_ <? _); [apply ok_set_chklen; by left|]. cbv zeta. unfold seq at 1.
  set (s1 := finish 5 s). assert (maps_agree (con s1)) as H1 by by apply (maps_agree_same (con s)).
  set (k := handle_at 1 s). destruct (find_service_for_key k (con s1)) as [x|] eqn:Hx.
  2: apply ok_bad_request; by left.
  apply (find_service_elem _ _ _ H1) in Hx. unfold seq at 1.
  set (s2 := on_con (erase_key k) s1).
  assert (k ∈ handles_of x (con s2)) as Hin by (apply handles_of_elem; by apply (ma_same _ H1)).
  rewrite bool_decide_eq_true_2 by done. cbn [negb]. unfold seq at 1.
  assert (ok (on_con (erase_handle x k) s2)) as H3 by (left; by apply agree_remove).
  unfold seq. destruct (negb _); cbn [when]; auto with handles.
Qed.

(** The handle of the request is the only one of its service. *)
Definition sole_handle s : Prop :=
  ∀ x, service_at 1 s = Some x → handles_of x (con s) = [handle_at 1 s].

Lemma ok_unload s :
  maps_agree (con s) → sole_handle s → ok (process_unload_service me s).1.
Proof.
  intros H Hsole. unfold process_unload_service, with_packet.
  destruct (_ <? _); [apply ok_set_chklen; by left|]. cbv zeta.
  destruct (service_at 1 s) as [x|] eqn:Hx; [|apply ok_bad_request; by left].
  destruct (_ || _); [apply ok_reply_finish; by left|].
  apply ok_reply_finish.
  pose proof (Hsole x Hx) as Hk.
  assert (same_maps (con s) (con (on_services me (unload_service x) s))) as Hs.
  { by apply (same_on_services (unload_service x)). }
  left. apply agree_remove_service; [by apply (maps_agree_same (con s))|].
  unfold handles_of. destruct Hs as [_ ->]. exact Hk.
Qed.

Lemma ok_reload s :
  maps_agree (con s) → sole_handle s → ok (process_reload_service me n s).1.
Proof.
  intros H Hsole. unfold process_reload_service, with_packet.
  destruct (_ <? _); [apply ok_set_chklen; by left|]. cbv zeta.
  destruct (service_at 1 s) as [x|] eqn:Hx; [|apply ok_bad_request; by left].
  destruct (negb _); [apply ok_reply_finish; by left|]. unfold seq at 1. unfold seq at 1.
  assert (ok (on_con (erase_service x) (on_con (erase_key (handle_at 1 s)) s))) as H1.
  { left. exact (agree_remove_service _ _ _ H (Hsole x Hx)). }
  asolve.
Qed.

(** The requests that take all of the handles of a service back. *)
Definition takes_service : list Z := [cp_cmd.UNLOADSERVICE; cp_cmd.RELOADSERVICE].

Lemma handlers_ok :
  Forall (λ h, ∀ s, maps_agree (con s) → (h.1 ∈ takes_service → sole_handle s) → ok (h.2 s).1)
    (handlers environ me n load_dirs cwd).
Proof.
  unfold handlers.
  repeat (apply list.Forall_cons; split); [..|by apply list.Forall_nil];
    cbn [fst snd]; intros s Ha Hsole; (assert (ok s) as Hs by by left);
    try by auto with handles.
  all: try by apply ok_close_handle.
  all: try (apply ok_with_dependency; [exact Hs|]; intros from to ty s' H').
  all: try (apply ok_unload; [exact Ha|apply Hsole; by repeat constructor]).
  all: try (apply ok_reload; [exact Ha|apply Hsole; by repeat constructor]).
  all: unfold query_version, process_unpin_service, process_shutdown, list_services, list_services5,
    list_services_with, process_service_status, process_service_status5, service_status_with,
    query_load_mech, process_query_name, process_setenv, process_getallenv, process_listenenv,
    process_set_trigger, process_catlog, process_signal, process_query_dsc_dir.
  all: by asolve.
Qed.

Lemma process_packet_ok s :
  maps_agree (con s) →
  (rbuf_at 0 (con s) ∈ takes_service → sole_handle s) →
  ok (process_packet environ me n load_dirs cwd s).1.
Proof.
  intros H Hsole. unfold process_packet.
  destruct (List.find _ _) as [[code h]|] eqn:Hf; [|apply ok_bad_request; by left].
  apply find_some in Hf as [Hin Hc%Z.eqb_eq]. cbn [fst] in Hc. rewrite <- Hc in Hsole.
  pose proof handlers_ok as Hh. rewrite list.Forall_forall in Hh.
  apply list_elem_of_In in Hin. exact (Hh _ Hin s H Hsole).
Qed.
End requests.
