(* ===== verification/ControlChain.v ===== *)
(** * The control protocol server: chains of dependencies

    The search that a request for a new dependency makes finds a chain of dependencies if
    there is one, so that no request makes the dependency graph cyclic. *)

From S2P Require Import Prelude Text ServiceData Service ServiceInv ServiceInvOps ServiceGraph ServiceLinks ServiceReach Simple Settings Loader LoaderLaws TimeVal Process ProcessRun ProcessEvents ProcessLaws ProcessMemory HashSet Env ControlConn Control ControlLaws.

(** ** The search *)

Section chain.
Context (st : psys) (from to : sid).
Implicit Types (x y z : sid) (marks queue ts : list sid).

(** The dependencies of services are in the set of records. *)
Definition records_ok : Prop := ∀ x d, d ∈ depends_on (svc st x) → d ∈ dom (deps st).

Definition all_targets : list sid := dep_to ∘ snd <$> map_to_list (deps st).

Lemma targets_in_all x y : records_ok → y ∈ targets st x → y ∈ all_targets.
Proof.
  intros Hr (d & -> & Hd)%list_elem_of_fmap. specialize (Hr x d Hd).
  apply elem_of_dom in Hr as [r Er]. apply list_elem_of_fmap. exists (d, r).
  split; [|by apply elem_of_map_to_list]. unfold dep, compose. cbn. by rewrite Er.
Qed.
Lemma all_targets_length : length all_targets = size (deps st).
Proof. unfold all_targets. by rewrite length_fmap, length_map_to_list. Qed.

Lemma add_marked_none ts marks queue :
  add_marked from ts marks queue = None → from ∈ ts.
Proof.
  revert marks queue. induction ts as [|t ts IH]; intros marks queue; cbn; [done|].
  case_decide as Ht; [subst; intros _; by left|]. destruct (bool_decide _); intros H; right; eauto.
Qed.

(** What is marked is pushed, once. *)
Lemma add_marked_some ts marks queue m q :
  add_marked from ts marks queue = Some (m, q) →
  (from ∉ ts)
  ∧ (∀ y, y ∈ m ↔ y ∈ marks ∨ y ∈ ts)
  ∧ (∀ y, y ∈ q → y ∈ queue ∨ y ∈ ts)
  ∧ (∀ y, y ∈ queue ∨ (y ∈ ts ∧ y ∉ marks) → y ∈ q)
  ∧ (NoDup marks → NoDup m)
  ∧ (length q + length marks = length queue + length m)%nat.
Proof.
  revert marks queue. induction ts as [|t ts IH]; intros marks queue; cbn.
  { intros [= -> ->]. split_and!; first [done|lia|set_solver]. }
  case_decide as Ht; [done|]. case_bool_decide as Hm; intros (H1 & H2 & H3 & H4 & H5 & H6)%IH.
  - split_and!; [set_solver|intros y; rewrite H2; set_solver|set_solver| |done|done].
    intros y Hy. apply H4. set_solver.
  - split_and!.
    + set_solver.
    + intros y. rewrite H2. set_solver.
    + intros y [Hy|Hy]%H3; set_solver.
    + intros y Hy. apply H4. destruct (decide (y = t)); set_solver.
    + intros Hn. apply H5. by constructor.
    + cbn in H6. lia.
Qed.

(** The services that were reached, whose dependencies are marked or still in the queue. *)
Record chain_inv marks queue : Prop := {
  ci_marks : NoDup marks;
  ci_in : ∀ y, y ∈ marks → y ∈ all_targets;
  ci_reached y : y ∈ marks ∨ y ∈ queue → rtc (depends st) to y;
  ci_closed y : y = to ∨ y ∈ marks → y ∈ queue ∨ ((from ∉ targets st y) ∧ targets st y ⊆ marks)
}.

Lemma chain_step x marks queue m q :
  records_ok → chain_inv marks (x :: queue) →
  add_marked from (targets st x) marks queue = Some (m, q) → chain_inv m q.
Proof.
  intros Hr [H1 H2 H3 H4] (A1 & A2 & A3 & A4 & A5 & A6)%add_marked_some.
  assert (rtc (depends st) to x) as Hx by (apply H3; right; by left). split.
  - by apply A5.
  - intros y [Hy|Hy]%A2; [by apply H2|by eapply targets_in_all].
  - intros y Hy. assert (y ∈ marks ∨ y ∈ queue ∨ y ∈ targets st x) as [Hy'|[Hy'|Hy']].
    { destruct Hy as [[?|?]%A2|[?|?]%A3]; auto. }
    + apply H3. by left.
    + apply H3. right. by right.
    + by eapply rtc_r.
  - intros y Hy.
    assert ((y ∈ targets st x ∧ y ∉ marks) ∨ y = to ∨ y ∈ marks) as [Hn|Hold].
    { destruct Hy as [-> | [?|?]%A2]; [by right; left|by right; right|].
      destruct (decide (y ∈ marks)); [by right; right|by left]. }
    { left. apply A4. by right. }
    destruct (H4 y Hold) as [Hq|[Hf Hs]].
    + apply elem_of_cons in Hq as [->|Hq]; [|left; apply A4; by left].
      right. split; [done|]. intros z Hz. apply A2. by right.
    + right. split; [done|]. intros z Hz. apply A2. left. by apply Hs.
Qed.

Lemma chain_none marks : chain_inv marks [] → ¬ tc (depends st) to from.
Proof.
  intros H Hc. cut (∀ y z, tc (depends st) y z → y = to ∨ y ∈ marks → z ≠ from).
  { intros Hy. by apply (Hy to from Hc); [left|]. }
  clear Hc. intros y z Hc. induction Hc as [y z Hd|y w z Hd _ IH]; intros Hy;
    (destruct (ci_closed _ _ H y Hy) as [?%not_elem_of_nil|[Hf Hs]]; [done|]).
  - intros ->. by apply Hf.
  - apply IH. right. by apply Hs.
Qed.

Lemma chain_loop_spec fuel marks queue :
  records_ok → chain_inv marks queue →
  (length queue + (size (deps st) - length marks) ≤ fuel)%nat →
  ∃ b, chain_loop fuel st from marks queue = Some b
    ∧ (b = true ↔ tc (depends st) to from).
Proof.
  intros Hr. revert marks queue. induction fuel as [|fuel IH]; intros marks queue H Hf;
    (destruct queue as [|x queue]; [exists false; split; [done|]; split; [done|]|]).
  - intros Hc. by destruct (chain_none marks H).
  - cbn in Hf. lia.
  - intros Hc. by destruct (chain_none marks H).
  - cbn [chain_loop]. destruct (add_marked from (targets st x) marks queue) as [[m q]|] eqn:E.
    + apply IH; [by eapply chain_step|].
      pose proof (chain_step _ _ _ _ _ Hr H E) as [N1 N2 _ _].
      apply add_marked_some in E as (_ & _ & _ & _ & _ & Hlen).
      pose proof (submseteq_length m all_targets) as Hm. rewrite all_targets_length in Hm.
      specialize (Hm (NoDup_submseteq _ _ N1 N2)). cbn [length] in Hf. lia.
    + apply add_marked_none in E. exists true. split; [done|]. split; [intros _|done].
      eapply tc_rtc_l; [|by apply tc_once]. apply (ci_reached _ _ H). right. by left.
Qed.

Lemma has_chain_spec :
  records_ok →
  ∃ b, has_chain st from to = Some b ∧ (b = true ↔ tc (depends st) to from).
Proof.
  intros Hr. apply chain_loop_spec; [done| |cbn; unfold chain_fuel; lia]. split.
  - constructor.
  - by intros y ?%not_elem_of_nil.
  - by intros y [?%not_elem_of_nil| ->%list_elem_of_singleton].
  - intros y [-> | ?%not_elem_of_nil]; [|done]. left. by apply list_elem_of_singleton.
Qed.
End chain.

(** ** A new dependency *)

Section dependency.
Implicit Types (st : psys) (x y z from to : sid) (d : did).

Lemma reachable_records st : reachable st → records_ok st.
Proof.
  intros (G & _ & H)%reachable_inv x d Hd. apply (inv_alloc _ _ _ _ _ H x). left.
  by rewrite <- (proj1 (inv_graph _ _ _ _ _ H) x).
Qed.

Lemma targets_graph G st x : graph_is G st → targets st x = g_to G <$> g_deps G x.
Proof.
  intros (H1 & _ & _ & H4 & _). unfold targets. rewrite H1. apply list_fmap_ext.
  intros i d _. unfold compose. apply H4.
Qed.
Lemma targets_links st st' x : same_links st st' → targets st' x = targets st x.
Proof.
  intros [H1 _ _ H4 _]. unfold targets. rewrite H1. apply list_fmap_ext.
  intros i d _. unfold compose. apply H4.
Qed.

Lemma depends_add_dep from to ty i st x y :
  reachable st →
  depends (add_dep from to ty i st).1 x y → depends st x y ∨ (x = from ∧ y = to).
Proof.
  intros (G & Hl & H)%reachable_inv. unfold depends.
  pose proof (inv_add_dep false G no_credit none_exempt from to ty i st H) as H'.
  rewrite (targets_graph _ _ x (inv_graph _ _ _ _ _ H')), (targets_graph _ _ x (inv_graph _ _ _ _ _ H)).
  set (d := (add_dep from to ty i st).2) in *. cbn.
  intros (e & -> & He)%list_elem_of_fmap. revert He. case_decide as Hx.
  - rewrite elem_of_insert_at. intros [-> | He]; [by right; rewrite decide_True|].
    left. rewrite decide_False; [by apply list_elem_of_fmap_2|].
    intros ->. apply (add_dep_fresh from to ty i st), (inv_alloc _ _ _ _ _ H x). by left.
  - intros He. left. rewrite decide_False; [by apply list_elem_of_fmap_2|].
    intros ->. apply (add_dep_fresh from to ty i st), (inv_alloc _ _ _ _ _ H x). by left.
Qed.

(** The dependencies of a relation with one more edge. *)
Lemma tc_edge (R R' : sid → sid → Prop) from to x y :
  (∀ x y, R' x y → R x y ∨ (x = from ∧ y = to)) →
  tc R' x y → tc R x y ∨ (rtc R x from ∧ rtc R to y).
Proof.
  intros HR. induction 1 as [x y He|x z y He _ IH].
  - apply HR in He as [He|[-> ->]]; [by left; apply tc_once|by right].
  - apply HR in He as [He|[-> ->]].
    + destruct IH as [IH|[IH1 IH2]]; [left; by eapply tc_l|]. right. split; [by eapply rtc_l|done].
    + right. split; [done|]. destruct IH as [IH|[_ IH]]; [by apply tc_rtc|done].
Qed.
Lemma acyclic_edge (R R' : sid → sid → Prop) from to :
  (∀ x y, R' x y → R x y ∨ (x = from ∧ y = to)) → from ≠ to →
  (∀ x, ¬ tc R x x) → ¬ tc R to from → ∀ x, ¬ tc R' x x.
Proof.
  intros HR Hne Hac Hto x Hx. apply (tc_edge R R' from to) in Hx as [Hx|[Hx Hy]]; [by eapply Hac| |done].
  assert (rtc R to from) as Hr by (by transitivity x).
  apply rtc_tc in Hr as [?|?]; [congruence|done].
Qed.

Lemma links_enable_dep n from d e st : same_links st (enable_dep n from d e st).
Proof.
  unfold enable_dep, when. destruct (_ && _); [|done].
  apply links_process_queues; [apply _..|]. apply links_start_dep; [apply _..|]. done.
Qed.

Lemma make_dep_depends n from to ty e st x y :
  reachable st →
  depends (make_dep n from to ty e st) x y → depends st x y ∨ (x = from ∧ y = to).
Proof.
  intros Hr. unfold make_dep, depends. destruct (find_dep st from to ty) as [d|].
  - rewrite (targets_links _ _ _ (links_enable_dep n from d e st)). by left.
  - pose proof (depends_add_dep from to ty (length (depends_on (svc st from))) st x y Hr) as Ha.
    destruct (add_dep _ _ _ _ _) as [st1 d]. cbn [fst] in Ha. unfold seq.
    rewrite (targets_links _ _ _ (links_enable_dep n from d e _)).
    rewrite (targets_links st1) by (apply links_process_queues; [apply _..|done]). exact Ha.
Qed.

Lemma make_dep_acyclic n from to ty e st :
  reachable st → acyclic st → from ≠ to → has_chain st from to = Some false →
  acyclic (make_dep n from to ty e st).
Proof.
  intros Hr Ha Hne Hc. refine (acyclic_edge (depends st) _ from to _ Hne Ha _).
  - intros x y. by apply make_dep_depends.
  - destruct (has_chain_spec st from to) as (b & Hb & Hiff); [by apply reachable_records|].
    rewrite Hc in Hb. injection Hb as <-. rewrite <- Hiff. done.
Qed.
End dependency.
