(* ===== verification/ControlProps.v ===== *)
(** * The control protocol server: properties

    What holds of the server whatever bytes a client sends: the services stay in order, the
    input is cut into requests correctly and the server always comes to wait for more, the
    replies are sent completely and in order, the maps of handles agree, and no request
    closes a cycle of dependencies.  What does not hold is at the end. *)

From S2P Require Import Prelude Text ServiceData Service ServiceInv ServiceInvOps ServiceGraph ServiceLinks ServiceReach Simple Settings Loader LoaderLaws LoaderProps TimeVal Process ProcessRun ProcessEvents ProcessLaws ProcessMemory HashSet Env ControlConn Control ControlLaws ControlInput ControlQueue ControlHandles ControlChain.

(** ** Concrete servers *)

(** A loader that finds nothing. *)
#[export] Instance no_loader : ServiceLoading := {|
  load_description name st := (st, inr Not_found_failure);
  reload_description x st := (st, Some Load_failure)
|}.

(** The services "a" and "b". *)
Definition new_process x (name : string) (st : psys) : psys :=
  add_service x (construct x name service_type_t.INTERNAL [] st).
Definition two_services : psys :=
  new_process 2 "b" (new_process 1 "a"
    (service_set_new (Proc_ext ∅ (Time_val 5 0) [] ∅ 3 ∅ true))).
Lemma two_services_reachable : reachable two_services.
Proof.
  unfold two_services, new_process.
  eapply reachable_step; [|apply step_add_service].
  eapply reachable_step; [|by apply step_construct; vm_compute].
  eapply reachable_step; [|apply step_add_service].
  eapply reachable_step; [|by apply step_construct; vm_compute].
  apply reachable_init.
Qed.

(** A connection with a handle for each of the services; [results] are those of the calls of
    [write]. *)
Definition both_handles (results : list write_result) : conn :=
  add_handle 2 1 (add_handle 1 0 (conn_new results)).
Definition demo_server (results : list write_result) (bytes : list Z) : server :=
  Server two_services ((both_handles results) <| rbuf := bytes |>) environment_new.

(** ** The services *)

(** What changes the services while the server runs: a request that does not load, unload or
    reload a service, on any connection and in any state of it, and the events of process
    services. *)
Inductive server_step (environ : list text) (load_dirs : option (list text)) (cwd : option text)
    `{Loading : ServiceLoading} : psys → psys → Prop :=
  | sv_request me n c e st :
      rbuf_at 0 c ∉ loads_or_unloads →
      server_step environ load_dirs cwd st
        (services (process_packet environ me n load_dirs cwd (Server st c e)).1)
  | sv_event n st st' : process_event n st st' → server_step environ load_dirs cwd st st'.

(** C12: Whatever requests other than to load, unload or reload a service (LOADSERVICE,
    UNLOADSERVICE, RELOADSERVICE) clients send, on any number of connections in any state,
    and mixed with the events of process services in any order: from a reachable state the
    service set keeps its invariants. required_by is at least the explicit activation plus
    the links that hold an acquisition, a service with one of the five flags of
    do_propagation set is in the propagation queue, and the recursions of do_stop and
    pull_console_queue end within their computed depth. A service named by chain-to is
    looked up among the loaded services. *)
Theorem requests_safe environ load_dirs cwd `{Loading : ServiceLoading} st st' x :
  reachable st →
  rtc (server_step environ load_dirs cwd) st st' →
  b2z (start_explicit (svc st' x)) + held_in st' (dependents (svc st' x))
    ≤ required_by (svc st' x)
  ∧ (∀ f, flag f (svc st' x) = true → x ∈ prop_queue st')
  ∧ fault st' = false.
Proof.
  intros Hr Hs. apply reachable_safe. induction Hs as [|st st1 st2 Hs _ IH]; [done|]. apply IH.
  destruct Hs as [me n c e st Hc|n st st1 He].
  - apply process_packet_holds; [|done|done].
    intros s1 s2 Hs Hr1. by eapply reachable_step.
  - eapply reachable_step; [exact Hr|]. eapply step_derived. by apply process_event_derived.
Qed.

Lemma requests_safe_witness :
  let st := services (process_packet [] 0 40 None None
    (demo_server [] [cp_cmd.STARTSERVICE; 0; 1; 0; 0; 0])).1 in
  service_state (svc st 2) = service_state_t.STARTED
  ∧ b2z (start_explicit (svc st 2)) + held_in st (dependents (svc st 2)) ≤ required_by (svc st 2)
  ∧ (∀ f, flag f (svc st 2) = true → 2%nat ∈ prop_queue st)
  ∧ fault st = false.
Proof.
  intros st. split; [by vm_compute|].
  apply (requests_safe [] None None two_services); [apply two_services_reachable|].
  apply rtc_once. apply (sv_request [] None None 0 40 (con (demo_server [] [cp_cmd.STARTSERVICE; 0; 1; 0; 0; 0]))).
  apply (bool_decide_eq_true_1 _). by vm_compute.
Defined.

(** ** Input *)

(** C13: For a connection with input and chklen at most 1024: the number of bytes that a
    request needs is a function of the bytes, between 1 and 1024. With fewer bytes there,
    process_packet only stores that number in chklen. Otherwise exactly these bytes leave
    the buffer, or the handler fails (process_packet returns false) or the connection is
    marked bad (bad_conn_close); nothing is said of the bytes in these two cases. chklen
    stays at most 1024. *)
Theorem requests_framed environ me n `{Loading : ServiceLoading} load_dirs cwd (s : server) :
  rbuf (con s) ≠ [] → chklen (con s) ≤ 1024 →
  let size := request_size (rbuf (con s)) in
  let '(s', ok) := process_packet environ me n load_dirs cwd s in
  1 ≤ size ≤ 1024
  ∧ chklen (con s') ≤ 1024
  ∧ (rbuf_length (con s) < size → s' = set_chklen size s ∧ ok = true)
  ∧ (size ≤ rbuf_length (con s) →
     ok = false ∨ bad_conn_close (con s') = true
     ∨ rbuf (con s') = drop (Z.to_nat size) (rbuf (con s))).
Proof.
  intros Hne Hc. cbv zeta. pose proof (request_size_bounds (rbuf (con s))) as Hsz.
  destruct (process_packet_frames environ me n load_dirs cwd s Hne Hc) as [Hshort Hwhole].
  destruct (process_packet environ me n load_dirs cwd s) as [s' ok] eqn:E. cbn [fst snd] in *.
  split; [exact Hsz|].
  destruct (Z.lt_ge_cases (rbuf_length (con s)) (request_size (rbuf (con s)))) as [Hs|Hs].
  - specialize (Hshort Hs). injection Hshort as -> ->.
    split; [apply Hsz|]. split; [done|lia].
  - destruct (Hwhole Hs) as (len & _ & [[Hf H1]|[H1 H2 H3]]); cbn [fst snd] in *.
    + split; [done|]. split; [lia|]. tauto.
    + rewrite <- H2 in H3. split; [done|]. split; [lia|]. auto.
Qed.
Lemma requests_framed_witness :
  let s := demo_server [Wrote 99] [cp_cmd.STARTSERVICE; 0; 1; 0; 0; 0; cp_cmd.LISTENENV] in
  let s' := (process_packet [] 0 40 None None s).1 in
  request_size (rbuf (con s)) = 6
  ∧ (bad_conn_close (con s') = true ∨ rbuf (con s') = [cp_cmd.LISTENENV]).
Proof.
  intros s s'. split; [by vm_compute|].
  assert (rbuf (con s) ≠ []) as H1 by done.
  assert (chklen (con s) ≤ 1024) as H2 by (vm_compute; congruence).
  pose proof (requests_framed [] 0 40 None None s H1 H2) as H. cbv zeta in H.
  unfold s' in *. destruct (process_packet [] 0 40 None None s) as [s1 ok] eqn:E. cbn [fst].
  destruct H as (_ & _ & _ & H). destruct H as [Hok|[Hb|Hr]].
  - by vm_compute.
  - assert (ok = true) as Ht by (change ok with (s1, ok).2; rewrite <- E; by vm_compute). congruence.
  - by left.
  - right. rewrite Hr. by vm_compute.
Defined.

(** C14: However the bytes arrive, the loop over the requests ends, and it ends waiting for
    more bytes than are there and no more than fit, unless a handler has failed: the buffer
    is never full with an incomplete request, and the test for a packet that is too large
    never closes a connection. *)
Theorem input_ends environ me n `{Loading : ServiceLoading} load_dirs cwd (s : server) bytes :
  chklen (con s) ≤ 1024 → bytes ≠ [] →
  let s0 := on_con (λ c, c <| rbuf ::= λ b, b ++ bytes |>) s in
  ∃ s' more,
    packet_loop environ me n load_dirs cwd (S (length (rbuf (con s0)))) s0 = Some (s', more)
    ∧ data_ready environ me n load_dirs cwd (Read_bytes bytes) s = Some (s', false)
    ∧ chklen (con s') ≤ 1024
    ∧ (more = true → rbuf_length (con s') < chklen (con s')).
Proof.
  intros Hc Hne s0.
  destruct (packet_loop_ends environ me n load_dirs cwd (S (length (rbuf (con s0)))) s0)
    as (s' & more & Hl & Hc' & Hw); [exact Hc| |lia|].
  { unfold s0, on_con. rsimpl. intros E. apply app_eq_nil in E as [_ E]. congruence. }
  exists s', more. split; [done|]. split; [|split; [done|apply Hw]].
  destruct bytes as [|b bytes]; [done|]. unfold data_ready, seq. fold s0. rewrite Hl. cbn.
  destruct more; [|done]. destruct (Hw eq_refl) as [H1 H2]. cbn.
  by rewrite (proj2 (Z.eqb_neq _ _)) by lia.
Qed.
Lemma input_ends_witness :
  let s := demo_server [Wrote 99; Wrote 99] [] in
  ∃ s' more,
    data_ready [] 0 40 None None (Read_bytes [cp_cmd.QUERYVERSION; cp_cmd.CLOSEHANDLE; 0]) s
      = Some (s', false)
    ∧ (more = true → rbuf_length (con s') < chklen (con s')) ∧ chklen (con s') ≤ 1024.
Proof.
  intros s.
  destruct (input_ends [] 0 40 None None s [cp_cmd.QUERYVERSION; cp_cmd.CLOSEHANDLE; 0])
    as (s' & more & _ & H1 & H2 & H3); [vm_compute; congruence|done|].
  exists s', more. by split_and!.
Defined.

(** ** Output *)

(** C15: What is queued on a connection is sent completely and in order, however the writes
    are cut into pieces: until an operation reports an error, the bytes that were written
    and the bytes that are pending are the packets in the order in which they were queued;
    and if every write takes something, as many writes as there are bytes pending send
    everything. *)
Theorem output_in_order ops results c :
  Forall op_sendable ops → out_run ops (conn_new results) = Some c →
  let packets := concat (out_data <$> ops) in
  sent c ++ pending c = packets
  ∧ (bad_conn_close c = false → Forall flowing (writes c) →
     (length (pending c) ≤ length (writes c))%nat →
     ∃ c', out_run (replicate (length (pending c)) Out_ready) c = Some c' ∧ sent c' = packets).
Proof.
  intros Hops Hr. cbv zeta.
  destruct (out_run_queues ops _ c Hops (queue_ok_new results) Hr) as [Hq Hs].
  rewrite (Hs : sent c ++ pending c = concat (out_data <$> ops)). split; [done|]. intros Hbad Hf Hl.
  destruct (out_run_drains (length (pending c)) c Hq Hbad Hf) as (c' & Hd & Hp); [done|done|].
  exists c'. split; [done|].
  assert (Forall op_sendable (replicate (length (pending c)) Out_ready)) as Hready
    by (apply Forall_replicate; done).
  destruct (out_run_queues _ _ _ Hready Hq Hd) as [_ Hs'].
  rewrite Hp, (right_id_L [] (++)) in Hs'. rewrite Hs', fmap_replicate, (assoc_L (++)).
  rewrite (Hs : sent c ++ pending c = concat (out_data <$> ops)).
  cbn. assert (∀ k, concat (replicate k ([] : list Z)) = []) as -> by (induction k; done).
  by rewrite (right_id_L [] (++)).
Qed.
Definition demo_ops : list out_op :=
  [Out_bytes [cp_rply.ACK; 7]; Out_ready; Out_packet [cp_rply.SERVICENAME; 8; 9]].
Definition demo_writes : list write_result :=
  [Write_again; Wrote 1; Wrote 2; Wrote 2; Wrote 1; Wrote 1].
Lemma output_in_order_witness :
  ∃ c c',
    out_run demo_ops (conn_new demo_writes) = Some c
    ∧ pending c = [7; cp_rply.SERVICENAME; 8; 9]
    ∧ out_run (replicate 4 Out_ready) c = Some c'
    ∧ sent c' = [cp_rply.ACK; 7; cp_rply.SERVICENAME; 8; 9].
Proof.
  destruct (out_run demo_ops (conn_new demo_writes)) as [c|] eqn:E; vm_compute in E; [|discriminate E].
  injection E as Ec. destruct (output_in_order demo_ops demo_writes c) as [_ H].
  - repeat constructor; done.
  - rewrite <- Ec. by vm_compute.
  - destruct H as (c' & H1 & H2); rewrite <- ?Ec; [done|by repeat constructor|vm_compute; lia|].
    exists c, c'. rewrite <- Ec in H1 |- *. by split_and!.
Defined.

(** ** Handles *)

(** C16: If the two maps of the handles of a connection agree before a request (each handle
    names one service and is listed with it, once), they agree after it, and
    find_service_for_key finds exactly the handles that are listed. This holds for every
    request but unload and reload without a condition, and for these two if the handle they
    name is the only one of its service (control.cc:536 erases only that handle); and as
    long as fewer than 2^32 handles are in use, after which the allocation of a handle may
    wrap around. *)
Theorem handles_agree environ me n `{Loading : ServiceLoading} load_dirs cwd (s : server) :
  maps_agree (con s) →
  (rbuf_at 0 (con s) ∈ takes_service → sole_handle s) →
  let c := con (process_packet environ me n load_dirs cwd s).1 in
  (maps_agree c ∧ ∀ k x, find_service_for_key k c = Some x ↔ k ∈ handles_of x c)
  ∨ 2 ^ 32 ≤ Z.of_nat (length (key_service_map c)).
Proof.
  intros H Hsole c. destruct (process_packet_ok environ me n load_dirs cwd s H Hsole) as [Ha|Hf].
  - left. split; [exact Ha|]. intros k x.
    rewrite (find_service_elem c k x Ha), handles_of_elem. apply (ma_same _ Ha).
  - by right.
Qed.

Lemma both_handles_agree results : maps_agree (both_handles results).
Proof.
  assert (maps_agree (conn_new results)) as H0.
  { split; [constructor|constructor| |constructor]. intros k x. by rewrite !elem_of_nil. }
  assert (maps_agree (add_handle 1 0 (conn_new results))) as H1
    by (by apply (agree_add_handle 1 (conn_new results))).
  by apply (agree_add_handle 2 (add_handle 1 0 (conn_new results))).
Qed.
Lemma handles_agree_witness :
  let c := con (process_packet [] 0 40 None None
    (demo_server [] [cp_cmd.FINDSERVICE; 1; 0; 97])).1 in
  key_service_map c = [(0, 1%nat); (1, 2%nat); (2, 1%nat)]
  ∧ ((maps_agree c ∧ ∀ k x, find_service_for_key k c = Some x ↔ k ∈ handles_of x c)
     ∨ 2 ^ 32 ≤ Z.of_nat (length (key_service_map c))).
Proof.
  intros c. split; [by vm_compute|].
  apply (handles_agree [] 0 40 None None (demo_server [] [cp_cmd.FINDSERVICE; 1; 0; 97])).
  - apply (maps_agree_same (both_handles [])); [done|apply both_handles_agree].
  - intros H. exfalso. revert H. apply (bool_decide_eq_true_1 _). by vm_compute.
Defined.

(** ** Dependencies *)

Lemma services_bad_request s : services (bad_request s).1 = services s.
Proof.
  unfold bad_request. pose proof (services_reply_bytes [cp_rply.BADREQ] s) as H.
  by destruct (reply_bytes _ s) as [s' []].
Qed.
Lemma services_reply_finish code len s : services (reply_finish code len s).1 = services s.
Proof.
  unfold reply_finish. pose proof (services_reply_bytes [code] s) as H.
  by destruct (reply_bytes _ s) as [s' []].
Qed.

(** A request for a dependency only changes the services once its fields are checked. *)
Lemma services_with_dependency (Q : psys → Prop) f s :
  Q (services s) →
  (∀ from to ty s', from ≠ to → services s' = services s → Q (services (f from to ty s').1)) →
  Q (services (with_dependency f s).1).
Proof.
  intros HQ Hf. unfold with_dependency, with_packet. destruct (_ <? _); [done|].
  destruct (service_at 2 s) as [from|], (service_at 6 s) as [to|]; try by rewrite services_bad_request.
  destruct (decide (from = to)) as [|Hne]; [by rewrite services_bad_request|]. cbv zeta.
  assert (services (check_dep_type (signed 8 (rbuf_at 1 (con s))) s).1 = services s) as Hs.
  { unfold check_dep_type. destruct (bool_decide _); [done|apply services_bad_request]. }
  destruct (check_dep_type _ s) as [s1 []]; cbn [fst and_then] in *;
    [|by rewrite <- Hs in HQ].
  by apply Hf.
Qed.

(** C17: The search for a chain of dependencies ends, and finds one exactly when there is
    one; so a request for a dependency never closes a cycle of dependencies. *)
Theorem dependency_requests_acyclic me n do_enable (s : server) :
  reachable (services s) → acyclic (services s) →
  (∀ from to, ∃ found, has_chain (services s) from to = Some found
     ∧ (found = true ↔ tc (depends (services s)) to from))
  ∧ acyclic (services (add_service_dep me n do_enable s).1).
Proof.
  intros Hr Ha. split.
  { intros from to. by apply has_chain_spec, reachable_records. }
  apply (services_with_dependency acyclic); [done|]. intros from to ty s' Hne Hs.
  destruct (contradicted _ _ _ _); [by rewrite services_reply_finish, Hs|].
  destruct (has_chain (services s') from to) as [[]|] eqn:Hc;
    [by rewrite services_reply_finish, Hs| |by rewrite <- Hs in Ha].
  unfold seq. rewrite services_reply_finish, services_on_services. rewrite Hs in *.
  by apply make_dep_acyclic.
Qed.

(** "a" is made to depend on "b", and then "b" on "a". *)
Definition depend_request : list Z := [cp_cmd.ADD_DEP; 2; 0; 0; 0; 0; 1; 0; 0; 0].
Definition depend_back : list Z := [cp_cmd.ADD_DEP; 2; 1; 0; 0; 0; 0; 0; 0; 0].
Definition with_input (bytes : list Z) : server → server := on_con (λ c, c <| rbuf := bytes |>).
Definition depending : server :=
  (add_service_dep 0 40 false (demo_server [Wrote 9; Wrote 9] depend_request)).1.
Lemma dependency_requests_acyclic_witness :
  acyclic (services depending)
  ∧ has_chain (services depending) 2 1 = Some true
  ∧ sent (con (add_service_dep 0 40 false (with_input depend_back depending)).1)
    = [cp_rply.ACK; cp_rply.NAK].
Proof.
  split; [|split; by vm_compute]. apply dependency_requests_acyclic.
  - apply two_services_reachable.
  - apply ranked_acyclic. by vm_compute.
Defined.

(** ** What does not hold *)

Definition status_request : list Z := [cp_cmd.SERVICESTATUS; 0; 0; 0; 0].
Definition wait_then_write : list write_result := [Write_again; Wrote 99].

(** The bytes arrive in two parts. *)
Definition read_both (bytes1 bytes2 : list Z) (s : server) : option server :=
  '(s1, _) ← data_ready [] 0 40 None None (Read_bytes bytes1) s;
  '(s2, _) ← data_ready [] 0 40 None None (Read_bytes bytes2) s1;
  Some s2.

(** A service whose name has 256 characters. *)
Definition long_name : string := String.concat "" (replicate 64 "name").
Definition long_named : psys := upd 1 (λ r, r <| service_name := long_name |>) two_services.

(** Where the server does not do what its comments and the protocol say.  A reply that
    was queued whole makes the count of the bytes queued wrap around when it is sent:
    nothing is left to send, and nothing is read from the connection any more.  After a
    request for the environment that came in two parts, the server waits for two bytes where
    the next request has one.  A dependency of a kind that cannot be added is answered as a
    bad request and then as done, and made.  A name of 256 characters is announced as empty.  When a
    service that has two handles is unloaded, the other handle still leads to it.  A reply
    that cannot be written does not close the connection. *)
Theorem control_defects :
  (let c := con (process_service_status (demo_server wait_then_write status_request)).1 in
   let c' := set_watches (send_data c).1 in
   outbuf c' = [] ∧ outbuf_size c' = 2 ^ 32 - 12 ∧ bad_conn_close c' = false
   ∧ in_watch c' = false ∧ out_watch c' = false)
  ∧ (∃ s, read_both [cp_cmd.GETALLENV] [0; cp_cmd.QUERYVERSION] (demo_server [Wrote 99] []) = Some s
       ∧ rbuf (con s) = [cp_cmd.QUERYVERSION] ∧ chklen (con s) = 2 ∧ request_size (rbuf (con s)) = 1)
  ∧ (let s := demo_server [Wrote 1; Wrote 1] [cp_cmd.ADD_DEP; 4; 0; 0; 0; 0; 1; 0; 0; 0] in
     let s' := (add_service_dep 0 40 false s).1 in
     sent (con s') = [cp_rply.BADREQ; cp_rply.ACK]
     ∧ targets (services s) 1 = [] ∧ targets (services s') 1 = [2%nat])
  ∧ (let info := service_info fill_status_buffer 1 ((demo_server [] []) <| services := long_named |>) in
     length info = (2 + 10 + 256)%nat ∧ info !! 1%nat = Some 0)
  ∧ (let s := demo_server [Wrote 1] [cp_cmd.UNLOADSERVICE; 2; 0; 0; 0] in
     let s1 := on_con (add_handle 2 2) s in
     let s' := (process_unload_service 0 (on_services 0 (add_listener 0 2) s1)).1 in
     sent (con s') = [cp_rply.ACK] ∧ svcs (services s') !! 2%nat = None
     ∧ find_service_for_key 1 (con s') = Some 2%nat ∧ handles_of 2 (con s') = [])
  ∧ (let s := demo_server [Write_epipe] [] in
     (process_packet [] 0 40 None None (with_input [cp_cmd.QUERYVERSION] s)).2 = false
     ∧ ∃ s', data_ready [] 0 40 None None (Read_bytes [cp_cmd.QUERYVERSION]) s = Some (s', false)
         ∧ bad_conn_close (con s') = false).
Proof.
  split; [by vm_compute|].
  split; [eexists; split; [by vm_compute|by vm_compute]|].
  split; [by vm_compute|].
  split; [by vm_compute|].
  split; [by vm_compute|].
  split; [by vm_compute|]. eexists. split; by vm_compute.
Qed.
