(* ===== verification/LoadService.v ===== *)
(** * Loading service descriptions

    [load_reload_service] of [load-service.cc] and the functions that only it uses: the
    service is looked for in the set, its description in the service directories; the
    settings are read, which loads the dependencies; the environment of the service is
    built; and a record with the settings is entered in the set, or the record that is
    there is changed.  What the operating system does is a parameter: the files, the
    directories, the user database.  Errors while a stream is read are not modelled, nor
    failing allocations. *)

From S2P Require Import Prelude Text ServiceData Service TimeVal SettingValue VarSubst ServiceFile Settings Loader Process ProcessRun ProcessEvents ProcessMemory Env.

Implicit Types (st : psys) (x y : sid) (name : text).

(** What the loader asks of the system. *)
Variant passwd_result :=
  | Passwd (pw_name pw_dir pw_shell : text) (pw_uid pw_gid : Z)
  | No_passwd (errno : Z).
Record host := Host {
  open_description : text → text → opened;          (* open_with_dir(dir, name) *)
  stdin_lines : list text;                          (* what descriptor 0 gives *)
  open_include : text → text → Z → opened;          (* open_with_dir(dir, name, fd) *)
  open_env_file : text → Z → option (list text);
  read_directory : text → option (list text * bool); (* and whether it ends with an error *)
  users : text → option (Z * Z);
  groups : text → option Z;
  getpwuid : Z → passwd_result;
  dup : Z → option Z;
  strerror : Z → text;
  geteuid : Z;
  getuid : Z;
  getgid : Z;
  environ : list text
}.

(** The configuration of the service set. *)
Record config := Config {
  service_dirs : list text;
  default_auto_restart : auto_restart_mode;
  default_stop_timeout : Z;
  default_start_timeout : Z;
  main_env : environment;
  file_fuel : nat                                   (* bound for the lines of a description *)
}.

(** ** Paths *)

(** [combine_paths] *)
Definition combine_paths (p1 p2 : text) : text :=
  if bool_decide (p2 = []) then p1
  else if bool_decide (p1 = []) then p2
  else if deref p2 =? SLASH then p2
  else if deref (rev p1) =? SLASH then p1 ++ p2
  else p1 ++ [SLASH] ++ p2.

(** The part up to the last slash, reversed; [None]: there is none. *)
Fixpoint drop_base (rp : text) : option text :=
  match rp with
  | c :: rp => if c =? SLASH then Some rp else drop_base rp
  | [] => None
  end.
Fixpoint drop_slashes (rp : text) : text :=
  match rp with
  | c :: rp' => if c =? SLASH then drop_slashes rp' else rp
  | [] => []
  end.
(** [parent_path] *)
Definition parent_path (p : text) : text :=
  match drop_base (rev p) with
  | None => []
  | Some rp =>
      let rp := drop_slashes rp in
      if bool_decide (rp = []) then [SLASH] else rev rp
  end.

(** ** Commands *)

(** [separate_args]: the command with a nul behind each part, and the C strings at the
    beginnings of the parts. *)
Definition store_nul (s : text) (o : Z * Z) : text :=
  if o.2 <? Z.of_nat (length s) then <[Z.to_nat o.2 := 0]> s else s.
Definition store_nuls (s : text) (os : offsets) : text := foldl store_nul s os.
Definition separate_args (s : text) (os : offsets) : text * list text :=
  let s := store_nuls s os in
  (s, (λ o, c_string (drop (Z.to_nat o.1) s)) <$> os).

(** [do_env_subst] *)
Definition do_env_subst (setting_name : text) (line : text) (os : offsets) (envmap : env_map)
    (arg : option text) : result (text * offsets) :=
  value_var_subst setting_name (λ n, lookup n envmap) arg line os.

(** ** Setters of the process classes *)

Definition upd_child x (f : child_settings → child_settings) st : psys :=
  upd_proc x (λ p, p <| child ::= f |>) st.
Definition set_command x (parts : list string) (valid : bool) st : psys :=
  upd_child x (λ c, c <| program_parts_valid := valid |>)
    (upd_proc x (λ p, p <| exec_arg_parts := parts |>) st).
Definition get_command st x : list string := exec_arg_parts (proc_of st x).
Definition set_working_dir x (dir : string) st : psys :=
  upd_child x (λ c, c <| working_dir := dir |>) st.
Definition set_env_file x (file : string) st : psys :=
  upd_child x (λ c, c <| env_file := file |>) st.
Definition set_nice x (n : option Z) st : psys := upd_child x (λ c, c <| nice := n |>) st.
Definition set_rlimits x (l : list service_rlimits) st : psys :=
  upd_child x (λ c, c <| rlimits := l |>) st.
Definition set_run_as_uid_gid x (uid gid : Z) st : psys :=
  upd_child x (λ c, c <| run_as_uid := uid |> <| run_as_gid := gid |>) st.
Definition set_logfile_owner x (perms uid gid : Z) st : psys :=
  upd_child x (λ c, c <| logfile_perms := perms |> <| logfile_uid := uid |>
                      <| logfile_gid := gid |>) st.
Definition set_utmp_id x (id : text) st : psys := upd_child x (λ c, c <| inittab_id := id |>) st.
Definition set_utmp_line x (line : text) st : psys :=
  upd_child x (λ c, c <| inittab_line := line |>) st.
Definition set_socket_details x (path : string) (perms uid gid : Z) st : psys :=
  upd_child x (λ c, c <| socket_perms := perms |> <| socket_uid := uid |> <| socket_gid := gid |>)
    (upd_proc x (λ p, p <| socket_path := path |>) st).
Definition set_environment x (e : environment) st : psys :=
  upd_child x (λ c, c <| service_env := e |>) st.

(** ** Changing the record of a loaded service *)

(** [update_command_and_dependencies]: the parts that are restored when it fails still
    point into the storage of the old command, which the first [set_command] frees. *)
Definition update_command_and_dependencies x (parts : list string) (depends : list prelim_dep)
    (before_deps : list did) st : psys * result unit :=
  let orig_arg_parts := get_command st x in
  let! st := set_command x parts true st in
  match update_depenencies x depends before_deps st with
  | (st, Throw e) => (set_command x orig_arg_parts false st, Throw e)
  | r => r
  end.

(** [strncmp(a, b, n) == 0] for strings without nul characters. *)
Definition same_prefix (n : Z) (a b : text) : bool :=
  bool_decide (take (Z.to_nat n) a = take (Z.to_nat n) b).

(** The first new regular dependency that is not started. *)
Definition not_started_dep (depends : list prelim_dep) st : option prelim_dep :=
  List.find (λ p, bool_decide (p.2 = dependency_type.REGULAR)
                  && negb (bool_decide (get_state st p.1 = service_state_t.STARTED))) depends.

Definition service_name_of st x : text := chars (service_name (svc st x)).

(** [check_settings_for_reload]: whether a new record must be created. *)
Definition check_settings_for_reload x (s : settings.t) st : result bool :=
  let ty := record_type (svc st x) in
  if negb (bool_decide (get_state st x = service_state_t.STOPPED)) then
    try! _ := report_error_if (negb (bool_decide (settings.service_type s = ty)))
      "cannot change type of non-stopped service." in
    try! _ := report_error_if (negb (bool_decide (get_state st x = service_state_t.STARTED)))
      "cannot alter settings for service which is currently starting/stopping." in
    try! _ :=
      match not_started_dep (settings.depends s) st with
      | Some p => Throw (Service_load_exc (chars "cannot add non-started dependency '"
                           ++ service_name_of st p.1 ++ chars "'."))
      | None => Ok tt
      end in
    let current_flags := onstart_flags (svc st x) in
    let flags := settings.onstart_flags s in
    try! _ := report_error_if
      (negb (Bool.eqb (starts_on_console current_flags) (starts_on_console flags))
       || negb (Bool.eqb (shares_console current_flags) (shares_console flags)))
      "cannot change starts_on_console/shares_console flags for a running service." in
    try! _ := report_error_if
      (bool_decide (ty = service_type_t.BGPROCESS)
       && negb (bool_decide (pid_file (proc_of st x) = to_string (settings.pid_file s))))
      "cannot change pid_file for running service." in
    let c := child (proc_of st x) in
    try! _ := report_error_if
      (bool_decide (ty = service_type_t.PROCESS)
       && (negb (same_prefix UT_ID_SIZE (inittab_id c) (settings.inittab_id s))
           || negb (same_prefix UT_LINE_SIZE (inittab_line c) (settings.inittab_line s))))
      "cannot change inittab-id or inittab-line settings for running service." in
    try! _ := report_error_if
      (is_base_process st x && negb (bool_decide (log_type (proc_of st x) = settings.log_type s)))
      "cannot change log-type for running service." in
    Ok false
  else Ok (negb (bool_decide (settings.service_type s = ty))).

(** ** The state that the handlers see

    A step is run with the dependencies that are not yet in the graph, the "before"
    dependencies and the consumed service, which the handlers clean up. *)
Record loading := Loading {
  ld_set : psys;
  ld_depends : list prelim_dep;
  ld_before_deps : list did;
  ld_consumer_of : option sid
}.
#[export] Instance eta_loading : Eta loading := λ l,
  Loading (ld_set l) (ld_depends l) (ld_before_deps l) (ld_consumer_of l).
Definition step (A : Type) : Type := loading → loading * result A.
Definition lret {A} (a : A) : step A := λ l, (l, Ok a).
Definition lbind {A B} (m : step A) (f : A → step B) : step B := λ l,
  match m l with
  | (l, Ok a) => f a l
  | (l, Throw e) => (l, Throw e)
  end.
Definition pure_step {A} (f : loading → result A) : step A := λ l, (l, f l).

Notation "'load!' a := m 'in' b" := (lbind m (λ a, b))
  (at level 10, a name, m at level 200, b at level 200) : dinit_scope.
Notation "'load!' ' a := m 'in' b" := (lbind m (λ a, b))
  (at level 10, a pattern, m at level 200, b at level 200) : dinit_scope.

(** ** The environment of a service *)

Section host.
Context (H : host) (C : config).

Definition put_var (var value : text) (e : environment) : environment :=
  (set_var (environ H) (var ++ [EQUALS] ++ value) false e).1.

(** [fill_environment_userinfo] *)
Definition fill_environment_userinfo (uid : Z) (e : environment) : result environment :=
  let uid := if uid =? NO_ID then geteuid H else uid in
  match getpwuid H uid with
  | No_passwd errno =>
      if errno =? 0 then
        Throw (Service_load_exc (chars "user id '" ++ to_dec_digits uid
                 ++ chars "' does not exist in system database"))
      else Throw (Service_load_exc (chars "error accessing user database: " ++ strerror H errno))
  | Passwd pw_name pw_dir pw_shell pw_uid pw_gid =>
      let! e := put_var (chars "USER") pw_name e in
      let! e := put_var (chars "LOGNAME") pw_name e in
      let! e := put_var (chars "HOME") pw_dir e in
      let! e := put_var (chars "SHELL") pw_shell e in
      let! e := put_var (chars "UID") (to_dec_digits pw_uid) e in
      let! e := put_var (chars "GID") (to_dec_digits pw_gid) e in
      Ok e
  end.

(** The environment that the settings ask for. *)
Definition load_env_file (s : settings.t) (e : environment) : result environment :=
  if bool_decide (settings.env_file s = []) then Ok e
  else
    match read_env_file (environ H) (open_env_file H (settings.env_file s) (settings.env_file_dir_fd s))
            false true e with
    | None => Throw Overrun
    | Some (Throw (System_error what)) =>
        Throw (Service_load_exc (chars "could not load environment file: " ++ what))
    | Some (Throw e) => Throw e
    | Some (Ok (e, _)) => Ok e
    end.
Definition service_environment name (s : settings.t) : result environment :=
  let e := environment_new in
  try! e := if settings.export_passwd_vars s
            then fill_environment_userinfo (settings.run_as_uid s) e else Ok e in
  let e := if settings.export_service_name s then put_var (chars "DINIT_SERVICE") name e else e in
  load_env_file s e.

(** ** Finding the description *)

Variant search :=
  | Found (dir : option text) (filename : text) (dir_fd : Z) (lines : list text)
  | Not_there
  | Unreadable (path : text) (errno : Z).

Definition description_path (dir name : text) : text :=
  dir ++ (if deref (rev dir) =? SLASH then [] else [SLASH]) ++ name.

(** The first directory that has the description; the first error other than ENOENT is
    reported if there is none. *)
Fixpoint search_dirs name (dirs : list text) (failed : option (text * Z)) : search :=
  match dirs with
  | [] =>
      match failed with
      | None => Not_there
      | Some (path, errno) => Unreadable path errno
      end
  | dir :: dirs =>
      match open_description H dir name with
      | Opened dir_fd lines => Found (Some dir) (description_path dir name) dir_fd lines
      | Open_failed errno =>
          search_dirs name dirs
            (match failed with
             | None => if errno =? ENOENT then None else Some (description_path dir name, errno)
             | Some _ => failed
             end)
      end
  end.

(** Without any directory the pair of descriptors keeps its initial value, two zeros, and
    counts as found. *)
Definition find_description name : search :=
  match service_dirs C with
  | [] => Found None [] 0 (stdin_lines H)
  | dirs => search_dirs name dirs None
  end.

(** ** The settings of a process *)

Definition to_strings (l : list text) : list string := to_string <$> l.

(** The setters for all services with a process; those that depend on the type are
    below, as they set different fields. *)
Definition set_process_settings x (s : settings.t) (stop_command : text) (stop_parts : list text) st
    : psys :=
  let! st := set_stop_command x (to_string stop_command) (to_strings stop_parts) st in
  let! st := set_working_dir x (to_string (settings.working_dir s)) st in
  let! st := set_env_file x (to_string (settings.env_file s)) st in
  let! st := set_nice x (settings.nice s) st in
  let! st := set_rlimits x (settings.rlimits s) st in
  let! st := set_stop_timeout x (settings.stop_timeout s) st in
  let! st := set_start_timeout x (settings.start_timeout s) st in
  let! st := set_extra_termination_signal x (settings.term_signal s) st in
  let! st := set_run_as_uid_gid x (settings.run_as_uid s) (settings.run_as_gid s) st in
  let! st := set_logfile_details x (to_string (settings.logfile s)) st in
  let! st := set_logfile_owner x (settings.logfile_perms s) (settings.logfile_uid s)
               (settings.logfile_gid s) st in
  let! st := set_log_buf_max x (settings.max_log_buffer_sz s) st in
  set_log_mode x (settings.log_type s) st.
(** Those that restart. *)
Definition set_restart_settings x (s : settings.t) st : psys :=
  let! st := set_restart_interval x (settings.restart_interval s) (settings.max_restarts s) st in
  set_restart_delay x (settings.restart_delay s) st.
(** The setters that depend on the type. *)
Definition set_type_settings x (s : settings.t) st : psys :=
  match settings.service_type s with
  | service_type_t.PROCESS =>
      let! st := set_restart_settings x s st in
      let! st := set_notification_fd x (settings.readiness_fd s) st in
      let! st := set_notification_var x (to_string (settings.readiness_var s)) st in
      let! st := set_utmp_id x (settings.inittab_id s) st in
      set_utmp_line x (settings.inittab_line s) st
  | service_type_t.BGPROCESS =>
      let! st := set_restart_settings x s st in
      set_pid_file x (to_string (settings.pid_file s)) st
  | _ => st
  end.
(** The setters for all services; a [bgprocess] never runs on the console. *)
Definition final_flags (s : settings.t) : service_flags_t :=
  if bool_decide (settings.service_type s = service_type_t.BGPROCESS)
  then (settings.onstart_flags s) <| runs_on_console := false |>
  else settings.onstart_flags s.
Definition set_common_settings x (dir : option text) (s : settings.t) (e : environment) st : psys :=
  let! st := set_service_dsc_dir x (to_string (default [] dir)) st in
  let! st := set_auto_restart x (settings.auto_restart s) st in
  let! st := set_smooth_recovery x (settings.smooth_recovery s) st in
  let! st := set_flags x (final_flags s) st in
  let! st := set_socket_details x (to_string (settings.socket_path s)) (settings.socket_perms s)
               (settings.socket_uid s) (settings.socket_gid s) st in
  let! st := set_chain_to x (to_string (settings.chain_to_name s)) st in
  set_environment x e st.

(** ** The parts of [load_reload_service] *)

(** The name in front of the first '@', and the argument behind it. *)
Fixpoint base_service_name (fullname : text) : text :=
  match fullname with
  | c :: s => if c =? AT then [] else c :: base_service_name s
  | [] => []
  end.
Fixpoint service_argument (fullname : text) : option text :=
  match fullname with
  | c :: s => if c =? AT then Some s else service_argument s
  | [] => None
  end.

(** The existing record, for a new service: what is returned at once, or the record that
    is reloaded, if any. *)
Definition find_existing (fullname : text) (avoid_circular : option sid) st
    : result (sid + option sid) :=
  match find_named fullname st with
  | None => Ok (inr None)
  | Some x =>
      if bool_decide (Some x = avoid_circular) || is_loading (svc st x)
      then Throw (Cyclic_dependency (base_service_name fullname))
      else if negb (is_placeholder st x) then Ok (inl x)
      else Ok (inr (Some x))
  end.

(** The record that marks the service as loading. *)
Definition new_dummy (fullname : text) st : psys * sid :=
  let x := fresh (dom (svcs st)) in
  let! st := construct x (to_string fullname) service_type_t.PLACEHOLDER [] st in
  let! st := upd x (λ r, r <| is_loading := true |>) st in
  (add_service x st, x).

(** The message of an error, as [log_service_load_failure] and the other handler of
    [load_service_n] write it. *)
Fixpoint exc_description (e : load_exc) : text :=
  match e with
  | Description_exc _ _ msg | Setting_exc _ msg | Service_load_exc msg => msg
  | Cyclic_dependency _ => chars "has cyclic dependency."
  | Not_found _ => chars "service description not found."
  | Load_error _ path errno => path ++ chars ": " ++ strerror H errno
  | Named _ e => exc_description e
  | Length_error => chars "supported length for string/container exceeded"
  | System_error what => what
  | Overrun => []
  end.
Definition exc_service (e : load_exc) : text :=
  match e with
  | Cyclic_dependency service | Not_found service | Load_error service _ _ | Named service _ =>
      service
  | _ => []
  end.
Definition at_file (pos : file_pos) : text :=
  chars "file " ++ file_name pos ++ chars ", line " ++ to_dec_digits (line_num pos).
Definition load_failure_message (e : load_exc) : text :=
  let in_setting setting := chars "setting '" ++ setting ++ chars "' " in
  match e with
  | Named service (Description_exc pos None msg) =>
      chars "Error in service description for '" ++ service ++ chars "' (" ++ at_file pos
      ++ chars "): " ++ msg
  | Named service (Description_exc pos (Some setting) msg) =>
      chars "Error in service description for '" ++ service ++ chars "': " ++ in_setting setting
      ++ chars "(" ++ at_file pos ++ chars "): " ++ msg
  | Named service (Setting_exc setting msg) =>
      chars "Error in service description for '" ++ service ++ chars "' setting '" ++ setting
      ++ chars "': " ++ msg
  | e => chars "Could not load service " ++ exc_service e ++ chars ": " ++ exc_description e
  end.

(** What the handlers at the end make of an error in a service. *)
Definition name_exc name (e : load_exc) : load_exc :=
  match e with
  | Description_exc _ _ _ | Setting_exc _ _ | Service_load_exc _ => Named name e
  | Length_error | System_error _ => Named name (Service_load_exc (exc_description e))
  | e => e
  end.

Definition is_overrun (e : load_exc) : bool :=
  match e with Overrun => true | _ => false end.

Section with_load.
(** [load_service], for a name and the service to avoid. *)
Context (load : text → option sid → psys → psys * result sid).

(** The function [load_service_n] *)
Definition load_service_n (reload_svc : option sid) (dep_name : text) st : psys * result sid :=
  match load dep_name reload_svc st with
  | (st, Ok x) => (st, Ok x)
  | (st, Throw e) =>
      if is_overrun e then (st, Throw e)
      else (emit (Log_load (load_failure_message e)) st,
            Throw (Service_load_exc (chars "could not load dependency.")))
  end.

(** The loop of [process_dep_dir]: services that are not found are left out, any other
    error ends the loop. *)
Fixpoint load_entries (servicename depdirpath : text) (dep_type : dependency_type)
    (names : list text) (deplist : list prelim_dep) st : psys * result (list prelim_dep) :=
  match names with
  | [] => (st, Ok deplist)
  | n :: names =>
      if deref n =? DOT then load_entries servicename depdirpath dep_type names deplist st
      else
        match load n None st with
        | (st, Ok x) =>
            load_entries servicename depdirpath dep_type names (deplist ++ [(x, dep_type)]) st
        | (st, Throw (Not_found _)) =>
            load_entries servicename depdirpath dep_type names deplist
              (emit (Log_load (chars "Ignoring unresolved dependency '" ++ n
                 ++ chars "' in dependency directory '" ++ depdirpath ++ chars "' for "
                 ++ servicename ++ chars " service.")) st)
        | (st, Throw e) => (st, Throw e)
        end
  end.
Definition process_dep_dir (servicename service_filename : text) (deplist : list prelim_dep)
    (depdirpath : text) (dep_type : dependency_type) st : psys * result (list prelim_dep) :=
  let depdir_fname := combine_paths (parent_path service_filename) depdirpath in
  match read_directory H depdir_fname with
  | None =>
      (emit (Log_load (chars "Could not open dependency directory '" ++ depdir_fname
         ++ chars "' for " ++ servicename ++ chars " service.")) st, Ok deplist)
  | Some (names, failed) =>
      let '(st, r) := load_entries servicename depdirpath dep_type names deplist st in
      match r with
      | Ok deplist =>
          (when failed (emit (Log_load (chars "Error reading dependency directory '" ++ depdirpath
             ++ chars "' for " ++ servicename ++ chars " service."))) st, Ok deplist)
      | Throw e => (st, Throw e)
      end
  end.

(** The callback for the lines; a [std::system_error] is reported with the name of the
    file that is being read. *)
Definition service_line name (argval : option text) (reload_svc : option sid)
    (lookup_var : text → option text) (l : setting_line) (s : settings.t) st
    : psys * result settings.t :=
  let '(st, r) :=
    process_service_line (users H) (groups H) (dup H) name argval lookup_var
      (load_service_n reload_svc) (process_dep_dir name (file_name (sl_pos l))) l s st in
  (st, match r with
       | Throw (System_error what) =>
           Throw (System_error (file_name (sl_pos l) ++ chars ": " ++ what))
       | r => r
       end).

Definition initial_settings : settings.t :=
  settings.initial (default_auto_restart C) (default_stop_timeout C) (default_start_timeout C).

(** The settings of the description; when it fails, also those up to there, for the
    handlers. *)
Definition read_settings name (argval : option text) (reload_svc : option sid)
    (filename : text) (dir_fd : Z) (lines : list text) st
    : (settings.t * psys) * result unit :=
  let envmap := build (environ H) (main_env C) in
  let resolve_var n := lookup n envmap in
  match process_service_file (open_include H) (strerror H) argval resolve_var
          (line_callback (service_line name argval reload_svc resolve_var))
          (file_fuel C) (push filename lines dir_fd []) (initial_settings, st) with
  | None => ((initial_settings, st), Throw Overrun)
  | Some r => r
  end.
End with_load.

(** The environment and the mapping for substitutions, and the final settings. *)
Definition finish_settings name (argval : option text) (s : settings.t)
    : result (settings.t * environment * env_map) :=
  try! srv_env := service_environment name s in
  let srv_envmap := build_from (environ H) (main_env C) srv_env in
  try! s := finalise argval (λ n, lookup n srv_envmap) (getuid H) (getgid H) s in
  Ok (s, srv_env, srv_envmap).

(** The check of the output consumer of a service that is reloaded. *)
Definition check_consumer_kept x (s : settings.t) st : result unit :=
  match log_consumer (svc st x) with
  | None => Ok tt
  | Some _ =>
      try! _ := report_error_if
        (negb (is_type s [service_type_t.PROCESS; service_type_t.BGPROCESS;
                          service_type_t.SCRIPTED]))
        "service has output consumer; service type must correspond to output-producing service (process, bgprocess, or scripted)" in
      report_error_if (negb (bool_decide (settings.log_type s = log_type_id.PIPE)))
        "service has output consumer; log type must be set to 'pipe'"
  end.
(** Whether a new record must be created. *)
Definition check_reload (reload_svc : option sid) (s : settings.t) st : result bool :=
  match reload_svc with
  | None => Ok true
  | Some x =>
      try! create_new_record := check_settings_for_reload x s st in
      try! _ := check_consumer_kept x s st in
      Ok create_new_record
  end.

(** The service whose output is consumed, if it is there. *)
Definition find_consumed (s : settings.t) st : option sid :=
  if bool_decide (settings.consumer_of_name s = []) then None
  else find_named (settings.consumer_of_name s) st.
Definition check_consumed_kept (reload_svc consumer_of_svc : option sid) (s : settings.t) st
    : result unit :=
  match reload_svc with
  | Some x =>
      report_error_if
        (negb (bool_decide (get_state st x = service_state_t.STOPPED))
         && is_type s [service_type_t.PROCESS; service_type_t.BGPROCESS]
         && negb (bool_decide (consumer_for (proc_of st x) = consumer_of_svc)))
        "cannot change consumed service ('consumer-of') when not stopped"
  | None => Ok tt
  end.
(** Whether the service can be consumed. *)
Definition check_consumed (reload_svc : option sid) y st : result unit :=
  try! _ := report_error_if (negb (is_base_process st y || is_placeholder st y))
    "the 'consumer-of' setting specifies a service of a type that does not produce output" in
  try! _ := report_error_if
    (negb (is_placeholder st y)
     && negb (bool_decide (log_type (proc_of st y) = log_type_id.PIPE)))
    "the 'consumer-of' setting specifies a service that does not log via a pipe ('log-type = pipe')" in
  match log_consumer (svc st y) with
  | None => Ok tt
  | Some z => report_error_if (negb (bool_decide (Some z = reload_svc)))
      "the 'consumer-of' setting specifies a service that already has a consumer"
  end.

Section body.
Context (load : text → option sid → psys → psys * result sid).
Context (fullname : text) (reload_svc : option sid) (dir : option text).

Definition read_step (filename : text) (dir_fd : Z) (lines : list text) : step settings.t := λ l,
  let '((s, st), r) :=
    read_settings load (base_service_name fullname) (service_argument fullname) reload_svc
      filename dir_fd lines (ld_set l) in
  (l <| ld_set := st |> <| ld_depends := settings.depends s |>, try! _ := r in Ok s).

Definition consumed_step (s : settings.t) : step unit := λ l,
  let consumed := find_consumed s (ld_set l) in
  let l := l <| ld_consumer_of := consumed |> in
  match check_consumed_kept reload_svc consumed s (ld_set l) with
  | Throw e => (l, Throw e)
  | Ok _ =>
      if bool_decide (settings.consumer_of_name s = []) then (l, Ok tt)
      else
        match consumed with
        | Some y => (l, check_consumed reload_svc y (ld_set l))
        | None =>
            let '(st, y) := new_placeholder (to_string (settings.consumer_of_name s)) (ld_set l) in
            (l <| ld_set := st |> <| ld_consumer_of := Some y |>, Ok tt)
        end
  end.

Definition after_step (s : settings.t) : step unit := λ l,
  let '((st, depends), r) :=
    load_after (base_service_name fullname) (settings.after_svcs s) (ld_depends l) (ld_set l) in
  (l <| ld_set := st |> <| ld_depends := depends |>, r).
Definition before_step (s : settings.t) : step unit := λ l,
  let '((st, before_deps), r) :=
    load_before (base_service_name fullname) reload_svc (ld_depends l) (settings.before_svcs s)
      [] (ld_set l) in
  (l <| ld_set := st |> <| ld_before_deps := before_deps |>, r).

Definition runs_process (ty : service_type_t) : bool :=
  bool_decide (ty = service_type_t.PROCESS) || bool_decide (ty = service_type_t.BGPROCESS)
  || bool_decide (ty = service_type_t.SCRIPTED).

(** The texts and parts of the command and the stop command. *)
Definition commands (s : settings.t) (envmap : env_map)
    : result (list text * (text * list text)) :=
  if runs_process (settings.service_type s) then
    let argval := service_argument fullname in
    try! '(cmd, os) := do_env_subst (chars "command") (settings.command s)
                         (settings.command_offsets s) envmap argval in
    try! '(stop_cmd, stop_os) := do_env_subst (chars "stop-command") (settings.stop_command s)
                                   (settings.stop_command_offsets s) envmap argval in
    Ok ((separate_args cmd os).2, separate_args stop_cmd stop_os)
  else Ok ([], ([], [])).

(** The constructor of the class for the type. *)
Definition construct_record x (ty : service_type_t) (parts : list text) (depends : list prelim_dep) st
    : psys :=
  let! st := construct x (to_string fullname) ty depends st in
  let! st := upd_ext (λ e, e <| is_triggered ::= λ t, t ∖ {[x]} |>) st in
  upd_proc x (λ _, proc_new (to_strings parts)) st.

(** The new record, or the existing one with its new dependencies and command. *)
Definition record_step (create_new_record : bool) (ty : service_type_t) (parts : list text)
    : step sid := λ l,
  let st := ld_set l in
  match reload_svc with
  | Some x =>
      if create_new_record then
        match check_cycle (ld_depends l) x (service_name_of st x) st with
        | Throw e => (l, Throw e)
        | Ok _ =>
            let rval := fresh (dom (svcs st)) in
            (l <| ld_set := construct_record rval ty parts (ld_depends l) st |>
               <| ld_depends := [] |>, Ok rval)
        end
      else
        let '(st, r) :=
          if runs_process ty
          then update_command_and_dependencies x (to_strings parts) (ld_depends l)
                 (ld_before_deps l) st
          else update_depenencies x (ld_depends l) (ld_before_deps l) st in
        (l <| ld_set := st |>, try! _ := r in Ok x)
  | None =>
      let rval := fresh (dom (svcs st)) in
      (l <| ld_set := construct_record rval ty parts (ld_depends l) st |>
         <| ld_depends := [] |>, Ok rval)
  end.

(** What cannot fail any more: the settings of the record, and its place in the set. *)
Definition finish_record (orig rval : sid) (create_new_record : bool) (s : settings.t)
    (e : environment) (stop_command : text * list text) (before_deps : list did)
    (consumer_of_svc : option sid) st : psys :=
  let! st := when (runs_process (settings.service_type s))
               (set_process_settings rval s stop_command.1 stop_command.2) st in
  let! st := set_type_settings rval s st in
  let! st := set_common_settings rval dir s e st in
  let! st := when create_new_record (replace_record rval orig before_deps consumer_of_svc) st in
  mark_consumer rval consumer_of_svc st.

(** The try block; [orig] is the dummy or the record that is reloaded. *)
Definition load_steps (filename : text) (dir_fd : Z) (lines : list text) (orig : sid) : step sid :=
  load! s := read_step filename dir_fd lines in
  load! '(s, e, envmap) :=
    pure_step (λ _, finish_settings (base_service_name fullname) (service_argument fullname) s) in
  load! create_new_record := pure_step (λ l, check_reload reload_svc s (ld_set l)) in
  load! _ := consumed_step s in
  load! _ := after_step s in
  load! _ := before_step s in
  load! '(parts, stop_command) := pure_step (λ _, commands s envmap) in
  load! rval := record_step create_new_record (settings.service_type s) parts in
  λ l, (l <| ld_set ::= finish_record orig rval create_new_record s e stop_command
               (ld_before_deps l) (ld_consumer_of l) |>, Ok rval).

(** With the handlers.  No error comes after a new record, so that there is none to
    clean up. *)
Definition load_description_file (filename : text) (dir_fd : Z) (lines : list text) st
    : psys * result sid :=
  let '(st, dummy, orig) :=
    match reload_svc with
    | Some x => (st, None, x)
    | None => let '(st, x) := new_dummy fullname st in (st, Some x, x)
    end in
  match load_steps filename dir_fd lines orig (Loading st [] [] None) with
  | (l, Ok rval) => (ld_set l, Ok rval)
  | (l, Throw e) =>
      (exception_cleanup dummy None (ld_before_deps l) (ld_depends l) (ld_consumer_of l) (ld_set l),
       Throw (name_exc (base_service_name fullname) e))
  end.
End body.

(** ** Loading and reloading

    [fuel] bounds the depth of the recursion. *)
Fixpoint load_reload_service (fuel : nat) (fullname : text) (reload_svc avoid_circular : option sid)
    st : psys * result sid :=
  match fuel with
  | O => (st, Throw Overrun)
  | S fuel =>
      let name := base_service_name fullname in
      match (match reload_svc with
             | None => find_existing fullname avoid_circular st
             | Some x => Ok (inr (Some x))
             end) with
      | Throw e => (st, Throw e)
      | Ok (inl x) => (st, Ok x)
      | Ok (inr reload_svc) =>
          match find_description name with
          | Not_there => (st, Throw (Not_found name))
          | Unreadable path errno => (st, Throw (Load_error name path errno))
          | Found dir filename dir_fd lines =>
              load_description_file
                (λ dep_name avoid st, load_reload_service fuel dep_name None avoid st)
                fullname reload_svc dir filename dir_fd lines st
          end
      end
  end.

Definition load_service (fuel : nat) (fullname : text) (avoid_circular : option sid) st
    : psys * result sid :=
  load_reload_service fuel fullname None avoid_circular st.
Definition reload_service (fuel : nat) x st : psys * result sid :=
  load_reload_service fuel (service_name_of st x) (Some x) (Some x) st.
End host.
