(* ===== verification/LoadFrame.v ===== *)
(** * Loading services leaves other services alone

    Whatever a service description says, loading it does not remove a service that is
    loaded already, and does not change what has been loaded of it.  The lemmas are for one
    such service [x]; [listed] says whether it is also followed in the service set, where a
    new record is not entered at first. *)

From S2P Require Import Prelude Text ServiceData Service ServiceInv ServiceInvOps ServiceFuel TimeVal SettingValue VarSubst ServiceFile ServiceFileProps Settings SettingsLaws Loader Process ProcessRun ProcessEvents ProcessLaws ProcessMemory Env LoadService.

(** What a description determines of a record: the settings of [service_record]. *)
Definition loaded_as (r : service_record)
    : string * service_type_t * service_flags_t * auto_restart_mode * bool * string * string * bool :=
  (service_name r, record_type r, onstart_flags r, auto_restart r, smooth_recovery r,
   start_on_completion r, service_dsc_dir r, is_loading r).

(** Those of the process classes, but for the consumed service; and whether the pointers to
    the arguments are good. *)
Record configured := Configured {
  c_command : list string;
  c_stop : string * list string;
  c_log : log_type_id * string * Z;
  c_restart : time_val * Z * time_val;
  c_timeouts : time_val * time_val;
  c_readiness : Z * string;
  c_files : string * string;
  c_term_signal : Z;
  c_child : child_settings
}.
Definition configured_as (p : proc) : configured := {|
  c_command := exec_arg_parts p;
  c_stop := (stop_command p, stop_arg_parts p);
  c_log := (log_type p, logfile p, LogBuffer.log_buf_max (lbuf p));
  c_restart := (restart_interval p, max_restart_interval_count p, restart_delay p);
  c_timeouts := (start_timeout p, stop_timeout p);
  c_readiness := (force_notification_fd p, notification_var p);
  c_files := (socket_path p, pid_file p);
  c_term_signal := term_signal p;
  c_child := (child p) <| program_parts_valid := true |>
|}.
Definition parts_valid (p : proc) : bool := program_parts_valid (child p).

(** [E] is what is followed of the extension state. *)
Definition fixed {X} (x : sid) k (listed : bool) (E : X → Prop) (st : sys X) : Prop :=
  (listed = true → x ∈ records st) ∧ loaded_as (svc st x) = k ∧ E (ext st).

(** It is not a placeholder (nor the record of a service that is being loaded). *)
Definition settled {X} (st : sys X) (x : sid) : Prop :=
  record_type (svc st x) ≠ service_type_t.PLACEHOLDER.

Lemma elem_of_erase_ne x y (l : list nat) : y ≠ x → x ∈ l → x ∈ erase_first y l.
Proof.
  intros Hy. induction l as [|z l IH]; simpl; [done|]. rewrite elem_of_cons.
  case_decide; subst; [naive_solver|]. rewrite elem_of_cons. naive_solver.
Qed.
Lemma elem_of_replace_ne x y z (l : list nat) : y ≠ x → x ∈ l → x ∈ replace_first y z l.
Proof.
  intros Hy. induction l as [|a l IH]; simpl; [done|]. rewrite elem_of_cons.
  case_decide; subst; rewrite !elem_of_cons; naive_solver.
Qed.

Create HintDb frame.
Ltac frame_solve := repeat first [assumption | solve [eauto 8 with frame nocore] | gstep].
#[export] Hint Extern 1 (keeps _ _) => (intros ?; rsimpl; reflexivity) : frame.
#[export] Hint Extern 1 (ServiceVirtualLaws _) => apply _ : frame.

Section frame.
Context {X : Type} `{!ServiceVirtual X} `{!ServiceVirtualLaws X}.
Context (x : sid) (st0 : sys X) (x_settled : settled st0 x) (listed : bool).
Context (E : X → Prop).
Context (E_interrupt : ∀ y st, E (ext st) → E (ext (interrupt_start y st).1)).
Context (E_restart : ∀ y st, E (ext st) → E (ext (check_restart y st).1)).
Context (E_inactive : ∀ y st, E (ext st) → E (ext (becoming_inactive y st))).
Implicit Types (st : sys X) (y : sid) (d : did).

Abbreviation F := (fixed x (loaded_as (svc st0 x)) listed E).

Lemma fixed_settled st : F st → settled st x.
Proof.
  intros (_ & H & _). unfold settled in *. unfold loaded_as in H. congruence.
Qed.
Lemma fixed_same st st' :
  records st' = records st → svc st' x = svc st x → ext st' = ext st → F st → F st'.
Proof. intros Hr Hs He (H1 & H2 & H3). split; [by rewrite Hr|by rewrite Hs, He]. Qed.
Lemma fixed_upd y f st : keeps f loaded_as → F st → F (upd y f st).
Proof.
  intros Hk (H1 & H2 & H3). split; [done|]. split; [|done].
  rewrite svc_upd. case_decide; [by rewrite Hk|done].
Qed.
Lemma fixed_upd_ne y f st : y ≠ x → F st → F (upd y f st).
Proof. intros Hy. apply fixed_same; [done| |done]. by apply svc_upd_ne. Qed.
Lemma fixed_upd_dep d f st : F st → F (upd_dep d f st).
Proof. by apply fixed_same. Qed.
Lemma fixed_emit a st : F st → F (emit a st).
Proof. by apply fixed_same. Qed.
Lemma fixed_fault st : F st → F (set_fault st).
Proof. by apply fixed_same. Qed.
Lemma fixed_notify y e st : F st → F (notify_listeners y e st).
Proof. by apply fixed_same. Qed.
Lemma fixed_add_prop_queue y st : F st → F (add_prop_queue y st).
Proof. unfold add_prop_queue. destruct (slist_is_queued _ _); by apply fixed_same. Qed.
Lemma fixed_add_transition_queue y st : F st → F (add_transition_queue y st).
Proof. unfold add_transition_queue. destruct (slist_is_queued _ _); by apply fixed_same. Qed.
Lemma fixed_unqueue y st : F st → F (unqueue_console y st).
Proof. unfold unqueue_console. destruct (bool_decide _); by apply fixed_same. Qed.
Lemma fixed_leaf y st st' : leaf_step y st st' → (E (ext st) → E (ext st')) → F st → F st'.
Proof.
  intros [Ho Hs _ _ Hr _ _ _ _ _] He (H1 & H2 & H3). split; [by rewrite Hr|]. split; [|auto].
  destruct (decide (x = y)) as [<-|Hy]; [|by rewrite Ho]. rewrite Hs, <- H2. by rsimpl.
Qed.
Lemma fixed_interrupt_start y st : F st → F (interrupt_start y st).1.
Proof. eapply fixed_leaf; [apply interrupt_start_leaf|apply E_interrupt]. Qed.
Lemma fixed_check_restart y st : F st → F (check_restart y st).1.
Proof. eapply fixed_leaf; [apply check_restart_leaf|apply E_restart]. Qed.
Lemma fixed_becoming y st : F st → F (becoming_inactive y st).
Proof. eapply fixed_leaf; [apply becoming_inactive_leaf|apply E_inactive]. Qed.
#[local] Hint Resolve fixed_upd fixed_upd_ne fixed_upd_dep fixed_emit fixed_fault fixed_notify
  fixed_add_prop_queue fixed_add_transition_queue fixed_unqueue fixed_interrupt_start
  fixed_check_restart fixed_becoming : frame.

(** ** Stopping and releasing *)

Lemma fixed_dependency_started y st : F st → F (dependency_started y st).
Proof. intros H. unfold dependency_started. frame_solve. Qed.
Lemma fixed_forced_stop y st : F st → F (forced_stop y st).
Proof. intros H. unfold forced_stop. frame_solve. Qed.
#[local] Hint Resolve fixed_dependency_started fixed_forced_stop : frame.
Lemma fixed_unrecoverable_stop y st : F st → F (unrecoverable_stop y st).
Proof. intros H. unfold unrecoverable_stop. frame_solve. Qed.
Lemma fixed_require y st : F st → F (require y st).
Proof. intros H. unfold require. frame_solve. Qed.
#[local] Hint Resolve fixed_unrecoverable_stop fixed_require : frame.

Lemma fixed_release_body do_stop y b st :
  (∀ y b st, F st → F (do_stop y b st)) → F st → F (release_body do_stop y b st).
Proof. intros Hs H. unfold release_body. frame_solve. Qed.
#[local] Hint Resolve fixed_release_body : frame.

Lemma fixed_do_stop_fuel n : ∀ y w st, F st → F (do_stop_fuel n y w st).
Proof.
  induction n as [|n IH]; intros y w st H; [by apply fixed_fault|]. cbn [do_stop_fuel].
  unfold do_stop_body. destruct (is_start_pinned _); [done|].
  gstep; [frame_solve|]. gstep; [frame_solve|]. cbv zeta. apply (seq_pair_inv F).
  { gstep; [|done]. unfold seq. pose proof (fixed_check_restart y s0 H1) as Hc.
    destruct (check_restart y s0) as [s2 b2]. simpl in *. frame_solve. }
  intros s2 fr H2. gstep; [frame_solve|].
  apply (seq_pair_inv F).
  { unfold stop_dependents_body. apply (for_each_inv (λ p, F p.1)); [done|].
    intros d [s' b] _ Hs'. cbn [fst] in Hs'. unfold stop_dependents_turn.
    destruct (is_hard _); [|destruct (negb fr); [|done]]; cbv zeta.
    - apply (seq_inv F); [frame_solve|]. intros s4 H4.
      apply (seq_inv F (λ p, F p.1)); [|done]. frame_solve.
    - apply (seq_inv F (λ p, F p.1)); [frame_solve|]. intros s4 H4.
      apply (seq_inv F (λ p, F p.1)); [|done]. frame_solve. }
  intros s4 b4 H4. unfold do_stop_tail, begin_stop. frame_solve.
Qed.
Lemma fixed_release y b st : F st → F (release y b st).
Proof.
  intros H. unfold release. apply fixed_release_body; [|done]. intros z w s.
  apply fixed_do_stop_fuel.
Qed.
#[local] Hint Resolve fixed_release : frame.

(** ** Dependencies *)

Lemma fixed_add_dep y to ty i st : F st → F (add_dep y to ty i st).1.
Proof.
  intros H. unfold add_dep. apply (seq_inv F (λ p, F p.1)); [by apply (fixed_same st)|].
  intros s H1. apply (seq_inv F (λ p, F p.1)); [frame_solve|]. intros s2 H2.
  apply (seq_inv F (λ p, F p.1)); [frame_solve|]. intros s3 H3.
  apply (seq_inv F (λ p, F p.1)); [frame_solve|done].
Qed.
Lemma fixed_rm_dep_it y d st : F st → F (rm_dep_it y d st).
Proof.
  intros H. unfold rm_dep_it. gstep; [frame_solve|]. gstep; [frame_solve|]. gstep; [frame_solve|].
  by apply (fixed_same s1).
Qed.
#[local] Hint Resolve fixed_add_dep fixed_rm_dep_it : frame.
Lemma fixed_rm_dep_ref y d st : F st → F (rm_dep_ref y d st).
Proof. intros H. unfold rm_dep_ref. frame_solve. Qed.
Lemma fixed_link_before y d st : F st → F (link_before y d st).
Proof. intros H. unfold link_before. frame_solve. Qed.
#[local] Hint Resolve fixed_rm_dep_ref fixed_link_before : frame.

Lemma fixed_update y depends before_deps st :
  F st → F (update_depenencies y depends before_deps st).1.
Proof.
  intros H. unfold update_depenencies. destruct (check_cycle _ _ _ _); [|done]. cbv zeta.
  do 4 (apply (seq_inv F (λ p, F p.1)); [frame_solve|]; intros ? ?). done.
Qed.
Lemma fixed_construct y name ty depends st : y ≠ x → F st → F (construct y name ty depends st).
Proof. intros Hy H. unfold construct. frame_solve. Qed.

(** ** The service set *)

Lemma fixed_add_service y st : F st → F (add_service y st).
Proof.
  intros [H1 H2]. split; [|exact H2]. intros Hl. unfold add_service. rsimpl.
  apply elem_of_app. left. by apply H1.
Qed.
Lemma fixed_remove_service y st : y ≠ x → F st → F (remove_service y st).
Proof.
  intros Hy [H1 H2]. split; [|exact H2]. intros Hl. by apply elem_of_erase_ne, H1.
Qed.
Lemma fixed_replace_service y z st : y ≠ x → F st → F (replace_service y z st).
Proof.
  intros Hy [H1 H2]. split; [|exact H2]. intros Hl. by apply elem_of_replace_ne, H1.
Qed.

(** Memory of a new record. *)
Lemma fixed_fresh st : F st → fresh (dom (svcs st)) ≠ x.
Proof.
  intros H%fixed_settled Ex. apply H. unfold svc. rewrite <- Ex.
  rewrite (not_elem_of_dom_1 (svcs st)); [done|apply is_fresh].
Qed.
Lemma fixed_new_placeholder name st : F st → F (new_placeholder name st).1.
Proof.
  intros H. unfold new_placeholder. cbn [fst].
  apply fixed_add_service, fixed_construct; [by apply fixed_fresh|done].
Qed.
Lemma fixed_not_placeholder y st : F st → is_placeholder st y = true → y ≠ x.
Proof.
  intros H%fixed_settled Hp ->. apply bool_decide_eq_true in Hp. by apply H.
Qed.
#[local] Hint Resolve fixed_add_service fixed_new_placeholder : frame.

Lemma fixed_load_after name l : ∀ depends st, F st → F (load_after name l depends st).1.1.
Proof.
  induction l as [|ent l IH]; intros depends st H; cbn [load_after]; [done|].
  destruct (text_eqb ent name); [done|]. destruct (find_named ent st) as [y|].
  - destruct (is_loading _); [done|]. by apply IH.
  - pose proof (fixed_new_placeholder (to_string ent) st H) as Hn.
    destruct (new_placeholder _ st) as [st' y]. by apply IH.
Qed.
Lemma fixed_load_before name reload depends l : ∀ before_deps st,
  F st → F (load_before name reload depends l before_deps st).1.1.
Proof.
  induction l as [|ent l IH]; intros before_deps st H; cbn [load_before]; [done|].
  destruct (text_eqb ent name); [done|]. destruct (find_named ent st) as [y|].
  - destruct (check_cycle _ _ _ _); [|done]. unfold new_before_dep.
    apply IH. by apply (fixed_same st).
  - pose proof (fixed_new_placeholder (to_string ent) st H) as Hn.
    destruct (new_placeholder _ st) as [st' y]. unfold new_before_dep.
    apply IH. by apply (fixed_same st').
Qed.
End frame.
#[export] Hint Resolve fixed_upd fixed_upd_ne fixed_upd_dep fixed_emit fixed_fault
  fixed_release fixed_require fixed_add_dep fixed_rm_dep_it fixed_rm_dep_ref fixed_link_before
  fixed_update fixed_construct fixed_add_service fixed_remove_service fixed_replace_service
  fixed_new_placeholder fixed_load_after fixed_load_before : frame.

(** ** With processes *)

(** The settings of [x] are those of [p0]; [valid]: also its arguments are as good. *)
Definition config_kept (x : sid) (valid : bool) (p0 : proc) (e : proc_ext) : Prop :=
  let p := default (proc_new []) (procs e !! x) in
  configured_as p = configured_as p0 ∧ (valid = true → parts_valid p = parts_valid p0).
Definition config_in x valid p0 (st : psys) : Prop := config_kept x valid p0 (ext st).
Definition keeps_config (f : proc → proc) : Prop :=
  ∀ p, configured_as (f p) = configured_as p ∧ parts_valid (f p) = parts_valid p.
#[export] Hint Extern 1 (keeps_config _) => (intros ?; rsimpl; split; reflexivity) : frame.
#[export] Hint Extern 1 (∀ e, procs _ = procs e) => (intros ?; rsimpl; reflexivity) : frame.

Section config.
Context (x : sid) (valid : bool) (p0 : proc).
Implicit Types (st : psys) (y : sid).
Abbreviation K := (config_in x valid p0).

Lemma config_same st st' : ext st' = ext st → K st → K st'.
Proof. unfold config_in. by intros ->. Qed.
Lemma config_upd y f st : K st → K (upd y f st).
Proof. by apply config_same. Qed.
Lemma config_emit a st : K st → K (emit a st).
Proof. by apply config_same. Qed.
Lemma config_upd_ext f st : (∀ e, procs (f e) = procs e) → K st → K (upd_ext f st).
Proof. intros Hf. unfold config_in, config_kept, upd_ext. rsimpl. by rewrite Hf. Qed.
Lemma config_upd_proc y f st : keeps_config f → K st → K (upd_proc y f st).
Proof.
  intros Hf. unfold config_in, config_kept, upd_proc, upd_ext. rsimpl.
  destruct (decide (x = y)) as [->|Hy]; [|by rewrite lookup_insert_ne].
  rewrite lookup_insert_eq. destruct (Hf (proc_of st y)) as [H1 H2]. simpl.
  by rewrite H1, H2.
Qed.
Lemma config_upd_ne y f st : y ≠ x → K st → K (upd_proc y f st).
Proof.
  intros Hy. unfold config_in, config_kept, upd_proc, upd_ext. rsimpl. by rewrite lookup_insert_ne.
Qed.
#[local] Hint Resolve config_upd config_emit config_upd_proc config_upd_ext : frame.

Lemma config_os_result st : K st → K (os_result st).1.
Proof. intros H. unfold os_result. destruct (os (ext st)); cbn [fst]; frame_solve. Qed.
Lemma config_close fd st : K st → K (close fd st).
Proof. intros H. unfold close. frame_solve. Qed.
#[local] Hint Resolve config_os_result config_close : frame.
Lemma config_kill y signo st : K st → K (kill_pg y signo st).
Proof.
  intros H. unfold kill_pg. gstep; [frame_solve|]. apply (seq_pair_inv K); [by apply config_os_result|].
  intros s r Hs. cbv zeta. frame_solve.
Qed.
Lemma config_cancel y st : K st → K (cancel_stopstart_timer y st).
Proof. intros H. unfold cancel_stopstart_timer, stop_timer. frame_solve. Qed.
#[local] Hint Resolve config_kill config_cancel : frame.

Lemma config_base_interrupt y st : K st → K (base_process_interrupt_start y st).1.
Proof.
  intros H. unfold base_process_interrupt_start, stop_timer, arm_timer, set_state.
  gstep; cbn [base_interrupt_start fst]; frame_solve.
Qed.
Lemma config_interrupt y st : K st → K (interrupt_start y st).1.
Proof.
  intros H. cbn. unfold proc_interrupt_start. pose proof (config_base_interrupt y st H) as Hb.
  destruct (is_scripted st y); [|by destruct (is_process st y)].
  apply (seq_pair_inv K (λ p, K p.1)); [done|]. intros s r Hs. cbn [fst]. frame_solve.
Qed.
Lemma config_inactive y st : K st → K (becoming_inactive y st).
Proof. intros H. cbn. unfold proc_becoming_inactive. frame_solve. Qed.
Lemma config_restart y st : K st → K (check_restart y st).1.
Proof.
  intros H. cbn. unfold proc_check_restart, process_check_restart, set_target_state. frame_solve.
Qed.
End config.
#[export] Hint Extern 1 (∀ _ _, config_kept _ _ _ _ → config_kept _ _ _ _) =>
  first [exact (config_interrupt _ _ _) | exact (config_restart _ _ _)
        | exact (config_inactive _ _ _)] : frame.

Section process_frame.
Context (x : sid) (st0 : psys) (x_settled : settled st0 x) (listed valid : bool).
Implicit Types (st : psys) (y : sid) (d : did).

Abbreviation F := (fixed x (loaded_as (svc st0 x)) listed (config_kept x valid (proc_of st0 x))).

Lemma fixed_config st st' : records st' = records st → svc st' x = svc st x →
  (config_in x valid (proc_of st0 x) st → config_in x valid (proc_of st0 x) st') → F st → F st'.
Proof. intros Hr Hs He (H1 & H2 & H3). split; [by rewrite Hr|]. split; [by rewrite Hs|exact (He H3)]. Qed.
Lemma fixed_upd_ext f st : (∀ e, procs (f e) = procs e) → F st → F (upd_ext f st).
Proof. intros Hf. apply fixed_config; [done..|]. by apply config_upd_ext. Qed.
Lemma fixed_upd_proc y f st : keeps_config f → F st → F (upd_proc y f st).
Proof. intros Hf. apply fixed_config; [done..|]. by apply config_upd_proc. Qed.
Lemma fixed_upd_proc_ne y f st : y ≠ x → F st → F (upd_proc y f st).
Proof. intros Hf. apply fixed_config; [done..|]. by apply config_upd_ne. Qed.
Lemma fixed_close fd st : F st → F (close fd st).
Proof.
  apply fixed_config; [unfold close; by destruct (bool_decide _)..|]. apply config_close.
Qed.
#[local] Hint Resolve fixed_upd_ext fixed_upd_proc fixed_upd_proc_ne fixed_close : frame.
Lemma fixed_set_log_mode y ty st : y ≠ x → F st → F (set_log_mode y ty st).
Proof. intros Hy H. unfold set_log_mode, deregister_log. frame_solve. Qed.
#[local] Hint Resolve fixed_set_log_mode : frame.
Lemma fixed_transfer_output_pipe y st : F st → F (transfer_output_pipe y st).1.
Proof. intros H. unfold transfer_output_pipe, deregister_log. frame_solve. Qed.

Lemma fixed_destroy y st : y ≠ x → F st → F (destroy y st).
Proof.
  intros Hy H. cbn. unfold proc_destroy, destroy_placeholder, destroy_process, destroy_base.
  gstep; [frame_solve|]. gstep; [frame_solve|]. gstep; [frame_solve|].
  revert H2. apply fixed_config; [done..|]. unfold config_in, config_kept, upd_ext. rsimpl.
  by rewrite lookup_delete_ne.
Qed.
Lemma fixed_delete_record y st : y ≠ x → F st → F (delete_record y st).
Proof.
  intros Hy H. unfold delete_record. gstep; [by apply fixed_destroy|].
  eapply fixed_same; [..|done]; [done| |done]. unfold svc. rsimpl. by rewrite lookup_delete_ne.
Qed.
Lemma fixed_drop_placeholder y st : F st → F (drop_placeholder y st).
Proof.
  intros H. unfold drop_placeholder. apply when_inv; [done|].
  intros [Hp _]%andb_true_iff _. assert (y ≠ x) by (by eapply fixed_not_placeholder).
  apply fixed_delete_record; [done|]. by apply fixed_remove_service.
Qed.
#[local] Hint Resolve fixed_delete_record fixed_drop_placeholder : frame.

Lemma fixed_unlink_dependency d st : F st → F (unlink_dependency d st).
Proof. intros H. unfold unlink_dependency. frame_solve. Qed.
Lemma fixed_unlink_dependent d st : F st → F (unlink_dependent d st).
Proof. intros H. unfold unlink_dependent. frame_solve. Qed.
#[local] Hint Resolve fixed_unlink_dependency fixed_unlink_dependent : frame.
Lemma fixed_prepare_for_unload y st : F st → F (prepare_for_unload y st).
Proof.
  intros H. unfold prepare_for_unload. gstep; [frame_solve|].
  gstep; [by apply (fixed_same _ _ _ _ s)|]. gstep; frame_solve.
Qed.
#[local] Hint Resolve fixed_prepare_for_unload : frame.

Lemma fixed_cleanup dummy before_deps depends consumer st :
  (∀ y, dummy = Some y → y ≠ x) → F st →
  F (exception_cleanup dummy None before_deps depends consumer st).
Proof.
  intros Hd H. unfold exception_cleanup.
  gstep. { destruct dummy as [y|]; [|done]. specialize (Hd y eq_refl). frame_solve. }
  gstep; [done|]. gstep; [frame_solve|].
  gstep. { apply for_each_inv; [done|]. intros [y ty] s' _ Hs'. apply when_inv; [done|].
    intros [[Hp _]%andb_true_iff _]%andb_true_iff _. apply fixed_remove_service; [|done].
    by eapply fixed_not_placeholder. }
  gstep; [frame_solve|]. by apply (fixed_same _ _ _ _ s3).
Qed.

(** *** Replacing a record *)

Lemma fixed_transfer_before_from fuel rval orig : ∀ i st,
  F st → F (transfer_before_from fuel rval orig i st).
Proof.
  induction fuel as [|fuel IH]; intros i st H; cbn [transfer_before_from]; [by apply fixed_fault|].
  destruct (depends_on _ !! i); [|done]. destruct (is_before _); [|by apply IH].
  do 3 (gstep; [frame_solve|]). by apply IH.
Qed.
Lemma fixed_transfer_outputs rval orig st : F st → F (transfer_outputs rval orig st).
Proof.
  intros H. unfold transfer_outputs, set_output_pipe_fds, set_consumer_for. gstep; [done|].
  apply (seq_pair_inv F); [by apply fixed_transfer_output_pipe|]. intros s2 fds H2. frame_solve.
Qed.
Lemma fixed_replace_record rval orig before_deps consumer st :
  orig ≠ x → F st → F (replace_record rval orig before_deps consumer st).
Proof.
  intros Ho H. unfold replace_record. gstep.
  - unfold switch_record, add_dependent, splice_before, remove_before_dependent,
      transfer_dependents, transfer_before.
    do 3 (gstep; [frame_solve|]). gstep; [frame_solve|].
    gstep; [by apply fixed_transfer_before_from|].
    gstep; [by apply fixed_transfer_outputs|]. frame_solve.
  - unfold finish_switch. frame_solve.
Qed.
Lemma fixed_mark_consumer rval consumer st : F st → F (mark_consumer rval consumer st).
Proof. intros H. unfold mark_consumer, set_consumer_for. frame_solve. Qed.
#[local] Hint Resolve fixed_replace_record fixed_mark_consumer : frame.

(** *** The steps of a load *)

Lemma fixed_set_command y parts v st : y ≠ x → F st → F (set_command y parts v st).
Proof. intros Hy H. unfold set_command, upd_child. frame_solve. Qed.
Lemma fixed_update_command y parts depends before_deps st :
  y ≠ x → F st → F (update_command_and_dependencies y parts depends before_deps st).1.
Proof.
  intros Hy H. unfold update_command_and_dependencies, seq. cbv zeta.
  assert (F (set_command y parts true st)) as Hs by by apply fixed_set_command.
  assert (F (update_depenencies y depends before_deps (set_command y parts true st)).1) as Hu
    by frame_solve.
  destruct (update_depenencies _ _ _ _) as [s' [u|e]]; cbn [fst] in *; [done|].
  by apply fixed_set_command.
Qed.

(** A failure puts the old arguments back, but the pointers are not good any more. *)
Lemma fixed_update_command_fail y parts depends before_deps st st' e :
  (valid = true → y ≠ x) → F st →
  update_command_and_dependencies y parts depends before_deps st = (st', Throw e) → F st'.
Proof.
  intros Hy H. destruct (decide (y = x)) as [->|Hne].
  2: { pose proof (fixed_update_command y parts depends before_deps st Hne H) as Hu.
       intros E. by rewrite E in Hu. }
  assert (valid = false) as Hv by (destruct valid; [by destruct Hy|done]).
  unfold update_command_and_dependencies, seq. cbv zeta.
  destruct (update_depenencies _ _ _ _) as [s' [u|e']] eqn:Eu; [done|]. intros [= <- _].
  assert (s' = set_command x parts true st) as ->.
  { revert Eu. unfold update_depenencies, seq. destruct (check_cycle _ _ _ _); [done|]. by intros [= <- _]. }
  destruct H as (H1 & H2 & [H3 _]). split; [done|]. split; [done|].
  unfold config_kept. split; [|by rewrite Hv]. rewrite <- H3.
  unfold set_command, get_command, upd_child, upd_proc, upd_ext, proc_of. rsimpl.
  rewrite !lookup_insert_eq. simpl. by destruct (default (proc_new []) (procs (ext st) !! x)) as [].
Qed.
Lemma fixed_process_settings y s c parts st :
  y ≠ x → F st → F (set_process_settings y s c parts st).
Proof.
  intros Hy H. unfold set_process_settings, set_stop_command, set_working_dir, set_env_file, set_nice,
    set_rlimits, set_stop_timeout, set_start_timeout, set_extra_termination_signal,
    set_run_as_uid_gid, set_logfile_details, set_logfile_owner, set_log_buf_max, upd_child.
  frame_solve.
Qed.
Lemma fixed_type_settings y s st : y ≠ x → F st → F (set_type_settings y s st).
Proof.
  intros Hy H. unfold set_type_settings, set_restart_settings, set_restart_interval,
    set_restart_delay, set_notification_fd, set_notification_var, set_utmp_id, set_utmp_line,
    set_pid_file, upd_child. frame_solve.
Qed.
Lemma fixed_common_settings y dir s e st : y ≠ x → F st → F (set_common_settings y dir s e st).
Proof.
  intros Hy H. unfold set_common_settings, set_service_dsc_dir, set_auto_restart,
    set_smooth_recovery, set_flags, set_socket_details, set_chain_to, set_environment, upd_child.
  frame_solve.
Qed.
End process_frame.
#[export] Hint Resolve fixed_upd_ext fixed_upd_proc fixed_upd_proc_ne fixed_delete_record fixed_cleanup
  fixed_replace_record fixed_mark_consumer fixed_update_command fixed_process_settings
  fixed_type_settings fixed_common_settings : frame.

(** ** Reading a description *)

Section callbacks.
Context {S : Type} (P : S → Prop).
Context (load_service : text → S → S * result sid).
Context (process_dep_dir : list prelim_dep → text → dependency_type → S
                           → S * result (list prelim_dep)).
Context (load_inv : ∀ n st, P st → P (load_service n st).1).
Context (dir_inv : ∀ deps n ty st, P st → P (process_dep_dir deps n ty st).1).

(** Only the callbacks change the state. *)
Lemma process_service_line_state users groups dup service arg lookup_var l s st :
  P st → P (process_service_line users groups dup service arg lookup_var load_service
              process_dep_dir l s st).1.
Proof.
  intros H. unfold process_service_line. destruct (Settings.find_setting _) as [d|]; [|done].
  assert (P (match dependency_setting (setting_id d) with
    | Some (ty, directory) =>
        add_dependency arg lookup_var load_service process_dep_dir ty directory l s st
    | None => (st, set_value users groups dup service arg lookup_var (setting_id d) l s)
    end).1) as Hline.
  { destruct (dependency_setting _) as [[ty directory]|]; [|done]. unfold add_dependency.
    destruct (read_value_resolved _ _ _ _ _) as [v|e]; [|done]. destruct directory.
    - pose proof (dir_inv (settings.depends s) v ty st H) as Hd.
      by destruct (process_dep_dir _ _ _ _).
    - pose proof (load_inv v st H) as Hd. by destruct (load_service _ _). }
  by destruct (sl_op l), (supp_plus_assign d).
Qed.
End callbacks.

Section steps.
Context (H : host) (C : config).
Context (P : psys → Prop) (P_emit : ∀ a st, P st → P (emit a st)).
Context (load : text → option sid → psys → psys * result sid).
Context (load_inv : ∀ n a st, P st → P (load n a st).1).

Lemma load_service_n_inv reload_svc n st : P st → P (load_service_n H load reload_svc n st).1.
Proof.
  intros Hst. unfold load_service_n. pose proof (load_inv n reload_svc st Hst) as Hl.
  destruct (load n reload_svc st) as [st' [y|e]]; [done|]. destruct (is_overrun e); [done|].
  by apply P_emit.
Qed.
Lemma load_entries_inv servicename path ty names : ∀ deplist st,
  P st → P (load_entries load servicename path ty names deplist st).1.
Proof.
  induction names as [|n names IH]; intros deplist st Hst; cbn [load_entries]; [done|].
  destruct (_ =? _); [by apply IH|]. pose proof (load_inv n None st Hst) as Hl.
  destruct (load n None st) as [st' [y|e]]; [by apply IH|].
  destruct e; try done. by apply IH, P_emit.
Qed.
Lemma process_dep_dir_inv servicename filename deplist path ty st :
  P st → P (process_dep_dir H load servicename filename deplist path ty st).1.
Proof.
  intros Hst. unfold process_dep_dir. destruct (read_directory _ _) as [[names failed]|].
  - pose proof (load_entries_inv servicename path ty names deplist st Hst) as Hl.
    destruct (load_entries _ _ _ _ _ _ _) as [st' [deps|e]]; [|done].
    destruct failed; cbn; [by apply P_emit|done].
  - by apply P_emit.
Qed.

Lemma read_settings_inv name arg reload_svc filename dir_fd lines st :
  P st → P (read_settings H C load name arg reload_svc filename dir_fd lines st).1.2.
Proof.
  intros Hst. unfold read_settings. cbv zeta.
  destruct (process_service_file _ _ _ _ _ _ _ _) as [[a r]|] eqn:E; [|done].
  apply (process_service_file_inv _ _ _ _ _ (λ a, P a.2)) in E; [done| |done].
  intros l [s st'] Ha. unfold line_callback, service_line. cbn [fst snd] in *.
  pose proof (process_service_line_state P (load_service_n H load reload_svc)
    (process_dep_dir H load name (file_name (sl_pos l))) (load_service_n_inv reload_svc)
    (λ deps n ty st, process_dep_dir_inv name _ deps n ty st)
    (users H) (groups H) (dup H) name arg
    (λ n, lookup n (build (environ H) (main_env C))) l s st' Ha) as Hl.
  destruct (process_service_line _ _ _ _ _ _ _ _ _ _ _) as [st2 [s2|e]]; [done|].
  by destruct e.
Qed.
End steps.

(** ** The steps of a load *)

Section load.
Context (H : host) (C : config).
Context (x : sid) (st0 : psys) (x_settled : settled st0 x) (listed valid : bool).
Implicit Types (st : psys) (y : sid) (l : loading).

Abbreviation E := (config_kept x valid (proc_of st0 x)).
Abbreviation F := (fixed x (loaded_as (svc st0 x)) listed E).

Section body.
Context (load : text → option sid → psys → psys * result sid).
Context (load_fixed : ∀ n a st, F st → F (load n a st).1).
Context (fullname : text) (reload_svc : option sid) (dir : option text).
Definition step_fixed {A} (m : step A) : Prop := ∀ l, F (ld_set l) → F (ld_set (m l).1).

Lemma step_fixed_bind {A B} (m : step A) (f : A → step B) :
  step_fixed m → (∀ a, step_fixed (f a)) → step_fixed (lbind m f).
Proof.
  intros Hm Hf l Hl. unfold lbind. specialize (Hm l Hl).
  destruct (m l) as [l' [a|e]]; [by apply Hf|done].
Qed.
Lemma fail_bind {A B} (m : step A) (f : A → step B) :
  step_fixed m →
  (∀ a l l' e, F (ld_set l) → f a l = (l', Throw e) → F (ld_set l')) →
  ∀ l l' e, F (ld_set l) → lbind m f l = (l', Throw e) → F (ld_set l').
Proof.
  intros Hm Hf l l' e Hl. unfold lbind. specialize (Hm l Hl).
  destruct (m l) as [l1 [a|e1]]; [by apply Hf|]. by intros [= <- _].
Qed.
Lemma step_fixed_pure {A} (f : loading → result A) : step_fixed (pure_step f).
Proof. by intros l Hl. Qed.

Lemma fixed_read_step filename dir_fd lines :
  step_fixed (read_step H C load fullname reload_svc filename dir_fd lines).
Proof.
  intros l Hl. unfold read_step.
  pose proof (read_settings_inv H C F (fixed_emit x st0 listed E) load load_fixed
    (base_service_name fullname) (service_argument fullname) reload_svc filename dir_fd lines
    (ld_set l) Hl) as Hr.
  by destruct (read_settings _ _ _ _ _ _ _ _ _ _) as [[s st] r].
Qed.
Lemma fixed_consumed_step s : step_fixed (consumed_step reload_svc s).
Proof.
  intros l Hl. unfold consumed_step. cbv zeta. destruct (check_consumed_kept _ _ _ _); [|done].
  destruct (bool_decide _); [done|]. destruct (find_consumed _ _) as [y|]; [done|].
  pose proof (fixed_new_placeholder x st0 x_settled listed E (to_string (settings.consumer_of_name s))
    (ld_set l) Hl) as Hn.
  by destruct (new_placeholder _ _) as [st y].
Qed.
Lemma fixed_after_step s : step_fixed (after_step fullname s).
Proof.
  intros l Hl. unfold after_step.
  pose proof (fixed_load_after x st0 x_settled listed E (base_service_name fullname)
    (settings.after_svcs s) (ld_depends l) (ld_set l) Hl) as Ha.
  by destruct (load_after _ _ _ _) as [[st depends] r].
Qed.
Lemma fixed_before_step s : step_fixed (before_step fullname reload_svc s).
Proof.
  intros l Hl. unfold before_step.
  pose proof (fixed_load_before x st0 x_settled listed E (base_service_name fullname) reload_svc
    (ld_depends l) (settings.before_svcs s) [] (ld_set l) Hl) as Ha.
  by destruct (load_before _ _ _ _ _ _) as [[st before_deps] r].
Qed.

Lemma fixed_construct_record ty parts depends st :
  F st → F (construct_record fullname (fresh (dom (svcs st))) ty parts depends st).
Proof.
  intros Hst. pose proof (fixed_fresh x st0 x_settled listed E st Hst). unfold construct_record.
  frame_solve.
Qed.
Lemma fixed_update_step y depends before_deps st :
  F st → F (update_depenencies y depends before_deps st).1.
Proof. intros Hst. frame_solve. Qed.

(** A failure of the last step. *)
Lemma fixed_record_step_fail create ty parts l l' e :
  (∀ y, reload_svc = Some y → valid = true → y ≠ x) → F (ld_set l) →
  record_step fullname reload_svc create ty parts l = (l', Throw e) → F (ld_set l').
Proof.
  intros Hr Hl. unfold record_step. cbv zeta. destruct reload_svc as [y|]; [|done].
  destruct create; [destruct (check_cycle _ _ _ _); [done|by intros [= <- _]]|].
  destruct (runs_process ty).
  - destruct (update_command_and_dependencies _ _ _ _ _) as [st' [u|e']] eqn:Eu; [done|].
    intros [= <- _]. eapply fixed_update_command_fail; [|exact Hl|exact Eu]. by apply Hr.
  - pose proof (fixed_update_step y (ld_depends l) (ld_before_deps l) (ld_set l) Hl) as Hu.
    destruct (update_depenencies _ _ _ _) as [st' [u|e']]; [done|]. by intros [= <- _].
Qed.

(** Up to the record nothing happens to the service, even if it is reloaded. *)
Lemma fixed_load_steps_fail filename dir_fd lines orig :
  (∀ y, reload_svc = Some y → valid = true → y ≠ x) → ∀ l l' e, F (ld_set l) →
  load_steps H C load fullname reload_svc dir filename dir_fd lines orig l = (l', Throw e) →
  F (ld_set l').
Proof.
  intros Hr. unfold load_steps.
  apply fail_bind; [apply fixed_read_step|intros s].
  apply fail_bind; [apply step_fixed_pure|intros [[s' e] envmap]].
  apply fail_bind; [apply step_fixed_pure|intros create].
  apply fail_bind; [apply fixed_consumed_step|intros _].
  apply fail_bind; [apply fixed_after_step|intros _].
  apply fail_bind; [apply fixed_before_step|intros _].
  apply fail_bind; [apply step_fixed_pure|intros [parts c]].
  intros l l' e' Hl. unfold lbind.
  destruct (record_step _ _ _ _ _ l) as [l1 [rval|e1]] eqn:Er; [done|]. intros [= <- _].
  by eapply fixed_record_step_fail.
Qed.

Context (reload_other : ∀ y, reload_svc = Some y → y ≠ x).

Lemma fixed_record_step create ty parts : step_fixed (record_step fullname reload_svc create ty parts).
Proof.
  intros l Hl. unfold record_step. cbv zeta. pose proof reload_other as Hr.
  destruct reload_svc as [y|].
  - destruct create.
    + destruct (check_cycle _ _ _ _); [|done]. by apply fixed_construct_record.
    + destruct (runs_process ty).
      * pose proof (fixed_update_command x st0 listed valid y (to_strings parts) (ld_depends l)
          (ld_before_deps l) (ld_set l) (Hr y eq_refl) Hl) as Hu.
        by destruct (update_command_and_dependencies _ _ _ _ _).
      * pose proof (fixed_update_step y (ld_depends l) (ld_before_deps l) (ld_set l) Hl) as Hu.
        by destruct (update_depenencies _ _ _ _).
  - by apply fixed_construct_record.
Qed.

(** The new record is not the service. *)
Lemma record_step_other create ty parts l l' rval :
  F (ld_set l) → record_step fullname reload_svc create ty parts l = (l', Ok rval) → rval ≠ x.
Proof.
  intros Hl. unfold record_step. cbv zeta. destruct reload_svc as [y|].
  - destruct create.
    + destruct (check_cycle _ _ _ _); [|done]. intros [= _ <-]. by eapply fixed_fresh.
    + destruct (if runs_process ty then _ else _) as [st' [u|e]]; [|done]. cbn.
      intros [= _ <-]. by apply reload_other.
  - intros [= _ <-]. by eapply fixed_fresh.
Qed.

Lemma fixed_finish_record orig rval create s e c before_deps consumer st :
  rval ≠ x → orig ≠ x → F st →
  F (finish_record dir orig rval create s e c before_deps consumer st).
Proof. intros Hr Ho Hst. unfold finish_record. frame_solve. Qed.

Lemma fixed_load_steps filename dir_fd lines orig :
  orig ≠ x → step_fixed (load_steps H C load fullname reload_svc dir filename dir_fd lines orig).
Proof.
  intros Ho. unfold load_steps.
  apply step_fixed_bind; [apply fixed_read_step|intros s].
  apply step_fixed_bind; [apply step_fixed_pure|intros [[s' e] envmap]].
  apply step_fixed_bind; [apply step_fixed_pure|intros create].
  apply step_fixed_bind; [apply fixed_consumed_step|intros _].
  apply step_fixed_bind; [apply fixed_after_step|intros _].
  apply step_fixed_bind; [apply fixed_before_step|intros _].
  apply step_fixed_bind; [apply step_fixed_pure|intros [parts c]].
  intros l Hl. unfold lbind.
  pose proof (fixed_record_step create (settings.service_type s') parts l Hl) as Hr.
  destruct (record_step _ _ _ _ _ l) as [l' [rval|err]] eqn:E; [|done].
  apply record_step_other in E; [|done]. by apply fixed_finish_record.
Qed.

Lemma fixed_new_dummy st : F st → F (new_dummy fullname st).1 ∧ (new_dummy fullname st).2 ≠ x.
Proof.
  intros Hst. pose proof (fixed_fresh x st0 x_settled listed E st Hst) as Hf. split; [|done].
  unfold new_dummy. apply (seq_inv F (λ p, F p.1)); [frame_solve|]. intros s Hs.
  apply (seq_inv F (λ p, F p.1)); [frame_solve|]. intros s' Hs'. cbn. frame_solve.
Qed.

Lemma fixed_load_description_file filename dir_fd lines st :
  F st → F (load_description_file H C load fullname reload_svc dir filename dir_fd lines st).1.
Proof.
  intros Hst. unfold load_description_file.
  assert (∃ st' dummy orig,
    match reload_svc with
    | Some y => (st, None, y)
    | None => let '(st, y) := new_dummy fullname st in (st, Some y, y)
    end = (st', dummy, orig)
    ∧ orig ≠ x ∧ F st' ∧ ∀ y, dummy = Some y → y ≠ x) as (st' & dummy & orig & -> & Ho & Hst' & Hd).
  { pose proof reload_other as Hr. destruct reload_svc as [y|]; [by exists st, None, y; auto|].
    destruct (fixed_new_dummy st Hst) as [Hd Hdx]. destruct (new_dummy fullname st) as [st' y].
    exists st', (Some y), y. split_and!; [done..|]. by intros z [= <-]. }
  pose proof (fixed_load_steps filename dir_fd lines orig Ho (Loading st' [] [] None) Hst') as Hl.
  destruct (load_steps _ _ _ _ _ _ _ _ _ _ _) as [l [rval|e]]; [done|].
  by apply fixed_cleanup.
Qed.
End body.

Lemma fixed_load_reload fuel : ∀ fullname reload_svc avoid st,
  (∀ y, reload_svc = Some y → y ≠ x) → F st →
  F (load_reload_service H C fuel fullname reload_svc avoid st).1.
Proof.
  induction fuel as [|fuel IH]; intros fullname reload_svc avoid st Hr Hst; [done|].
  cbn [load_reload_service]. destruct (match reload_svc with Some _ => _ | None => _ end)
    as [[y|reload]|e] eqn:E; [done| |done].
  assert (∀ y, reload = Some y → y ≠ x) as Hr'.
  { intros y ->. destruct reload_svc as [z|]; [injection E as <-; by apply Hr|].
    unfold find_existing in E. destruct (find_named fullname st) as [z|]; [|done].
    destruct (_ || _); [done|]. destruct (is_placeholder st z) eqn:Ep; [|done].
    injection E as <-. by eapply fixed_not_placeholder. }
  destruct (find_description _ _ _); [|done..].
  apply fixed_load_description_file; [|done..]. intros n a st' Hst'. by apply IH.
Qed.

(** A reload that fails leaves the service itself alone, too. *)
Lemma fixed_reload_fail fuel fullname y avoid st st' e :
  (valid = true → y ≠ x) → F st → load_reload_service H C fuel fullname (Some y) avoid st = (st', Throw e) → F st'.
Proof.
  intros Hy Hst. destruct fuel as [|fuel]; [by intros [= <- _]|]. cbn [load_reload_service].
  destruct (find_description _ _ _) as [dir filename dir_fd lines| |]; [|by intros [= <- _]..].
  unfold load_description_file.
  destruct (load_steps _ _ _ _ _ _ _ _ _ _ _) as [l [rval|e']] eqn:El; [done|].
  intros [= <- _]. apply fixed_cleanup; [done..|].
  eapply fixed_load_steps_fail in El; [done| | |done].
  - intros n a st1 H1. by apply fixed_load_reload.
  - by intros z [= <-].
Qed.
End load.
