(* ===== verification/LoadErrors.v ===== *)
(** * The errors of the loader

    A description is not found only if the service has none: a missing dependency is
    reported as an error of the service that depends on it.  Every other error that leaves
    the loader names the service that it is about ([blamed]). *)

From S2P Require Import Prelude Text ServiceData Service TimeVal SettingValue VarSubst ServiceFile Settings Loader Process ProcessRun ProcessEvents ProcessMemory Env LoadService.

(** The error of a result. *)
Definition raises {A} (Q : load_exc → Prop) (r : result A) : Prop :=
  match r with Ok _ => True | Throw e => Q e end.

(** An error that does not say which service it is about. *)
Definition nameless (e : load_exc) : Prop :=
  match e with
  | Description_exc _ _ _ | Setting_exc _ _ | Service_load_exc _ | Length_error | System_error _
  | Overrun => True
  | Cyclic_dependency _ | Not_found _ | Load_error _ _ _ | Named _ _ => False
  end.
Definition found {A} (r : result A) : Prop := raises nameless r.
Arguments raises {A} Q r : simpl never.
Arguments found {A} r : simpl never.

Lemma raises_bind {A B} Q (r : result A) (f : A → result B) :
  raises Q r → (∀ a, raises Q (f a)) → raises Q (rbind r f).
Proof. intros Hr Hf. by destruct r; cbn. Qed.

Lemma found_bind {A B} (r : result A) (f : A → result B) :
  found r → (∀ a, found (f a)) → found (rbind r f).
Proof. apply raises_bind. Qed.

Create HintDb found.
Ltac found_step :=
  lazymatch goal with
  | |- found (Ok _) => exact I
  | |- found (Throw _) => exact I
  | |- found (rbind _ _) => apply found_bind; [|intros ?]
  | |- found (match ?x with _ => _ end) => destruct x eqn:?
  | |- found _ => first [assumption | solve [eauto with found nocore]]
  end.
Ltac found_solve := repeat (cbv zeta; cbn [fst snd]; found_step).

(** ** Values *)

Lemma found_quoted s : ∀ val pos, found (read_quoted s val pos).
Proof.
  assert (∀ n s, (length s ≤ n)%nat → ∀ val pos, found (read_quoted s val pos)) as Hn.
  { clear s. induction n as [|n IH]; intros s Hs val pos; destruct s as [|c s]; cbn in *;
      [found_solve|lia|found_solve|]. destruct (_ =? _); [found_solve|].
    destruct (_ =? _); [|apply IH; lia]. destruct s as [|c' s]; [found_solve|].
    apply IH. cbn in Hs. lia. }
  by apply (Hn (length s)).
Qed.
#[export] Hint Resolve found_quoted : found.
Lemma found_value_loop fuel : ∀ pos s val parts b i,
  found (read_value_loop fuel pos s val parts b i).
Proof. induction fuel; intros; cbn [read_value_loop]; found_solve. Qed.
#[export] Hint Resolve found_value_loop : found.
Lemma found_setting_value val op pos s parts d : found (read_setting_value val op pos s parts d).
Proof. unfold read_setting_value. found_solve. Qed.
#[export] Hint Resolve found_setting_value : found.
Lemma found_value_parts pos s : found (read_value_parts pos s).
Proof. unfold read_value_parts. found_solve. Qed.
Lemma found_value pos s : found (read_value pos s).
Proof. unfold read_value. found_solve. Qed.
#[export] Hint Resolve found_value_parts found_value : found.

Lemma found_unum pos p m : found (parse_unum_param pos p m).
Proof. unfold parse_unum_param. found_solve. Qed.
Lemma found_snum pos p a b : found (parse_snum_param pos p a b).
Proof. unfold parse_snum_param. found_solve. Qed.
Lemma found_perms pos p s : found (parse_perms pos p s).
Proof. unfold parse_perms, bad_perms. found_solve. Qed.
Lemma found_uid users pos p s : found (parse_uid_param users pos p s).
Proof. unfold parse_uid_param. found_solve. Qed.
Lemma found_gid groups pos p s : found (parse_gid_param groups pos p s).
Proof. unfold parse_gid_param. found_solve. Qed.
Lemma found_seconds pos s : ∀ i p, found (parse_seconds pos s i p).
Proof. induction s; intros; cbn [parse_seconds]; found_solve. Qed.
Lemma found_fraction pos s : ∀ a b p, found (parse_fraction pos s a b p).
Proof. induction s; intros; cbn [parse_fraction]; found_solve. Qed.
#[export] Hint Resolve found_unum found_snum found_perms found_uid found_gid found_seconds
  found_fraction : found.
Lemma found_timespec pos s p : found (parse_timespec pos s p).
Proof. unfold parse_timespec. found_solve. Qed.
Lemma found_limit pos s p : found (parse_limit pos s p).
Proof. unfold parse_limit. found_solve. Qed.
#[export] Hint Resolve found_timespec found_limit : found.
Lemma found_rlimit pos l p r : found (parse_rlimit pos l p r).
Proof. unfold parse_rlimit. found_solve. Qed.
#[export] Hint Resolve found_rlimit : found.

(** ** Substitution *)

Section subst.
Context (setting : text) (var_resolve : text → option text) (arg : option text).

Lemma found_resolve r : found (resolve setting var_resolve arg r).
Proof. unfold resolve. found_solve. Qed.
Lemma found_reference k s : found (parse_reference setting k s).
Proof. unfold parse_reference. found_solve. Qed.
Hint Resolve found_resolve found_reference : found.
Lemma found_split fuel : ∀ v l st, found (split_value setting fuel v l st).
Proof. induction fuel; intros; cbn [split_value]; unfold too_long; found_solve. Qed.
Hint Resolve found_split : found.
Lemma found_dollar line second st : found (subst_dollar setting var_resolve arg line second st).
Proof. unfold subst_dollar, too_long. found_solve. Qed.
Hint Resolve found_dollar : found.
Lemma found_token fuel : ∀ line second st,
  found (subst_token setting var_resolve arg fuel line second st).
Proof. induction fuel; intros; cbn [subst_token]; found_solve. Qed.
Hint Resolve found_token : found.
Lemma found_tokens line os : ∀ b st, found (subst_tokens setting var_resolve arg line os b st).
Proof. induction os as [|[? ?] os IH]; intros; cbn [subst_tokens]; found_solve. Qed.
Hint Resolve found_tokens : found.
Lemma found_subst line os : found (value_var_subst setting var_resolve arg line os).
Proof. unfold value_var_subst. found_solve. Qed.
End subst.
#[export] Hint Resolve found_subst : found.

(** ** Settings *)

Lemma found_resolved arg resolve setting pos s : found (read_value_resolved arg resolve setting pos s).
Proof. unfold read_value_resolved. found_solve. Qed.
#[export] Hint Resolve found_resolved : found.
Lemma found_options pos opts : ∀ f, found (apply_options pos opts f).
Proof. induction opts; intros; cbn [apply_options]; unfold apply_option; found_solve. Qed.
Lemma found_load_options pos opts : ∀ s, found (apply_load_options pos opts s).
Proof. induction opts; intros; cbn [apply_load_options]; found_solve. Qed.
Lemma found_ready pos v s : found (apply_ready_notification pos v s).
Proof. unfold apply_ready_notification. found_solve. Qed.
Lemma found_choice {A} v (choices : list (text * A)) pos a b :
  found (apply_choice v choices (Description_exc pos a b)).
Proof. unfold apply_choice. found_solve. Qed.
Lemma found_apply_rlimit pos p v r s : found (apply_rlimit pos p v r s).
Proof. unfold apply_rlimit. found_solve. Qed.
Lemma found_command l cmd os : found (read_command l cmd os).
Proof. unfold read_command. found_solve. Qed.
#[export] Hint Resolve found_options found_load_options found_ready found_choice
  found_apply_rlimit found_command : found.
Lemma found_process_value users id l s : found (set_process_value users id l s).
Proof. unfold set_process_value. found_solve. Qed.
#[export] Hint Resolve found_process_value : found.
Lemma found_kind_value users id l s : found (set_kind_value users id l s).
Proof. unfold set_kind_value. found_solve. Qed.
#[export] Hint Resolve found_kind_value : found.
Lemma found_log_value users groups service arg lookup id l s :
  found (set_log_value users groups service arg lookup id l s).
Proof. unfold set_log_value. found_solve. Qed.
#[export] Hint Resolve found_log_value : found.
Lemma found_set_value users groups dup service arg lookup id l s :
  found (set_value users groups dup service arg lookup id l s).
Proof. unfold set_value. found_solve. Qed.
#[export] Hint Resolve found_set_value : found.

(** ** The file *)

Section file.
Context (open_file : text → text → Z → opened) (strerror : Z → text) (arg : option text)
  (resolve : text → option text).

Lemma found_include cmd pos s : found (read_include_path arg resolve cmd pos s).
Proof. unfold read_include_path. found_solve. Qed.
Hint Resolve found_include : found.
Lemma found_join fuel : ∀ line s, found (join_lines fuel line s).1.
Proof.
  induction fuel as [|fuel IH]; intros line s; cbn [join_lines fst]; [found_solve|].
  destruct (continues line); [|found_solve]. destruct (getline_same_file s) as [[next|] s'];
    [|found_solve]. destruct (bool_decide _); [found_solve|apply IH].
Qed.
Lemma found_parse_line line n pos dir : found (parse_line arg resolve line n pos dir).
Proof. unfold parse_line. found_solve. Qed.
Hint Resolve found_parse_line : found.

Context {A : Type} (process_line : setting_line → A → A * result unit).
Context (Q : load_exc → Prop) (nameless_Q : ∀ e, nameless e → Q e).
Context (line_Q : ∀ l a, raises Q (process_line l a).2).

Lemma raises_found {B} (r : result B) : found r → raises Q r.
Proof. destruct r as [b|e]; [done|apply nameless_Q]. Qed.

Lemma raises_next line s a :
  raises Q (process_next open_file strerror arg resolve process_line line s a).2.
Proof.
  unfold process_next. cbv zeta. destruct (bool_decide _); [done|].
  pose proof (found_join (S (length (in_lines (top_file s)))) line s) as Hj.
  destruct (join_lines _ line s) as [joined s2]. cbn [fst] in Hj.
  assert (found (try! line0 := joined in parse_line arg resolve line0 (current_line s)
    (current_pos s2) (current_resolve_dir s2))) as Hp
    by (apply found_bind; [done|intros ?; found_solve]).
  destruct (try! line0 := joined in _) as [c|e]; [|by apply nameless_Q].
  unfold run_command. destruct c as [|optional path| |l].
  - done.
  - destruct (open_file _ _ _); [done|]. destruct (_ || _); first [done|by apply nameless_Q].
  - done.
  - pose proof (line_Q l a) as Hl. destruct (process_line l a) as [a1 r1]. by apply raises_bind.
Qed.
Lemma raises_service_file fuel : ∀ s a a' r,
  process_service_file open_file strerror arg resolve process_line fuel s a = Some (a', r) →
  raises Q r.
Proof.
  induction fuel as [|fuel IH]; intros s a a' r; cbn [process_service_file]; [done|].
  destruct (getline s) as [[line|] s1]; [|by intros [= _ <-]].
  pose proof (raises_next line s1 a) as Hn.
  destruct (process_next _ _ _ _ _ line s1 a) as [a1 [s2|e]]; [apply IH|]. by intros [= _ <-].
Qed.
End file.

Section finish.
Context (arg : option text) (var_subst : text → option text).

Lemma found_report b msg : found (report_error_if b msg).
Proof. unfold report_error_if. found_solve. Qed.
Hint Resolve found_report : found.
Lemma found_do_resolve setting v : found (do_resolve arg var_subst setting v).
Proof. unfold do_resolve. found_solve. Qed.
Lemma found_check_settings s : found (check_settings s).
Proof. unfold check_settings. found_solve. Qed.
Hint Resolve found_do_resolve found_check_settings : found.
Lemma found_finalise uid gid s : found (finalise arg var_subst uid gid s).
Proof. unfold finalise. found_solve. Qed.
End finish.
#[export] Hint Resolve found_report found_finalise : found.

(** ** The loader *)

Section environment.
Context (H : host) (C : config).

Lemma found_read_env_file file a b e r : read_env_file (environ H) file a b e = Some r → found r.
Proof.
  unfold read_env_file. destruct file as [lines|].
  - destruct (read_env_lines _ _ _ _ _ _); cbn; [|done]. intros [= <-]. found_solve.
  - destruct b; intros [= <-]; found_solve.
Qed.
Lemma found_load_env_file s e : found (load_env_file H s e).
Proof.
  unfold load_env_file. destruct (bool_decide _); [found_solve|].
  destruct (read_env_file _ _ _ _ _) as [r|] eqn:E; [|found_solve].
  apply found_read_env_file in E. destruct r as [[? ?]|e']; [found_solve|].
  by destruct e'.
Qed.
Hint Resolve found_load_env_file : found.
Lemma found_userinfo uid e : found (fill_environment_userinfo H uid e).
Proof. unfold fill_environment_userinfo, seq. found_solve. Qed.
Hint Resolve found_userinfo : found.
Lemma found_finish_settings name arg s : found (finish_settings H C name arg s).
Proof. unfold finish_settings, service_environment. found_solve. Qed.
Lemma found_check_reload reload s st : found (check_reload reload s st).
Proof. unfold check_reload, check_settings_for_reload, check_consumer_kept. found_solve. Qed.
Lemma found_commands fullname s envmap : found (commands fullname s envmap).
Proof. unfold commands, do_env_subst. found_solve. Qed.
Lemma found_load_service_n load reload n st : found (load_service_n H load reload n st).2.
Proof.
  unfold load_service_n. destruct (load n reload st) as [st' [y|e]]; [found_solve|].
  destruct (is_overrun e) eqn:E; [|found_solve]. by destruct e.
Qed.
End environment.

(** The errors [Q] of a step: those without a name, and others. *)
Section loader.
Context (H : host) (C : config).
Context (Q : load_exc → Prop) (nameless_Q : ∀ e, nameless e → Q e).

Abbreviation raises_found := (raises_found Q nameless_Q).

Lemma raises_cycle new orig report (st : psys) :
  Q (Cyclic_dependency report) → raises Q (check_cycle new orig report st).
Proof.
  intros Hq. unfold check_cycle. destruct (add_targets _ _ _) as [pending|]; [|done].
  destruct (cycle_loop _ _ _ _ _) as [[]|]; [done|done|by apply nameless_Q].
Qed.
Lemma raises_update y depends before_deps (st : psys) :
  Q (Cyclic_dependency (service_name_of st y)) → raises Q (update_depenencies y depends before_deps st).2.
Proof.
  intros Hq. unfold update_depenencies.
  pose proof (raises_cycle depends y (service_name_of st y) st Hq) as Hc. unfold service_name_of in Hc.
  by destruct (check_cycle _ _ _ _).
Qed.

Section named.
Context (name : text) (cycle_Q : Q (Cyclic_dependency name)).

Lemma raises_load_after l : ∀ depends (st : psys), raises Q (load_after name l depends st).2.
Proof.
  induction l as [|ent l IH]; intros depends st; cbn [load_after]; [done|].
  destruct (text_eqb ent name); [done|]. destruct (find_named ent st) as [y|].
  - destruct (is_loading _); [done|apply IH].
  - destruct (new_placeholder _ st) as [st' y]. apply IH.
Qed.
Lemma raises_load_before reload depends l : ∀ before_deps (st : psys),
  raises Q (load_before name reload depends l before_deps st).2.
Proof.
  induction l as [|ent l IH]; intros before_deps st; cbn [load_before]; [done|].
  destruct (text_eqb ent name); [done|]. destruct (find_named ent st) as [y|].
  - pose proof (raises_cycle depends y name st cycle_Q) as Hc.
    destruct (check_cycle _ _ _ _) as [u|e]; [unfold new_before_dep; apply IH|done].
  - destruct (new_placeholder _ st) as [st' y]. unfold new_before_dep. apply IH.
Qed.
End named.

Section with_load.
Context (load : text → option sid → psys → psys * result sid).
(** The errors of the entries of a directory, but for those that are not found. *)
Context (load_Q : ∀ path names failed n st st' e,
  read_directory H path = Some (names, failed) → n ∈ names →
  load n None st = (st', Throw e) → (∀ m, e ≠ Not_found m) → Q e).

Lemma raises_load_entries path0 all failed servicename path ty names :
  read_directory H path0 = Some (all, failed) → (∀ n, n ∈ names → n ∈ all) → ∀ deplist st,
  raises Q (load_entries load servicename path ty names deplist st).2.
Proof.
  intros Hd. induction names as [|n names IH]; intros Hin deplist st; cbn [load_entries]; [done|].
  assert (∀ m, m ∈ names → m ∈ all) as Hin' by (intros; apply Hin; by right).
  destruct (_ =? _); [by apply IH|]. destruct (load n None st) as [st' [y|e]] eqn:E; [by apply IH|].
  assert ((∀ m, e ≠ Not_found m) → Q e) as He by (eapply load_Q; [exact Hd|apply Hin; by left|exact E]).
  destruct e; first [by apply IH|by apply He].
Qed.
Lemma raises_dep_dir servicename filename deplist path ty st :
  raises Q (process_dep_dir H load servicename filename deplist path ty st).2.
Proof.
  unfold process_dep_dir. destruct (read_directory _ _) as [[names failed]|] eqn:Ed; [|done].
  pose proof (raises_load_entries _ names failed servicename path ty names Ed ltac:(done) deplist st) as Hl.
  by destruct (load_entries _ _ _ _ _ _ _) as [st' [deps|e]].
Qed.

Lemma raises_service_line name arg reload lookup_var l s st :
  raises Q (service_line H load name arg reload lookup_var l s st).2.
Proof.
  unfold service_line.
  assert (raises Q (process_service_line (users H) (groups H) (dup H) name arg lookup_var
    (load_service_n H load reload) (process_dep_dir H load name (file_name (sl_pos l))) l s st).2)
    as Hl.
  { unfold process_service_line.
    destruct (Settings.find_setting _) as [d|]; [|by apply raises_found].
    assert (raises Q (match dependency_setting (setting_id d) with
      | Some (ty, directory) =>
          add_dependency arg lookup_var (load_service_n H load reload)
            (process_dep_dir H load name (file_name (sl_pos l))) ty directory l s st
      | None => (st, set_value (users H) (groups H) (dup H) name arg lookup_var (setting_id d) l s)
      end).2) as Hd.
    { destruct (dependency_setting _) as [[ty directory]|];
        [|apply raises_found; cbn [snd]; auto with found].
      unfold add_dependency.
      pose proof (found_resolved arg lookup_var (sl_name l) (sl_pos l) (sl_value l)) as Hv.
      destruct (read_value_resolved _ _ _ _ _) as [v|e]; [|by apply nameless_Q].
      destruct directory.
      - pose proof (raises_dep_dir name (file_name (sl_pos l)) (settings.depends s) v ty st).
        destruct (process_dep_dir _ _ _ _ _ _ _ _). by apply raises_bind.
      - pose proof (found_load_service_n H load reload v st) as Hn%raises_found.
        destruct (load_service_n _ _ _ _ _). by apply raises_bind. }
    destruct (sl_op l), (supp_plus_assign d); first [exact Hd|by apply nameless_Q]. }
  destruct (process_service_line _ _ _ _ _ _ _ _ _ _ _) as [st' [s'|e]]; [done|].
  destruct e; first [exact Hl|by apply nameless_Q].
Qed.
End with_load.

Lemma raises_lbind {A B} (m : step A) (f : A → step B) :
  (∀ l, raises Q (m l).2) → (∀ a l, raises Q (f a l).2) → ∀ l, raises Q (lbind m f l).2.
Proof.
  intros Hm Hf l. unfold lbind. specialize (Hm l). by destruct (m l) as [l' [a|e]]; [apply Hf|].
Qed.

Section body.
Context (load : text → option sid → psys → psys * result sid).
Context (load_Q : ∀ path names failed n st st' e,
  read_directory H path = Some (names, failed) → n ∈ names →
  load n None st = (st', Throw e) → (∀ m, e ≠ Not_found m) → Q e).
Context (fullname : text) (reload_svc : option sid) (dir : option text).
Context (cycle_Q : Q (Cyclic_dependency (base_service_name fullname))).
Context (record_Q : ∀ x st, reload_svc = Some x → Q (Cyclic_dependency (service_name_of st x))).

Lemma raises_read_step filename dir_fd lines l :
  raises Q (read_step H C load fullname reload_svc filename dir_fd lines l).2.
Proof.
  unfold read_step, read_settings. cbv zeta.
  destruct (process_service_file _ _ _ _ _ _ _ _) as [[[s st] r]|] eqn:E; [|by apply nameless_Q].
  eapply raises_service_file in E; [by apply raises_bind|done|].
  intros sl [s0 st0]. unfold line_callback. cbn [fst snd].
  pose proof (raises_service_line load load_Q (base_service_name fullname) (service_argument fullname)
    reload_svc (λ n, lookup n (build (environ H) (main_env C))) sl s0 st0) as Hl.
  by destruct (service_line _ _ _ _ _ _ _ _ _) as [st1 [s1|e]].
Qed.
Lemma raises_consumed_step s l : raises Q (consumed_step reload_svc s l).2.
Proof.
  apply raises_found. unfold consumed_step. cbv zeta.
  assert (found (check_consumed_kept reload_svc (find_consumed s (ld_set l)) s (ld_set l))) as Hk
    by (unfold check_consumed_kept; found_solve).
  set (l1 := l <| ld_consumer_of := _ |>). change (ld_set l1) with (ld_set l).
  destruct (check_consumed_kept _ _ _ _); [|exact Hk].
  destruct (bool_decide _); [found_solve|]. destruct (find_consumed _ _) as [y|].
  - cbn. unfold check_consumed. found_solve.
  - by destruct (new_placeholder _ _).
Qed.
Lemma raises_record_step create ty parts l :
  raises Q (record_step fullname reload_svc create ty parts l).2.
Proof.
  unfold record_step. cbv zeta. destruct reload_svc as [y|]; [|done]. destruct create.
  - pose proof (raises_cycle (ld_depends l) y (service_name_of (ld_set l) y) (ld_set l)
      (record_Q y _ eq_refl)) as Hc. by destruct (check_cycle _ _ _ _).
  - destruct (runs_process ty).
    + unfold update_command_and_dependencies. cbv zeta. unfold seq.
      pose proof (raises_update y (ld_depends l) (ld_before_deps l)
        (set_command y (to_strings parts) true (ld_set l)) (record_Q y _ eq_refl)) as Hu.
      by destruct (update_depenencies _ _ _ _) as [st [u|e]].
    + pose proof (raises_update y (ld_depends l) (ld_before_deps l) (ld_set l) (record_Q y _ eq_refl)) as Hu.
      destruct (update_depenencies _ _ _ _) as [st r]. by apply raises_bind.
Qed.

Lemma raises_load_steps filename dir_fd lines orig :
  ∀ l, raises Q (load_steps H C load fullname reload_svc dir filename dir_fd lines orig l).2.
Proof.
  unfold load_steps.
  apply raises_lbind; [apply raises_read_step|intros s].
  apply raises_lbind; [intros l; apply raises_found, found_finish_settings|intros [[s' e] envmap]].
  apply raises_lbind; [intros l; apply raises_found, found_check_reload|intros create].
  apply raises_lbind; [apply raises_consumed_step|intros _].
  apply raises_lbind.
  { intros l. unfold after_step. pose proof (raises_load_after (base_service_name fullname) cycle_Q
      (settings.after_svcs s') (ld_depends l) (ld_set l)) as Ha.
    by destruct (load_after _ _ _ _) as [[st depends] r]. }
  intros _. apply raises_lbind.
  { intros l. unfold before_step. pose proof (raises_load_before (base_service_name fullname) cycle_Q
      reload_svc (ld_depends l) (settings.before_svcs s') [] (ld_set l)) as Ha.
    by destruct (load_before _ _ _ _ _ _) as [[st before_deps] r]. }
  intros _. apply raises_lbind; [intros l; apply raises_found, found_commands|intros [parts c]].
  apply raises_lbind; [apply raises_record_step|]. by intros rval l.
Qed.
End body.
End loader.

(** ** Which service an error names *)

(** Where an error in the description of a service was found. *)
Definition in_description (e : load_exc) : Prop :=
  match e with
  | Description_exc _ _ _ | Setting_exc _ _ | Service_load_exc _ => True
  | _ => False
  end.

(** The errors that the load of [fullname] ends with.  All but the last three name [fullname]
    without its argument.  A cycle is reported with the name of the record where there was a
    placeholder for the service, whose dependencies are changed; an error in the load of an
    entry of a dependency directory ends the load as it is, unless the entry is not found. *)
Inductive blamed (H : host) (C : config) : text → load_exc → Prop :=
  | blamed_description fullname e : in_description e →
      blamed H C fullname (Named (base_service_name fullname) e)
  | blamed_cycle fullname : blamed H C fullname (Cyclic_dependency (base_service_name fullname))
  | blamed_not_found fullname : find_description H C (base_service_name fullname) = Not_there →
      blamed H C fullname (Not_found (base_service_name fullname))
  | blamed_unreadable fullname path errno :
      find_description H C (base_service_name fullname) = Unreadable path errno →
      blamed H C fullname (Load_error (base_service_name fullname) path errno)
  | blamed_record fullname x (st st' : psys) :
      find_named fullname st = Some x → is_placeholder st x = true →
      blamed H C fullname (Cyclic_dependency (service_name_of st' x))
  | blamed_entry fullname path names failed n e :
      read_directory H path = Some (names, failed) → n ∈ names → (∀ m, e ≠ Not_found m) →
      blamed H C n e → blamed H C fullname e
  | blamed_fuel fullname : blamed H C fullname Overrun.

Section blame.
Context (H : host) (C : config).

(** The errors of the steps, before the handlers. *)
Definition step_error (fullname : text) (e : load_exc) : Prop :=
  (nameless e ∨ blamed H C fullname e) ∧ ∀ m, e ≠ Not_found m.

Lemma blamed_names fullname e : blamed H C fullname e → ¬ nameless e ∨ e = Overrun.
Proof. induction 1; cbn; auto. Qed.
Lemma step_error_named fullname e : step_error fullname e →
  blamed H C fullname (name_exc H (base_service_name fullname) e)
  ∧ ∀ m, name_exc H (base_service_name fullname) e ≠ Not_found m.
Proof.
  intros [He Hn]. split; [|destruct e; first [done|by apply Hn]].
  destruct He as [He|He].
  - destruct e; cbn in *; try done; by constructor.
  - destruct (blamed_names fullname e He) as [Hl| ->]; [|by constructor].
    destruct e; cbn in *; first [done|by destruct Hl].
Qed.

Lemma find_existing_record fullname avoid (st : psys) x :
  find_existing fullname avoid st = Ok (inr (Some x)) →
  find_named fullname st = Some x ∧ is_placeholder st x = true.
Proof.
  unfold find_existing. destruct (find_named fullname st) as [z|]; [|done].
  destruct (_ || _); [done|]. destruct (is_placeholder st z) eqn:E; [|done]. by intros [= ->].
Qed.
Lemma find_existing_error fullname avoid (st : psys) e :
  find_existing fullname avoid st = Throw e → e = Cyclic_dependency (base_service_name fullname).
Proof.
  unfold find_existing. destruct (find_named fullname st) as [z|]; [|done].
  destruct (_ || _); [by intros [= <-]|]. by destruct (negb _).
Qed.

Lemma load_blamed fuel : ∀ fullname avoid st st' e,
  load_reload_service H C fuel fullname None avoid st = (st', Throw e) →
  blamed H C fullname e
  ∧ ∀ n, e = Not_found n → n = base_service_name fullname ∧ st' = st ∧ find_description H C n = Not_there.
Proof.
  induction fuel as [|fuel IH]; intros fullname avoid st st' e;
    [intros [= _ <-]; split; [constructor|done]|].
  cbn [load_reload_service]. destruct (find_existing fullname avoid st) as [[y|reload]|e'] eqn:E; [done| |].
  2: { intros [= <- <-]. apply find_existing_error in E as ->. split; [constructor|done]. }
  destruct (find_description H C (base_service_name fullname)) as [dir filename dir_fd lines| |] eqn:Ef.
  - unfold load_description_file.
    destruct (match reload with Some _ => _ | None => _ end) as [[st1 dummy] orig].
    pose proof (raises_load_steps H C (step_error fullname)) as Hr.
    specialize (Hr ltac:(intros e1 He1; split; [left; exact He1|intros m E1; rewrite E1 in He1; exact He1])
      (λ n a st, load_reload_service H C fuel n None a st)).
    specialize (Hr ltac:(intros path names failed n s s' e1 Hd Hin He1 Hn; split; [right|done];
      eapply blamed_entry; [exact Hd|exact Hin|exact Hn|exact (proj1 (IH _ _ _ _ _ He1))]) fullname reload dir).
    specialize (Hr ltac:(by split; [right; constructor|])
      ltac:(intros x s ->; apply find_existing_record in E as [??];
            split; [right; by eapply blamed_record|done]) filename dir_fd lines orig (Loading st1 [] [] None)).
    destruct (load_steps _ _ _ _ _ _ _ _ _ _ _) as [l [rval|e1]]; [done|].
    intros [= _ <-]. destruct (step_error_named fullname e1 Hr) as [H1 H2]. split; [done|].
    intros n Hn. by destruct (H2 n).
  - intros [= <- <-]. split; [by constructor|]. by intros n [= <-].
  - intros [= <- <-]. split; [by constructor|done].
Qed.
End blame.
