(* ===== verification/LoadProps.v ===== *)
(** * Loading service descriptions: properties

    What a load keeps, what a reload refuses to change, and where the code goes wrong, with
    concrete service directories. *)

From S2P Require Import Prelude Text ServiceData Service TimeVal SettingValue ServiceFile Settings Loader Process ProcessRun ProcessEvents ProcessMemory Env LoadService LoadFrame LoadErrors.

Implicit Types (st : psys) (x y : sid).

(** What is kept of a loaded service: its place in the service set, the settings of the base
    class and those of the process classes, and, if [valid], whether its arguments point into
    the storage of its command. *)
Record kept_as (valid : bool) st st' x : Prop := {
  ka_listed : x ∈ records st';
  ka_loaded : loaded_as (svc st' x) = loaded_as (svc st x);
  ka_configured : configured_as (proc_of st' x) = configured_as (proc_of st x);
  ka_valid : valid = true → parts_valid (proc_of st' x) = parts_valid (proc_of st x)
}.

Lemma fixed_kept valid st st' x :
  fixed x (loaded_as (svc st x)) true (config_kept x valid (proc_of st x)) st' → kept_as valid st st' x.
Proof. intros (H1 & H2 & H3 & H4). split; auto. Qed.

(** C25: Loading a service, whatever its description says and whether it succeeds or not,
    leaves every loaded service (a record that is not a placeholder) in the service set,
    with the settings of its record as they were: name, type, flags, restart mode, recovery,
    chained service and directory (loaded_as), and of a process service the command, stop
    command, log, restart, timeout, readiness, socket, pid-file, signal and child settings
    (configured_as). So does a reload of one service for all others. A reload that fails
    leaves the service itself with the same settings, including the texts of its arguments,
    but not with the validity of the pointers to them: they may dangle (load-
    service.cc:224). Not covered: consumer-of, dependencies and the running state. *)
Theorem loading_preserves_services H C fuel st x :
  x ∈ records st → settled st x →
  (∀ fullname avoid_circular,
    kept_as true st (load_service H C fuel fullname avoid_circular st).1 x)
  ∧ (∀ y, y ≠ x → kept_as true st (reload_service H C fuel y st).1 x)
  ∧ ∀ e, (reload_service H C fuel x st).2 = Throw e →
      kept_as false st (reload_service H C fuel x st).1 x.
Proof.
  intros Hx Hs.
  assert (∀ valid, fixed x (loaded_as (svc st x)) true (config_kept x valid (proc_of st x)) st) as Hf
    by by repeat split.
  split; [|split].
  - intros fullname avoid. apply fixed_kept. by apply fixed_load_reload.
  - intros y Hy. apply fixed_kept. apply fixed_load_reload; [done| |done]. by intros z [= <-].
  - intros e. unfold reload_service. destruct (load_reload_service _ _ _ _ _ _ _) as [st' r] eqn:E.
    cbn. intros ->. apply fixed_kept. by eapply fixed_reload_fail; [exact Hs| |apply Hf|exact E].
Qed.


(** What the settings of a started service must agree with. *)
Record may_replace st x (s : settings.t) : Prop := {
  mr_type : settings.service_type s = record_type (svc st x);
  mr_deps y : (y, dependency_type.REGULAR) ∈ settings.depends s →
    get_state st y = service_state_t.STARTED;
  mr_console :
    starts_on_console (onstart_flags (svc st x)) = starts_on_console (settings.onstart_flags s)
    ∧ shares_console (onstart_flags (svc st x)) = shares_console (settings.onstart_flags s);
  mr_pid_file : record_type (svc st x) = service_type_t.BGPROCESS →
    pid_file (proc_of st x) = to_string (settings.pid_file s);
  mr_utmp : record_type (svc st x) = service_type_t.PROCESS →
    take (Z.to_nat UT_ID_SIZE) (inittab_id (child (proc_of st x)))
      = take (Z.to_nat UT_ID_SIZE) (settings.inittab_id s)
    ∧ take (Z.to_nat UT_LINE_SIZE) (inittab_line (child (proc_of st x)))
      = take (Z.to_nat UT_LINE_SIZE) (settings.inittab_line s);
  mr_log : is_base_process st x = true → log_type (proc_of st x) = settings.log_type s
}.

Lemma report_ok b msg : report_error_if b msg = Ok tt ↔ b = false.
Proof. by destruct b. Qed.
Lemma rbind_ok {A B} (r : result A) (f : A → result B) b :
  rbind r f = Ok b ↔ ∃ a, r = Ok a ∧ f a = Ok b.
Proof. destruct r; cbn; naive_solver. Qed.

Lemma not_started_none deps st :
  not_started_dep deps st = None
  ↔ ∀ y, (y, dependency_type.REGULAR) ∈ deps → get_state st y = service_state_t.STARTED.
Proof.
  unfold not_started_dep. induction deps as [|[y ty] deps IH]; cbn.
  { split; [|done]. by intros _ y ?%not_elem_of_nil. }
  setoid_rewrite elem_of_cons. repeat case_bool_decide; cbn; subst; split.
  all: try (intros [=]); try rewrite IH; naive_solver.
Qed.

(** When a loaded service is read again, its new settings are accepted exactly if it is
    stopped, or it is started and they agree with what cannot change meanwhile: the type,
    the console flags, the process ID file, the utmp entries and the kind of log, and no
    new hard dependency is on a service that is not started.  A new record is made exactly if
    the service is stopped and its type changes. *)
Theorem reload_settings_accepted x s st b :
  check_settings_for_reload x s st = Ok b
  ↔ (get_state st x = service_state_t.STOPPED
      ∧ b = bool_decide (settings.service_type s ≠ record_type (svc st x)))
    ∨ (get_state st x = service_state_t.STARTED ∧ b = false ∧ may_replace st x s).
Proof.
  unfold check_settings_for_reload, same_prefix.
  destruct (bool_decide (get_state st x = service_state_t.STOPPED)) eqn:Es; cbn [negb].
  { apply bool_decide_eq_true in Es. split.
    - intros [= <-]. left. split; [done|]. by repeat case_bool_decide.
    - intros [[_ ->]|[Hs _]]; [|congruence]. by repeat case_bool_decide. }
  apply bool_decide_eq_false in Es. repeat setoid_rewrite rbind_ok. split.
  - intros ([] & H1 & [] & H2 & [] & H3 & [] & H4 & [] & H5 & [] & H6 & [] & H7 & [= <-]). right.
    assert (not_started_dep (settings.depends s) st = None) as Hn
      by (by destruct (not_started_dep _ _)).
    rewrite report_ok in H1, H2, H4, H5, H6, H7.
    rewrite negb_false_iff, bool_decide_eq_true in H1, H2.
    split; [done|]. split; [done|]. split; [done|by apply not_started_none|..].
    + apply orb_false_iff in H4 as [Ha Hb]. rewrite negb_false_iff, Bool.eqb_true_iff in Ha, Hb.
      by split.
    + intros Hty. rewrite bool_decide_true in H5 by done. cbn in H5.
      by rewrite negb_false_iff, bool_decide_eq_true in H5.
    + intros Hty. rewrite bool_decide_true in H6 by done. cbn in H6.
      apply orb_false_iff in H6 as [Ha Hb]. rewrite negb_false_iff, bool_decide_eq_true in Ha, Hb.
      by split.
    + intros Hp. rewrite Hp in H7. cbn in H7. by rewrite negb_false_iff, bool_decide_eq_true in H7.
  - intros [[Hs _]|(Hs & -> & [M1 M2 M3 M4 M5 M6])]; [done|].
    apply not_started_none in M2. destruct M3 as [M3 M3'].
    repeat (exists tt; split); try apply report_ok.
    + by rewrite negb_false_iff, bool_decide_eq_true.
    + by rewrite negb_false_iff, bool_decide_eq_true.
    + by rewrite M2.
    + by rewrite M3, M3', !Bool.eqb_reflx.
    + case_bool_decide as Ht; [|done]. cbn. by rewrite negb_false_iff, bool_decide_eq_true; auto.
    + case_bool_decide as Ht; [|done]. cbn. destruct (M5 Ht) as [-> ->].
      by rewrite !bool_decide_true.
    + destruct (is_base_process st x) eqn:Hp; [|done]. cbn.
      by rewrite negb_false_iff, bool_decide_eq_true; auto.
    + done.
Qed.

(** ** Concrete service directories *)

(** A host with one service directory and nothing else. *)
Definition files_host (files : list (string * list string)) : host := {|
  open_description _ name :=
    match List.find (λ f, text_eqb (chars f.1) name) files with
    | Some f => Opened 5 (chars <$> f.2)
    | None => Open_failed ServiceFile.ENOENT
    end;
  stdin_lines := [chars "type = triggered"];
  open_include _ _ _ := Open_failed ServiceFile.ENOENT;
  open_env_file _ _ := None;
  read_directory _ := None;
  LoadService.users _ := None;
  LoadService.groups _ := None;
  getpwuid _ := No_passwd 0;
  dup _ := None;
  strerror _ := [];
  geteuid := 0; getuid := 0; getgid := 0;
  environ := []
|}.
Definition one_dir : config :=
  Config [chars "/etc/dinit.d"] auto_restart_mode.NEVER 10 60 environment_new 20.

(** A daemon with an argument, the service it depends on, and one that reads its output. *)
Definition daemon_host : host := files_host
  [("daemon", ["type = process"; "command = /bin/daemon --id $1"; "depends-on: base";
               "log-type = pipe"; "restart = on-failure"]);
   ("base", ["type = internal"; "options = starts-rwfs"; "before: daemon@7"]);
   ("logger", ["type = process"; "command = /bin/logger"; "consumer-of = daemon@7"]);
   ("broken", ["depends-on: base"; "depends-on: missing"])].
Definition daemon_set : psys := (load_service daemon_host one_dir 5 (chars "base") None proc_init).1.
Definition base_id : sid := 2.

Lemma loading_preserves_services_witness :
  service_name (svc daemon_set base_id) = "base"
  ∧ rw_ready (onstart_flags (svc daemon_set base_id)) = true
  ∧ kept_as true daemon_set (load_service daemon_host one_dir 5 (chars "logger") None daemon_set).1 base_id
  ∧ length (records (load_service daemon_host one_dir 5 (chars "logger") None daemon_set).1) = 3%nat.
Proof.
  assert (base_id ∈ records daemon_set) as Hin by (apply (bool_decide_unpack _); vm_compute; done).
  assert (settled daemon_set base_id) as Hs by (unfold settled; vm_compute; discriminate).
  split; [vm_compute; reflexivity|]. split; [vm_compute; reflexivity|].
  split; [|vm_compute; reflexivity].
  exact (proj1 (loading_preserves_services daemon_host one_dir 5 daemon_set base_id Hin Hs)
    (chars "logger") None).
Defined.

Example load_daemon :
  let '(st, r) := load_service daemon_host one_dir 5 (chars "daemon@7") None proc_init in
  match r with
  | Ok x =>
      service_name (svc st x) = "daemon@7"
      ∧ exec_arg_parts (proc_of st x) = ["/bin/daemon"; "--id"; "7"]
      ∧ auto_restart (svc st x) = auto_restart_mode.ON_FAILURE
      ∧ length (records st) = 2%nat
  | Throw _ => False
  end.
Proof. vm_compute. done. Qed.

Lemma reload_settings_accepted_witness :
  check_settings_for_reload 2 ((initial_settings one_dir) <| settings.onstart_flags ::=
    (λ f, f <| kill_all_on_stop := true |>) |>) daemon_set = Ok false
  ∧ get_state daemon_set 2 = service_state_t.STOPPED.
Proof.
  split; [|vm_compute; reflexivity]. apply reload_settings_accepted. left.
  split; vm_compute; reflexivity.
Defined.


(** *** What goes wrong

    Services [b] and [c] depend on each other, and [a] loads [x], which is to start after
    both, before it loads [b]. *)
Definition cycle_host : host := files_host
  [("a", ["depends-on: x"; "depends-on: b"]); ("x", ["after: b"; "after: c"]);
   ("b", ["depends-on: c"]); ("c", ["depends-on: b"])].
Definition cycle_set : psys :=
  (new_placeholder "c" (new_placeholder "b" proc_init).1).1.

(** The description of [b] or [c] is one line. *)
Definition cycle_file (name : string) : text := chars "/etc/dinit.d/" ++ chars name.
Definition cycle_line (name other : string) : setting_line :=
  Setting_line (File_pos (cycle_file name) 1) 5 (chars "depends-on") COLON_OP (chars other).

Lemma cycle_lines {A} (name other : string) open_file strerror arg resolve
    (process_line : setting_line → A → A * result unit) a :
  (name, other) = ("b", "c") ∨ (name, other) = ("c", "b") →
  process_service_file open_file strerror arg resolve process_line 20
    (push (cycle_file name) [chars "depends-on: " ++ chars other] 5 []) a
  = match process_line (cycle_line name other) a with
    | (a, Ok _) => Some (a, Ok tt)
    | (a, Throw e) => Some (a, Throw e)
    end.
Proof.
  intros Hn. set (s := Input_file [] (cycle_file name) 1 5 :: []).
  assert (process_next open_file strerror arg resolve process_line
    (chars "depends-on: " ++ chars other) s a
    = let '(a, r) := process_line (cycle_line name other) a in (a, try! _ := r in Ok s)) as Hnext.
  { destruct Hn as [[= -> ->]|[= -> ->]]; vm_compute; by destruct (process_line _ a) as [a' [u|e]]. }
  assert (getline (push (cycle_file name) [chars "depends-on: " ++ chars other] 5 [])
    = (Some (chars "depends-on: " ++ chars other), s)) as Hget by done.
  cbn [process_service_file]. rewrite Hget, Hnext.
  by destruct (process_line _ a) as [a' [u|e]].
Qed.

Lemma cycle_load (name other : string) load resolve y s st :
  (name, other) = ("b", "c") ∨ (name, other) = ("c", "b") →
  (load (chars other) (Some y) st).2 = Throw Overrun →
  (service_line cycle_host load (chars name) None (Some y) resolve (cycle_line name other) s st).2
  = Throw Overrun.
Proof.
  intros Hn Hl. unfold service_line.
  change (file_name (sl_pos (cycle_line name other))) with (cycle_file name).
  assert (process_service_line (LoadService.users cycle_host) (LoadService.groups cycle_host)
    (dup cycle_host) (chars name) None resolve (load_service_n cycle_host load (Some y))
    (process_dep_dir cycle_host load (chars name) (cycle_file name)) (cycle_line name other) s st
    = let '(st, r) := load_service_n cycle_host load (Some y) (chars other) st in
      (st, try! x := r in
           Ok (s <| settings.depends ::= λ l, l ++ [(x, dependency_type.REGULAR)] |>))) as ->
    by (by destruct Hn as [[= -> ->]|[= -> ->]]).
  unfold load_service_n. destruct (load (chars other) (Some y) st) as [st' r]. cbn in Hl. by subst r.
Qed.

(** Loading one of the two over its placeholder loads the other. *)
Lemma load_over_placeholder load st (name other : string) y :
  (name, other) = ("b", "c") ∨ (name, other) = ("c", "b") →
  (load (chars other) (Some y) st).2 = Throw Overrun →
  (load_description_file cycle_host one_dir load (chars name) (Some y) (Some (chars "/etc/dinit.d"))
    (cycle_file name) 5 [chars "depends-on: " ++ chars other] st).2
  = Throw Overrun.
Proof.
  intros Hn Hl. unfold load_description_file, load_steps, lbind at 1, read_step, read_settings.
  change (file_fuel one_dir) with 20%nat.
  assert (base_service_name (chars name) = chars name ∧ service_argument (chars name) = None)
    as [-> ->] by (destruct Hn as [[= -> ->]|[= -> ->]]; done).
  rewrite (cycle_lines name other) by done. unfold line_callback at 1. cbn [fst snd ld_set].
  pose proof (cycle_load name other load (λ n, lookup n (build (environ cycle_host) (main_env one_dir)))
    y (initial_settings one_dir) st Hn Hl) as Hs.
  destruct (service_line _ _ _ _ _ _ _ _ _) as [st' r]. cbn in Hs. by subst r.
Qed.

Lemma cycle_existing (name other : string) y avoid :
  (name, other, y) = ("b", "c", 0%nat) ∨ (name, other, y) = ("c", "b", 1%nat) → avoid ≠ Some y →
  find_existing (chars name) avoid cycle_set = Ok (inr (Some y))
  ∧ find_description cycle_host one_dir (base_service_name (chars name))
    = Found (Some (chars "/etc/dinit.d")) (cycle_file name) 5
        [chars "depends-on: " ++ chars other].
Proof.
  intros Hn Ha. unfold find_existing.
  assert (find_named (chars name) cycle_set = Some y) as ->
    by (destruct Hn as [[= -> -> ->]|[= -> -> ->]]; vm_compute; reflexivity).
  rewrite bool_decide_false by congruence.
  destruct Hn as [[= -> -> ->]|[= -> -> ->]]; vm_compute; done.
Qed.

Lemma load_cycle fuel : ∀ (name other : string) y avoid,
  (name, other, y) = ("b", "c", 0%nat) ∨ (name, other, y) = ("c", "b", 1%nat) → avoid ≠ Some y →
  (load_service cycle_host one_dir fuel (chars name) avoid cycle_set).2 = Throw Overrun.
Proof.
  unfold load_service. induction fuel as [|fuel IH]; intros name other y avoid Hn Ha; [done|].
  destruct (cycle_existing name other y avoid Hn Ha) as [He Hd]. cbn [load_reload_service].
  rewrite He, Hd. apply (load_over_placeholder _ _ name other).
  { destruct Hn as [[= -> -> ->]|[= -> -> ->]]; auto. }
  destruct Hn as [[= -> -> ->]|[= -> -> ->]].
  - apply (IH "c" "b" 1%nat); [by right|done].
  - apply (IH "b" "c" 0%nat); [by left|done].
Qed.

(** [s] names [t], which is to start before it, and fails if [t] does not; [self] is to read
    its own output. *)
Definition before_host (t : list string) : host := files_host
  [("s", ["depends-on: t"; "depends-on: missing"]); ("t", t);
   ("self", ["type = process"; "command = /bin/self"; "consumer-of = self@1"])].

(** Six defects of the loader.  Two services that have placeholders and depend on each other
    are loaded in turns without end, however deep the recursion may go.  While [s] is
    loading, an error in a service that is to start before it deletes its record.  When
    loading [s] fails, [t], which has been loaded, keeps a dependent that is the deleted
    record.  After a failed update of the dependencies, the restored arguments of the command
    point into freed memory.  Without service directories the description is read from the
    standard input.  And a service with an argument can consume its own output, by
    which it keeps a pointer to the record that marked it as loading. *)
Theorem load_defects :
  ((let '(st, r) := load_service cycle_host one_dir 5 (chars "x") None proc_init in
    r = Ok 3%nat ∧ ((λ y, (service_name (svc st y), is_placeholder st y)) <$> records st)
      = [("x", false); ("b", true); ("c", true)])
   ∧ ∀ fuel, (load_service cycle_host one_dir fuel (chars "b") None cycle_set).2 = Throw Overrun)
  ∧ (let st := (new_dummy (chars "s") proc_init).1 in
     records st = [0%nat] ∧ is_loading (svc st 0%nat) = true
     ∧ let st' := (load_service (before_host ["before: s"; "before: t"]) one_dir 5
                     (chars "t") None st).1 in
       svcs st' !! 0%nat = None ∧ records st' = [])
  ∧ (let '(st, r) := load_service (before_host ["before: s"]) one_dir 5 (chars "s") None proc_init in
     r ≠ Throw Overrun ∧ records st = [2%nat] ∧ service_name (svc st 2%nat) = "t"
     ∧ (dep_from ∘ dep st) <$> dependents (svc st 2%nat) = [0%nat] ∧ svcs st !! 0%nat = None)
  ∧ (let st := set_command 1 ["/bin/a"] true (new_process 1 "a" proc_init) in
     let '(st, r) := update_command_and_dependencies 1 ["/bin/b"]
       [(1%nat, dependency_type.REGULAR)] [] st in
     r ≠ Ok tt ∧ get_command st 1 = ["/bin/a"] ∧ program_parts_valid (child (proc_of st 1)) = false)
  ∧ find_description daemon_host (Config [] auto_restart_mode.NEVER 10 60 environment_new 20)
      (chars "daemon") = Found None [] 0 [chars "type = triggered"]
  ∧ (let '(st, r) := load_service (before_host []) one_dir 5 (chars "self@1") None proc_init in
     r = Ok 1%nat ∧ consumer_for (proc_of st 1) = Some 0%nat ∧ records st = [1%nat]).
Proof.
  split; [split; [vm_compute; by split|]|split_and!; vm_compute; split_and?; try reflexivity; done].
  intros fuel. apply (load_cycle fuel "b" "c" 0%nat None); [by left|done].
Qed.
