(* ===== verification/Log.v ===== *)
(** * Logging

    The two log streams of [dinit-log.cc]: the main log and the console.  A message goes into
    the circular buffer of a stream; when the event loop finds the descriptor of the
    stream writable, [fd_event] writes the first line of the buffer.  The console is given
    away to services that wait for it and taken back.

    The event loop is reduced to what the streams use of it: a watch that is enabled or not
    ([registered], [enabled]), and the removal of a watch.  The results of [write] and
    [writev] are lists in the stream.  The service set is called through
    [pull_console_queue], a function on the whole state as it may use the log itself; it is an
    argument of the operations that can call it. *)

From S2P Require Import Prelude Text CpBuffer TimeVal.

(** ** Streams *)

Variant dlog := DLOG_MAIN | DLOG_CONS.
#[export] Instance dlog_eq_dec : EqDecision dlog.
Proof. solve_decision. Defined.

Module loglevel_t.
Variant t := DEBUG | NOTICE | WARN | ERROR | ZERO.
End loglevel_t.
Abbreviation loglevel_t := loglevel_t.t.
Definition level_index (l : loglevel_t) : Z :=
  match l with
  | loglevel_t.DEBUG => 0 | loglevel_t.NOTICE => 1 | loglevel_t.WARN => 2
  | loglevel_t.ERROR => 3 | loglevel_t.ZERO => 4
  end.

(** An array with an element for each stream. *)
Record per_log (A : Type) := Per_log { at_main : A; at_cons : A }.
Arguments Per_log {A} _ _.
Arguments at_main {A} _.
Arguments at_cons {A} _.
Definition pl_get {A} (i : dlog) (p : per_log A) : A :=
  match i with DLOG_MAIN => at_main p | DLOG_CONS => at_cons p end.
Definition pl_alter {A} (i : dlog) (f : A → A) (p : per_log A) : per_log A :=
  match i with
  | DLOG_MAIN => Per_log (f (at_main p)) (at_cons p)
  | DLOG_CONS => Per_log (at_main p) (f (at_cons p))
  end.

(** What a call of [write] does: it takes at most so many bytes, is to be tried again
    ([EAGAIN], [EINTR]), or fails. *)
Variant io := Takes (n : Z) | Try_again | Io_error.

Definition LOG_SIZE : Z := 4096.

(** Class [buffered_log_stream].  [special] is for the message in [special_buf], of which
    [msg_index] bytes are written.  [sent] and [committed] are the history of the stream: the bytes
    written to it, and those of the messages that were accepted. *)
Record stream := Stream {
  partway : bool;
  discarded : bool;
  release : bool;
  special : bool;
  msg_index : Z;
  log_buffer : cpbuffer;
  current_index : Z;
  fd : Z;
  registered : bool;
  enabled : bool;
  write_results : list io;
  writev_results : list io;
  sent : text;
  committed : text
}.
#[export] Instance eta_stream : Eta stream := λ r,
  Stream (partway r) (discarded r) (release r) (special r) (msg_index r) (log_buffer r)
    (current_index r) (fd r) (registered r) (enabled r) (write_results r) (writev_results r)
    (sent r) (committed r).

Definition stream_new : stream := {|
  partway := false; discarded := false; release := true; special := false; msg_index := 0;
  log_buffer := cpbuffer_new LOG_SIZE; current_index := 0; fd := -1;
  registered := false; enabled := false; write_results := []; writev_results := [];
  sent := []; committed := []
|}.

(** The variables of the file; [services] is the state of the service set, [handoff]
    whether [services] is set, [now] the clock. *)
Record logs (W : Type) := Logs {
  log_stream : per_log stream;
  log_current_line : per_log bool;
  log_format_syslog : per_log bool;
  log_level : per_log loglevel_t;
  console_service_status : bool;
  release_time : time_val;
  handoff : bool;
  external_log_open : bool;
  stdout_nonblock : bool;
  closed : list Z;               (* the descriptors that were closed *)
  now : time_val;
  services : W
}.
Arguments Logs {W} _ _ _ _ _ _ _ _ _ _ _ _.
Arguments log_stream {W} _.
Arguments log_current_line {W} _.
Arguments log_format_syslog {W} _.
Arguments log_level {W} _.
Arguments console_service_status {W} _.
Arguments release_time {W} _.
Arguments handoff {W} _.
Arguments external_log_open {W} _.
Arguments stdout_nonblock {W} _.
Arguments closed {W} _.
Arguments now {W} _.
Arguments services {W} _.
#[export] Instance eta_logs W : Eta (logs W) := λ s,
  Logs (log_stream s) (log_current_line s) (log_format_syslog s) (log_level s)
    (console_service_status s) (release_time s) (handoff s) (external_log_open s)
    (stdout_nonblock s) (closed s) (now s) (services s).

Definition logs_new {W} (w : W) : logs W := {|
  log_stream := Per_log stream_new stream_new;
  log_current_line := Per_log false false;
  log_format_syslog := Per_log true false;
  log_level := Per_log loglevel_t.NOTICE loglevel_t.WARN;
  console_service_status := true; release_time := Time_val 0 0; handoff := false;
  external_log_open := false; stdout_nonblock := false; closed := []; now := Time_val 0 0; services := w
|}.

(** "dinit: *** log message discarded due to full buffer ***" with its newline. *)
Definition discard_notice : text :=
  chars "dinit: *** log message discarded due to full buffer ***" ++ [NEWLINE].

(** The position of the first newline, or of the end. *)
Fixpoint find_nl (s : text) : nat :=
  match s with
  | [] => O
  | c :: s => if c =? NEWLINE then O else S (find_nl s)
  end.

(** ** Operations on a stream *)

Definition commit_index (r : stream) : stream :=
  r <| committed ::= (λ t, t ++ drop (Z.to_nat (current_index r))
         (extract LOG_SIZE 0 (get_length (log_buffer r)) (log_buffer r))) |>
    <| current_index := get_length (log_buffer r) |>.
Definition rollback_msg (r : stream) : stream :=
  r <| log_buffer ::= trim_to (current_index r) |>.
Definition stream_free (r : stream) : Z := get_free LOG_SIZE (log_buffer r).
Definition stream_append (s : text) (r : stream) : stream :=
  r <| log_buffer ::= CpBuffer.append LOG_SIZE s (Z.of_nat (length s)) |>.
Definition discard (r : stream) : stream :=
  r <| current_index := 0 |> <| log_buffer ::= trim_to 0 |>.
Definition mark_discarded (r : stream) : stream := r <| discarded := true |>.
Definition init_stream (new_fd : Z) (r : stream) : stream :=
  r <| fd := new_fd |> <| release := false |>.

(** A call of [write] or [writev] with these bytes; without a result in the list it
    takes them all. *)
Variant written := Written (n : Z) | Retry | Failed.
Definition write_outcome (results : list io) (data : text) : written :=
  match results with
  | [] => Written (Z.of_nat (length data))
  | Takes n :: _ => Written (Z.max 0 (Z.min n (Z.of_nat (length data))))
  | Try_again :: _ => Retry
  | Io_error :: _ => Failed
  end.
Definition sent_bytes (o : written) (data : text) : text :=
  match o with Written n => take (Z.to_nat n) data | _ => [] end.
Definition do_write (data : text) (r : stream) : stream * written :=
  let o := write_outcome (write_results r) data in
  (r <| write_results ::= tail |> <| sent ::= (λ t, t ++ sent_bytes o data) |>, o).
Definition do_writev (data : text) (r : stream) : stream * written :=
  let o := write_outcome (writev_results r) data in
  (r <| writev_results ::= tail |> <| sent ::= (λ t, t ++ sent_bytes o data) |>, o).

(** The spans of the first line in the buffer, and whether it is complete. *)
Definition first_line (c : cpbuffer) : text * bool :=
  let ptr := get_ptr LOG_SIZE 0 c in
  let span := copy_out ptr (get_contiguous_length LOG_SIZE ptr c) (buf c) in
  let pos := find_nl span in
  if bool_decide (pos ≠ length span) then (take (S pos) span, true)
  else if Z.of_nat (length span) =? get_length c then (span, false)
  else
    let span2 := copy_out 0 (get_length c - Z.of_nat (length span)) (buf c) in
    let pos2 := find_nl span2 in
    if bool_decide (pos2 ≠ length span2) then (span ++ take (S pos2) span2, true)
    else (span ++ span2, false).

Variant rearm := REARM | DISARM | REMOVE.

Section log.
Context {W : Type}.
Implicit Types (s : logs W) (pull : logs W → logs W) (i : dlog).

Definition stream_of s i : stream := pl_get i (log_stream s).
Definition on_stream i (f : stream → stream) s : logs W := s <| log_stream ::= pl_alter i f |>.

Definition set_enabled i (b : bool) s : logs W := on_stream i (λ r, r <| enabled := b |>) s.

(** [watch_removed], and the [deregister] that leads to it. *)
Definition watch_removed i s : logs W :=
  let! s := when (2 <? fd (stream_of s i)) (λ s, s <| closed ::= cons (fd (stream_of s i)) |>) s in
  let! s := on_stream i (λ r, r <| fd := -1 |> <| release := true |>) s in
  when (bool_decide (i = DLOG_MAIN)) (λ s, s <| external_log_open := false |>) s.
Definition deregister i s : logs W :=
  watch_removed i (on_stream i (λ r, r <| registered := false |> <| enabled := false |>) s).

Definition commit_msg i s : logs W :=
  let was_first := current_index (stream_of s i) =? 0 in
  let! s := on_stream i commit_index s in
  when (was_first && negb (release (stream_of s i))) (set_enabled i true) s.

Definition release_console pull i s : logs W :=
  when (release (stream_of s i)) (λ s,
    let! s := s <| stdout_nonblock := false |> in
    let! s := when (handoff s) pull s in
    when (release (stream_of s i)) (λ s, s <| release_time := now s |>) s) s.

(** [fd_event]: the rest of the special message, or the first line of the buffer. *)
Definition begin_special (r : stream) : stream :=
  if negb (partway r) && negb (special r) && discarded r
  then r <| special := true |> <| discarded := false |> <| msg_index := 0 |> else r.

Definition special_event pull i s : logs W * rearm :=
  let r := stream_of s i in
  let rest := drop (Z.to_nat (msg_index r)) discard_notice in
  let '(r, o) := do_write (take (S (find_nl rest)) rest) r in
  let! s := on_stream i (λ _, r) s in
  match o with
  | Written n =>
      if Z.of_nat (find_nl rest) <? n then
        let! s := on_stream i (λ r, r <| special := false |> <| discarded := false |>
                                      <| msg_index := 0 |>) s in
        if release (stream_of s i) then (release_console pull i s, DISARM) else (s, REARM)
      else (on_stream i (λ r, r <| msg_index ::= Z.add n |>) s, REARM)
  | Retry => (s, REARM)
  | Failed => (s, REMOVE)
  end.

Definition line_event pull i s : logs W * rearm :=
  if current_index (stream_of s i) =? 0 then (release_console pull i s, DISARM)
  else
    let '(data, will_complete) := first_line (log_buffer (stream_of s i)) in
    let len := Z.of_nat (length data) in
    let '(r, o) := do_writev data (stream_of s i) in
    let! s := on_stream i (λ _, r) s in
    match o with
    | Written n =>
        let complete := (n =? len) && will_complete in
        let! s := on_stream i (λ r, r <| log_buffer ::= consume LOG_SIZE len |>
                                      <| partway := negb complete |>) s in
        if complete then
          let! s := on_stream i (λ r, r <| current_index ::= (λ k, k - len) |>) s in
          if (current_index (stream_of s i) =? 0) || release (stream_of s i)
          then (release_console pull i s, DISARM) else (s, REARM)
        else (s, REARM)
    | Retry => (s, REARM)
    | Failed => (s, REMOVE)
    end.

Definition fd_event pull i s : logs W * rearm :=
  let! s := on_stream i begin_special s in
  if negb (partway (stream_of s i)) && special (stream_of s i)
  then special_event pull i s else line_event pull i s.

(** The event loop calls [fd_event] for an enabled watch and does what it returns. *)
Definition stream_event pull i s : logs W :=
  if registered (stream_of s i) && enabled (stream_of s i) then
    let '(s, r) := fd_event pull i s in
    match r with
    | REARM => set_enabled i true s
    | DISARM => set_enabled i false s
    | REMOVE => deregister i s
    end
  else s.

Definition flush_for_release pull i s : logs W :=
  if release (stream_of s i) then s
  else
    let! s := on_stream i (λ r, r <| release := true |>) s in
    let '(s, r) := fd_event pull i s in
    match r with
    | DISARM => set_enabled i false s
    | REMOVE => deregister i s
    | REARM => s
    end.

(** ** Set-up and the console *)

Definition enable_console_log pull (enable : bool) s : logs W :=
  let log_to_console := negb (release (stream_of s DLOG_CONS)) in
  if enable && negb log_to_console then
    let! s := s <| stdout_nonblock := true |> in
    let! s := on_stream DLOG_CONS (init_stream 1) s in
    set_enabled DLOG_CONS true s
  else if negb enable && log_to_console then flush_for_release pull DLOG_CONS s
  else s.

Definition add_watch i (enable : bool) s : logs W :=
  on_stream i (λ r, r <| registered := true |> <| enabled := enable |>) s.
Definition init_log pull (syslog_format : bool) s : logs W :=
  let! s := add_watch DLOG_CONS false s in
  let! s := enable_console_log pull true s in
  s <| log_format_syslog ::= pl_alter DLOG_MAIN (λ _, syslog_format) |>.
Definition setup_log_console_handoff s : logs W := s <| handoff := true |>.
Definition close_log s : logs W :=
  let! s := when (negb (fd (stream_of s DLOG_CONS) =? -1)) (deregister DLOG_CONS) s in
  when (negb (fd (stream_of s DLOG_MAIN) =? -1)) (deregister DLOG_MAIN) s.
Definition setup_main_log (new_fd : Z) s : logs W :=
  add_watch DLOG_MAIN true (on_stream DLOG_MAIN (init_stream new_fd) s).
Definition is_log_flushed s : bool :=
  (current_index (stream_of s DLOG_CONS) =? 0)
  && ((fd (stream_of s DLOG_MAIN) =? -1) || (current_index (stream_of s DLOG_MAIN) =? 0)).
Definition discard_console_log_buffer s : logs W :=
  when (tv_leb (Time_val 1 0) (tv_sub (now s) (release_time s))) (on_stream DLOG_CONS discard) s.

(** ** Messages *)

Definition sum_length (args : list text) : Z := foldr (λ a n, Z.of_nat (length a) + n) 0 args.
Definition append_args (args : list text) (r : stream) : stream := for_each args stream_append r.

Definition log_level_to_syslog_level (l : loglevel_t) : Z :=
  match l with
  | loglevel_t.DEBUG => 7 | loglevel_t.NOTICE => 5 | loglevel_t.WARN => 4
  | loglevel_t.ERROR => 3 | _ => 2
  end.
Definition LOG_DAEMON : Z := 24.

Definition push_to_log i (args : list text) s : logs W :=
  if negb (pl_get i (log_current_line s)) then s
  else if sum_length args <=? stream_free (stream_of s i)
  then commit_msg i (on_stream i (append_args args) s)
  else on_stream i mark_discarded s.

Definition ll_marker (lvl : Z) : text := chars "<" ++ to_dec_digits lvl ++ chars ">".
Definition level_marker (lvl : loglevel_t) : text :=
  ll_marker (Z.lor LOG_DAEMON (log_level_to_syslog_level lvl)).
Definition level_ge (lvl : loglevel_t) i s : bool :=
  level_index (pl_get i (log_level s)) <=? level_index lvl.
Definition set_current_line (main cons : bool) s : logs W :=
  s <| log_current_line := Per_log main cons |>.

(** The message for the main log, with its level when the log is a syslog. *)
Definition push_to_main (lvl : loglevel_t) (args : list text) s : logs W :=
  if pl_get DLOG_MAIN (log_format_syslog s)
  then push_to_log DLOG_MAIN (level_marker lvl :: args) s
  else push_to_log DLOG_MAIN args s.

Definition do_log (lvl : loglevel_t) (to_cons : bool) (args : list text) s : logs W :=
  let! s := set_current_line (level_ge lvl DLOG_MAIN s) (level_ge lvl DLOG_CONS s && to_cons) s in
  let! s := push_to_log DLOG_CONS args s in
  when (pl_get DLOG_MAIN (log_current_line s)) (push_to_main lvl args) s.
Definition do_log_cons (lvl : loglevel_t) (args : list text) s : logs W :=
  when (console_service_status s || level_ge lvl DLOG_CONS s)
    (λ s, push_to_log DLOG_CONS args (set_current_line false true s)) s.
Definition do_log_main (lvl : loglevel_t) (args : list text) s : logs W :=
  if negb (level_ge lvl DLOG_MAIN s) then s
  else push_to_main lvl args (set_current_line true false s).

(** The overloads of [log] for one message, with and without [to_cons]. *)
Definition log (lvl : loglevel_t) (to_cons : bool) (msg : text) s : logs W :=
  do_log lvl to_cons [chars "dinit: "; msg; [NEWLINE]] s.

Definition do_log_part i (arg : text) s : logs W :=
  when (pl_get i (log_current_line s)) (λ s,
    if sum_length [arg] <=? stream_free (stream_of s i) then on_stream i (stream_append arg) s
    else
      let! s := on_stream i rollback_msg s in
      let! s := s <| log_current_line ::= pl_alter i (λ _, false) |> in
      on_stream i mark_discarded s) s.
Definition do_log_commit i s : logs W := when (pl_get i (log_current_line s)) (commit_msg i) s.

Definition log_msg_begin (lvl : loglevel_t) (msg : text) s : logs W :=
  let! s := set_current_line (level_ge lvl DLOG_MAIN s) (level_ge lvl DLOG_CONS s) s in
  let! s := when (pl_get DLOG_MAIN (log_current_line s) && pl_get DLOG_MAIN (log_format_syslog s))
              (do_log_part DLOG_MAIN (level_marker lvl)) s in
  for_each [DLOG_MAIN; DLOG_CONS]
    (λ i s, do_log_part i msg (do_log_part i (chars "dinit: ") s)) s.
Definition log_msg_part (msg : text) s : logs W :=
  do_log_part DLOG_MAIN msg (do_log_part DLOG_CONS msg s).
Definition log_msg_end (msg : text) s : logs W :=
  for_each [DLOG_MAIN; DLOG_CONS]
    (λ i s, do_log_commit i (do_log_part i [NEWLINE] (do_log_part i msg s))) s.
(** [log(lvl, a, b...)], with at least two parts. *)
Definition log_parts (lvl : loglevel_t) (a : text) (b : list text) (last : text) s : logs W :=
  log_msg_end last (for_each b log_msg_part (log_msg_begin lvl a s)).

Definition log_service_started (name : text) s : logs W :=
  let! s := do_log_cons loglevel_t.NOTICE [chars "[  OK  ] "; name; [NEWLINE]] s in
  do_log_main loglevel_t.NOTICE [chars "dinit: service "; name; chars " started." ++ [NEWLINE]] s.
Definition log_service_failed (name : text) (dep_failed : bool) s : logs W :=
  let cons_lvl := if dep_failed then loglevel_t.WARN else loglevel_t.ERROR in
  let! s := do_log_cons cons_lvl [chars "[FAILED] "; name; [NEWLINE]] s in
  do_log_main loglevel_t.ERROR
    [chars "dinit: service "; name; chars " failed to start." ++ [NEWLINE]] s.
Definition log_service_stopped (name : text) s : logs W :=
  let! s := do_log_cons loglevel_t.NOTICE [chars "[STOPPD] "; name; [NEWLINE]] s in
  do_log_main loglevel_t.NOTICE [chars "dinit: service "; name; chars " stopped." ++ [NEWLINE]] s.
End log.
