(* ===== verification/LogLaws.v ===== *)
(** * Logging: lemmas

    Lines, the first line of the buffer, the invariant of a stream and of the log, and what
    each operation does to it. *)

From S2P Require Import Prelude Text CpBuffer TimeVal Log.

Abbreviation line_buffer := (CpBuffer.contents LOG_SIZE).

(** ** Lines *)

Definition is_line (l : text) : Prop := ∃ t, l = t ++ [NEWLINE] ∧ NEWLINE ∉ t.
Definition ends_line (t : text) : Prop := t = [] ∨ ∃ u, t = u ++ [NEWLINE].

Lemma find_nl_le t : (find_nl t ≤ length t)%nat.
Proof. induction t as [|c t IH]; cbn; [lia|]. destruct (c =? NEWLINE); lia. Qed.
Lemma find_nl_lt t : (find_nl t < length t)%nat ↔ NEWLINE ∈ t.
Proof.
  induction t as [|c t IH]; cbn; [split; [lia|by intros ?%elem_of_nil]|]. rewrite elem_of_cons.
  destruct (c =? NEWLINE) eqn:Hc; [split; [left; lia|lia]|]. rewrite <- IH. split; [auto with lia|].
  intros [<-|?]; [by rewrite Z.eqb_refl in Hc|lia].
Qed.
Lemma find_nl_app t q : find_nl (t ++ q)
  = if bool_decide (NEWLINE ∈ t) then find_nl t else (length t + find_nl q)%nat.
Proof.
  induction t as [|c t IH]; cbn; [done|]. destruct (c =? NEWLINE) eqn:Hc.
  { apply Z.eqb_eq in Hc as ->. by rewrite bool_decide_true by left. }
  rewrite IH. apply Z.eqb_neq in Hc.
  rewrite (bool_decide_ext (NEWLINE ∈ c :: t) (NEWLINE ∈ t)); [by case_bool_decide|].
  rewrite elem_of_cons. naive_solver.
Qed.
Lemma find_nl_line t q : NEWLINE ∉ t → find_nl (t ++ NEWLINE :: q) = length t.
Proof. intros H. rewrite find_nl_app, bool_decide_false by done. cbn. lia. Qed.

(** The first line of a text. *)
Lemma take_line t : NEWLINE ∈ t →
  is_line (take (S (find_nl t)) t) ∧ length (take (S (find_nl t)) t) = S (find_nl t).
Proof.
  intros H. split; [|rewrite length_take; apply find_nl_lt in H; lia].
  induction t as [|c t IH]; [by apply elem_of_nil in H|]. cbn. destruct (c =? NEWLINE) eqn:Hc.
  { exists []. apply Z.eqb_eq in Hc as ->. cbn. by split; [|apply not_elem_of_nil]. }
  apply elem_of_cons in H as [<-|H]; [by rewrite Z.eqb_refl in Hc|].
  destruct (IH H) as (u & -> & Hu). exists (c :: u). split; [done|].
  apply not_elem_of_cons. split; [|done]. intros <-. by rewrite Z.eqb_refl in Hc.
Qed.

Lemma ends_line_nl t : ends_line t → t ≠ [] → NEWLINE ∈ t.
Proof. intros [->|[u ->]] Hn; [done|]. apply elem_of_app. right. by left. Qed.
Lemma ends_line_snoc t : ends_line (t ++ [NEWLINE]).
Proof. right. by exists t. Qed.
Lemma ends_line_drop n t : ends_line t → ends_line (drop n t).
Proof.
  intros [->|[u ->]]; [left; by apply drop_nil|]. rewrite drop_app.
  destruct (n - length u)%nat eqn:Hn; [cbn; apply ends_line_snoc|].
  left. rewrite drop_ge by lia. by destruct n0.
Qed.
Lemma ends_line_app t u : ends_line t → ends_line u → ends_line (t ++ u).
Proof.
  intros Ht [->|[v ->]]; [by rewrite app_nil_r|]. rewrite app_assoc. apply ends_line_snoc.
Qed.
Lemma is_line_ends l : is_line l → ends_line l.
Proof. intros (t & -> & _). apply ends_line_snoc. Qed.

(** ** The first line of the buffer *)

Lemma buffer_spans c : buffer_ok LOG_SIZE c →
  let ptr := get_ptr LOG_SIZE 0 c in
  let len := get_contiguous_length LOG_SIZE ptr c in
  0 ≤ len ≤ length_ c ∧ length (copy_out ptr len (buf c)) = Z.to_nat len
  ∧ line_buffer c = copy_out ptr len (buf c) ++ copy_out 0 (length_ c - len) (buf c).
Proof. intros Hok. cbv zeta. by destruct (CpBuffer.spans LOG_SIZE ltac:(done) c Hok) as (? & ? & ? & _). Qed.

Lemma first_line_spec c : buffer_ok LOG_SIZE c → NEWLINE ∈ line_buffer c →
  first_line c = (take (S (find_nl (line_buffer c))) (line_buffer c), true).
Proof.
  intros Hok Hin. destruct (buffer_spans c Hok) as (Hn & Hl & Hc).
  unfold first_line, get_length. cbv zeta in *.
  set (ptr := get_ptr LOG_SIZE 0 c) in *. set (n := get_contiguous_length LOG_SIZE ptr c) in *.
  rewrite Hl, Z2Nat.id by lia. rewrite Hc in Hin |- *.
  set (u := copy_out ptr n (buf c)) in *. set (v := copy_out 0 (length_ c - n) (buf c)) in *.
  rewrite find_nl_app. pose proof (find_nl_lt u) as Hu. pose proof (find_nl_le u).
  destruct (decide (NEWLINE ∈ u)) as [Hnl|Hnl].
  - rewrite !bool_decide_true by (done || apply Hu in Hnl; lia).
    rewrite take_app_le by (apply Hu in Hnl; lia). done.
  - rewrite (bool_decide_false (NEWLINE ∈ u)) by done.
    rewrite bool_decide_false by (intros ?; apply Hnl, Hu; lia).
    assert (NEWLINE ∈ v) as Hv by (apply elem_of_app in Hin; tauto).
    apply find_nl_lt in Hv. rewrite (proj2 (Z.eqb_neq _ _)).
    + rewrite bool_decide_true, take_app_ge by lia.
      by replace (S (length u + find_nl v) - length u)%nat with (S (find_nl v)) by lia.
    + intros Heq. assert (length v = 0%nat); [|lia].
      unfold v, copy_out. rewrite Heq, Z.sub_diag, length_take. done.
Qed.

(** ** The state of a stream

    [pending] is what is committed and not written.  What was written is lines and notices,
    [chunks]; a notice may not be complete yet. *)

Definition pending (r : stream) : text := take (Z.to_nat (current_index r)) (line_buffer (log_buffer r)).
Definition notice_rest (r : stream) : text :=
  if special r then drop (Z.to_nat (msg_index r)) discard_notice else [].

Variant chunk := Line (l : text) | Notice.
Definition chunk_text (k : chunk) : text := match k with Line l => l | Notice => discard_notice end.
Definition line_of (k : chunk) : text := match k with Line l => l | Notice => [] end.
Definition chunk_ok (k : chunk) : Prop := match k with Line l => is_line l | Notice => True end.

(** The lines that were written, and then what is pending, are what was committed; from the
    console log messages can be missing. *)
Definition carried (i : dlog) (out lines rest : text) : Prop :=
  match i with
  | DLOG_MAIN => lines ++ rest = out
  | DLOG_CONS => sublist (lines ++ rest) out
  end.
Definition output_ok (i : dlog) (out committed rest : text) : Prop :=
  ∃ chunks, out = concat (chunk_text <$> chunks) ∧ Forall chunk_ok chunks
    ∧ carried i committed (concat (line_of <$> chunks)) rest.

(** [writev] takes all or nothing. *)
Definition whole_writes (r : stream) : Prop := ∀ n, Takes n ∈ writev_results r → LOG_SIZE ≤ n.

Record stream_ok (i : dlog) (r : stream) : Prop := {
  so_buffer : buffer_ok LOG_SIZE (log_buffer r);
  so_index : 0 ≤ current_index r ≤ length_ (log_buffer r);
  so_lines : ends_line (pending r);
  so_partway : partway r = false;
  so_special : special r = true → 0 ≤ msg_index r < Z.of_nat (length discard_notice);
  so_output : output_ok i (sent r ++ notice_rest r) (committed r) (pending r);
  so_whole : whole_writes r;
  so_main : i = DLOG_MAIN → registered r = true → release r = false
}.

Lemma size_ok : 0 < LOG_SIZE ≤ 2 ^ 30.
Proof. done. Qed.

Lemma carried_commit i c l p m : carried i c l p → carried i (c ++ m) l (p ++ m).
Proof.
  destruct i; unfold carried; rewrite app_assoc; [by intros ->|]. intros H. by apply sublist_app.
Qed.
Lemma output_commit i o c p m : output_ok i o c p → output_ok i o (c ++ m) (p ++ m).
Proof. intros (ks & H1 & H2 & H3). exists ks. by split_and!; [..|apply carried_commit]. Qed.
Lemma output_line i o c l p : is_line l → output_ok i o c (l ++ p) → output_ok i (o ++ l) c p.
Proof.
  intros Hl (ks & -> & H2 & H3). exists (ks ++ [Line l]).
  rewrite !fmap_app, !concat_app. cbn. rewrite !app_nil_r. split; [done|].
  split; [apply Forall_app; split; [done|by constructor]|].
  revert H3. destruct i; cbn; by rewrite <- app_assoc.
Qed.
Lemma output_notice i o c p : output_ok i o c p → output_ok i (o ++ discard_notice) c p.
Proof.
  intros (ks & -> & H2 & H3). exists (ks ++ [Notice]).
  rewrite !fmap_app, !concat_app. cbn. rewrite !app_nil_r. split; [done|].
  split; [apply Forall_app; split; [done|by constructor]|done].
Qed.
Lemma output_discard o c p : output_ok DLOG_CONS o c p → output_ok DLOG_CONS o c [].
Proof.
  intros (ks & H1 & H2 & H3). exists ks. split_and!; [done|done|]. cbn in *.
  etrans; [|done]. rewrite app_nil_r. by apply sublist_inserts_r.
Qed.
Lemma output_ends i o c p : output_ok i o c p → ends_line o.
Proof.
  intros (ks & -> & H & _). induction H as [|k ks Hk _ IH]; [by left|]. cbn.
  apply ends_line_app; [|done]. destruct k; [by apply is_line_ends|].
  right. by eexists.
Qed.

(** ** Operations on a stream *)

Lemma pending_length i r : stream_ok i r → Z.of_nat (length (pending r)) = current_index r.
Proof.
  intros [H1 H2 _ _ _ _ _ _]. unfold pending. rewrite length_take.
  pose proof (length_contents _ _ H1). lia.
Qed.

(** Fields that the invariant does not depend on. *)
Lemma stream_ok_ext i r r' :
  log_buffer r' = log_buffer r → current_index r' = current_index r → partway r' = partway r →
  special r' = special r → msg_index r' = msg_index r → sent r' = sent r →
  committed r' = committed r → (∀ o, o ∈ writev_results r' → o ∈ writev_results r) →
  (i = DLOG_MAIN → registered r' = true → release r' = false) →
  stream_ok i r → stream_ok i r'.
Proof.
  intros E1 E2 E3 E4 E5 E6 E7 E8 E9 [H1 H2 H3 H4 H5 H6 H7 H8].
  split; unfold pending, notice_rest, whole_writes in *; rewrite ?E1, ?E2, ?E3, ?E4, ?E5, ?E6, ?E7;
    try done. intros n Hn. by apply H7, E8.
Qed.

Lemma stream_append_ok i t r :
  stream_ok i r → Z.of_nat (length t) ≤ stream_free r →
  stream_ok i (stream_append t r)
  ∧ line_buffer (log_buffer (stream_append t r)) = line_buffer (log_buffer r) ++ t
  ∧ pending (stream_append t r) = pending r.
Proof.
  intros H Ht. pose proof H as [H1 H2 H3 H4 H5 H6 H7 H8].
  destruct (append_correct LOG_SIZE size_ok t (log_buffer r) H1 Ht) as [Ha Hc].
  pose proof (length_contents _ _ H1). pose proof (length_contents _ _ Ha) as Hl.
  rewrite Hc, length_app in Hl.
  assert (pending (stream_append t r) = pending r) as Hp.
  { unfold pending, stream_append. rsimpl. rewrite Hc, take_app_le by lia. done. }
  split; [|done]. split; rewrite ?Hp; unfold stream_append; rsimpl; try done. lia.
Qed.

Lemma append_args_ok i args : ∀ r, stream_ok i r → sum_length args ≤ stream_free r →
  stream_ok i (append_args args r)
  ∧ line_buffer (log_buffer (append_args args r)) = line_buffer (log_buffer r) ++ concat args
  ∧ pending (append_args args r) = pending r.
Proof.
  unfold append_args. induction args as [|t args IH]; intros r H Hs.
  { rewrite for_each_nil. cbn. by rewrite app_nil_r. }
  rewrite for_each_cons. cbn [sum_length foldr concat] in *.
  assert (0 ≤ sum_length args) as Hn.
  { clear. unfold sum_length. induction args; cbn; lia. }
  destruct (stream_append_ok i t r H) as (H1 & H2 & H3); [unfold sum_length in *; lia|].
  destruct (IH _ H1) as (H4 & H5 & H6).
  - unfold stream_free, get_free in *. pose proof (length_contents _ _ (so_buffer _ _ H1)) as Hl.
    rewrite H2, length_app in Hl. pose proof (length_contents _ _ (so_buffer _ _ H)).
    unfold sum_length in *. lia.
  - split; [done|]. rewrite H5, H2, H6, H3. by rewrite app_assoc.
Qed.

Lemma rollback_ok i r : stream_ok i r →
  stream_ok i (rollback_msg r) ∧ line_buffer (log_buffer (rollback_msg r)) = pending r
  ∧ pending (rollback_msg r) = pending r.
Proof.
  intros H. pose proof H as [H1 H2 H3 H4 H5 H6 H7 H8].
  destruct (consume_correct LOG_SIZE size_ok (current_index r) (log_buffer r) H1 H2)
    as (_ & [Ht Hc] & _).
  assert (pending (rollback_msg r) = pending r) as Hp.
  { unfold pending, rollback_msg. rsimpl. rewrite Hc. by rewrite take_take, Nat.min_id. }
  split; [|done]. split; rewrite ?Hp; unfold rollback_msg; rsimpl; try done.
  unfold trim_to. rsimpl. lia.
Qed.

Lemma extract_all c : buffer_ok LOG_SIZE c → extract LOG_SIZE 0 (get_length c) c = line_buffer c.
Proof.
  intros H. pose proof (ok_len _ _ H). unfold get_length.
  destruct (extract_correct LOG_SIZE size_ok 0 (length_ c) c H) as [-> _]; [lia..|].
  rewrite drop_0, take_ge; [done|]. rewrite <- (length_contents _ c H). lia.
Qed.

Lemma commit_index_ok i r : stream_ok i r → ends_line (line_buffer (log_buffer r)) →
  stream_ok i (commit_index r) ∧ pending (commit_index r) = line_buffer (log_buffer r)
  ∧ line_buffer (log_buffer (commit_index r)) = line_buffer (log_buffer r).
Proof.
  intros H He. pose proof H as [H1 H2 H3 H4 H5 H6 H7 H8]. pose proof (ok_len _ _ H1).
  assert (pending (commit_index r) = line_buffer (log_buffer r)) as Hp.
  { unfold pending, commit_index. rsimpl. unfold get_length.
    rewrite take_ge; [done|]. rewrite <- (length_contents _ _ H1). lia. }
  split; [|done]. split; rewrite ?Hp; unfold commit_index; rsimpl; try done.
  { unfold get_length. lia. }
  rewrite extract_all by done. rewrite <- (take_drop (Z.to_nat (current_index r)) (line_buffer _)) at 2.
  by apply output_commit.
Qed.

Lemma discard_ok r : stream_ok DLOG_CONS r → stream_ok DLOG_CONS (discard r).
Proof.
  intros [H1 H2 H3 H4 H5 H6 H7 H8].
  destruct (consume_correct LOG_SIZE size_ok 0 (log_buffer r) H1) as (_ & [Ht Hc] & _); [lia|].
  assert (pending (discard r) = []) as Hp.
  { unfold pending, discard. rsimpl. change (Z.to_nat 0) with 0%nat. by rewrite take_0. }
  split; rewrite ?Hp; unfold discard; rsimpl; try done; [by left|].
  by eapply output_discard.
Qed.

(** *** The special message *)

Lemma notice_nl k : (k < length discard_notice)%nat →
  find_nl (drop k discard_notice) = (length discard_notice - k - 1)%nat.
Proof.
  set (t := chars "dinit: *** log message discarded due to full buffer ***").
  change discard_notice with (t ++ [NEWLINE]). rewrite length_app. cbn [length]. intros Hk.
  rewrite drop_app_le by lia. rewrite find_nl_line; [rewrite length_drop; lia|]. intros Hin.
  assert (NEWLINE ∈ t) as H by (rewrite <- (take_drop k t); apply elem_of_app; by right).
  revert H. apply (bool_decide_unpack _). by vm_compute.
Qed.

Lemma begin_special_ok i r : stream_ok i r → stream_ok i (begin_special r).
Proof.
  intros H. unfold begin_special. destruct (_ && _) eqn:Hb; [|done].
  rewrite !andb_true_iff, !negb_true_iff in Hb. destruct Hb as [[_ Hs] _].
  destruct H as [H1 H2 H3 H4 H5 H6 H7 H8]. split; unfold pending, notice_rest in *; rsimpl; try done.
  rewrite Hs, app_nil_r in H6. change (drop _ discard_notice) with discard_notice.
  by apply output_notice.
Qed.

(** The write of the special message. *)
Lemma special_write_ok i r : stream_ok i r → special r = true →
  let rest := notice_rest r in
  let '(r', o) := do_write (take (S (find_nl rest)) rest) r in
  release r' = release r ∧
  match o with
  | Written n =>
      if Z.of_nat (find_nl rest) <? n
      then stream_ok i (r' <| special := false |> <| discarded := false |> <| msg_index := 0 |>)
      else stream_ok i (r' <| msg_index ::= Z.add n |>)
  | _ => stream_ok i r'
  end.
Proof.
  intros H Hs. pose proof H as [H1 H2 H3 H4 H5 H6 H7 H8]. specialize (H5 Hs). cbv zeta.
  unfold notice_rest. rewrite Hs. set (k := Z.to_nat (msg_index r)) in *.
  set (rest := drop k discard_notice) in *.
  assert (length rest = S (find_nl rest)) as Hl.
  { unfold rest. rewrite notice_nl, length_drop by lia. lia. }
  rewrite take_ge by lia. unfold do_write. rsimpl. split; [done|].
  unfold write_outcome. assert (sent r ++ rest = sent r ++ notice_rest r) as Hr
    by (unfold notice_rest; by rewrite Hs).
  assert (∀ n, 0 ≤ n ≤ Z.of_nat (length rest) →
    let r' := r <| write_results ::= tail |> <| sent ::= (λ t, t ++ take (Z.to_nat n) rest) |> in
    if Z.of_nat (find_nl rest) <? n
    then stream_ok i (r' <| special := false |> <| discarded := false |> <| msg_index := 0 |>)
    else stream_ok i (r' <| msg_index ::= Z.add n |>)) as Hw.
  { intros n Hn. cbv zeta. destruct (Z.ltb_spec (Z.of_nat (find_nl rest)) n).
    - rewrite take_ge by lia. split; unfold pending, notice_rest in *; rsimpl; try done.
      rewrite app_nil_r. rewrite Hs in H6. done.
    - split; unfold pending, notice_rest in *; rsimpl; try done.
      + intros _. pose proof (length_drop discard_notice k). unfold rest in *. lia.
      + rewrite Hs in *. rewrite <- app_assoc. replace (Z.to_nat (n + msg_index r)) with (k + Z.to_nat n)%nat by lia.
        rewrite <- drop_drop. fold rest. by rewrite take_drop. }
  assert (stream_ok i (r <| write_results ::= tail |> <| sent ::= (λ t, t ++ []) |>)) as Hsame.
  { apply (stream_ok_ext i r); rsimpl; try done. by rewrite app_nil_r. }
  destruct (write_results r) as [|[n| |] os]; cbn [sent_bytes]; try done.
  - apply Hw. lia.
  - apply Hw. lia.
Qed.

(** *** The first line *)

Lemma tail_elem {A} (o : A) l : o ∈ tail l → o ∈ l.
Proof. destruct l; [done|]. cbn. by right. Qed.

Lemma line_write_ok i r : stream_ok i r → special r = false → current_index r ≠ 0 →
  let '(data, will_complete) := first_line (log_buffer r) in
  let '(r', o) := do_writev data r in
  release r' = release r ∧ registered r' = registered r ∧
  match o with
  | Written n =>
      ((n =? Z.of_nat (length data)) && will_complete) = true
      ∧ stream_ok i (r' <| log_buffer ::= consume LOG_SIZE (Z.of_nat (length data)) |>
                        <| partway := false |>
                        <| current_index ::= (λ k, k - Z.of_nat (length data)) |>)
      ∧ data = take (length data) (pending r) ∧ data ≠ []
      ∧ pending (r' <| log_buffer ::= consume LOG_SIZE (Z.of_nat (length data)) |>
                    <| partway := false |>
                    <| current_index ::= (λ k, k - Z.of_nat (length data)) |>)
        = drop (length data) (pending r)
  | _ => stream_ok i r'
  end.
Proof.
  intros H Hs H0. pose proof H as [H1 H2 H3 H4 H5 H6 H7 H8].
  pose proof (length_contents _ _ H1) as Hlen. pose proof (pending_length i r H) as Hpl.
  assert (NEWLINE ∈ pending r) as Hp.
  { apply ends_line_nl; [done|]. intros Hp. rewrite Hp in Hpl. cbn in Hpl. lia. }
  set (c := log_buffer r) in *.
  assert (line_buffer c = pending r ++ drop (Z.to_nat (current_index r)) (line_buffer c)) as Hc
    by (unfold pending; by rewrite take_drop).
  assert (find_nl (line_buffer c) = find_nl (pending r)) as Hnl
    by (rewrite Hc, find_nl_app, bool_decide_true; done).
  rewrite first_line_spec, Hnl; [|done|rewrite Hc; apply elem_of_app; by left].
  pose proof (take_line _ Hp) as [Hl Hll]. pose proof (proj2 (find_nl_lt _) Hp) as Hlt.
  assert (take (S (find_nl (pending r))) (line_buffer c) = take (S (find_nl (pending r))) (pending r)) as ->.
  { rewrite Hc. rewrite take_app_le by lia. done. }
  set (l := take (S (find_nl (pending r))) (pending r)) in *.
  destruct (consume_correct LOG_SIZE size_ok (Z.of_nat (length l)) c H1) as ([Hb1 Hb2] & _); [lia|].
  unfold do_writev. rsimpl. split; [done|]. split; [done|].
  assert (whole_writes (r <| writev_results ::= tail |>)) as Hw
    by (intros n Hn; apply H7, tail_elem, Hn).
  assert (write_outcome (writev_results r) l = Written (Z.of_nat (length l))
    ∨ sent_bytes (write_outcome (writev_results r) l) l = []
      ∧ ∀ n, write_outcome (writev_results r) l ≠ Written n) as [-> | [-> Hno]].
  { unfold write_outcome. destruct (writev_results r) as [|[n| |] os] eqn:Hr; [by left| |by right|by right].
    left. f_equal. specialize (H7 n). rewrite Hr in H7. specialize (H7 ltac:(by left)).
    pose proof (ok_len _ _ H1). lia. }
  - split; [by rewrite Z.eqb_refl|]. cbn [sent_bytes].
    rewrite take_ge by lia.
    assert (pending (r <| log_buffer ::= consume LOG_SIZE (Z.of_nat (length l)) |>
      <| current_index ::= (λ k, k - Z.of_nat (length l)) |>) = drop (length l) (pending r)) as Hp'.
    { unfold pending. rsimpl. fold c. rewrite Hb2, Nat2Z.id. rewrite take_drop_commute.
      f_equal. f_equal. lia. }
    assert (l = take (length l) (pending r) ∧ l ≠ []) as [Hl1 Hl2].
    { rewrite Hll. split; [done|]. intros E. rewrite E in Hll. done. }
    split; [|split; [done|]; split; [done|exact Hp']].
    unfold pending in Hp'. rsimpl_in Hp'.
    split; unfold pending, notice_rest in *; rsimpl; rewrite ?Hp'; try done.
    + pose proof (ok_len _ _ H1). unfold consume, set; cbn [length_]; fold c. rewrite u32_small by (unfold LOG_SIZE in *; lia). lia.
    + by apply ends_line_drop.
    + rewrite Hs, app_nil_r in *. apply output_line; [done|].
      replace (length l) with (S (find_nl (pending r))) by done. unfold l. by rewrite take_drop.
  - destruct (write_outcome _ _) as [n| |] eqn:E; [by destruct (Hno n)| |].
    all: apply (stream_ok_ext i r); rsimpl; try done; [by rewrite app_nil_r|intros o; apply tail_elem].
Qed.

(** ** The state of the log *)

Section laws.
Context {W : Type}.
Implicit Types (s : logs W) (pull : logs W → logs W) (i j : dlog).

Definition logs_ok s : Prop := ∀ i, stream_ok i (stream_of s i).

Lemma stream_of_on i j f s :
  stream_of (on_stream i f s) j = if decide (i = j) then f (stream_of s j) else stream_of s j.
Proof. by destruct i, j. Qed.
Lemma stream_of_same i f s : stream_of (on_stream i f s) i = f (stream_of s i).
Proof. by destruct i. Qed.

Lemma logs_ok_on i f s : logs_ok s → stream_ok i (f (stream_of s i)) → logs_ok (on_stream i f s).
Proof. intros H Hf j. rewrite stream_of_on. by destruct (decide (i = j)) as [<-|]. Qed.

(** A new setting of the watch or of the flags. *)
Lemma logs_ok_watch i f s :
  (∀ r, log_buffer (f r) = log_buffer r ∧ current_index (f r) = current_index r
        ∧ partway (f r) = partway r ∧ special (f r) = special r ∧ msg_index (f r) = msg_index r
        ∧ sent (f r) = sent r ∧ committed (f r) = committed r
        ∧ writev_results (f r) = writev_results r) →
  (i = DLOG_MAIN → registered (f (stream_of s i)) = true → release (f (stream_of s i)) = false) →
  logs_ok s → logs_ok (on_stream i f s).
Proof.
  intros Hf Hm H. apply logs_ok_on; [done|].
  destruct (Hf (stream_of s i)) as (?&?&?&?&?&?&?&E).
  apply (stream_ok_ext i (stream_of s i)); try done. intros o. by rewrite E.
Qed.

(** The services may use the log, and take the console or give it back, when the
    console log has written a whole line. *)
Definition hand_over_ok pull : Prop := ∀ s,
  logs_ok s → release (stream_of s DLOG_CONS) = true → ends_line (sent (stream_of s DLOG_CONS)) →
  logs_ok (pull s).

Section pull.
Context (pull : logs W → logs W) (Hpull : hand_over_ok pull).

Lemma set_enabled_ok i b s : logs_ok s → logs_ok (set_enabled i b s).
Proof. intros H. apply logs_ok_watch; [done| |done]. intros ->. by apply (so_main _ _ (H _)). Qed.

Lemma deregister_ok i s : logs_ok s → logs_ok (deregister i s).
Proof.
  intros H. unfold deregister, watch_removed, seq.
  assert (logs_ok (on_stream i (λ r, r <| registered := false |> <| enabled := false |>) s)) as H1.
  { apply logs_ok_watch; [done| |done]. by rsimpl. }
  assert (registered (stream_of (on_stream i (λ r, r <| registered := false |>
    <| enabled := false |>) s) i) = false) as Hr by (by rewrite stream_of_same; rsimpl).
  set (s1 := on_stream _ _ s) in *. apply when_inv; [|done].
  apply logs_ok_watch; [done| |].
  - intros ->. destruct (_ <? _); cbn [when]; rewrite ?stream_of_same; rsimpl.
    all: intros Hreg; revert Hr Hreg; unfold stream_of; cbn; congruence.
  - by apply when_inv.
Qed.

Lemma release_console_ok i s :
  logs_ok s → special (stream_of s i) = false → (i = DLOG_MAIN → release (stream_of s i) = false) →
  logs_ok (release_console pull i s).
Proof.
  intros H Hs Hm. unfold release_console. apply when_inv; [done|]. intros Hr _. unfold seq.
  destruct i; [by rewrite Hm in Hr|].
  assert (logs_ok (s <| stdout_nonblock := false |>)) as H1 by done.
  apply when_inv; [|done]. apply when_inv; [done|]. intros _ _. apply Hpull; [done..|].
  change (stream_of (s <| stdout_nonblock := false |>) DLOG_CONS) with (stream_of s DLOG_CONS).
  pose proof (so_output _ _ (H DLOG_CONS)) as Ho. unfold notice_rest in Ho.
  rewrite Hs, app_nil_r in Ho. by eapply output_ends.
Qed.

Lemma special_event_ok i s :
  logs_ok s → special (stream_of s i) = true → (i = DLOG_MAIN → release (stream_of s i) = false) →
  logs_ok (special_event pull i s).1.
Proof.
  intros H Hs Hm. pose proof (special_write_ok i _ (H i) Hs) as Hw. unfold special_event, notice_rest in *.
  rewrite Hs in Hw. cbv zeta in *. destruct (do_write _ _) as [r' o]. destruct Hw as [Hrel Hw].
  unfold seq. destruct o as [n| |]; [|by apply logs_ok_on..].
  destruct (_ <? n).
  - rewrite !stream_of_same. rsimpl. rewrite Hrel.
    assert (logs_ok (on_stream i (λ r, r <| special := false |> <| discarded := false |>
      <| msg_index := 0 |>) (on_stream i (λ _, r') s))) as H1.
    { intros j. rewrite !stream_of_on. destruct (decide (i = j)) as [<-|]; [done|apply H]. }
    destruct (release (stream_of s i)) eqn:Hr; [|done]. cbn [fst].
    apply release_console_ok; [done|by rewrite stream_of_same; rsimpl|]. intros Hi.
    rewrite !stream_of_same. rsimpl. specialize (Hm Hi). congruence.
  - cbn [fst]. intros j. rewrite !stream_of_on. destruct (decide (i = j)) as [<-|]; [done|apply H].
Qed.

Lemma line_event_ok i s :
  logs_ok s → special (stream_of s i) = false → (i = DLOG_MAIN → release (stream_of s i) = false) →
  logs_ok (line_event pull i s).1.
Proof.
  intros H Hs Hm. unfold line_event. destruct (_ =? 0) eqn:H0.
  { by apply release_console_ok. }
  apply Z.eqb_neq in H0. pose proof (line_write_ok i _ (H i) Hs H0) as Hw.
  destruct (first_line _) as [data wc]. destruct (do_writev data (stream_of s i)) as [r' o] eqn:Hd.
  assert (special r' = false) as Hs'.
  { unfold do_writev in Hd. injection Hd as <- _. by rsimpl. }
  destruct Hw as (Hrel & _ & Hw). unfold seq.
  destruct o as [n| |]; [|by apply logs_ok_on..]. destruct Hw as (-> & Hw & _). cbn [negb].
  assert (logs_ok (on_stream i (λ r, r <| current_index ::= (λ k, k - Z.of_nat (length data)) |>)
    (on_stream i (λ r, r <| log_buffer ::= consume LOG_SIZE (Z.of_nat (length data)) |>
                         <| partway := false |>) (on_stream i (λ _, r') s)))) as H1.
  { intros j. rewrite !stream_of_on. destruct (decide (i = j)) as [<-|]; [done|apply H]. }
  destruct (_ || _); [|done]. cbn [fst]. apply release_console_ok; [done|..].
  - by rewrite !stream_of_same; rsimpl.
  - intros Hi. rewrite !stream_of_same. rsimpl. rewrite Hrel. by apply Hm.
Qed.

Lemma fd_event_ok i s :
  logs_ok s → (i = DLOG_MAIN → release (stream_of s i) = false) → logs_ok (fd_event pull i s).1.
Proof.
  intros H Hm. unfold fd_event, seq.
  assert (logs_ok (on_stream i begin_special s)) as H1 by (apply logs_ok_on, begin_special_ok, H; done).
  assert (i = DLOG_MAIN → release (stream_of (on_stream i begin_special s) i) = false) as Hm1.
  { intros Hi. rewrite stream_of_same. unfold begin_special. specialize (Hm Hi).
    by destruct (_ && _); rsimpl. }
  rewrite (so_partway _ _ (H1 i)). cbn [negb andb].
  destruct (special _) eqn:Hs; [by apply special_event_ok|by apply line_event_ok].
Qed.

Lemma stream_event_ok i s : logs_ok s → logs_ok (stream_event pull i s).
Proof.
  intros H. unfold stream_event. destruct (registered _) eqn:Hr; [|done]. destruct (enabled _); [|done].
  cbn [andb]. pose proof (fd_event_ok i s H) as He. destruct (fd_event pull i s) as [s' r].
  assert (logs_ok s') as H' by (apply He; intros Hi; by apply (so_main _ _ (H i))).
  destruct r; [by apply set_enabled_ok..|by apply deregister_ok].
Qed.

Lemma flush_for_release_ok s : logs_ok s → logs_ok (flush_for_release pull DLOG_CONS s).
Proof.
  intros H. unfold flush_for_release, seq. destruct (release _); [done|].
  assert (logs_ok (on_stream DLOG_CONS (λ r, r <| release := true |>) s)) as H1
    by (apply logs_ok_watch; done).
  pose proof (fd_event_ok DLOG_CONS _ H1 ltac:(done)) as H2.
  destruct (fd_event _ _ _) as [s' r]. destruct r; [done|by apply set_enabled_ok|by apply deregister_ok].
Qed.

Lemma enable_console_log_ok b s : logs_ok s → logs_ok (enable_console_log pull b s).
Proof.
  intros H. unfold enable_console_log, seq. destruct (b && _).
  { apply set_enabled_ok, logs_ok_watch; done. }
  destruct (_ && _); [by apply flush_for_release_ok|done].
Qed.

Lemma init_log_ok b s : logs_ok s → logs_ok (init_log pull b s).
Proof.
  intros H. unfold init_log, seq.
  assert (logs_ok (enable_console_log pull true (add_watch DLOG_CONS false s))) as H1.
  { apply enable_console_log_ok, logs_ok_watch; done. }
  intros j. exact (H1 j).
Qed.

Lemma setup_main_log_ok fd s : logs_ok s → logs_ok (setup_main_log fd s).
Proof.
  intros H. unfold setup_main_log, add_watch.
  apply logs_ok_watch; [done|intros _ _; rewrite stream_of_same; unfold init_stream; by rsimpl|].
  apply logs_ok_watch; [done|by unfold init_stream; rsimpl|done].
Qed.

Lemma close_log_ok s : logs_ok s → logs_ok (close_log s).
Proof.
  intros H. unfold close_log, seq. apply when_inv; [apply when_inv; [done|]|];
    intros; by apply deregister_ok.
Qed.

Lemma discard_console_ok s : logs_ok s → logs_ok (discard_console_log_buffer s).
Proof.
  intros H. unfold discard_console_log_buffer. apply when_inv; [done|]. intros _ _.
  apply logs_ok_on; [done|]. apply discard_ok, H.
Qed.
End pull.

(** ** Messages, stream by stream *)

Definition commit_stream (r : stream) : stream :=
  let r' := commit_index r in
  if (current_index r =? 0) && negb (release r) then r' <| enabled := true |> else r'.
Definition push_stream (args : list text) (r : stream) : stream :=
  if sum_length args <=? stream_free r then commit_stream (append_args args r) else mark_discarded r.

Lemma stream_of_commit i j s :
  stream_of (commit_msg i s) j
  = if decide (i = j) then commit_stream (stream_of s j) else stream_of s j.
Proof.
  unfold commit_msg, commit_stream, seq, set_enabled. rewrite stream_of_same.
  change (release (commit_index (stream_of s i))) with (release (stream_of s i)).
  destruct (decide (i = j)) as [<-|Hn].
  - destruct (_ && _); cbn [when]; rewrite !stream_of_on, ?decide_True by done; done.
  - destruct (_ && _); cbn [when]; rewrite !stream_of_on, ?decide_False by done; done.
Qed.

Lemma stream_of_push i j args s :
  stream_of (push_to_log i args s) j
  = if bool_decide (i = j) && pl_get i (log_current_line s)
    then push_stream args (stream_of s j) else stream_of s j.
Proof.
  unfold push_to_log, push_stream. destruct (pl_get i (log_current_line s)); cbn [negb].
  2: by rewrite andb_false_r.
  rewrite andb_true_r. case_bool_decide as Hij.
  - subst j. destruct (_ <=? _); [rewrite stream_of_commit, stream_of_same|by rewrite stream_of_same].
    by rewrite decide_True.
  - destruct (_ <=? _); [rewrite stream_of_commit|]; by rewrite ?stream_of_on, ?decide_False by done.
Qed.

Lemma commit_frame i s :
  log_current_line (commit_msg i s) = log_current_line s
  ∧ log_format_syslog (commit_msg i s) = log_format_syslog s.
Proof. unfold commit_msg, seq. by destruct (_ && _). Qed.

(** A message that is complete: it ends with a newline. *)
Definition whole_message (args : list text) : Prop := ∃ u, concat args = u ++ [NEWLINE].

Lemma commit_stream_ok i r : stream_ok i r → ends_line (line_buffer (log_buffer r)) →
  stream_ok i (commit_stream r).
Proof.
  intros H He. destruct (commit_index_ok i r H He) as [H1 _]. unfold commit_stream.
  destruct (_ && _) eqn:Hb; [|done]. apply (stream_ok_ext i (commit_index r)); try done.
  intros Hi Hr. apply (so_main _ _ H); done.
Qed.
Lemma push_stream_ok i args r : stream_ok i r → whole_message args → stream_ok i (push_stream args r).
Proof.
  intros H [u Hu]. unfold push_stream. destruct (Z.leb_spec (sum_length args) (stream_free r)) as [Hf|].
  - destruct (append_args_ok i args r H Hf) as (H1 & H2 & _). apply commit_stream_ok; [done|].
    rewrite H2, Hu, app_assoc. apply ends_line_snoc.
  - apply (stream_ok_ext i r); try done. by apply (so_main _ _ H).
Qed.

Lemma push_to_log_ok i args s : logs_ok s → whole_message args → logs_ok (push_to_log i args s).
Proof.
  intros H Hw j. rewrite stream_of_push. destruct (_ && _); [|apply H]. by apply push_stream_ok.
Qed.
Lemma push_to_main_ok lvl args s : logs_ok s → whole_message args → logs_ok (push_to_main lvl args s).
Proof.
  intros H [u Hu]. unfold push_to_main. destruct (pl_get _ _); apply push_to_log_ok; [done| |done|by exists u].
  exists (level_marker lvl ++ u). cbn. by rewrite Hu, app_assoc.
Qed.
Lemma do_log_ok lvl c args s : logs_ok s → whole_message args → logs_ok (do_log lvl c args s).
Proof.
  intros H Hw. unfold do_log, seq.
  assert (logs_ok (push_to_log DLOG_CONS args (set_current_line (level_ge lvl DLOG_MAIN s)
    (level_ge lvl DLOG_CONS s && c) s))) as H1 by (apply push_to_log_ok; done).
  apply when_inv; [done|]. intros _ _. by apply push_to_main_ok.
Qed.
Lemma do_log_cons_ok lvl args s : logs_ok s → whole_message args → logs_ok (do_log_cons lvl args s).
Proof. intros H Hw. unfold do_log_cons. apply when_inv; [done|]. intros _ _. by apply push_to_log_ok. Qed.
Lemma do_log_main_ok lvl args s : logs_ok s → whole_message args → logs_ok (do_log_main lvl args s).
Proof. intros H Hw. unfold do_log_main. destruct (negb _); [done|]. by apply push_to_main_ok. Qed.

Lemma whole_snoc (args : list text) t : whole_message (args ++ [t ++ [NEWLINE]]).
Proof. exists (concat args ++ t). rewrite concat_app. cbn. by rewrite app_nil_r, app_assoc. Qed.

(** *** Messages in parts *)

Definition part_line (arg : text) (l : bool * stream) : bool * stream :=
  let '(cur, r) := l in
  if cur then
    if sum_length [arg] <=? stream_free r then (true, stream_append arg r)
    else (false, mark_discarded (rollback_msg r))
  else l.
Definition line_state s i : bool * stream := (pl_get i (log_current_line s), stream_of s i).

Lemma line_state_part i j arg s :
  line_state (do_log_part i arg s) j
  = if decide (i = j) then part_line arg (line_state s j) else line_state s j.
Proof.
  unfold line_state, do_log_part, part_line. destruct (decide (i = j)) as [<-|Hn].
  - destruct (pl_get i (log_current_line s)) eqn:Hc; cbn [when]; [|by rewrite Hc].
    destruct (_ <=? _); [destruct i; cbn in *; by f_equal|by destruct i].
  - destruct (pl_get i (log_current_line s)); cbn [when]; [|done].
    destruct (_ <=? _); destruct i, j; done.
Qed.

(** No message is unfinished. *)
Definition idle (r : stream) : Prop := line_buffer (log_buffer r) = pending r.

(** Parts that fit are one text at the end of the buffer; otherwise the buffer is as it
    was without the message. *)
Lemma part_lines_off ps r : foldl (λ l p, part_line p l) (false, r) ps = (false, r).
Proof. induction ps as [|p ps IH]; [done|]. exact IH. Qed.

Lemma sum_length_pos ps : 0 ≤ sum_length ps.
Proof. unfold sum_length. induction ps; cbn; lia. Qed.

Lemma part_lines i ps : ∀ r, stream_ok i r →
  foldl (λ l p, part_line p l) (true, r) ps
  = (if sum_length ps <=? stream_free r then (true, append_args ps r)
     else (false, (foldl (λ l p, part_line p l) (true, r) ps).2))
  ∧ (stream_free r < sum_length ps →
     ∃ c, let r' := r <| log_buffer := c |> in
       (foldl (λ l p, part_line p l) (true, r) ps).2 = mark_discarded r'
       ∧ stream_ok i r' ∧ line_buffer c = pending r ∧ pending r' = pending r).
Proof.
  induction ps as [|p ps IH]; intros r H; cbn [foldl].
  { cbn. assert (0 ≤ stream_free r) as Hf.
    { pose proof (ok_len _ _ (so_buffer _ _ H)). unfold stream_free, get_free. lia. }
    rewrite (proj2 (Z.leb_le _ _)) by done. split; [done|lia]. }
  pose proof (sum_length_pos ps) as Hps. unfold part_line at 2 4 6.
  assert (sum_length [p] = Z.of_nat (length p)) as -> by (cbn; lia).
  assert (sum_length (p :: ps) = Z.of_nat (length p) + sum_length ps) as -> by done.
  destruct (Z.leb_spec (Z.of_nat (length p)) (stream_free r)) as [Hp|Hp].
  - destruct (stream_append_ok i p r H Hp) as (H1 & H2 & H3).
    assert (stream_free (stream_append p r) = stream_free r - Z.of_nat (length p)) as Hf.
    { unfold stream_free, get_free. pose proof (length_contents _ _ (so_buffer _ _ H1)) as Hl.
      rewrite H2, length_app in Hl. pose proof (length_contents _ _ (so_buffer _ _ H)). lia. }
    destruct (IH _ H1) as [IH1 IH2]. rewrite Hf in IH1, IH2. split.
    + rewrite IH1 at 1. destruct (Z.leb_spec (sum_length ps) (stream_free r - Z.of_nat (length p))).
      * by rewrite (proj2 (Z.leb_le _ _)) by lia.
      * by rewrite (proj2 (Z.leb_gt _ _)) by lia.
    + intros Hlt. destruct IH2 as (c & E & H4 & H5 & H6); [lia|]. exists c. cbv zeta in *.
      rewrite H3 in H5, H6. done.
  - rewrite part_lines_off, (proj2 (Z.leb_gt _ _)) by lia. split; [done|]. intros _.
    destruct (rollback_ok i r H) as (H1 & H2 & H3). exists (log_buffer (rollback_msg r)). cbv zeta. done.
Qed.

Definition line_commit (l : bool * stream) : bool * stream :=
  if l.1 then (true, commit_stream l.2) else l.
Lemma line_state_commit i j s :
  line_state (do_log_commit i s) j
  = if decide (i = j) then line_commit (line_state s j) else line_state s j.
Proof.
  unfold line_state, do_log_commit, line_commit. cbn [fst snd].
  pose proof (proj1 (commit_frame i s)) as Hc.
  destruct (decide (i = j)) as [<-|Hn].
  - destruct (pl_get i (log_current_line s)) eqn:E; cbn [when]; [|by rewrite E].
    by rewrite Hc, E, stream_of_commit, decide_True.
  - destruct (pl_get i (log_current_line s)); cbn [when]; [|done].
    by rewrite Hc, stream_of_commit, decide_False.
Qed.

(** The parts of a message as a stream gets them. *)
Definition parts_of i (lvl : loglevel_t) (args : list text) s : list text :=
  match i with
  | DLOG_MAIN => if pl_get DLOG_MAIN (log_format_syslog s) then level_marker lvl :: args else args
  | DLOG_CONS => args
  end.

Lemma line_state_msg_parts b i : ∀ s,
  line_state (for_each b log_msg_part s) i = foldl (λ l p, part_line p l) (line_state s i) b.
Proof.
  induction b as [|p b IH]; intros s; [done|]. rewrite for_each_cons, IH. cbn [foldl]. f_equal.
  unfold log_msg_part. rewrite !line_state_part. by destruct i.
Qed.

Lemma line_state_begin i lvl a s :
  line_state (log_msg_begin lvl a s) i
  = foldl (λ l p, part_line p l) (level_ge lvl i s, stream_of s i)
      (parts_of i lvl [chars "dinit: "; a] s).
Proof.
  unfold log_msg_begin, seq. rewrite !for_each_cons, for_each_nil, !line_state_part.
  set (s1 := set_current_line _ _ s).
  assert (line_state s1 i = (level_ge lvl i s, stream_of s i)) as H1 by (by destruct i).
  change (log_format_syslog s1) with (log_format_syslog s).
  destruct (pl_get DLOG_MAIN (log_current_line s1)) eqn:Hc; destruct (pl_get DLOG_MAIN (log_format_syslog s)) eqn:Hf;
    cbn [andb when]; destruct i; cbn [decide dlog_eq_dec]; rewrite ?line_state_part;
    unfold parts_of; rewrite ?Hf; cbn [decide decide_rel dlog_eq_dec]; rewrite H1; cbn [foldl]; try done.
  change (level_ge lvl DLOG_MAIN s = false) in Hc. rewrite Hc. done.
Qed.

Lemma line_state_log_parts i lvl a b last s :
  line_state (log_parts lvl a b last s) i
  = line_commit (foldl (λ l p, part_line p l) (level_ge lvl i s, stream_of s i)
      (parts_of i lvl (chars "dinit: " :: a :: b ++ [last; [NEWLINE]]) s)).
Proof.
  unfold log_parts, log_msg_end. rewrite !for_each_cons, for_each_nil.
  assert (∀ j s, line_state (do_log_commit j (do_log_part j [NEWLINE] (do_log_part j last s))) i
    = if decide (j = i) then line_commit (part_line [NEWLINE] (part_line last (line_state s i)))
      else line_state s i) as He.
  { intros j s'. rewrite line_state_commit, !line_state_part. by destruct (decide (j = i)). }
  rewrite !He, line_state_msg_parts, line_state_begin.
  assert (parts_of i lvl (chars "dinit: " :: a :: b ++ [last; [NEWLINE]]) s
    = parts_of i lvl [chars "dinit: "; a] s ++ b ++ [last; [NEWLINE]]) as ->.
  { unfold parts_of. destruct i; [destruct (pl_get _ _)|]; done. }
  rewrite !foldl_app. by destruct i.
Qed.

Lemma stream_of_do_log i lvl c args s :
  stream_of (do_log lvl c args s) i
  = if level_ge lvl i s && (bool_decide (i = DLOG_MAIN) || c)
    then push_stream (parts_of i lvl args s) (stream_of s i) else stream_of s i.
Proof.
  unfold do_log, seq. set (s1 := set_current_line _ _ s).
  assert (∀ j, stream_of s1 j = stream_of s j) as H1 by done.
  assert (log_current_line (push_to_log DLOG_CONS args s1) = log_current_line s1
    ∧ log_format_syslog (push_to_log DLOG_CONS args s1) = log_format_syslog s) as [H2 H3].
  { unfold push_to_log. destruct (negb _); [done|]. destruct (_ <=? _); [|done].
    apply (commit_frame DLOG_CONS (on_stream DLOG_CONS (append_args args) s1)). }
  assert (pl_get DLOG_MAIN (log_current_line s1) = level_ge lvl DLOG_MAIN s) as H4 by done.
  rewrite H2, H4.
  unfold parts_of. destruct i.
  - rewrite bool_decide_true by done. cbn [orb]. rewrite andb_true_r.
    destruct (level_ge lvl DLOG_MAIN s) eqn:Hl; cbn [when].
    + unfold push_to_main. rewrite H3.
      destruct (pl_get DLOG_MAIN (log_format_syslog s)); rewrite !stream_of_push, H2.
      all: rewrite bool_decide_true, bool_decide_false by done; cbn [andb].
      all: by rewrite H4.
    + by rewrite stream_of_push, bool_decide_false.
  - rewrite (bool_decide_false (DLOG_CONS = DLOG_MAIN)) by done. cbn [orb].
    assert (stream_of (push_to_log DLOG_CONS args s1) DLOG_CONS
      = if level_ge lvl DLOG_CONS s && c then push_stream args (stream_of s DLOG_CONS)
        else stream_of s DLOG_CONS) as <- by (by rewrite stream_of_push, bool_decide_true).
    destruct (level_ge lvl DLOG_MAIN s); cbn [when]; [|done].
    unfold push_to_main. destruct (pl_get DLOG_MAIN (log_format_syslog _));
      by rewrite stream_of_push, bool_decide_false.
Qed.

Lemma concat_parts_of i lvl args s : whole_message args → whole_message (parts_of i lvl args s).
Proof.
  intros [u Hu]. unfold parts_of. destruct i; [destruct (pl_get _ _)|]; [|by exists u..].
  exists (level_marker lvl ++ u). cbn. by rewrite Hu, app_assoc.
Qed.

Lemma whole_log a b last : whole_message (chars "dinit: " :: a :: b ++ [last; [NEWLINE]]).
Proof.
  exists (chars "dinit: " ++ a ++ concat b ++ last). cbn [concat]. rewrite concat_app. cbn.
  rewrite ?app_nil_r. by rewrite !app_assoc.
Qed.

Lemma log_parts_ok lvl a b last s : logs_ok s → logs_ok (log_parts lvl a b last s).
Proof.
  intros H i. pose proof (line_state_log_parts i lvl a b last s) as E.
  destruct (concat_parts_of i lvl _ s (whole_log a b last)) as [u Hu].
  set (ps := parts_of i lvl _ s) in *. apply (f_equal snd) in E. cbn [line_state snd] in E. rewrite E.
  destruct (level_ge lvl i s); [|rewrite part_lines_off; apply H].
  destruct (part_lines i ps _ (H i)) as [E1 E2].
  destruct (Z.leb_spec (sum_length ps) (stream_free (stream_of s i))) as [Hf|Hf].
  - rewrite E1. cbn. destruct (append_args_ok i ps _ (H i) Hf) as (H1 & H2 & _).
    apply commit_stream_ok; [done|]. rewrite H2, Hu, app_assoc. apply ends_line_snoc.
  - destruct (E2 Hf) as (c & E3 & H1 & _). rewrite E1, E3. cbn.
    apply (stream_ok_ext i ((stream_of s i) <| log_buffer := c |>)); try done. exact (so_main _ _ H1).
Qed.
End laws.
