(* ===== verification/LogProps.v ===== *)
(** * Logging: properties

    The order of what is written, which messages are accepted, that the log is flushed,
    and the hand-over of the console to the services. *)

From S2P Require Import Prelude Text CpBuffer TimeVal ServiceData Service Simple Log LogLaws.

Section props.
Context {W : Type}.
Implicit Types (s : logs W) (pull : logs W → logs W) (i j : dlog).

(** ** Runs of the log *)

Variant log_step pull : logs W → logs W → Prop :=
  | step_event i s : log_step pull s (stream_event pull i s)
  | step_log lvl to_cons msg s : log_step pull s (log lvl to_cons msg s)
  | step_log_parts lvl a b last s : log_step pull s (log_parts lvl a b last s)
  | step_started name s : log_step pull s (log_service_started name s)
  | step_failed name dep_failed s : log_step pull s (log_service_failed name dep_failed s)
  | step_stopped name s : log_step pull s (log_service_stopped name s)
  | step_enable b s : log_step pull s (enable_console_log pull b s)
  | step_init b s : log_step pull s (init_log pull b s)
  | step_main fd s : log_step pull s (setup_main_log fd s)
  | step_discard s : log_step pull s (discard_console_log_buffer s)
  | step_close s : log_step pull s (close_log s)
  | step_other s s' : log_stream s' = log_stream s → log_step pull s s'.

(** The streams at the start; nothing is known of the results of the writes, but that
    [writev] takes all or nothing. *)
Definition log_start s : Prop := ∀ i, ∃ ws wvs, (∀ n, Takes n ∈ wvs → LOG_SIZE ≤ n) ∧
  stream_of s i = stream_new <| write_results := ws |> <| writev_results := wvs |>.

Lemma log_start_ok s : log_start s → logs_ok s.
Proof.
  intros H i. destruct (H i) as (ws & wvs & Hw & ->).
  assert (stream_ok i stream_new) as [H1 H2 H3 H4 H5 H6 H7 H8]; [|by split; rsimpl].
  split; try done; [by left| |by intros n ?%not_elem_of_nil].
  exists []. split_and!; [done|done|destruct i; [done|exact sublist_nil]].
Qed.

Lemma log_step_ok pull s s' : hand_over_ok pull → log_step pull s s' → logs_ok s → logs_ok s'.
Proof.
  intros Hp Hs H. destruct Hs.
  - by apply stream_event_ok.
  - apply do_log_ok; [done|]. exact (whole_snoc [chars "dinit: "; msg] []).
  - by apply log_parts_ok.
  - unfold log_service_started, seq. apply do_log_main_ok, (whole_snoc [_; _]).
    apply do_log_cons_ok; [done|]. exact (whole_snoc [_; name] []).
  - unfold log_service_failed, seq. apply do_log_main_ok, (whole_snoc [_; _]).
    apply do_log_cons_ok; [done|]. exact (whole_snoc [_; name] []).
  - unfold log_service_stopped, seq. apply do_log_main_ok, (whole_snoc [_; _]).
    apply do_log_cons_ok; [done|]. exact (whole_snoc [_; name] []).
  - by apply enable_console_log_ok.
  - by apply init_log_ok.
  - by apply setup_main_log_ok.
  - by apply discard_console_ok.
  - by apply close_log_ok.
  - intros i. unfold stream_of. rewrite H0. apply H.
Qed.

(** What the services do when the console is handed over to them is a sequence of calls of
    the log. *)
Definition uses_log pull : Prop := ∀ s, rtc (log_step (λ s, s)) s (pull s).

Lemma uses_log_ok pull : uses_log pull → hand_over_ok pull.
Proof.
  intros Hu s Hs _ _. revert Hs. induction (Hu s) as [|s0 s1 s2 H1 _ IH]; [done|].
  intros Hs. apply IH. by apply (log_step_ok (λ s, s) s0 s1); [by intros ?| |].
Qed.

(** C27: If each writev on a log stream takes the whole line or nothing (log_start), then
    however messages, events of the streams and hand-overs of the console follow each other
    (services that are handed the console only call the operations of the log), what has
    been written to a stream is whole lines and whole notices of discarded messages, but for
    the rest of a notice. What was written to the main log, followed by what waits in its
    buffer, is exactly the accepted messages in order; the console has some of them, in
    order, as its buffer may be discarded. The buffer never overflows and what waits in it
    ends with a line. (After a partial writev the code loses the rest of the line, dinit-
    log.cc:247, see log_defects.) *)
Theorem log_output_in_order pull s s' :
  uses_log pull → log_start s → rtc (log_step pull) s s' → ∀ i,
  let r := stream_of s' i in
  output_ok i (sent r ++ notice_rest r) (committed r) (pending r)
  ∧ ends_line (pending r) ∧ 0 ≤ current_index r ≤ length_ (log_buffer r) ≤ LOG_SIZE.
Proof.
  intros Hp%uses_log_ok H0 Hr i. cbv zeta. apply log_start_ok in H0.
  assert (logs_ok s') as H by (induction Hr; eauto using log_step_ok).
  destruct (H i) as [H1 H2 H3 H4 H5 H6 H7 H8]. pose proof (ok_len _ _ H1).
  split; [done|]. split; [done|lia].
Qed.

(** *** What becomes of a message *)

Lemma sum_length_concat args : sum_length args = Z.of_nat (length (concat args)).
Proof. unfold sum_length. induction args as [|a args IH]; cbn; [done|]. rewrite length_app. lia. Qed.

Lemma push_stream_fits i args r : stream_ok i r → idle r → whole_message args →
  Z.of_nat (length (concat args)) ≤ stream_free r →
  let r' := push_stream args r in
  pending r' = pending r ++ concat args ∧ committed r' = committed r ++ concat args ∧ idle r'
  ∧ discarded r' = discarded r ∧ sent r' = sent r
  ∧ enabled r' = enabled r || bool_decide (pending r = []) && negb (release r).
Proof.
  intros H Hi [u Hu] Hf. rewrite <- sum_length_concat in Hf. cbv zeta. unfold push_stream.
  rewrite (proj2 (Z.leb_le _ _)) by done.
  destruct (append_args_ok i args r H Hf) as (H1 & H2 & H3). set (r1 := append_args args r) in *.
  assert (∃ c, r1 = r <| log_buffer := c |>) as [c Hc].
  { unfold r1, append_args. clear. revert r. induction args as [|a args IH]; intros r.
    { exists (log_buffer r). by destruct r. }
    rewrite for_each_cons. destruct (IH (stream_append a r)) as [c ->]. by exists c. }
  destruct (commit_index_ok i r1 H1) as (_ & H4 & H5).
  { rewrite H2, Hu, app_assoc. apply ends_line_snoc. }
  assert (committed (commit_index r1) = committed r ++ concat args) as H6.
  { unfold commit_index. rsimpl. rewrite extract_all by apply (so_buffer _ _ H1).
    rewrite H2, Hi. rewrite Hc. rsimpl. rewrite drop_app_length'; [done|].
    pose proof (pending_length i r H). lia. }
  assert (pending (commit_stream r1) = pending r ++ concat args
    ∧ idle (commit_stream r1) ∧ committed (commit_stream r1) = committed r ++ concat args
    ∧ discarded (commit_stream r1) = discarded r ∧ sent (commit_stream r1) = sent r) as (E1 & E2 & E3 & E4 & E5).
  { unfold idle, commit_stream. destruct (_ && _).
    all: repeat match goal with |- context [pending (?x <| enabled := true |>)] =>
           change (pending (x <| enabled := true |>)) with (pending x) end; rsimpl.
    all: rewrite H4, H5, H6, H2, Hi; split_and!; try done; unfold commit_index; rewrite Hc; by rsimpl. }
  split_and!; try done. unfold commit_stream.
  assert (current_index r1 = current_index r ∧ release r1 = release r) as [-> ->]
    by (rewrite Hc; by rsimpl).
  assert ((current_index r =? 0) = bool_decide (pending r = [])) as ->.
  { pose proof (pending_length i r H) as Hl. case_bool_decide as Hp.
    - rewrite Hp in Hl. cbn in Hl. lia.
    - destruct (pending r); [done|]. cbn in Hl. lia. }
  destruct (_ && _); rsimpl; [by rewrite orb_true_r|].
  rewrite orb_false_r. unfold commit_index. rewrite Hc. by rsimpl.
Qed.

(** A message that is logged goes to each stream whose level it reaches (the console also
    if it is to go there) as a whole, with its prefix, or not at all: if there is no space for it, only
    the mark for a discarded message is set, and nothing else of the stream changes.  A stream that
    was empty and has not been released is enabled.  The other streams do not change. *)
Theorem log_messages_whole lvl to_cons msg s i :
  logs_ok s → idle (stream_of s i) →
  let r := stream_of s i in
  let r' := stream_of (log lvl to_cons msg s) i in
  let m := concat (parts_of i lvl [chars "dinit: "; msg; [NEWLINE]] s) in
  if level_ge lvl i s && (bool_decide (i = DLOG_MAIN) || to_cons) then
    if Z.of_nat (length m) <=? stream_free r then
      pending r' = pending r ++ m ∧ committed r' = committed r ++ m ∧ idle r'
      ∧ discarded r' = discarded r ∧ sent r' = sent r
      ∧ enabled r' = enabled r || bool_decide (pending r = []) && negb (release r)
    else r' = r <| discarded := true |>
  else r' = r.
Proof.
  intros H Hi. cbv zeta. unfold log. rewrite stream_of_do_log. destruct (_ && _); [|done].
  destruct (Z.leb_spec (Z.of_nat (length (concat (parts_of i lvl [chars "dinit: "; msg; [NEWLINE]] s))))
    (stream_free (stream_of s i))) as [Hf|Hf].
  - apply (push_stream_fits i); [done|done| |done].
    apply concat_parts_of. exact (whole_snoc [chars "dinit: "; msg] []).
  - unfold push_stream. by rewrite sum_length_concat, (proj2 (Z.leb_gt _ _)).
Qed.

(** A message that is logged in parts has the effect of the message with all parts at
    once: the streams differ at most in bytes of the array behind the end of the buffer. *)
Theorem log_parts_as_one lvl a b last s i :
  logs_ok s → idle (stream_of s i) →
  let r1 := stream_of (log_parts lvl a b last s) i in
  let r2 := stream_of (do_log lvl true (chars "dinit: " :: a :: b ++ [last; [NEWLINE]]) s) i in
  r1 = r2 <| log_buffer := log_buffer r1 |>
  ∧ line_buffer (log_buffer r1) = line_buffer (log_buffer r2).
Proof.
  intros H Hi. cbv zeta. rewrite stream_of_do_log, orb_true_r, andb_true_r.
  pose proof (line_state_log_parts i lvl a b last s) as E. apply (f_equal snd) in E.
  cbn [line_state snd] in E. rewrite E. clear E. set (ps := parts_of i lvl _ s).
  destruct (level_ge lvl i s); [|rewrite part_lines_off; cbn; by destruct (stream_of s i)].
  destruct (part_lines i ps _ (H i)) as [E1 E2]. unfold push_stream.
  destruct (Z.leb_spec (sum_length ps) (stream_free (stream_of s i))) as [Hf|Hf].
  - rewrite E1. cbn. by destruct (commit_stream _).
  - destruct (E2 Hf) as (c & E3 & H1 & H2 & H3). rewrite E1, E3. cbn [line_commit fst snd].
    by rewrite Hi.
Qed.

(** ** Flushing *)

(** What is still to be written: a notice and the lines. *)
Definition to_write (r : stream) : text :=
  (if special r then notice_rest r else if discarded r then discard_notice else []) ++ pending r.
Definition work (r : stream) : nat :=
  ((if special r || discarded r then 1 else 0) + length (pending r))%nat.
Definition active (r : stream) : Prop :=
  registered r = true ∧ release r = false ∧ write_results r = [] ∧ writev_results r = []
  ∧ (enabled r = true ∨ work r = O).

(** One event of an active stream, with the special message and without. *)
Lemma active_special pull s i : let r := stream_of s i in
  stream_ok i r → special r = true → write_results r = [] → release r = false →
  let '(s', a) := special_event pull i s in
  let r' := stream_of s' i in
  a = REARM ∧ stream_ok i r' ∧ special r' = false ∧ discarded r' = false
  ∧ sent r' = sent r ++ notice_rest r ∧ pending r' = pending r
  ∧ registered r' = registered r ∧ release r' = false ∧ write_results r' = []
  ∧ writev_results r' = writev_results r.
Proof.
  cbv zeta. set (r := stream_of s i). intros H Hs Hw Hr.
  pose proof (special_write_ok i r H Hs) as Ho. cbv zeta in Ho. unfold special_event, seq. fold r.
  assert (drop (Z.to_nat (msg_index r)) discard_notice = notice_rest r) as ->
    by (unfold notice_rest; by rewrite Hs).
  assert (length (notice_rest r) = S (find_nl (notice_rest r))) as Hl.
  { unfold notice_rest. rewrite Hs. pose proof (so_special _ _ H Hs).
    rewrite notice_nl, length_drop by lia. lia. }
  rewrite take_ge in * by lia. unfold do_write, write_outcome in *. rewrite Hw in *.
  rewrite (proj2 (Z.ltb_lt _ _)) in * by lia. destruct Ho as [_ Ho].
  rewrite !stream_of_same. rsimpl. rewrite Hr. split; [done|]. rewrite !stream_of_same.
  split; [done|]. rsimpl. cbn [sent_bytes]. rewrite take_ge by lia. by rewrite Hw.
Qed.

Lemma active_line pull s i : let r := stream_of s i in
  stream_ok i r → special r = false → writev_results r = [] → release r = false →
  let '(s', a) := line_event pull i s in
  let r' := stream_of s' i in
  if current_index r =? 0 then s' = s ∧ a = DISARM
  else (a = if current_index r' =? 0 then DISARM else REARM)
    ∧ stream_ok i r' ∧ special r' = false ∧ discarded r' = discarded r
    ∧ sent r' ++ pending r' = sent r ++ pending r
    ∧ (length (pending r') < length (pending r))%nat
    ∧ registered r' = registered r ∧ release r' = false ∧ writev_results r' = []
    ∧ write_results r' = write_results r.
Proof.
  cbv zeta. set (r := stream_of s i). intros H Hs Hw Hr.
  unfold line_event. fold r. destruct (_ =? 0) eqn:H0.
  { unfold release_console. fold r. by rewrite Hr. }
  apply Z.eqb_neq in H0. pose proof (line_write_ok i r H Hs H0) as Ho. fold r in Ho.
  destruct (first_line _) as [data wc]. unfold do_writev, write_outcome in *. rewrite Hw in *.
  destruct Ho as (_ & _ & Hc & Hok & Hd & Hd0 & Hp). rewrite Hc. cbn [negb sent_bytes] in *.
  rewrite take_ge in * by lia. unfold seq. set (r1 := set sent _ _) in *.
  set (r2 := set current_index _ _) in Hok, Hp.
  match goal with |- context [stream_of ?x i] => set (s2 := x) end.
  assert (stream_of s2 i = r2) as E by (unfold s2; by rewrite !stream_of_same).
  assert (release r2 = false) as Hr2 by (unfold r2, r1; by rsimpl).
  assert (release_console pull i s2 = s2) as Hrc by (unfold release_console; by rewrite E, Hr2).
  rewrite Hrc, E, Hr2, orb_false_r.
  assert ((if current_index r2 =? 0 then (s2, DISARM) else (s2, REARM))
    = (s2, if current_index r2 =? 0 then DISARM else REARM)) as -> by (by destruct (current_index r2 =? 0)).
  cbv beta iota. rewrite E. split; [done|]. split; [done|].
  assert (special r2 = special r ∧ discarded r2 = discarded r ∧ sent r2 = sent r ++ data
    ∧ registered r2 = registered r ∧ writev_results r2 = tail (writev_results r)
    ∧ write_results r2 = write_results r) as (-> & -> & -> & -> & -> & ->)
    by (unfold r2, r1; by rsimpl).
  rewrite Hs, Hp, Hw. split_and!; try done.
  - rewrite <- app_assoc. f_equal. rewrite Hd at 1. by rewrite take_drop.
  - assert (0 < length data)%nat by (destruct data; [done|cbn; lia]).
    pose proof (f_equal length Hd) as Hl. rewrite length_take in Hl. rewrite length_drop. lia.
Qed.

Lemma active_event pull s i : let r := stream_of s i in
  stream_ok i r → active r →
  let r' := stream_of (stream_event pull i s) i in
  stream_ok i r' ∧ active r' ∧ sent r' ++ to_write r' = sent r ++ to_write r
  ∧ (work r' < work r ∨ work r' = O)%nat.
Proof.
  cbv zeta. set (r := stream_of s i). intros H (Ha & Hr & Hw & Hwv & He).
  unfold stream_event. fold r. rewrite Ha. cbn [andb].
  destruct (enabled r) eqn:Hen; [|destruct He as [|He]; [done|]; fold r; unfold active; auto 10].
  unfold fd_event, seq. pose proof (begin_special_ok i r H) as H1.
  assert (stream_of (on_stream i begin_special s) i = begin_special r) as E by apply stream_of_same.
  set (s1 := on_stream i begin_special s) in *. rewrite E.
  assert (special (begin_special r) = special r || discarded r
    ∧ to_write (begin_special r) = to_write r ∧ work (begin_special r) = work r
    ∧ registered (begin_special r) = true ∧ release (begin_special r) = false
    ∧ write_results (begin_special r) = [] ∧ writev_results (begin_special r) = []
    ∧ sent (begin_special r) = sent r
    ∧ discarded (begin_special r) = special r && discarded r) as (B1 & B2 & B3 & B4 & B5 & B6 & B7 & B8 & B9).
  { unfold begin_special, to_write, work, notice_rest. rewrite (so_partway _ _ H). cbn [negb andb].
    destruct (special r) eqn:Hs; cbn [negb andb orb]; [by rewrite Hs|].
    destruct (discarded r) eqn:Hd; [|by rewrite Hs, Hd]. by rsimpl. }
  rewrite (so_partway _ _ H1). cbn [negb andb]. rewrite <- E in *.
  destruct (special (stream_of s1 i)) eqn:Hs.
  - pose proof (active_special pull s1 i H1 Hs B6 B5) as Hsp.
    destruct (special_event pull i s1) as [s2 a]. cbv zeta in Hsp.
    destruct Hsp as (-> & P1 & P2 & P3 & P4 & P5 & P6 & P7 & P8 & P9).
    assert (stream_of (set_enabled i true s2) i = (stream_of s2 i) <| enabled := true |>) as ->
      by apply stream_of_same.
    split; [apply (stream_ok_ext i (stream_of s2 i)); try done; intros _ _; by rsimpl|].
    split; [unfold active; rsimpl; rewrite P6, P7, P8, P9, B4, B7; auto 10|].
    rewrite <- B2, <- B3, <- B8. unfold to_write, work, notice_rest, pending in *. rsimpl.
    rewrite P2, P3, Hs in *. cbn [orb]. rewrite P4, P5. split; [by rewrite <- app_assoc|left; lia].
  - symmetry in B1. apply orb_false_iff in B1 as [B1 B1']. rewrite B1 in B9. cbn [andb] in B9.
    pose proof (active_line pull s1 i H1 Hs B7 B5) as Hl.
    destruct (line_event pull i s1) as [s2 a]. cbv zeta in Hl.
    assert (∀ b, stream_of (set_enabled i b s2) i = (stream_of s2 i) <| enabled := b |>) as Hset
      by (intros b; apply stream_of_same).
    destruct (current_index (stream_of s1 i) =? 0) eqn:H0.
    + destruct Hl as [-> ->]. rewrite Hset. apply Z.eqb_eq in H0.
      assert (pending (stream_of s1 i) = []) as Hp.
      { pose proof (pending_length i _ H1) as Hl. destruct (pending _); [done|]. cbn in Hl. lia. }
      assert (work (stream_of s1 i) = 0%nat) as Hw0 by (unfold work; by rewrite Hs, B9, Hp).
      split; [apply (stream_ok_ext i (stream_of s1 i)); try done; by intros _ _; rsimpl|].
      split; [unfold active; rsimpl; rewrite B4, B5, B6, B7; split_and!; try done; right; exact Hw0|].
      rewrite <- B2, <- B3, <- B8. split; [done|by right].
    + destruct Hl as (-> & P1 & P2 & P3 & P4 & P5 & P6 & P7 & P8 & P9).
      assert (∃ b, (if current_index (stream_of s2 i) =? 0 then b = false else b = true)
        ∧ (stream_of match (if current_index (stream_of s2 i) =? 0 then DISARM else REARM) with
            | REARM => set_enabled i true s2 | DISARM => set_enabled i false s2
            | REMOVE => deregister i s2 end i) = (stream_of s2 i) <| enabled := b |>) as (b & Hb & ->).
      { destruct (current_index (stream_of s2 i) =? 0); [by exists false|by exists true]. }
      split; [apply (stream_ok_ext i (stream_of s2 i)); try done; intros _ _; by rsimpl|].
      assert (work ((stream_of s2 i) <| enabled := b |>) = length (pending (stream_of s2 i))) as Hwk.
      { unfold work. rsimpl. by rewrite P2, P3, B9. }
      split.
      * unfold active. rsimpl. rewrite P6, P7, P8, P9. split_and!; try done.
        destruct (current_index (stream_of s2 i) =? 0) eqn:Hz; [right|by left].
        etrans; [exact Hwk|]. pose proof (pending_length i _ P1). lia.
      * rewrite <- B2, <- B3, <- B8, Hwk. unfold to_write, work. rsimpl. rewrite P2, P3, B9, Hs. cbn [orb app].
        split; [|left; lia]. by rewrite <- P4.
Qed.

(** C28: If the calls of [write] and [writev] take what they are given, an active stream
    writes everything: after as many events as there are bytes in the buffer, and one, the
    notice of a discarded message and then all lines have been written, and the stream is flushed. *)
Theorem log_flushes pull s i :
  let r := stream_of s i in
  stream_ok i r → active r →
  let r' := stream_of (Nat.iter (S (length (pending r))) (stream_event pull i) s) i in
  sent r' = sent r ++ to_write r ∧ current_index r' = 0.
Proof.
  cbv zeta. intros H Ha.
  assert (∀ n s, stream_ok i (stream_of s i) → active (stream_of s i) → (work (stream_of s i) ≤ n)%nat →
    let r' := stream_of (Nat.iter n (stream_event pull i) s) i in
    stream_ok i r' ∧ work r' = 0%nat ∧ sent r' ++ to_write r' = sent (stream_of s i) ++ to_write (stream_of s i)) as Hn.
  { clear. induction n as [|n IH]; intros s H Ha Hw; cbv zeta; [split; [done|]; split; [by apply Nat.le_0_r|done]|].
    destruct (active_event pull s i H Ha) as (H1 & H2 & H3 & H4). rewrite Nat.iter_succ_r.
    destruct (IH _ H1 H2) as (H5 & H6 & H7); [lia|]. split; [done|]. split; [done|]. by rewrite H7. }
  destruct (Hn (S (length (pending (stream_of s i)))) s H Ha) as (H1 & H2 & H3).
  { unfold work. destruct (_ || _); lia. }
  unfold work in H2. set (r' := stream_of (Nat.iter _ _ _) i) in *.
  destruct (special r' || discarded r') eqn:E; [lia|]. apply orb_false_iff in E as [E1 E2].
  unfold to_write at 1 in H3. rewrite E1, E2 in H3. pose proof (pending_length i r' H1).
  destruct (pending r'); [|cbn in H2; lia]. rewrite !app_nil_r in H3. split; [done|]. cbn in *. lia.
Qed.
End props.

(** ** The service set

    [pull_console_queue] of the service set as the log calls it: what the services log, and
    what they do to the console log, is replayed from the actions of the service set.  [other]
    has the texts of the remaining messages. *)

Section services.
Context {X : Type} `{!ServiceVirtual X} `{!ServiceBring X} (other : action → option (loglevel_t * text)).
Implicit Types (s : logs (sys X)).

Definition name_in s (x : sid) : text := chars (service_name (svc (services s) x)).

Definition replay_action (a : action) s : logs (sys X) :=
  match a with
  | Log_started x => log_service_started (name_in s x) s
  | Log_failed x dep_failed => log_service_failed (name_in s x) dep_failed s
  | Log_stopped x => log_service_stopped (name_in s x) s
  | Discard_console_log_buffer => discard_console_log_buffer s
  | Enable_console_log b => Log.enable_console_log (λ s, s) b s
  | a => match other a with
         | Some (lvl, msg) => log lvl true msg s
         | None => s
         end
  end.

Definition pull_from_services (n : nat) s : logs (sys X) :=
  let st := pull_console_queue (process_queues n) ((services s) <| trace := [] |>) in
  for_each (rev (trace st)) replay_action (s <| services := st |>).

Lemma replay_action_step a s : rtc (log_step (λ s, s)) s (replay_action a s).
Proof.
  destruct a; cbn [replay_action].
  all: try (destruct (other _) as [[??]|]; [|apply rtc_refl]).
  all: apply rtc_once; constructor.
Qed.

Lemma pull_from_services_uses n : uses_log (pull_from_services n).
Proof.
  intros s. unfold pull_from_services. cbv zeta. set (l := rev _).
  apply (rtc_l _ _ (s <| services := pull_console_queue (process_queues n) ((services s) <| trace := [] |>) |>));
    [by apply step_other|].
  generalize (s <| services := pull_console_queue (process_queues n) ((services s) <| trace := [] |>) |>).
  induction l as [|a l IH]; intros s'; [apply rtc_refl|]. rewrite for_each_cons.
  etrans; [apply replay_action_step|apply IH].
Qed.
Lemma pull_from_services_ok n : hand_over_ok (pull_from_services n).
Proof. apply uses_log_ok, pull_from_services_uses. Qed.
End services.

(** ** Concrete logs *)

Definition simple_pull : logs simple_sys → logs simple_sys := pull_from_services (λ _, None) 5.

(** The console can be written to once, and then not at first. *)
Definition quiet_logs : logs simple_sys :=
  let! s := init_log simple_pull false (logs_new simple_init) in
  setup_log_console_handoff s.
Definition busy_logs : logs simple_sys :=
  let! s := on_stream DLOG_CONS (λ r, r <| writev_results := [Takes 4096; Try_again] |>) (logs_new simple_init) in
  let! s := init_log simple_pull false s in
  let! s := log loglevel_t.ERROR true (chars "one") s in
  let! s := stream_event simple_pull DLOG_CONS s in
  let! s := log loglevel_t.ERROR true (chars "two") s in
  stream_event simple_pull DLOG_CONS s.

Lemma busy_steps : rtc (log_step simple_pull)
  (on_stream DLOG_CONS (λ r, r <| writev_results := [Takes 4096; Try_again] |>) (logs_new simple_init))
  busy_logs.
Proof.
  unfold busy_logs, seq. do 2 (eapply rtc_r; [|apply step_event]; eapply rtc_r; [|apply step_log]).
  eapply rtc_r; [apply rtc_refl|apply step_init].
Qed.

Lemma log_output_in_order_witness :
  sent (stream_of busy_logs DLOG_CONS) = chars "dinit: one" ++ [NEWLINE]
  ∧ pending (stream_of busy_logs DLOG_CONS) = chars "dinit: two" ++ [NEWLINE]
  ∧ let r := stream_of busy_logs DLOG_MAIN in
    output_ok DLOG_MAIN (sent r ++ notice_rest r) (committed r) (pending r).
Proof.
  split; [vm_compute; reflexivity|]. split; [vm_compute; reflexivity|].
  refine (proj1 (log_output_in_order simple_pull _ busy_logs (pull_from_services_uses _ 5) _ busy_steps DLOG_MAIN)).
  intros [|]; [by exists [], []; split; [intros n ?%not_elem_of_nil|]|].
  exists [], [Takes 4096; Try_again]. split; [|done].
  intros n Hn. apply elem_of_cons in Hn as [[= ->]|Hn]; [done|].
  apply list_elem_of_singleton in Hn. done.
Defined.

Lemma start_ok : logs_ok (logs_new simple_init).
Proof.
  apply log_start_ok. intros i. exists [], []. split; [by intros n ?%not_elem_of_nil|by destruct i].
Qed.

Lemma log_messages_whole_witness :
  let s := logs_new simple_init in
  pending (stream_of (log loglevel_t.NOTICE true (chars "hello") s) DLOG_MAIN)
  = pending (stream_of s DLOG_MAIN) ++ chars "<29>dinit: hello" ++ [NEWLINE].
Proof. exact (proj1 (log_messages_whole loglevel_t.NOTICE true (chars "hello") _ DLOG_MAIN start_ok eq_refl)). Defined.

Lemma log_parts_as_one_witness :
  let s := logs_new simple_init in
  line_buffer (log_buffer (stream_of (log_parts loglevel_t.ERROR (chars "Service ") [chars "x"]
    (chars " failed") s) DLOG_CONS))
  = line_buffer (log_buffer (stream_of (do_log loglevel_t.ERROR true
      [chars "dinit: "; chars "Service "; chars "x"; chars " failed"; [NEWLINE]] s) DLOG_CONS)).
Proof.
  exact (proj2 (log_parts_as_one loglevel_t.ERROR (chars "Service ") [chars "x"] (chars " failed") _
    DLOG_CONS start_ok eq_refl)).
Defined.

(** A stream with two lines and a message that was discarded. *)
Definition waiting_logs : logs simple_sys :=
  let! s := init_log simple_pull false (logs_new simple_init) in
  let! s := log loglevel_t.ERROR true (chars "one") s in
  let! s := log loglevel_t.ERROR true (chars "two") s in
  log loglevel_t.ERROR true (replicate 5000 65) s.
Lemma waiting_ok : logs_ok waiting_logs.
Proof.
  assert (∀ s s', log_step simple_pull s s' → logs_ok s → logs_ok s') as Hs.
  { intros s s'. apply log_step_ok, pull_from_services_ok. }
  unfold waiting_logs, seq. do 3 (eapply Hs; [apply step_log|]). eapply Hs; [apply step_init|]. apply start_ok.
Qed.

Lemma log_flushes_witness :
  let r := stream_of waiting_logs DLOG_CONS in
  to_write r = discard_notice ++ chars "dinit: one" ++ [NEWLINE] ++ chars "dinit: two" ++ [NEWLINE]
  ∧ sent (stream_of (Nat.iter (S (length (pending r))) (stream_event simple_pull DLOG_CONS) waiting_logs)
      DLOG_CONS) = sent r ++ to_write r.
Proof.
  split; [vm_compute; reflexivity|].
  refine (proj1 (log_flushes simple_pull _ DLOG_CONS (waiting_ok _) _)).
  unfold active. vm_compute. auto 10.
Defined.

(** ** What does not hold *)

(** A service that fails to start when it gets the console, and gives it back. *)
Definition failing_pull (s : logs unit) : logs unit :=
  let! s := log_service_failed (chars "getty") false s in
  Log.enable_console_log (λ s, s) true (discard_console_log_buffer s).
Definition console_logs (clock : Z) : logs unit :=
  let! s := init_log failing_pull false (logs_new ()) in
  (setup_log_console_handoff s) <| now := Time_val clock 0 |>.

(** The writes of the console take only a part of the first line. *)
Definition cut_logs : logs unit :=
  let! s := on_stream DLOG_CONS (λ r, r <| writev_results := [Takes 3] |>) (console_logs 0) in
  let! s := log loglevel_t.ERROR true (chars "one") s in
  stream_event failing_pull DLOG_CONS s.

(** Four defects of the log.  When [writev] takes a part of a line, all of it is removed from
    the buffer, but it stays in [current_index]: the rest is lost, the stream writes nothing again and
    again, and when a later message is dropped half way, old bytes of the array become part of the
    buffer.  A message that is discarded while the notice about earlier ones is being
    written is not announced.  When a service gives the console back at once, the messages that
    were logged meanwhile are discarded, although the console was not away.  And if
    they are not discarded, the console log is disabled with a message in its buffer,
    and no further message enables it. *)
Theorem log_defects :
  (sent (stream_of cut_logs DLOG_CONS) = chars "din" ∧ current_index (stream_of cut_logs DLOG_CONS) = 11
   ∧ line_buffer (log_buffer (stream_of cut_logs DLOG_CONS)) = []
   ∧ (let s := stream_event failing_pull DLOG_CONS cut_logs in
      sent (stream_of s DLOG_CONS) = chars "din" ∧ enabled (stream_of s DLOG_CONS) = true
      ∧ is_log_flushed s = false)
   ∧ length (line_buffer (log_buffer (stream_of
       (log_parts loglevel_t.ERROR (chars "a") [] (replicate 5000 65) cut_logs) DLOG_CONS))) = 11%nat)
  ∧ (let s := on_stream DLOG_CONS (λ r, r <| write_results := [Takes 5] |> <| discarded := true |>)
                (set_enabled DLOG_CONS true (console_logs 0)) in
     let s := stream_event failing_pull DLOG_CONS s in
     let s := stream_event failing_pull DLOG_CONS (on_stream DLOG_CONS mark_discarded s) in
     sent (stream_of s DLOG_CONS) = discard_notice ∧ discarded (stream_of s DLOG_CONS) = false)
  ∧ (let s := Log.enable_console_log failing_pull false (console_logs 100) in
     pending (stream_of s DLOG_CONS) = [] ∧ sent (stream_of s DLOG_CONS) = []
     ∧ committed (stream_of s DLOG_CONS) = chars "[FAILED] getty" ++ [NEWLINE])
  ∧ (let s := Log.enable_console_log failing_pull false (console_logs 0) in
     release (stream_of s DLOG_CONS) = false ∧ enabled (stream_of s DLOG_CONS) = false
     ∧ pending (stream_of s DLOG_CONS) = chars "[FAILED] getty" ++ [NEWLINE]
     ∧ enabled (stream_of (log loglevel_t.ERROR true (chars "more") s) DLOG_CONS) = false).
Proof. split_and!; vm_compute; split_and?; reflexivity. Qed.
