(* ===== verification/ChildProc.v ===== *)
(** * The child process

    [run_child_proc] of run-child-proc.cc: what the child does between [fork] and [exec].  The
    process is a record with its table of descriptors and what else the calls change; the
    results of the calls that can fail are a list.  A step returns whether the function goes
    on; otherwise it goes to [failure_out], which reports the error to the parent.  As
    elsewhere, the optional features (cgroups, capabilities, I/O priority, OOM adjustment) are not part
    of the build; supplementary groups are ([USE_INITGROUPS]). *)

From S2P Require Import Prelude Text.
From S2P Require SettingValue Env.

Module exec_stage.
Variant t :=
  | ARRANGE_FDS | READ_ENV_FILE | SET_NOTIFYFD_VAR | SETUP_ACTIVATION_SOCKET
  | SETUP_CONTROL_SOCKET | CHDIR | SETUP_STDINOUTERR | ENTER_CGROUP | SET_RLIMITS | SET_UIDGID
  | OPEN_LOGFILE | SET_CAPS | SET_PRIO | DO_EXEC.
End exec_stage.
Abbreviation exec_stage := exec_stage.t.

(** What a descriptor refers to. *)
Variant file :=
  | Status_pipe | Notify_pipe | Control_socket | Activation_socket | Output_pipe | Input_pipe
  | Opened_path (path : text) | Other_file (n : Z).
#[export] Instance file_eq_dec : EqDecision file.
Proof. solve_decision. Defined.

Definition EBADF : Z := 9.
Definition ENOENT : Z := 2.
Definition EPERM : Z := 1.
Definition NO_ID : Z := 2 ^ 32 - 1.      (* uid_t(-1), gid_t(-1) *)

(** [run_proc_params] and the members of the service that are used; -1 for a
    descriptor that is not there. *)
Record params := Params {
  args : list text;
  working_dir : text;
  logfile : text;
  on_console : bool;
  in_foreground : bool;
  unmask_sigint : bool;
  nice : option Z;
  force_notify_fd : Z;
  notify_var : text;
  uid : Z;
  gid : Z;
  rlimits : list SettingValue.service_rlimits;
  input_fd : Z;
  log_to_file : bool;            (* log_type is LOGFILE *)
  logfile_uid : Z;
  logfile_gid : Z;
  logfile_perms : Z
}.

(** What the process asks of the system. *)
Record child_host := Child_host {
  getpid : Z;
  no_session_leader : bool;                       (* tcgetsid(0) fails *)
  orig_signal_mask : gset Z;
  getpwuid : Z → (text * Z) + Z;                  (* name and group, or errno *)
  initgroups_of : text → Z → list Z;
  environ : list text;
  main_env : Env.environment
}.

Record exec_image := Exec_image {
  exec_args : list text;
  exec_env : list (option text);
  exec_fds : gmap Z file
}.
Variant outcome :=
  | Running
  | Executed (image : exec_image)
  | Exited (report : exec_stage * Z) (told : bool).   (* told: the report was written *)

(** The process: the local variables that change, and its state in the system. *)
Record child := Child {
  wpipefd : Z;
  csfd : Z;
  notify_fd : Z;
  socket_fd : Z;
  output_fd : Z;
  service_env : Env.environment;
  proc_env : list (option text);
  stage : exec_stage;
  errno : Z;
  results : list (option Z);                      (* the errors of the calls to come *)
  fds : gmap Z (file * bool);                     (* with the flag for close-on-exec *)
  cwd : option text;
  own_session : bool;
  own_group : bool;
  has_terminal : bool;
  foreground : bool;
  limits : gmap Z (Z * Z);
  priority : option Z;
  autogroup : text;
  file_owner : option (Z * Z);
  file_mode : option Z;
  euid : Z;
  egid : Z;
  groups : list Z;
  blocked : option (gset Z);                      (* [None]: all signals *)
  ended : outcome
}.
#[export] Instance eta_child : Eta child := λ c,
  Child (wpipefd c) (csfd c) (notify_fd c) (socket_fd c) (output_fd c) (service_env c)
    (proc_env c) (stage c) (errno c) (results c) (fds c) (cwd c) (own_session c) (own_group c)
    (has_terminal c) (foreground c) (limits c) (priority c) (autogroup c) (file_owner c)
    (file_mode c) (euid c) (egid c) (groups c) (blocked c) (ended c).

Implicit Types (c : child) (fd : Z).

(** ** System calls

    Each can fail with the next result; those on descriptors also if one is not open. *)

Definition syscall (f : child → child) c : child * Z :=
  match results c with
  | Some e :: rest => (c <| results := rest |> <| errno := e |>, -1)
  | None :: rest => (f (c <| results := rest |>), 0)
  | [] => (f c, 0)
  end.
Definition fail_with (e : Z) c : child * Z := (c <| errno := e |>, -1).

(** The lowest descriptor from [min_fd] on that is free. *)
Fixpoint lowest_free (fuel : nat) (min_fd : Z) (m : gmap Z (file * bool)) : Z :=
  match fuel with
  | O => min_fd
  | S fuel => match m !! min_fd with
              | Some _ => lowest_free fuel (min_fd + 1) m
              | None => min_fd
              end
  end.
Definition free_fd (min_fd : Z) c : Z := lowest_free (size (fds c)) min_fd (fds c).

Definition close fd c : child := c <| fds ::= delete fd |>.
Definition dup2 fd (dest : Z) c : child * Z :=
  match fds c !! fd with
  | None => fail_with EBADF c
  | Some (f, cloexec) =>
      let '(c, r) := syscall (λ c, if fd =? dest then c else c <| fds ::= <[dest := (f, false)]> |>) c in
      (c, if r =? -1 then -1 else dest)
  end.
(** [F_DUPFD_CLOEXEC] or [F_DUPFD] *)
Definition fcntl_dup (cloexec : bool) fd (min_fd : Z) c : child * Z :=
  match fds c !! fd with
  | None => fail_with EBADF c
  | Some (f, _) =>
      let new_fd := free_fd min_fd c in
      let '(c, r) := syscall (λ c, c <| fds ::= <[new_fd := (f, cloexec)]> |>) c in
      (c, if r =? -1 then -1 else new_fd)
  end.
Definition open_file (path : text) c : child * Z :=
  let new_fd := free_fd 0 c in
  let '(c, r) := syscall (λ c, c <| fds ::= <[new_fd := (Opened_path path, false)]> |>) c in
  (c, if r =? -1 then -1 else new_fd).
(** Changing to another user or group takes the rights of the superuser. *)
Definition privileged (allowed : bool) (f : child → child) c : child * Z :=
  if (euid c =? 0) || allowed then syscall f c else fail_with EPERM c.

(** ** The function *)

Definition move_fd fd (dest : Z) c : child * Z :=
  if fd =? -1 then (c, -1)
  else if fd =? dest then (c, 0)
  else
    let '(c, r) := dup2 fd dest c in
    if r =? -1 then (c, -1) else (close fd c, 0).

(** The second result is the new value of the variable. *)
Definition move_reserved_fd fd (min_fd : Z) c : child * Z * Z :=
  let '(c, new_fd) := fcntl_dup true fd min_fd c in
  if new_fd =? -1 then (c, -1, fd) else (close fd c, new_fd, new_fd).

(** A step, and one step after the other. *)
Definition step : Type := child → child * bool.
Definition then_ (a b : step) : step := λ c, let '(c, ok) := a c in if ok then b c else (c, false).
Definition done_ (f : child → child) : step := λ c, (f c, true).
Definition if_ (b : bool) (a : step) : step := if b then a else done_ id.
Definition call (f : child → child * Z) : step := λ c, let '(c, r) := f c in (c, negb (r =? -1)).
Definition at_stage (s : exec_stage) : step := done_ (λ c, c <| stage := s |>).
Declare Scope step_scope.
Delimit Scope step_scope with step.
Bind Scope step_scope with step.
Notation "a >>> b" := (then_ a b) (at level 60, right associativity) : step_scope.
Open Scope step_scope.

Section run.
Context (H : child_host) (p : params).

Definition min_fd c : Z := if socket_fd c =? -1 then 3 else 4.

(** *** Descriptors in the way of others *)

Definition reserve_wpipefd : step := λ c,
  if wpipefd c =? force_notify_fd p then
    let '(c, r, fd) := move_reserved_fd (wpipefd c) (min_fd c) c in
    (c <| wpipefd := fd |>, negb (r =? -1))
  else (c, true).
Definition reserve_csfd : step := λ c,
  if csfd c =? force_notify_fd p then
    let '(c, r, fd) := move_reserved_fd (csfd c) (min_fd c) c in
    (c <| csfd := fd |>, negb (r =? -1))
  else (c, true).
Definition reserve_socket_fd : step := λ c,
  if socket_fd c =? force_notify_fd p then
    let '(c, r, fd) := move_reserved_fd (socket_fd c) 0 c in
    (c <| socket_fd := fd |>, negb (r =? -1))
  else (c, true).
Definition place_notify_fd : step := λ c,
  if negb (notify_fd c =? force_notify_fd p) then
    let '(c, r) := dup2 (notify_fd c) (force_notify_fd p) c in
    if r =? -1 then (c, false)
    else (close (notify_fd c) c <| notify_fd := force_notify_fd p |>, true)
  else (c, true).
Definition force_notify : step :=
  if_ (negb (force_notify_fd p =? -1))
    (reserve_wpipefd >>> reserve_csfd >>> reserve_socket_fd >>> place_notify_fd).

Definition raise_wpipefd (min : Z) : step := λ c,
  if wpipefd c <? min then
    let '(c, r) := fcntl_dup true (wpipefd c) min c in
    (c <| wpipefd := r |>, negb (r =? -1))
  else (c, true).
Definition raise_csfd (min : Z) : step := λ c,
  if negb (csfd c =? -1) && (csfd c <? min) then
    let '(c, r) := fcntl_dup false (csfd c) min c in
    (c <| csfd := r |>, negb (r =? -1))
  else (c, true).
Definition raise_notify_fd (min : Z) : step := λ c,
  if (notify_fd c <? min) && negb (notify_fd c =? force_notify_fd p) then
    let '(c, r) := fcntl_dup false (notify_fd c) min c in
    (c <| notify_fd := r |>, negb (r =? -1))
  else (c, true).

Definition take_input : step :=
  if_ (negb (input_fd p =? -1)) (λ c, let '(c, r) := move_fd (input_fd p) 0 c in (c, r =? 0)).

(** [minfd] is computed at the start. *)
Definition arrange_fds : step := λ c,
  let min := min_fd c in
  (at_stage exec_stage.ARRANGE_FDS >>> take_input >>> force_notify
   >>> raise_wpipefd min >>> raise_csfd min >>> raise_notify_fd min) c.

(** *** The environment *)

Definition add_var (v : text) : step :=
  done_ (λ c, c <| service_env ::= λ e, (Env.set_var (environ H) v false e).1 |>).
Definition set_notify_var : step :=
  if_ (negb (bool_decide (notify_var p = [])))
    (at_stage exec_stage.SET_NOTIFYFD_VAR
     >>> λ c, add_var (notify_var p ++ chars "=" ++ to_dec_digits (notify_fd c)) c).
Definition set_activation_socket : step := λ c,
  if negb (socket_fd c =? -1) then
    (at_stage exec_stage.SETUP_ACTIVATION_SOCKET
     >>> call (dup2 (socket_fd c) 3)
     >>> if_ (negb (socket_fd c =? 3)) (done_ (close (socket_fd c)))
     >>> add_var (chars "LISTEN_FDS=1")
     >>> add_var (chars "LISTEN_PID=" ++ to_dec_digits (getpid H))) c
  else (c, true).
Definition set_control_socket : step := λ c,
  if negb (csfd c =? -1) then
    (at_stage exec_stage.SETUP_CONTROL_SOCKET
     >>> add_var (chars "DINIT_CS_FD=" ++ to_dec_digits (csfd c))) c
  else (c, true).
Definition build_env : step :=
  at_stage exec_stage.READ_ENV_FILE
  >>> done_ (λ c, c <| proc_env :=
        Env.env_list (Env.build_from (environ H) (main_env H) (service_env c)) |>).
Definition change_dir : step :=
  if_ (negb (bool_decide (working_dir p = [])))
    (at_stage exec_stage.CHDIR >>> call (syscall (λ c, c <| cwd := Some (working_dir p) |>))).

(** *** Standard input, output and error *)

Definition dev_null : text := chars "/dev/null".

Definition close_std : step := done_ (λ c,
  for_each (if input_fd p =? -1 then [0; 1; 2] else [1; 2])
    (λ i c, if i =? force_notify_fd p then c else close i c) c).
Definition open_stdin : step := λ c,
  if negb (notify_fd c =? 0) && (input_fd p =? -1) then
    let '(c, fd) := open_file dev_null c in
    let '(c, r) := move_fd fd 0 c in (c, r =? 0)
  else (c, true).
Definition open_output : step := λ c,
  if output_fd c =? -1 then
    let '(c, fd) := open_file (logfile p) c in
    let c := c <| output_fd := fd |> in
    if fd =? -1 then (if log_to_file p then c <| stage := exec_stage.OPEN_LOGFILE |> else c, false)
    else
      if_ (log_to_file p)
        (call (syscall (λ c, c <| file_owner := Some (logfile_uid p, logfile_gid p) |>))
         >>> call (syscall (λ c, c <| file_mode := Some (logfile_perms p) |>))) c
  else (c, true).
Definition place_output : step := λ c,
  if negb (notify_fd c =? 1) then
    let '(c, r) := move_fd (output_fd c) 1 c in
    if negb (r =? 0) then (c, false)
    else if negb (notify_fd c =? 2) then
      let '(c, r) := dup2 1 2 c in (c, r =? 2)
    else (c, true)
  else
    let '(c, r) := move_fd (output_fd c) 2 c in (c, r =? 0).

Definition set_up_output : step :=
  close_std >>> at_stage exec_stage.SETUP_STDINOUTERR >>> open_stdin >>> open_output >>> place_output
  >>> done_ (λ c, c <| own_session := true |> <| own_group := true |>).
Definition set_up_console : step :=
  if_ (no_session_leader H) (done_ (λ c, c <| own_session := true |> <| has_terminal := true |>))
  >>> done_ (λ c, c <| own_group := true |>)
  >>> if_ (in_foreground p) (done_ (λ c, c <| foreground := true |>)).

(** *** Limits and priority *)

Definition set_limit (l : SettingValue.service_rlimits) : step :=
  if_ (negb (SettingValue.hard_set l) || negb (SettingValue.soft_set l)) (call (syscall id))
  >>> call (syscall (λ c,
        let current := default (0, 0) (limits c !! SettingValue.resource_id l) in
        c <| limits ::= <[SettingValue.resource_id l :=
               (if SettingValue.soft_set l then SettingValue.rlim_cur l else current.1,
                if SettingValue.hard_set l then SettingValue.rlim_max l else current.2)]> |>)).
Definition set_limits : step :=
  at_stage exec_stage.SET_RLIMITS >>> foldr (λ l rest, set_limit l >>> rest) (done_ id) (rlimits p).

Definition clamp_nice (n : Z) : Z := Z.max (-20) (Z.min 19 n).
Definition autogroup_file : text := chars "/proc/self/autogroup".
Definition set_priority : step :=
  match nice p with
  | None => done_ id
  | Some n =>
      let n := clamp_nice n in
      at_stage exec_stage.SET_PRIO >>> call (syscall (λ c, c <| priority := Some n |>))
      >>> λ c,
        let '(c, ag_fd) := open_file autogroup_file c in
        if negb (ag_fd =? -1) then
          (call (syscall (λ c, c <| autogroup := to_dec_digits n ++ [NEWLINE] |>))
           >>> call (λ c, syscall id (close ag_fd c))) c
        else (c, errno c =? ENOENT)
  end.

(** *** The user and the signals *)

Definition setgroups (l : list Z) : step := call (privileged false (λ c, c <| groups := l |>)).
Definition setregid (g : Z) : step := λ c,
  call (privileged (g =? egid c) (λ c, c <| egid := g |>)) c.
Definition setreuid (u : Z) : step := λ c,
  call (privileged (u =? euid c) (λ c, c <| euid := u |>)) c.
Definition set_groups : step :=
  if negb (gid p =? NO_ID) then setgroups [] >>> setregid (gid p)
  else match getpwuid H (uid p) with
       | inl (name, pw_gid) => setregid pw_gid >>> setgroups (initgroups_of H name pw_gid)
       | inr e => λ c, (c <| errno := if e =? 0 then ENOENT else e |>, false)
       end.
Definition set_ids : step :=
  if_ (negb (uid p =? NO_ID))
    (at_stage exec_stage.SET_UIDGID >>> set_groups >>> setreuid (uid p)).

Definition SIGHUP : Z := 1.
Definition SIGINT : Z := 2.
Definition SIGQUIT : Z := 3.
Definition SIGTERM : Z := 15.
Definition SIGCHLD : Z := 17.
Definition SIGTSTP : Z := 20.
Definition SIGTTIN : Z := 21.
Definition SIGTTOU : Z := 22.
Definition signal_mask : gset Z :=
  let mask := orig_signal_mask H ∖ {[SIGCHLD; SIGTERM]} in
  if on_console p && in_foreground p then
    (if unmask_sigint p then mask ∖ {[SIGINT]} else {[SIGINT]} ∪ mask)
      ∪ {[SIGQUIT; SIGTSTP; SIGTTIN; SIGTTOU]}
  else mask.

(** *** [exec], and [failure_out] *)

Definition kept_fds (m : gmap Z (file * bool)) : gmap Z file :=
  omap (λ x, if (x.2 : bool) then None else Some x.1) m.
(** When [execvp] succeeds it does not return. *)
Definition do_exec : step := λ c,
  let '(c, r) := syscall (λ c,
    c <| ended := Executed (Exec_image (args p) (proc_env c) (kept_fds (fds c))) |>)
    (c <| stage := exec_stage.DO_EXEC |>) in
  (c, r =? 0).

Definition failure_out c : child :=
  let report := (stage c, errno c) in
  match fds c !! wpipefd c with
  | None => c <| ended := Exited report false |>
  | Some (f, _) =>
      let '(c, r) := syscall id c in
      c <| ended := Exited report (bool_decide (f = Status_pipe) && negb (r =? -1)) |>
  end.

Definition run_child_steps : step :=
  done_ (λ c, c <| blocked := None |>)
  >>> arrange_fds
  >>> (set_notify_var >>> set_activation_socket >>> set_control_socket >>> build_env)
  >>> change_dir
  >>> (if on_console p then set_up_console else set_up_output)
  >>> set_limits >>> set_priority >>> set_ids
  >>> done_ (λ c, c <| blocked := Some signal_mask |>)
  >>> do_exec.

Definition run_child_proc c : child :=
  let '(c, ok) := run_child_steps c in
  if ok then c else failure_out c.
End run.
