(* ===== verification/ChildLaws.v ===== *)
(** * The child process: descriptors

    Rules for the steps, and what [arrange_fds] leaves behind: no descriptor is in the way
    of another one. *)

From S2P Require Import Prelude Text ChildProc.
From S2P Require SettingValue Env.

Implicit Types (c : child) (fd : Z) (m : step) (P Q : child → Prop).

(** ** Steps *)

(** What a step guarantees when it goes on, and when it goes to [failure_out]. *)
Definition hoare (F P : child → Prop) m Q : Prop := ∀ c, P c →
  let '(c', ok) := m c in if (ok : bool) then Q c' else F c'.

Section hoare.
Context (F : child → Prop).

Lemma hoare_then P Q R a b : hoare F P a Q → hoare F Q b R → hoare F P (then_ a b) R.
Proof.
  intros Ha Hb c H. unfold then_. specialize (Ha c H). destruct (a c) as [c' [|]]; [by apply Hb|done].
Qed.
Lemma hoare_done P Q f : (∀ c, P c → Q (f c)) → hoare F P (done_ f) Q.
Proof. intros H c Hc. by apply H. Qed.
Lemma hoare_if P Q b m : (b = true → hoare F P m Q) → (b = false → ∀ c, P c → Q c) → hoare F P (if_ b m) Q.
Proof. intros H1 H2 c Hc. destruct b; [by apply H1|by apply H2]. Qed.
Lemma hoare_weaken P P' Q Q' m : (∀ c, P c → P' c) → (∀ c, Q' c → Q c) → hoare F P' m Q' → hoare F P m Q.
Proof. intros Hp Hq H c Hc. specialize (H c (Hp c Hc)). destruct (m c) as [c' [|]]; auto. Qed.

Lemma hoare_call P Q (f : child → child * Z) :
  (∀ c, P c → let '(c', r) := f c in if r =? -1 then F c' else Q c') → hoare F P (call f) Q.
Proof.
  intros H c Hc. specialize (H c Hc). unfold call. destruct (f c) as [c' r]. by destruct (r =? -1).
Qed.
End hoare.

(** ** The table of descriptors *)

(** The fields that the steps on descriptors and on the environment use. *)
Record table := Table {
  t_fds : gmap Z (file * bool);
  t_wpipe : Z; t_cs : Z; t_notify : Z; t_socket : Z; t_output : Z;
  t_service_env : Env.environment; t_env : list (option text)
}.
#[export] Instance eta_table : Eta table := λ t,
  Table (t_fds t) (t_wpipe t) (t_cs t) (t_notify t) (t_socket t) (t_output t) (t_service_env t) (t_env t).
Definition view c : table :=
  Table (fds c) (wpipefd c) (csfd c) (notify_fd c) (socket_fd c) (output_fd c) (service_env c) (proc_env c).
Implicit Types (t : table).

Definition set_entry (k : Z) (x : file * bool) t : table := t <| t_fds ::= <[k := x]> |>.
Definition del_entry (k : Z) t : table := t <| t_fds ::= delete k |>.

Lemma syscall_cases f c : (∀ c, view (f c) = view c) →
  let '(c', r) := syscall f c in view c' = view c ∧ (r = 0 ∨ r = -1).
Proof.
  intros H. unfold syscall. destruct (results c) as [|[e|] rest]; rewrite ?H; auto.
Qed.

Lemma lowest_free_spec n : ∀ lo (m : gmap Z (file * bool)),
  (∀ k, lo ≤ k → k < lo + Z.of_nat n → is_Some (m !! k)) ∨ m !! lowest_free n lo m = None.
Proof.
  induction n as [|n IH]; intros lo m; cbn; [left; lia|].
  destruct (m !! lo) eqn:E; [|by right]. destruct (IH (lo + 1) m) as [H|H]; [left|by right].
  intros k H1 H2. destruct (decide (k = lo)) as [->|]; [by eexists|]. apply H; lia.
Qed.
Lemma lowest_free_ge n : ∀ lo (m : gmap Z (file * bool)), lo ≤ lowest_free n lo m.
Proof.
  induction n as [|n IH]; intros lo m; cbn; [lia|]. destruct (m !! lo); [|lia].
  specialize (IH (lo + 1) m). lia.
Qed.
Lemma lowest_free_fuel n : ∀ lo (m : gmap Z (file * bool)),
  (∀ k, lo ≤ k < lo + Z.of_nat n → is_Some (m !! k)) → lowest_free n lo m = lo + Z.of_nat n.
Proof.
  induction n as [|n IH]; intros lo m H; cbn; [lia|].
  destruct (H lo) as [x ->]; [lia|]. rewrite IH; [lia|]. intros k Hk. apply H. lia.
Qed.

(** The search always finds a descriptor that is not open. *)
Lemma free_fd_free lo c : fds c !! free_fd lo c = None.
Proof.
  unfold free_fd. set (m := fds c). destruct (lowest_free_spec (size m) lo m) as [H|H]; [|done].
  rewrite lowest_free_fuel by (intros k Hk; apply H; lia).
  destruct (m !! (lo + Z.of_nat (size m))) eqn:E; [exfalso|done].
  set (ks := list_to_set (C := gset Z) (seqZ lo (Z.of_nat (size m) + 1))).
  assert (ks ⊆ dom m) as Hs.
  { intros k Hk. apply elem_of_list_to_set, elem_of_seqZ in Hk. apply elem_of_dom.
    destruct (decide (k = lo + Z.of_nat (size m))) as [->|]; [by eexists|]. apply H; lia. }
  apply subseteq_size in Hs. unfold ks in Hs. rewrite size_list_to_set in Hs by apply NoDup_seqZ.
  rewrite length_seqZ, size_dom in Hs. lia.
Qed.
Lemma free_fd_ge lo c : lo ≤ free_fd lo c.
Proof. apply lowest_free_ge. Qed.

(** [dup2], [fcntl] and [open]: they fail and leave the table as it is, or they change one
    entry. *)
Lemma dup2_cases fd dest c f b : fds c !! fd = Some (f, b) →
  let '(c', r) := dup2 fd dest c in
  (r = -1 ∧ view c' = view c)
  ∨ (r = dest ∧ view c' = if fd =? dest then view c else set_entry dest (f, false) (view c)).
Proof.
  intros E. unfold dup2. rewrite E. unfold syscall. destruct (results c) as [|[e|] rest]; cbn.
  - right. split; [done|]. by destruct (fd =? dest).
  - by left.
  - right. split; [done|]. by destruct (fd =? dest).
Qed.
Lemma fcntl_dup_cases b fd lo c f b' : fds c !! fd = Some (f, b') →
  let '(c', r) := fcntl_dup b fd lo c in
  (r = -1 ∧ view c' = view c) ∨ (r = free_fd lo c ∧ view c' = set_entry r (f, b) (view c)).
Proof.
  intros E. unfold fcntl_dup. rewrite E. unfold syscall. destruct (results c) as [|[e|] rest]; cbn; auto.
Qed.
Lemma open_file_cases path c :
  let '(c', r) := open_file path c in
  (r = -1 ∧ view c' = view c)
  ∨ (r = free_fd 0 c ∧ view c' = set_entry r (Opened_path path, false) (view c)).
Proof.
  unfold open_file, syscall. destruct (results c) as [|[e|] rest]; cbn; auto.
Qed.
Lemma move_fd_cases fd dest c f b : fds c !! fd = Some (f, b) → 0 ≤ fd → fd ≠ dest → 0 ≤ dest →
  let '(c', r) := move_fd fd dest c in
  (r = -1 ∧ view c' = view c)
  ∨ (r = 0 ∧ view c' = del_entry fd (set_entry dest (f, false) (view c))).
Proof.
  intros E Hf Hd H0. unfold move_fd. rewrite (proj2 (Z.eqb_neq _ _)), (proj2 (Z.eqb_neq fd dest)) by lia.
  pose proof (dup2_cases fd dest c f b E) as H. rewrite (proj2 (Z.eqb_neq fd dest)) in H by lia.
  destruct (dup2 fd dest c) as [c' r]. destruct H as [[-> H]|[-> H]]; [by left|].
  rewrite (proj2 (Z.eqb_neq _ _)) by lia. right. split; [done|].
  change (view (close fd c')) with (del_entry fd (view c')). by rewrite H.
Qed.

(** ** Where the descriptors are

    [lw], [lc] and [ln] are lower bounds; [placed]: the notification descriptor is where it
    must be; [active]: so is the activation socket. *)

Section run.
Context (H : child_host) (p : params) (sk0 o0 : Z) (no_notify no_cs : bool).
Abbreviation force := (force_notify_fd p).

Record wf (lw lc ln : Z) (taken placed active : bool) t : Prop := {
  w_status : t_fds t !! t_wpipe t = Some (Status_pipe, true);
  w_only fd b : t_fds t !! fd = Some (Status_pipe, b) → b = true;
  w_wpipe : lw ≤ t_wpipe t;
  w_cs : t_cs t = -1 ∨ (t_fds t !! t_cs t = Some (Control_socket, false) ∧ lc ≤ t_cs t);
  w_notify : t_notify t = -1
    ∨ (t_fds t !! t_notify t = Some (Notify_pipe, false)
       ∧ (ln ≤ t_notify t ∨ (placed = true ∧ t_notify t = force)));
  w_placed : placed = true → force ≠ -1 → t_notify t = force;
  w_socket : t_socket t = -1
    ∨ (if active then t_fds t !! 3 = Some (Activation_socket, false)
       else 4 ≤ t_socket t ∧ ∃ b, t_fds t !! t_socket t = Some (Activation_socket, b));
  w_output : t_output t = -1
    ∨ ((if t_socket t =? -1 then 3 else 4) ≤ t_output t
       ∧ ∃ b, t_fds t !! t_output t = Some (Output_pipe, b));
  w_input : taken = true → input_fd p ≠ -1 → t_fds t !! 0 = Some (Input_pipe, false)
}.

(** What the caller has to see to: the forced descriptor is not one of the others. *)
Record apart t : Prop := {
  a_force : force = -1 ∨ (0 ≤ force ∧ t_notify t ≠ -1);
  a_cs : force ≠ -1 → t_cs t ≠ force;
  a_socket : force ≠ -1 → t_socket t ≠ force;
  a_output : force ≠ -1 → t_output t ≠ force;
  a_three : force = 3 → t_socket t = -1;
  a_zero : force = 0 → input_fd p = -1;
  a_same : t_socket t = sk0 ∧ t_output t = o0;
  a_there : (t_notify t =? -1) = no_notify ∧ (t_cs t =? -1) = no_cs
}.

Definition reported c : Prop :=
  fds c !! wpipefd c = Some (Status_pipe, true) ∨ (wpipefd c = -1 ∧ stage c = exec_stage.ARRANGE_FDS).
Lemma wf_reported lw lc ln a b d c : wf lw lc ln a b d (view c) → reported c.
Proof. intros W. left. apply (w_status _ _ _ _ _ _ _ W). Qed.

(** Adding a descriptor that was free changes nothing of this. *)
Lemma wf_new lw lc ln tk pl ac t k x : wf lw lc ln tk pl ac t → t_fds t !! k = None →
  (x.1 = Status_pipe → x.2 = true) → wf lw lc ln tk pl ac (set_entry k x t).
Proof.
  intros [W1 W2 W3 W4 W5 W6 W7 W8 W9] Hk Hx.
  assert (∀ j y, t_fds t !! j = Some y → t_fds (set_entry k x t) !! j = Some y) as Hi.
  { intros j y Hj. unfold set_entry. rsimpl. rewrite lookup_insert_ne; congruence. }
  split; try done; unfold set_entry; rsimpl; fold (set_entry k x t).
  - by apply Hi.
  - intros fd b Hf. apply lookup_insert_Some in Hf as [[_ ->]|[_ Hf]]; [by apply Hx|by eapply W2].
  - destruct W4 as [?|[??]]; [by left|right]. split; [by apply Hi|done].
  - destruct W5 as [?|[??]]; [by left|right]. split; [by apply Hi|done].
  - destruct W7 as [?|W7]; [by left|right]. destruct ac; [by apply Hi|].
    destruct W7 as (? & b & ?). split; [done|]. exists b. by apply Hi.
  - destruct W8 as [?|(?&b&?)]; [by left|right]. split; [done|]. exists b. by apply Hi.
  - intros. by apply Hi, W9.
Qed.

(** The entries that matter; the others may be changed. *)
Definition socket_at (ac : bool) t : Z :=
  if ac && negb (t_socket t =? -1) then 3 else t_socket t.
Definition in_use (tk ac : bool) t (k : Z) : Prop :=
  k = t_wpipe t ∨ k = t_cs t ∨ k = t_notify t ∨ k = socket_at ac t ∨ k = t_output t
  ∨ (tk = true ∧ input_fd p ≠ -1 ∧ k = 0).

Lemma wf_same lw lc ln tk pl ac t tb : wf lw lc ln tk pl ac t →
  (∀ k, in_use tk ac t k → tb !! k = t_fds t !! k) →
  (∀ fd b, tb !! fd = Some (Status_pipe, b) → b = true) →
  wf lw lc ln tk pl ac (t <| t_fds := tb |>).
Proof.
  intros [W1 W2 W3 W4 W5 W6 W7 W8 W9] Hm Ho. unfold in_use, socket_at in Hm.
  split; rsimpl; try done; rewrite ?Hm by auto; auto.
  - destruct W7 as [?|W7]; [by left|]. destruct (Z.eqb_spec (t_socket t) (-1)); [by left|right].
    destruct ac; cbn [andb negb] in Hm; [by rewrite Hm by auto 10|].
    destruct W7 as (? & b & ?). split; [done|]. exists b. by rewrite Hm by auto 10.
  - destruct W8 as [?|(?&b&?)]; [by left|right]. split; [done|]. exists b. by rewrite Hm by auto 10.
  - intros. rewrite Hm by auto 10. auto.
Qed.

Lemma wf_set lw lc ln tk pl ac t k x : wf lw lc ln tk pl ac t → ¬ in_use tk ac t k →
  (x.1 = Status_pipe → x.2 = true) → wf lw lc ln tk pl ac (set_entry k x t).
Proof.
  intros W Hk Hx. apply wf_same; [done|..].
  - intros j Hj. apply lookup_insert_ne. by intros ->.
  - intros fd b Hf. apply lookup_insert_Some in Hf as [[_ ->]|[_ Hf]]; [by apply Hx|].
    by eapply (w_only _ _ _ _ _ _ _ W).
Qed.
Lemma wf_del lw lc ln tk pl ac t k : wf lw lc ln tk pl ac t → ¬ in_use tk ac t k →
  wf lw lc ln tk pl ac (del_entry k t).
Proof.
  intros W Hk. apply wf_same; [done|..].
  - intros j Hj. apply lookup_delete_ne. by intros ->.
  - intros fd b Hf. apply lookup_delete_Some in Hf as [_ Hf]. by eapply (w_only _ _ _ _ _ _ _ W).
Qed.
(** An entry that is in use is of a file that it is in use for. *)
Definition file_at (f : file) (tk ac : bool) t (k : Z) : Prop :=
  match f with
  | Status_pipe => k = t_wpipe t
  | Control_socket => k = t_cs t
  | Notify_pipe => k = t_notify t
  | Activation_socket => k = socket_at ac t
  | Output_pipe => k = t_output t
  | Input_pipe => k = 0 ∧ tk = true ∧ input_fd p ≠ -1
  | _ => False
  end.
Lemma in_use_file lw lc ln tk pl ac t k f b : wf lw lc ln tk pl ac t → 0 ≤ k →
  t_fds t !! k = Some (f, b) → in_use tk ac t k → file_at f tk ac t k.
Proof.
  intros [W1 W2 W3 W4 W5 W6 W7 W8 W9] Hk E Hu. unfold in_use in Hu.
  destruct Hu as [->|[->|[->|[->|[->|(?&?&->)]]]]].
  - by assert (f = Status_pipe) as -> by congruence.
  - destruct W4 as [?|[??]]; [lia|]. by assert (f = Control_socket) as -> by congruence.
  - destruct W5 as [?|[??]]; [lia|]. by assert (f = Notify_pipe) as -> by congruence.
  - assert (f = Activation_socket) as ->; [|done]. unfold socket_at in *.
    destruct W7 as [E'|W7]; [rewrite E', andb_false_r in Hk; lia|].
    destruct (Z.eqb_spec (t_socket t) (-1)) as [E'|]; [rewrite andb_false_r in *; lia|].
    destruct ac; cbn [andb negb] in E; [congruence|]. destruct W7 as (?&?&?). congruence.
  - destruct W8 as [?|(?&?&?)]; [lia|]. by assert (f = Output_pipe) as -> by congruence.
  - by assert (f = Input_pipe) as -> by (rewrite W9 in E by done; congruence).
Qed.

Definition on_view (Q : table → Prop) c : Prop := Q (view c).

(** What a low entry is not in use for. *)
Lemma not_in_use_low lw lc ln pl t k : wf lw lc ln false pl false t → 0 ≤ k < 3 →
  3 ≤ lw → 3 ≤ lc → 3 ≤ ln → pl = false → ¬ in_use false false t k.
Proof.
  intros [W1 W2 W3 W4 W5 W6 W7 W8 W9] Hk H1 H2 H3 ->. unfold in_use, socket_at. cbn [andb].
  destruct (t_socket t =? -1); intros [->|[->|[->|[->|[->|(?&?&?)]]]]]; done || lia.
Qed.

Definition before_input t : Prop :=
  wf 3 3 3 false false false t ∧ apart t
  ∧ (input_fd p = -1 ∨ (3 ≤ input_fd p ∧ ∃ b, t_fds t !! input_fd p = Some (Input_pipe, b))).

(** A step that fails with the table as it was. *)
Lemma same_reported c c' lw lc ln tk pl ac :
  wf lw lc ln tk pl ac (view c) → view c' = view c → reported c'.
Proof. intros W E. apply (wf_reported lw lc ln tk pl ac). by rewrite E. Qed.

Lemma wf_taken lw lc ln pl ac t : wf lw lc ln false pl ac t →
  (input_fd p ≠ -1 → t_fds t !! 0 = Some (Input_pipe, false)) → wf lw lc ln true pl ac t.
Proof. intros [W1 W2 W3 W4 W5 W6 W7 W8 W9] Hi. split; auto. Qed.

Lemma apart_fds t tb : apart t → apart (t <| t_fds := tb |>).
Proof. by intros []. Qed.
Lemma apart_set t k x : apart t → apart (set_entry k x t).
Proof. by intros []. Qed.
Lemma apart_del t k : apart t → apart (del_entry k t).
Proof. by intros []. Qed.

Lemma take_input_ok : hoare reported (on_view before_input) (take_input p)
  (on_view (λ t, wf 3 3 3 true false false t ∧ apart t)).
Proof.
  apply hoare_if; intros Hi.
  - apply negb_true_iff, Z.eqb_neq in Hi. intros c (W & A & [?|(Hin & b & E)]); [done|].
    pose proof (move_fd_cases (input_fd p) 0 c _ _ E) as Hm.
    destruct (move_fd _ _ _) as [c' r]. destruct Hm as [[-> Hv]|[-> Hv]]; [lia..| |].
    { cbn. by eapply same_reported. }
    cbn. unfold on_view. rewrite Hv. split; [|by apply apart_del, apart_set].
    assert (¬ in_use false false (view c) 0) as H0 by (eapply not_in_use_low; [done|lia..|done]).
    apply wf_taken.
    + apply wf_del; [by apply wf_set|]. intros Hu.
      apply (in_use_file 3 3 3 _ false _ _ _ Input_pipe b) in Hu as (?&?&?); [done|by apply wf_set|lia|].
      unfold set_entry. rsimpl. by rewrite lookup_insert_ne by lia.
    + intros _. unfold del_entry, set_entry. rsimpl. rewrite lookup_delete_ne by lia.
      by rewrite lookup_insert_eq.
  - apply negb_false_iff, Z.eqb_eq in Hi. intros c (W & A & _). split; [|done]. by apply wf_taken.
Qed.

(** *** The forced descriptor *)

Lemma reserve_wpipefd_ok : hoare reported (on_view (λ t, wf 3 3 3 true false false t ∧ apart t))
  (reserve_wpipefd p)
  (on_view (λ t, wf 3 3 3 true false false t ∧ apart t ∧ t_wpipe t ≠ force)).
Proof.
  intros c [W A]. unfold reserve_wpipefd.
  destruct (Z.eqb_spec (wpipefd c) force) as [Ef|Ef]; [|by cbn].
  unfold move_reserved_fd. pose proof (w_status _ _ _ _ _ _ _ W) as Es. cbn in Es.
  pose proof (fcntl_dup_cases true (wpipefd c) (min_fd c) c _ _ Es) as Hc.
  pose proof (free_fd_free (min_fd c) c) as Hf. pose proof (free_fd_ge (min_fd c) c) as Hg.
  assert (3 ≤ min_fd c) as Hmin by (unfold min_fd; destruct (_ =? _); lia).
  destruct (fcntl_dup _ _ _ _) as [c' r]. destruct Hc as [[-> Hv]|[-> Hv]].
  { cbn. unfold reported. assert (view (c' <| wpipefd := wpipefd c |>) = view c) as E.
    { transitivity ((view c') <| t_wpipe := wpipefd c |>); [done|]. rewrite Hv. done. }
    by eapply same_reported. }
  set (k := free_fd (min_fd c) c) in *. rewrite (proj2 (Z.eqb_neq k (-1))) by lia.
  cbv beta iota. rewrite (proj2 (Z.eqb_neq k (-1))) by lia. cbn [negb].
  assert (k ≠ wpipefd c) as Hk by congruence.
  unfold on_view. set (t' := view _).
  assert (t' = (del_entry (wpipefd c) (set_entry k (Status_pipe, true) (view c))) <| t_wpipe := k |>) as ->.
  { unfold t'. transitivity ((del_entry (wpipefd c) (view c')) <| t_wpipe := k |>); [done|]. by rewrite Hv. }
  split; [|split; [by destruct A|unfold del_entry, set_entry; rsimpl; lia]].
  destruct W as [W1 W2 W3 W4 W5 W6 W7 W8 W9].
  (* the entries of the others are as they were *)
  assert (∀ j f b, t_fds (view c) !! j = Some (f, b) → f ≠ Status_pipe →
    delete (wpipefd c) (<[k := (Status_pipe, true)]> (fds c)) !! j = Some (f, b)) as Hj.
  { intros j f b E Hne. rewrite lookup_delete_ne, lookup_insert_ne; [done|cbn in E; congruence|].
    cbn in E, W1. congruence. }
  split; unfold del_entry, set_entry; rsimpl; try done; cbn [view t_fds t_cs t_notify t_socket t_output t_wpipe] in *.
  - rewrite lookup_delete_ne by lia. by rewrite lookup_insert_eq.
  - intros fd b Hfd. apply lookup_delete_Some in Hfd as [_ Hfd].
    apply lookup_insert_Some in Hfd as [[_ [= <-]]|[_ Hfd]]; [done|by eapply W2].
  - lia.
  - destruct W4 as [?|[??]]; [by left|right]. split; [by apply Hj|done].
  - destruct W5 as [?|[??]]; [by left|right]. split; [by apply Hj|done].
  - destruct W7 as [?|(?&b&?)]; [by left|right]. split; [done|]. exists b. by apply Hj.
  - destruct W8 as [?|(?&b&?)]; [by left|right]. split; [done|]. exists b. by apply Hj.
  - intros. by apply Hj; [apply W9|].
Qed.

Definition late t : Prop :=
  (force = 3 → t_socket t = -1) ∧ (force = -1 ∨ 0 ≤ force) ∧ t_socket t = sk0 ∧ t_output t = o0
  ∧ (t_notify t =? -1) = no_notify ∧ (t_cs t =? -1) = no_cs.
Lemma apart_late t : apart t → late t.
Proof. intros []. split_and!; naive_solver. Qed.
Lemma late_notify t fd : late t → t_notify t ≠ -1 → fd ≠ -1 → late (t <| t_notify := fd |>).
Proof.
  intros (L1 & L2 & L3 & L4 & L5 & L6) Ht Hfd. split_and!; try done. rewrite <- L5. rsimpl.
  by rewrite !(proj2 (Z.eqb_neq _ _)).
Qed.
Lemma late_cs t fd : late t → t_cs t ≠ -1 → fd ≠ -1 → late (t <| t_cs := fd |>).
Proof.
  intros (L1 & L2 & L3 & L4 & L5 & L6) Ht Hfd. split_and!; try done. rewrite <- L6. rsimpl.
  by rewrite !(proj2 (Z.eqb_neq _ _)).
Qed.

Lemma place_notify_ok : force ≠ -1 →
  hoare reported (on_view (λ t, wf 3 3 3 true false false t ∧ apart t ∧ t_wpipe t ≠ force))
    (place_notify_fd p) (on_view (λ t, wf 3 3 3 true true false t ∧ late t)).
Proof.
  intros Hf c (W & A & Hw). pose proof (apart_late _ A) as L. unfold place_notify_fd.
  destruct (Z.eqb_spec (notify_fd c) force) as [En|En]; cbn [negb].
  { split; [|done]. destruct W as [W1 W2 W3 W4 W5 W6 W7 W8 W9]. split; try done.
    destruct W5 as [?|[??]]; [by left|right]. split; [done|by right]. }
  destruct W as [W1 W2 W3 W4 W5 W6 W7 W8 W9]. destruct A as [A1 A2 A3 A4 A5 A6 A7].
  destruct A1 as [?|[A0 A1]]; [done|]. destruct W5 as [?|[E5 W5]]; [done|].
  pose proof (dup2_cases (notify_fd c) force c _ _ E5) as Hd.
  rewrite (proj2 (Z.eqb_neq (notify_fd c) force)) in Hd by done.
  destruct (dup2 _ _ _) as [c' r]. destruct Hd as [[-> Hv]|[-> Hv]].
  { cbn. eapply (same_reported c c' 3 3 3 true false false); [by split; auto|done]. }
  rewrite (proj2 (Z.eqb_neq force (-1))) by done. cbv beta iota. unfold on_view. set (t' := view _).
  assert (t' = (del_entry (notify_fd c) (set_entry force (Notify_pipe, false) (view c))) <| t_notify := force |>) as ->.
  { assert (notify_fd c' = notify_fd c) as En' by exact (f_equal t_notify Hv).
    unfold t'. transitivity ((del_entry (notify_fd c') (view c')) <| t_notify := force |>); [done|].
    by rewrite Hv, En'. }
  assert (∀ j f b, t_fds (view c) !! j = Some (f, b) → f ≠ Notify_pipe → j ≠ force →
    delete (notify_fd c) (<[force := (Notify_pipe, false)]> (fds c)) !! j = Some (f, b)) as Hj.
  { intros j f b E Hne Hjf. rewrite lookup_delete_ne, lookup_insert_ne; [done..|].
    cbn in E, E5. congruence. }
  split; [|exact (late_notify (view c) _ L A1 Hf)].
  split; unfold del_entry, set_entry; rsimpl; try done;
    cbn [view t_fds t_cs t_notify t_socket t_output t_wpipe] in *.
  - by apply Hj.
  - intros fd b Hfd. apply lookup_delete_Some in Hfd as [_ Hfd].
    apply lookup_insert_Some in Hfd as [[_ [=]]|[_ Hfd]]. by eapply W2.
  - destruct W4 as [?|[??]]; [by left|right]. split; [by apply Hj; auto|done].
  - right. split; [|by right]. rewrite lookup_delete_ne by done. by rewrite lookup_insert_eq.
  - destruct W7 as [?|(?&b&?)]; [by left|right]. split; [done|]. exists b. by apply Hj; auto.
  - destruct W8 as [?|(?&b&?)]; [by left|right]. split; [done|]. exists b. by apply Hj; auto.
  - intros _ Hi. apply Hj; [by apply W9|done|]. intros E0. by apply Hi, A6.
Qed.

Lemma force_notify_ok : hoare reported (on_view (λ t, wf 3 3 3 true false false t ∧ apart t))
  (force_notify p) (on_view (λ t, wf 3 3 3 true true false t ∧ late t)).
Proof.
  apply hoare_if; intros Hf.
  - apply negb_true_iff, Z.eqb_neq in Hf. eapply hoare_then; [apply reserve_wpipefd_ok|].
    set (Q := on_view (λ t, wf 3 3 3 true false false t ∧ apart t ∧ t_wpipe t ≠ force)).
    apply (hoare_then _ _ Q); [|apply (hoare_then _ _ Q); [|by apply place_notify_ok]].
    + intros c (W & A & Hw). unfold reserve_csfd. rewrite (proj2 (Z.eqb_neq _ _)); [done|].
      by apply (a_cs _ A).
    + intros c (W & A & Hw). unfold reserve_socket_fd. rewrite (proj2 (Z.eqb_neq _ _)); [done|].
      by apply (a_socket _ A).
  - apply negb_false_iff, Z.eqb_eq in Hf. intros c (W & A). split; [|by apply apart_late].
    destruct W as [W1 W2 W3 W4 W5 W6 W7 W8 W9]. split; try done.
    destruct W5 as [?|[? [?|[? ?]]]]; [by left|right; split; [done|by left]|done].
Qed.

(** *** Above the reserved descriptors *)

(** [fcntl] gives a free descriptor from [lo] on. *)
Lemma raised b fd lo c f b' : fds c !! fd = Some (f, b') → 0 ≤ lo →
  let '(c', r) := fcntl_dup b fd lo c in
  (r = -1 ∧ view c' = view c) ∨ (lo ≤ r ∧ t_fds (view c) !! r = None ∧ view c' = set_entry r (f, b) (view c)).
Proof.
  intros E Hlo. pose proof (fcntl_dup_cases b fd lo c f b' E) as Hc.
  destruct (fcntl_dup _ _ _ _) as [c' r]. destruct Hc as [?|[-> Hv]]; [by left|right].
  split; [apply free_fd_ge|]. split; [apply free_fd_free|done].
Qed.

Lemma raise_wpipefd_ok lo lc ln : 3 ≤ lo →
  hoare reported (λ c, stage c = exec_stage.ARRANGE_FDS ∧ wf 3 lc ln true true false (view c) ∧ late (view c))
    (raise_wpipefd lo) (on_view (λ t, wf lo lc ln true true false t ∧ late t)).
Proof.
  intros Hlo c (Hs & W & L). unfold raise_wpipefd. destruct (Z.ltb_spec (wpipefd c) lo) as [Hw|Hw].
  2: { split; [|done]. destruct W. by split. }
  pose proof (w_status _ _ _ _ _ _ _ W) as Es.
  pose proof (raised true (wpipefd c) lo c _ _ Es ltac:(lia)) as Hc.
  assert (stage (fcntl_dup true (wpipefd c) lo c).1 = stage c) as Hst.
  { unfold fcntl_dup. cbn in Es. rewrite Es. unfold syscall. by destruct (results c) as [|[|]]. }
  destruct (fcntl_dup _ _ _ _) as [c' r]. destruct Hc as [[-> Hv]|(Hr & Hn & Hv)].
  { right. rsimpl. split; [done|]. cbn in Hst. by rewrite Hst. }
  rewrite (proj2 (Z.eqb_neq _ _)) by lia. cbv beta iota zeta. unfold on_view. set (t' := view _).
  assert (t' = (set_entry r (Status_pipe, true) (view c)) <| t_wpipe := r |>) as ->.
  { unfold t'. transitivity ((view c') <| t_wpipe := r |>); [done|]. by rewrite Hv. }
  split; [|exact L].
  pose proof (wf_new _ _ _ _ _ _ _ r (Status_pipe, true) W Hn ltac:(done)) as W'.
  destruct W' as [W1 W2 W3 W4 W5 W6 W7 W8 W9]. split; try done.
  unfold set_entry. rsimpl. by rewrite lookup_insert_eq.
Qed.

Lemma raise_csfd_ok lo lw ln : 3 ≤ lo →
  hoare reported (on_view (λ t, wf lw 3 ln true true false t ∧ late t))
    (raise_csfd lo) (on_view (λ t, wf lw lo ln true true false t ∧ late t)).
Proof.
  intros Hlo c (W & L). unfold raise_csfd.
  destruct (Z.eqb_spec (csfd c) (-1)) as [Hc1|Hc1]; cbn [negb andb].
  { split; [|done]. destruct W as [W1 W2 W3 W4 W5 W6 W7 W8 W9]. split; try done. by left. }
  pose proof (w_cs _ _ _ _ _ _ _ W) as [?|[Ec _]]; [done|].
  destruct (Z.ltb_spec (csfd c) lo) as [Hw|Hw].
  2: { split; [|done]. destruct W as [W1 W2 W3 W4 W5 W6 W7 W8 W9]. split; try done. by right. }
  pose proof (raised false (csfd c) lo c _ _ Ec ltac:(lia)) as Hc.
  destruct (fcntl_dup _ _ _ _) as [c' r]. destruct Hc as [[-> Hv]|(Hr & Hn & Hv)].
  { cbn. left. pose proof (w_status _ _ _ _ _ _ _ W) as Es. rewrite <- Hv in Es. exact Es. }
  rewrite (proj2 (Z.eqb_neq _ _)) by lia. cbv beta iota zeta. unfold on_view. set (t' := view _).
  assert (t' = (set_entry r (Control_socket, false) (view c)) <| t_cs := r |>) as ->.
  { unfold t'. transitivity ((view c') <| t_cs := r |>); [done|]. by rewrite Hv. }
  split; [|refine (late_cs (view c) r L Hc1 _); lia].
  pose proof (wf_new _ _ _ _ _ _ _ r (Control_socket, false) W Hn ltac:(done)) as W'.
  destruct W' as [W1 W2 W3 W4 W5 W6 W7 W8 W9]. split; try done.
  right. unfold set_entry. rsimpl. by rewrite lookup_insert_eq.
Qed.

Lemma raise_notify_fd_ok lo lw lc : 3 ≤ lo →
  hoare reported (on_view (λ t, wf lw lc 3 true true false t ∧ late t))
    (raise_notify_fd p lo) (on_view (λ t, wf lw lc lo true true false t ∧ late t)).
Proof.
  intros Hlo c (W & L). unfold raise_notify_fd.
  pose proof (w_placed _ _ _ _ _ _ _ W eq_refl) as Hpl.
  destruct (Z.eqb_spec (notify_fd c) force) as [Hf|Hf]; cbn [negb andb].
  { rewrite andb_false_r. split; [|done]. destruct W as [W1 W2 W3 W4 W5 W6 W7 W8 W9]. split; try done.
    destruct W5 as [?|[??]]; [by left|right]. split; [done|by right]. }
  rewrite andb_true_r. assert (force = -1) as Hf1.
  { destruct (decide (force = -1)) as [|Hn]; [done|]. by destruct Hf; apply Hpl. }
  pose proof (w_notify _ _ _ _ _ _ _ W) as [En|[En _]]; [cbn in En; congruence|].
  destruct (Z.ltb_spec (notify_fd c) lo) as [Hw|Hw].
  2: { split; [|done]. destruct W as [W1 W2 W3 W4 W5 W6 W7 W8 W9]. split; try done. right. split; [done|by left]. }
  assert (t_notify (view c) ≠ -1) as Hn0 by (intros E; apply Hf; rewrite Hf1; exact E).
  pose proof (raised false (notify_fd c) lo c _ _ En ltac:(lia)) as Hc.
  destruct (fcntl_dup _ _ _ _) as [c' r]. destruct Hc as [[-> Hv]|(Hr & Hn & Hv)].
  { cbn. left. pose proof (w_status _ _ _ _ _ _ _ W) as Es. rewrite <- Hv in Es. exact Es. }
  rewrite (proj2 (Z.eqb_neq _ _)) by lia. cbv beta iota zeta. unfold on_view. set (t' := view _).
  assert (t' = (set_entry r (Notify_pipe, false) (view c)) <| t_notify := r |>) as ->.
  { unfold t'. transitivity ((view c') <| t_notify := r |>); [done|]. by rewrite Hv. }
  split; [|refine (late_notify (view c) r L Hn0 _); lia].
  pose proof (wf_new _ _ _ _ _ _ _ r (Notify_pipe, false) W Hn ltac:(done)) as W'.
  destruct W' as [W1 W2 W3 W4 W5 W6 W7 W8 W9]. split; try done.
  right. unfold set_entry. rsimpl. rewrite lookup_insert_eq. split; [done|by left].
Qed.

Definition lo0 : Z := if sk0 =? -1 then 3 else 4.

(** The steps on descriptors change nothing else. *)
Definition attrs c := (cwd c, limits c, priority c, (euid c, egid c, groups c)).
Definition aside c := (service_env c, attrs c).
Definition kept c := (stage c, aside c).
Definition keeps {A} (g : child → A) m : Prop := ∀ c, g (m c).1 = g c.

Lemma keeps_then {A} (g : child → A) a b : keeps g a → keeps g b → keeps g (then_ a b).
Proof.
  intros Ha Hb c. unfold then_. specialize (Ha c). destruct (a c) as [c' [|]]; [|done].
  rewrite (Hb c'). exact Ha.
Qed.
Lemma keeps_if {A} (g : child → A) b m : (b = true → keeps g m) → keeps g (if_ b m).
Proof. intros Hm c. destruct b; [by apply Hm|done]. Qed.
Lemma keeps_call {A} (g : child → A) (f : child → child * Z) : (∀ c, g (f c).1 = g c) → keeps g (call f).
Proof. intros Hf c. unfold call. specialize (Hf c). by destruct (f c). Qed.
Lemma keeps_aside m : keeps kept m → keeps aside m.
Proof. intros Hm c. exact (f_equal snd (Hm c)). Qed.
Lemma keeps_attrs m : keeps aside m → keeps attrs m.
Proof. intros Hm c. exact (f_equal snd (Hm c)). Qed.

Lemma syscall_keeps {A} (g : child → A) f c :
  (∀ r c, g (c <| results := r |>) = g c) → (∀ e c, g (c <| errno := e |>) = g c) →
  (∀ c, g (f c) = g c) → g (syscall f c).1 = g c.
Proof. intros H1 H2 Hf. unfold syscall. destruct (results c) as [|[e|] rest]; cbn; by rewrite ?H2, ?Hf, ?H1. Qed.
Lemma kept_syscall f c : (∀ c, kept (f c) = kept c) → kept (syscall f c).1 = kept c.
Proof. by apply syscall_keeps. Qed.
Lemma kept_dup2 fd dest c : kept (dup2 fd dest c).1 = kept c.
Proof.
  unfold dup2. destruct (fds c !! fd) as [[f b]|]; [|done].
  pose proof (kept_syscall (λ c, if fd =? dest then c else c <| fds ::= <[dest := (f, false)]> |>) c) as Hs.
  destruct (syscall _ _). apply Hs. intros c'. by destruct (fd =? dest).
Qed.
Lemma kept_fcntl b fd lo c : kept (fcntl_dup b fd lo c).1 = kept c.
Proof.
  unfold fcntl_dup. destruct (fds c !! fd) as [[f b']|]; [|done]. cbv zeta.
  pose proof (kept_syscall (λ c', c' <| fds ::= <[free_fd lo c := (f, b)]> |>) c) as Hs.
  destruct (syscall _ _). by apply Hs.
Qed.
Lemma kept_open path c : kept (open_file path c).1 = kept c.
Proof.
  unfold open_file. cbv zeta.
  pose proof (kept_syscall (λ c', c' <| fds ::= <[free_fd 0 c := (Opened_path path, false)]> |>) c) as Hs.
  destruct (syscall _ _). by apply Hs.
Qed.
Lemma kept_move_fd fd dest c : kept (move_fd fd dest c).1 = kept c.
Proof.
  unfold move_fd. destruct (fd =? -1); [done|]. destruct (fd =? dest); [done|].
  pose proof (kept_dup2 fd dest c) as Hs. destruct (dup2 _ _ _) as [c' r]. by destruct (r =? -1).
Qed.
Lemma kept_take_input : keeps kept (take_input p).
Proof.
  apply keeps_if. intros _ c. pose proof (kept_move_fd (input_fd p) 0 c) as Hs. by destruct (move_fd _ _ _).
Qed.
Lemma kept_reserved fd lo (put : Z → child → child) c : (∀ fd c, kept (put fd c) = kept c) →
  kept (let '(c, r, fd) := move_reserved_fd fd lo c in (put fd c, negb (r =? -1))).1 = kept c.
Proof.
  intros Hp. unfold move_reserved_fd. pose proof (kept_fcntl true fd lo c) as Hs.
  destruct (fcntl_dup _ _ _ _) as [c' r]. destruct (r =? -1); cbn; rewrite Hp; exact Hs.
Qed.
Lemma kept_raised b fd lo (put : Z → child → child) c : (∀ fd c, kept (put fd c) = kept c) →
  kept (let '(c, r) := fcntl_dup b fd lo c in (put r c, negb (r =? -1))).1 = kept c.
Proof.
  intros Hp. pose proof (kept_fcntl b fd lo c) as Hs. destruct (fcntl_dup _ _ _ _) as [c' r].
  cbn. rewrite Hp. exact Hs.
Qed.
Lemma kept_force_notify : keeps kept (force_notify p).
Proof.
  apply keeps_if. intros _.
  apply keeps_then; [|apply keeps_then; [|apply keeps_then]]; intros x.
  - unfold reserve_wpipefd. destruct (_ =? _); [|done].
    by apply (kept_reserved _ _ (λ fd c, c <| wpipefd := fd |>)).
  - unfold reserve_csfd. destruct (_ =? _); [|done].
    by apply (kept_reserved _ _ (λ fd c, c <| csfd := fd |>)).
  - unfold reserve_socket_fd. destruct (_ =? _); [|done].
    by apply (kept_reserved _ _ (λ fd c, c <| socket_fd := fd |>)).
  - unfold place_notify_fd. destruct (negb _); [|done].
    pose proof (kept_dup2 (notify_fd x) force x) as Hs. destruct (dup2 _ _ _) as [c' r].
    destruct (r =? -1); exact Hs.
Qed.
Lemma aside_arrange : keeps aside (arrange_fds p).
Proof.
  intros c. unfold arrange_fds. cbv zeta. generalize (min_fd c) as lo. intros lo. revert c.
  change (keeps aside (at_stage exec_stage.ARRANGE_FDS >>> take_input p >>> force_notify p
    >>> raise_wpipefd lo >>> raise_csfd lo >>> raise_notify_fd p lo)).
  apply keeps_then; [done|]. apply keeps_aside. apply keeps_then; [apply kept_take_input|].
  apply keeps_then; [apply kept_force_notify|].
  apply keeps_then; [|apply keeps_then]; intros c.
  - unfold raise_wpipefd. destruct (_ <? _); [|done].
    by apply (kept_raised _ _ _ (λ fd c, c <| wpipefd := fd |>)).
  - unfold raise_csfd. destruct (_ && _); [|done].
    by apply (kept_raised _ _ _ (λ fd c, c <| csfd := fd |>)).
  - unfold raise_notify_fd. destruct (_ && _); [|done].
    by apply (kept_raised _ _ _ (λ fd c, c <| notify_fd := fd |>)).
Qed.

(** A step that changes only descriptors. *)
Lemma hoare_kept {A} (g : child → A) x F P m Q : keeps g m → hoare F P m Q →
  hoare F (λ c, g c = x ∧ P c) m (λ c, g c = x ∧ Q c).
Proof.
  intros Hs Hm c [E HP]. specialize (Hs c). specialize (Hm c HP). destruct (m c) as [c' [|]]; [|done].
  split; [|done]. cbn in Hs. congruence.
Qed.
Lemma hoare_stage x F P m Q : keeps kept m → hoare F P m Q →
  hoare F (λ c, stage c = x ∧ P c) m (λ c, stage c = x ∧ Q c).
Proof. intros Hs. apply hoare_kept. intros c. exact (f_equal fst (Hs c)). Qed.

Lemma arrange_fds_ok : hoare reported (on_view before_input) (arrange_fds p)
  (on_view (λ t, wf lo0 lo0 lo0 true true false t ∧ late t)).
Proof.
  intros c Hc. assert (min_fd c = lo0) as Hm.
  { destruct Hc as (_ & A & _). destruct (a_same _ A) as [Hs _]. unfold min_fd, lo0. by rewrite <- Hs. }
  unfold arrange_fds. rewrite Hm. assert (3 ≤ lo0) as Hlo by (unfold lo0; destruct (_ =? _); lia).
  clear Hm. revert c Hc.
  apply (hoare_then reported _ (λ c, stage c = exec_stage.ARRANGE_FDS ∧ on_view before_input c)).
  { apply hoare_done. intros c Hc. split; [done|exact Hc]. }
  eapply hoare_then; [apply hoare_stage; [apply kept_take_input|apply take_input_ok]|].
  eapply hoare_then; [apply hoare_stage; [apply kept_force_notify|apply force_notify_ok]|].
  eapply hoare_then; [by apply raise_wpipefd_ok|].
  eapply hoare_then; [by apply raise_csfd_ok|by apply raise_notify_fd_ok].
Qed.
End run.
