(* ===== verification/ChildProps.v ===== *)
(** * The child process: properties

    Which descriptors and which environment the program gets, that the parent learns of every
    error, and that the program only runs with the identity that was asked for. *)

From S2P Require Import Prelude Text ChildProc ChildLaws.
From S2P Require SettingValue Env.

Implicit Types (c : child) (fd : Z) (m : step) (P Q : child → Prop) (t : table).

Section run.
Context (H : child_host) (p : params) (sk0 o0 : Z) (no_notify no_cs : bool) (e0 : Env.environment).
Abbreviation force := (force_notify_fd p).

(** ** The environment of the program *)

Definition set_vars (vs : list text) e : Env.environment :=
  foldl (λ e v, (Env.set_var (environ H) v false e).1) e vs.
(** What is set for the program; [n] and [cs] are the numbers of its descriptors. *)
Definition notify_vars (n : Z) : list text :=
  if bool_decide (notify_var p = []) then [] else [notify_var p ++ chars "=" ++ to_dec_digits n].
Definition socket_vars : list text :=
  if sk0 =? -1 then [] else [chars "LISTEN_FDS=1"; chars "LISTEN_PID=" ++ to_dec_digits (getpid H)].
Definition control_vars (cs : Z) : list text :=
  if cs =? -1 then [] else [chars "DINIT_CS_FD=" ++ to_dec_digits cs].
Definition child_vars (n cs : Z) : list text := notify_vars n ++ socket_vars ++ control_vars cs.

Abbreviation lo := (lo0 sk0).
Definition arranged (ac : bool) t : Prop := wf p lo lo lo true true ac t ∧ late p sk0 o0 no_notify no_cs t.
Lemma lo_ge : 3 ≤ lo.
Proof. unfold lo0. destruct (_ =? _); lia. Qed.

Definition env_is (vs : Z → Z → list text) t : Prop :=
  t_service_env t = set_vars (vs (t_notify t) (t_cs t)) e0.

Lemma notify_var_ok :
  hoare reported (on_view (λ t, arranged false t ∧ t_service_env t = e0)) (set_notify_var H p)
    (on_view (λ t, arranged false t ∧ env_is (λ n _, notify_vars n) t)).
Proof.
  unfold set_notify_var, env_is, notify_vars.
  apply hoare_if; destruct (bool_decide _); intros [=].
  - intros c (W & E). split; [|cbn; by rewrite <- E].
    destruct W as [[W1 W2 W3 W4 W5 W6 W7 W8 W9] L]. split; [by split|exact L].
  - by intros c ?.
Qed.

Lemma wf_env lw lc ln tk pl ac t e l : wf p lw lc ln tk pl ac t →
  wf p lw lc ln tk pl ac (t <| t_service_env := e |>) ∧ wf p lw lc ln tk pl ac (t <| t_env := l |>).
Proof. intros [W1 W2 W3 W4 W5 W6 W7 W8 W9]. by split; split. Qed.

Lemma three_free t : arranged false t → t_socket t ≠ -1 → ¬ in_use p true false t 3.
Proof.
  intros [[W1 W2 W3 W4 W5 W6 W7 W8 W9] (L1 & L2 & L3 & L4 & L5)] Es Hu.
  assert (lo = 4) as Hlo by (unfold lo0; rewrite <- L3; by rewrite (proj2 (Z.eqb_neq _ _))).
  unfold in_use, socket_at in Hu. cbn [andb] in Hu.
  destruct Hu as [Hu|[Hu|[Hu|[Hu|[Hu|(?&?&?)]]]]]; [lia|lia| | | |done].
  - destruct W5 as [?|[_ [?|[_ ?]]]]; [lia..|]. apply Es, L1. lia.
  - destruct W7 as [?|[? _]]; [done|lia].
  - destruct W8 as [?|(W8 & _)]; [lia|]. rewrite (proj2 (Z.eqb_neq _ _)) in W8 by done. lia.
Qed.

(** The socket is at 3; its old descriptor is still there. *)
Definition doubled t : Prop :=
  arranged true t ∧ 4 ≤ sk0 ∧ ∃ b, t_fds t !! sk0 = Some (Activation_socket, b).

Lemma dup_socket_ok (Q : table → Prop) : sk0 ≠ -1 →
  (∀ t k x, Q t → Q (set_entry k x t)) →
  hoare reported (on_view (λ t, arranged false t ∧ Q t)) (call (dup2 sk0 3))
    (on_view (λ t, doubled t ∧ Q t)).
Proof.
  intros Hs HQ. apply hoare_call. intros c (A & HQc). pose proof A as [W (L1 & L2 & L3 & L4 & L5)].
  pose proof (w_socket _ _ _ _ _ _ _ _ W) as [?|(Hk & b & Ek)]; [congruence|].
  rewrite L3 in Hk, Ek. pose proof (dup2_cases sk0 3 c _ _ Ek) as Hd.
  rewrite (proj2 (Z.eqb_neq sk0 3)) in Hd by lia.
  destruct (dup2 _ _ _) as [c' r]. destruct Hd as [[-> Hv]|[-> Hv]].
  { by eapply same_reported, Hv. }
  change (3 =? -1) with false. cbv iota. unfold on_view. rewrite Hv. split; [|by apply HQ].
  assert (¬ in_use p true false (view c) 3) as H3 by (apply three_free; [done|congruence]).
  split; [|split; [done|exists b]].
  - split; [|done].
    pose proof (wf_set _ _ _ _ _ _ _ _ 3 (Activation_socket, false) W H3 ltac:(done)) as
      [W1 W2 W3 W4 W5 W6 W7 W8 W9]. split; try done. right. unfold set_entry. rsimpl. apply lookup_insert_eq.
  - unfold set_entry. rsimpl. rewrite lookup_insert_ne by lia. exact Ek.
Qed.

Lemma close_socket_ok t : doubled t → sk0 ≠ -1 → arranged true (del_entry sk0 t).
Proof.
  intros ([W L] & Hs & b & E) Hn. split; [|exact L]. apply wf_del; [done|]. intros Hu.
  apply (in_use_file _ _ _ _ _ _ _ _ _ _ _ W) in E; [|lia|done]. cbn in E. unfold socket_at in E.
  destruct L as (_ & _ & L3 & _). rewrite L3, (proj2 (Z.eqb_neq _ _)) in E by done. cbn [andb negb] in E. lia.
Qed.

Lemma add_var_ok ac (vs vs' : Z → Z → list text) v :
  (∀ n cs, vs' n cs = vs n cs ++ [v]) →
  hoare reported (on_view (λ t, arranged ac t ∧ env_is vs t)) (add_var H v)
    (on_view (λ t, arranged ac t ∧ env_is vs' t)).
Proof.
  intros Hv. apply hoare_done. intros c ((W & L) & E). split.
  - split; [|exact L]. destruct W as [W1 W2 W3 W4 W5 W6 W7 W8 W9]. by split.
  - unfold env_is in *. rewrite Hv. unfold set_vars. rewrite foldl_app.
    exact (f_equal (λ e, (Env.set_var (environ H) v false e).1) E).
Qed.

Lemma activation_ok :
  hoare reported (on_view (λ t, arranged false t ∧ env_is (λ n _, notify_vars n) t)) (set_activation_socket H)
    (on_view (λ t, arranged true t ∧ env_is (λ n _, notify_vars n ++ socket_vars) t)).
Proof.
  intros c Hc. assert (socket_fd c = sk0) as Es by exact (proj1 (proj2 (proj2 (proj2 (proj1 Hc))))).
  unfold set_activation_socket. rewrite Es. unfold socket_vars. clear Es. revert c Hc.
  destruct (Z.eqb_spec sk0 (-1)) as [Es|Es]; cbn [negb].
  { intros c ((W & L) & E). split; [|unfold env_is; by rewrite app_nil_r]. split; [|exact L].
    destruct W as [W1 W2 W3 W4 W5 W6 W7 W8 W9]. split; try done. left. by rewrite (proj1 (proj2 (proj2 L))). }
  set (v1 := chars "LISTEN_FDS=1"). set (v2 := _ ++ to_dec_digits (getpid H)). clearbody v1 v2.
  set (E1 := env_is (λ n _, notify_vars n)).
  apply (hoare_then reported _ (on_view (λ t, arranged false t ∧ E1 t))).
  { by apply hoare_done. }
  eapply hoare_then; [by apply (dup_socket_ok E1)|].
  apply (hoare_then _ _ (on_view (λ t, arranged true t ∧ E1 t))).
  { intros c (D & E). assert (4 ≤ sk0) as Hk by apply D.
    rewrite (proj2 (Z.eqb_neq sk0 3)) by lia. split; [|exact E]. by apply (close_socket_ok (view c)). }
  eapply hoare_then; [by apply (add_var_ok _ _ (λ n _, notify_vars n ++ [v1]))|].
  apply add_var_ok. intros n _. by rewrite <- app_assoc.
Qed.

Lemma control_ok :
  hoare reported (on_view (λ t, arranged true t ∧ env_is (λ n _, notify_vars n ++ socket_vars) t))
    (set_control_socket H) (on_view (λ t, arranged true t ∧ env_is child_vars t)).
Proof.
  intros c ((W & L) & E). unfold set_control_socket, env_is, child_vars, control_vars in *.
  destruct (Z.eqb_spec (csfd c) (-1)) as [Es|Es]; cbn [negb].
  { split; [done|]. cbn [view t_cs]. rewrite Es. change (-1 =? -1) with true. cbv iota.
    by rewrite app_nil_r. }
  split; [split; [|exact L]; destruct W as [W1 W2 W3 W4 W5 W6 W7 W8 W9]; by split|].
  change (t_cs (view _)) with (csfd c). rewrite (proj2 (Z.eqb_neq _ _)) by done.
  rewrite app_assoc. unfold set_vars. rewrite foldl_app.
  exact (f_equal (λ e, (Env.set_var (environ H) _ false e).1) E).
Qed.

(** ** After the environment *)

Definition env_done t : Prop :=
  t_env t = Env.env_list (Env.build_from (environ H) (main_env H)
    (set_vars (child_vars (t_notify t) (t_cs t)) e0)).
Definition ready t : Prop := arranged true t ∧ env_done t.

Lemma build_env_ok :
  hoare reported (on_view (λ t, arranged true t ∧ env_is child_vars t)) (build_env H) (on_view ready).
Proof.
  eapply (hoare_then _ _ (on_view (λ t, arranged true t ∧ env_is child_vars t))); [by apply hoare_done|].
  apply hoare_done. intros c ((W & L) & E). split.
  - split; [|exact L]. destruct W as [W1 W2 W3 W4 W5 W6 W7 W8 W9]. by split.
  - exact (f_equal (λ e, Env.env_list (Env.build_from (environ H) (main_env H) e)) E).
Qed.

Lemma arrange_ok :
  hoare reported (on_view (λ t, before_input p sk0 o0 no_notify no_cs t ∧ t_service_env t = e0))
    (arrange_fds p) (on_view (λ t, arranged false t ∧ t_service_env t = e0)).
Proof.
  assert (keeps service_env (arrange_fds p)) as Hk by (intros c; exact (f_equal fst (aside_arrange p c))).
  eapply hoare_weaken; [..|apply (hoare_kept service_env e0 _ _ _ _ Hk (arrange_fds_ok p sk0 o0 no_notify no_cs))];
    intros c [??]; by split.
Qed.
Lemma environment_ok :
  hoare reported (on_view (λ t, arranged false t ∧ t_service_env t = e0))
    (set_notify_var H p >>> set_activation_socket H >>> set_control_socket H >>> build_env H) (on_view ready).
Proof.
  eapply hoare_then; [apply notify_var_ok|]. eapply hoare_then; [apply activation_ok|].
  eapply hoare_then; [apply control_ok|apply build_env_ok].
Qed.

(** ** Standard input, output and error *)

(** Steps that do not concern descriptors. *)
Lemma hoare_view F (Q : table → Prop) m : keeps view m → (∀ c, Q (view c) → F c) →
  hoare F (on_view Q) m (on_view Q).
Proof.
  intros Hk HF c Hc. specialize (Hk c). destruct (m c) as [c' [|]]; cbn in Hk.
  - unfold on_view. by rewrite Hk.
  - apply HF. by rewrite Hk.
Qed.
Lemma view_syscall f c : (∀ c, view (f c) = view c) → view (syscall f c).1 = view c.
Proof. by apply syscall_keeps. Qed.

Definition out_file : file := if o0 =? -1 then Opened_path (logfile p) else Output_pipe.
Definition stdin_file (n : Z) : file :=
  if n =? 0 then Notify_pipe else if input_fd p =? -1 then Opened_path dev_null else Input_pipe.
Definition stdout_file (n : Z) : file := if n =? 1 then Notify_pipe else out_file.
Definition stderr_file (n : Z) : file := if n =? 2 then Notify_pipe else out_file.

Abbreviation wfd := (wf p lo lo lo true true true).
Lemma not_in_use_std t k : wfd t → 0 ≤ k < 3 → k ≠ t_notify t → (k = 0 → input_fd p = -1) →
  ¬ in_use p true true t k.
Proof.
  intros [W1 W2 W3 W4 W5 W6 W7 W8 W9] Hk Hn H0 Hu. pose proof lo_ge.
  unfold in_use, socket_at in Hu. cbn [andb] in Hu.
  destruct Hu as [Hu|[Hu|[Hu|[Hu|[Hu|(?&?&?)]]]]]; [lia|lia|done| | |by auto].
  - destruct (t_socket t =? -1) eqn:E; cbn [negb] in Hu; lia.
  - destruct W8 as [?|(W8 & _)]; [lia|]. destruct (t_socket t =? -1); lia.
Qed.

Lemma close_std_one i c : ready (view c) → 0 ≤ i < 3 → (i = 0 → input_fd p = -1) →
  ready (view (if i =? force then c else close i c)).
Proof.
  intros ((W & L) & E) Hi H0. destruct (Z.eqb_spec i force) as [|Hf]; [by split|].
  split; [|exact E]. split; [|exact L]. apply (wf_del _ _ _ _ _ _ _ (view c) i W).
  apply not_in_use_std; [done..| |done]. pose proof lo_ge. intros ->.
  destruct (w_notify _ _ _ _ _ _ _ _ W) as [?|[_ [?|[_ ?]]]]; [lia..|done].
Qed.
Lemma close_std_ok F : hoare F (on_view ready) (close_std p) (on_view ready).
Proof.
  apply hoare_done. intros c Hc. unfold on_view in *. destruct (Z.eqb_spec (input_fd p) (-1)).
  - cbn [for_each foldl]. by repeat (apply close_std_one; [|lia|done]).
  - cbn [for_each foldl]. by repeat (apply close_std_one; [|lia|lia]).
Qed.

Definition stdin_ok t : Prop := t_fds t !! 0 = Some (stdin_file (t_notify t), false).
Lemma open_stdin_ok :
  hoare reported (on_view ready) (open_stdin p) (on_view (λ t, ready t ∧ stdin_ok t)).
Proof.
  intros c R. pose proof R as ((W & L) & E). unfold open_stdin, stdin_ok, stdin_file, on_view.
  destruct (Z.eqb_spec (notify_fd c) 0) as [En|En]; cbn [negb andb].
  { split; [done|]. cbn [view t_notify]. rewrite En. cbn [Z.eqb].
    destruct (w_notify _ _ _ _ _ _ _ _ W) as [Hn|[Hn _]]; cbn [view t_notify t_fds] in Hn; [lia|].
    by rewrite En in Hn. }
  destruct (Z.eqb_spec (input_fd p) (-1)) as [Ei|Ei].
  2: { split; [done|]. cbn [view t_notify]. rewrite (proj2 (Z.eqb_neq _ _)) by done. by apply (w_input _ _ _ _ _ _ _ _ W). }
  pose proof (open_file_cases dev_null c) as Ho. pose proof (free_fd_free 0 c) as Hf. pose proof (free_fd_ge 0 c) as Hg.
  destruct (open_file _ _) as [c1 k]. destruct Ho as [[-> Hv]|[-> Hv]].
  { cbn. by eapply same_reported, Hv. }
  set (k := free_fd 0 c) in *.
  assert (ready (view c1)) as R1.
  { rewrite Hv. split; [|exact E]. split; [|exact L]. by apply wf_new. }
  assert (t_notify (view c1) = notify_fd c) as En1 by (by rewrite Hv).
  assert (t_fds (view c1) !! k = Some (Opened_path dev_null, false)) as Ek1.
  { rewrite Hv. unfold set_entry. rsimpl. apply lookup_insert_eq. }
  destruct (decide (k = 0)) as [E0|E0].
  { unfold move_fd. rewrite E0. change (0 =? -1) with false. change (0 =? 0) with true. cbv iota.
    split; [done|]. rewrite En1, (proj2 (Z.eqb_neq _ _)) by done. by rewrite E0 in Ek1. }
  pose proof (move_fd_cases k 0 c1 _ _ Ek1) as Hm. destruct R1 as ((W1 & L1) & E1).
  destruct (move_fd _ _ _) as [c2 r]. destruct Hm as [[-> Hv2]|[-> Hv2]]; [lia..| |].
  { cbn. by eapply same_reported, Hv2. }
  change (0 =? 0) with true. cbv iota. rewrite Hv2.
  assert (¬ in_use p true true (view c1) 0) as H0.
  { apply not_in_use_std; [done|lia| |done]. by rewrite En1. }
  assert (¬ in_use p true true (view c1) k) as Hk.
  { intros Hu. by apply (in_use_file _ _ _ _ _ _ _ _ _ _ _ W1 Hg Ek1) in Hu. }
  split; [split; [split; [|exact L1]|exact E1]|].
  - apply wf_del; [|exact Hk]. by apply wf_set.
  - unfold del_entry, set_entry. rsimpl. rewrite En1, (proj2 (Z.eqb_neq _ 0)) by done.
    rewrite lookup_delete_ne by done. apply lookup_insert_eq.
Qed.

(** [output_fd] is apart from everything that is in use. *)
Definition no_output t : table := t <| t_output := -1 |>.
Record settled t : Prop := {
  s_wf : wfd (no_output t);
  s_socket : t_socket t = sk0;
  s_there : (t_notify t =? -1) = no_notify ∧ (t_cs t =? -1) = no_cs;
  s_env : env_done t;
  s_stdin : on_console p = false → stdin_ok t
}.
Record output_ready t : Prop := {
  o_settled : settled t;
  o_pos : 0 < t_output t;
  o_apart : ¬ in_use p true true (no_output t) (t_output t);
  o_file : ∃ b, t_fds t !! t_output t = Some (out_file, b) ∧ (b = true → 3 ≤ t_output t)
}.

Lemma no_output_wf t : wfd t → wfd (no_output t).
Proof. intros [W1 W2 W3 W4 W5 W6 W7 W8 W9]. split; try done. by left. Qed.
Lemma settled_reported c : settled (view c) → reported c.
Proof. intros S. left. exact (w_status _ _ _ _ _ _ _ _ (s_wf _ S)). Qed.

Lemma open_output_ok : on_console p = false →
  hoare reported (on_view (λ t, ready t ∧ stdin_ok t)) (open_output p) (on_view output_ready).
Proof.
  intros Hcon c (((W & L) & E) & Hi). pose proof L as (L1 & L2 & L3 & L4 & L5).
  unfold open_output. pose proof (no_output_wf _ W) as W'.
  assert (output_fd c = o0) as Eo by exact L4. rewrite Eo. unfold out_file.
  destruct (Z.eqb_spec o0 (-1)) as [Eo0|Eo0].
  2: { destruct (w_output _ _ _ _ _ _ _ _ W) as [?|(Hlo & b & Ek)]; [congruence|].
    assert (3 ≤ t_output (view c)) as Hlo3 by (destruct (t_socket _ =? -1); lia).
    split; [by split|lia| |].
    - intros Hu. apply (in_use_file _ _ _ _ _ _ _ _ (t_output (view c)) Output_pipe b W') in Hu; [|lia|exact Ek].
      change (t_output (view c) = -1) in Hu. lia.
    - exists b. unfold out_file. by rewrite (proj2 (Z.eqb_neq _ _)). }
  pose proof (open_file_cases (logfile p) c) as Ho. pose proof (free_fd_free 0 c) as Hf. pose proof (free_fd_ge 0 c) as Hg.
  destruct (open_file _ _) as [c1 k]. destruct Ho as [[-> Hv]|[-> Hv]].
  { rewrite Z.eqb_refl. unfold reported. left. pose proof (w_status _ _ _ _ _ _ _ _ W) as Ws.
    rewrite <- Hv in Ws. by destruct (log_to_file p). }
  set (k := free_fd 0 c) in *. rewrite (proj2 (Z.eqb_neq k _)) by lia.
  set (x := (Opened_path (logfile p), false)) in *.
  assert (k ≠ 0) as Hk0 by (intros E0; rewrite E0 in Hf; unfold stdin_ok in Hi; cbn in Hi; congruence).
  assert (output_ready (view (c1 <| output_fd := k |>))) as HR.
  { assert (view (c1 <| output_fd := k |>) = (set_entry k x (view c)) <| t_output := k |>) as ->.
    { transitivity ((view c1) <| t_output := k |>); [done|]. by rewrite Hv. }
    assert (wfd (no_output (set_entry k x (view c)))) as W1.
    { apply no_output_wf. by apply wf_new. }
    split; [split; [exact W1|exact L3|exact L5|exact E|intros _]|rsimpl; lia| |].
    - unfold stdin_ok, set_entry. rsimpl. rewrite lookup_insert_ne by done. exact Hi.
    - intros Hu. assert (t_fds (no_output (set_entry k x (view c))) !! k = Some x) as Ek.
      { unfold no_output, set_entry. rsimpl. apply lookup_insert_eq. }
      exact (in_use_file _ _ _ _ _ _ _ _ _ _ _ W1 Hg Ek Hu).
    - exists false. unfold out_file. rewrite Eo0. split; [|done]. unfold set_entry. rsimpl. apply lookup_insert_eq. }
  revert HR. generalize (c1 <| output_fd := k |>). intros c2 HR. revert c2 HR.
  change (hoare reported (on_view output_ready) (if_ (log_to_file p)
        (call (syscall (λ c, c <| file_owner := Some (logfile_uid p, logfile_gid p) |>))
         >>> call (syscall (λ c, c <| file_mode := Some (logfile_perms p) |>)))) (on_view output_ready)).
  apply hoare_if; [intros _|done].
  eapply hoare_then; apply hoare_view; try (intros ? HR; by apply settled_reported, o_settled);
    apply keeps_call; intros c'; by apply view_syscall.
Qed.

(** The output goes to a standard descriptor that the notification does not have. *)
Lemma put_output_ok d c : on_console p = false → output_ready (view c) → 1 ≤ d < 3 → d ≠ notify_fd c →
  let '(c', r) := move_fd (output_fd c) d c in
  if r =? 0 then settled (view c') ∧ notify_fd c' = notify_fd c ∧ t_fds (view c') !! d = Some (out_file, false)
  else reported c'.
Proof.
  intros Hcon [[S1 S2 S3 S3' S4] Hp Ha (b & Ek & Hb)] Hd Hn. cbn [view t_output t_fds] in Hp, Ek, Hb.
  destruct (decide (output_fd c = d)) as [Eo|Eo].
  { unfold move_fd. rewrite (proj2 (Z.eqb_neq _ (-1))), Eo, Z.eqb_refl by lia.
    change (0 =? 0) with true. cbv iota. split; [by split|]. split; [done|]. cbn [view t_fds].
    rewrite <- Eo, Ek. destruct b; [|done]. specialize (Hb eq_refl). lia. }
  pose proof (move_fd_cases (output_fd c) d c _ _ Ek) as Hm.
  destruct (move_fd _ _ _) as [c' r]. destruct Hm as [[-> Hv]|[-> Hv]]; [lia..| |].
  { change (-1 =? 0) with false. cbv iota. left. pose proof (w_status _ _ _ _ _ _ _ _ S1) as Ws.
    change (t_fds (view c) !! t_wpipe (view c) = Some (Status_pipe, true)) in Ws. rewrite <- Hv in Ws. exact Ws. }
  change (0 =? 0) with true. cbv iota. specialize (S4 Hcon).
  change (notify_fd c') with (t_notify (view c')). rewrite Hv.
  assert (¬ in_use p true true (no_output (view c)) d) as Hd'.
  { apply not_in_use_std; [done|lia|done|lia]. }
  split; [split; [|done..|intros _]|split; [done|]].
  - apply (wf_del _ _ _ _ _ _ _ (no_output (set_entry d (out_file, false) (view c)))); [|done].
    apply (wf_set _ _ _ _ _ _ _ (no_output (view c))); [done..|]. unfold out_file. by destruct (o0 =? -1).
  - unfold stdin_ok, del_entry, set_entry. rsimpl. rewrite lookup_delete_ne, lookup_insert_ne by lia. exact S4.
  - unfold del_entry, set_entry. rsimpl. rewrite lookup_delete_ne by lia. apply lookup_insert_eq.
Qed.

Definition std_ok t : Prop :=
  stdin_ok t ∧ t_fds t !! 1 = Some (stdout_file (t_notify t), false)
  ∧ t_fds t !! 2 = Some (stderr_file (t_notify t), false).
Definition final t : Prop := settled t ∧ (on_console p = false → std_ok t).

Lemma notify_at k t : settled t → 0 ≤ k → t_notify t = k → t_fds t !! k = Some (Notify_pipe, false).
Proof.
  intros S Hk <-. destruct (w_notify _ _ _ _ _ _ _ _ (s_wf _ S)) as [Hn|[Hn _]]; [|exact Hn].
  cbn [no_output t_notify] in Hn. change (t_notify t = -1) in Hn. lia.
Qed.

Lemma place_output_ok : on_console p = false →
  hoare reported (on_view output_ready) place_output (on_view final).
Proof.
  intros Hcon c R. unfold place_output, on_view, final, std_ok, stdout_file, stderr_file.
  destruct (Z.eqb_spec (notify_fd c) 1) as [En|En]; cbn [negb].
  { pose proof (put_output_ok 2 c Hcon R ltac:(lia) ltac:(lia)) as Hp.
    destruct (move_fd _ _ _) as [c' r]. destruct (r =? 0); [|done]. destruct Hp as (S & En' & E2).
    change (t_notify (view c')) with (notify_fd c'). split; [done|]. intros _. rewrite En', En.
    change (1 =? 1) with true. change (1 =? 2) with false. split_and!; [by apply S| |done].
    apply notify_at; [done|lia|]. by rewrite <- En. }
  pose proof (put_output_ok 1 c Hcon R ltac:(lia) ltac:(lia)) as Hp.
  destruct (move_fd _ _ _) as [c' r]. destruct (r =? 0); cbn [negb]; [|done]. destruct Hp as (S & En' & E1).
  rewrite En'. destruct (Z.eqb_spec (notify_fd c) 2) as [En2|En2]; cbn [negb].
  { change (t_notify (view c')) with (notify_fd c'). split; [done|]. intros _. rewrite En', En2.
    change (2 =? 1) with false. change (2 =? 2) with true. split_and!; [by apply S|done|].
    apply notify_at; [done|lia|]. by rewrite <- En2. }
  pose proof (dup2_cases 1 2 c' _ _ E1) as Hd. destruct (dup2 _ _ _) as [c2 r2].
  destruct Hd as [[-> Hv]|[-> Hv]].
  { cbn. apply settled_reported. by rewrite Hv. }
  change (1 =? 2) with false in Hv. change (2 =? 2) with true. cbv iota in *.
  destruct S as [S1 S2 S3 S3' S4]. rewrite Hv.
  assert (stdin_ok (set_entry 2 (out_file, false) (view c'))) as Hi.
  { unfold stdin_ok, set_entry. rsimpl. rewrite lookup_insert_ne by lia. by apply S4. }
  split; [split; try done|intros _; split; [done|]].
  - apply (wf_set _ _ _ _ _ _ _ (no_output (view c'))); [done| |unfold out_file; by destruct (o0 =? -1)].
    apply not_in_use_std; [done|lia| |lia]. change (2 ≠ notify_fd c'). lia.
  - change (t_notify (set_entry _ _ _)) with (notify_fd c').
    rewrite (proj2 (Z.eqb_neq (notify_fd c') 1)), (proj2 (Z.eqb_neq (notify_fd c') 2)) by lia.
    unfold set_entry. rsimpl. rewrite lookup_insert_ne, lookup_insert_eq by lia. by split.
Qed.

Lemma set_up_output_ok : on_console p = false →
  hoare reported (on_view ready) (set_up_output p) (on_view final).
Proof.
  intros Hcon. eapply hoare_then; [apply close_std_ok|].
  apply (hoare_then _ _ (on_view ready)); [by apply hoare_done|].
  eapply hoare_then; [apply open_stdin_ok|]. eapply hoare_then; [by apply open_output_ok|].
  eapply hoare_then; [by apply place_output_ok|]. by apply hoare_done.
Qed.
Lemma set_up_console_ok : on_console p = true →
  hoare reported (on_view ready) (set_up_console H p) (on_view final).
Proof.
  intros Hcon. eapply hoare_weaken; [done| |apply (hoare_view _ ready)].
  - intros c ((W & L1 & L2 & L3 & L4 & L5) & E). split; [|by rewrite Hcon].
    split; [by apply no_output_wf|done..|by rewrite Hcon].
  - apply keeps_then; [by apply keeps_if|]. apply keeps_then; [done|]. by apply keeps_if.
  - intros c ((W & _) & _). by eapply wf_reported.
Qed.

(** ** The rest *)

Lemma final_reported c : final (view c) → reported c.
Proof. intros [S _]. by apply settled_reported. Qed.
Lemma final_step m : keeps view m → hoare reported (on_view final) m (on_view final).
Proof. intros Hm. apply hoare_view; [done|]. apply final_reported. Qed.
Lemma keeps_privileged {A} (g : child → A) b f c :
  (∀ r c, g (c <| results := r |>) = g c) → (∀ e c, g (c <| errno := e |>) = g c) →
  (∀ c, g (f c) = g c) → g (privileged b f c).1 = g c.
Proof. intros H1 H2 Hf. unfold privileged. destruct (_ || _); [by apply syscall_keeps|apply H2]. Qed.

Lemma limits_view : keeps view (set_limits p).
Proof.
  apply keeps_then; [done|]. generalize (rlimits p) as ls. intros ls.
  induction ls as [|l ls IH]; [done|]. cbn [foldr]. apply keeps_then; [|exact IH].
  apply keeps_then; [apply keeps_if; intros _|]; apply keeps_call; intros c; by apply view_syscall.
Qed.
Lemma ids_view : keeps view (set_ids H p).
Proof.
  apply keeps_if. intros _. apply keeps_then; [done|].
  assert (∀ l, keeps view (setgroups l)) as Hg.
  { intros l. apply keeps_call. intros c. by apply keeps_privileged. }
  assert (∀ g, keeps view (setregid g)) as Hr.
  { intros g c. unfold setregid. revert c.
    enough (∀ b, keeps view (call (privileged b (λ c, c <| egid := g |>)))) as Hb by (intros c; apply Hb).
    intros b. apply keeps_call. intros c. by apply keeps_privileged. }
  apply keeps_then.
  - unfold set_groups. destruct (negb _); [by apply keeps_then|].
    destruct (getpwuid H (uid p)) as [[name g]|e]; [by apply keeps_then|done].
  - intros c. unfold setreuid.
    enough (∀ b, keeps view (call (privileged b (λ c, c <| euid := uid p |>)))) as Hb by apply Hb.
    intros b. apply keeps_call. intros c'. by apply keeps_privileged.
Qed.

Lemma set_priority_ok : hoare reported (on_view final) (set_priority p) (on_view final).
Proof.
  unfold set_priority. destruct (nice p) as [n|]; [|by apply hoare_done].
  eapply hoare_then; [by apply (hoare_done _ _ (on_view final))|].
  eapply hoare_then; [by apply final_step, keeps_call; intros c; apply view_syscall|].
  intros c Fc. pose proof (final_reported _ Fc) as [Rc|[? _]].
  2: { destruct Fc as [S _]. pose proof (w_wpipe _ _ _ _ _ _ _ _ (s_wf _ S)) as Hw. cbn in Hw.
       change (lo ≤ wpipefd c) in Hw. pose proof lo_ge. lia. }
  pose proof (open_file_cases autogroup_file c) as Ho. pose proof (free_fd_free 0 c) as Hf. pose proof (free_fd_ge 0 c) as Hg.
  destruct (open_file _ _) as [c1 k]. destruct Ho as [[-> Hv]|[-> Hv]].
  { change (-1 =? -1) with true. cbn [negb].
    assert (final (view c1)) as Fc1 by (by rewrite Hv).
    destruct (_ =? ENOENT); [exact Fc1|by apply final_reported]. }
  set (k := free_fd 0 c) in *. rewrite (proj2 (Z.eqb_neq k _)) by lia. cbn [negb].
  set (opened t := t = set_entry k (Opened_path autogroup_file, false) (view c)).
  assert (∀ c', opened (view c') → reported c') as HF.
  { intros c' E. left. change (fds c') with (t_fds (view c')). change (wpipefd c') with (t_wpipe (view c')).
    rewrite E. unfold set_entry. rsimpl. rewrite lookup_insert_ne; [exact Rc|].
    intros Ek. change (k = wpipefd c) in Ek. congruence. }
  assert (opened (view c1)) as Hc1 by done. revert c1 Hc1 Hv. intros c1 Hc1 _. revert c1 Hc1.
  eapply (hoare_then _ (on_view opened)).
  { apply hoare_view; [|exact HF]. apply keeps_call. intros c'. by apply view_syscall. }
  apply hoare_call. intros c1 Hc1.
  assert (view (close k c1) = view c) as Hv.
  { change (view (close k c1)) with (del_entry k (view c1)). rewrite Hc1. unfold del_entry, set_entry. rsimpl.
    transitivity ((view c) <| t_fds := delete k (<[k := (Opened_path autogroup_file, false)]> (fds c)) |>); [done|].
    by rewrite delete_insert_id. }
  pose proof (view_syscall id (close k c1) ltac:(done)) as Hs. destruct (syscall _ _) as [c2 r].
  cbn in Hs. rewrite Hv in Hs. assert (final (view c2)) as Fc2 by (by rewrite Hs).
  destruct (r =? -1); [by apply final_reported|exact Fc2].
Qed.

Definition image c : exec_image := Exec_image (args p) (proc_env c) (kept_fds (fds c)).
Lemma exec_ok :
  hoare reported (on_view final) (do_exec p) (λ c, final (view c) ∧ ended c = Executed (image c)).
Proof.
  intros c Fc. unfold do_exec, syscall. rsimpl. destruct (results c) as [|[e|] rest].
  - by split.
  - by apply final_reported.
  - by split.
Qed.
Lemma run_ok :
  hoare reported (on_view (λ t, before_input p sk0 o0 no_notify no_cs t ∧ t_service_env t = e0))
    (run_child_steps H p) (λ c, final (view c) ∧ ended c = Executed (image c)).
Proof.
  unfold run_child_steps. eapply hoare_then; [|eapply hoare_then; [apply arrange_ok|]].
  { by apply hoare_done. }
  eapply hoare_then; [apply environment_ok|]. eapply hoare_then.
  { apply (hoare_view _ ready); [|intros c ((W & _) & _); by eapply wf_reported].
    apply keeps_if. intros _. apply keeps_then; [done|]. apply keeps_call. intros c. by apply view_syscall. }
  eapply (hoare_then _ _ (on_view final)).
  { destruct (on_console p) eqn:Hcon; [by apply set_up_console_ok|by apply set_up_output_ok]. }
  eapply hoare_then; [apply final_step, limits_view|]. eapply hoare_then; [apply set_priority_ok|].
  eapply hoare_then; [apply final_step, ids_view|]. eapply hoare_then; [by apply final_step|]. apply exec_ok.
Qed.
End run.

Lemma kept_lookup (tb : gmap Z (file * bool)) fd f : kept_fds tb !! fd = Some f ↔ tb !! fd = Some (f, false).
Proof.
  unfold kept_fds. rewrite lookup_omap. destruct (tb !! fd) as [[g [|]]|]; cbn; naive_solver.
Qed.

(** ** Properties *)

(** What the parent sees to: standard input, output and error are open, so that the
    descriptors that are handed over come after them (after 3, for the activation socket and
    the output with it); the status pipe is closed on [exec], and the forced notification
    descriptor is none of the others ([ChildLaws.apart]). *)
Definition launch_ok (p : params) c : Prop :=
  before_input p (socket_fd c) (output_fd c) (notify_fd c =? -1) (csfd c =? -1) (view c).

(** C31: Condition (launch_ok): descriptors 0 to 2 are in order; all that are handed over
    are 3 or above (with an activation socket 4 or above for it and the output pipe); if a
    notification descriptor is forced there is a notification pipe, and control socket,
    activation socket and output_fd are not at that number, it is not 3 with an activation
    socket nor 0 with an input. (Where output_fd or control socket is at it, or the socket
    at 3, the code fails: run-child-proc.cc:151, 138, 194, child_defects.) If then the
    program is run: the status pipe is closed; the notification pipe is at the forced
    descriptor if any, the control socket is open, both with their numbers in the
    environment; the activation socket is descriptor 3; and, unless the service has the
    console, standard input, output and error are the null device or the consumer's input,
    and the log, except where one is taken for the notification. *)
Theorem child_descriptors (H : child_host) (p : params) c : launch_ok p c →
  match ended (run_child_proc H p c) with
  | Executed img =>
      exec_args img = args p
      ∧ (∀ fd, exec_fds img !! fd ≠ Some Status_pipe)
      ∧ (socket_fd c ≠ -1 → exec_fds img !! 3 = Some Activation_socket)
      ∧ ∃ n cs,
          exec_env img = Env.env_list (Env.build_from (environ H) (main_env H)
            (set_vars H (child_vars H p (socket_fd c) n cs) (service_env c)))
          ∧ (if notify_fd c =? -1 then n = -1 else exec_fds img !! n = Some Notify_pipe)
          ∧ (force_notify_fd p ≠ -1 → n = force_notify_fd p)
          ∧ (if csfd c =? -1 then cs = -1 else exec_fds img !! cs = Some Control_socket)
          ∧ (on_console p = false →
               exec_fds img !! 0 = Some (stdin_file p n)
               ∧ exec_fds img !! 1 = Some (stdout_file p (output_fd c) n)
               ∧ exec_fds img !! 2 = Some (stderr_file p (output_fd c) n))
  | _ => True
  end.
Proof.
  intros HL. unfold run_child_proc.
  pose proof (run_ok H p _ _ _ _ (service_env c) c (conj HL eq_refl)) as Hr.
  destruct (run_child_steps H p c) as [c' [|]].
  2: { unfold failure_out. destruct (fds c' !! wpipefd c') as [[f b]|]; [|done].
       unfold syscall. by destruct (results c') as [|[|]]. }
  destruct Hr as [[S Hstd] ->]. destruct S as [W Hs [Hn Hc] He Hi]. unfold image. cbn [exec_args exec_fds exec_env].
  split_and!; [done| | |exists (notify_fd c'), (csfd c'); split_and!].
  - intros fd E. apply kept_lookup in E. by apply (w_only _ _ _ _ _ _ _ _ W) in E.
  - intros Hne. apply kept_lookup. destruct (w_socket _ _ _ _ _ _ _ _ W) as [E|E]; [|exact E].
    by rewrite <- Hs in Hne.
  - exact He.
  - change (t_notify (view c')) with (notify_fd c') in Hn. rewrite <- Hn.
    destruct (Z.eqb_spec (notify_fd c') (-1)) as [|Hne]; [done|]. apply kept_lookup.
    by destruct (w_notify _ _ _ _ _ _ _ _ W) as [E|[E _]].
  - by apply (w_placed _ _ _ _ _ _ _ _ W).
  - change (t_cs (view c')) with (csfd c') in Hc. rewrite <- Hc.
    destruct (Z.eqb_spec (csfd c') (-1)) as [|Hne]; [done|]. apply kept_lookup.
    by destruct (w_cs _ _ _ _ _ _ _ _ W) as [E|[E _]].
  - intros Hcon. destruct (Hstd Hcon) as (E0 & E1 & E2). split_and!; by apply kept_lookup.
Qed.

(** The report is written unless the call fails. *)
Definition write_succeeds c : bool := match results c with Some _ :: _ => false | _ => true end.

(** C32: The function always ends, with [exec] or, when any call fails, with a report of the stage and
    the error.  The report reaches the parent through the status pipe, unless writing it fails
    or, early on, the descriptor of the pipe itself could not be put out of the way. *)
Theorem child_reports (H : child_host) (p : params) c : launch_ok p c →
  let '(c', ok) := run_child_steps H p c in
  if ok then ∃ img, ended (run_child_proc H p c) = Executed img
  else ∃ told, ended (run_child_proc H p c) = Exited (stage c', errno c') told
    ∧ (told = write_succeeds c' ∨ (stage c' = exec_stage.ARRANGE_FDS ∧ wpipefd c' = -1)).
Proof.
  intros HL. unfold run_child_proc.
  pose proof (run_ok H p _ _ _ _ (service_env c) c (conj HL eq_refl)) as Hr.
  destruct (run_child_steps H p c) as [c' [|]]; [destruct Hr as [_ ->]; by eexists|].
  unfold failure_out. destruct Hr as [E|[Hw Hs]].
  - rewrite E. unfold syscall, write_succeeds. destruct (results c') as [|[e|] rest]; eexists; (split; [done|by left]).
  - destruct (fds c' !! wpipefd c') as [[f b]|]; [destruct (syscall id c')|]; eexists; (split; [done|by right]).
Qed.

(** ** The identity *)

Section identity.
Context (H : child_host) (p : params).
Abbreviation T := (λ _ : child, True).
Abbreviation attrs_are x := (λ c, attrs c = x).

Lemma hoare_attrs x m : keeps attrs m → hoare T (attrs_are x) m (attrs_are x).
Proof. intros Hm c Hc. specialize (Hm c). destruct (m c) as [c' [|]]; [|done]. cbn in Hm. congruence. Qed.
Lemma hoare_call_attrs x y b f : (∀ c, attrs c = x → attrs (f c) = y) →
  hoare T (attrs_are x) (call (privileged b f)) (attrs_are y) ∧ hoare T (attrs_are x) (call (syscall f)) (attrs_are y).
Proof.
  intros Hf. assert (hoare T (attrs_are x) (call (syscall f)) (attrs_are y)) as Hs.
  { apply hoare_call. intros c Hc. unfold syscall. destruct (results c) as [|[e|] rest]; [by apply Hf|done|].
    change (0 =? -1) with false. cbv iota. by apply Hf. }
  split; [|done]. intros c Hc. unfold call, privileged. destruct (_ || _); [by apply (Hs c)|done].
Qed.
Lemma hoare_syscall x y f : (∀ c, attrs c = x → attrs (f c) = y) →
  hoare T (attrs_are x) (call (syscall f)) (attrs_are y).
Proof. intros Hf. by apply (hoare_call_attrs x y true). Qed.
Lemma hoare_privileged x y b f : (∀ c, attrs c = x → attrs (f c) = y) →
  hoare T (attrs_are x) (call (privileged b f)) (attrs_are y).
Proof. intros Hf. by apply hoare_call_attrs. Qed.

Lemma open_attrs path c : attrs (open_file path c).1 = attrs c.
Proof. exact (f_equal (snd ∘ snd) (kept_open path c)). Qed.
Lemma move_attrs fd dest c : attrs (move_fd fd dest c).1 = attrs c.
Proof. exact (f_equal (snd ∘ snd) (kept_move_fd fd dest c)). Qed.
Lemma dup2_attrs fd dest c : attrs (dup2 fd dest c).1 = attrs c.
Proof. exact (f_equal (snd ∘ snd) (kept_dup2 fd dest c)). Qed.

Lemma environment_attrs :
  keeps attrs (set_notify_var H p >>> set_activation_socket H >>> set_control_socket H >>> build_env H).
Proof.
  apply keeps_then; [by apply keeps_if; intros _; apply keeps_then|].
  apply keeps_then; [|apply keeps_then; [|by apply keeps_then]]; intros c.
  - unfold set_activation_socket. destruct (negb _); [|done].
    pose proof (dup2_attrs (socket_fd c) 3) as Hd. revert Hd. generalize (socket_fd c) at 1 2 3 4. intros s Hd.
    revert c. apply keeps_then; [done|]. apply keeps_then; [by apply keeps_call|].
    apply keeps_then; [by apply keeps_if|]. by apply keeps_then.
  - unfold set_control_socket. destruct (negb _); [|done]. generalize (csfd c). intros s.
    revert c. by apply keeps_then.
Qed.

Lemma output_attrs : keeps attrs (set_up_output p).
Proof.
  apply keeps_then; [|apply keeps_then; [done|apply keeps_then; [|apply keeps_then; [|apply keeps_then; [|done]]]]].
  - intros c. unfold close_std, done_. cbn [fst].
    generalize (if input_fd p =? -1 then [0; 1; 2] else [1; 2]). intros l. revert c.
    induction l as [|i l IH]; intros c; [done|].
    transitivity (attrs (if i =? force_notify_fd p then c else close i c)); [apply IH|]. by destruct (i =? _).
  - intros c. unfold open_stdin. destruct (_ && _); [|done].
    pose proof (open_attrs dev_null c) as Ho. destruct (open_file _ _) as [c1 fd].
    pose proof (move_attrs fd 0 c1) as Hm. destruct (move_fd _ _ _) as [c2 r]. cbn in *. congruence.
  - intros c. unfold open_output. destruct (_ =? -1); [|done].
    pose proof (open_attrs (logfile p) c) as Ho. destruct (open_file _ _) as [c1 fd]. cbn [fst] in Ho.
    destruct (fd =? -1); [by destruct (log_to_file p)|].
    rewrite <- Ho. change (attrs c1) with (attrs (c1 <| output_fd := fd |>)).
    generalize (c1 <| output_fd := fd |>). apply keeps_if. intros _.
    apply keeps_then; apply keeps_call; intros c'; by apply syscall_keeps.
  - intros c. unfold place_output. pose proof (move_attrs (output_fd c) 1 c) as H1.
    pose proof (move_attrs (output_fd c) 2 c) as H2. destruct (negb _).
    + destruct (move_fd _ _ _) as [c1 r]. destruct (negb (r =? 0)); [exact H1|].
      destruct (negb _); [|exact H1]. pose proof (dup2_attrs 1 2 c1) as Hd. destruct (dup2 _ _ _). cbn in *. congruence.
    + destruct (move_fd (output_fd c) 2 c). exact H2.
Qed.

Lemma console_attrs : keeps attrs (set_up_console H p).
Proof. apply keeps_then; [by apply keeps_if|]. apply keeps_then; [done|]. by apply keeps_if. Qed.

(** What the steps make of the attributes. *)
Definition limit_after (m : gmap Z (Z * Z)) (l : SettingValue.service_rlimits) : gmap Z (Z * Z) :=
  let id := SettingValue.resource_id l in
  let current := default (0, 0) (m !! id) in
  <[id := (if SettingValue.soft_set l then SettingValue.rlim_cur l else current.1,
           if SettingValue.hard_set l then SettingValue.rlim_max l else current.2)]> m.
Definition ids_after (ids ids' : Z * Z * list Z) : Prop :=
  if uid p =? NO_ID then ids' = ids
  else if gid p =? NO_ID then
    ∃ name g, getpwuid H (uid p) = inl (name, g) ∧ ids' = (uid p, g, initgroups_of H name g)
  else ids' = (uid p, gid p, []).

Lemma limits_attrs w ls : ∀ lim pr ids,
  hoare T (attrs_are (w, lim, pr, ids)) (foldr (λ l rest, set_limit l >>> rest) (done_ id) ls)
    (attrs_are (w, foldl limit_after lim ls, pr, ids)).
Proof.
  induction ls as [|l ls IH]; intros lim pr ids; [by apply hoare_done|]. cbn [foldr foldl].
  eapply hoare_then; [|apply IH].
  eapply hoare_then; [|apply (hoare_syscall (w, lim, pr, ids))].
  - apply hoare_attrs, keeps_if. intros _. apply keeps_call. intros c. by apply syscall_keeps.
  - intros c Hc. unfold attrs in *. rsimpl. injection Hc as -> -> -> <- . by unfold limit_after.
Qed.

Lemma priority_attrs w lim pr ids :
  hoare T (attrs_are (w, lim, pr, ids)) (set_priority p)
    (attrs_are (w, lim, match nice p with Some n => Some (clamp_nice n) | None => pr end, ids)).
Proof.
  unfold set_priority. destruct (nice p) as [n|]; [|by apply hoare_done].
  eapply hoare_then; [by apply (hoare_done _ _ (attrs_are (w, lim, pr, ids)))|].
  eapply hoare_then.
  { apply (hoare_syscall _ (w, lim, Some (clamp_nice n), ids)). intros c Hc. unfold attrs in *. rsimpl.
    by injection Hc as -> -> _ <-. }
  apply hoare_attrs. intros c. pose proof (open_attrs autogroup_file c) as Ho.
  destruct (open_file _ _) as [c1 k]. destruct (negb _); [|exact Ho]. cbn [fst] in Ho. rewrite <- Ho.
  generalize c1. apply keeps_then; apply keeps_call; intros c'; [by apply syscall_keeps|].
  transitivity (attrs (close k c')); [by apply syscall_keeps|done].
Qed.

Lemma regid_attrs w lim pr u g gs g' :
  hoare T (attrs_are (w, lim, pr, (u, g, gs))) (setregid g') (attrs_are (w, lim, pr, (u, g', gs))).
Proof.
  intros c. unfold setregid. generalize (g' =? egid c). intros b. revert c.
  apply hoare_privileged. intros c Hc. unfold attrs in *. rsimpl. by injection Hc as -> -> -> -> _ ->.
Qed.
Lemma reuid_attrs w lim pr u g gs u' :
  hoare T (attrs_are (w, lim, pr, (u, g, gs))) (setreuid u') (attrs_are (w, lim, pr, (u', g, gs))).
Proof.
  intros c. unfold setreuid. generalize (u' =? euid c). intros b. revert c.
  apply hoare_privileged. intros c Hc. unfold attrs in *. rsimpl. by injection Hc as -> -> -> _ -> ->.
Qed.
Lemma setgroups_attrs w lim pr u g gs gs' :
  hoare T (attrs_are (w, lim, pr, (u, g, gs))) (setgroups gs') (attrs_are (w, lim, pr, (u, g, gs'))).
Proof.
  apply hoare_privileged. intros c Hc. unfold attrs in *. rsimpl. by injection Hc as -> -> -> -> -> _.
Qed.

Lemma ids_attrs w lim pr ids :
  hoare T (attrs_are (w, lim, pr, ids)) (set_ids H p)
    (λ c, ∃ ids', attrs c = (w, lim, pr, ids') ∧ ids_after ids ids').
Proof.
  destruct ids as [[u g] gs]. unfold set_ids, set_groups, ids_after.
  destruct (uid p =? NO_ID); [intros c Hc; by eexists|]. cbn [negb if_].
  eapply hoare_then; [by apply (hoare_done _ _ (attrs_are (w, lim, pr, (u, g, gs))))|].
  destruct (gid p =? NO_ID); cbn [negb].
  - destruct (getpwuid H (uid p)) as [[name g']|e].
    + eapply (hoare_weaken _ _ _ _ _ _ (λ c Hc, Hc)).
      2: { eapply hoare_then; [eapply hoare_then; [apply regid_attrs|apply setgroups_attrs]|apply reuid_attrs]. }
      intros c Hc. eexists. split; [exact Hc|by exists name, g'].
    + by intros c _.
  - eapply (hoare_weaken _ _ _ _ _ _ (λ c Hc, Hc)).
    2: { eapply hoare_then; [eapply hoare_then; [apply setgroups_attrs|apply regid_attrs]|apply reuid_attrs]. }
    intros c Hc. eexists; split; [exact Hc|done].
Qed.
End identity.

Lemma cwd_attrs p x lim pr ids :
  hoare (λ _, True) (λ c, attrs c = (x, lim, pr, ids)) (change_dir p)
    (λ c, attrs c = (if bool_decide (working_dir p = []) then x else Some (working_dir p), lim, pr, ids)).
Proof.
  unfold change_dir. destruct (bool_decide _); [by intros c|]. cbn [negb if_].
  eapply hoare_then; [by apply (hoare_done _ _ (λ c, attrs c = (x, lim, pr, ids)))|].
  apply hoare_syscall. intros c Hc. unfold attrs in *. rsimpl. by injection Hc as _ -> -> <-.
Qed.

(** Only the attributes that were asked for come to [exec]. *)
Lemma attrs_run (H : child_host) (p : params) x lim pr ids :
  hoare (λ _, True) (λ c, attrs c = (x, lim, pr, ids)) (run_child_steps H p)
    (λ c', (∃ ids', attrs c' = (if bool_decide (working_dir p = []) then x else Some (working_dir p),
         foldl limit_after lim (rlimits p),
         if nice p is Some n then Some (clamp_nice n) else pr, ids')
       ∧ ids_after H p ids ids') ∧ blocked c' = Some (signal_mask H p)).
Proof.
  unfold run_child_steps. eapply hoare_then; [by apply hoare_attrs|].
  eapply hoare_then; [apply hoare_attrs, keeps_attrs, aside_arrange|].
  eapply hoare_then; [apply hoare_attrs, environment_attrs|].
  eapply hoare_then; [apply cwd_attrs|].
  eapply hoare_then; [apply hoare_attrs; destruct (on_console p); [apply console_attrs|apply output_attrs]|].
  eapply hoare_then; [eapply hoare_then; [by apply hoare_attrs|apply limits_attrs]|].
  eapply hoare_then; [apply priority_attrs|]. eapply hoare_then; [apply ids_attrs|].
  intros c (ids' & Ha & Hi). unfold then_, done_, do_exec, syscall. rsimpl.
  destruct (results c) as [|[e|] rest]; [|done|]; cbn; (split; [by exists ids'|done]).
Qed.

(** C33: If the service's program is run, then in the working directory, with the limits, the
    nice value and the signal mask that are asked for, and, if a user is given, as that user and
    with the given group and no others, or else with the groups that the user has: there is no way
    past a call that failed. *)
Theorem child_identity (H : child_host) (p : params) c :
  let c' := run_child_proc H p c in
  match ended c' with
  | Executed _ =>
      cwd c' = (if bool_decide (working_dir p = []) then cwd c else Some (working_dir p))
      ∧ limits c' = foldl limit_after (limits c) (rlimits p)
      ∧ priority c' = (if nice p is Some n then Some (clamp_nice n) else priority c)
      ∧ ids_after H p (euid c, egid c, groups c) (euid c', egid c', groups c')
      ∧ blocked c' = Some (signal_mask H p)
  | _ => True
  end.
Proof.
  intros c'. unfold c'. clear c'. unfold run_child_proc.
  pose proof (attrs_run H p _ _ _ _ c eq_refl) as Hr. destruct (run_child_steps H p c) as [c' [|]].
  - destruct (ended c'); [done| |done]. destruct Hr as [(ids' & Ha & Hi) Hb].
    unfold attrs in Ha. injection Ha as -> -> -> Hids. rewrite Hids. done.
  - unfold failure_out. destruct (fds c' !! wpipefd c') as [[f b]|]; [|done].
    unfold syscall. by destruct (results c') as [|[|]].
Qed.

(** ** Examples *)

Definition ex_host : child_host :=
  Child_host 77 true {[SIGCHLD]} (λ _, inl (chars "u", 9)) (λ _ g, [g; 20]) [] Env.environment_new.
(** A service that has its readiness notification as standard error, say. *)
Definition ex_params (force : Z) : params :=
  Params [chars "prog"] (chars "/srv") (chars "/dev/null") false false false (Some 40) force
    (chars "READY") 5 NO_ID [SettingValue.Rlimits 7 true false 10 0] (-1) false 0 0 0.
Definition ex_child (socket output cs : Z) (others : gmap Z (file * bool)) : child :=
  Child 9 cs 6 socket output Env.environment_new [] exec_stage.ARRANGE_FDS 0 []
    (<[6 := (Notify_pipe, false)]> (<[9 := (Status_pipe, true)]>
      ({[0 := (Other_file 0, false); 1 := (Other_file 1, false); 2 := (Other_file 2, false)]} ∪ others)))
    None false false false false ∅ None [] None None 0 0 [0] None Running.
Definition ex_whole : child := ex_child 5 4 7
  {[4 := (Output_pipe, true); 5 := (Activation_socket, true); 7 := (Control_socket, false)]}.
Definition ran (H : child_host) (p : params) c : option exec_image :=
  if ended (run_child_proc H p c) is Executed img then Some img else None.

Lemma ex_launch : launch_ok (ex_params 2) ex_whole.
Proof.
  split; [|split; [|by left]].
  - split; [done| |vm_compute; congruence|right; split; [done|vm_compute; congruence]| |done| | |done].
    + intros fd b Hfd.
      assert (map_Forall (λ _ (x : file * bool), x.1 = Status_pipe → x.2 = true) (fds ex_whole)) as Hall.
      { by apply (bool_decide_unpack _); vm_compute. }
      by apply (Hall _ _ Hfd).
    + right. split; [done|left; vm_compute; congruence].
    + right. split; [vm_compute; congruence|by exists true].
    + right. split; [vm_compute; congruence|by exists true].
  - split; try done; try (intros _; vm_compute; congruence). right. split; vm_compute; congruence.
Qed.

Lemma child_descriptors_witness :
  launch_ok (ex_params 2) ex_whole
  ∧ ∃ img, ended (run_child_proc ex_host (ex_params 2) ex_whole) = Executed img
    ∧ exec_fds img !! 3 = Some Activation_socket ∧ exec_fds img !! 1 = Some Output_pipe
    ∧ exec_fds img !! 2 = Some Notify_pipe.
Proof.
  split; [exact ex_launch|]. pose proof (child_descriptors ex_host (ex_params 2) ex_whole ex_launch) as Hd.
  destruct (ended _) as [|img|] eqn:E in Hd |- *; [by vm_compute in E| |by vm_compute in E].
  destruct Hd as (_ & _ & Ha & n & cs & _ & Hn & Hf & _ & Hstd). exists img.
  assert (n = 2) as -> by (by apply Hf). destruct (Hstd eq_refl) as (_ & H1 & _).
  split_and!; [done|by apply Ha|exact H1|exact Hn].
Defined.

Lemma child_reports_witness :
  let c := ex_whole <| results := [None; Some 24] |> in
  launch_ok (ex_params 2) c
  ∧ ended (run_child_proc ex_host (ex_params 2) c) = Exited (exec_stage.SETUP_ACTIVATION_SOCKET, 24) true.
Proof.
  intros c. assert (launch_ok (ex_params 2) c) as HL by exact ex_launch. split; [exact HL|].
  pose proof (child_reports ex_host (ex_params 2) c HL) as Hr.
  destruct (run_child_steps _ _ c) as [c' ok] eqn:E in Hr. vm_compute in E. injection E as <- <-.
  destruct Hr as (told & -> & [->|[Hs _]]); [done|discriminate Hs].
Defined.

(** The program runs as the user, with a clamped nice value. *)
Example child_run_example :
  let c' := run_child_proc ex_host (ex_params 2) ex_whole in
  (euid c', egid c', groups c', priority c') = (5, 9, [9; 20], Some 19)
  ∧ limits c' = {[7 := (10, 0)]}.
Proof. by vm_compute. Qed.

(** What the conditions of [launch_ok] leave out, and the exception of [child_reports]:
    - the output pipe is not moved away from the forced descriptor: the program's output goes
      to the notification pipe, and the forced descriptor is closed;
    - the control socket is, but with the flag that closes it on [exec];
    - the activation socket is closed on [exec] if it was descriptor 3 already;
    - if the status pipe cannot be duplicated its descriptor is lost, and with it the report. *)
Theorem child_defects :
  let run force c := ran ex_host (ex_params force) c in
  let pipe : gmap Z (file * bool) := {[4 := (Output_pipe, true)]} in
  (∃ img, run 4 (ex_child (-1) 4 (-1) pipe) = Some img
     ∧ exec_fds img !! 1 = Some Notify_pipe ∧ exec_fds img !! 4 = None)
  ∧ (∃ img, run 7 (ex_child (-1) 4 7 (pipe ∪ {[7 := (Control_socket, false)]})) = Some img
     ∧ exec_fds img !! 7 = Some Notify_pipe
     ∧ map_Forall (λ _ f, f ≠ Control_socket) (exec_fds img))
  ∧ (∃ img, run 2 (ex_child 3 4 (-1) (pipe ∪ {[3 := (Activation_socket, true)]})) = Some img
     ∧ exec_fds img !! 3 = None)
  ∧ ended (run_child_proc ex_host (ex_params (-1))
      ((ex_child 5 (-1) (-1) {[3 := (Status_pipe, true); 5 := (Activation_socket, true)]})
         <| wpipefd := 3 |> <| results := [Some 24] |>))
    = Exited (exec_stage.ARRANGE_FDS, 24) false.
Proof.
  cbv zeta. split_and!.
  - eexists. split; [by vm_compute|by vm_compute].
  - eexists. split; [by vm_compute|]. split; [by vm_compute|]. by apply (bool_decide_unpack _); vm_compute.
  - eexists. split; by vm_compute.
  - by vm_compute.
Qed.
