(* ===== verification/IoStream.v ===== *)
(** * Streams

    Classes [ostream] and [istream] of dinit-iostream.h and dinit-iostream.cc: buffered output
    and input on a descriptor.  The results of the system calls to come are lists; the
    functions that do not throw ("_nx") return what the code returns, the others an exception
    as well.  Only the allocation of a buffer can fail for want of memory. *)

From S2P Require Import Prelude Text.
From S2P Require CpBuffer.
Import CpBuffer (cpbuffer).

Definition IOSTREAM_BUFSIZE : Z := 16384.
Definition EINTR : Z := 4.
Definition EBADF : Z := 9.
Definition O_RDONLY : Z := 0.
Definition O_WRONLY : Z := 1.

(** [io_states] *)
Definition eof_bit : Z := 1.
Definition buffer_fail_bit : Z := 2.
Definition input_fail_bit : Z := 4.
Definition io_fail_bit : Z := 8.

Variant io_exc := Iostream_eof | Iostream_system_err (error_code : Z) | Bad_alloc.

(** ** The system *)

(** A call of [read] or [writev] that takes at most so many bytes, or fails with an error
    number. *)
Variant io_result := Takes (n : nat) | Fails (e : positive).

Record system := System {
  errno : Z;
  writevs : list io_result;            (* without a result, everything is written *)
  reads : list io_result;              (* without a result, everything is read *)
  opens : list (nat + positive);
  closes : list (option positive);
  allocs : list bool;
  sent : text;                         (* what has been written *)
  rest : text;                         (* what is left to read *)
  opened : list (text * Z);            (* the calls of [open], [close] *)
  closed : list Z
}.
#[export] Instance eta_system : Eta system := λ s,
  System (errno s) (writevs s) (reads s) (opens s) (closes s) (allocs s) (sent s) (rest s)
    (opened s) (closed s).

Implicit Types (s : system) (b : cpbuffer) (msg : text).

Definition sys_open (path : text) (flags : Z) s : system * Z :=
  let result := head (opens s) in
  let s := s <| opened ::= cons (path, flags) |> <| opens ::= tail |> in
  match result with
  | Some (inr e) => (s <| errno := Z.pos e |>, -1)
  | Some (inl fd) => (s, Z.of_nat fd)
  | None => (s, 3)
  end.
Definition sys_close (fd : Z) s : system * Z :=
  let s := s <| closed ::= cons fd |> in
  match closes s with
  | Some e :: l => (s <| closes := l |> <| errno := Z.pos e |>, -1)
  | _ :: l => (s <| closes := l |>, 0)
  | [] => (s, 0)
  end.
Definition new_buffer s : system * option cpbuffer :=
  (s <| allocs ::= tail |>,
   if default true (head (allocs s)) then Some (CpBuffer.cpbuffer_new IOSTREAM_BUFSIZE) else None).

(** One result of [writev] on the bytes [data], and one of [read]; at the end of the file
    only, no bytes are read. *)
Definition writev_result (r : io_result) (data : text) s : system * Z :=
  match r with
  | Takes n => (s <| sent ::= λ t, t ++ take n data |>, Z.of_nat (min n (length data)))
  | Fails e => (s <| errno := Z.pos e |>, -1)
  end.
Definition read s (n : Z) : system * Z * text :=
  let got (k : nat) s := (s <| rest ::= drop k |>, Z.of_nat (min k (length (rest s))), take k (rest s)) in
  match reads s with
  | [] => got (Z.to_nat n) s
  | Takes k :: l => got (min (max 1 k) (Z.to_nat n)) (s <| reads := l |>)
  | Fails e :: l => (s <| reads := l |> <| errno := Z.pos e |>, -1, [])
  end.

(** ** What the two classes share *)

Record io_base := Io_base {
  fd : Z;
  stream_buf : option cpbuffer;
  io_error : Z
}.
#[export] Instance eta_io_base : Eta io_base := λ o, Io_base (fd o) (stream_buf o) (io_error o).
Definition io_base_new : io_base := Io_base (-1) None 0.

Definition is_open (o : io_base) : bool := 0 <=? fd o.
Definition set_fd (newfd : Z) s (o : io_base) : system * io_base :=
  let o := o <| fd := newfd |> in
  match stream_buf o with
  | Some _ => (s, o)
  | None => let '(s, b) := new_buffer s in (s, o <| stream_buf := b |>)
  end.
Definition check_buf (o : io_base) : option io_exc :=
  if (io_error o =? 0) && bool_decide (stream_buf o = None) then Some Bad_alloc else None.

(** The constructor from another stream and the assignment, with what is left of it. *)
Definition io_base_move (source : io_base) : io_base * io_base :=
  (Io_base (fd source) (stream_buf source) 0, source <| fd := -1 |> <| stream_buf := None |>).
Definition io_base_move_assign (source : io_base) : io_base * io_base :=
  (source, source <| stream_buf := None |>).

(** [writev_unintr], along the results to come; when there are none the call succeeds. *)
Fixpoint writev_loop (results : list io_result) (data : text) s : system * Z :=
  match results with
  | [] => (s <| writevs := [] |> <| sent ::= λ t, t ++ data |>, Z.of_nat (length data))
  | r :: results =>
      let '(s, n) := writev_result r data (s <| writevs := results |>) in
      if (n <? 1) && (errno s =? EINTR) then writev_loop results data s else (s, n)
  end.
Definition writev_unintr (bufv : list text) s : system * Z :=
  writev_loop (writevs s) (concat bufv) s.

(** The data of a buffer, in one part or in two. *)
Definition buffer_parts b : list text :=
  let ptr := CpBuffer.get_ptr IOSTREAM_BUFSIZE 0 b in
  let len := CpBuffer.get_contiguous_length IOSTREAM_BUFSIZE ptr b in
  CpBuffer.copy_out ptr len (CpBuffer.buf b)
  :: (if CpBuffer.get_length b =? len then []
      else [CpBuffer.copy_out 0 (CpBuffer.get_length b - len) (CpBuffer.buf b)]).

(** A result that is false becomes an exception if the state has one. *)
Definition or_throw (r : bool) (e : option io_exc) : option io_exc := if r then None else e.

(** ** Output *)

Module ostream.
Implicit Types (o : io_base).

Definition buffer_failure o : bool := bool_decide (stream_buf o = None).
Definition current_state o : Z :=
  Z.lor (if buffer_failure o then buffer_fail_bit else 0) (if io_error o =? 0 then 0 else io_fail_bit).
Definition good o : bool := current_state o =? 0.
Definition io_failure o : Z := io_error o.
Definition clear o : io_base := o <| io_error := 0 |>.

Definition throw_exception_on (states : Z) o : option io_exc :=
  if negb (Z.land states buffer_fail_bit =? 0) && buffer_failure o then Some Bad_alloc
  else if negb (Z.land states io_fail_bit =? 0) && negb (io_failure o =? 0)
  then Some (Iostream_system_err (io_failure o))
  else None.

(** [put]: every turn of the loop takes a result of [writev], or writes everything.
    [None]: the fuel is used up. *)
Fixpoint put_loop (fuel : nat) (count : Z) msg b s o : option (system * io_base * Z) :=
  let remaining_bytes := Z.of_nat (length msg) in
  if CpBuffer.get_free IOSTREAM_BUFSIZE b <? remaining_bytes then
    match fuel with
    | O => None
    | S fuel =>
        let '(s, cur) := writev_unintr (buffer_parts b ++ [msg]) s in
        if cur <? 0 then
          Some (s, o <| stream_buf := Some b |> <| io_error := errno s |>,
                if 0 <? count - remaining_bytes then count - remaining_bytes else -1)
        else if CpBuffer.get_length b <=? cur then
          let cur := cur - CpBuffer.get_length b in
          let b := CpBuffer.consume IOSTREAM_BUFSIZE (CpBuffer.get_length b) b in
          if remaining_bytes - cur =? 0 then Some (s, o <| stream_buf := Some b |>, count)
          else put_loop fuel count (drop (Z.to_nat cur) msg) b s o
        else put_loop fuel count msg (CpBuffer.consume IOSTREAM_BUFSIZE cur b) s o
    end
  else Some (s, o <| stream_buf := Some (CpBuffer.append IOSTREAM_BUFSIZE msg remaining_bytes b) |>, count).
Definition put msg s o : option (system * io_base * Z) :=
  match good o, stream_buf o with
  | true, Some b =>
      if bool_decide (msg = []) then Some (s, o, 0)
      else put_loop (S (length (writevs s))) (Z.of_nat (length msg)) msg b s o
  | _, _ => Some (s, o, -1)
  end.

(** [flush_nx], in the same way. *)
Fixpoint flush_loop (fuel : nat) b s o : option (system * io_base * bool) :=
  if 0 <? CpBuffer.get_length b then
    match fuel with
    | O => None
    | S fuel =>
        let '(s, r) := writev_unintr (buffer_parts b) s in
        if r <? 0 then Some (s, o <| stream_buf := Some b |> <| io_error := errno s |>, false)
        else flush_loop fuel (CpBuffer.consume IOSTREAM_BUFSIZE r b) s o
    end
  else Some (s, o <| stream_buf := Some b |>, true).
Definition flush_nx s o : option (system * io_base * bool) :=
  match good o, stream_buf o with
  | true, Some b => flush_loop (S (length (writevs s))) b s o
  | _, _ => Some (s, o, false)
  end.
Definition all_states : Z := Z.lor buffer_fail_bit io_fail_bit.
Definition flush s o : option (system * io_base * option io_exc) :=
  '(s, o, r) ← flush_nx s o; Some (s, o, or_throw r (throw_exception_on all_states o)).

(** [open_nx] with a path, and with flags. *)
Definition open_nx (path : text) s o : system * io_base * bool :=
  let '(s, newfd) := sys_open path O_WRONLY s in
  let o := o <| fd := newfd |> in
  if newfd <? 0 then (s, o <| io_error := errno s |>, false)
  else
    let '(s, b) := new_buffer s in
    match b with
    | Some b => (s, o <| stream_buf := Some b |>, true)
    | None => let '(s, _) := sys_close newfd s in (s, o <| stream_buf := None |> <| fd := -1 |>, false)
    end.
Definition open_nx_flags (path : text) (flags : Z) s o : system * io_base * bool :=
  let '(s, b) := new_buffer s in
  let o := o <| stream_buf := b |> in
  match b with
  | None => (s, o, false)
  | Some _ =>
      let '(s, newfd) := sys_open path (Z.lor O_WRONLY flags) s in
      let o := o <| fd := newfd |> in
      if newfd <? 0 then (s, o <| io_error := errno s |>, false) else (s, o, true)
  end.
Definition open (path : text) s o : system * io_base * option io_exc :=
  let '(s, o, r) := open_nx path s o in (s, o, or_throw r (throw_exception_on all_states o)).
Definition open_flags (path : text) (flags : Z) s o : system * io_base * option io_exc :=
  let '(s, o, r) := open_nx_flags path flags s o in (s, o, or_throw r (throw_exception_on all_states o)).

Definition close_nx s o : option (system * io_base * bool) :=
  if fd o <? 0 then Some (s, if good o then o <| io_error := EBADF |> else o, false)
  else
    '(s, o, r) ← flush_nx s o;
    if negb (r : bool) then
      let '(s, _) := sys_close (fd o) s in
      Some (s, o <| fd := -1 |> <| stream_buf := None |>, false)
    else
      let o := o <| stream_buf := None |> in
      let '(s, c) := sys_close (fd o) s in
      Some (s, if c <? 0 then o <| io_error := errno s |> <| fd := -1 |> else o <| fd := -1 |>, negb (c <? 0)).
Definition close s o : option (system * io_base * option io_exc) :=
  let buf_fail := (0 <=? fd o) && buffer_failure o in
  '(s, o, r) ← close_nx s o;
  Some (s, o, or_throw r (match throw_exception_on io_fail_bit o with
                          | Some e => Some e
                          | None => if buf_fail then throw_exception_on buffer_fail_bit o else None
                          end)).

(** What can be passed to [write]. *)
Variant item := Msg (msg : text) | Char (c : Z) | Num (n : Z) | Endl | Flush.
Definition write_item_nx (i : item) s o : option (system * io_base * bool) :=
  let put_all msg := '(s, o, r) ← put msg s o; Some (s, o, r =? Z.of_nat (length msg)) in
  match i with
  | Msg msg => put_all msg
  | Char c => put_all [c]
  | Num n => put_all (to_dec_digits n)
  | Endl =>
      '(s, o, r) ← put [NEWLINE] s o;
      if r =? 1 then flush_nx s o else Some (s, o, false)
  | Flush => flush_nx s o
  end.
(** [write_nx] of one or more items. *)
Fixpoint write_nx (items : list item) s o : option (system * io_base * bool) :=
  match items with
  | [] => Some (s, o, true)
  | [a] => write_item_nx a s o
  | a :: items =>
      if negb (good o) then Some (s, o, false)
      else
        '(s, o, r) ← write_item_nx a s o;
        if (r : bool) then write_nx items s o else Some (s, o, false)
  end.
Definition write (items : list item) s o : option (system * io_base * option io_exc) :=
  '(s, o, r) ← write_nx items s o; Some (s, o, or_throw r (throw_exception_on all_states o)).
Definition write_buf msg s o : option (system * io_base * Z * option io_exc) :=
  '(s, o, r) ← put msg s o; Some (s, o, r, or_throw (0 <=? r) (throw_exception_on all_states o)).

(** The destructor. *)
Definition destroy s o : option system :=
  if is_open o then '(s, _, _) ← close_nx s o; Some s else Some s.
End ostream.

(** ** Input *)

Record istream := Istream {
  base : io_base;
  eof_state : bool;
  string_failed : bool
}.
#[export] Instance eta_istream : Eta istream := λ i, Istream (base i) (eof_state i) (string_failed i).
Definition istream_new : istream := Istream io_base_new false false.

Module istream.
Implicit Types (i : istream).

Definition eof i : bool := eof_state i.
Definition buffer_failure i : bool := bool_decide (stream_buf (base i) = None).
Definition input_failure i : bool := string_failed i.
Definition io_failure i : Z := io_error (base i).
Definition current_state i : Z :=
  Z.lor (Z.lor (Z.lor (if eof_state i then eof_bit else 0) (if buffer_failure i then buffer_fail_bit else 0))
    (if string_failed i then input_fail_bit else 0)) (if io_error (base i) =? 0 then 0 else io_fail_bit).
Definition good i : bool := current_state i =? 0.
Definition clear i : istream := Istream ((base i) <| io_error := 0 |>) false false.

Definition throw_exception_on (states : Z) i : option io_exc :=
  let tested bit := negb (Z.land states bit =? 0) in
  if tested eof_bit && eof i then Some Iostream_eof
  else if tested buffer_fail_bit && buffer_failure i then Some Bad_alloc
  else if tested input_fail_bit && input_failure i then Some Bad_alloc
  else if tested io_fail_bit && negb (io_failure i =? 0) then Some (Iostream_system_err (io_failure i))
  else None.

Definition on_base (f : io_base → io_base) i : istream := i <| base ::= f |>.
Definition set_buf b i : istream := on_base (λ o, o <| stream_buf := Some b |>) i.

(** [load_into_buf]; the loop goes along the results to come, and [read] does not fail
    when there are none. *)
Fixpoint fill_loop (results : list io_result) (limit : Z) s b : system * Z * cpbuffer :=
  let '(s, r, b) := CpBuffer.fill_limit IOSTREAM_BUFSIZE read limit s b in
  match results with
  | _ :: results => if (r <? 0) && (errno s =? EINTR) then fill_loop results limit s b else (s, r, b)
  | [] => (s, r, b)
  end.
Definition load_into_buf (len : Z) s b i : system * istream * cpbuffer * Z :=
  let '(s, r, b) := fill_loop (reads s) len s b in
  let i := set_buf b i in
  if r =? 0 then (s, i <| eof_state := true |>, b, -1)
  else if r <? 0 then (s, on_base (λ o, o <| io_error := errno s |>) i, b, -1)
  else (s, i, b, r).

Definition open_nx (path : text) s i : system * istream * bool :=
  let '(s, newfd) := sys_open path O_RDONLY s in
  let i := on_base (λ o, o <| fd := newfd |>) i in
  if newfd <? 0 then (s, on_base (λ o, o <| io_error := errno s |>) i, false)
  else
    let '(s, b) := new_buffer s in
    match b with
    | Some b => (s, set_buf b i, true)
    | None =>
        let '(s, _) := sys_close newfd s in
        (s, on_base (λ o, o <| stream_buf := None |> <| fd := -1 |>) i, false)
    end.
Definition open_nx_flags (path : text) (flags : Z) s i : system * istream * bool :=
  let '(s, b) := new_buffer s in
  let i := on_base (λ o, o <| stream_buf := b |>) i in
  match b with
  | None => (s, i, false)
  | Some _ =>
      let '(s, newfd) := sys_open path (Z.lor O_RDONLY flags) s in
      let i := on_base (λ o, o <| fd := newfd |>) i in
      if newfd <? 0 then (s, on_base (λ o, o <| io_error := errno s |>) i, false) else (s, i, true)
  end.
Definition open_states : Z := Z.lor io_fail_bit buffer_fail_bit.
Definition open (path : text) s i : system * istream * option io_exc :=
  let '(s, i, r) := open_nx path s i in (s, i, or_throw r (throw_exception_on open_states i)).
Definition open_flags (path : text) (flags : Z) s i : system * istream * option io_exc :=
  let '(s, i, r) := open_nx_flags path flags s i in (s, i, or_throw r (throw_exception_on open_states i)).

Definition close_nx s i : system * istream * bool :=
  if fd (base i) <? 0 then
    (s, if good i then on_base (λ o, o <| io_error := EBADF |>) i else i, false)
  else
    let i := on_base (λ o, o <| stream_buf := None |>) i in
    let '(s, c) := sys_close (fd (base i)) s in
    if c <? 0 then (s, on_base (λ o, o <| io_error := errno s |> <| fd := -1 |>) i, false)
    else let i := on_base (λ o, o <| fd := -1 |>) i in (s, i, good i).
Definition close s i : system * istream * option io_exc :=
  let buf_fail := (0 <=? fd (base i)) && buffer_failure i in
  let '(s, i, r) := close_nx s i in
  (s, i, or_throw r
    (match throw_exception_on (Z.lor (Z.lor io_fail_bit eof_bit) input_fail_bit) i with
     | Some e => Some e
     | None => if buf_fail then throw_exception_on buffer_fail_bit i else None
     end)).
Definition destroy s i : system := if is_open (base i) then (close_nx s i).1.1 else s.

Definition every_state : Z := Z.lor (Z.lor (Z.lor eof_bit buffer_fail_bit) input_fail_bit) io_fail_bit.

Definition getc_nx s i : system * istream * option Z :=
  match good i, stream_buf (base i) with
  | true, Some b =>
      let '(s, i, b, r) :=
        if CpBuffer.get_length b =? 0 then load_into_buf 1 s b i else (s, i, b, 1) in
      if r <=? 0 then (s, i, None)
      else (s, set_buf (CpBuffer.consume IOSTREAM_BUFSIZE 1 b) i, Some (CpBuffer.at_ IOSTREAM_BUFSIZE 0 b))
  | _, _ => (s, i, None)
  end.
Definition getc s i : system * istream * (Z + option io_exc) :=
  let '(s, i, r) := getc_nx s i in
  (s, i, match r with Some c => inl c | None => inr (throw_exception_on every_state i) end).

(** The first part of the data in the buffer; [memchr]. *)
Definition first_part b : text :=
  let ptr := CpBuffer.get_ptr IOSTREAM_BUFSIZE 0 b in
  CpBuffer.copy_out ptr (CpBuffer.get_contiguous_length IOSTREAM_BUFSIZE ptr b) (CpBuffer.buf b).
Definition memchr (delim : Z) (t : text) : option nat := fst <$> list_find (eq delim) t.

(** [get_line_nx]; every turn of the loop takes at least one byte, so that the number of
    bytes in the buffer and in the file is enough fuel.  [None]: the fuel is used up. *)
Fixpoint get_line_loop (fuel : nat) (dest : text) (delim : Z) s b i
    : option (system * istream * text * bool) :=
  let part := first_part b in
  match memchr delim part with
  | Some index =>
      Some (s, set_buf (CpBuffer.consume IOSTREAM_BUFSIZE (Z.of_nat index + 1) b) i,
            dest ++ take index part, true)
  | None =>
      match fuel with
      | O => None
      | S fuel =>
          let dest := dest ++ part in
          let b := CpBuffer.consume IOSTREAM_BUFSIZE (Z.of_nat (length part)) b in
          let i := set_buf b i in
          let '(s, i, b, r) :=
            if CpBuffer.get_length b =? 0 then load_into_buf (CpBuffer.get_size IOSTREAM_BUFSIZE) s b i
            else (s, i, b, 1) in
          if r <=? 0 then Some (s, i, dest, false) else get_line_loop fuel dest delim s b i
      end
  end.
Definition get_line_nx (dest : text) (delim : Z) s i : option (system * istream * text * bool) :=
  match good i, stream_buf (base i) with
  | true, Some b =>
      let '(s, i, b, r) :=
        if CpBuffer.get_length b =? 0 then load_into_buf (CpBuffer.get_size IOSTREAM_BUFSIZE) s b i
        else (s, i, b, 1) in
      if r <=? 0 then Some (s, i, [], false)
      else if bool_decide (memchr delim (first_part b) = Some 0%nat) then
        Some (s, set_buf (CpBuffer.consume IOSTREAM_BUFSIZE 1 b) i, [], true)
      else
        get_line_loop (Z.to_nat (CpBuffer.get_length b) + length (rest s)) [] delim s b i
  | _, _ => Some (s, i, dest, false)
  end.
Definition get_line (dest : text) (delim : Z) s i : option (system * istream * text * option io_exc) :=
  '(s, i, dest, r) ← get_line_nx dest delim s i;
  Some (s, i, dest, or_throw r (throw_exception_on every_state i)).

Definition error_states : Z := Z.lor (Z.lor buffer_fail_bit input_fail_bit) io_fail_bit.
Definition get_line_until_eof (dest : text) (delim : Z) s i
    : option (system * istream * text * option io_exc) :=
  match throw_exception_on every_state i with
  | Some e => Some (s, i, dest, Some e)
  | None =>
      '(s, i, dest, r) ← get_line_nx dest delim s i;
      Some (s, i, dest, or_throw r (throw_exception_on error_states i))
  end.
Definition get_line_until_eof_nx (dest : text) (delim : Z) s i
    : option (system * istream * text * bool) :=
  if negb (good i) then Some (s, i, dest, false)
  else
    '(s, i, dest, r) ← get_line_nx dest delim s i;
    Some (s, i, dest,
      if (r : bool) then true
      else negb (negb (io_error (base i) =? 0) || string_failed i)).
End istream.

(** [input_file(dio::istream &&)] and the like: the constructor from another stream. *)
Definition istream_move (i : istream) : istream * istream :=
  let '(o, source) := io_base_move (base i) in
  (Istream o (eof_state i) (string_failed i), i <| base := source |>).
Definition istream_move_assign (i : istream) : istream * istream :=
  let '(o, source) := io_base_move_assign (base i) in
  (Istream o (eof_state i) (string_failed i), i <| base := source |>).
