(* ===== verification/IoLaws.v ===== *)
(** * Streams: lemmas

    What single calls write and read, and the loops of [put], [flush_nx] and [get_line_nx]. *)

From S2P Require Import Prelude Text IoStream.
From S2P Require CpBuffer.
Import CpBuffer (cpbuffer, contents).

Implicit Types (s : system) (b : cpbuffer) (o : io_base) (i : istream) (msg t : text).

Abbreviation buf_ok := (CpBuffer.buffer_ok IOSTREAM_BUFSIZE).
Abbreviation bytes := (contents IOSTREAM_BUFSIZE).
Lemma io_size_ok : 0 < IOSTREAM_BUFSIZE ≤ 2 ^ 30.
Proof. done. Qed.

Lemma bytes_length b : buf_ok b → Z.of_nat (length (bytes b)) = CpBuffer.length_ b.
Proof. apply CpBuffer.length_contents. Qed.
Lemma consume_ok n b : buf_ok b → 0 ≤ n ≤ CpBuffer.length_ b →
  buf_ok (CpBuffer.consume IOSTREAM_BUFSIZE n b)
  ∧ bytes (CpBuffer.consume IOSTREAM_BUFSIZE n b) = drop (Z.to_nat n) (bytes b).
Proof. intros Hb Hn. by apply (CpBuffer.consume_correct _ io_size_ok). Qed.
Lemma new_ok : buf_ok (CpBuffer.cpbuffer_new IOSTREAM_BUFSIZE)
  ∧ bytes (CpBuffer.cpbuffer_new IOSTREAM_BUFSIZE) = [].
Proof.
  split; [|done]. split; unfold CpBuffer.cpbuffer_new; cbn [CpBuffer.buf CpBuffer.cur_idx CpBuffer.length_];
    [|unfold IOSTREAM_BUFSIZE; lia..]. rewrite length_replicate. done.
Qed.

(** ** Writing *)

Definition buffered o : text := if stream_buf o is Some b then bytes b else [].
Definition stream_ok o : Prop := ∀ b, stream_buf o = Some b → buf_ok b.

Lemma parts_concat b : buf_ok b → concat (buffer_parts b) = bytes b.
Proof.
  intros Hb. destruct (CpBuffer.spans _ io_size_ok b Hb) as (Hl & Hn & Hc & _). unfold buffer_parts. cbv zeta in *.
  rewrite Hc. unfold CpBuffer.get_length. cbn [concat]. f_equal.
  destruct (Z.eqb_spec (CpBuffer.length_ b) (CpBuffer.get_contiguous_length IOSTREAM_BUFSIZE
    (CpBuffer.get_ptr IOSTREAM_BUFSIZE 0 b) b)) as [->|]; [|cbn [concat]; by rewrite app_nil_r].
  rewrite Z.sub_diag. unfold CpBuffer.copy_out. by rewrite take_0.
Qed.

(** [writev_unintr] writes a part of the data, or fails with an error number; it uses up a
    result, or there are none and it writes everything. *)
Lemma writev_loop_spec results t : ∀ s, t ≠ [] →
  let '(s', n) := writev_loop results t s in
  ∃ k, sent s' = sent s ++ take k t ∧ (k ≤ length t)%nat ∧ closed s' = closed s
    ∧ ((n = Z.of_nat k) ∨ (n = -1 ∧ k = 0%nat ∧ 0 < errno s'))
    ∧ ((length (writevs s') < length results)%nat ∨ (writevs s' = [] ∧ n = Z.of_nat (length t))).
Proof.
  induction results as [|r results IH]; intros s Ht; cbn [writev_loop].
  { exists (length t). rsimpl. rewrite take_ge by lia. split_and!; [done|lia|done|by left|by right]. }
  destruct r as [n|e]; cbn [writev_result]; rsimpl.
  - destruct ((_ <? 1) && _) eqn:Hr.
    + apply andb_true_iff in Hr as [Hn _]. assert (n = 0%nat) as ->.
      { destruct t; [done|]. cbn [length] in Hn. apply Z.ltb_lt in Hn. lia. }
      specialize (IH ((s <| writevs := results |>) <| sent ::= λ u, u ++ take 0 t |>) Ht).
      destruct (writev_loop _ _ _) as [s' m]. destruct IH as (k & E1 & E2 & E3 & E4 & E5). exists k.
      rewrite E1, E3. rsimpl. rewrite take_0, app_nil_r. split_and!; [done..|].
      destruct E5; [left; cbn [length]; lia|by right].
    + exists (min n (length t)). rsimpl. split_and!; [|lia|done|by left|left; cbn [length]; lia].
      f_equal. destruct (decide (n ≤ length t)%nat); [by rewrite Nat.min_l by lia|].
      rewrite Nat.min_r by lia. by rewrite !take_ge by lia.
  - destruct (_ && _) eqn:Hr.
    + specialize (IH ((s <| writevs := results |>) <| errno := Z.pos e |>) Ht).
      destruct (writev_loop _ _ _) as [s' m]. destruct IH as (k & E1 & E2 & E3 & E4 & E5). exists k.
      rewrite E1, E3. split_and!; [done..|]. destruct E5; [left; cbn [length]; lia|by right].
    + exists 0%nat. rsimpl. rewrite take_0, app_nil_r. split_and!; [done|lia|done| |left; cbn [length]; lia].
      right. split_and!; done || lia.
Qed.

(** What a step of a stream does to what was written and what waits to be. *)
Record out_step (s : system) (o : io_base) (s' : system) (o' : io_base) (t : text) : Prop := {
  os_bytes : sent s' ++ buffered o' = sent s ++ buffered o ++ t;
  os_ok : stream_ok o';
  os_fd : fd o' = fd o;
  os_closed : closed s' = closed s;
  os_buf : stream_buf o' = None ↔ stream_buf o = None
}.
Lemma out_refl s o : stream_ok o → out_step s o s o [].
Proof. intros Ho. split; [by rewrite app_nil_r|done..]. Qed.
Lemma out_trans s o s1 o1 s2 o2 t u :
  out_step s o s1 o1 t → out_step s1 o1 s2 o2 u → out_step s o s2 o2 (t ++ u).
Proof.
  intros [A1 A2 A3 A4 A5] [B1 B2 B3 B4 B5]. split; [|done|congruence..|].
  - rewrite B1, app_assoc, A1. by rewrite <- !app_assoc.
  - by rewrite B5.
Qed.

Abbreviation with_buf b o := (o <| stream_buf := Some b |>).
Lemma out_buf s s' b b' o t : buf_ok b' → closed s' = closed s →
  sent s' ++ bytes b' = sent s ++ bytes b ++ t → out_step s (with_buf b o) s' (with_buf b' o) t.
Proof. intros Hb Hc Hs. split; unfold buffered, stream_ok; rsimpl; try done. by intros ? [= <-]. Qed.
Lemma out_error s s' b o e : buf_ok b → closed s' = closed s → sent s' = sent s →
  out_step s (with_buf b o) s' (with_buf b o <| io_error := e |>) [].
Proof.
  intros Hb Hc Hs. split; unfold buffered, stream_ok; rsimpl; try done; [by rewrite Hs, app_nil_r|].
  by intros ? [= <-].
Qed.

Definition put_result (count : Z) (r : Z) (k : nat) msg o o' : Prop :=
  (r = count ∧ k = length msg ∧ io_error o' = io_error o)
  ∨ ((k < length msg)%nat ∧ 0 < io_error o'
     ∧ r = let done := count - Z.of_nat (length msg) + Z.of_nat k in if 0 <? done then done else -1).

Lemma put_loop_spec fuel : ∀ count msg b s o,
  (length (writevs s) < fuel)%nat → buf_ok b →
  ∃ s' o' r k, ostream.put_loop fuel count msg b s o = Some (s', o', r)
    ∧ out_step s (with_buf b o) s' o' (take k msg) ∧ (k ≤ length msg)%nat ∧ put_result count r k msg o o'.
Proof.
  induction fuel as [|fuel IH]; intros count msg b s o Hf Hb; [lia|]. cbn [ostream.put_loop].
  destruct (Z.ltb_spec (CpBuffer.get_free IOSTREAM_BUFSIZE b) (Z.of_nat (length msg))) as [Hfree|Hfree].
  2: { destruct (CpBuffer.append_correct _ io_size_ok msg b Hb ltac:(lia)) as [Hb' Hc'].
    eexists s, _, count, (length msg). split; [done|]. rewrite take_ge by lia.
    split; [apply out_buf; [done..|by rewrite Hc']|]. split; [lia|by left]. }
  unfold CpBuffer.get_free in Hfree. pose proof (CpBuffer.ok_len _ _ Hb) as Hlen.
  assert (concat (buffer_parts b ++ [msg]) = bytes b ++ msg) as Hcat.
  { rewrite concat_app, parts_concat by done. cbn [concat]. by rewrite app_nil_r. }
  unfold writev_unintr. rewrite Hcat.
  pose proof (writev_loop_spec (writevs s) (bytes b ++ msg) s) as Hw.
  destruct (writev_loop _ _ _) as [s1 n]. destruct Hw as (k & E1 & E2 & E3 & E4 & E5).
  { destruct msg; [cbn [length] in Hfree; lia|]. by destruct (bytes b). }
  rewrite length_app in E2. pose proof (bytes_length b Hb) as Hbl. unfold CpBuffer.get_length.
  destruct E4 as [->|(-> & -> & He)].
  2: { change (-1 <? 0) with true. cbv iota. rewrite take_0, app_nil_r in E1.
    eexists s1, _, _, 0%nat. split; [done|]. rewrite take_0. split; [by apply out_error|]. split; [lia|right].
    rsimpl. cbv zeta. rewrite Z.add_0_r. split; [lia|done]. }
  rewrite (proj2 (Z.ltb_ge (Z.of_nat k) 0)) by lia.
  destruct (Z.leb_spec (CpBuffer.length_ b) (Z.of_nat k)) as [Hk|Hk].
  - destruct (consume_ok (CpBuffer.length_ b) b Hb ltac:(lia)) as [Hb' Hc'].
    rewrite drop_ge in Hc' by lia. set (b' := CpBuffer.consume _ _ b) in *.
    set (j := Z.to_nat (Z.of_nat k - CpBuffer.length_ b)).
    rewrite take_app_ge in E1 by lia. replace (k - length (bytes b))%nat with j in E1 by lia.
    assert (out_step s (with_buf b o) s1 (with_buf b' o) (take j msg)) as Hs.
    { apply out_buf; [done..|]. by rewrite Hc', app_nil_r. }
    destruct (Z.eqb_spec (Z.of_nat (length msg) - (Z.of_nat k - CpBuffer.length_ b)) 0) as [Hz|Hz].
    + eexists s1, _, count, j. split; [done|]. split; [done|]. split; [lia|]. left. split_and!; [done|lia|done].
    + destruct E5 as [E5|[E5 E6]]; [|rewrite length_app in E6; lia].
      destruct (IH count (drop j msg) b' s1 o) as (s' & o' & r & m & R1 & R2 & R3 & R4); [lia|done|].
      exists s', o', r, (j + m)%nat. split; [done|]. unfold put_result in *. rewrite length_drop in R3, R4.
      split; [|split; [lia|]].
      * replace (take (j + m) msg) with (take j msg ++ take m (drop j msg)) by (by rewrite take_take_drop).
        by apply (out_trans _ _ s1 (with_buf b' o)).
      * destruct R4 as [(-> & -> & R4)|(R4 & R5 & R6)]; [left; split_and!; [done|lia|done]|right].
        split_and!; [lia|done|]. rewrite R6. cbv zeta.
        by replace (count - Z.of_nat (length msg - j) + Z.of_nat m)
          with (count - Z.of_nat (length msg) + Z.of_nat (j + m)) by lia.
  - destruct (consume_ok (Z.of_nat k) b Hb ltac:(lia)) as [Hb' Hc']. rewrite Nat2Z.id in Hc'.
    destruct E5 as [E5|[E5 E6]]; [|rewrite length_app in E6; lia].
    destruct (IH count msg (CpBuffer.consume IOSTREAM_BUFSIZE (Z.of_nat k) b) s1 o)
      as (s' & o' & r & m & R1 & R2 & R3 & R4); [lia|done|].
    exists s', o', r, m. split; [done|]. split; [|by split].
    change (take m msg) with ([] ++ take m msg). eapply out_trans; [|exact R2].
    apply out_buf; [done..|]. rewrite Hc', E1, take_app_le, app_nil_r by lia. by rewrite <- app_assoc, take_drop.
Qed.

Lemma flush_loop_spec fuel : ∀ b s o, (length (writevs s) < fuel)%nat → buf_ok b →
  ∃ s' o' r, ostream.flush_loop fuel b s o = Some (s', o', r) ∧ out_step s (with_buf b o) s' o' []
    ∧ (if r : bool then buffered o' = [] ∧ io_error o' = io_error o else 0 < io_error o').
Proof.
  induction fuel as [|fuel IH]; intros b s o Hf Hb; [lia|]. cbn [ostream.flush_loop]. unfold CpBuffer.get_length.
  pose proof (CpBuffer.ok_len _ _ Hb) as Hlen. pose proof (bytes_length b Hb) as Hbl.
  destruct (Z.ltb_spec 0 (CpBuffer.length_ b)) as [Hl|Hl].
  2: { eexists s, _, true. split; [done|]. split; [apply out_buf; [done..|by rewrite app_nil_r]|].
    unfold buffered. rsimpl. split; [|done]. apply nil_length_inv. lia. }
  unfold writev_unintr. rewrite parts_concat by done.
  pose proof (writev_loop_spec (writevs s) (bytes b) s) as Hw.
  destruct (writev_loop _ _ _) as [s1 n]. destruct Hw as (k & E1 & E2 & E3 & E4 & E5).
  { intros E. rewrite E in Hbl. cbn [length] in Hbl. lia. }
  destruct E4 as [->|(-> & -> & He)].
  2: { change (-1 <? 0) with true. cbv iota. rewrite take_0, app_nil_r in E1.
    eexists s1, _, false. split; [done|]. split; [by apply out_error|done]. }
  rewrite (proj2 (Z.ltb_ge (Z.of_nat k) 0)) by lia.
  destruct (consume_ok (Z.of_nat k) b Hb ltac:(lia)) as [Hb' Hc']. rewrite Nat2Z.id in Hc'.
  set (b' := CpBuffer.consume _ _ b) in *.
  assert (out_step s (with_buf b o) s1 (with_buf b' o) []) as Hs.
  { apply out_buf; [done..|]. rewrite Hc', E1, app_nil_r, <- app_assoc. by rewrite take_drop. }
  assert (∃ s' o' r, ostream.flush_loop fuel b' s1 o = Some (s', o', r) ∧ out_step s1 (with_buf b' o) s' o' []
    ∧ (if r : bool then buffered o' = [] ∧ io_error o' = io_error o else 0 < io_error o')) as (s' & o' & r & R1 & R2 & R3).
  { destruct E5 as [E5|[E5 E6]]; [apply IH; [lia|done]|].
    assert (CpBuffer.length_ b' = 0) as Hz.
    { rewrite <- (bytes_length b' Hb'), Hc', length_drop. lia. }
    assert (∀ fuel, ostream.flush_loop fuel b' s1 o = Some (s1, with_buf b' o, true)) as ->.
    { intros [|f]; cbn [ostream.flush_loop]; unfold CpBuffer.get_length; by rewrite Hz. }
    eexists s1, _, true. split; [done|]. split; [apply out_buf; [done..|by rewrite app_nil_r]|].
    unfold buffered. rsimpl. split; [|done]. apply nil_length_inv. pose proof (bytes_length b' Hb'). lia. }
  exists s', o', r. split; [done|]. split; [|done]. change (@nil Z) with (@nil Z ++ []). by eapply out_trans.
Qed.

(** [good], and the functions that the loops are in. *)
Lemma good_spec o : ostream.good o = true ↔ (∃ b, stream_buf o = Some b) ∧ io_error o = 0.
Proof.
  unfold ostream.good, ostream.current_state, ostream.buffer_failure.
  destruct (stream_buf o) as [b|]; cbn [bool_decide]; destruct (Z.eqb_spec (io_error o) 0); cbn; naive_solver.
Qed.
Lemma good_false o : ostream.good o = false ↔ stream_buf o = None ∨ io_error o ≠ 0.
Proof.
  rewrite <- not_true_iff_false, good_spec. destruct (stream_buf o) as [b|]; [|naive_solver].
  split; [intros Hn; right; intros E; apply Hn; eauto|]. intros [[=]|He] [_ ?]. done.
Qed.
Lemma with_buf_id b o : stream_buf o = Some b → with_buf b o = o.
Proof. destruct o as [f b' e]. cbn. by intros ->. Qed.

(** What an operation on a stream in the state [o] may do with the text it is given: it takes
    all, or a part, with an error. *)
Definition took (s : system) o (s' : system) o' (msg : text) (all : bool) : Prop :=
  ∃ t, out_step s o s' o' t
    ∧ (if all then t = msg ∧ io_error o' = io_error o
       else t `prefix_of` msg ∧ ostream.good o' = false).
Lemma took_nothing s o msg : stream_ok o → ostream.good o = false → took s o s o msg false.
Proof. intros Ho Hg. exists []. split; [by apply out_refl|]. split; [by exists msg|done]. Qed.
Lemma took_good s o s' o' msg all : took s o s' o' msg all → ostream.good o = true → ostream.good o' = all.
Proof.
  intros (t & Hs & Ht) Hg. destruct all; [|by apply Ht]. destruct Ht as [_ He]. apply good_spec in Hg as [[b Hb] E].
  apply good_spec. split; [|congruence]. destruct (stream_buf o') as [b'|] eqn:E'; [by eexists|].
  exfalso. apply (os_buf _ _ _ _ _ Hs) in E'. congruence.
Qed.
Lemma took_app s o s1 o1 s2 o2 m1 m2 all :
  took s o s1 o1 m1 true → took s1 o1 s2 o2 m2 all → took s o s2 o2 (m1 ++ m2) all.
Proof.
  intros (t1 & S1 & -> & E1) (t2 & S2 & H2). exists (m1 ++ t2). split; [by eapply out_trans|].
  destruct all; destruct H2 as [H2 H3]; [split; congruence|]. split; [by apply prefix_app|done].
Qed.
Lemma took_more s o s' o' m1 m2 : took s o s' o' m1 false → took s o s' o' (m1 ++ m2) false.
Proof. intros (t & S & H1 & H2). exists t. split; [done|]. split; [by apply prefix_app_r|done]. Qed.

Lemma put_spec msg s o : stream_ok o →
  ∃ s' o' r, ostream.put msg s o = Some (s', o', r)
    ∧ out_step s o s' o' (take (Z.to_nat r) msg) ∧ r ≤ Z.of_nat (length msg)
    ∧ took s o s' o' msg (r =? Z.of_nat (length msg)).
Proof.
  intros Ho. unfold ostream.put. destruct (ostream.good o) eqn:Hg.
  2: { exists s, o, (-1). split; [done|]. split; [by apply out_refl|]. split; [lia|].
    rewrite (proj2 (Z.eqb_neq _ _)) by lia. by apply took_nothing. }
  pose proof Hg as Hg'. apply good_spec in Hg' as [[b Hb] He]. rewrite Hb.
  case_bool_decide as Hm.
  { subst msg. exists s, o, 0. split; [done|]. split; [by apply out_refl|]. split; [done|].
    exists []. split; [by apply out_refl|done]. }
  destruct (put_loop_spec (S (length (writevs s))) (Z.of_nat (length msg)) msg b s o) as (s' & o' & r & k & R1 & R2 & R3 & R4);
    [lia|by apply Ho|]. rewrite with_buf_id in R2 by done. exists s', o', r. split; [done|].
  destruct R4 as [(-> & -> & R4)|(R4 & R5 & R6)].
  - rewrite Nat2Z.id. split; [done|]. split; [lia|]. rewrite Z.eqb_refl. exists msg. rewrite take_ge in R2 by lia. done.
  - cbv zeta in R6. replace (Z.of_nat (length msg) - Z.of_nat (length msg) + Z.of_nat k) with (Z.of_nat k) in R6 by lia.
    assert (Z.to_nat r = k ∧ r < Z.of_nat (length msg)) as [Hr Hlt].
    { rewrite R6. destruct (Z.ltb_spec 0 (Z.of_nat k)); lia. }
    rewrite Hr. split; [done|]. split; [lia|]. rewrite (proj2 (Z.eqb_neq _ _)) by lia. exists (take k msg).
    split; [done|]. split; [by exists (drop k msg); rewrite take_drop|]. apply good_false. right. lia.
Qed.

Lemma flush_spec s o : stream_ok o →
  ∃ s' o' r, ostream.flush_nx s o = Some (s', o', r) ∧ took s o s' o' [] r ∧ (r = true → buffered o' = []).
Proof.
  intros Ho. unfold ostream.flush_nx. destruct (ostream.good o) eqn:Hg.
  2: { exists s, o, false. split; [done|]. by split; [apply took_nothing|]. }
  pose proof Hg as Hg'. apply good_spec in Hg' as [[b Hb] He]. rewrite Hb.
  destruct (flush_loop_spec (S (length (writevs s))) b s o) as (s' & o' & r & R1 & R2 & R3); [lia|by apply Ho|].
  rewrite with_buf_id in R2 by done. exists s', o', r. split; [done|]. destruct r.
  - split; [|by intros _; apply R3]. exists []. split; [done|]. by split; [|apply R3].
  - split; [|done]. exists []. split; [done|]. split; [done|]. apply good_false. right. lia.
Qed.

(** ** Items *)

Definition item_text (a : ostream.item) : text :=
  match a with
  | ostream.Msg msg => msg
  | ostream.Char c => [c]
  | ostream.Num n => to_dec_digits n
  | ostream.Endl => [NEWLINE]
  | ostream.Flush => []
  end.
Definition is_flush (a : ostream.item) : bool :=
  match a with ostream.Endl | ostream.Flush => true | _ => false end.

Fixpoint ends_flush (items : list ostream.item) : bool :=
  match items with
  | [] => false
  | [a] => is_flush a
  | _ :: items => ends_flush items
  end.

Lemma write_item_spec a s o : stream_ok o →
  ∃ s' o' r, ostream.write_item_nx a s o = Some (s', o', r) ∧ took s o s' o' (item_text a) r
    ∧ (r = true → is_flush a = true → buffered o' = []).
Proof.
  intros Ho. unfold ostream.write_item_nx. destruct a; cbn [item_text is_flush].
  - destruct (put_spec msg s o Ho) as (s' & o' & r & -> & _ & _ & T). eexists s', o', _. split; [done|by split].
  - destruct (put_spec [c] s o Ho) as (s' & o' & r & -> & _ & _ & T). eexists s', o', _. split; [done|by split].
  - destruct (put_spec (to_dec_digits n) s o Ho) as (s' & o' & r & -> & _ & _ & T). eexists s', o', _. split; [done|by split].
  - destruct (put_spec [NEWLINE] s o Ho) as (s1 & o1 & r & -> & _ & _ & T). cbn [mbind option_bind length] in *.
    change (Z.of_nat 1) with 1 in T. destruct (r =? 1); [|eexists s1, o1, false; by split].
    destruct (flush_spec s1 o1) as (s2 & o2 & r2 & -> & T2 & F2); [by destruct T as (? & [] & _)|].
    eexists s2, o2, r2. split; [done|]. split; [|auto]. change [NEWLINE] with ([NEWLINE] ++ []). by eapply took_app.
  - destruct (flush_spec s o Ho) as (s2 & o2 & r2 & -> & T2 & F2). eexists s2, o2, r2. split; [done|]. by split; [|auto].
Qed.

Lemma write_nx_spec items : ∀ s o, stream_ok o →
  ∃ s' o' r, ostream.write_nx items s o = Some (s', o', r) ∧ took s o s' o' (concat (map item_text items)) r
    ∧ (r = true → ends_flush items = true → buffered o' = []).
Proof.
  induction items as [|a items IH]; intros s o Ho.
  { exists s, o, true. split; [done|]. split; [|done]. exists []. split; [by apply out_refl|done]. }
  destruct items as [|a' items].
  { cbn [ostream.write_nx map concat ends_flush]. rewrite app_nil_r.
    destruct (write_item_spec a s o Ho) as (s' & o' & r & -> & T & Hf). exists s', o', r.
    split; [done|]. split; [done|]. done. }
  cbn [ostream.write_nx]. destruct (ostream.good o) eqn:Hg; cbn [negb].
  2: { exists s, o, false. split; [done|]. by split; [apply took_nothing|]. }
  destruct (write_item_spec a s o Ho) as (s1 & o1 & r1 & -> & T1 & F1). cbn [mbind option_bind].
  cbn [map concat]. destruct r1.
  2: { exists s1, o1, false. split; [done|]. by split; [apply took_more|]. }
  destruct (IH s1 o1) as (s2 & o2 & r2 & E2 & T2 & F2); [by destruct T1 as (? & [] & _)|].
  cbn [ostream.write_nx] in E2. rewrite E2. exists s2, o2, r2. split; [done|].
  split; [by eapply took_app|]. intros Hr Hl. by apply F2.
Qed.

Lemma sys_close_spec n s :
  let '(s', c) := sys_close n s in
  closed s' = n :: closed s ∧ sent s' = sent s ∧ rest s' = rest s.
Proof. unfold sys_close. rsimpl. by destruct (closes s) as [|[e|] l]. Qed.

Lemma close_spec s o : stream_ok o →
  ∃ s' o' r, ostream.close_nx s o = Some (s', o', r) ∧ stream_ok o'
    ∧ (r = true → sent s' = sent s ++ buffered o)
    ∧ (0 ≤ fd o → closed s' = fd o :: closed s ∧ fd o' = -1).
Proof.
  intros Ho. unfold ostream.close_nx. destruct (Z.ltb_spec (fd o) 0) as [Hfd|Hfd].
  { eexists s, _, false. split; [done|]. split_and!; [by destruct (ostream.good o)|done|lia]. }
  destruct (flush_spec s o Ho) as (s1 & o1 & r & -> & (t & S & T) & F). cbn [mbind option_bind].
  pose proof (os_fd _ _ _ _ _ S) as Ef. pose proof (os_closed _ _ _ _ _ S) as Ec.
  pose proof (sys_close_spec (fd o1) s1) as Hc. destruct r; cbn [negb].
  - rsimpl. destruct (sys_close _ _) as [s2 c]. destruct Hc as (C1 & C2 & _).
    eexists s2, _, _. split; [done|]. destruct T as [-> T].
    pose proof (os_bytes _ _ _ _ _ S) as Eb. rewrite F, !app_nil_r in Eb by done.
    split_and!; [by destruct (c <? 0)|intros _; congruence|intros _; split; [congruence|by destruct (c <? 0)]].
  - destruct (sys_close _ _) as [s2 c]. destruct Hc as (C1 & C2 & _).
    eexists s2, _, false. split; [done|]. split_and!; [done|done|intros _; split; [congruence|done]].
Qed.

(** ** Reading *)

(** Without errors other than interruptions. *)
Definition quiet s : Prop :=
  Forall (λ r, match r with Fails e => Z.pos e = EINTR | Takes _ => True end) (reads s).

Lemma read_spec s n : 0 < n →
  let '(s', r, t) := read s n in
  rest s = t ++ rest s' ∧ Z.of_nat (length t) ≤ n ∧ reads s' = tail (reads s)
  ∧ ((r = Z.of_nat (length t) ∧ (t = [] → rest s = [])) ∨ (r = -1 ∧ t = [] ∧ 0 < errno s' ∧ reads s ≠ []
       ∧ (quiet s → errno s' = EINTR))).
Proof.
  intros Hn. unfold read.
  assert (∀ k s, (0 < k)%nat → (k ≤ Z.to_nat n)%nat →
    rest s = take k (rest s) ++ rest (s <| rest ::= drop k |>)
    ∧ Z.of_nat (length (take k (rest s))) ≤ n
    ∧ Z.of_nat (min k (length (rest s))) = Z.of_nat (length (take k (rest s)))
    ∧ (take k (rest s) = [] → rest s = [])) as Hgot.
  { intros k s1 Hk Hkn. rsimpl. rewrite length_take, take_drop. split_and!; [done|lia|done|].
    intros E. apply (f_equal length) in E. rewrite length_take in E. apply nil_length_inv. cbn in E. lia. }
  destruct (reads s) as [|[k|e] l] eqn:Er.
  - destruct (Hgot (Z.to_nat n) s) as (H1 & H2 & H3 & H4); [lia..|].
    revert H1; rsimpl; intros H1. split_and!; [done|done|by rewrite Er|by left].
  - destruct (Hgot (min (max 1 k) (Z.to_nat n)) (s <| reads := l |>)) as (H1 & H2 & H3 & H4); [lia..|].
    revert H1 H2 H3 H4. rsimpl. intros H1 H2 H3 H4. split_and!; [done..|by left].
  - rsimpl. cbn. split_and!; [done|lia|done|right]. split_and!; [done|done|lia|done|].
    unfold quiet. rewrite Er. intros Hq. by inversion Hq.
Qed.

Lemma fill_limit_spec limit s b : 0 < limit → buf_ok b → bytes b = [] →
  let '(s', r, b') := CpBuffer.fill_limit IOSTREAM_BUFSIZE read limit s b in
  buf_ok b' ∧ rest s = bytes b' ++ rest s' ∧ reads s' = tail (reads s)
  ∧ ((r = Z.of_nat (length (bytes b')) ∧ (bytes b' = [] → rest s = []))
     ∨ (r = -1 ∧ bytes b' = [] ∧ 0 < errno s' ∧ reads s ≠ [] ∧ (quiet s → errno s' = EINTR))).
Proof.
  intros Hl Hb He. pose proof Hb as [Hb1 Hb2 Hb3]. pose proof (bytes_length b Hb) as Hbl.
  rewrite He in Hbl. cbn in Hbl. unfold CpBuffer.fill_limit, CpBuffer.fill_count. cbv zeta.
  rewrite (CpBuffer.wrap_addr _ io_size_ok) by (done || lia).
  pose proof (CpBuffer.addr_bounds _ b (CpBuffer.length_ b) Hb ltac:(lia)) as Ha.
  rewrite u32_small by (unfold IOSTREAM_BUFSIZE in *; lia). set (n := Z.min _ limit).
  pose proof (read_spec s n ltac:(lia)) as Hr. destruct (read s n) as [[s' r] t].
  destruct Hr as (R1 & R2 & R3 & R4).
  destruct (CpBuffer.write_ok _ io_size_ok t b Hb) as [Hw1 Hw2]; [lia..|]. rewrite He in Hw2. cbn [app] in Hw2.
  destruct R4 as [[-> R4]|(-> & -> & R5 & R6 & R7)].
  - rewrite (proj2 (Z.leb_le 0 _)) by lia.
    assert ((b <| CpBuffer.buf ::= CpBuffer.copy_in (CpBuffer.addr IOSTREAM_BUFSIZE b (CpBuffer.length_ b)) t |>)
      <| CpBuffer.length_ ::= (λ m, u32 (m + Z.of_nat (length t))) |> = CpBuffer.write IOSTREAM_BUFSIZE t b) as ->.
    { unfold CpBuffer.write. unfold set; simpl. f_equal. apply u32_small. unfold IOSTREAM_BUFSIZE in *; lia. }
    rewrite Hw2. split_and!; [done..|by left].
  - change (0 <=? -1) with false. cbv iota.
    assert (b <| CpBuffer.buf ::= CpBuffer.copy_in (CpBuffer.addr IOSTREAM_BUFSIZE b (CpBuffer.length_ b)) [] |> = b) as ->.
    { destruct b as [l c n']. reflexivity. }
    rewrite He. split_and!; [done..|]. right. by split_and!.
Qed.

Lemma fill_loop_spec results : ∀ limit s b, results = reads s → 0 < limit → buf_ok b → bytes b = [] →
  let '(s', r, b') := istream.fill_loop results limit s b in
  buf_ok b' ∧ rest s = bytes b' ++ rest s'
  ∧ ((0 < r ∧ bytes b' ≠ []) ∨ (r = 0 ∧ rest s = []) ∨ (r < 0 ∧ bytes b' = [] ∧ 0 < errno s' ∧ ¬ quiet s))
  ∧ (quiet s → quiet s').
Proof.
  induction results as [|x results IH]; intros limit s b Hr Hl Hb He; cbn [istream.fill_loop];
    pose proof (fill_limit_spec limit s b Hl Hb He) as Hf; destruct (CpBuffer.fill_limit _ _ _ _ _) as [[s1 r] b1];
    destruct Hf as (F1 & F2 & F3 & F4); assert (quiet s → quiet s1) as Hq
      by (unfold quiet; rewrite F3, <- Hr; first [done|by inversion 1]).
  - destruct F4 as [[-> F4]|(_ & _ & _ & F4 & _)]; [|by rewrite <- Hr in F4].
    split_and!; [done..| |done]. destruct (decide (bytes b1 = [])) as [E|E].
    + right. left. rewrite E. split; [done|by apply F4].
    + left. destruct (bytes b1); [done|]. cbn. split; [lia|done].
  - rewrite <- Hr in F3. cbn [tail] in F3.
    destruct F4 as [[-> F4]|(-> & F5 & F6 & F7 & F8)].
    + rewrite (proj2 (Z.ltb_ge _ 0)) by lia. cbn [andb]. split_and!; [done..| |done].
      destruct (decide (bytes b1 = [])) as [E|E].
      * right. left. rewrite E. split; [done|by apply F4].
      * left. destruct (bytes b1); [done|]. cbn. split; [lia|done].
    + change (-1 <? 0) with true. cbn [andb]. destruct (Z.eqb_spec (errno s1) EINTR) as [Ee|Ee].
      * specialize (IH limit s1 b1 (eq_sym F3) Hl F1 F5). destruct (istream.fill_loop _ _ _ _) as [[s2 r2] b2].
        destruct IH as (I1 & I2 & I3 & I4). rewrite F2, F5. cbn [app]. split_and!; [done..| |auto].
        destruct I3 as [?|[?|(?&?&?&I3)]]; [by left|right; left; done|right; right]. split_and!; auto.
      * split_and!; [done..| |done]. right. right. split_and!; [lia|done|done|]. intros Hqs. by apply Ee, F8.
Qed.

Definition flags i := (eof_state i, string_failed i, io_error (base i), fd (base i)).

(** The state of a stream after an attempt to have data in the buffer: there are some, or the
    end of the file is reached, or there was an error; no data are lost. *)
Record loaded (s : system) i t (s' : system) i' b' (r : Z) : Prop := {
  l_buf : buf_ok b' ∧ stream_buf (base i') = Some b';
  l_data : bytes b' ++ rest s' = t;
  l_quiet : quiet s → quiet s';
  l_case : (0 < r ∧ bytes b' ≠ [] ∧ flags i' = flags i)
    ∨ (r ≤ 0 ∧ t = [] ∧ flags i' = (true, string_failed i, io_error (base i), fd (base i)))
    ∨ (r ≤ 0 ∧ 0 < io_error (base i') ∧ ¬ quiet s
       ∧ flags i' = (eof_state i, string_failed i, io_error (base i'), fd (base i)))
}.

Lemma load_into_buf_spec len s b i : 0 < len → buf_ok b → bytes b = [] →
  let '(s', i', b', r) := istream.load_into_buf len s b i in loaded s i (rest s) s' i' b' r.
Proof.
  intros Hl Hb He. unfold istream.load_into_buf.
  pose proof (fill_loop_spec (reads s) len s b eq_refl Hl Hb He) as Hf.
  destruct (istream.fill_loop _ _ _ _) as [[s' r] b']. destruct Hf as (F1 & F2 & F3 & F4).
  assert (bytes b' ++ rest s' = rest s) as F2' by done. cbv zeta.
  destruct (Z.eqb_spec r 0) as [->|Hr].
  { destruct F3 as [[? _]|[[_ F3]|[? _]]]; [lia| |lia]. split; [by split|done..|]. right. left.
    split_and!; [lia|done|done]. }
  destruct (Z.ltb_spec r 0).
  - destruct F3 as [[? _]|[[? _]|(_ & F3 & F5 & F6)]]; [lia..|]. split; [by split|done..|]. right. right.
    unfold istream.on_base, istream.set_buf. rsimpl. split_and!; [lia|done|done|done].
  - destruct F3 as [[_ F3]|[[? _]|[? _]]]; [|lia..]. split; [by split|done..|]. left. split_and!; [lia|done|done].
Qed.

Definition refill (len : Z) s b i : system * istream * cpbuffer * Z :=
  if CpBuffer.get_length b =? 0 then istream.load_into_buf len s b i else (s, i, b, 1).
Lemma refill_spec len s b i : 0 < len → buf_ok b → stream_buf (base i) = Some b →
  let '(s', i', b', r) := refill len s b i in loaded s i (bytes b ++ rest s) s' i' b' r.
Proof.
  intros Hl Hb Hi. unfold refill, CpBuffer.get_length. pose proof (bytes_length b Hb) as Hbl.
  destruct (Z.eqb_spec (CpBuffer.length_ b) 0) as [E|E].
  - assert (bytes b = []) as He by (apply nil_length_inv; lia). rewrite He.
    by apply load_into_buf_spec.
  - split; [done..|]. left. split_and!; [lia| |done]. intros He. rewrite He in Hbl. cbn in Hbl. lia.
Qed.

(** ** Lines *)

Fixpoint split_lines (delim : Z) t : list text :=
  match t with
  | [] => [[]]
  | c :: t =>
      if c =? delim then [] :: split_lines delim t
      else match split_lines delim t with
           | l :: ls => (c :: l) :: ls
           | [] => [[c]]
           end
  end.
Lemma split_lines_cut delim l t : delim ∉ l → split_lines delim (l ++ delim :: t) = l :: split_lines delim t.
Proof.
  induction l as [|c l IH]; intros Hd; cbn [app split_lines]; [by rewrite Z.eqb_refl|].
  apply not_elem_of_cons in Hd as [Hc Hd]. rewrite (proj2 (Z.eqb_neq c delim)) by done. by rewrite IH.
Qed.
Lemma split_lines_one delim l : delim ∉ l → split_lines delim l = [l].
Proof.
  induction l as [|c l IH]; intros Hd; cbn [split_lines]; [done|].
  apply not_elem_of_cons in Hd as [Hc Hd]. rewrite (proj2 (Z.eqb_neq c delim)) by done. by rewrite IH.
Qed.

Lemma memchr_spec delim t :
  match istream.memchr delim t with
  | Some k => (k < length t)%nat ∧ t = take k t ++ delim :: drop (S k) t ∧ delim ∉ take k t
  | None => delim ∉ t
  end.
Proof.
  unfold istream.memchr. destruct (list_find (eq delim) t) as [[k c]|] eqn:E; cbn.
  - apply list_find_Some in E as (Hk & <- & Hn). pose proof (lookup_lt_Some _ _ _ Hk) as Hlt.
    split; [done|]. split; [symmetry; by apply take_drop_middle|]. intros Hin.
    apply elem_of_take in Hin as (j & Hj & Hjk). by apply (Hn j delim Hj Hjk).
  - apply list_find_None in E. intros Hin. rewrite Forall_forall in E. apply list_elem_of_In in Hin. by apply (E delim Hin).
Qed.

Lemma first_part_spec b : buf_ok b → ∃ u, bytes b = istream.first_part b ++ u ∧ (bytes b ≠ [] → istream.first_part b ≠ []).
Proof.
  intros Hb. destruct (CpBuffer.spans _ io_size_ok b Hb) as (Hl & Hn & Hc & Hp). cbv zeta in *.
  unfold istream.first_part. eexists. split; [exact Hc|]. intros Hne E. cbv zeta in E. rewrite E in Hn.
  pose proof (bytes_length b Hb) as Hbl. destruct (bytes b); [done|]. cbn [length] in *. lia.
Qed.

(** What [get_line_nx] makes of the data [t] that are to come. *)
Record line_read (s : system) i delim t (s' : system) i' (l : text) (r : bool) : Prop := {
  r_ok : ∀ b, stream_buf (base i') = Some b → buf_ok b;
  r_some : is_Some (stream_buf (base i'));
  r_quiet : quiet s → quiet s';
  r_delim : delim ∉ l;
  r_data : let data := buffered (base i') ++ rest s' in
    if r then t = l ++ delim :: data ∧ flags i' = flags i
    else t = l ++ data
      ∧ ((data = [] ∧ flags i' = (true, string_failed i, io_error (base i), fd (base i)))
         ∨ (0 < io_error (base i') ∧ ¬ quiet s
            ∧ flags i' = (eof_state i, string_failed i, io_error (base i'), fd (base i))))
}.

Lemma line_read_flags s i0 i delim t s' i' l r : flags i0 = flags i →
  line_read s i0 delim t s' i' l r → line_read s i delim t s' i' l r.
Proof.
  intros Hf [R1 R2 R3 R4 R5]. split; try done. unfold flags in Hf. injection Hf as F1 F2 F3 F4.
  unfold flags in *. destruct r; by rewrite <- F1, <- F2, <- F3, <- F4.
Qed.

Lemma found_line s i delim b k : buf_ok b → istream.memchr delim (istream.first_part b) = Some k →
  line_read s i delim (bytes b ++ rest s) s
    (istream.set_buf (CpBuffer.consume IOSTREAM_BUFSIZE (Z.of_nat k + 1) b) i) (take k (istream.first_part b)) true.
Proof.
  intros Hb Hm. pose proof (memchr_spec delim (istream.first_part b)) as Hs. rewrite Hm in Hs.
  destruct Hs as (Hk & Hp & Hn). destruct (first_part_spec b Hb) as (u & Hu & _). pose proof (bytes_length b Hb) as Hbl.
  rewrite Hu, length_app in Hbl. destruct (consume_ok (Z.of_nat k + 1) b Hb) as [Hb' Hc']; [lia|].
  split; unfold istream.set_buf, istream.on_base, buffered; rsimpl; try done; [by intros ? [= <-]|].
  split; [|done]. rewrite Hc', Hu. replace (Z.to_nat (Z.of_nat k + 1)) with (S k) by lia.
  rewrite drop_app_le by lia. rewrite Hp at 1. by rewrite <- !app_assoc.
Qed.

Lemma get_line_loop_spec fuel : ∀ dest delim s b i,
  buf_ok b → stream_buf (base i) = Some b → bytes b ≠ [] → (length (bytes b ++ rest s) ≤ fuel)%nat →
  ∃ s' i' l r, istream.get_line_loop fuel dest delim s b i = Some (s', i', dest ++ l, r)
    ∧ line_read s i delim (bytes b ++ rest s) s' i' l r.
Proof.
  induction fuel as [|fuel IH]; intros dest delim s b i Hb Hi Hne Hf.
  { destruct (bytes b); [done|]. cbn in Hf. lia. }
  cbn [istream.get_line_loop]. destruct (istream.memchr delim (istream.first_part b)) as [k|] eqn:Hm.
  { eexists s, _, (take k (istream.first_part b)), true. split; [done|]. by apply found_line. }
  pose proof (memchr_spec delim (istream.first_part b)) as Hs. rewrite Hm in Hs.
  destruct (first_part_spec b Hb) as (u & Hu & Hp). specialize (Hp Hne). set (part := istream.first_part b) in *.
  pose proof (bytes_length b Hb) as Hbl. rewrite Hu, length_app in Hbl.
  destruct (consume_ok (Z.of_nat (length part)) b Hb) as [Hb1 Hc1]; [lia|]. rewrite Nat2Z.id, Hu, drop_app_length in Hc1.
  set (b1 := CpBuffer.consume _ _ b) in *. set (i1 := istream.set_buf b1 i).
  fold (refill (CpBuffer.get_size IOSTREAM_BUFSIZE) s b1 i1).
  pose proof (refill_spec (CpBuffer.get_size IOSTREAM_BUFSIZE) s b1 i1 ltac:(done) Hb1 ltac:(done)) as Hr.
  destruct (refill _ _ _ _) as [[[s2 i2] b2] r]. rewrite Hc1 in Hr. destruct Hr as [[L1 L2] L3 L4 L5].
  assert (flags i1 = flags i) as Hfl by done.
  destruct (Z.leb_spec r 0) as [Hr|Hr].
  - eexists s2, i2, part, false. split; [done|]. apply (line_read_flags _ i1); [done|].
    split; [by intros ? E; rewrite L2 in E; injection E as <-|by rewrite L2|done|done|].
    unfold buffered. rewrite L2, L3. split; [by rewrite Hu, app_assoc|].
    destruct L5 as [[? _]|[(_ & L5 & L6)|(_ & L5 & L6 & L7)]]; [lia|left|right]; by split_and!.
  - destruct L5 as [(_ & L5 & L6)|[[? _]|[? _]]]; [|lia..].
    destruct (IH (dest ++ part) delim s2 b2 i2 L1 L2 L5) as (s' & i' & l & r' & -> & R).
    { rewrite L3. rewrite Hu, length_app in Hf. destruct part; [done|]. cbn [app length] in Hf.
      rewrite length_app in Hf. rewrite length_app. lia. }
    exists s', i', (part ++ l), r'. split; [by rewrite app_assoc|].
    apply (line_read_flags _ i2); [by rewrite L6|]. rewrite L3 in R. destruct R as [R1 R2 R3 R4 R5].
    split; [done|done|auto|by apply not_elem_of_app|]. cbv zeta in *. rewrite Hu, <- !app_assoc.
    destruct r'; destruct R5 as [R5 R6]; (split; [by rewrite R5|]); [done|].
    destruct R6 as [?|(?&?&?)]; [by left|right]. split_and!; auto.
Qed.

Lemma get_line_spec dest delim s i b :
  istream.good i = true → stream_buf (base i) = Some b → buf_ok b →
  ∃ s' i' l r, istream.get_line_nx dest delim s i = Some (s', i', l, r)
    ∧ line_read s i delim (bytes b ++ rest s) s' i' l r.
Proof.
  intros Hg Hi Hb. unfold istream.get_line_nx. rewrite Hg, Hi.
  fold (refill (CpBuffer.get_size IOSTREAM_BUFSIZE) s b i).
  pose proof (refill_spec (CpBuffer.get_size IOSTREAM_BUFSIZE) s b i ltac:(done) Hb Hi) as Hr.
  destruct (refill _ _ _ _) as [[[s2 i2] b2] r]. destruct Hr as [[L1 L2] L3 L4 L5].
  destruct (Z.leb_spec r 0) as [Hr|Hr].
  { eexists s2, i2, [], false. split; [done|].
    split; [by intros ? E; rewrite L2 in E; injection E as <-|by rewrite L2|done|apply not_elem_of_nil|].
    unfold buffered. rewrite L2, L3. split; [done|].
    destruct L5 as [[? _]|[(_ & L5 & L6)|(_ & L5 & L6 & L7)]]; [lia|left|right]; by split_and!. }
  destruct L5 as [(_ & L5 & L6)|[[? _]|[? _]]]; [|lia..].
  assert (∀ s' i' l r', line_read s2 i2 delim (bytes b2 ++ rest s2) s' i' l r' →
    line_read s i delim (bytes b ++ rest s) s' i' l r') as Hweak.
  { intros s' i' l r' HR. apply (line_read_flags _ i2); [by rewrite L6|]. rewrite L3 in HR.
    destruct HR as [R1 R2 R3 R4 R5]. split; [done|done|auto|done|]. cbv zeta in *.
    destruct r'; [done|]. destruct R5 as [R5 [R6|(?&?&?)]]; (split; [done|]); [by left|right]. split_and!; auto. }
  case_bool_decide as Hm.
  { eexists s2, _, [], true. split; [done|]. apply Hweak. apply (found_line s2 i2 delim b2 0 L1 Hm). }
  destruct (get_line_loop_spec (Z.to_nat (CpBuffer.get_length b2) + length (rest s2)) [] delim s2 b2 i2 L1 L2 L5)
    as (s' & i' & l & r' & E & R).
  { rewrite length_app. pose proof (bytes_length b2 L1). unfold CpBuffer.get_length. lia. }
  exists s', i', l, r'. split; [exact E|]. by apply Hweak.
Qed.

Lemma in_good_spec i : istream.good i = true ↔
  (∃ b, stream_buf (base i) = Some b) ∧ flags i = (false, false, 0, fd (base i)).
Proof.
  unfold istream.good, istream.current_state, istream.buffer_failure, flags.
  destruct (stream_buf (base i)) as [b|], (eof_state i), (string_failed i);
    cbn [bool_decide]; destruct (Z.eqb_spec (io_error (base i)) 0) as [->|]; cbn; naive_solver.
Qed.

(** The lines that a stream delivers with [get_line_until_eof]. *)
Definition lines_of (delim : Z) s i : list text :=
  if eof_state i then [] else split_lines delim (buffered (base i) ++ rest s).
(** An open stream without an error. *)
Record reading i : Prop := {
  i_buf : ∃ b, stream_buf (base i) = Some b ∧ buf_ok b;
  i_flags : flags i = (eof_state i, false, 0, fd (base i))
}.

Lemma until_eof_spec dest delim s i : reading i →
  ∃ s' i' l r, istream.get_line_until_eof_nx dest delim s i = Some (s', i', l, r)
    ∧ (quiet s → quiet s')
    ∧ match lines_of delim s i with
      | [] => r = false ∧ s' = s ∧ i' = i ∧ l = dest
      | _ :: _ =>
          (r = true ∧ reading i' ∧ lines_of delim s i = l :: lines_of delim s' i')
          ∨ (r = false ∧ ¬ quiet s ∧ 0 < io_error (base i'))
      end.
Proof.
  intros [(b & Hb & Hok) Hf]. unfold istream.get_line_until_eof_nx, lines_of.
  destruct (eof_state i) eqn:He.
  { assert (istream.good i = false) as ->.
    { apply not_true_iff_false. intros [_ Hg]%in_good_spec. unfold flags in *. congruence. }
    exists s, i, dest, false. by split_and!. }
  assert (istream.good i = true) as Hg by (apply in_good_spec; split; [by eexists|done]). rewrite Hg. cbn [negb].
  destruct (get_line_spec dest delim s i b Hg Hb Hok) as (s' & i' & l & r & -> & [R1 R2 R3 R4 R5]).
  cbn [mbind option_bind]. replace (buffered (base i)) with (bytes b) by (unfold buffered; by rewrite Hb).
  set (t := bytes b ++ rest s) in *.
  eexists s', i', l, _. split; [done|]. split; [done|].
  assert (∃ x ls, split_lines delim t = x :: ls) as (x & ls & Hx).
  { destruct t as [|c t']; cbn [split_lines]; [by eexists _, _|]. destruct (c =? delim); [by eexists _, _|].
    destruct (split_lines delim t'); by eexists _, _. }
  rewrite Hx. cbv iota. rewrite <- Hx. cbv zeta in R5. destruct R2 as [b' Hb'].
  assert (reading i' ↔ flags i' = (eof_state i', false, 0, fd (base i'))) as Hread.
  { split; [by intros []|]. intros Hfl. split; [|done]. exists b'. split; [done|by apply R1]. }
  destruct r.
  - left. destruct R5 as [R5 R6]. split; [done|]. rewrite Hf in R6.
    assert (eof_state i' = false) as He' by (unfold flags in R6; congruence). split.
    + apply Hread. rewrite R6. unfold flags in R6. rewrite He'. congruence.
    + rewrite R5, split_lines_cut by done. by rewrite He'.
  - destruct R5 as [R5 [(R6 & R7)|(R6 & R7 & R8)]].
    + left. rewrite R6, app_nil_r in R5. unfold flags in R7. injection R7 as F1 F2 F3 F4.
      unfold flags in Hf. injection Hf as _ G2 G3. rewrite F2, F3, G2, G3. split; [done|]. split.
      * apply Hread. unfold flags. congruence.
      * rewrite F1, R5. by apply split_lines_one.
    + right. rewrite (proj2 (Z.eqb_neq (io_error (base i')) 0)) by lia. done.
Qed.
