(* ===== verification/IoProps.v ===== *)
(** * Streams: properties

    What is written to a stream reaches its descriptor whole and in order, and a file is read
    as the list of its lines, as the files of [ServiceFile] and [Env] are modelled. *)

From S2P Require Import Prelude Text IoStream IoLaws.
From S2P Require CpBuffer ServiceFile.
Import CpBuffer (cpbuffer).

#[local] Existing Instance ServiceFile.eta_input_file.
Implicit Types (s : system) (o : io_base) (i : istream) (msg t : text).

(** ** Output *)

Variant out_op :=
  | Op_write (items : list ostream.item)      (* [write_nx] *)
  | Op_buf (msg : text)                       (* [write_buf_nx] *)
  | Op_flush                                  (* [flush_nx] *)
  | Op_clear.
Definition op_text (op : out_op) : text :=
  match op with
  | Op_write items => concat (map item_text items)
  | Op_buf msg => msg
  | _ => []
  end.
(** The result says whether everything was written or put in the buffer. *)
Definition run_op (op : out_op) s o : option (system * io_base * bool) :=
  match op with
  | Op_write items => ostream.write_nx items s o
  | Op_buf msg => '(s, o, r) ← ostream.put msg s o; Some (s, o, r =? Z.of_nat (length msg))
  | Op_flush => ostream.flush_nx s o
  | Op_clear => Some (s, ostream.clear o, true)
  end.
Fixpoint run_ops (ops : list out_op) s o : option (system * io_base * list bool) :=
  match ops with
  | [] => Some (s, o, [])
  | op :: ops =>
      '(s, o, r) ← run_op op s o;
      '(s, o, rs) ← run_ops ops s o;
      Some (s, o, r :: rs)
  end.

(** What is accepted of a text, by the result. *)
Definition accepted (r : bool) msg t : Prop := if r then t = msg else t `prefix_of` msg.

Lemma run_op_spec op s o : stream_ok o →
  ∃ s' o' r t, run_op op s o = Some (s', o', r) ∧ out_step s o s' o' t ∧ accepted r (op_text op) t
    ∧ (op ≠ Op_clear → ostream.good o = true → ostream.good o' = r)
    ∧ (op ≠ Op_clear → ostream.good o = false → ostream.good o' = false).
Proof.
  intros Ho.
  assert (∀ s' o' r, took s o s' o' (op_text op) r → ∃ t, out_step s o s' o' t ∧ accepted r (op_text op) t
    ∧ (op ≠ Op_clear → ostream.good o = true → ostream.good o' = r)
    ∧ (op ≠ Op_clear → ostream.good o = false → ostream.good o' = false)) as Ht.
  { intros s' o' r T. pose proof (took_good _ _ _ _ _ _ T) as Hg. destruct T as (t & S & T). exists t.
    split; [done|]. split; [destruct r; by destruct T|]. split; [auto|]. intros _ Hn. destruct r; [|apply T]. destruct T as [_ E].
    apply good_false. apply good_false in Hn as [Hn|Hn]; [left; by apply (os_buf _ _ _ _ _ S)|right; congruence]. }
  destruct op as [items|msg| |]; cbn [run_op op_text] in *.
  - destruct (write_nx_spec items s o Ho) as (s' & o' & r & E & T & _). exists s', o', r.
    destruct (Ht _ _ _ T) as (t & H1). by exists t.
  - destruct (put_spec msg s o Ho) as (s' & o' & r & -> & _ & _ & T). eexists s', o', _.
    destruct (Ht _ _ _ T) as (t & H1). by exists t.
  - destruct (flush_spec s o Ho) as (s' & o' & r & E & T & _). exists s', o', r.
    destruct (Ht _ _ _ T) as (t & H1). by exists t.
  - eexists s, _, true, []. split; [done|]. split; [|done].
    split; unfold ostream.clear, buffered, stream_ok; rsimpl; try done. by rewrite app_nil_r.
Qed.

Lemma run_ops_spec ops : ∀ s o, stream_ok o →
  ∃ s' o' rs ts, run_ops ops s o = Some (s', o', rs) ∧ out_step s o s' o' (concat ts)
    ∧ Forall2 (λ '(op, r) t, accepted r (op_text op) t) (zip ops rs) ts ∧ length rs = length ops
    ∧ (Op_clear ∉ ops → ostream.good o = true → ostream.good o' = forallb id rs)
    ∧ (Op_clear ∉ ops → ostream.good o = false → ostream.good o' = false).
Proof.
  induction ops as [|op ops IH]; intros s o Ho.
  { exists s, o, [], []. split; [done|]. split; [by apply out_refl|]. by split_and!. }
  cbn [run_ops]. destruct (run_op_spec op s o Ho) as (s1 & o1 & r & t & -> & S1 & A & G1 & B1).
  cbn [mbind option_bind]. destruct (IH s1 o1 (os_ok _ _ _ _ _ S1)) as (s2 & o2 & rs & ts & -> & S2 & F & L & G2 & B2).
  cbn [mbind option_bind]. exists s2, o2, (r :: rs), (t :: ts). split; [done|]. cbn [concat].
  split; [by eapply out_trans|]. split; [by constructor|]. split; [cbn; by rewrite L|].
  rewrite not_elem_of_cons. cbn [forallb]. split; intros [Hc Hcs] Hg.
  - specialize (G1 (not_eq_sym Hc) Hg). destruct r; cbn; [by apply G2|by apply B2].
  - apply B2; [done|]. by apply B1.
Qed.

(** C29: Whatever is written to a stream, and whatever part of it each call of writev takes:
    every operation ends, and the bytes that were written to the descriptor and those that wait
    in the buffer are together the texts of the operations in order; one that returns false has
    accepted the beginning of its text.  An error is remembered, so that the state of the
    stream at the end tells whether all operations were successful, and when closing it is
    successful everything has reached the descriptor, which is closed once. *)
Theorem ostream_in_order (ops : list out_op) s o : stream_ok o →
  ∃ s' o' rs ts, run_ops ops s o = Some (s', o', rs) ∧ length rs = length ops
    ∧ Forall2 (λ '(op, r) t, accepted r (op_text op) t) (zip ops rs) ts
    ∧ sent s' ++ buffered o' = sent s ++ buffered o ++ concat ts
    ∧ (Op_clear ∉ ops → ostream.good o = true → ostream.good o' = forallb id rs)
    ∧ ∃ s'' o'' r, ostream.close_nx s' o' = Some (s'', o'', r)
        ∧ (r = true → sent s'' = sent s ++ buffered o ++ concat ts)
        ∧ (0 ≤ fd o → closed s'' = fd o :: closed s ∧ fd o'' = -1).
Proof.
  intros Ho. destruct (run_ops_spec ops s o Ho) as (s' & o' & rs & ts & E & S & F & L & G & _).
  exists s', o', rs, ts. pose proof (os_bytes _ _ _ _ _ S) as Eb.
  destruct (close_spec s' o' (os_ok _ _ _ _ _ S)) as (s'' & o'' & r & Ec & _ & C1 & C2).
  split_and!; [done..|]. exists s'', o'', r. rewrite (os_fd _ _ _ _ _ S), (os_closed _ _ _ _ _ S) in C2.
  split_and!; [done| |done]. intros Hr. by rewrite C1, Eb.
Qed.

(** ** Input files *)

(** [file_input_stack] with real streams. *)
Record stream_file := Stream_file {
  f_sys : system;
  f_stream : istream;
  f_name : text;
  f_line : Z;
  f_dir : Z
}.
#[export] Instance eta_stream_file : Eta stream_file := λ f,
  Stream_file (f_sys f) (f_stream f) (f_name f) (f_line f) (f_dir f).

Definition read_line (rline : text) (f : stream_file) : option (stream_file * text * bool) :=
  '(s, i, rline, r) ← istream.get_line_until_eof_nx rline NEWLINE (f_sys f) (f_stream f);
  Some (f <| f_sys := s |> <| f_stream := i |>, rline, r).
Fixpoint stack_getline (rline : text) (st : list stream_file)
    : option (list stream_file * option text * option io_exc) :=
  match st with
  | [] => Some ([], None, None)
  | top :: below =>
      '(top, rline, r) ← read_line rline (top <| f_line ::= Z.add 1 |>);
      if (r : bool) then Some (top :: below, Some rline, None)
      else
        match istream.throw_exception_on istream.error_states (f_stream top) with
        | Some e => Some (top :: below, None, Some e)
        | None => stack_getline rline below
        end
  end.
Definition stack_getline_same_file (rline : text) (st : list stream_file)
    : option (list stream_file * option text * option io_exc) :=
  match st with
  | [] => Some ([], None, None)
  | top :: below =>
      '(top, rline, r) ← read_line rline top;
      if (r : bool) then Some (top <| f_line ::= Z.add 1 |> :: below, Some rline, None)
      else Some (top :: below, None, istream.throw_exception_on istream.error_states (f_stream top))
  end.

(** A stream, of which reading does not fail, delivers these lines. *)
Record delivers (f : stream_file) (g : ServiceFile.input_file) : Prop := {
  d_reading : reading (f_stream f);
  d_quiet : quiet (f_sys f);
  d_lines : ServiceFile.in_lines g = lines_of NEWLINE (f_sys f) (f_stream f);
  d_name : ServiceFile.in_name g = f_name f;
  d_line : ServiceFile.in_line g = f_line f;
  d_dir : ServiceFile.in_dir g = f_dir f
}.

Lemma throws_nothing i : reading i → istream.throw_exception_on istream.error_states i = None.
Proof.
  intros [(b & Hb & _) Hf]. unfold flags in Hf. injection Hf as F1 F2.
  unfold istream.throw_exception_on, istream.buffer_failure, istream.input_failure, istream.io_failure.
  by rewrite Hb, F1, F2.
Qed.

Lemma read_line_spec rline f g : delivers f g →
  ∃ f' l r, read_line rline f = Some (f', l, r)
    ∧ match ServiceFile.in_lines g with
      | [] => r = false ∧ delivers f' g
      | line :: ls => r = true ∧ l = line ∧ delivers f' (g <| ServiceFile.in_lines := ls |>)
      end.
Proof.
  intros [D1 D2 D3 D4 D5 D6]. unfold read_line.
  destruct (until_eof_spec rline NEWLINE (f_sys f) (f_stream f) D1) as (s' & i' & l & r & -> & Q & R).
  cbn [mbind option_bind]. eexists _, l, r. split; [done|]. rewrite D3.
  destruct (lines_of _ (f_sys f) _) as [|x ls] eqn:El.
  - destruct R as (-> & -> & -> & _). split; [done|]. split; rsimpl; try done. by rewrite El.
  - destruct R as [(-> & R1 & R2)|(_ & R2 & _)]; [|done]. injection R2 as -> ->. split; [done|]. split; [done|].
    split; rsimpl; try done. by apply Q.
Qed.

Lemma delivers_line f g : delivers f g →
  delivers (f <| f_line ::= Z.add 1 |>) (g <| ServiceFile.in_line ::= Z.add 1 |>).
Proof. intros [D1 D2 D3 D4 D5 D6]. split; rsimpl; try done. by rewrite D5. Qed.

(** Opening a file. *)
Lemma open_reading path s : ∀ s' i',
  istream.open_nx path s istream_new = (s', i', true) →
  reading i' ∧ lines_of NEWLINE s' i' = split_lines NEWLINE (rest s) ∧ reads s' = reads s.
Proof.
  intros s' i'. unfold istream.open_nx, sys_open, new_buffer. rsimpl.
  destruct (head (opens s)) as [[n|e]|]; [|done|]; rsimpl.
  - rewrite (proj2 (Z.ltb_ge (Z.of_nat n) 0)) by lia. destruct (default true _).
    + intros [= <- <-]. rsimpl. split; [|done]. split; [|done]. eexists. split; [done|]. apply new_ok.
    + by destruct (sys_close _ _).
  - change (3 <? 0) with false. cbv iota. destruct (default true _).
    + intros [= <- <-]. rsimpl. split; [|done]. split; [|done]. eexists. split; [done|]. apply new_ok.
    + by destruct (sys_close _ _).
Qed.

(** The text of a file with these lines. *)
Fixpoint unsplit_lines (ls : list text) : text :=
  match ls with
  | [] => []
  | [l] => l
  | l :: ls => l ++ NEWLINE :: unsplit_lines ls
  end.
Lemma join_split t : unsplit_lines (split_lines NEWLINE t) = t.
Proof.
  induction t as [|c t IH]; cbn [split_lines]; [done|].
  assert (∃ l ls, split_lines NEWLINE t = l :: ls) as (l & ls & E).
  { destruct t as [|d t']; cbn [split_lines]; [by eexists _, _|]. destruct (d =? NEWLINE); [by eexists _, _|].
    destruct (split_lines NEWLINE t'); by eexists _, _. }
  rewrite E in *. destruct (Z.eqb_spec c NEWLINE) as [->|Hc].
  - change (unsplit_lines ([] :: l :: ls)) with (NEWLINE :: unsplit_lines (l :: ls)). by rewrite IH.
  - rewrite <- IH. by destruct ls.
Qed.

(** C30: A file is the list of its lines.  However the data arrive, in parts of any size and with
    interruptions: the stack of input files delivers line after line what the stack of lists of
    lines does ([ServiceFile.getline]), and falls back to the including file at the same
    places, as long as reading does not fail; a file that has been opened has the lines of its
    text, and they are the text, with a newline between each and the next. *)
Theorem input_files_are_lines (st : list stream_file) (gs : list ServiceFile.input_file) rline :
  Forall2 delivers st gs →
  (∃ st', stack_getline rline st = Some (st', (ServiceFile.getline gs).1, None)
     ∧ Forall2 delivers st' (ServiceFile.getline gs).2)
  ∧ (∃ st', stack_getline_same_file rline st = Some (st', (ServiceFile.getline_same_file gs).1, None)
     ∧ Forall2 delivers st' (ServiceFile.getline_same_file gs).2)
  ∧ (∀ path s s' i' name dir, istream.open_nx path s istream_new = (s', i', true) → quiet s →
       delivers (Stream_file s' (istream_move i').1 name 0 dir)
         (ServiceFile.Input_file (split_lines NEWLINE (rest s)) name 0 dir))
  ∧ ∀ t, unsplit_lines (split_lines NEWLINE t) = t.
Proof.
  intros Hst. split; [|split; [|split]].
  - revert rline. induction Hst as [|f g st gs Hd Hst IH]; intros rline; cbn [stack_getline ServiceFile.getline].
    { by exists []. }
    apply delivers_line in Hd. set (g1 := g <| ServiceFile.in_line ::= Z.add 1 |>) in *.
    destruct (read_line_spec rline _ g1 Hd) as (f' & l & r & -> & R). cbn [mbind option_bind].
    destruct (ServiceFile.in_lines g1) as [|line ls].
    + destruct R as [-> R]. rewrite throws_nothing by apply R. apply IH.
    + destruct R as (-> & -> & R). eexists. split; [done|]. by constructor.
  - destruct Hst as [|f g st gs Hd Hst]; cbn [stack_getline_same_file ServiceFile.getline_same_file].
    { by exists []. }
    destruct (read_line_spec rline f g Hd) as (f' & l & r & -> & R). cbn [mbind option_bind].
    destruct (ServiceFile.in_lines g) as [|line ls].
    + destruct R as [-> R]. rewrite throws_nothing by apply R. eexists. split; [done|]. by constructor.
    + destruct R as (-> & -> & R). eexists. split; [done|]. constructor; [|done].
      by apply (delivers_line f' (g <| ServiceFile.in_lines := ls |>)).
  - intros path s s' i' name dir Ho Hq. apply open_reading in Ho as ([(b & Hb & Hok) Hf] & Hl & Hr).
    unfold istream_move, io_base_move. cbn [fst].
    assert (flags i' = (eof_state i', false, 0, fd (base i'))) as Hf' by done. unfold flags in Hf. injection Hf as F1 F2.
    split; cbn; try done.
    + split; [by exists b|]. unfold flags. cbn. by rewrite F1.
    + unfold quiet. by rewrite Hr.
  - intros t. apply join_split.
Qed.

(** ** Examples *)

Definition calm_system (writes reads : list io_result) (file : text) : system :=
  System 0 writes reads [] [] [] [] file [] [].
Definition ex_output : io_base := Io_base 3 (Some (CpBuffer.cpbuffer_new IOSTREAM_BUFSIZE)) 0.
Definition note : list out_op :=
  [Op_write [ostream.Msg (chars "started "); ostream.Num 5; ostream.Endl]; Op_buf (chars "more"); Op_flush].
Definition short_writes : system := calm_system [Takes 3; Fails 4; Takes 2; Fails 28] [] [].

Lemma ostream_in_order_witness :
  stream_ok ex_output
  ∧ ∃ s' o' rs ts, run_ops note short_writes ex_output = Some (s', o', rs)
    ∧ sent s' ++ buffered o' = concat ts
    ∧ ostream.good o' = forallb id rs.
Proof.
  assert (stream_ok ex_output) as Ho by (intros b [= <-]; apply new_ok). split; [exact Ho|].
  destruct (ostream_in_order note short_writes ex_output Ho) as (s' & o' & rs & ts & E & _ & _ & Eb & G & _).
  exists s', o', rs, ts. split; [exact E|]. split; [|apply G; [|done]].
  - rewrite Eb. change (sent short_writes) with (@nil Z). cbn [app].
    replace (buffered ex_output) with (@nil Z) by (symmetry; apply new_ok). done.
  - intros Hin. repeat (apply elem_of_cons in Hin as [[=]|Hin]). by apply elem_of_nil in Hin.
Defined.

Definition interrupted : system :=
  calm_system [] [Takes 2; Fails 4; Takes 1] (chars "type = process" ++ [NEWLINE] ++ chars "command = x").
Lemma input_files_are_lines_witness :
  ∃ s' i', istream.open_nx (chars "/etc/dinit.d/a") interrupted istream_new = (s', i', true)
    ∧ delivers (Stream_file s' (istream_move i').1 (chars "a") 0 7)
        (ServiceFile.Input_file [chars "type = process"; chars "command = x"] (chars "a") 0 7)
    ∧ ∃ st', stack_getline [] [Stream_file s' (istream_move i').1 (chars "a") 0 7]
               = Some (st', Some (chars "type = process"), None).
Proof.
  destruct (istream.open_nx (chars "/etc/dinit.d/a") interrupted istream_new) as [[s' i'] r] eqn:E.
  exists s', i'. assert (r = true) as -> by (injection E as _ _ <-; reflexivity).
  assert (quiet interrupted) as Hq by (by repeat constructor). split; [done|].
  assert (delivers (Stream_file s' (istream_move i').1 (chars "a") 0 7)
    (ServiceFile.Input_file [chars "type = process"; chars "command = x"] (chars "a") 0 7)) as Hd.
  { apply (proj1 (proj2 (proj2 (input_files_are_lines [] [] [] ltac:(constructor)))) _ interrupted s' i' (chars "a") 7 E Hq). }
  split; [exact Hd|].
  destruct (proj1 (input_files_are_lines [_] [_] [] ltac:(constructor; [exact Hd|constructor]))) as (st' & Hst & _).
  exists st'. exact Hst.
Defined.

(** What the functions do that they do not mean to:
    - [istream::close_nx] always returns false, since the buffer is gone when [good] is asked;
    - [close] of an output stream that is not open reports no error, since [good] is false
      without a buffer and so no error is recorded;
    - a stream that was assigned from keeps its descriptor, and closes it when it is destroyed;
    - a stream that is moved forgets that it has failed. *)
Theorem io_defects :
  (∀ s i, (istream.close_nx s i).2 = false)
  ∧ (∀ s, ostream.close s io_base_new = Some (s, io_base_new, None))
  ∧ (∀ s o, is_open o = true →
       let '(target, source) := io_base_move_assign o in
       fd target = fd o ∧ ∃ s', ostream.destroy s source = Some s' ∧ closed s' = fd o :: closed s)
  ∧ (∀ o b, stream_buf o = Some b → ostream.good (io_base_move o).1 = true).
Proof.
  split_and!.
  - intros s i. unfold istream.close_nx. destruct (fd (base i) <? 0); [done|].
    destruct (sys_close _ _) as [s' c]. destruct (c <? 0); [done|]. cbn [snd].
    apply not_true_iff_false. intros Hg. apply in_good_spec in Hg as [[b Hb] _].
    unfold istream.on_base in Hb. by revert Hb; rsimpl.
  - done.
  - intros s o Ho. unfold io_base_move_assign. split; [done|]. unfold ostream.destroy.
    assert (is_open (o <| stream_buf := None |>) = true) as -> by exact Ho.
    destruct (close_spec s (o <| stream_buf := None |>) ltac:(done)) as (s' & o' & r & -> & _ & _ & C).
    exists s'. split; [done|]. apply C. unfold is_open in Ho. rsimpl. lia.
  - intros o b Hb. apply good_spec. split; [by exists b|done].
Qed.
