(* ===== verification/Client.v ===== *)
(** * The client library

    The functions of dinit-client.h and dinit-client.cc with which the clients talk to the
    daemon over the control socket: reading into the buffer, waiting for replies, writing
    requests, the version check, the load path and the environment of the daemon.  The system
    is the one of [IoStream]: [rest] are the bytes that the daemon sends from here on, [sent]
    those written to it. *)

From S2P Require Import Prelude Text ServiceData Env ControlConn LoadService.
From S2P Require CpBuffer IoStream.
Import CpBuffer (cpbuffer).
Import IoStream (system, io_result, Takes, Fails, errno, writevs, reads, sent, rest, EINTR).
#[local] Existing Instance IoStream.eta_system.

(** The size of [cpbuffer_t]. *)
Definition RBUF_SIZE : Z := 1024.

Variant client_exc :=
  | Cp_read_exception (errcode : Z)
  | Cp_write_exception (errcode : Z)
  | Dinit_protocol_error
  | Cp_old_client_exception
  | Cp_old_server_exception
  | Dinit_unknown_sd_conf.

(** [observed_states_t]; the reason of the failure is the code of a [stopped_reason_t]. *)
Record observed_states := Observed {
  seen_started : bool;
  seen_stopped : bool;
  failed_start : bool;
  seen_stop_reason : Z;
  seen_exit_status : Z;
  exit_si_code : Z;
  exit_si_status : Z
}.
#[export] Instance eta_observed_states : Eta observed_states := λ o,
  Observed (seen_started o) (seen_stopped o) (failed_start o) (seen_stop_reason o)
    (seen_exit_status o) (exit_si_code o) (exit_si_status o).
Definition observed_new : observed_states := Observed false false false 0 0 0 0.

(** ** Operations

    What the functions share: the connection, its buffer, and the object of observed states
    whose address the caller passes ([None]: a null pointer). *)

Record client := Client {
  sys : system;
  rbuffer : cpbuffer;
  seen_states : option observed_states
}.
#[export] Instance eta_client : Eta client := λ c, Client (sys c) (rbuffer c) (seen_states c).

(** [Overrun]: the fuel is used up. *)
Variant outcome (A : Type) := Returns (a : A) | Throws (e : client_exc) | Overrun.
#[global] Arguments Returns {A} a.
#[global] Arguments Throws {A} e.
#[global] Arguments Overrun {A}.

Definition op (A : Type) : Type := client → client * outcome A.
#[export] Instance op_ret : MRet op := λ A a c, (c, Returns a).
#[export] Instance op_bind : MBind op := λ A B k m c,
  match m c with
  | (c, Returns a) => k a c
  | (c, Throws e) => (c, Throws e)
  | (c, Overrun) => (c, Overrun)
  end.
#[export] Instance op_fmap : FMap op := λ A B f m, m ≫= λ a, mret (f a).

Definition throw {A} (e : client_exc) : op A := λ c, (c, Throws e).
Definition overrun {A} : op A := λ c, (c, Overrun).
Definition get {A} (f : client → A) : op A := λ c, (c, Returns (f c)).
Definition modify (f : client → client) : op unit := λ c, (f c, Returns tt).

(** The methods of the buffer. *)
Definition get_length : op Z := get (λ c, CpBuffer.get_length (rbuffer c)).
Definition byte_at (i : Z) : op Z := get (λ c, CpBuffer.at_ RBUF_SIZE i (rbuffer c)).
Definition extract (i len : Z) : op (list Z) := get (λ c, CpBuffer.extract RBUF_SIZE i len (rbuffer c)).
Definition extract_string (i len : Z) : op text :=
  get (λ c, CpBuffer.extract_string RBUF_SIZE i len (rbuffer c)).
Definition extract_int (i len : Z) : op Z := le_value <$> extract i len.
Definition consume (n : Z) : op unit := modify (λ c, c <| rbuffer ::= CpBuffer.consume RBUF_SIZE n |>).
Definition reset : op unit := modify (λ c, c <| rbuffer ::= CpBuffer.reset |>).
(** The bytes from the front of the buffer, as [get_ptr(0)] points to them. *)
Definition front (n : Z) : op text :=
  get (λ c, CpBuffer.copy_out (CpBuffer.get_ptr RBUF_SIZE 0 (rbuffer c)) n (CpBuffer.buf (rbuffer c))).
Definition contiguous : op Z :=
  get (λ c, CpBuffer.get_contiguous_length RBUF_SIZE (CpBuffer.get_ptr RBUF_SIZE 0 (rbuffer c)) (rbuffer c)).
Definition last_errno : op Z := get (λ c, errno (sys c)).

Definition fill_to (rlength : Z) : op Z := λ c,
  match CpBuffer.fill_to RBUF_SIZE IoStream.read rlength (sys c) (rbuffer c) with
  | Some (s, r, b) => (c <| sys := s |> <| rbuffer := b |>, Returns r)
  | None => (c, Overrun)
  end.
Definition fill : op Z := λ c,
  let '(s, r, b) := CpBuffer.fill RBUF_SIZE IoStream.read (sys c) (rbuffer c) in
  (c <| sys := s |> <| rbuffer := b |>, Returns r).

(** Bytes that were received or are to come. *)
Definition pending (c : client) : list Z :=
  CpBuffer.contents RBUF_SIZE (rbuffer c) ++ rest (sys c).
Definition to_come : op nat := get (λ c, length (pending c)).

(** ** Reading

    The loops that try again after an interruption go along the results to come: each turn
    after a failure uses up one of them. *)

Fixpoint fill_buffer_loop (results : list io_result) (rlength : Z) : op unit :=
  r ← fill_to rlength;
  if r =? -1 then
    e ← last_errno;
    if negb (e =? EINTR) then throw (Cp_read_exception e)
    else match results with
         | _ :: results => fill_buffer_loop results rlength
         | [] => overrun
         end
  else if r =? 0 then throw (Cp_read_exception 0)
  else mret tt.
Definition fill_buffer_to (rlength : Z) : op unit := λ c,
  fill_buffer_loop (reads (sys c)) rlength c.

Fixpoint fill_some_loop (results : list io_result) : op unit :=
  r ← fill;
  if r =? 0 then throw (Cp_read_exception 0)
  else if 0 <? r then mret tt
  else
    e ← last_errno;
    if negb (e =? EINTR) then throw (Cp_read_exception e)
    else match results with
         | _ :: results => fill_some_loop results
         | [] => overrun
         end.
Definition fill_some : op unit := λ c, fill_some_loop (reads (sys c)) c.

(** A byte is a [char], which is signed. *)
Definition is_info (code : Z) : bool := 100 <=? signed 8 code.

(** *** Waiting for a reply

    Every turn takes a packet off the stream, if its length is not 0. *)
Fixpoint wait_loop (fuel : nat) : op unit :=
  code ← byte_at 0;
  if is_info code then
    match fuel with
    | O => overrun
    | S fuel =>
        fill_buffer_to 2;;
        pktlen ← byte_at 1;
        consume 1;;
        fill_buffer_to pktlen;;
        consume (pktlen - 1);;
        wait_loop fuel
    end
  else mret tt.
Definition wait_for_reply : op unit :=
  fill_buffer_to 1;;
  n ← to_come;
  wait_loop n.

(** Changes of the observed states. *)
Definition observe (f : observed_states → observed_states) : op unit :=
  modify (λ c, c <| seen_states ::= fmap f |>).

Definition base_pkt_size : Z := 7.

(** A failure to start, with the reason and the exit status if they are sent. *)
Definition observe_failure (pkt_type pktlen : Z) : op unit :=
  stop_reason ← byte_at (base_pkt_size + 2);
  observe (λ o, o <| failed_start := true |> <| seen_stop_reason := stop_reason |>);;
  exit_status ← signed 32 <$> extract_int (base_pkt_size + 5) 4;
  (if pkt_type =? cp_info.SERVICEEVENT5 then
     if pktlen <? base_pkt_size + STATUS_BUFFER5_SIZE then throw Dinit_protocol_error
     else
       si_status ← signed 32 <$> extract_int (base_pkt_size + 9) 4;
       observe (λ o, o <| exit_si_code := exit_status |> <| exit_si_status := si_status |>)
   else mret tt);;
  observe (λ o, o <| seen_exit_status := exit_status |>).

(** The event of a packet whose first byte is consumed. *)
Definition observe_event (handle pkt_type pktlen : Z) : op unit :=
  if pktlen <? base_pkt_size then throw Dinit_protocol_error
  else
    ev_handle ← extract_int 1 4;
    event ← byte_at 5;
    if ev_handle =? handle then
      (if event =? event_code service_event_t.STOPPED
       then observe (λ o, o <| seen_stopped := true |>) else mret tt);;
      (if event =? event_code service_event_t.STARTED
       then observe (λ o, o <| seen_started := true |>) else mret tt);;
      (if event =? event_code service_event_t.FAILEDSTART
       then observe_failure pkt_type pktlen else mret tt)
    else mret tt.

Definition is_service_event (code : Z) : bool :=
  (code =? cp_info.SERVICEEVENT) || (code =? cp_info.SERVICEEVENT5).

(** The overload with the handle of a service and the observed states. *)
Fixpoint wait_seen_loop (fuel : nat) (handle : Z) : op unit :=
  code ← byte_at 0;
  if is_info code then
    match fuel with
    | O => overrun
    | S fuel =>
        fill_buffer_to 2;;
        pktlen ← byte_at 1;
        consume 1;;
        fill_buffer_to pktlen;;
        seen ← get seen_states;
        (if is_service_event code && bool_decide (is_Some seen)
         then observe_event handle code pktlen else mret tt);;
        consume (pktlen - 1);;
        wait_seen_loop fuel handle
    end
  else mret tt.
Definition wait_for_reply_seen (handle : Z) : op unit :=
  fill_buffer_to 1;;
  n ← to_come;
  wait_seen_loop n handle.

Definition wait_for_info : op unit :=
  fill_buffer_to 2;;
  code ← byte_at 0;
  if negb (is_info code) then throw (Cp_read_exception 0)
  else
    pktlen ← byte_at 1;
    fill_buffer_to pktlen.

(** ** Writing

    Along the results to come; when there are none everything is written.  [w] is what was
    written already. *)
Fixpoint write_loop (results : list io_result) (w : Z) (data : list Z) (s : system) : system * Z :=
  match data, results with
  | [], _ => (s, w)
  | _, [] => (s <| sent ::= λ t, t ++ data |>, w + Z.of_nat (length data))
  | _, r :: results =>
      let '(s, n) := IoStream.writev_result r data (s <| writevs := results |>) in
      if n =? -1 then
        if errno s =? EINTR then write_loop results w data s
        else (s, if 0 <? w then w else n)
      else write_loop results (w + n) (drop (Z.to_nat n) data) s
  end.
Definition write_all (data : list Z) : op Z := λ c,
  let '(s, r) := write_loop (writevs (sys c)) 0 data (sys c) in
  (c <| sys := s |>, Returns r).
Definition write_all_x (data : list Z) : op unit :=
  r ← write_all data;
  if r =? -1 then e ← last_errno; throw (Cp_write_exception e) else mret tt.

(** ** Requests *)

Definition check_protocol_version (minversion version : Z) : op Z :=
  write_all_x [cp_cmd.QUERYVERSION];;
  wait_for_reply;;
  code ← byte_at 0;
  if negb (code =? cp_rply.CPVERSION) then throw (Cp_read_exception 0)
  else
    fill_buffer_to 5;;
    rminversion ← extract_int 1 2;
    cpversion ← extract_int 3 2;
    consume 5;;
    if version <? rminversion then throw Cp_old_client_exception
    else if cpversion <? minversion then throw Cp_old_server_exception
    else mret cpversion.

(** *** Strings

    Every turn reads some bytes; the second result is the part of the buffer that the last
    turn used. *)
Fixpoint read_string_loop (fuel : nat) (rlen : Z) (r : text) : op (text * Z) :=
  reset;;
  fill_some;;
  clen ← get_length;
  let clen := Z.min clen rlen in
  part ← front clen;
  let r := r ++ part in
  if 0 <? rlen - clen then
    match fuel with
    | O => overrun
    | S fuel => read_string_loop fuel (rlen - clen) r
    end
  else mret (r, clen).
Definition read_string (length_ : Z) : op text :=
  rb_len ← get_length;
  if length_ <=? rb_len then
    r ← extract_string 0 length_;
    consume length_;;
    mret r
  else
    r ← extract_string 0 rb_len;
    n ← to_come;
    '(r, clen) ← read_string_loop n (length_ - rb_len) r;
    consume clen;;
    mret r.

(** *** The load path *)

Definition SSET_TYPE_DIRLOAD : Z := 1.

Fixpoint read_paths (n : nat) (dinit_cwd : text) : op (list text) :=
  match n with
  | O => mret []
  | S n =>
      fill_buffer_to 4;;
      plen ← extract_int 0 4;
      consume 4;;
      sd_rel_path ← read_string plen;
      paths ← read_paths n dinit_cwd;
      mret (combine_paths dinit_cwd (c_str sd_rel_path) :: paths)
  end.
Definition get_service_description_dirs : op (list text) :=
  write_all_x [cp_cmd.QUERY_LOAD_MECH];;
  wait_for_reply;;
  code ← byte_at 0;
  if negb (code =? cp_rply.LOADER_MECH) then throw Dinit_protocol_error
  else
    fill_buffer_to 6;;
    mech ← byte_at 1;
    if negb (mech =? SSET_TYPE_DIRLOAD) then throw Dinit_unknown_sd_conf
    else
      fill_buffer_to 14;;
      path_entries ← extract_int 6 4;
      cwd_len ← extract_int 10 4;
      consume 14;;
      dinit_cwd ← read_string cwd_len;
      read_paths (Z.to_nat path_entries) dinit_cwd.

(** *** The environment

    [env_var] is the part of a setting that was read already.  Every turn takes bytes from
    the buffer or reads some. *)
Section remote_environment.
Context (environ : list text).

Fixpoint read_env_loop (fuel : nat) (data_size : Z) (env_var : text) (menv : environment)
    : op environment :=
  match fuel with
  | O => overrun
  | S fuel =>
      contig_len ← contiguous;
      part ← front (Z.min contig_len data_size);
      match list_find (λ b, b = 0) part with
      | Some (i, _) =>
          consume (Z.of_nat i + 1);;
          let data_size := data_size - (Z.of_nat i + 1) in
          let menv := (set_var environ (env_var ++ take i part) false menv).1 in
          if data_size =? 0 then mret menv else read_env_loop fuel data_size [] menv
      | None =>
          let check_len := Z.min contig_len data_size in
          consume check_len;;
          let data_size := data_size - check_len in
          if data_size =? 0 then throw Dinit_protocol_error
          else
            len ← get_length;
            (if len =? 0 then fill_some else mret tt);;
            read_env_loop fuel data_size (env_var ++ part) menv
      end
  end.

(** The result of [fill_to] is not looked at. *)
Definition get_remote_env (menv : environment) : op environment :=
  write_all_x [cp_cmd.GETALLENV; 0];;
  wait_for_reply;;
  code ← byte_at 0;
  if negb (code =? cp_rply.ALLENV) then throw Dinit_protocol_error
  else
    fill_to 9;;
    data_size ← extract_int 1 8;
    consume 9;;
    if data_size =? 0 then mret menv
    else
      len ← get_length;
      (if len =? 0 then fill_some else mret tt);;
      n ← to_come;
      read_env_loop (2 * n) data_size [] menv.

(** ** Connecting *)

Record general_error := General_error { err : Z; action : option text; arg : text }.

(** [getenv] of the C library: the value. *)
Definition env_value (n : text) : option text := drop (S (length n)) <$> getenv environ n.

(** [pw_dir]: the home directory in the user database. *)
Definition get_default_socket_path (SYSCONTROLSOCKET : text) (pw_dir : option text) (user_dinit : bool)
    : option text :=
  match env_value (chars "DINIT_SOCKET_PATH") with
  | Some sockpath => Some sockpath
  | None =>
      if user_dinit then
        let '(rundir, sockname) :=
          match env_value (chars "XDG_RUNTIME_DIR") with
          | Some dir => (Some dir, chars "dinitctl")
          | None =>
              (match env_value (chars "HOME") with Some dir => Some dir | None => pw_dir end,
               chars ".dinitctl")
          end in
        (λ dir, dir ++ [SLASH] ++ sockname) <$> rundir
      else Some SYSCONTROLSOCKET
  end.

(** The results of [socket], [malloc] and [connect]; the first result are the descriptors
    that are left open. *)
Definition ENOMEM : Z := 12.
Definition connect_to_daemon (control_socket_path : text) (socket : Z + positive) (allocated : bool)
    (connect : option positive) : list Z * (Z + general_error) :=
  match socket with
  | inr e => ([], inr (General_error (Z.pos e) (Some (chars "opening socket")) []))
  | inl socknum =>
      if negb allocated then ([socknum], inr (General_error ENOMEM None []))
      else match connect with
           | Some e => ([socknum], inr (General_error (Z.pos e) (Some (chars "connecting to socket"))
                                          control_socket_path))
           | None => ([socknum], inl socknum)
           end
  end.

(** [getfl] is [fcntl(fd, F_GETFL)], [None] when it fails; the second result are the calls
    that set the flags. *)
Definition O_NONBLOCK : Z := 2048.
Definition get_passed_cfd (getfl : Z → option Z) : Z * list (Z * Z) :=
  match env_value (chars "DINIT_CS_FD") with
  | None => (-1, [])
  | Some v =>
      match strtoll 10 (c_string v) with
      | None => (-1, [])
      | Some (cfdnum, _, _) =>
          let socknum := signed 32 (u32 cfdnum) in
          match getfl socknum with
          | None => (0, [])
          | Some flags => (socknum, [(socknum, Z.land flags (Z.lnot O_NONBLOCK))])
          end
      end
  end.
End remote_environment.
