(* ===== verification/ClientLaws.v ===== *)
(** * The client library: lemmas

    What the functions of [Client] that read and write do, when system calls are only
    interrupted and do not fail otherwise: they see the stream of the bytes that were received
    or are to come, however it is cut into pieces. *)

From S2P Require Import Prelude Text ServiceData Env ControlConn IoStream Client.
From S2P Require CpBuffer IoLaws.
Import CpBuffer (cpbuffer).

Implicit Types (s : system) (b : cpbuffer) (c : client) (t u : list Z).

Abbreviation buf_ok := (CpBuffer.buffer_ok RBUF_SIZE).
Abbreviation bytes := (CpBuffer.contents RBUF_SIZE).
Abbreviation quiet := IoLaws.quiet.
Lemma rbuf_size_ok : 0 < RBUF_SIZE ≤ 2 ^ 30.
Proof. done. Qed.
#[export] Hint Resolve rbuf_size_ok : dinit.

(** ** Reading into the buffer *)

(** What reading leaves alone. *)
Definition only_reads s s' : Prop :=
  sent s' = sent s ∧ writevs s' = writevs s ∧ reads s' `suffix_of` reads s.
#[export] Instance only_reads_preorder : PreOrder only_reads.
Proof.
  split; [done|]. intros s1 s2 s3 (H1 & H2 & H3) (H4 & H5 & H6). split_and!; [congruence..|by etransitivity].
Qed.

Lemma read_only s n : only_reads s (IoStream.read s n).1.1.
Proof.
  unfold IoStream.read. destruct (reads s) as [|[] l] eqn:E; cbn [fst]; split_and!; rsimpl; rewrite ?E;
    first [done|by apply suffix_cons_r].
Qed.
Lemma read_fails s n : (IoStream.read s n).1.2 = -1 → ∃ e, Fails e ∈ reads s.
Proof.
  unfold IoStream.read. destruct (reads s) as [|[k|e] l]; cbn; [lia|lia|].
  intros _. exists e. by left.
Qed.

Record filled s b s' b' : Prop := {
  f_buf : buf_ok b';
  f_stream : bytes b' ++ rest s' = bytes b ++ rest s;
  f_only : only_reads s s';
  f_quiet : quiet s → quiet s';
  f_reads : (length (reads s') ≤ length (reads s))%nat;
  f_idx : CpBuffer.cur_idx b' = CpBuffer.cur_idx b
}.
#[local] Lemma filled_refl s b : buf_ok b → filled s b s b.
Proof. by split. Qed.
Lemma filled_trans s1 b1 s2 b2 s3 b3 :
  filled s1 b1 s2 b2 → filled s2 b2 s3 b3 → filled s1 b1 s3 b3.
Proof.
  intros [] []. split; [done|congruence|by etransitivity|auto|lia|congruence].
Qed.

(** An interrupted or failed call uses up a result. *)
Definition failed_read s s' : Prop :=
  (length (reads s') < length (reads s))%nat ∧ (quiet s → errno s' = EINTR) ∧ ∃ e, Fails e ∈ reads s.

Lemma fill_spec s b : buf_ok b → CpBuffer.length_ b < RBUF_SIZE →
  let '(s', r, b') := CpBuffer.fill RBUF_SIZE IoStream.read s b in
  filled s b s' b'
  ∧ ((0 < r ∧ CpBuffer.length_ b < CpBuffer.length_ b') ∨ (r = 0 ∧ rest s = [] ∧ rest s' = [] ∧ bytes b' = bytes b)
     ∨ (r = -1 ∧ bytes b' = bytes b ∧ failed_read s s')).
Proof.
  intros Hb Hl. pose proof Hb as [Hb1 Hb2 Hb3].
  unfold CpBuffer.fill, CpBuffer.fill_count. cbv zeta.
  rewrite (CpBuffer.wrap_addr _ rbuf_size_ok) by (done || lia).
  pose proof (CpBuffer.addr_bounds _ b (CpBuffer.length_ b) Hb ltac:(lia)) as Ha.
  rewrite u32_small by (unfold RBUF_SIZE in *; lia). set (n := Z.min _ _).
  pose proof (IoLaws.read_spec s n ltac:(lia)) as Hr. pose proof (read_only s n) as Ho.
  pose proof (read_fails s n) as Hfail.
  destruct (IoStream.read s n) as [[s' r] t]. destruct Hr as (R1 & R2 & R3 & R4). cbn [fst snd] in Ho, Hfail.
  destruct (CpBuffer.write_ok _ rbuf_size_ok t b Hb) as [Hw1 Hw2]; [lia..|].
  assert (quiet s → quiet s') as Hq by (unfold IoLaws.quiet; rewrite R3; destruct (reads s); [done|by inversion 1]).
  assert (length (reads s') ≤ length (reads s))%nat as Hrl by (rewrite R3; destruct (reads s); simpl; lia).
  destruct R4 as [[-> R4]|(-> & -> & R5 & R6 & R7)].
  - rewrite (proj2 (Z.leb_le 0 _)) by lia.
    assert ((b <| CpBuffer.buf ::= CpBuffer.copy_in (CpBuffer.addr RBUF_SIZE b (CpBuffer.length_ b)) t |>)
      <| CpBuffer.length_ ::= (λ m, u32 (m + Z.of_nat (length t))) |> = CpBuffer.write RBUF_SIZE t b) as ->.
    { unfold CpBuffer.write. unfold set; simpl. f_equal. apply u32_small. unfold RBUF_SIZE in *; lia. }
    split; [split; [done|by rewrite Hw2, R1, <- app_assoc|done..]|].
    destruct t as [|x t]; [right; left|left; unfold CpBuffer.write; rsimpl; cbn [length]; lia].
    rewrite R4 in R1 by done. cbn [app] in R1. rewrite Hw2, app_nil_r, R4, <- R1 by done. done.
  - change (0 <=? -1) with false. cbv iota.
    assert (b <| CpBuffer.buf ::= CpBuffer.copy_in (CpBuffer.addr RBUF_SIZE b (CpBuffer.length_ b)) [] |> = b) as ->.
    { destruct b as [l k n']. reflexivity. }
    cbn [app] in R1. split; [split; [done|by rewrite R1|done..]|]. right. right. split; [done|]. split; [done|].
    split_and!; [|done|by apply Hfail]. rewrite R3. destruct (reads s); [done|]. simpl. lia.
Qed.

Lemma fill_to_loop_spec fuel : ∀ n s b,
  buf_ok b → n ≤ RBUF_SIZE → n - CpBuffer.length_ b ≤ Z.of_nat fuel →
  ∃ s' r b', CpBuffer.fill_to_loop RBUF_SIZE IoStream.read fuel n s b = Some (s', r, b')
    ∧ filled s b s' b'
    ∧ ((r = 1 ∧ n ≤ CpBuffer.length_ b') ∨ (r = 0 ∧ rest s' = [] ∧ CpBuffer.length_ b' < n)
       ∨ (r = -1 ∧ failed_read s s')).
Proof.
  induction fuel as [|fuel IH]; intros n s b Hb Hn Hf; cbn [CpBuffer.fill_to_loop];
    destruct (Z.ltb_spec (CpBuffer.length_ b) n) as [Hl|Hl]; try lia.
  1,3: exists s, 1, b; split_and!; [done|by apply filled_refl|by left].
  pose proof (fill_spec s b Hb ltac:(lia)) as Hs.
  destruct (CpBuffer.fill _ _ s b) as [[s1 r1] b1] eqn:E. destruct Hs as [F [H|[H|H]]].
  - rewrite (proj2 (Z.leb_gt r1 0)) by lia.
    destruct (IH n s1 b1 (f_buf _ _ _ _ F) Hn ltac:(lia)) as (s' & r & b' & E' & F' & Hc).
    exists s', r, b'. split_and!; [done|by eapply filled_trans|].
    destruct Hc as [?|[?|(? & Hr & Hq & e & He)]]; [by left|right; by left|right; right; split; [done|]].
    split_and!; [pose proof (f_reads _ _ _ _ F); lia| |].
    + intros Hqs. by apply Hq, (f_quiet _ _ _ _ F).
    + exists e. destruct (f_only _ _ _ _ F) as (_ & _ & l & ->). apply elem_of_app. by right.
  - destruct H as (-> & H1 & H2 & H3). exists s1, 0, b1. split_and!; [done..|right; left]. split_and!; [done..|].
    rewrite <- (CpBuffer.length_contents RBUF_SIZE b1), H3, (CpBuffer.length_contents _ b); [done|done|apply F].
  - destruct H as (-> & H1 & H2). exists s1, (-1), b1. split_and!; [done..|right; right; done].
Qed.

(** ** Triples

    [wp m Q E c]: from [c] the operation [m] ends, with a value for which [Q] holds or with
    an exception for which [E] holds. *)
Definition wp {A} (m : op A) (Q : A → client → Prop) (E : client_exc → client → Prop) c : Prop :=
  match m c with
  | (c', Returns a) => Q a c'
  | (c', Throws e) => E e c'
  | (_, Overrun) => False
  end.

Section triples.
Context {A B : Type}.
Implicit Types (m : op A) (Q : A → client → Prop) (E : client_exc → client → Prop).

Lemma wp_bind m (k : A → op B) (Q : B → client → Prop) E c :
  wp m (λ a c, wp (k a) Q E c) E c → wp (m ≫= k) Q E c.
Proof. unfold wp, mbind, op_bind. by destruct (m c) as [c' []]. Qed.
Lemma wp_fmap m (f : A → B) (Q : B → client → Prop) E c :
  wp m (λ a c, Q (f a) c) E c → wp (f <$> m) Q E c.
Proof. unfold fmap, op_fmap. intros H. by apply wp_bind. Qed.
Lemma wp_ret (a : A) Q E c : Q a c → wp (mret a) Q E c.
Proof. done. Qed.
Lemma wp_get (f : client → A) Q E c : Q (f c) c → wp (get f) Q E c.
Proof. done. Qed.
Lemma wp_throw e Q E c : E e c → wp (throw e) Q E c.
Proof. done. Qed.
Lemma wp_mono m Q Q' E E' c :
  wp m Q E c → (∀ a c', Q a c' → Q' a c') → (∀ e c', E e c' → E' e c') → wp m Q' E' c.
Proof. unfold wp. destruct (m c) as [c' []]; auto. Qed.
End triples.
Lemma wp_modify f (Q : unit → client → Prop) E c : Q tt (f c) → wp (modify f) Q E c.
Proof. done. Qed.

(** One statement of an operation. *)
Ltac wstep :=
  lazymatch goal with
  | |- wp (_ ≫= _) _ _ _ => apply wp_bind
  | |- wp (_ <$> _) _ _ _ => apply wp_fmap
  | |- wp (mret _) _ _ _ => apply wp_ret
  | |- wp (get _) _ _ _ => apply wp_get
  | |- wp (modify _) _ _ _ => apply wp_modify
  | |- wp (throw _) _ _ _ => apply wp_throw
  | |- wp (byte_at _) _ _ _ => apply wp_get
  | |- wp (extract _ _) _ _ _ => apply wp_get
  | |- wp (extract_string _ _) _ _ _ => apply wp_get
  | |- wp (extract_int _ _) _ _ _ => apply wp_fmap
  | |- wp (consume _) _ _ _ => apply wp_modify
  | |- wp (observe _) _ _ _ => apply wp_modify
  | |- wp reset _ _ _ => apply wp_modify
  | |- wp (front _) _ _ _ => apply wp_get
  | |- wp contiguous _ _ _ => apply wp_get
  | |- wp get_length _ _ _ => apply wp_get
  | |- wp to_come _ _ _ => apply wp_get
  | |- wp last_errno _ _ _ => apply wp_get
  end.

(** ** The stream *)

(** The stream [t], with at least [n] of its bytes in the buffer; reads are only interrupted. *)
Record holds (n : Z) t c : Prop := {
  h_buf : buf_ok (rbuffer c);
  h_quiet : quiet (sys c);
  h_pending : pending c = t;
  h_length : n ≤ CpBuffer.length_ (rbuffer c)
}.
Abbreviation ready := (holds 0).

(** What reading leaves alone. *)
Definition same c c' : Prop := only_reads (sys c) (sys c') ∧ seen_states c' = seen_states c.
#[export] Instance same_preorder : PreOrder same.
Proof. split; [done|]. intros c1 c2 c3 [H1 H2] [H3 H4]. split; [by etransitivity|congruence]. Qed.

Lemma holds_le n m t c : holds n t c → m ≤ n → holds m t c.
Proof. intros [] ?. split; [done..|lia]. Qed.
Lemma holds_length n t c : holds n t c → n ≤ CpBuffer.length_ (rbuffer c) ≤ Z.of_nat (length t)
  ∧ CpBuffer.length_ (rbuffer c) ≤ RBUF_SIZE.
Proof.
  intros [Hb Hq <- Hl]. unfold pending. rewrite length_app.
  pose proof (CpBuffer.length_contents RBUF_SIZE _ Hb). pose proof (CpBuffer.ok_len _ _ Hb). lia.
Qed.

Lemma holds_at n t c i d : holds n t c → 0 ≤ i < n →
  CpBuffer.at_ RBUF_SIZE i (rbuffer c) = nth (Z.to_nat i) t d.
Proof.
  intros [Hb Hq <- Hl] Hi.
  destruct (CpBuffer.extract_correct _ rbuf_size_ok i 1 (rbuffer c) Hb) as (_ & _ & H); [lia..|].
  specialize (H ltac:(lia)). symmetry. apply nth_lookup_Some.
  unfold pending. rewrite lookup_app_l; [done|]. by apply lookup_lt_Some in H.
Qed.
Lemma holds_extract n t c i k : holds n t c → 0 ≤ i → 0 ≤ k → i + k ≤ n →
  CpBuffer.extract RBUF_SIZE i k (rbuffer c) = take (Z.to_nat k) (drop (Z.to_nat i) t)
  ∧ CpBuffer.extract_string RBUF_SIZE i k (rbuffer c) = take (Z.to_nat k) (drop (Z.to_nat i) t).
Proof.
  intros [Hb Hq <- Hl] Hi Hk Hn.
  destruct (CpBuffer.extract_correct _ rbuf_size_ok i k (rbuffer c) Hb) as (H1 & H2 & _); [lia..|].
  rewrite H2, H1. pose proof (CpBuffer.length_contents RBUF_SIZE _ Hb).
  unfold pending. rewrite drop_app_le by lia. rewrite take_app_le by (rewrite length_drop; lia). done.
Qed.
Lemma holds_consume n t c k : holds n t c → 0 ≤ k ≤ n →
  holds (n - k) (drop (Z.to_nat k) t) (c <| rbuffer ::= CpBuffer.consume RBUF_SIZE k |>).
Proof.
  intros [Hb Hq <- Hl] Hk.
  destruct (CpBuffer.consume_correct _ rbuf_size_ok k (rbuffer c) Hb) as ([H1 H2] & _); [lia|].
  pose proof (CpBuffer.length_contents RBUF_SIZE _ Hb).
  split; rsimpl; [done|done| |].
  - unfold pending. rsimpl. rewrite H2, drop_app_le by lia. done.
  - rewrite <- (CpBuffer.length_contents RBUF_SIZE _ H1), H2, length_drop. lia.
Qed.

(** ** Filling the buffer *)

Lemma fill_buffer_loop_wp results : ∀ n t c,
  (length (reads (sys c)) ≤ length results)%nat → ready t c → n ≤ RBUF_SIZE →
  wp (fill_buffer_loop results n) (λ _ c', holds n t c' ∧ same c c')
    (λ e c', e = Cp_read_exception 0 ∧ Z.of_nat (length t) < n ∧ rest (sys c') = [] ∧ same c c') c.
Proof.
  induction results as [|x results IH]; intros n t c Hr [Hb Hq Hp _] Hn; cbn [fill_buffer_loop]; wstep;
    unfold wp at 1, fill_to, CpBuffer.fill_to;
    destruct (fill_to_loop_spec (Z.to_nat n) n (sys c) (rbuffer c) Hb Hn) as (s' & r & b' & -> & F & Hc);
    try (pose proof (CpBuffer.ok_len _ _ Hb); lia);
    set (c1 := (c <| sys := s' |> <| rbuffer := b' |>)); assert (same c c1) as Hs by (split; [apply F|done]);
    assert (ready t c1) as Hre by (split; [apply F|by apply (f_quiet _ _ _ _ F)|rewrite <- Hp; apply (f_stream _ _ _ _ F)
        |apply (CpBuffer.ok_len _ _ (f_buf _ _ _ _ F))]).
  all: destruct Hc as [(-> & H)|[(-> & H1 & H2)|(-> & H1 & H2 & _)]].
  1,4: cbn; split; [|done]; by destruct Hre.
  1,3: cbn; split_and!; [done| |done..]; destruct Hre as [_ _ <- _];
    unfold pending, c1; rsimpl; rewrite H1, app_nil_r, (CpBuffer.length_contents _ _ (f_buf _ _ _ _ F)); done.
  - exfalso. cbn in Hr. lia.
  - unfold wp. change (-1 =? -1) with true. cbn [negb]. cbv iota.
    change (wp (e ← last_errno;
      (if negb (e =? EINTR) then throw (Cp_read_exception e) else fill_buffer_loop results n))
      (λ _ c', holds n t c' ∧ same c c')
      (λ e c', e = Cp_read_exception 0 ∧ Z.of_nat (length t) < n ∧ rest (sys c') = [] ∧ same c c') c1).
    repeat wstep. change (errno (sys c1)) with (errno s'). rewrite (H2 Hq). cbn [Z.eqb].
    eapply wp_mono; [apply (IH n t c1); [unfold c1; rsimpl; cbn in Hr; lia|done|done]|..]; cbn beta.
    + intros _ c' [? ?]. split; [done|by transitivity c1].
    + intros e c' (? & ? & ? & ?). split_and!; [done..|by transitivity c1].
Qed.

Lemma fill_buffer_to_wp n t c : ready t c → n ≤ RBUF_SIZE →
  wp (fill_buffer_to n) (λ _ c', holds n t c' ∧ same c c')
    (λ e _, e = Cp_read_exception 0 ∧ Z.of_nat (length t) < n) c.
Proof.
  intros Hr Hn. eapply wp_mono; [by apply fill_buffer_loop_wp|done|].
  by intros e c' (? & ? & ? & ?).
Qed.

Lemma fill_some_loop_wp results : ∀ t c,
  (length (reads (sys c)) ≤ length results)%nat → ready t c → CpBuffer.length_ (rbuffer c) = 0 →
  wp (fill_some_loop results)
    (λ _ c', holds 1 t c' ∧ same c c' ∧ CpBuffer.cur_idx (rbuffer c') = CpBuffer.cur_idx (rbuffer c))
    (λ e _, e = Cp_read_exception 0 ∧ t = []) c.
Proof.
  induction results as [|x results IH]; intros t c Hr [Hb Hq Hp _] Hl; cbn [fill_some_loop]; wstep;
    unfold wp at 1, fill; pose proof (fill_spec (sys c) (rbuffer c) Hb ltac:(rewrite Hl; done)) as H;
    destruct (CpBuffer.fill _ _ _ _) as [[s' r] b']; destruct H as [F Hc];
    set (c1 := (c <| sys := s' |> <| rbuffer := b' |>)); assert (same c c1) as Hs by (split; [apply F|done]);
    assert (pending c1 = t) as Hp1 by (rewrite <- Hp; apply (f_stream _ _ _ _ F));
    pose proof (f_buf _ _ _ _ F) as Hb1; pose proof (f_quiet _ _ _ _ F Hq) as Hq1.
  all: destruct Hc as [(H1 & H2)|[(-> & H1 & H2 & H3)|(-> & H1 & H2 & H3 & _)]].
  1,4: rewrite (proj2 (Z.eqb_neq r 0)), (proj2 (Z.ltb_lt 0 r)) by lia; cbn;
    split_and!; [split; [done..|]|done|apply (f_idx _ _ _ _ F)]; unfold c1; rsimpl; lia.
  1,3: cbn; split; [done|]; rewrite <- Hp; unfold pending; rewrite H1, app_nil_r;
    apply nil_length_inv; pose proof (CpBuffer.length_contents _ _ Hb); lia.
  - exfalso. cbn in Hr. lia.
  - change (-1 =? 0) with false. change (0 <? -1) with false. cbv iota. repeat wstep.
    change (errno (sys c1)) with (errno s'). rewrite (H3 Hq). cbn [Z.eqb negb].
    eapply wp_mono; [apply (IH t c1)|..]; cbn beta.
    + unfold c1. rsimpl. cbn in Hr. lia.
    + split; [done..|]. apply (CpBuffer.ok_len _ _ Hb1).
    + change (CpBuffer.length_ b' = 0). rewrite <- (CpBuffer.length_contents _ _ Hb1), H1.
      by rewrite (CpBuffer.length_contents _ _ Hb).
    + intros _ c' (? & ? & ->). split_and!; [done|by transitivity c1|apply (f_idx _ _ _ _ F)].
    + done.
Qed.
Lemma fill_some_wp t c : ready t c → CpBuffer.length_ (rbuffer c) = 0 →
  wp fill_some
    (λ _ c', holds 1 t c' ∧ same c c' ∧ CpBuffer.cur_idx (rbuffer c') = CpBuffer.cur_idx (rbuffer c)) (λ e _, e = Cp_read_exception 0 ∧ t = []) c.
Proof. intros. by apply fill_some_loop_wp. Qed.

(** ** Information packets *)

(** A whole packet; its second byte is its length. *)
Definition info_packet (p : list Z) : Prop :=
  ∃ code body, p = code :: Z.of_nat (length p) :: body ∧ is_info code = true ∧ Z.of_nat (length p) ≤ 255.
(** The beginning of a packet that is not there as a whole. *)
Definition cut_short t : Prop :=
  t = [] ∨ ∃ u, u ≠ [] ∧ info_packet (t ++ u).
Definition reply t : Prop := ∃ code u, t = code :: u ∧ is_info code = false.

Definition head_byte t : Z := nth 0 t 0.

Lemma info_packet_length p : info_packet p → (2 ≤ length p)%nat.
Proof. intros (code & body & E & _). rewrite E. cbn. lia. Qed.

(** The loops up to the point where a packet is in the buffer without its first byte: the
    packet is there, or the stream ends before the packet does or with it. *)
Definition next_packet : op Z :=
  fill_buffer_to 2;;
  pktlen ← byte_at 1;
  consume 1;;
  fill_buffer_to pktlen;;
  mret pktlen.

Lemma next_packet_bind {A} (k : Z → op A) c :
  (next_packet ≫= k) c = (fill_buffer_to 2;; pktlen ← byte_at 1; consume 1;; fill_buffer_to pktlen;; k pktlen) c.
Proof.
  unfold next_packet, mbind, op_bind. destruct (fill_buffer_to 2 c) as [c1 []]; [|done..].
  destruct (byte_at 1 c1) as [c2 []]; [|done..]. destruct (consume 1 c2) as [c3 []]; [|done..].
  by destruct (fill_buffer_to _ c3) as [c4 []].
Qed.

Lemma next_packet_wp p t c : info_packet p → ready (p ++ t) c →
  wp next_packet
    (λ pktlen c', pktlen = Z.of_nat (length p) ∧ t ≠ [] ∧ holds pktlen (drop 1 p ++ t) c' ∧ same c c')
    (λ e _, e = Cp_read_exception 0 ∧ t = []) c.
Proof.
  intros Hi Hr. pose proof (info_packet_length p Hi) as Hl. unfold next_packet. wstep.
  eapply wp_mono; [by apply fill_buffer_to_wp| |].
  2: { intros e c' [-> H]. rewrite length_app in H. lia. }
  intros _ c1 [H1 S1]. cbn beta. repeat wstep.
  assert (CpBuffer.at_ RBUF_SIZE 1 (rbuffer c1) = Z.of_nat (length p)) as ->.
  { rewrite (holds_at _ _ _ 1 0 H1) by lia. destruct Hi as (code & body & E & _). rewrite E at 1. done. }
  pose proof (holds_consume _ _ _ 1 H1 ltac:(lia)) as H2. rewrite drop_app_le in H2 by lia.
  eapply wp_mono; [apply (fill_buffer_to_wp (Z.of_nat (length p)) _ _ (holds_le _ 0 _ _ H2 ltac:(lia)))|..]; cbn beta.
  - destruct Hi as (_ & _ & _ & _ & Hi). unfold RBUF_SIZE. lia.
  - intros _ c2 [H3 S3]. wstep. split_and!; [done| |done|by transitivity c1].
    intros ->. destruct (holds_length _ _ _ H3) as [[HA HB] _]. rewrite app_nil_r, length_drop in HB. lia.
  - intros e c2 [-> H]. split; [done|]. rewrite length_app, length_drop in H.
    apply nil_length_inv. lia.
Qed.

(** A packet that is cut short ends the wait. *)
Lemma next_packet_short t c : cut_short t → holds 1 t c →
  wp next_packet (λ _ _, False) (λ e _, e = Cp_read_exception 0) c.
Proof.
  intros [->|(u & Hu & Hi)] Hh.
  { destruct (holds_length _ _ _ Hh) as [[HA HB] _]. cbn in HB. lia. }
  unfold next_packet. wstep. eapply wp_mono; [apply (fill_buffer_to_wp 2 t c); [apply (holds_le 1 0 t c Hh); lia|done]| |by intros ? ? [-> _]].
  intros _ c1 [H1 S1]. cbn beta. repeat wstep.
  assert (CpBuffer.at_ RBUF_SIZE 1 (rbuffer c1) = Z.of_nat (length (t ++ u))) as ->.
  { rewrite (holds_at _ _ _ 1 0 H1) by lia. destruct (holds_length _ _ _ H1) as [[HA HB] _].
    destruct Hi as (code & body & E & _). change (Z.to_nat 1) with 1%nat.
    assert (nth 1 (t ++ u) 0 = nth 1 t 0) as <- by (apply app_nth1; lia). rewrite E at 1. done. }
  pose proof (holds_consume _ _ _ 1 H1 ltac:(lia)) as H2.
  eapply wp_mono; [apply (fill_buffer_to_wp (Z.of_nat (length (t ++ u))) _ _ (holds_le _ 0 _ _ H2 ltac:(lia)))|..]; cbn beta.
  - destruct Hi as (_ & _ & _ & _ & Hi). unfold RBUF_SIZE. lia.
  - intros _ c2 [H3 S3]. wstep. destruct (holds_length _ _ _ H3) as [[HA HB] _].
    rewrite length_app, length_drop in *. destruct u; [done|]. cbn in *. lia.
  - by intros e c2 [-> H].
Qed.

(** ** Waiting for a reply *)

Lemma wp_ext {A} (m m' : op A) Q E c : m c = m' c → wp m' Q E c → wp m Q E c.
Proof. intros H. unfold wp. by rewrite H. Qed.

Lemma turn_wp (body : Z → op unit) p t c Q E : info_packet p → ready (p ++ t) c →
  (∀ c', same c c' → t ≠ [] → holds (Z.of_nat (length p)) (drop 1 p ++ t) c' →
   wp (body (Z.of_nat (length p))) Q E c') →
  (t = [] → ∀ c', E (Cp_read_exception 0) c') →
  wp (next_packet ≫= body) Q E c.
Proof.
  intros Hp Hr Hb He. wstep. eapply wp_mono; [by apply next_packet_wp|..]; cbn beta.
  - intros k c' (-> & Ht & Hh & Hs). by apply Hb.
  - intros e c' [-> Ht]. by apply He.
Qed.

Lemma short_turn_wp (body : Z → op unit) t c Q E : cut_short t → holds 1 t c →
  (∀ c', E (Cp_read_exception 0) c') → wp (next_packet ≫= body) Q E c.
Proof.
  intros Hc Hh He. wstep. eapply wp_mono; [by apply (next_packet_short t)|done|].
  intros e c' ->. apply He.
Qed.

(** The rest of the packet is consumed. *)
Lemma rest_consumed p t c : info_packet p → t ≠ [] →
  holds (Z.of_nat (length p)) (drop 1 p ++ t) c →
  holds 1 t (c <| rbuffer ::= CpBuffer.consume RBUF_SIZE (Z.of_nat (length p) - 1) |>).
Proof.
  intros Hp Ht Hh. pose proof (info_packet_length p Hp) as Hl.
  pose proof (holds_consume _ _ _ (Z.of_nat (length p) - 1) Hh ltac:(lia)) as H.
  replace (drop _ (drop 1 p ++ t)) with t in H.
  - apply (holds_le _ 1 _ _ H). lia.
  - rewrite drop_app_ge by (rewrite length_drop; lia). rewrite length_drop.
    replace (_ - _)%nat with 0%nat by lia. done.
Qed.

Lemma holds_head t c : holds 1 t c → CpBuffer.at_ RBUF_SIZE 0 (rbuffer c) = head_byte t.
Proof. intros H. by apply (holds_at 1). Qed.

Lemma info_head p t : info_packet p → is_info (head_byte (p ++ t)) = true.
Proof. intros (code & body & E & H & _). rewrite E. done. Qed.
Lemma reply_head t : reply t → is_info (head_byte t) = false.
Proof. by intros (code & u & -> & H). Qed.
Lemma short_head t c : cut_short t → holds 1 t c → is_info (head_byte t) = true.
Proof.
  intros [->|(u & Hu & Hi)] Hh.
  - destruct (holds_length _ _ _ Hh) as [[HA HB] _]. cbn in HB. lia.
  - destruct t as [|b t]; [destruct (holds_length _ _ _ Hh) as [[HA HB] _]; cbn in HB; lia|].
    apply (info_head _ []) in Hi. by rewrite app_nil_r in Hi.
Qed.


Lemma wait_loop_wp ps t : Forall info_packet ps → reply t ∨ cut_short t → ∀ fuel c,
  (length (concat ps ++ t) ≤ fuel)%nat → holds 1 (concat ps ++ t) c →
  wp (wait_loop fuel) (λ _ c', reply t ∧ holds 1 t c' ∧ same c c')
    (λ e _, e = Cp_read_exception 0 ∧ cut_short t) c.
Proof.
  intros Hps Ht. induction Hps as [|p ps Hp Hps IH]; intros fuel c Hf Hh;
    (destruct fuel as [|fuel]; [destruct (holds_length _ _ _ Hh) as [[HA HB] _]; lia|]);
    cbn [wait_loop]; repeat wstep; rewrite (holds_head _ _ Hh).
  - cbn [concat app] in *. destruct Ht as [Hr|Hr].
    + rewrite (reply_head t Hr). wstep. done.
    + rewrite (short_head t c Hr Hh). eapply wp_ext; [symmetry; apply next_packet_bind|].
      by eapply short_turn_wp.
  - cbn [concat] in *. rewrite <- app_assoc in *. rewrite (info_head _ _ Hp).
    eapply wp_ext; [symmetry; apply next_packet_bind|].
    apply (turn_wp _ p (concat ps ++ t)); [done|by apply (holds_le 1)| |].
    + intros c1 S1 Hne H1. repeat wstep. pose proof (rest_consumed _ _ _ Hp Hne H1) as H2.
      eapply wp_mono; [apply (IH fuel _ ltac:(rewrite length_app in Hf; pose proof (info_packet_length p Hp); lia) H2)| |done].
      intros _ c2 (? & ? & S2). split_and!; [done..|]. by transitivity c1.
    + intros [_ ->]%app_eq_nil c'. split; [done|by left].
Qed.

Lemma wait_for_reply_wp ps t c : Forall info_packet ps → reply t ∨ cut_short t → ready (concat ps ++ t) c →
  wp wait_for_reply (λ _ c', reply t ∧ holds 1 t c' ∧ same c c')
    (λ e _, e = Cp_read_exception 0 ∧ cut_short t) c.
Proof.
  intros Hps Ht Hr. unfold wait_for_reply. wstep. eapply wp_mono; [by apply fill_buffer_to_wp|..]; cbn beta.
  - intros _ c1 [H1 S1]. repeat wstep.
    eapply wp_mono; [apply (wait_loop_wp ps t Hps Ht _ c1)| |done].
    + by rewrite (h_pending _ _ _ H1).
    + done.
    + intros _ c2 (? & ? & S2). split_and!; [done..|by transitivity c1].
  - intros e c1 [-> Hl]. split; [done|]. left.
    destruct t; [done|]. rewrite length_app in Hl. cbn in Hl. lia.
Qed.

(** *** Observed states *)

(** The [k] bytes at [i] in a packet, as a number, and one byte. *)
Definition int_in (i k : nat) (p : list Z) : Z := le_value (take k (drop i p)).
Definition byte_in (i : nat) (p : list Z) : Z := nth i p 0.

(** A packet of an event has a handle and the code of the event, and behind a failure to start
    the status of the service. *)
Definition event_packet_ok (p : list Z) : Prop :=
  is_service_event (head_byte p) = true →
  (7 ≤ length p)%nat
  ∧ (byte_in 6 p = event_code service_event_t.FAILEDSTART →
     (17 ≤ length p)%nat ∧ (head_byte p = cp_info.SERVICEEVENT5 → (21 ≤ length p)%nat)).

(** What a packet tells about the service with the handle. *)
Definition see_failure (p : list Z) (o : observed_states) : observed_states :=
  let status := signed 32 (int_in 13 4 p) in
  let o := o <| failed_start := true |> <| seen_stop_reason := byte_in 10 p |> in
  let o := if head_byte p =? cp_info.SERVICEEVENT5
           then o <| exit_si_code := status |> <| exit_si_status := signed 32 (int_in 17 4 p) |> else o in
  o <| seen_exit_status := status |>.
Definition see (handle : Z) (o : observed_states) (p : list Z) : observed_states :=
  if is_service_event (head_byte p) && (int_in 2 4 p =? handle) then
    let event := byte_in 6 p in
    if event =? event_code service_event_t.STOPPED then o <| seen_stopped := true |>
    else if event =? event_code service_event_t.STARTED then o <| seen_started := true |>
    else if event =? event_code service_event_t.FAILEDSTART then see_failure p o
    else o
  else o.

(** Everything but the observed states. *)
Definition same_but_seen c c' : Prop := sys c' = sys c ∧ rbuffer c' = rbuffer c.

Lemma holds_seen n t c c' : same_but_seen c c' → holds n t c → holds n t c'.
Proof. intros [H1 H2] [Hb Hq Hp Hl]. split; unfold pending; rewrite ?H1, ?H2; done. Qed.

(** The bytes of a packet whose first byte is consumed. *)
Lemma packet_byte p t c i j : holds (Z.of_nat (length p)) (drop 1 p ++ t) c →
  (0 < i < length p)%nat → j = Z.of_nat i - 1 →
  CpBuffer.at_ RBUF_SIZE j (rbuffer c) = byte_in i p.
Proof.
  intros Hh Hi ->. rewrite (holds_at _ _ _ _ 0 Hh) by lia. rewrite app_nth1 by (rewrite length_drop; lia).
  unfold byte_in. destruct p as [|x p]; [cbn in Hi; lia|]. cbn [drop]. rewrite drop_0.
  replace i with (S (Z.to_nat (Z.of_nat i - 1))) at 2 by lia. done.
Qed.
Lemma packet_int p t c i k j l : holds (Z.of_nat (length p)) (drop 1 p ++ t) c →
  (0 < i)%nat → (i + k ≤ length p)%nat → j = Z.of_nat i - 1 → l = Z.of_nat k →
  le_value (CpBuffer.extract RBUF_SIZE j l (rbuffer c)) = int_in i k p.
Proof.
  intros Hh Hi Hk -> ->. destruct (holds_extract _ _ _ (Z.of_nat i - 1) (Z.of_nat k) Hh) as [-> _]; [lia..|].
  unfold int_in. f_equal. rewrite drop_app_le by (rewrite length_drop; lia). rewrite drop_drop.
  replace (1 + Z.to_nat (Z.of_nat i - 1))%nat with i by lia. rewrite Nat2Z.id.
  apply take_app_le. rewrite length_drop. lia.
Qed.

Section events.
Context (handle : Z) (p t : list Z) (c : client) (o : observed_states).
Context (Hok : event_packet_ok p) (Hev : is_service_event (head_byte p) = true).

Lemma observe_failure_wp :
  holds (Z.of_nat (length p)) (drop 1 p ++ t) c → seen_states c = Some o →
  byte_in 6 p = event_code service_event_t.FAILEDSTART →
  wp (observe_failure (head_byte p) (Z.of_nat (length p)))
    (λ _ c', same_but_seen c c' ∧ seen_states c' = Some (see_failure p o)) (λ _ _, False) c.
Proof.
  intros Hh Ho Hf. destruct (Hok Hev) as [_ Hfail]. destruct (Hfail Hf) as [H17 H21].
  unfold observe_failure. repeat wstep. rsimpl.
  rewrite (packet_byte p t c 10 (base_pkt_size + 2) Hh), (packet_int p t c 13 4 (base_pkt_size + 5) 4 Hh) by (done || lia).
  unfold see_failure. destruct (Z.eqb_spec (head_byte p) cp_info.SERVICEEVENT5) as [E|E].
  - rewrite (proj2 (Z.ltb_ge _ _)) by (specialize (H21 E); unfold base_pkt_size, STATUS_BUFFER5_SIZE; lia).
    repeat wstep. rsimpl. rewrite (packet_int p t c 17 4 (base_pkt_size + 9) 4 Hh) by (done || specialize (H21 E); lia).
    split; [by split|]. rewrite Ho. done.
  - repeat wstep. rsimpl. split; [by split|]. rewrite Ho. done.
Qed.

Lemma observe_event_wp :
  holds (Z.of_nat (length p)) (drop 1 p ++ t) c → seen_states c = Some o →
  wp (observe_event handle (head_byte p) (Z.of_nat (length p)))
    (λ _ c', same_but_seen c c' ∧ seen_states c' = Some (see handle o p)) (λ _ _, False) c.
Proof.
  intros Hh Ho. destruct (Hok Hev) as [H7 _]. unfold observe_event.
  rewrite (proj2 (Z.ltb_ge _ _)) by (unfold base_pkt_size; lia). repeat wstep.
  rewrite (packet_byte p t c 6 5 Hh), (packet_int p t c 2 4 1 4 Hh) by (done || lia).
  unfold see. rewrite Hev. cbn [andb]. destruct (int_in 2 4 p =? handle); [|wstep; done].
  destruct (Z.eqb_spec (byte_in 6 p) (event_code service_event_t.STOPPED)) as [E|E];
    [rewrite E; cbn [event_code Z.eqb Pos.eqb]; repeat wstep; rsimpl; rewrite Ho; done|].
  destruct (Z.eqb_spec (byte_in 6 p) (event_code service_event_t.STARTED)) as [E'|E'];
    [rewrite E'; cbn [event_code Z.eqb Pos.eqb]; repeat wstep; rsimpl; rewrite Ho; done|].
  repeat wstep. destruct (Z.eqb_spec (byte_in 6 p) (event_code service_event_t.FAILEDSTART)) as [F|F].
  - by apply observe_failure_wp.
  - by wstep.
Qed.
End events.

(** The second overload: the same, and the packets are observed in order. *)
Definition same_seen_by handle ps c c' : Prop :=
  only_reads (sys c) (sys c')
  ∧ seen_states c' = (λ o, foldl (see handle) o ps) <$> seen_states c.

Lemma wait_seen_loop_wp handle ps t : Forall info_packet ps → Forall event_packet_ok ps →
  reply t ∨ cut_short t → ∀ fuel c,
  (length (concat ps ++ t) ≤ fuel)%nat → holds 1 (concat ps ++ t) c →
  wp (wait_seen_loop fuel handle) (λ _ c', reply t ∧ holds 1 t c' ∧ same_seen_by handle ps c c')
    (λ e _, e = Cp_read_exception 0 ∧ cut_short t) c.
Proof.
  intros Hps Hev Ht. induction Hps as [|p ps Hp Hps IH]; intros fuel c Hf Hh;
    (destruct fuel as [|fuel]; [destruct (holds_length _ _ _ Hh) as [[HA HB] _]; lia|]);
    cbn [wait_seen_loop]; repeat wstep; rewrite (holds_head _ _ Hh).
  - cbn [concat app] in *. destruct Ht as [Hr|Hr].
    + rewrite (reply_head t Hr). wstep. split_and!; [done..|]. split; [done|]. by destruct (seen_states c).
    + rewrite (short_head t c Hr Hh). eapply wp_ext; [symmetry; apply next_packet_bind|].
      by eapply short_turn_wp.
  - inversion Hev as [|?? Hpe Hpse]; subst. cbn [concat] in *. rewrite <- app_assoc in *. rewrite (info_head _ _ Hp).
    assert (head_byte (p ++ concat ps ++ t) = head_byte p) as Ehd
      by (destruct Hp as (code & body & -> & _); done). rewrite Ehd.
    eapply wp_ext; [symmetry; apply next_packet_bind|].
    apply (turn_wp _ p (concat ps ++ t)); [done|by apply (holds_le 1)| |].
    2: { intros [_ ->]%app_eq_nil c'. split; [done|by left]. }
    intros c1 [S1 S1'] Hne H1. repeat wstep.
    apply (wp_mono _ (λ _ c2, same_but_seen c1 c2 ∧ seen_states c2 = (λ o, see handle o p) <$> seen_states c1) _ (λ _ _, False));
      [|cbn beta|done].
    + destruct (seen_states c1) as [o|] eqn:Eo; [|rewrite andb_false_r by done; wstep; split; [done|by rewrite Eo]].
      rewrite bool_decide_eq_true_2, andb_true_r by done. destruct (is_service_event (head_byte p)) eqn:Es.
      * by eapply observe_event_wp.
      * wstep. split; [done|]. unfold see. rewrite Es. done.
    + intros _ c2 [Hsb Hse]. repeat wstep.
      pose proof (rest_consumed _ _ _ Hp Hne (holds_seen _ _ _ _ Hsb H1)) as H2.
      eapply wp_mono; [apply (IH Hpse fuel _ ltac:(rewrite length_app in Hf; pose proof (info_packet_length p Hp); lia) H2)| |done].
      intros _ c3 (? & ? & S2 & S3). split_and!; [done..|]. split.
      * etransitivity; [exact S1|]. revert S2. rsimpl. destruct Hsb as [-> _]. done.
      * rewrite S3. rsimpl. rewrite Hse, S1'. by destruct (seen_states c).
Qed.

Lemma wait_for_reply_seen_wp handle ps t c : Forall info_packet ps → Forall event_packet_ok ps →
  reply t ∨ cut_short t → ready (concat ps ++ t) c →
  wp (wait_for_reply_seen handle) (λ _ c', reply t ∧ holds 1 t c' ∧ same_seen_by handle ps c c')
    (λ e _, e = Cp_read_exception 0 ∧ cut_short t) c.
Proof.
  intros Hps Hev Ht Hr. unfold wait_for_reply_seen. wstep. eapply wp_mono; [by apply fill_buffer_to_wp|..]; cbn beta.
  - intros _ c1 [H1 [S1 S1']]. repeat wstep.
    eapply wp_mono; [apply (wait_seen_loop_wp handle ps t Hps Hev Ht _ c1)| |done].
    + by rewrite (h_pending _ _ _ H1).
    + done.
    + intros _ c2 (? & ? & S2 & S3). split_and!; [done..|]. split; [by etransitivity|by rewrite S3, S1'].
  - intros e c1 [-> Hl]. split; [done|]. left.
    destruct t; [done|]. rewrite length_app in Hl. cbn in Hl. lia.
Qed.

(** ** Writing *)

(** Writes that are only interrupted. *)
Definition quiet_writes s : Prop :=
  Forall (λ r, match r with Fails e => Z.pos e = EINTR | Takes _ => True end) (writevs s).

(** The result is the number of bytes that were written, a prefix of the data; only when an
    error other than an interruption comes first, and nothing was written, it is -1. *)
Lemma write_loop_spec results : ∀ w data s, results = writevs s → 0 ≤ w →
  let '(s', r) := write_loop results w data s in
  ∃ k, (k ≤ length data)%nat ∧ sent s' = sent s ++ take k data ∧ rest s' = rest s ∧ reads s' = reads s
    ∧ ((r = w + Z.of_nat (length data) ∧ k = length data ∧ (quiet_writes s → quiet_writes s'))
       ∨ ((k < length data)%nat ∧ ¬ quiet_writes s ∧ 0 < errno s'
          ∧ r = if 0 <? w + Z.of_nat k then w + Z.of_nat k else -1)).
Proof.
  induction results as [|x results IH]; intros w data s Hr Hw; destruct data as [|b data]; cbn [write_loop].
  1,3: exists 0%nat; rewrite take_0, app_nil_r; cbn [length]; split_and!; [lia|done..|left; split_and!; [lia|done..]].
  - exists (length (b :: data)). rsimpl. rewrite firstn_all. split_and!; [lia|done..|left; done].
  - set (s1 := s <| writevs := results |>).
    assert (quiet_writes s → quiet_writes s1) as Hq.
    { unfold quiet_writes, s1. rsimpl. rewrite <- Hr. by inversion 1. }
    set (data' := b :: data) in *. destruct x as [n|e]; cbn [IoStream.writev_result].
    + set (m := min n (length data')). rewrite (proj2 (Z.eqb_neq _ (-1))) by lia.
      set (s2 := s1 <| sent ::= λ t, t ++ take n data' |>).
      specialize (IH (w + Z.of_nat m) (drop (Z.to_nat (Z.of_nat m)) data') s2 eq_refl ltac:(lia)).
      destruct (write_loop _ _ _ s2) as [s' r]. destruct IH as (k & I1 & I2 & I3 & I4 & I5).
      rewrite Nat2Z.id, length_drop in *. exists (m + k)%nat.
      assert (take n data' = take m data') as Et.
      { unfold m. destruct (Nat.le_gt_cases n (length data')); [by rewrite Nat.min_l|].
        rewrite Nat.min_r by lia. by rewrite firstn_all, take_ge by lia. }
      split_and!; [lia| |done|done|].
      * rewrite I2. unfold s2. rsimpl. rewrite Et, <- app_assoc. f_equal.
        by rewrite take_take_drop.
      * destruct I5 as [(-> & -> & I5)|(I5 & I6 & I7 & ->)]; [left|right].
        -- split_and!; [lia|lia|]. intros H. by apply I5, Hq.
        -- split_and!; [lia|by intros H; apply I6, Hq|done|].
           replace (w + Z.of_nat (m + k)) with (w + Z.of_nat m + Z.of_nat k) by lia. done.
    + change (-1 =? -1) with true. cbv iota. set (s2 := s1 <| errno := Z.pos e |>).
      destruct (Z.eqb_spec (errno s2) EINTR) as [E|E].
      * specialize (IH w data' s2 eq_refl Hw). destruct (write_loop _ _ _ s2) as [s' r].
        destruct IH as (k & I1 & I2 & I3 & I4 & I5). exists k. split_and!; [done..|].
        destruct I5 as [(-> & -> & I5)|(I5 & I6 & I7 & ->)]; [left|right]; split_and!; try done.
        -- intros H. by apply I5, Hq.
        -- intros H. by apply I6, Hq.
      * exists 0%nat. rewrite take_0, app_nil_r, Z.add_0_r. split_and!; [lia|done..|right].
        split_and!; [unfold data'; cbn; lia| |done|done].
        unfold quiet_writes. rewrite <- Hr. intros H. by inversion H.
Qed.

(** A request is sent as a whole. *)
Record asked (data : list Z) c c' : Prop := {
  a_sent : sent (sys c') = sent (sys c) ++ data;
  a_writes : quiet_writes (sys c');
  a_reads : reads (sys c') `suffix_of` reads (sys c);
  a_seen : seen_states c' = seen_states c
}.
Lemma asked_same data c c1 c2 : asked data c c1 → same c1 c2 → asked data c c2.
Proof.
  intros [] [(H1 & H2 & H3) H4].
  split; [congruence|unfold quiet_writes; by rewrite H2|by etransitivity|congruence].
Qed.

Lemma write_all_x_wp data t c : data ≠ [] → ready t c → quiet_writes (sys c) →
  wp (write_all_x data) (λ _ c', ready t c' ∧ asked data c c') (λ _ _, False) c.
Proof.
  intros Hd [Hb Hq Hp Hl] Hw. unfold write_all_x. wstep. unfold wp at 1, write_all.
  pose proof (write_loop_spec (writevs (sys c)) 0 data (sys c) eq_refl ltac:(lia)) as H.
  destruct (write_loop _ _ _ _) as [s' r]. destruct H as (k & H1 & H2 & H3 & H4 & [(-> & -> & H5)|(_ & H5 & _)]);
    [|done]. rewrite (proj2 (Z.eqb_neq _ (-1))) by lia. wstep. split.
  - split; [done|unfold IoLaws.quiet; rsimpl; by rewrite H4|rewrite <- Hp; unfold pending; rsimpl; by rewrite H3|done].
  - split; rsimpl; [by rewrite H2, firstn_all|by apply H5|by rewrite H4|done].
Qed.

(** An error is passed on, with its number. *)
Lemma write_all_x_throws data c e c' : write_all_x data c = (c', Throws e) →
  e = Cp_write_exception (errno (sys c')) ∧ 0 < errno (sys c') ∧ sent (sys c') = sent (sys c).
Proof.
  unfold write_all_x, mbind, op_bind, write_all.
  pose proof (write_loop_spec (writevs (sys c)) 0 data (sys c) eq_refl ltac:(lia)) as H.
  destruct (write_loop _ _ _ _) as [s' r]. destruct H as (k & H1 & H2 & H3 & H4 & H5).
  destruct (Z.eqb_spec r (-1)) as [->|Hr]; [|done]. cbn. intros [= <- <-].
  destruct H5 as [(H5 & _)|(_ & _ & H5 & H6)]; [lia|]. rsimpl. split_and!; [done..|].
  destruct (Z.ltb_spec 0 (0 + Z.of_nat k)); [lia|]. replace k with 0%nat in H2 by lia.
  by rewrite take_0, app_nil_r in H2.
Qed.

(** ** Integers and strings *)

Lemma length_le_bytes k n : length (le_bytes k n) = k.
Proof. revert n. induction k as [|k IH]; intros n; cbn; [done|]. by rewrite IH. Qed.
Lemma le_value_bytes k : ∀ n, le_value (le_bytes k n) = n mod 256 ^ Z.of_nat k.
Proof.
  induction k as [|k IH]; intros n; cbn [le_bytes le_value].
  - by rewrite Z.mod_1_r.
  - rewrite IH. replace (Z.of_nat (S k)) with (1 + Z.of_nat k) by lia.
    rewrite Z.pow_add_r by lia. rewrite Z.pow_1_r, Z.rem_mul_r by lia. done.
Qed.
Lemma le_value_small k n : 0 ≤ n < 256 ^ Z.of_nat k → le_value (le_bytes k n) = n.
Proof. intros. rewrite le_value_bytes. by apply Z.mod_small. Qed.

(** Numbers in the stream. *)
Lemma holds_int n t c i l k m : holds n t c → 0 ≤ i → l = Z.of_nat k → i + l ≤ n →
  take k (drop (Z.to_nat i) t) = le_bytes k m → 0 ≤ m < 256 ^ Z.of_nat k →
  le_value (CpBuffer.extract RBUF_SIZE i l (rbuffer c)) = m.
Proof.
  intros Hh Hi -> Hn Ht Hm. destruct (holds_extract _ _ _ i (Z.of_nat k) Hh) as [-> _]; [lia..|].
  by rewrite Nat2Z.id, Ht, le_value_small.
Qed.

(** The part of the buffer that is in one piece. *)
Lemma front_take n t c k : holds n t c →
  0 ≤ k ≤ CpBuffer.get_contiguous_length RBUF_SIZE (CpBuffer.get_ptr RBUF_SIZE 0 (rbuffer c)) (rbuffer c) →
  CpBuffer.copy_out (CpBuffer.get_ptr RBUF_SIZE 0 (rbuffer c)) k (CpBuffer.buf (rbuffer c)) = take (Z.to_nat k) t.
Proof.
  intros [Hb _ <- _] Hk. destruct (CpBuffer.spans _ rbuf_size_ok (rbuffer c) Hb) as (H1 & H2 & H3 & _).
  cbv zeta in *. set (ptr := CpBuffer.get_ptr _ _ _) in *. set (len := CpBuffer.get_contiguous_length _ _ _) in *.
  unfold pending. rewrite H3, <- app_assoc, take_app_le by lia. unfold CpBuffer.copy_out.
  rewrite take_take. f_equal. lia.
Qed.
Lemma contiguous_at_0 b : buf_ok b → CpBuffer.cur_idx b = 0 →
  CpBuffer.get_contiguous_length RBUF_SIZE (CpBuffer.get_ptr RBUF_SIZE 0 b) b = CpBuffer.length_ b.
Proof.
  intros [_ _ Hl] H0. unfold CpBuffer.get_contiguous_length, CpBuffer.get_ptr. cbv zeta. rewrite H0.
  change (CpBuffer.wrap RBUF_SIZE (u32 (0 + 0))) with 0. unfold RBUF_SIZE in *.
  rewrite Z.add_0_l, u32_small by lia. unfold CpBuffer.wrap.
  destruct (Z.eqb_spec (CpBuffer.length_ b) 0) as [->|]; [done|].
  destruct (Z.leb_spec 1024 (CpBuffer.length_ b)).
  - rewrite u32_small by lia. rewrite (proj2 (Z.ltb_ge _ _)) by lia. lia.
  - rewrite (proj2 (Z.ltb_lt _ _)) by lia. lia.
Qed.

Lemma reset_ready n t c : holds n t c →
  let c' := c <| rbuffer ::= CpBuffer.reset |> in
  ready (rest (sys c)) c' ∧ CpBuffer.length_ (rbuffer c') = 0 ∧ CpBuffer.cur_idx (rbuffer c') = 0.
Proof.
  intros [Hb Hq Hp Hl] c'. pose proof (CpBuffer.ok_len _ _ Hb) as Hlen.
  destruct (CpBuffer.consume_correct _ rbuf_size_ok 0 (rbuffer c) Hb ltac:(lia)) as (_ & _ & H1 & H2).
  split; [|done]. split; [done|done| |done].
  unfold pending, c'. rsimpl. by rewrite H2.
Qed.

Lemma read_string_loop_wp fuel : ∀ n t rlen r c, holds n t c → 0 < rlen →
  (length (rest (sys c)) ≤ fuel)%nat →
  wp (read_string_loop fuel rlen r)
    (λ a c', ∃ p, rlen ≤ Z.of_nat (length (rest (sys c))) ∧ a.1 = r ++ take (Z.to_nat rlen) (rest (sys c))
       ∧ Z.of_nat (length p) = a.2 ∧ holds a.2 (p ++ drop (Z.to_nat rlen) (rest (sys c))) c' ∧ same c c')
    (λ e _, e = Cp_read_exception 0 ∧ Z.of_nat (length (rest (sys c))) < rlen) c.
Proof.
  induction fuel as [|fuel IH]; intros n t rlen r c Hh Hr Hf; cbn [read_string_loop]; repeat wstep;
    destruct (reset_ready n t c Hh) as (H1 & H2 & H3); set (t1 := rest (sys c)) in *;
    (eapply wp_mono; [apply (fill_some_wp t1 _ H1 H2)| |]; cbn beta;
      [|intros e c1 [-> ->]; split; [done|cbn; lia]]).
  all: intros _ c1 (H4 & H5 & H6); repeat wstep; rewrite H3 in H6.
  all: pose proof (holds_length _ _ _ H4) as Hlen; unfold CpBuffer.get_length.
  1: lia.
  set (L := CpBuffer.length_ (rbuffer c1)) in *. set (clen := Z.min L rlen).
  rewrite (front_take _ _ _ clen H4)
    by (rewrite contiguous_at_0 by (apply H4 || done); fold L; lia).
  assert (holds L t1 c1) as HL by (split; [apply H4..|done]).
  destruct (Z.ltb_spec 0 (rlen - clen)) as [Hlt|Hlt].
  - assert (rest (sys c1) = drop (Z.to_nat clen) t1) as Er.
    { destruct HL as [Hb _ Hp _]. rewrite <- Hp. unfold pending.
      pose proof (CpBuffer.length_contents _ _ Hb).
      rewrite drop_app_ge by lia. replace (_ - _)%nat with 0%nat by lia. done. }
    eapply wp_mono; [apply (IH L t1 (rlen - clen) _ c1 HL Hlt)|..]; cbn beta.
    + rewrite Er, length_drop. lia.
    + intros a c2 (p & I1 & I2 & I3 & I4 & I5). exists p. rewrite Er in *. rewrite length_drop in I1.
      split_and!; [lia| |done| |by etransitivity].
      * rewrite I2, <- app_assoc. f_equal. rewrite take_take_drop. f_equal. lia.
      * rewrite drop_drop in I4. by replace (Z.to_nat clen + Z.to_nat (rlen - clen))%nat with (Z.to_nat rlen) in I4 by lia.
    + intros e c2 [-> I]. rewrite Er, length_drop in I. split; [done|lia].
  - wstep. exists (take (Z.to_nat clen) t1). cbn [fst snd].
    replace clen with rlen by lia. split_and!; [lia|done|rewrite length_take; lia| |done].
    rewrite take_drop. apply (holds_le L); [done|lia].
Qed.

Lemma read_string_wp len t c : ready t c → 0 ≤ len →
  wp (read_string len)
    (λ r c', len ≤ Z.of_nat (length t) ∧ r = take (Z.to_nat len) t ∧ ready (drop (Z.to_nat len) t) c' ∧ same c c')
    (λ e _, e = Cp_read_exception 0 ∧ Z.of_nat (length t) < len) c.
Proof.
  intros Hr Hl. unfold read_string. repeat wstep. unfold CpBuffer.get_length.
  set (L := CpBuffer.length_ (rbuffer c)) in *.
  assert (holds L t c) as HL by (split; [apply Hr..|done]). pose proof (holds_length _ _ _ HL) as Hlen.
  pose proof (h_length _ _ _ Hr) as HL0. fold L in HL0.
  destruct (Z.leb_spec len L) as [Hle|Hgt].
  - repeat wstep. destruct (holds_extract _ _ _ 0 len HL) as [_ ->]; [lia..|]. rewrite drop_0.
    split_and!; [lia|done| |done]. eapply holds_le; [by apply (holds_consume L)|lia].
  - repeat wstep. destruct (holds_extract _ _ _ 0 L HL) as [_ ->]; [lia..|]. rewrite drop_0.
    assert (rest (sys c) = drop (Z.to_nat L) t) as Er.
    { destruct HL as [Hb _ Hp _]. rewrite <- Hp. unfold pending. pose proof (CpBuffer.length_contents _ _ Hb) as Hc.
      fold L in Hc. rewrite drop_app_ge by lia. replace (_ - _)%nat with 0%nat by lia. done. }
    eapply wp_mono; [apply (read_string_loop_wp _ L t (len - L) _ c HL ltac:(lia))|..]; cbn beta.
    + unfold pending. rewrite length_app. lia.
    + intros [r clen] c1 (p & H1 & H2 & H3 & H4 & H5). cbn [fst snd] in *. repeat wstep.
      rewrite Er in *. rewrite length_drop in H1. split_and!; [lia| | |done].
      * rewrite H2, take_take_drop. f_equal. lia.
      * pose proof (holds_consume _ _ _ clen H4 ltac:(lia)) as H6. rewrite drop_drop in H6.
        rewrite drop_app_ge in H6 by lia. replace (Z.to_nat clen - length p)%nat with 0%nat in H6 by lia.
        rewrite drop_0 in H6. replace (Z.to_nat L + Z.to_nat (len - L))%nat with (Z.to_nat len) in H6 by lia.
        apply (holds_le _ 0 _ _ H6). lia.
    + intros e c1 [-> H]. rewrite Er, length_drop in H. split; [done|lia].
Qed.
