(* ===== verification/ClientProps.v ===== *)
(** * The client library: properties

    Waiting for replies, and what the client makes of the replies that the server of
    [Control] sends. *)

From S2P Require Import Prelude Text ServiceData Env ControlConn LoadService IoStream Client ClientLaws.
From S2P Require CpBuffer Control.
Import CpBuffer (cpbuffer).

Implicit Types (c : client) (t u : list Z) (ps : list (list Z)).

(** A request, and the wait for its reply. *)
Lemma ask_wp {A} (k : unit → op A) data ps t c Q E :
  Forall info_packet ps → reply t → data ≠ [] → ready (concat ps ++ t) c → quiet_writes (sys c) →
  (∀ c', holds 1 t c' → asked data c c' → wp (k tt) Q E c') →
  wp (write_all_x data;; wait_for_reply ≫= k) Q E c.
Proof.
  intros Hps Ht Hd Hr Hw Hk. wstep. eapply wp_mono; [by apply (write_all_x_wp data _ _ Hd Hr)| |done]. cbn beta.
  intros _ c1 [H1 A1]. wstep. eapply wp_mono; [apply (wait_for_reply_wp ps t c1 Hps (or_introl Ht) H1)|..]; cbn beta.
  - intros [] c2 (_ & H2 & S2). apply Hk; [done|]. by eapply asked_same.
  - intros e c2 [_ [->|(v & Hv & Hi)]]; [by destruct Ht as (? & ? & ? & _)|].
    destruct Ht as (code & w & -> & Ht), Hi as (code' & body & Ei & Hi & _).
    cbn [app] in Ei. injection Ei as -> _. congruence.
Qed.

(** *** The replies of the server *)

Definition version_packet : list Z :=
  cp_rply.CPVERSION :: le_bytes 2 Control.min_compat_version ++ le_bytes 2 Control.cp_version.
Definition load_mech_packet (wd : text) (dirs : list text) : list Z :=
  let body := le_bytes 4 (Z.of_nat (length dirs)) ++ Control.counted wd
              ++ concat (Control.counted <$> dirs) in
  [cp_rply.LOADER_MECH; 1] ++ le_bytes 4 (6 + Z.of_nat (length body)) ++ body.
Definition env_block (vs : list text) : list Z := concat ((λ v, v ++ [0]) <$> vs).
Definition env_packet (vs : list text) : list Z :=
  cp_rply.ALLENV :: le_bytes 8 (Z.of_nat (length (env_block vs))) ++ env_block vs.

Lemma version_wp minversion version ps u c :
  Forall info_packet ps → ready (concat ps ++ version_packet ++ u) c → quiet_writes (sys c) →
  wp (check_protocol_version minversion version)
    (λ v c', v = Control.cp_version ∧ minversion ≤ v ∧ Control.min_compat_version ≤ version
       ∧ ready u c' ∧ asked [cp_cmd.QUERYVERSION] c c')
    (λ e _, (e = Cp_old_client_exception ∧ version < Control.min_compat_version)
            ∨ (e = Cp_old_server_exception ∧ Control.cp_version < minversion)) c.
Proof.
  intros Hps Hr Hw. unfold check_protocol_version.
  apply (ask_wp _ _ ps (version_packet ++ u)); [done|by exists cp_rply.CPVERSION, (drop 1 version_packet ++ u)|done..|].
  intros c1 H1 A1. repeat wstep. rewrite (holds_head _ _ H1).
  change (head_byte _ =? cp_rply.CPVERSION) with true. cbn [negb]. cbv iota. wstep.
  eapply wp_mono; [by apply (fill_buffer_to_wp 5 _ _ (holds_le _ 0 _ _ H1 ltac:(lia)))|..]; cbn beta.
  2: { intros e c2 [_ H]. rewrite length_app in H. cbn in H. lia. }
  intros _ c2 [H2 S2]. repeat wstep.
  rewrite (holds_int _ _ _ 1 2 2 Control.min_compat_version H2), (holds_int _ _ _ 3 2 2 Control.cp_version H2) by done.
  pose proof (holds_consume _ _ _ 5 H2 ltac:(lia)) as H3.
  destruct (Z.ltb_spec version Control.min_compat_version); [wstep; by left|].
  destruct (Z.ltb_spec Control.cp_version minversion); wstep; [by right|].
  split_and!; [done..|by apply (asked_same _ _ c1)].
Qed.

(** *** The load path *)

Lemma counted_length dir : length (Control.counted dir) = (4 + length dir)%nat.
Proof. unfold Control.counted. by rewrite length_app, length_le_bytes. Qed.

Lemma counted_wp {A} (k : text → op A) dir u c Q E :
  Z.of_nat (length dir) < 2 ^ 32 → ready (Control.counted dir ++ u) c →
  (∀ c', ready u c' → same c c' → wp (k dir) Q E c') →
  wp (fill_buffer_to 4;; plen ← extract_int 0 4; consume 4;; read_string plen ≫= k) Q E c.
Proof.
  intros Hd Hr Hk. wstep. eapply wp_mono; [by apply (fill_buffer_to_wp 4 _ _ Hr)|..]; cbn beta.
  2: { intros e c1 [_ H]. rewrite length_app, counted_length in H. lia. }
  intros _ c1 [H1 S1]. repeat wstep. unfold Control.counted in H1. rewrite <- app_assoc in H1.
  rewrite (holds_int _ _ _ 0 4 4 (Z.of_nat (length dir)) H1); [|lia|done|lia| |lia].
  2: { rewrite drop_0, take_app_length'; [done|by rewrite length_le_bytes]. }
  pose proof (holds_consume _ _ _ 4 H1 ltac:(lia)) as H2.
  rewrite drop_app_length' in H2 by (by rewrite length_le_bytes).
  eapply wp_mono; [apply (read_string_wp (Z.of_nat (length dir)) _ _ (holds_le _ 0 _ _ H2 ltac:(lia))); lia|..]; cbn beta.
  - intros r c2 (_ & -> & H3 & S3). rewrite Nat2Z.id in *.
    rewrite take_app_length. rewrite drop_app_length in H3. apply Hk; [done|by transitivity c1].
  - intros e c2 [_ H]. rewrite length_app in H. lia.
Qed.

Lemma read_paths_wp wd dirs : ∀ u c,
  Forall (λ dir, Z.of_nat (length dir) < 2 ^ 32) dirs → ready (concat (Control.counted <$> dirs) ++ u) c →
  wp (read_paths (length dirs) wd)
    (λ paths c', paths = (λ dir, combine_paths wd (c_str dir)) <$> dirs ∧ ready u c' ∧ same c c')
    (λ _ _, False) c.
Proof.
  induction dirs as [|dir dirs IH]; intros u c Hd Hr; cbn [read_paths length].
  { wstep. done. }
  inversion Hd as [|?? Hd1 Hd2]; subst. cbn [fmap list_fmap concat] in Hr. rewrite <- app_assoc in Hr.
  apply (counted_wp _ dir (concat (Control.counted <$> dirs) ++ u)); [done..|].
  intros c1 H1 S1. wstep. eapply wp_mono; [by apply (IH u)| |done]. cbn beta.
  intros paths c2 (-> & H2 & S2). wstep. split_and!; [done|done|by transitivity c1].
Qed.

Lemma load_mech_wp wd dirs ps u c :
  Z.of_nat (length wd) < 2 ^ 32 → Z.of_nat (length dirs) < 2 ^ 32 →
  Forall (λ dir, Z.of_nat (length dir) < 2 ^ 32) dirs →
  Forall info_packet ps → ready (concat ps ++ load_mech_packet wd dirs ++ u) c → quiet_writes (sys c) →
  wp get_service_description_dirs
    (λ paths c', paths = (λ dir, combine_paths wd (c_str dir)) <$> dirs
       ∧ ready u c' ∧ asked [cp_cmd.QUERY_LOAD_MECH] c c')
    (λ _ _, False) c.
Proof.
  intros Hwd Hn Hd Hps Hr Hw. unfold get_service_description_dirs.
  unfold load_mech_packet in Hr. cbv zeta in Hr.
  set (size := le_bytes 4 (6 + _)) in Hr.
  set (t := concat (Control.counted <$> dirs) ++ u).
  assert (([cp_rply.LOADER_MECH; 1] ++ size ++ le_bytes 4 (Z.of_nat (length dirs)) ++ Control.counted wd
    ++ concat (Control.counted <$> dirs)) ++ u
    = [cp_rply.LOADER_MECH; 1] ++ size ++ le_bytes 4 (Z.of_nat (length dirs)) ++ le_bytes 4 (Z.of_nat (length wd)) ++ wd ++ t) as E.
  { unfold Control.counted, t. cbn [app]. by rewrite <- !app_assoc. }
  rewrite E in Hr. set (l := _ ++ size ++ _) in Hr.
  assert (length l = (14 + (length wd + length t))%nat) as Hl.
  { unfold l, size. rewrite !length_app, !length_le_bytes. done. }
  apply (ask_wp _ _ ps l); [done|by eexists _, _|done..|]. intros c1 H1 A1. repeat wstep.
  rewrite (holds_head _ _ H1). change (head_byte _ =? cp_rply.LOADER_MECH) with true. cbn [negb]. cbv iota. wstep.
  eapply wp_mono; [by apply (fill_buffer_to_wp 6 _ _ (holds_le _ 0 _ _ H1 ltac:(lia)))| |intros e c2 [_ H]; lia].
  cbn beta. intros _ c2 [H2 S2]. repeat wstep. rewrite (holds_at _ _ _ 1 0 H2) by lia.
  change (nth _ l 0 =? SSET_TYPE_DIRLOAD) with true. cbn [negb]. cbv iota. wstep.
  eapply wp_mono; [by apply (fill_buffer_to_wp 14 _ _ (holds_le _ 0 _ _ H2 ltac:(lia)))| |intros e c3 [_ H]; lia].
  cbn beta. intros _ c3 [H3 S3]. repeat wstep.
  rewrite (holds_int _ _ _ 6 4 4 (Z.of_nat (length dirs)) H3), (holds_int _ _ _ 10 4 4 (Z.of_nat (length wd)) H3)
    by (done || lia).
  pose proof (holds_consume _ _ _ 14 H3 ltac:(lia)) as H4. change (drop _ l) with (wd ++ t) in H4.
  eapply wp_mono; [apply (read_string_wp (Z.of_nat (length wd)) _ _ H4); lia|..]; cbn beta.
  2: { intros e c4 [_ H]. rewrite length_app in H. lia. }
  intros r c4 (_ & -> & H5 & S5). rewrite !Nat2Z.id in *. rewrite take_app_length. rewrite drop_app_length in H5.
  eapply wp_mono; [by apply (read_paths_wp wd dirs u)| |done]. cbn beta.
  intros paths c5 (-> & H6 & S6). split_and!; [done..|].
  apply (asked_same _ _ c1 _ A1). transitivity c2; [done|]. transitivity c3; [done|]. by transitivity c4.
Qed.

(** *** The environment *)

(** Reads that are not even interrupted, as the result of [fill_to] is not looked at. *)
Definition steady s : Prop := ∀ e, Fails e ∉ reads s.

Lemma steady_suffix s s' : reads s' `suffix_of` reads s → steady s → steady s'.
Proof. intros [l E] Hs e He. apply (Hs e). rewrite E. apply elem_of_app. by right. Qed.

Lemma fill_to_wp n t c : ready t c → steady (sys c) → n ≤ Z.of_nat (length t) → n ≤ RBUF_SIZE →
  wp (fill_to n) (λ _ c', holds n t c' ∧ same c c') (λ _ _, False) c.
Proof.
  intros [Hb Hq Hp Hl] Hs Ht Hn. unfold wp, fill_to, CpBuffer.fill_to.
  destruct (fill_to_loop_spec (Z.to_nat n) n (sys c) (rbuffer c) Hb Hn) as (s' & r & b' & -> & F & Hc); [lia|].
  assert (bytes b' ++ rest s' = t) as Et by (rewrite <- Hp; apply F).
  destruct Hc as [(-> & H)|[(-> & H1 & H2)|(_ & _ & _ & e & He)]]; [| |by apply Hs in He].
  - split; [split; [apply F|by apply (f_quiet _ _ _ _ F)|done..]|]. split; [apply F|done].
  - rewrite <- Et, H1, app_nil_r, (CpBuffer.length_contents _ _ (f_buf _ _ _ _ F)) in Ht. lia.
Qed.

(** Data behind which the buffer is filled, if it is empty. *)
Lemma refill_wp {A} (k : unit → op A) t c Q E : t ≠ [] → ready t c →
  (∀ c', holds 1 t c' → same c c' → wp (k tt) Q E c') →
  wp (len ← get_length; (if len =? 0 then fill_some else mret tt) ≫= k) Q E c.
Proof.
  intros Ht Hr Hk. repeat wstep. unfold CpBuffer.get_length.
  destruct (Z.eqb_spec (CpBuffer.length_ (rbuffer c)) 0) as [H0|H0].
  - eapply wp_mono; [by apply (fill_some_wp t)| |by intros e c' [_ ->]]. cbn beta. intros [] c' (? & ? & _). by apply Hk.
  - wstep. apply Hk; [|done]. destruct Hr as [? ? ? H]. split; [done..|]. lia.
Qed.

Definition no_nul (v : text) : Prop := Forall (λ b, b ≠ 0) v.
Lemma c_str_no_nul v : no_nul (c_str v).
Proof.
  induction v as [|b v IH]; cbn; [constructor|]. destruct (Z.eqb_spec b 0); [constructor|by constructor].
Qed.
Lemma find_none v : no_nul v → list_find (λ b, b = 0) v = None.
Proof. intros H. apply list_find_None. exact H. Qed.
Lemma find_end v t : no_nul v → list_find (λ b, b = 0) (v ++ 0 :: t) = Some (length v, 0).
Proof.
  intros H. rewrite list_find_app_r by (by apply find_none). cbn. first [done|by rewrite Nat.add_0_r].
Qed.

Section environment.
Context (environ : list text).

Definition set_all (vs : list text) (menv : environment) : environment :=
  foldl (λ e v, (set_var environ v false e).1) menv vs.

(** What is left of the fuel. *)
Definition env_fuel (d : list Z) c : nat :=
  2 * length d + (if CpBuffer.length_ (rbuffer c) =? 0 then 1 else 0).

Lemma read_env_loop_wp fuel : ∀ v1 v2 vs u menv c d,
  no_nul v2 → Forall no_nul vs → d = v2 ++ 0 :: env_block vs → (env_fuel d c ≤ fuel)%nat →
  ready (d ++ u) c →
  wp (read_env_loop environ fuel (Z.of_nat (length d)) v1 menv)
    (λ menv' c', menv' = set_all ((v1 ++ v2) :: vs) menv ∧ ready u c' ∧ same c c') (λ _ _, False) c.
Proof.
  induction fuel as [|fuel IH]; intros v1 v2 vs u menv c d Hv Hvs Hd Hf Hr.
  { unfold env_fuel in Hf. rewrite Hd, length_app in Hf. cbn in Hf. lia. }
  cbn [read_env_loop]. repeat wstep.
  pose proof (CpBuffer.spans _ rbuf_size_ok (rbuffer c) (h_buf _ _ _ Hr)) as (HL1 & _ & _ & HL2). cbv zeta in *.
  set (L := CpBuffer.get_contiguous_length _ _ _) in *. set (m := Z.min L (Z.of_nat (length d))).
  assert (length d = (length v2 + S (length (env_block vs)))%nat) as Hdl by (by rewrite Hd, length_app).
  rewrite (front_take _ _ _ m Hr) by lia. rewrite take_app_le by lia.
  destruct (decide (Z.to_nat m ≤ length v2)%nat) as [Hm|Hm].
  - rewrite Hd, take_app_le, find_none by (done || by apply Forall_take). rewrite <- Hd. repeat wstep.
    assert (holds L (d ++ u) c) as HL by (split; [apply Hr..|lia]).
    pose proof (holds_consume _ _ _ m HL ltac:(lia)) as H1.
    rewrite drop_app_le in H1 by lia. set (d' := drop (Z.to_nat m) d) in *.
    replace (Z.of_nat (length d) - m) with (Z.of_nat (length d')) by (unfold d'; rewrite length_drop; lia).
    assert (d' = drop (Z.to_nat m) v2 ++ 0 :: env_block vs) as Ed' by (unfold d'; rewrite Hd; by apply drop_app_le).
    assert (length d' ≠ 0)%nat as Hd0 by (rewrite Ed', length_app; cbn; lia).
    rewrite (proj2 (Z.eqb_neq _ 0)) by lia.
    apply (refill_wp _ (d' ++ u)); [by destruct d'|by apply (holds_le (L - m) 0); [done|lia]|].
    intros c1 H2 S2. eapply wp_mono; [apply (IH _ (drop (Z.to_nat m) v2) vs u menv c1 d')| |done]; cbn beta.
    + by apply Forall_drop.
    + done.
    + done.
    + unfold env_fuel in *. pose proof (h_length _ _ _ H2). rewrite (proj2 (Z.eqb_neq _ 0)) by lia.
      assert (length d' = length d - Z.to_nat m)%nat by (unfold d'; by rewrite length_drop).
      destruct (Z.eqb_spec (CpBuffer.length_ (rbuffer c)) 0); lia.
    + apply (holds_le 1); [done|lia].
    + intros menv' c2 (-> & H3 & S3). rewrite <- app_assoc, take_drop. split_and!; [done..|by transitivity c1].
  - rewrite Hd, take_app_ge by lia. destruct (Z.to_nat m - length v2)%nat as [|k] eqn:Ek; [lia|].
    cbn [take]. rewrite find_end by done. repeat wstep. rewrite take_app_length. rewrite <- Hd.
    assert (holds L (d ++ u) c) as HL by (split; [apply Hr..|lia]).
    pose proof (holds_consume _ _ _ (Z.of_nat (length v2) + 1) HL ltac:(lia)) as H1.
    replace (Z.to_nat (Z.of_nat (length v2) + 1)) with (length v2 + 1)%nat in H1 by lia.
    rewrite Hd, <- app_assoc, <- drop_drop, drop_app_length in H1. cbn [app drop] in H1. rewrite drop_0 in H1.
    replace (Z.of_nat (length d) - (Z.of_nat (length v2) + 1)) with (Z.of_nat (length (env_block vs))) by lia.
    set (c1 := c <| rbuffer ::= _ |>) in *. destruct vs as [|v vs].
    + cbn. split_and!; [done|apply (holds_le _ 0 _ _ H1); lia|done].
    + inversion Hvs as [|?? Hv1 Hvs1]; subst.
      assert (env_block (v :: vs) = v ++ 0 :: env_block vs) as Eb
        by (unfold env_block; cbn; by rewrite <- app_assoc).
      rewrite (proj2 (Z.eqb_neq _ 0)) by (rewrite Eb, length_app; cbn; lia).
      eapply wp_mono; [apply (IH [] v vs u _ c1 (env_block (v :: vs)))| |done]; cbn beta; [done..| | |].
      * unfold env_fuel in *. rewrite length_app in Hf. cbn [length] in Hf.
        destruct (Z.eqb_spec (CpBuffer.length_ (rbuffer c1)) 0), (Z.eqb_spec (CpBuffer.length_ (rbuffer c)) 0); lia.
      * apply (holds_le _ 0 _ _ H1). lia.
      * intros menv' c2 (-> & H3 & S3). done.
Qed.
End environment.

Lemma remote_env_wp environ vs menv ps u c :
  Forall no_nul vs → Z.of_nat (length (env_block vs)) < 2 ^ 64 → steady (sys c) →
  Forall info_packet ps → ready (concat ps ++ env_packet vs ++ u) c → quiet_writes (sys c) →
  wp (get_remote_env environ menv)
    (λ menv' c', menv' = set_all environ vs menv ∧ ready u c' ∧ asked [cp_cmd.GETALLENV; 0] c c')
    (λ _ _, False) c.
Proof.
  intros Hvs Hn Hst Hps Hr Hw. unfold get_remote_env.
  set (l := env_packet vs ++ u) in *. set (d := env_block vs) in *.
  assert (l = cp_rply.ALLENV :: le_bytes 8 (Z.of_nat (length d)) ++ d ++ u) as El
    by (unfold l, env_packet; fold d; cbn [app]; by rewrite <- app_assoc).
  assert (9 ≤ Z.of_nat (length l)) as Hl by (rewrite El; cbn [length]; rewrite length_app, length_le_bytes; lia).
  apply (ask_wp _ _ ps l); [done|by rewrite El; eexists _, _|done..|]. intros c1 H1 A1. repeat wstep.
  rewrite (holds_head _ _ H1). rewrite El at 1. change (head_byte _ =? cp_rply.ALLENV) with true.
  cbn [negb]. cbv iota. wstep.
  eapply wp_mono; [apply (fill_to_wp 9 l c1 (holds_le _ 0 _ _ H1 ltac:(lia)) (steady_suffix _ _ (a_reads _ _ _ A1) Hst) Hl)|..];
    [done| |done]. cbn beta. intros _ c2 [H2 S2]. repeat wstep.
  rewrite (holds_int _ _ _ 1 8 8 (Z.of_nat (length d)) H2); [|lia|done|lia| |lia].
  2: { assert (drop (Z.to_nat 1) l = le_bytes 8 (Z.of_nat (length d)) ++ d ++ u) as ->
         by (rewrite El; reflexivity).
       by rewrite take_app_length' by (by rewrite length_le_bytes). }
  pose proof (holds_consume _ _ _ 9 H2 ltac:(lia)) as H3. change (9 - 9) with 0 in H3.
  assert (drop (Z.to_nat 9) l = d ++ u) as Ed by (rewrite El; reflexivity). rewrite Ed in H3.
  set (c3 := c2 <| rbuffer ::= _ |>) in *.
  assert (asked [cp_cmd.GETALLENV; 0] c c3) as A3 by (by apply (asked_same _ _ c1)).
  destruct vs as [|v vs].
  { change (Z.of_nat (length d) =? 0) with true. cbv iota. wstep. split_and!; [done|exact H3|done]. }
  assert (d = v ++ 0 :: env_block vs) as Ed2 by (unfold d, env_block; cbn; by rewrite <- app_assoc).
  assert (length d ≠ 0)%nat as Hd0 by (rewrite Ed2, length_app; cbn; lia).
  rewrite (proj2 (Z.eqb_neq _ 0)) by lia.
  apply (refill_wp _ (d ++ u)); [by destruct d|done|]. intros c4 H4 S4. repeat wstep.
  inversion Hvs as [|?? Hv Hvs']; subst.
  eapply wp_mono; [apply (read_env_loop_wp environ _ [] v vs u menv c4 d Hv Hvs' Ed2)| |done]; cbn beta.
  - unfold env_fuel. rewrite (h_pending _ _ _ H4), length_app. pose proof (h_length _ _ _ H4).
    rewrite (proj2 (Z.eqb_neq _ 0)) by lia. lia.
  - apply (holds_le 1); [done|lia].
  - intros menv' c5 (-> & H5 & S5). split_and!; [done..|]. apply (asked_same _ _ c3 _ A3). by transitivity c4.
Qed.

(** ** The packets of the server *)

Lemma length_status5 st : length (fill_status_buffer5 st) = 14%nat.
Proof.
  unfold fill_status_buffer5. rewrite length_app.
  destruct (negb _); [|destruct (exec_failed _)]; rewrite !length_app, !length_le_bytes; done.
Qed.
Lemma length_status st : length (fill_status_buffer st) = 10%nat.
Proof.
  unfold fill_status_buffer. rewrite length_app.
  destruct (negb _); [|destruct (exec_failed _)]; rewrite !length_app, !length_le_bytes; done.
Qed.

Lemma event_packets_ok key ev st :
  (info_packet (event_packet5 key ev st) ∧ event_packet_ok (event_packet5 key ev st))
  ∧ (info_packet (event_packet key ev st) ∧ event_packet_ok (event_packet key ev st)).
Proof.
  assert (length (event_packet5 key ev st) = 21%nat) as H5
    by (unfold event_packet5; rewrite !length_app, length_le_bytes, length_status5; done).
  assert (length (event_packet key ev st) = 17%nat) as H
    by (unfold event_packet; rewrite !length_app, length_le_bytes, length_status; done).
  unfold info_packet, event_packet_ok. rewrite H5, H. split; split.
  - eexists _, _. split; [reflexivity|done].
  - intros _. split; [lia|]. intros _. split; lia.
  - eexists _, _. split; [reflexivity|done].
  - intros _. split; [lia|]. intros _. split; [lia|]. done.
Qed.

(** What the two packets of an event tell a client that waits with the handle. *)
Definition seen_event (ev : service_event_t) (p : list Z) (o : observed_states) : observed_states :=
  match ev with
  | service_event_t.STARTED => o <| seen_started := true |>
  | service_event_t.STOPPED => o <| seen_stopped := true |>
  | service_event_t.FAILEDSTART => see_failure p o
  | _ => o
  end.
Lemma see_event handle key ev st o : 0 ≤ key < 2 ^ 32 →
  see handle o (event_packet5 key ev st)
  = (if key =? handle then seen_event ev (event_packet5 key ev st) o else o)
  ∧ see handle o (event_packet key ev st)
  = (if key =? handle then seen_event ev (event_packet key ev st) o else o).
Proof.
  intros Hk. unfold see.
  assert (int_in 2 4 (event_packet5 key ev st) = key ∧ int_in 2 4 (event_packet key ev st) = key) as [-> ->].
  { split; transitivity (le_value (le_bytes 4 key)); (done || by rewrite le_value_small by lia). }
  split; (destruct (key =? handle); [|done]); by destruct ev.
Qed.

(** The status of a process that ended, as [see_failure] reads it. *)
Lemma see_failure_status key st o : st_pid st = -1 → st_stop_reason st ≠ stopped_reason_t.EXECFAILED →
  0 ≤ wait_si_code (st_exit_status st) < 2 ^ 31 → 0 ≤ wait_si_status (st_exit_status st) < 2 ^ 31 →
  see_failure (event_packet5 key service_event_t.FAILEDSTART st) o
  = Observed (seen_started o) (seen_stopped o) true (reason_code (st_stop_reason st))
      (wait_si_code (st_exit_status st)) (wait_si_code (st_exit_status st)) (wait_si_status (st_exit_status st)).
Proof.
  intros Hpid Hr Hc Hs. unfold event_packet5, fill_status_buffer5, exec_failed.
  rewrite Hpid, bool_decide_eq_false_2 by done. cbn [Z.eqb Pos.eqb negb]. cbv iota.
  set (a := wait_si_code _) in *. set (b := wait_si_status _) in *. unfold see_failure.
  match goal with |- context [int_in 13 4 ?p] =>
    assert (int_in 13 4 p = a ∧ int_in 17 4 p = b) as [-> ->] end.
  { split; [transitivity (le_value (le_bytes 4 a))|transitivity (le_value (le_bytes 4 b))];
      (done || by rewrite le_value_small by lia). }
  unfold signed. rewrite !(proj2 (Z.ltb_lt _ _)) by lia. by destruct o.
Qed.

(** ** Properties *)

(** A wait whose result is decided by whether a reply comes. *)
Lemma wp_decided (m : op unit) t (Q : client → Prop) c :
  wp m (λ _ c', reply t ∧ Q c') (λ e _, e = Cp_read_exception 0 ∧ cut_short t) c →
  (∃ c', m c = (c', Returns tt) ∧ reply t ∧ Q c')
  ∨ (∃ c', m c = (c', Throws (Cp_read_exception 0)) ∧ cut_short t).
Proof.
  unfold wp. destruct (m c) as [c' [[]|e|]]; [|intros [-> H]|done].
  - intros [H1 H2]. left. by exists c'.
  - right. by exists c'.
Qed.
Lemma not_both t : reply t → ¬ cut_short t.
Proof.
  intros (code & u & -> & H) [?|(v & _ & code' & body & E & Hi & _)]; [done|].
  cbn [app] in E. injection E as -> _. congruence.
Qed.

(** C34: The stream has information packets whose length byte is their size (so not
    ENVEVENT, whose length byte leaves out the setting) and, to observe failures,
    FAILEDSTART event packets that have a status (as protocol version 5 has); then a reply
    or the end of the stream. However the bytes arrive and whatever interrupts the reads,
    waiting for a reply takes exactly these packets and stops in front of the reply, of
    which at least a byte is in the buffer; with a handle the packets about that service are
    observed in order. If the stream ends first, even within a packet, the wait ends with
    the exception for the end of the stream. The event packets that this server sends are of
    that form and are observed as the events they are. *)
Theorem client_waits_for_reply c handle ps t :
  Forall info_packet ps → Forall event_packet_ok ps → reply t ∨ cut_short t → ready (concat ps ++ t) c →
  (reply t →
     (∃ c', wait_for_reply c = (c', Returns tt) ∧ holds 1 t c' ∧ same c c')
     ∧ (∃ c', wait_for_reply_seen handle c = (c', Returns tt) ∧ holds 1 t c' ∧ same_seen_by handle ps c c'))
  ∧ (cut_short t →
     (∃ c', wait_for_reply c = (c', Throws (Cp_read_exception 0)))
     ∧ (∃ c', wait_for_reply_seen handle c = (c', Throws (Cp_read_exception 0))))
  ∧ (∀ key ev st o, 0 ≤ key < 2 ^ 32 →
     info_packet (event_packet5 key ev st) ∧ event_packet_ok (event_packet5 key ev st)
     ∧ info_packet (event_packet key ev st) ∧ event_packet_ok (event_packet key ev st)
     ∧ see handle o (event_packet5 key ev st)
       = (if key =? handle then seen_event ev (event_packet5 key ev st) o else o)
     ∧ see handle o (event_packet key ev st)
       = (if key =? handle then seen_event ev (event_packet key ev st) o else o)).
Proof.
  intros Hps Hev Ht Hr.
  pose proof (wp_decided _ _ _ _ (wait_for_reply_wp ps t c Hps Ht Hr)) as H1.
  pose proof (wp_decided _ _ _ _ (wait_for_reply_seen_wp handle ps t c Hps Hev Ht Hr)) as H2.
  split; [|split].
  - intros Hrep. pose proof (not_both t Hrep) as Hno. split.
    + destruct H1 as [(c' & H & _ & ?)|(c' & _ & H)]; [by exists c'|done].
    + destruct H2 as [(c' & H & _ & ?)|(c' & _ & H)]; [by exists c'|done].
  - intros Hc. split.
    + destruct H1 as [(c' & _ & H & _)|(c' & H & _)]; [by apply not_both in H|by exists c'].
    + destruct H2 as [(c' & _ & H & _)|(c' & H & _)]; [by apply not_both in H|by exists c'].
  - intros key ev st o Hk. destruct (event_packets_ok key ev st) as ((? & ?) & ? & ?).
    destruct (see_event handle key ev st o Hk) as (? & ?). by split_and!.
Qed.

(** C35: The client reads what the server sends, where requests are written without errors,
    reads fail only by being interrupted, and lengths fit their fields (2^32, 2^64). From
    the version reply it learns the protocol version, or that one side is too old; from the
    load-path reply the directories, relative ones behind the working directory; and, if no
    read is interrupted, from the environment reply it sets every variable of the block, in
    order (get_remote_env ignores the result of fill_to and after an interruption reads
    stale bytes, dinit-client.cc:18). The replies are the packets the server's handlers
    make. Each request is sent as it is, information packets whose length byte is their size
    in front of the reply are skipped, and what follows the reply stays in the stream. *)
Theorem client_reads_replies environ cwd load_dirs wd dirs vs menv minversion version ps u c :
  load_dirs = Some dirs → Control.find_cwd cwd 32 4096 = Some wd →
  Z.of_nat (length wd) < 2 ^ 32 → Z.of_nat (length dirs) < 2 ^ 32 →
  Forall (λ dir, Z.of_nat (length dir) < 2 ^ 32) dirs →
  Z.of_nat (length (env_block (c_str <$> vs))) < 2 ^ 64 →
  Forall info_packet ps → quiet_writes (sys c) →
  (∀ s, Control.query_version s
        = Control.and_then (Control.reply_bytes version_packet s) (λ s, (Control.consume 1 s, true)))
  ∧ (ready (concat ps ++ version_packet ++ u) c →
     wp (check_protocol_version minversion version)
       (λ v c', v = Control.cp_version ∧ minversion ≤ v ∧ Control.min_compat_version ≤ version
          ∧ ready u c' ∧ asked [cp_cmd.QUERYVERSION] c c')
       (λ e _, (e = Cp_old_client_exception ∧ version < Control.min_compat_version)
               ∨ (e = Cp_old_server_exception ∧ Control.cp_version < minversion)) c)
  ∧ (∀ s, Control.query_load_mech load_dirs cwd s
          = Control.reply_packet (load_mech_packet wd dirs) (Control.finish 1 s))
  ∧ (ready (concat ps ++ load_mech_packet wd dirs ++ u) c →
     wp get_service_description_dirs
       (λ paths c', paths = (λ dir, combine_paths wd (c_str dir)) <$> dirs
          ∧ ready u c' ∧ asked [cp_cmd.QUERY_LOAD_MECH] c c')
       (λ _ _, False) c)
  ∧ (∀ s, 2 ≤ rbuf_length (Control.con s) → rbuf_at 1 (Control.con s) = 0 →
       vs = omap id (env_list (build environ (Control.main_env s))) →
       Control.process_getallenv environ s
       = Control.reply_packet (env_packet (c_str <$> vs)) (Control.consume 2 s))
  ∧ (steady (sys c) → ready (concat ps ++ env_packet (c_str <$> vs) ++ u) c →
     wp (get_remote_env environ menv)
       (λ menv' c', menv' = set_all environ (c_str <$> vs) menv
          ∧ ready u c' ∧ asked [cp_cmd.GETALLENV; 0] c c')
       (λ _ _, False) c).
Proof.
  intros Hld Hcwd Hwd Hn Hd Hb Hps Hw. split_and!.
  - done.
  - intros Hr. by eapply version_wp.
  - intros s. unfold Control.query_load_mech, seq. by rewrite Hld, Hcwd.
  - intros Hr. by eapply load_mech_wp.
  - intros s H2 H0 ->. unfold Control.process_getallenv, Control.with_packet, env_packet, env_block.
    rewrite (proj2 (Z.ltb_ge _ _)) by lia. rewrite H0. cbn [Z.eqb negb]. unfold seq.
    by rewrite <- !list_fmap_compose.
  - intros Hs Hr. eapply remote_env_wp; try done. apply list.Forall_fmap, list.Forall_forall. intros v _. apply c_str_no_nul.
Qed.

(** ** Concrete connections *)

Lemma wp_cases {A} (m : op A) Q E c : wp m Q E c →
  (∃ a c', m c = (c', Returns a) ∧ Q a c') ∨ (∃ e c', m c = (c', Throws e) ∧ E e c').
Proof. unfold wp. destruct (m c) as [c' [a|e|]]; [left|right|done]; by eexists _, _. Qed.

(** A connection on which [t] is to come, with the results of the next reads and writes. *)
Definition connection (t : list Z) (reads writes : list io_result) : client :=
  Client (System 0 writes reads [] [] [] [] t [] []) (CpBuffer.cpbuffer_new RBUF_SIZE) (Some observed_new).

Lemma connection_ready t rs ws :
  Forall (λ r, match r with Fails e => Z.pos e = EINTR | Takes _ => True end) rs →
  ready t (connection t rs ws).
Proof.
  intros H. split; [|done|done|done].
  split; unfold connection, CpBuffer.cpbuffer_new; cbn [rbuffer CpBuffer.buf CpBuffer.cur_idx CpBuffer.length_];
    [|unfold RBUF_SIZE; lia..]. rewrite length_replicate. done.
Qed.

(** A failure to start of the service with handle 7, whose process exited with status 5. *)
Definition failure_event : list Z :=
  [101; 21; 7; 0; 0; 0; 2; 0; 0; 0; 3; 0; 0; 1; 0; 0; 0; 5; 0; 0; 0].
Lemma failure_event_ok : info_packet failure_event ∧ event_packet_ok failure_event.
Proof.
  split; [by eexists _, _|]. intros _. cbn. split; [lia|]. intros _. split; [lia|]. intros _. lia.
Qed.
Definition interrupted : list io_result := [Takes 1; Fails 4; Takes 3; Takes 2].

Lemma client_waits_for_reply_witness :
  (∃ c', wait_for_reply_seen 7 (connection (failure_event ++ [cp_rply.ACK]) interrupted []) = (c', Returns tt)
     ∧ holds 1 [cp_rply.ACK] c' ∧ seen_states c' = Some (Observed false false true 3 1 1 5))
  ∧ (∃ c', wait_for_reply (connection (failure_event ++ [100; 17]) interrupted []) = (c', Throws (Cp_read_exception 0))).
Proof.
  assert (Forall (λ r, match r with Fails e => Z.pos e = EINTR | Takes _ => True end) interrupted) as Hq
    by (by repeat constructor).
  destruct failure_event_ok as [H1 H2]. split.
  - destruct (client_waits_for_reply (connection (failure_event ++ [cp_rply.ACK]) interrupted []) 7 [failure_event] [cp_rply.ACK])
      as (H & _ & _).
    + by constructor.
    + by constructor.
    + left. by eexists _, [].
    + by apply connection_ready.
    + destruct H as [_ (c' & E & Hh & _ & Hs)]; [by eexists _, []|]. exists c'. split; [done|]. split; [done|].
      rewrite Hs. reflexivity.
  - destruct (client_waits_for_reply (connection (failure_event ++ [100; 17]) interrupted []) 7 [failure_event] [100; 17])
      as (_ & H & _).
    + by constructor.
    + by constructor.
    + right. right. exists (replicate 15 0). split; [done|]. by eexists _, _.
    + by apply connection_ready.
    + apply H. right. exists (replicate 15 0). split; [done|]. by eexists _, _.
Defined.

Lemma connection_steady t rs ws : Forall (λ r, match r with Fails _ => False | Takes _ => True end) rs →
  steady (sys (connection t rs ws)) ∧ ready t (connection t rs ws).
Proof.
  intros H. split.
  - intros e He. by apply (proj1 (list.Forall_forall _ _) H) in He.
  - apply connection_ready. eapply list.Forall_impl; [exact H|]. by intros [].
Qed.
Definition two_dirs : list text := [chars "/etc/dinit.d"; chars "d"].
Definition three_bytes : list io_result := [Takes 1; Takes 3].

Lemma client_reads_replies_witness :
  (∃ c', check_protocol_version 1 5 (connection (failure_event ++ version_packet) three_bytes [Takes 1])
         = (c', Returns 5) ∧ pending c' = [])
  ∧ (∃ c', get_service_description_dirs (connection (load_mech_packet (chars "/root") two_dirs) three_bytes [])
           = (c', Returns [chars "/etc/dinit.d"; chars "/root/d"]) ∧ pending c' = []).
Proof.
  assert (Forall (λ r, match r with Fails _ => False | Takes _ => True end) three_bytes) as Hq
    by (by repeat constructor).
  destruct failure_event_ok as [H1 _]. split.
  - destruct (connection_steady (failure_event ++ version_packet) three_bytes [Takes 1] Hq) as [_ Hr].
    destruct (client_reads_replies [] (Some (chars "/root")) (Some []) (chars "/root") [] [] environment_new 1 5
      [failure_event] []
      (connection (failure_event ++ version_packet) three_bytes [Takes 1]) eq_refl eq_refl ltac:(done) ltac:(done) ltac:(constructor) ltac:(done)
      ltac:(by constructor) ltac:(by repeat constructor)) as (_ & H & _).
    destruct (wp_cases _ _ _ _ (H Hr)) as [(v & c' & E & -> & _ & _ & Hp & _)|(e & c' & _ & [[_ He]|[_ He]])];
      [|done..]. exists c'. split; [exact E|apply (h_pending _ _ _ Hp)].
  - destruct (connection_steady (load_mech_packet (chars "/root") two_dirs) three_bytes [] Hq) as [_ Hr].
    destruct (client_reads_replies [] (Some (chars "/root")) (Some two_dirs) (chars "/root") two_dirs [] environment_new 1 5
      [] [] (connection (load_mech_packet (chars "/root") two_dirs) three_bytes []) eq_refl eq_refl ltac:(done) ltac:(done) ltac:(by repeat constructor) ltac:(done)
      ltac:(by constructor) ltac:(by repeat constructor)) as (_ & _ & _ & H & _).
    destruct (wp_cases _ _ _ _ (H Hr)) as [(paths & c' & E & -> & Hp & _)|(e & c' & _ & [])].
    exists c'. split; [exact E|apply (h_pending _ _ _ Hp)].
Defined.

(** ** What does not hold *)

(** A packet of length 0 does not move on: what [consume(1)] takes [consume(pktlen - 1)] puts
    back. *)
Definition after_first_read (t : list Z) : client := (fill_buffer_to 1 (connection t [] [])).1.

Lemma zero_length_turns fuel : (wait_loop fuel (after_first_read [100; 0])).2 = Overrun.
Proof.
  assert (∀ k : op unit,
    (fill_buffer_to 2;; pktlen ← byte_at 1; consume 1;; fill_buffer_to pktlen;; consume (pktlen - 1);; k)
      (after_first_read [100; 0]) = k (after_first_read [100; 0])) as Hturn.
  { intros k. vm_compute. reflexivity. }
  assert (is_info (CpBuffer.at_ RBUF_SIZE 0 (rbuffer (after_first_read [100; 0]))) = true) as Hi by done.
  induction fuel as [|fuel IH]; cbn [wait_loop]; unfold mbind at 1, op_bind at 1; cbn [byte_at get];
    unfold byte_at, get; rewrite Hi; [done|]. rewrite Hturn. exact IH.
Qed.

(** - An information packet on the environment says that it is 5 bytes long, without the setting
      that follows: the wait for a reply takes the setting for the reply.
    - A packet with length 0 is never left.
    - A request of which a part was written before an error is taken as written.
    - An interruption while the size of the environment is read is not noticed: nothing is
      read, and the buffer then has a length far beyond its size.
    - The reason of a failure to start is read behind the end of a packet that has none.
    - For a passed descriptor that is invalid the result is 0 and not -1.
    - When connecting fails the socket stays open. *)
Theorem client_defects :
  (∃ c', wait_for_reply (connection (environ_packet (chars "A=B") false ++ [cp_rply.ACK]) [] []) = (c', Returns tt)
     ∧ pending c' = chars "A=B" ++ [0; cp_rply.ACK])
  ∧ (∀ fuel, (wait_loop fuel (after_first_read [100; 0])).2 = Overrun)
  ∧ (∃ c', write_all_x [cp_cmd.GETALLENV; 0] (connection [] [] [Takes 1; Fails 32]) = (c', Returns tt)
     ∧ sent (sys c') = [cp_cmd.GETALLENV])
  ∧ (∃ c', get_remote_env [] environment_new (connection (env_packet [chars "A=B"]) [Takes 1; Fails 4] [])
           = (c', Returns environment_new) ∧ CpBuffer.length_ (rbuffer c') = 2 ^ 32 - 8)
  ∧ (∃ c', wait_for_reply_seen 7 (connection ([100; 7; 7; 0; 0; 0; 2] ++ [cp_rply.SERVICERECORD; 2; 9; 1; 0; 0; 2]) [] [])
           = (c', Returns tt)
     ∧ seen_stop_reason <$> seen_states c' = Some 1)
  ∧ get_passed_cfd [chars "DINIT_CS_FD=5"] (λ _, None) = (0, [])
  ∧ (∃ e, connect_to_daemon (chars "/run/dinitctl") (inl 3) true (Some 2%positive) = ([3], inr e)).
Proof.
  split_and!.
  - eexists. split; [vm_compute; reflexivity|]. reflexivity.
  - apply zero_length_turns.
  - eexists. split; [vm_compute; reflexivity|]. reflexivity.
  - eexists. split; [vm_compute; reflexivity|]. reflexivity.
  - eexists. split; [vm_compute; reflexivity|]. reflexivity.
  - reflexivity.
  - by eexists.
Qed.
