(* ===== verification/Monitor.v ===== *)
(** * The monitor

    dinit-monitor.cc: it loads services or listens to the environment, and runs a command for
    every event.  The commands that it runs are recorded in the order in which they are
    started; the options and the messages for the user are not modelled. *)

From S2P Require Import Prelude Text ServiceData Env ControlConn Client.

Definition PERCENT : Z := 37.

(** ** Commands

    [None] is undefined behaviour: a quote that is not closed takes the scan beyond the end
    of the string. *)

(** The characters up to the end of a part, and the rest. *)
Fixpoint command_part (quoted : bool) (c str : text) : option (text * text) :=
  match c with
  | [] => if quoted then None else Some (str, [])
  | ch :: c' =>
      if quoted then command_part (negb (ch =? QUOTE)) c' (str ++ [ch])
      else if is_space ch then Some (str, c)
      else command_part (ch =? QUOTE) c' (str ++ [ch])
  end.

(** Every turn takes a part, so that the length is enough fuel. *)
Fixpoint split_loop (fuel : nat) (c : text) : option (list text) :=
  match fuel with
  | O => Some []
  | S fuel =>
      match skip_ws c with
      | [] => Some []
      | c =>
          '(part, c) ← command_part false c [];
          match c with
          | [] => Some [part]
          | _ => cons part <$> split_loop fuel c
          end
      end
  end.
Definition split_command (cmd : text) : option (list text) := split_loop (length cmd) cmd.

(** The character at a position of a string; behind the last is the terminating nul, and
    beyond that it is undefined. *)
Definition string_at (s : text) (i : nat) : option Z := (s ++ [0]) !! i.

Section command.
Context (name : text) (value : option text) (event : text).

(** A part of the command with its specifiers replaced; [i] is the position in the part. *)
Fixpoint expand_loop (i : nat) (part cmd_part_str : text) : option text :=
  match part with
  | [] => Some cmd_part_str
  | ch :: part =>
      if ch =? PERCENT then
        match part with
        | [] => Some (cmd_part_str ++ [PERCENT])
        | spec :: part =>
            if spec =? 110 then expand_loop (i + 2) part (cmd_part_str ++ name)
            else if spec =? 118 then expand_loop (i + 2) part (cmd_part_str ++ default [] value)
            else if spec =? 115 then expand_loop (i + 2) part (cmd_part_str ++ event)
            else
              let cmd_part_str := cmd_part_str ++ [PERCENT] in
              ch ← string_at cmd_part_str (i + 1);
              expand_loop (i + 2) part (cmd_part_str ++ [ch])
        end
      else if ch =? QUOTE then expand_loop (i + 1) part cmd_part_str
      else expand_loop (i + 1) part (cmd_part_str ++ [ch])
  end.
(** The arguments are C strings. *)
Definition command_line (command_parts : list text) : option (list text) :=
  mapM (λ part, c_str <$> expand_loop 0 part []) command_parts.
End command.

(** ** The session *)

(** The texts for the events, and the options. *)
Record settings := Settings {
  str_started : text;
  str_stopped : text;
  str_failed : text;
  str_set : text;
  str_unset : text;
  command_parts : list text;
  issue_init : bool;
  use_environ : bool;
  exit_after : bool
}.

(** The connection and the commands that were run; [None] is one whose arguments are
    undefined. *)
Record session := Session { conn_state : client; commands : list (option (list text)) }.
#[export] Instance eta_session : Eta session := λ m, Session (conn_state m) (commands m).

(** Exceptions: those of the client library, and the one of [unordered_map::at], which ends
    the program. *)
Variant ending (A : Type) := Value (a : A) | Client_exc (e : client_exc) | Out_of_range | No_fuel.
#[global] Arguments Value {A} a.
#[global] Arguments Client_exc {A} e.
#[global] Arguments Out_of_range {A}.
#[global] Arguments No_fuel {A}.

Definition mop (A : Type) : Type := session → session * ending A.
#[export] Instance mop_ret : MRet mop := λ A a m, (m, Value a).
#[export] Instance mop_bind : MBind mop := λ A B k f m,
  match f m with
  | (m, Value a) => k a m
  | (m, Client_exc e) => (m, Client_exc e)
  | (m, Out_of_range) => (m, Out_of_range)
  | (m, No_fuel) => (m, No_fuel)
  end.
Definition on_client {A} (o : op A) : mop A := λ m,
  let '(c, r) := o (conn_state m) in
  (m <| conn_state := c |>,
   match r with Returns a => Value a | Throws e => Client_exc e | Overrun => No_fuel end).
Definition no_fuel {A} : mop A := λ m, (m, No_fuel).
Definition out_of_range {A} : mop A := λ m, (m, Out_of_range).

Section monitor.
Context (opts : settings).

Definition issue_command (name : text) (value : option text) (event : text) : mop unit := λ m,
  (m <| commands ::= λ l, l ++ [command_line name value event (command_parts opts)] |>, Value tt).

(** *** Loading services *)

Definition issue_load_service (service_name : text) (find_only : bool) : op unit :=
  let srvname_len := Z.of_nat (length service_name) mod 2 ^ 16 in
  write_all_x ((if find_only then cp_cmd.FINDSERVICE else cp_cmd.LOADSERVICE)
               :: le_bytes 2 srvname_len ++ take (Z.to_nat srvname_len) service_name).

(** The handle and the code of the state; [None]: not found. *)
Definition check_load_reply : op (option (Z * Z)) :=
  code ← byte_at 0;
  if code =? cp_rply.SERVICERECORD then
    fill_buffer_to 6;;
    handle ← extract_int 2 4;
    state ← byte_at 1;
    consume 7;;
    mret (Some (handle, state))
  else if code =? cp_rply.NOSERVICE then mret None
  else throw Dinit_protocol_error.
Definition load_service (name : text) : op (option (Z * Z)) :=
  issue_load_service name false;;
  wait_for_reply;;
  check_load_reply.

(** *** The environment *)

Definition request_environ (proto_version : Z) : op unit :=
  if proto_version <? 5 then throw Cp_old_server_exception
  else
    write_all_x [cp_cmd.LISTENENV];;
    wait_for_reply;;
    code ← byte_at 0;
    if negb (code =? cp_rply.ACK) then throw Dinit_protocol_error else consume 1.

Definition get_allenv : op Z :=
  write_all_x [cp_cmd.GETALLENV; 0];;
  wait_for_reply;;
  code ← byte_at 0;
  if negb (code =? cp_rply.ALLENV) then throw Dinit_protocol_error
  else
    fill_to 9;;
    dsize ← extract_int 1 8;
    consume 9;;
    mret dsize.

(** Whether a command is run: for every variable if none was given. *)
Definition issue_var (envar : text) (varset : list text) : mop bool :=
  let name := name_part envar in
  let value := if has_eq envar then Some (drop (S (length name)) envar) else None in
  if bool_decide (varset = []) || bool_decide (name ∈ varset) then
    issue_command name value (match value with None => str_unset opts | Some _ => str_set opts end);;
    mret true
  else mret false.

(** A setting up to its terminating nul, and how much of the data is left. *)
Fixpoint read_var (fuel : nat) (dsz : Z) (enval : text) : op (text * Z) :=
  if dsz <=? 0 then throw Dinit_protocol_error
  else
    match fuel with
    | O => overrun
    | S fuel =>
        colen ← contiguous;
        let chlen := Z.min colen dsz in
        part ← front chlen;
        match list_find (λ b, b = 0) part with
        | Some (i, _) =>
            consume (Z.of_nat i + 1);;
            mret (enval ++ take i part, dsz - Z.of_nat i - 1)
        | None =>
            consume chlen;;
            let dsz := dsz - chlen in
            if dsz =? 0 then throw Dinit_protocol_error
            else
              len ← get_length;
              (if len =? 0 then fill_some else mret tt);;
              read_var fuel dsz (enval ++ part)
        end
    end.
Definition read_var_and_issue (dsz : Z) (varset : list text) : mop (Z * bool) :=
  n ← on_client to_come;
  '(enval, dsz) ← on_client (read_var (2 * n + 1) dsz []);
  issued ← issue_var enval varset;
  mret (dsz, issued).

(** *** Events

    The results are the exit codes of the program. *)

(** What is issued for an event, if anything. *)
Definition event_text (event : Z) : option text :=
  if event =? event_code service_event_t.STARTED then Some (str_started opts)
  else if event =? event_code service_event_t.STOPPED then Some (str_stopped opts)
  else if event =? event_code service_event_t.FAILEDSTART then Some (str_failed opts)
  else None.

(** One information packet of which two bytes are there: how much is left to consume, and
    whether a command was run. *)
Definition handle_packet (service_map : gmap Z text) (varset : list text) : mop (Z * bool) :=
  pktlen ← on_client (byte_at 1);
  on_client (fill_buffer_to pktlen);;
  code ← on_client (byte_at 0);
  if use_environ opts && (code =? cp_info.ENVEVENT) then
    envln ← on_client (extract_int 3 2);
    on_client (consume pktlen);;
    read_var_and_issue envln varset
  else if negb (use_environ opts) && (code =? cp_info.SERVICEEVENT) then
    ev_handle ← on_client (extract_int 2 4);
    event ← on_client (byte_at 6);
    match service_map !! ev_handle with
    | None => out_of_range
    | Some service_name =>
        match event_text event with
        | Some event_str => issue_command service_name None event_str;; mret (pktlen, true)
        | None => mret (pktlen, false)
        end
    end
  else mret (pktlen, false).

(** Every turn takes some bytes off the stream. *)
Fixpoint watch_loop (fuel : nat) (service_map : gmap Z text) (varset : list text) : mop Z :=
  r ← on_client (fill_to 2);
  if r <=? 0 then mret 1
  else
    code ← on_client (byte_at 0);
    if is_info code then
      match fuel with
      | O => no_fuel
      | S fuel =>
          '(remaining, issued) ← handle_packet service_map varset;
          if issued && exit_after opts then mret 0
          else
            on_client (consume remaining);;
            watch_loop fuel service_map varset
      end
    else mret 1.

(** The commands for the variables that are set already; whether the program ends. *)
Fixpoint initial_vars (fuel : nat) (envsz : Z) (varset : list text) : mop bool :=
  if envsz <=? 0 then mret false
  else
    match fuel with
    | O => no_fuel
    | S fuel =>
        '(envsz, issued) ← read_var_and_issue envsz varset;
        if issued && exit_after opts then mret true else initial_vars fuel envsz varset
    end.

(** The commands for the services that are started or stopped. *)
Fixpoint initial_states (states : list (text * Z)) : mop bool :=
  match states with
  | [] => mret false
  | (name, state) :: states =>
      let issue event_str :=
        issue_command name None event_str;;
        if exit_after opts then mret true else initial_states states in
      if state =? state_code service_state_t.STARTED then issue (str_started opts)
      else if state =? state_code service_state_t.STOPPED then issue (str_stopped opts)
      else initial_states states
  end.

(** The services with their handles and states; [None]: one cannot be loaded. *)
Fixpoint load_services (services : list text) (service_map : gmap Z text) (states : list (text * Z))
    : op (option (gmap Z text * list (text * Z))) :=
  match services with
  | [] => mret (Some (service_map, states))
  | name :: services =>
      r ← load_service name;
      match r with
      | None => mret None
      | Some (handle, state) =>
          let service_map := match service_map !! handle with
                             | Some _ => service_map
                             | None => <[handle := name]> service_map
                             end in
          load_services services service_map (states ++ [(name, state)])
      end
  end.

Definition watch (service_map : gmap Z text) (varset : list text) : mop Z :=
  n ← on_client to_come;
  watch_loop (S n) service_map varset.

(** From the check of the version on. *)
Definition monitor_main (services : list text) : mop Z :=
  protocol_ver ← on_client (check_protocol_version 1 5);
  if use_environ opts then
    on_client (request_environ protocol_ver);;
    ended ← (if issue_init opts then
               envsz ← on_client get_allenv;
               n ← on_client to_come;
               initial_vars (S n) envsz services
             else mret false);
    if (ended : bool) then mret 0 else watch ∅ services
  else
    loaded ← on_client (load_services services ∅ []);
    match loaded with
    | None => mret 1
    | Some (service_map, states) =>
        ended ← (if issue_init opts then initial_states states else mret false);
        if (ended : bool) then mret 0 else watch service_map []
    end.
End monitor.
