(* ===== verification/MonitorProps.v ===== *)
(** * The monitor: properties

    The commands that are run: how a command is made up from its text, and for which events
    one is run. *)

From S2P Require Import Prelude Text ServiceData Env ControlConn IoStream Client ClientLaws ClientProps Monitor.
From S2P Require CpBuffer.

Implicit Types (c : client) (m : session) (t u : list Z).

(** ** The text of a command

    A part of a command, in pieces. *)
Variant piece := Plain (ch : Z) | Quote | Percent_n | Percent_v | Percent_s.
Definition piece_text (p : piece) : text :=
  match p with
  | Plain ch => [ch]
  | Quote => [QUOTE]
  | Percent_n => [PERCENT; 110]
  | Percent_v => [PERCENT; 118]
  | Percent_s => [PERCENT; 115]
  end.
Definition piece_ok (p : piece) : Prop :=
  match p with Plain ch => ch ≠ PERCENT ∧ ch ≠ QUOTE | _ => True end.
Definition part_text (ps : list piece) : text := concat (piece_text <$> ps).

(** A text without space outside of quotes, whose quotes are closed. *)
Fixpoint closed (quoted : bool) (s : text) : bool :=
  match s with
  | [] => negb quoted
  | ch :: s =>
      if quoted then closed (negb (ch =? QUOTE)) s else negb (is_space ch) && closed (ch =? QUOTE) s
  end.

Lemma command_part_closed s : ∀ q str rest, closed q s = true →
  (rest = [] ∨ ∃ ch r, rest = ch :: r ∧ is_space ch = true) →
  command_part q (s ++ rest) str = Some (str ++ s, rest).
Proof.
  induction s as [|ch s IH]; intros q str rest Hc Hr; cbn [closed app] in *.
  - destruct q; [done|]. rewrite app_nil_r. destruct Hr as [->|(ch & r & -> & Hs)]; cbn; [done|by rewrite Hs].
  - cbn [command_part]. destruct q.
    + rewrite IH by done. by rewrite <- app_assoc.
    + apply andb_true_iff in Hc as [Hs Hc]. apply negb_true_iff in Hs. rewrite Hs, IH by done.
      by rewrite <- app_assoc.
Qed.

(** Parts, each with the space in front of it, and the space at the end. *)
Definition is_gap (s : text) : Prop := Forall (λ ch, is_space ch = true) s.
Definition spaced (parts : list (text * text)) (last : text) : text :=
  concat ((λ p, p.1 ++ p.2) <$> parts) ++ last.

Lemma skip_gap gap s : is_gap gap → skip_ws (gap ++ s) = skip_ws s.
Proof. induction 1 as [|ch gap H _ IH]; [done|]. cbn. by rewrite H. Qed.
Lemma skip_part s rest : s ≠ [] → closed false s = true → skip_ws (s ++ rest) = s ++ rest.
Proof.
  destruct s as [|ch s]; [done|]. intros _ H. cbn in *. apply andb_true_iff in H as [H _].
  apply negb_true_iff in H. by rewrite H.
Qed.

Definition part_ok (p : text * text) : Prop := is_gap p.1 ∧ p.2 ≠ [] ∧ closed false p.2 = true.

Lemma split_loop_spec parts : ∀ fuel last,
  Forall part_ok parts → Forall (λ p, p.1 ≠ []) (tail parts) → is_gap last →
  (length (spaced parts last) ≤ fuel)%nat →
  split_loop fuel (spaced parts last) = Some (snd <$> parts).
Proof.
  induction parts as [|[gap s] parts IH]; intros fuel last Hp Ht Hl Hf.
  - cbn [fmap list_fmap]. unfold spaced. cbn [fmap list_fmap concat app]. destruct fuel as [|fuel]; [done|].
    cbn [split_loop]. rewrite <- (app_nil_r last), skip_gap by done. done.
  - inversion Hp as [|?? (H1 & H2 & H3) Hp']; subst. cbn [fst snd tail] in *.
    assert (spaced ((gap, s) :: parts) last = gap ++ s ++ spaced parts last) as E
      by (unfold spaced; cbn; by rewrite <- !app_assoc).
    rewrite E in *. rewrite !length_app in Hf. destruct s as [|ch s0] eqn:Es; [done|]. rewrite <- Es in *.
    destruct fuel as [|fuel]; [rewrite Es in Hf; cbn in Hf; lia|].
    cbn [split_loop]. rewrite skip_gap, skip_part by done.
    assert (spaced parts last = [] ∨ ∃ ch r, spaced parts last = ch :: r ∧ is_space ch = true) as Hr.
    { unfold spaced. destruct parts as [|[gap2 s2] parts].
      - destruct last as [|x l]; [by left|]. inversion Hl; subst. right. by eexists _, _.
      - inversion Ht as [|?? Hg _]; subst. inversion Hp' as [|?? (Hg2 & _) _]; subst. cbn [fst] in *.
        destruct gap2 as [|x gap2]; [done|]. inversion Hg2; subst. right. by eexists _, _. }
    rewrite Es at 1. cbn [app]. change (ch :: s0 ++ spaced parts last) with ((ch :: s0) ++ spaced parts last).
    rewrite <- Es, (command_part_closed _ _ _ _ H3 Hr). cbn [mbind option_bind app].
    destruct (spaced parts last) as [|x r] eqn:Er.
    + destruct parts as [|[gap2 s2] parts]; [done|]. inversion Hp' as [|?? (_ & Hs2 & _) _]; subst.
      unfold spaced in Er. cbn in Er. rewrite <- !app_assoc in Er. apply app_eq_nil in Er as [_ Er].
      apply app_eq_nil in Er as [Er _]. done.
    + rewrite <- Er, IH; [done|done| |done|rewrite <- Er, Es in Hf; cbn in Hf; lia].
      by destruct parts; [|inversion Ht].
Qed.

Section command.
Context (name : text) (value : option text) (event : text).

Definition piece_value (p : piece) : text :=
  match p with
  | Plain ch => [ch]
  | Quote => []
  | Percent_n => name
  | Percent_v => default [] value
  | Percent_s => event
  end.

Lemma expand_pieces ps : ∀ i str, Forall piece_ok ps →
  expand_loop name value event i (part_text ps) str = Some (str ++ concat (piece_value <$> ps)).
Proof.
  induction ps as [|p ps IH]; intros i str Hp.
  { cbn. by rewrite app_nil_r. }
  inversion Hp as [|?? H1 H2]; subst. change (part_text (p :: ps)) with (piece_text p ++ part_text ps).
  cbn [fmap list_fmap concat]. rewrite app_assoc. destruct p as [ch| | | |]; cbn [piece_text piece_value app expand_loop].
  - destruct H1 as [Ha Hb]. rewrite (proj2 (Z.eqb_neq _ _) Ha), (proj2 (Z.eqb_neq _ _) Hb). by rewrite IH.
  - change (QUOTE =? PERCENT) with false. change (QUOTE =? QUOTE) with true. cbv iota.
    rewrite IH by done. by rewrite app_nil_r.
  - rewrite Z.eqb_refl. cbn [Z.eqb Pos.eqb]. by rewrite IH.
  - rewrite Z.eqb_refl. cbn [Z.eqb Pos.eqb]. by rewrite IH.
  - rewrite Z.eqb_refl. cbn [Z.eqb Pos.eqb]. by rewrite IH.
Qed.
End command.

(** A command is split at the space outside of quotes, and in each of its parts the
    specifiers for the name, the value and the event are replaced and quotes removed; space
    inside of quotes and the replacements are kept as they are (up to the first nul). *)
Theorem monitor_commands name value event (parts : list (text * list piece)) (last : text) :
  Forall (λ p, is_gap p.1 ∧ p.2 ≠ [] ∧ Forall piece_ok p.2 ∧ closed false (part_text p.2) = true) parts →
  Forall (λ p, p.1 ≠ []) (tail parts) → is_gap last →
  (split_command (spaced (prod_map id part_text <$> parts) last) ≫= command_line name value event)
  = Some ((λ p, c_str (concat (piece_value name value event <$> p.2))) <$> parts).
Proof.
  intros Hp Ht Hl. unfold split_command. rewrite split_loop_spec; [|..|done|done].
  - cbn [mbind option_bind]. unfold command_line. rewrite <- list_fmap_compose. apply mapM_Some.
    clear Ht. induction Hp as [|[gap ps] parts (_ & _ & H & _) _ IH]; cbn [fmap list_fmap]; [constructor|].
    constructor; [|done].
    change (c_str <$> expand_loop name value event 0 (part_text ps) []
            = Some (c_str (concat (piece_value name value event <$> ps)))). by rewrite expand_pieces.
  - clear Ht. induction Hp as [|[gap ps] parts (H1 & H2 & H3 & H4) _ IH]; cbn [fmap list_fmap]; [constructor|].
    constructor; [|done]. split_and!; [done| |done]. cbn [fst snd] in *.
    destruct ps as [|p ps]; [done|]. by destruct p.
  - destruct parts as [|p parts]; [constructor|]. cbn [tail fmap list_fmap] in *. clear Hp.
    induction Ht as [|[gap ps] parts H _ IH]; cbn [fmap list_fmap]; by constructor.
Qed.

(** ** Events *)

(** [mwp f Q m]: from [m] the operation [f] ends, without an exception, and [Q] holds. *)
Definition mwp {A} (f : mop A) (Q : A → session → Prop) m : Prop :=
  match f m with (m', Value a) => Q a m' | _ => False end.

Section triples.
Context {A B : Type}.
Lemma mwp_bind (f : mop A) (k : A → mop B) Q m : mwp f (λ a m, mwp (k a) Q m) m → mwp (f ≫= k) Q m.
Proof. unfold mwp, mbind, mop_bind. by destruct (f m) as [m' []]. Qed.
Lemma mwp_ret (a : A) (Q : A → session → Prop) m : Q a m → mwp (mret a) Q m.
Proof. done. Qed.
Lemma mwp_mono (f : mop A) (Q Q' : A → session → Prop) m :
  mwp f Q m → (∀ a m', Q a m' → Q' a m') → mwp f Q' m.
Proof. unfold mwp. destruct (f m) as [m' []]; auto. Qed.
Lemma mwp_client (o : op A) (Q : A → session → Prop) m :
  wp o (λ a c, Q a (m <| conn_state := c |>)) (λ _ _, False) (conn_state m) → mwp (on_client o) Q m.
Proof. unfold mwp, wp, on_client. by destruct (o (conn_state m)) as [c []]. Qed.
End triples.

(** The stream [t] behind the commands [l]; reads are not even interrupted. *)
Record live (n : Z) t (l : list (option (list text))) m : Prop := {
  l_holds : holds n t (conn_state m);
  l_steady : steady (sys (conn_state m));
  l_commands : commands m = l
}.
Lemma live_le n k t l m : live n t l m → k ≤ n → live k t l m.
Proof. intros [H1 H2 H3] H. split; [by apply (holds_le n)|done..]. Qed.
Lemma live_next n t l m k u c : live n t l m → holds k u c → same (conn_state m) c →
  live k u l (m <| conn_state := c |>).
Proof. intros [H1 H2 H3] Hh [[_ [_ Hs]] _]. split; [done|by eapply steady_suffix|done]. Qed.
Lemma live_consume n t l m k : live n t l m → 0 ≤ k ≤ n →
  live (n - k) (drop (Z.to_nat k) t) l
    (m <| conn_state := (conn_state m) <| rbuffer ::= CpBuffer.consume RBUF_SIZE k |> |>).
Proof. intros [H1 H2 H3] Hk. split; [by apply holds_consume|done..]. Qed.

(** Reading without interruptions, also at the end of the stream. *)
Lemma fill_to_end n t c : ready t c → steady (sys c) → n ≤ RBUF_SIZE →
  wp (fill_to n)
    (λ r c', same c c' ∧ ((r = 1 ∧ holds n t c') ∨ (r = 0 ∧ ready t c' ∧ Z.of_nat (length t) < n)))
    (λ _ _, False) c.
Proof.
  intros [Hb Hq Hp Hl] Hs Hn. unfold wp, fill_to, CpBuffer.fill_to.
  destruct (fill_to_loop_spec (Z.to_nat n) n (sys c) (rbuffer c) Hb Hn) as (s' & r & b' & -> & F & Hc); [lia|].
  assert (bytes b' ++ rest s' = t) as Et by (rewrite <- Hp; apply F).
  split; [split; [apply F|done]|].
  destruct Hc as [(-> & H)|[(-> & H1 & H2)|(_ & _ & _ & e & He)]]; [left|right|by apply Hs in He].
  - split; [done|]. split; [apply F|by apply (f_quiet _ _ _ _ F)|done..].
  - split; [done|]. split.
    + split; [apply F|by apply (f_quiet _ _ _ _ F)|done|]. rsimpl. apply (CpBuffer.ok_len _ _ (f_buf _ _ _ _ F)).
    + rewrite <- Et, H1, app_nil_r, (CpBuffer.length_contents _ _ (f_buf _ _ _ _ F)). done.
Qed.

Lemma live_fill_buffer n k t l m : live k t l m → 0 ≤ k → n ≤ RBUF_SIZE → n ≤ Z.of_nat (length t) →
  mwp (on_client (fill_buffer_to n)) (λ _ m', live n t l m') m.
Proof.
  intros Hl Hk Hn Ht. apply mwp_client.
  eapply wp_mono; [by apply (fill_buffer_to_wp n t _ (holds_le _ 0 _ _ (l_holds _ _ _ _ Hl) Hk) Hn)|..]; cbn beta.
  - intros _ c [H S]. by eapply live_next.
  - intros e c [_ H]. lia.
Qed.
Lemma live_get {A} (f : client → A) (Q : A → session → Prop) m :
  Q (f (conn_state m)) m → mwp (on_client (get f)) Q m.
Proof. intros H. apply mwp_client. apply wp_get. by destruct m. Qed.

(** *** Reading a variable *)

Definition var_fuel (v : text) c : nat :=
  2 * length v + (if CpBuffer.length_ (rbuffer c) =? 0 then 2 else 1).

Lemma read_var_wp fuel : ∀ v1 v2 extra u c,
  no_nul v2 → 0 ≤ extra → (var_fuel v2 c ≤ fuel)%nat → ready (v2 ++ 0 :: u) c →
  wp (read_var fuel (Z.of_nat (length v2) + 1 + extra) v1)
    (λ a c', a = (v1 ++ v2, extra) ∧ ready u c' ∧ same c c') (λ _ _, False) c.
Proof.
  induction fuel as [|fuel IH]; intros v1 v2 extra u c Hv Hx Hf Hr.
  { unfold var_fuel in Hf. destruct (_ =? 0) in Hf; lia. }
  cbn [read_var]. rewrite (proj2 (Z.leb_gt _ _)) by lia. repeat wstep.
  pose proof (CpBuffer.spans _ rbuf_size_ok (rbuffer c) (h_buf _ _ _ Hr)) as (HL1 & _ & _ & HL2). cbv zeta in *.
  set (L := CpBuffer.get_contiguous_length _ _ _) in *. set (k := Z.min L (Z.of_nat (length v2) + 1 + extra)).
  rewrite (front_take _ _ _ k Hr) by lia.
  assert (holds L (v2 ++ 0 :: u) c) as HL by (split; [apply Hr..|lia]).
  destruct (decide (Z.to_nat k ≤ length v2)%nat) as [Hk|Hk].
  - rewrite take_app_le, find_none by (done || by apply Forall_take). repeat wstep.
    pose proof (holds_consume _ _ _ k HL ltac:(lia)) as H1. rewrite drop_app_le in H1 by lia.
    set (v' := drop (Z.to_nat k) v2) in *. rewrite (proj2 (Z.eqb_neq _ 0)) by lia.
    assert (length v' = length v2 - Z.to_nat k)%nat as Hv' by (unfold v'; by rewrite length_drop).
    replace (Z.of_nat (length v2) + 1 + extra - k) with (Z.of_nat (length v') + 1 + extra) by lia.
    apply (refill_wp _ (v' ++ 0 :: u)); [by destruct v'|by apply (holds_le (L - k) 0); [done|lia]|].
    intros c1 H2 S2. eapply wp_mono; [apply (IH _ v' extra u c1)| |done]; cbn beta.
    + by apply Forall_drop.
    + done.
    + unfold var_fuel in *. pose proof (h_length _ _ _ H2). rewrite (proj2 (Z.eqb_neq _ 0)) by lia.
      destruct (Z.eqb_spec (CpBuffer.length_ (rbuffer c)) 0); lia.
    + apply (holds_le 1); [done|lia].
    + intros a c2 (-> & H3 & S3). unfold v'. rewrite <- app_assoc, take_drop. split_and!; [done..|by transitivity c1].
  - rewrite take_app_ge by lia. destruct (Z.to_nat k - length v2)%nat as [|j] eqn:Ej; [lia|].
    cbn [take]. rewrite find_end by done. repeat wstep. rewrite take_app_length.
    pose proof (holds_consume _ _ _ (Z.of_nat (length v2) + 1) HL ltac:(lia)) as H1.
    replace (Z.to_nat (Z.of_nat (length v2) + 1)) with (length v2 + 1)%nat in H1 by lia.
    rewrite <- drop_drop, drop_app_length in H1. cbn [drop] in H1. rewrite drop_0 in H1.
    split_and!; [f_equal; lia|apply (holds_le _ 0 _ _ H1); lia|done].
Qed.

(** *** Packets and the commands for them *)

Section watching.
Context (opts : settings) (service_map : gmap Z text) (varset : list text).

(** The command for a variable, and for an event of a service. *)
Definition var_commands (envar : text) : list (option (list text)) :=
  let name := name_part envar in
  if bool_decide (varset = []) || bool_decide (name ∈ varset) then
    [if has_eq envar
     then command_line name (Some (drop (S (length name)) envar)) (str_set opts) (command_parts opts)
     else command_line name None (str_unset opts) (command_parts opts)]
  else [].
Definition event_commands (name : text) (ev : service_event_t) : list (option (list text)) :=
  match event_text opts (event_code ev) with
  | Some event_str => [command_line name None event_str (command_parts opts)]
  | None => []
  end.

(** What the server sends to a client that listens: the two packets of an event, and the packet
    of a change of the environment. *)
Variant notice :=
  | Service_notice (key : Z) (name : text) (ev : service_event_t) (st : service_status)
  | Env_notice (envar : text) (overridden : bool).
Definition notice_bytes (n : notice) : list Z :=
  match n with
  | Service_notice key _ ev st => event_packet5 key ev st ++ event_packet key ev st
  | Env_notice envar overridden => environ_packet envar overridden
  end.
Definition notice_ok (n : notice) : Prop :=
  match n with
  | Service_notice key name _ _ =>
      use_environ opts = false ∧ 0 ≤ key < 2 ^ 32 ∧ service_map !! key = Some name
  | Env_notice envar _ => use_environ opts = true ∧ no_nul envar ∧ Z.of_nat (length envar) + 1 < 2 ^ 16
  end.
Definition notice_commands (n : notice) : list (option (list text)) :=
  match n with
  | Service_notice _ name ev _ => event_commands name ev
  | Env_notice envar _ => var_commands envar
  end.

(** A packet at the front of the stream, its commands, and what is left of it. *)
Definition handles (b : list Z) (cmds : list (option (list text))) : Prop :=
  ∀ t l m, live 2 (b ++ t) l m →
    mwp (handle_packet opts service_map varset)
      (λ r m', r.2 = negb (bool_decide (cmds = []))
         ∧ ∃ u, r.1 = Z.of_nat (length u) ∧ live r.1 (u ++ t) (l ++ cmds) m') m.

Lemma pktlen_value b t l m : info_packet b → live 2 (b ++ t) l m →
  CpBuffer.at_ RBUF_SIZE 1 (rbuffer (conn_state m)) = Z.of_nat (length b).
Proof.
  intros Hb Hl. rewrite (holds_at _ _ _ 1 0 (l_holds _ _ _ _ Hl)) by lia. pose proof (info_packet_length b Hb).
  rewrite app_nth1 by (change (Z.to_nat 1) with 1%nat; lia). destruct Hb as (code & body & E & _). by rewrite E at 1.
Qed.
Lemma live_head n t l m : live n t l m → 1 ≤ n →
  CpBuffer.at_ RBUF_SIZE 0 (rbuffer (conn_state m)) = head_byte t.
Proof. intros [H _ _] Hn. apply holds_head. by apply (holds_le n). Qed.

(** The handling of a packet up to the point where it is in the buffer. *)
Lemma handle_start b t l m Q : info_packet b → live 2 (b ++ t) l m →
  let pktlen := Z.of_nat (length b) in
  (∀ m', live pktlen (b ++ t) l m' →
   mwp (if use_environ opts && (head_byte b =? cp_info.ENVEVENT) then
          envln ← on_client (extract_int 3 2);
          on_client (Client.consume pktlen);;
          read_var_and_issue opts envln varset
        else if negb (use_environ opts) && (head_byte b =? cp_info.SERVICEEVENT) then
          ev_handle ← on_client (extract_int 2 4);
          event ← on_client (Client.byte_at 6);
          match service_map !! ev_handle with
          | None => out_of_range
          | Some service_name =>
              match event_text opts event with
              | Some event_str => issue_command opts service_name None event_str;; mret (pktlen, true)
              | None => mret (pktlen, false)
              end
          end
        else mret (pktlen, false)) Q m') →
  mwp (handle_packet opts service_map varset) Q m.
Proof.
  intros Hb Hl pktlen Hk. unfold handle_packet. apply mwp_bind, live_get. cbv beta.
  rewrite (pktlen_value b t l m Hb Hl). fold pktlen. apply mwp_bind.
  pose proof (info_packet_length b Hb) as Hlen.
  eapply mwp_mono; [apply (live_fill_buffer pktlen _ _ _ _ Hl); [lia| |unfold pktlen; rewrite length_app; lia]|].
  - destruct Hb as (_ & _ & _ & _ & Hb). unfold RBUF_SIZE, pktlen. lia.
  - intros [] m' H. apply mwp_bind, live_get. cbv beta. rewrite (live_head _ _ _ _ H) by lia.
    replace (head_byte (b ++ t)) with (head_byte b); [by apply Hk|].
    destruct Hb as (code & body & -> & _). done.
Qed.

Lemma live_int n b t l m i k j w : live n (b ++ t) l m → (i + k ≤ length b)%nat → Z.of_nat (length b) ≤ n →
  j = Z.of_nat i → w = Z.of_nat k →
  le_value (CpBuffer.extract RBUF_SIZE j w (rbuffer (conn_state m))) = int_in i k b.
Proof.
  intros [H _ _] Hk Hn -> ->. destruct (holds_extract _ _ _ (Z.of_nat i) (Z.of_nat k) H) as [-> _]; [lia..|].
  rewrite !Nat2Z.id, drop_app_le, take_app_le by (rewrite ?length_drop; lia). done.
Qed.
Lemma mwp_int (i k : Z) (Q : Z → session → Prop) m :
  Q (le_value (CpBuffer.extract RBUF_SIZE i k (rbuffer (conn_state m)))) m → mwp (on_client (extract_int i k)) Q m.
Proof. intros H. apply mwp_client. repeat wstep. by destruct m. Qed.

Lemma handle_event5 key ev st : use_environ opts = false → handles (event_packet5 key ev st) [].
Proof.
  intros Hu t l m Hl. destruct (event_packets_ok key ev st) as ((Hp & _) & _).
  apply (handle_start _ t l m _ Hp Hl). cbv zeta. intros m' H. rewrite Hu. cbn [andb negb].
  change (head_byte (event_packet5 key ev st) =? cp_info.SERVICEEVENT) with false. cbv iota.
  apply mwp_ret. split; [done|]. exists (event_packet5 key ev st). rewrite app_nil_r. done.
Qed.

Lemma handle_event key name ev st : use_environ opts = false → 0 ≤ key < 2 ^ 32 →
  service_map !! key = Some name → handles (event_packet key ev st) (event_commands name ev).
Proof.
  intros Hu Hk Hm t l m Hl. destruct (event_packets_ok key ev st) as (_ & Hp & _).
  set (b := event_packet key ev st) in *.
  assert (length b = 17%nat) as Hlen by (unfold b, event_packet; rewrite !length_app, length_le_bytes, length_status; done).
  apply (handle_start _ t l m _ Hp Hl). cbv zeta. intros m' H. rewrite Hu. cbn [andb negb].
  change (head_byte b =? cp_info.SERVICEEVENT) with true. cbv iota.
  apply mwp_bind, mwp_int. rewrite (live_int _ b t l m' 2 4 2 4 H) by (done || lia).
  assert (int_in 2 4 b = key) as ->
    by (transitivity (le_value (le_bytes 4 key)); [done|by rewrite le_value_small by lia]).
  apply mwp_bind, live_get. cbv beta. rewrite (holds_at _ _ _ 6 0 (l_holds _ _ _ _ H)) by lia.
  assert (nth (Z.to_nat 6) (b ++ t) 0 = event_code ev) as -> by done. rewrite Hm.
  unfold event_commands. destruct (event_text opts (event_code ev)) as [str|].
  - apply mwp_bind. unfold mwp at 1, issue_command. apply mwp_ret. split; [done|]. exists b. split; [done|].
    destruct H as [H1 H2 H3]. split; [done|done|]. rsimpl. by rewrite H3.
  - apply mwp_ret. split; [done|]. exists b. by rewrite app_nil_r.
Qed.

Lemma issue_var_spec envar m :
  mwp (issue_var opts envar varset)
    (λ r m', r = negb (bool_decide (var_commands envar = [])) ∧ conn_state m' = conn_state m
       ∧ commands m' = commands m ++ var_commands envar) m.
Proof.
  unfold issue_var, var_commands. cbv zeta. destruct (bool_decide (varset = []) || _).
  - apply mwp_bind. unfold mwp at 1, issue_command. apply mwp_ret. split; [done|]. split; [done|].
    by destruct (has_eq envar).
  - apply mwp_ret. by rewrite app_nil_r.
Qed.

Lemma handle_env envar overridden : use_environ opts = true → no_nul envar → Z.of_nat (length envar) + 1 < 2 ^ 16 →
  handles (environ_packet envar overridden) (var_commands envar).
Proof.
  intros Hu Hv Hlen t l m Hl. unfold environ_packet in Hl. cbv zeta in Hl.
  rewrite Z.mod_small in Hl by lia. set (ln := Z.of_nat (length envar) + 1) in *.
  rewrite take_ge in Hl by (rewrite length_app; cbn; lia).
  set (b := [cp_info.ENVEVENT; 5; b2z overridden] ++ le_bytes 2 ln).
  assert (([cp_info.ENVEVENT; 5; b2z overridden] ++ le_bytes 2 ln ++ envar ++ [0]) ++ t = b ++ envar ++ 0 :: t) as E
    by (unfold b; cbn [app]; rewrite <- !app_assoc; done).
  rewrite E in Hl. assert (info_packet b) as Hp by (by eexists _, _).
  apply (handle_start b _ l m _ Hp Hl). cbv zeta. intros m' H. rewrite Hu. cbn [andb negb].
  change (head_byte b =? cp_info.ENVEVENT) with true. cbv iota.
  apply mwp_bind, mwp_int. rewrite (live_int _ b _ l m' 3 2 3 2 H) by (done || cbn; lia).
  assert (int_in 3 2 b = ln) as ->
    by (transitivity (le_value (le_bytes 2 ln)); [done|by rewrite le_value_small by lia]).
  apply mwp_bind, mwp_client, wp_modify.
  pose proof (live_consume _ _ _ _ (Z.of_nat (length b)) H ltac:(lia)) as H1.
  rewrite Nat2Z.id, drop_app_length, Z.sub_diag in H1. set (m1 := m' <| conn_state := _ |>) in *.
  unfold read_var_and_issue. apply mwp_bind, live_get. cbv beta. apply mwp_bind, mwp_client.
  destruct H1 as [Hh Hs Hc]. replace ln with (Z.of_nat (length envar) + 1 + 0) by lia.
  eapply wp_mono; [apply (read_var_wp _ [] envar 0 t _ Hv ltac:(lia))|..]; cbn beta; [|exact Hh| |done].
  - rewrite (h_pending _ _ _ Hh), length_app. unfold var_fuel. cbn [length]. destruct (_ =? 0); lia.
  - intros a c2 (-> & H2 & S2). cbn [app]. apply mwp_bind. eapply mwp_mono; [apply issue_var_spec|].
    intros r m2 (-> & E2 & E3). apply mwp_ret. cbn [fst snd]. split; [done|]. exists []. split; [done|].
    split; [rewrite E2; apply H2|rewrite E2; destruct S2 as [(_ & _ & Hsuf) _]; by eapply steady_suffix|].
    rewrite E3. cbn. by rewrite <- Hc.
Qed.

(** *** The loop *)

Definition packet_ok (p : list Z * list (option (list text))) : Prop :=
  (2 ≤ length p.1)%nat ∧ is_info (head_byte p.1) = true ∧ handles p.1 p.2 ∧ (length p.2 ≤ 1)%nat.
Definition stream (packets : list (list Z * list (option (list text)))) : list Z := concat (fst <$> packets).
Definition to_run (packets : list (list Z * list (option (list text)))) : list (option (list text)) :=
  let cmds := concat (snd <$> packets) in if exit_after opts then take 1 cmds else cmds.
Definition exit_code (packets : list (list Z * list (option (list text)))) : Z :=
  if exit_after opts && negb (bool_decide (concat (snd <$> packets) = [])) then 0 else 1.

(** Where the watch ends: less than a packet, or a packet that is none of information. *)
Definition no_packet t : Prop := (length t < 2)%nat ∨ is_info (head_byte t) = false.

Lemma consume_packet u t l m (k : mop Z) Q : live (Z.of_nat (length u)) (u ++ t) l m →
  (∀ m', live 0 t l m' → mwp k Q m') →
  mwp (on_client (Client.consume (Z.of_nat (length u)));; k) Q m.
Proof.
  intros H Hk. apply mwp_bind, mwp_client, wp_modify.
  pose proof (live_consume _ _ _ _ (Z.of_nat (length u)) H ltac:(lia)) as H1.
  rewrite Nat2Z.id, drop_app_length, Z.sub_diag in H1. by apply Hk.
Qed.

Lemma watch_loop_spec packets : ∀ fuel t l m,
  Forall packet_ok packets → no_packet t → (length packets < fuel)%nat → live 0 (stream packets ++ t) l m →
  mwp (watch_loop opts fuel service_map varset)
    (λ r m', r = exit_code packets ∧ commands m' = l ++ to_run packets) m.
Proof.
  induction packets as [|[b cmds] packets IH]; intros fuel t l m Hp Ht Hf Hl;
    (destruct fuel as [|fuel]; [cbn in Hf; lia|]); cbn [watch_loop]; apply mwp_bind, mwp_client;
    (eapply wp_mono; [apply (fill_to_end 2 _ _ (l_holds _ _ _ _ Hl) (l_steady _ _ _ _ Hl)); done| |done]); cbn beta;
    intros r c [S [(-> & H)|(-> & H & Hlen)]]; pose proof (live_next _ _ _ _ _ _ c Hl H S) as Hl1.
  1,2: assert (exit_code [] = 1 ∧ to_run [] = []) as [-> ->]
      by (unfold exit_code, to_run; cbn; by destruct (exit_after opts)); rewrite app_nil_r.
  - change (1 <=? 0) with false. cbv iota. apply mwp_bind, live_get. cbv beta.
    rewrite (live_head _ _ _ _ Hl1) by lia. cbn [stream fmap list_fmap concat app].
    destruct (holds_length _ _ _ H) as [[HA HB] _]. destruct Ht as [Ht|Ht]; [cbn in HB; lia|].
    unfold stream. cbn [fmap list_fmap concat app]. rewrite Ht. apply mwp_ret. split; [done|]. apply Hl1.
  - change (0 <=? 0) with true. cbv iota. apply mwp_ret. split; [done|]. apply Hl1.
  - change (1 <=? 0) with false. cbv iota. inversion Hp as [|?? (P1 & P2 & P3 & P4) Hps]; subst. cbn [fst snd] in *.
    assert (stream ((b, cmds) :: packets) ++ t = b ++ stream packets ++ t) as E
      by (unfold stream; cbn; by rewrite <- app_assoc). rewrite E in *.
    apply mwp_bind, live_get. cbv beta. rewrite (live_head _ _ _ _ Hl1) by lia.
    replace (head_byte (b ++ stream packets ++ t)) with (head_byte b) by (by destruct b; [cbn in P1; lia|]).
    rewrite P2. apply mwp_bind. eapply mwp_mono; [apply (P3 _ _ _ Hl1)|].
    intros [k issued] m1. cbn [fst snd]. intros (-> & u & -> & Hl2).
    assert (cmds = [] ∨ ∃ x, cmds = [x]) as Hcmds
      by (destruct cmds as [|x [|]]; [by left|right; by eexists|cbn in P4; lia]).
    unfold exit_code, to_run. cbn [fmap list_fmap concat snd].
    destruct (exit_after opts) eqn:Ex; [destruct Hcmds as [->|[x ->]]|].
    + cbn [bool_decide negb andb app] in *. rewrite bool_decide_eq_true_2 by done. cbn [negb andb].
      rewrite app_nil_r in Hl2. apply (consume_packet _ _ _ _ _ _ Hl2). intros m2 Hl3.
      eapply mwp_mono; [apply (IH fuel t l m2 Hps Ht ltac:(cbn in Hf; lia) Hl3)|].
      intros r m3. unfold exit_code, to_run. by rewrite Ex.
    + rewrite !bool_decide_eq_false_2 by done. cbn [negb andb]. apply mwp_ret. split; [done|]. apply Hl2.
    + rewrite andb_false_r. cbn [andb]. apply (consume_packet _ _ _ _ _ _ Hl2). intros m2 Hl3.
      eapply mwp_mono; [apply (IH fuel t _ m2 Hps Ht ltac:(cbn in Hf; lia) Hl3)|].
      intros r m3. unfold exit_code, to_run. rewrite Ex. cbn [andb]. by rewrite <- app_assoc.
  - exfalso. inversion Hp as [|?? (P1 & _) _]; subst. unfold stream in Hlen. cbn in P1, Hlen.
    rewrite !length_app in Hlen. lia.
Qed.

(** The packets of a notice. *)
Definition notice_packets (n : notice) : list (list Z * list (option (list text))) :=
  match n with
  | Service_notice key name ev st => [(event_packet5 key ev st, []); (event_packet key ev st, event_commands name ev)]
  | Env_notice envar overridden => [(environ_packet envar overridden, var_commands envar)]
  end.

Lemma notice_packets_ok n : notice_ok n → Forall packet_ok (notice_packets n).
Proof.
  destruct n as [key name ev st|envar overridden]; cbn [notice_ok notice_packets].
  - intros (Hu & Hk & Hm). constructor; [|constructor; [|constructor]]; split_and!; cbn [fst snd].
    1,5: unfold event_packet5, event_packet; cbn; lia.
    1,4: done.
    + by apply handle_event5.
    + cbn. lia.
    + by apply handle_event.
    + unfold event_commands. destruct (event_text _ _); cbn; lia.
  - intros (Hu & Hv & Hl). constructor; [|constructor]; split_and!; cbn [fst snd].
    + unfold environ_packet. cbn. lia.
    + done.
    + by apply handle_env.
    + unfold var_commands. cbv zeta. destruct (_ || _); cbn; lia.
Qed.

Lemma notices_packets ns :
  concat (fst <$> concat (notice_packets <$> ns)) = concat (notice_bytes <$> ns)
  ∧ concat (snd <$> concat (notice_packets <$> ns)) = concat (notice_commands <$> ns).
Proof.
  induction ns as [|n ns [IH1 IH2]]; [done|]. cbn [fmap list_fmap concat].
  rewrite !fmap_app, !concat_app, IH1, IH2.
  destruct n; cbn; by rewrite ?app_nil_r, <- ?app_assoc.
Qed.
End watching.

Lemma watch_notices opts service_map varset ns t m :
  Forall (notice_ok opts service_map) ns → no_packet t →
  ready (concat (notice_bytes <$> ns) ++ t) (conn_state m) → steady (sys (conn_state m)) →
  let cmds := concat (notice_commands opts varset <$> ns) in
  ∃ m', watch opts service_map varset m
        = (m', Value (if exit_after opts && negb (bool_decide (cmds = [])) then 0 else 1))
    ∧ commands m' = commands m ++ (if exit_after opts then take 1 cmds else cmds).
Proof.
  intros Hn Ht Hr Hs cmds. set (packets := concat (notice_packets opts varset <$> ns)).
  destruct (notices_packets opts varset ns) as [E1 E2].
  assert (concat (notice_bytes <$> ns) = stream packets) as E3 by (symmetry; exact E1).
  assert (Forall (packet_ok opts service_map varset) packets) as Hp.
  { unfold packets. apply Forall_concat, list.Forall_fmap. eapply list.Forall_impl; [exact Hn|].
    intros n. apply notice_packets_ok. }
  assert (length packets ≤ length (stream packets))%nat as Hlen.
  { clearbody packets. clear -Hp. induction Hp as [|[b c] ps (H & _) _ IH]; [done|].
    unfold stream in *. cbn in *. rewrite length_app. lia. }
  assert (mwp (watch opts service_map varset)
    (λ r m', r = exit_code opts packets ∧ commands m' = commands m ++ to_run opts packets) m) as H.
  { unfold watch. apply mwp_bind, live_get. cbv beta. apply (watch_loop_spec _ _ _ packets _ t); [done..| |].
    - rewrite (h_pending _ _ _ Hr), E3, length_app. lia.
    - split; [by rewrite <- E3|done..]. }
  unfold mwp in H. destruct (watch _ _ _ m) as [m' [r|e| |]]; [|done..]. destruct H as [-> H].
  unfold exit_code, to_run in *. unfold packets in *. rewrite E2 in *. by exists m'.
Qed.

(** What is to be run for a notice, from the texts of the options and the pieces of the
    command: a command for a start, a stop or a failure to start of a service, and none for
    its other events; and a command for each variable that is watched, all of them if none is
    named. *)
Definition command_for (parts : list (list piece)) name value event : option (list text) :=
  Some ((λ ps, c_str (concat (piece_value name value event <$> ps))) <$> parts).
Definition commands_for (opts : settings) (varset : list text) (parts : list (list piece)) (n : notice)
    : list (option (list text)) :=
  match n with
  | Service_notice _ name ev _ =>
      match ev with
      | service_event_t.STARTED => [command_for parts name None (str_started opts)]
      | service_event_t.STOPPED => [command_for parts name None (str_stopped opts)]
      | service_event_t.FAILEDSTART => [command_for parts name None (str_failed opts)]
      | service_event_t.STARTCANCELLED | service_event_t.STOPCANCELLED => []
      end
  | Env_notice envar _ =>
      let name := name_part envar in
      if bool_decide (varset = [] ∨ name ∈ varset) then
        [if has_eq envar
         then command_for parts name (Some (drop (S (length name)) envar)) (str_set opts)
         else command_for parts name None (str_unset opts)]
      else []
  end.

Lemma command_line_pieces name value event parts : Forall (Forall piece_ok) parts →
  command_line name value event (part_text <$> parts) = command_for parts name value event.
Proof.
  intros Hp. unfold command_line, command_for. apply mapM_Some.
  induction Hp as [|ps parts H _ IH]; cbn [fmap list_fmap]; constructor; [|exact IH].
  change (c_str <$> expand_loop name value event 0 (part_text ps) []
          = Some (c_str (concat (piece_value name value event <$> ps)))). by rewrite expand_pieces.
Qed.
Lemma notice_commands_for opts varset parts n :
  command_parts opts = part_text <$> parts → Forall (Forall piece_ok) parts →
  notice_commands opts varset n = commands_for opts varset parts n.
Proof.
  intros E Hp. destruct n as [key name ev st|envar overridden]; cbn [notice_commands commands_for].
  - unfold event_commands. rewrite E. by destruct ev; cbn; rewrite ?command_line_pieces.
  - unfold var_commands. rewrite E, <- bool_decide_or. destruct (bool_decide _); [|done].
    by destruct (has_eq envar); rewrite command_line_pieces.
Qed.

(** C36: If no read is interrupted (an interruption ends the monitor), the monitor runs a
    command for every start, stop and failed start of a watched service that the server
    tells of, and none for the other events, or for every change of a watched variable: in
    order and once, although there are two packets for an event of a service; with the
    option to exit only the first. In the parts of the command the specifiers %n, %v and %s
    are replaced by the name, the value and the configured text for that event, and quotes
    are removed. Services are told of if the monitor watches services, variables (shorter
    than 2^16) if it watches the environment. It ends when the stream ends or with something
    other than an information packet. *)
Theorem monitor_reports_events opts parts service_map varset ns t m :
  command_parts opts = part_text <$> parts → Forall (Forall piece_ok) parts →
  Forall (notice_ok opts service_map) ns → no_packet t →
  ready (concat (notice_bytes <$> ns) ++ t) (conn_state m) → steady (sys (conn_state m)) →
  let cmds := concat (commands_for opts varset parts <$> ns) in
  ∃ m', watch opts service_map varset m
        = (m', Value (if exit_after opts && negb (bool_decide (cmds = [])) then 0 else 1))
    ∧ commands m' = commands m ++ (if exit_after opts then take 1 cmds else cmds).
Proof.
  intros E Hp Hn Ht Hr Hs. cbv zeta.
  replace (commands_for opts varset parts <$> ns) with (notice_commands opts varset <$> ns).
  - by apply watch_notices with (t := t).
  - apply list_fmap_ext. intros i n _. by apply notice_commands_for.
Qed.

(** ** Loading a service *)

(** The reply of the server to a request for a service. *)
Definition record_packet (handle state target : Z) : list Z :=
  [cp_rply.SERVICERECORD; state] ++ le_bytes 4 handle ++ [target].

Lemma fill_enough n c : n ≤ CpBuffer.length_ (rbuffer c) → fill_buffer_to n c = (c, Returns tt).
Proof.
  intros H. assert (fill_to n c = (c, Returns 1)) as E.
  { unfold fill_to, CpBuffer.fill_to. destruct (Z.to_nat n); cbn [CpBuffer.fill_to_loop];
      rewrite (proj2 (Z.ltb_ge _ _)) by lia; by destruct c. }
  unfold fill_buffer_to. destruct (reads (sys c)); cbn [fill_buffer_loop]; unfold mbind, op_bind; by rewrite E.
Qed.

(** If the whole reply is in the buffer, the handle and the state are those that were sent. *)
Lemma check_load_reply_wp handle state target u c :
  0 ≤ handle < 2 ^ 32 → holds 7 (record_packet handle state target ++ u) c →
  wp check_load_reply (λ r c', r = Some (handle, state) ∧ ready u c' ∧ same c c') (λ _ _, False) c.
Proof.
  intros Hh H. unfold check_load_reply. repeat wstep.
  rewrite (holds_at _ _ _ 0 0 H) by lia. change (nth _ _ 0 =? cp_rply.SERVICERECORD) with true. cbv iota. wstep.
  unfold wp at 1. rewrite fill_enough by (pose proof (h_length _ _ _ H); lia). repeat wstep.
  rewrite (holds_int _ _ _ 2 4 4 handle H) by (done || lia). rewrite (holds_at _ _ _ 1 0 H) by lia.
  split_and!; [done| |done]. apply (holds_consume _ _ _ 7 H). lia.
Qed.

(** ** Concrete sessions *)

Definition status_started : service_status :=
  Service_status service_state_t.STARTED service_state_t.STARTED (-1) false false false true
    stopped_reason_t.NORMAL (Run_proc_err 0 0) proc_status_empty.
Definition options (env exit : bool) : settings :=
  Settings (chars "started") (chars "stopped") (chars "failed") (chars "set") (chars "unset")
    [chars "notify"; chars "%n"; chars "%s"; chars "%v"] false env exit.
Definition session_on (t : list Z) (rs : list io_result) : session := Session (connection t rs []) [].

(** The command [ notify "a b" %n: %s]. *)
Definition command_text : text :=
  chars " notify " ++ [QUOTE] ++ chars "a b" ++ [QUOTE] ++ chars " %n: %s".
Lemma monitor_commands_witness :
  (split_command command_text ≫= command_line (chars "tty") None (chars "started"))
  = Some [chars "notify"; chars "a b"; chars "tty:"; chars "started"].
Proof.
  pose proof (monitor_commands (chars "tty") None (chars "started")
    [([SPACE], Plain <$> chars "notify"); ([SPACE], [Quote; Plain 97; Plain SPACE; Plain 98; Quote]);
     ([SPACE], [Percent_n; Plain COLON]); ([SPACE], [Percent_s])] []) as H.
  apply H; [by repeat constructor..|constructor].
Defined.

Definition notify_parts : list (list piece) :=
  [Plain <$> chars "notify"; [Percent_n]; [Percent_s]; [Percent_v]].
Lemma notify_parts_ok : Forall (Forall piece_ok) notify_parts.
Proof. by repeat constructor. Qed.

Lemma monitor_reports_events_witness :
  (∃ m', watch (options false false) {[ 7 := chars "tty" ]} []
      (session_on (notice_bytes (Service_notice 7 (chars "tty") service_event_t.STARTED status_started)
                   ++ notice_bytes (Service_notice 7 (chars "tty") service_event_t.STOPPED status_started)) [Takes 3; Takes 30])
      = (m', Value 1)
      ∧ commands m' = [Some [chars "notify"; chars "tty"; chars "started"; []];
                       Some [chars "notify"; chars "tty"; chars "stopped"; []]])
  ∧ (∃ m', watch (options true true) ∅ [chars "LANG"]
      (session_on (notice_bytes (Env_notice (chars "PATH=/bin") true)
                   ++ notice_bytes (Env_notice (chars "LANG=C") false)) [Takes 1]) = (m', Value 0)
      ∧ commands m' = [Some [chars "notify"; chars "LANG"; chars "set"; chars "C"]]).
Proof.
  split.
  - destruct (connection_steady (notice_bytes (Service_notice 7 (chars "tty") service_event_t.STARTED status_started)
       ++ notice_bytes (Service_notice 7 (chars "tty") service_event_t.STOPPED status_started)) [Takes 3; Takes 30] [])
      as [Hs Hr]; [by repeat constructor|].
    destruct (monitor_reports_events (options false false) notify_parts {[ 7 := chars "tty" ]} []
      [Service_notice 7 (chars "tty") service_event_t.STARTED status_started;
       Service_notice 7 (chars "tty") service_event_t.STOPPED status_started] []
      (session_on (notice_bytes (Service_notice 7 (chars "tty") service_event_t.STARTED status_started)
         ++ notice_bytes (Service_notice 7 (chars "tty") service_event_t.STOPPED status_started)) [Takes 3; Takes 30]))
      as (m' & E & Hc); [reflexivity|apply notify_parts_ok|by repeat constructor|left; cbn; lia|exact Hr|exact Hs|].
    exists m'. split; [exact E|exact Hc].
  - destruct (connection_steady (notice_bytes (Env_notice (chars "PATH=/bin") true)
       ++ notice_bytes (Env_notice (chars "LANG=C") false)) [Takes 1] []) as [Hs Hr]; [by repeat constructor|].
    destruct (monitor_reports_events (options true true) notify_parts ∅ [chars "LANG"]
      [Env_notice (chars "PATH=/bin") true; Env_notice (chars "LANG=C") false] []
      (session_on (notice_bytes (Env_notice (chars "PATH=/bin") true) ++ notice_bytes (Env_notice (chars "LANG=C") false)) [Takes 1]))
      as (m' & E & Hc); [reflexivity|apply notify_parts_ok|by repeat constructor|left; cbn; lia|exact Hr|exact Hs|].
    exists m'. split; [exact E|exact Hc].
Defined.

(** ** What does not hold

    - A quote that is not closed takes the scan of the command beyond its end.
    - An unknown specifier is not put out as it is: the character behind the percent sign is
      taken from the wrong string.
    - The reply to a request for a service has 7 bytes of which only 6 are waited for: if the
      last is late, the length of the buffer wraps around.
    - A change of the environment between the request to listen and the reply to the request
      for the environment is taken for that reply. *)
Theorem monitor_defects :
  split_command [NEWLINE; QUOTE; 97] = None
  ∧ command_line [] None [] [chars "a%x"] = Some [chars "a%"]
  ∧ (∃ c', Monitor.load_service (chars "tty") (connection (record_packet 7 2 2) [Takes 6] [])
           = (c', Returns (Some (7, 2))) ∧ CpBuffer.length_ (rbuffer c') = 2 ^ 32 - 1)
  ∧ (∃ c', get_allenv (connection (environ_packet (chars "A=B") false ++ env_packet [chars "A=B"]) [] [])
           = (c', Throws Dinit_protocol_error)).
Proof.
  split_and!.
  - reflexivity.
  - reflexivity.
  - eexists. split; [vm_compute; reflexivity|]. reflexivity.
  - eexists. vm_compute. reflexivity.
Qed.
